(* ===== verification/_CoqProject ===== *)
-Q . S2P
Prelude.v
Config.v
StdSort.v
IntUtil.v
IntSwap.v
Varint.v
Keccak.v
Base58.v
TreeHash.v
Difficulty.v
HardForks.v
Archive.v
Pod.v
CryptoTypes.v
Basic.v
Transactions.v
BlockId.v
Offsets.v
HfTerms.v
TxSemantic.v
BlockReward.v
Limbs.v
Field25519.v
Scalar25519.v
Curve.v
CurveModel.v
Schnorr.v
RingSig.v
Clsag.v
StateM.v
DbArrays.v
Lmdb.v
DbAccess.v
OrdMap.v
Checkpoints.v
Shortener.v
Gateway.v
Assets.v
Aliases.v
TxHardforks.v
Chain.v
ChainSpec.v
ChainUndo.v
Blocks.v
GlobalIndexes.v
ForkChoice.v
InputChecks.v
InputSpec.v
CoinageRule.v
Balance.v
BalanceGen.v
TxSize.v
TxPool.v
PoolSpec.v
PoolChain.v
