(* ===== verification/Prelude.v ===== *)
(** * Zano: a verification library of the daemon's core logic

    This library models the consensus core of the node, the cryptographic
    routines it computes with and the formats it exchanges, in the way the
    C and C++ code under [src/src/] is written, and proves what makes the parts
    correct.  Constants are those of the main network; names are those of the code.

    ** How the program is put together

    A transaction arrives as a blob and is parsed (formats).  The pool takes it
    when it passes the semantic checks, the rules of the hard forks, the checks of
    its inputs against the chain and the check of its balance; it chooses the
    transactions of new blocks.  The chain adds the transactions of a block to its
    containers, keeps the difficulties, compares itself with alternative chains, and
    takes blocks back.  The containers are cached views of a key-value database.

    ** Files

    Base: [Prelude] (notations, tactics, lists, machine words, [outcome] for code that
    may throw), [Config] (currency_config.h), [StateM] (member functions that change
    containers and return a [bool]), [StdSort] (std::sort by its contract), [OrdMap]
    (std::map by height).

    Integers, hashes, strings: [IntUtil], [IntSwap] (int-util.h), [Varint] (varint.h),
    [Keccak] (keccak.c, hash.c), [TreeHash] (tree-hash.c), [Base58] (base58.cpp), [Pod]
    (string_tools.h).  Reference definitions: FIPS 202, Merkle trees, reversal of bytes.

    Formats: [Archive] (serialization/), [CryptoTypes], [Basic], [Transactions]
    (currency_basic.h and the older layouts of currency_basic_backward_comp.inl),
    [BlockId] (currency_format_utils_blocks.cpp), [TxSize] (sizes of transactions),
    [Offsets] (references of an input to outputs).  A [codec] is a writer, a reader and
    the values the format carries; the classes [RoundTrip] and [NonEmpty] prove the
    codec of a structure from its fields.

    Curve and signatures: [Limbs] (an interval analysis of straight-line limb code),
    [Field25519], [Scalar25519] (crypto-ops.c, field and scalars), [Curve] (point_t as an
    interface with laws), [CurveModel] (a group that satisfies them), [Schnorr] (keys
    of accounts and outputs, key images, signatures: crypto.cpp, zarcanum.h),
    [RingSig] (crypto.cpp), [Clsag] (clsag.cpp).

    Transactions by themselves: [HardForks] (core_runtime_config.h), [HfTerms]
    (hardfork_specific_terms.h), [TxSemantic] (tx_semantic_validation.cpp),
    [TxHardforks], [Balance] and [BalanceGen] (the check and the making of balance
    proofs, currency_format_utils_transactions.cpp), [BlockReward].

    Blockchain (blockchain_storage.cpp): [Chain] (adding a transaction to every
    container and taking it back), [ChainSpec] (each operation container by
    container), [ChainUndo] (the theorems), [Gateway], [Assets], [Aliases] (the
    operations that transactions carry), [Blocks] (records of blocks, difficulties,
    medians, timestamps), [GlobalIndexes] (the counts of outputs per block and the
    table of global indexes), [Difficulty] (difficulty.cpp), [ForkChoice], [Checkpoints],
    [InputChecks] and [InputSpec] (check_tx_inputs), [CoinageRule] (its rule on the
    age of what is spent), [Shortener] (the short history a
    wallet keeps), [DbArrays] and [DbAccess] (db_abstract_accessor.h, cache_helper.h), [Lmdb]
    (the back end, db_backend_lmdb.cpp).

    Memory pool: [TxPool] (tx_pool.cpp), [PoolSpec] (the theorems) and [PoolChain] (the
    pool's questions answered by the chain).

    ** What the theorems show

    Money: an accepted confidential transaction balances for every asset exactly, or
    the openings of its commitments exhibit a relation between the generators
    ([Balance.no_money_created]); an honest sender's proof is accepted; an
    accepted transaction of the first versions conserves coins but for its gateway
    outputs, which the code does not count; the supply of an asset stays within its maximum;
    gateway balances are a ledger of integers that never leaves 64 bits.

    Authorisation: every input of an accepted transaction refers to existing,
    unlocked outputs whose keys signed it; an output that is sent to an address
    is found by its owner, whose derived key signs for it; assets, aliases and
    gateway addresses change only by their owners; ring signatures that were made
    by a member are accepted.

    The chain: no key image is spent twice, however transactions are added and
    taken back; the indexes are exact, by induction over the steps; removing a
    block restores the containers; over chains that add and remove blocks, the
    counts of outputs and the table of global indexes made of them are those of the
    blocks ([GlobalIndexes.global_index_table_correct]); recorded difficulties are the demanded ones, and
    those of an alternative chain are the ones of the main chain.

    Agreement: two nodes on two branches never both change to the other's, and with
    proof-of-stake tips exactly one does, provided both hold the same records and no
    remembered difficulty is out of date ([two_nodes]); an id of a block binds its contents, up to
    a collision that the theorem exhibits.

    The pool: its cache of key images is exact through every operation; only
    transactions that came with a block or from the core can conflict with another;
    a stranger's transaction is admitted exactly when it passes every check; over the
    chain of the other files its inputs then satisfy all that a block asks but the age
    of what they spend, and that too once the pool's own test of the age passes; a
    block template is a fee-ordered choice of ready transactions, of which those
    of strangers do not conflict.

    Representations: blobs and addresses round trip, the two layouts of arrays
    refine lists, a cached container answers as the LMDB back end alone would,
    over the schedules of threads in which writes are made inside transactions and
    no thread reads from a snapshot that a commit has overtaken (and what happens
    otherwise is shown by examples); the limb code computes modulo 2^255 - 19 and modulo the
    order without overflow; Keccak and the tree hash equal their references;
    the rules of semantics and hard forks are decided by the code.

    ** Interfaces and hypotheses

    [ArrayStore] is what the chain needs of the arrays of the database, and both
    layouts implement it.  [GatewayCrypto], [AssetCrypto] and [InputCrypto] stand for
    the operations on points and the verification of signatures as seen by the
    chain; [Curve] and [CurveLaws] for the points as seen by the signatures and
    balance proofs, with [free_curve] as an instance.  [i_bc_service] is a service
    of the blockchain, with a law that popping undoes pushing.  [StdSort] and [PoolDb]
    (the order in which the database enumerates) are used by their contracts.  The
    record [blockchain_queries] holds what the pool asks the chain, at each step anew;
    [PoolChain.chain_queries] is its instance over the modelled chain.

    The theorems on undoing assume what the caller guarantees: what the transaction
    added was not spent meanwhile ([nothing_spent]), its identifier is new in the stacks
    of default aliases ([fresh_tx]), counters of arrays and balances of gateway
    addresses have room ([room_for], [gateway_room]), and a service forgets an entry
    that is taken back ([service_law]).  The fork theorems are about valid chains
    ([chain_valid]), difficulty caches that are empty or right ([cache_fresh]) and two
    nodes that share a chain up to the split, hold the same records of all the blocks
    and have tips on the same side of hard forks 4 and 6 ([two_nodes]).  The checks of inputs are
    those outside the zone of the checkpoints, inside which the code skips the
    signatures.  In the pool, an id that is added again has the same prefix.

    ** Bounds and fuel

    A 64-bit varint has at most 10 groups and a base58 block 12 digits; a tree hash
    has at most 64 levels; the short history makes at most 64 steps for heights below
    2^62.  A walk down the chain has one step per block and one more, and the theorem
    [Blocks.downward_walks_terminate] shows that this is enough; summing the counts of the blocks takes one step per
    block and two more; trimming a cache and
    cleaning a history erase at most their length; the search for an asset id
    gives up after 1024 tries.  Chains are shorter than 2^64 blocks, with heights that
    increase below 2^32 where difficulties are multiplied; a block has fewer than 2^62
    transactions, and a ledger of a gateway address fewer than 2^62 entries.  The
    limb analysis bounds every intermediate word by intervals that the kernel
    computes; the input bounds are those of the comments of crypto-ops.c.

    ** Not modelled

    In the blockchain: the reorganization itself and the storage of alternative
    blocks, the checks of inputs of alternative blocks, the validation of stakes, block
    templates and the coinbase, migrations, and the queries for RPC.  In the
    cryptography: the formulas of point addition and decoding and their tables, the
    range proofs, the one-out-of-many proofs, the aggregation proofs and the proof of
    stake of zarcanum.cpp, ECDSA and EdDSA, stream ciphers, random numbers.  Around the
    core: the protocol handler and the network, RPC, wallets and their programs,
    miners, the stratum server, the graphical interface, services such as offers.
    Locks and threads occur only in [Lmdb] and [DbAccess]; logs and timings nowhere.  The copies of
    other projects under [src/contrib/] (zlib, liblmdb, libmdbx, ethash, most of epee)
    are used through their documented behaviour.  Exceptions of allocation are not
    modelled.  Soundness of the signature schemes, as a statement on adversaries,
    is outside: what is shown is completeness and, for balances, the extraction of a
    relation from given openings. *)

From Stdlib Require Export ZArith Lia Bool List String.
From stdpp Require Export base numbers list gmap.

#[global] Open Scope Z_scope.

(** ** Tactics *)

(** [zbool] turns the boolean comparisons of [Z] in the context into
    propositions. *)
Ltac zbool :=
  repeat match goal with
  | H : (_ && _)%bool = true |- _ => apply andb_prop in H; destruct H
  | H : (_ || _)%bool = false |- _ => apply orb_false_elim in H; destruct H
  | H : (_ <? _) = true |- _ => apply Z.ltb_lt in H
  | H : (_ <? _) = false |- _ => apply Z.ltb_ge in H
  | H : (_ <=? _) = true |- _ => apply Z.leb_le in H
  | H : (_ <=? _) = false |- _ => apply Z.leb_gt in H
  | H : (_ =? _) = true |- _ => apply Z.eqb_eq in H
  | H : (_ =? _) = false |- _ => apply Z.eqb_neq in H
  | H : negb _ = true |- _ => apply negb_true_iff in H
  | H : negb _ = false |- _ => apply negb_false_iff in H
  end.

(** [zcase] splits on the first conditional of the goal. *)
Ltac zcase :=
  match goal with
  | |- context [if ?b then _ else _] => let E := fresh "E" in destruct b eqn:E; zbool
  end.

(** ** Machine integers

    An unsigned [w]-bit integer is a [Z] in [0, 2^w); an operation of the C
    code that can wrap is followed by [wrap w]. *)

Definition wrap (w x : Z) : Z := x mod 2 ^ w.
Abbreviation u8 := (wrap 8).
Abbreviation u32 := (wrap 32).
Abbreviation u64 := (wrap 64).
Abbreviation u128 := (wrap 128).

Definition in_u (w x : Z) : Prop := 0 <= x < 2 ^ w.
Abbreviation is_u8 := (in_u 8).
Abbreviation is_u32 := (in_u 32).
Abbreviation is_u64 := (in_u 64).
Abbreviation is_u128 := (in_u 128).

Create HintDb machine.

Lemma wrap_small w x : in_u w x -> wrap w x = x.
Proof. apply Z.mod_small. Qed.

Lemma wrap_range w x : 0 <= w -> in_u w (wrap w x).
Proof. intros Hw. apply Z.mod_pos_bound. pose proof (Z.pow_pos_nonneg 2 w). lia. Qed.

Lemma in_u_intro w x : 0 <= x -> x < 2 ^ w -> in_u w x.
Proof. by split. Qed.

Lemma in_u_le w w' x : w <= w' -> in_u w x -> in_u w' x.
Proof.
  intros Hw [H0 H1]. split; [done|].
  eapply Z.lt_le_trans; [exact H1|]. apply Z.pow_le_mono_r; lia.
Qed.

Lemma wrap_eq w x : 0 <= w -> exists k, x = wrap w x + k * 2 ^ w.
Proof.
  intros Hw. exists (x / 2 ^ w). unfold wrap.
  pose proof (Z.div_mod x (2 ^ w)). pose proof (Z.pow_pos_nonneg 2 w). lia.
Qed.

#[export] Hint Resolve wrap_range in_u_intro : machine.

(** [unwrap] removes the wraps whose argument [lia] (after [tac]) can bound. *)
Tactic Notation "unwrap" "by" tactic3(tac) :=
  repeat match goal with
  | |- context [wrap ?w ?x] =>
      lazymatch x with
      | context [wrap _ _] => fail
      | _ => rewrite (wrap_small w x) by (split; tac)
      end
  end.

(** ** Bits *)

Lemma land_ones_mod x n : 0 <= n -> Z.land x (2 ^ n - 1) = x mod 2 ^ n.
Proof.
  intros Hn. rewrite <- Z.land_ones by done. f_equal.
  rewrite Z.ones_equiv. lia.
Qed.

(** The sum of two numbers with disjoint bits is their bitwise or. *)
Lemma lor_add_low a b n :
  0 <= n -> 0 <= a < 2 ^ n -> Z.lor a (b * 2 ^ n) = a + b * 2 ^ n.
Proof.
  intros Hn Ha. rewrite <- Z.shiftl_mul_pow2 by done.
  symmetry.
  rewrite <- Z.lxor_lor.
  - apply Z.add_nocarry_lxor. apply Z.bits_inj'. intros i Hi.
    rewrite Z.land_spec, Z.bits_0.
    destruct (decide (i < n)).
    + rewrite Z.shiftl_spec_low by lia. apply andb_false_r.
    + rewrite <- (Z.mod_small a (2 ^ n)) by done.
      by rewrite Z.mod_pow2_bits_high by lia.
  - apply Z.bits_inj'. intros i Hi. rewrite Z.land_spec, Z.bits_0.
    destruct (decide (i < n)).
    + rewrite Z.shiftl_spec_low by lia. apply andb_false_r.
    + rewrite <- (Z.mod_small a (2 ^ n)) by done.
      by rewrite Z.mod_pow2_bits_high by lia.
Qed.

(** ** Little-endian byte strings

    A byte is a [Z] in [0, 256).  [le_split n x] are the [n] low bytes of [x],
    the least significant first: the object representation of an integer on
    the little-endian targets of the build. *)

Definition bytes_ok (l : list Z) : Prop := Forall is_u8 l.

Fixpoint le_split (n : nat) (x : Z) : list Z :=
  match n with
  | O => []
  | S n => u8 x :: le_split n (x / 256)
  end.

Fixpoint le_combine (l : list Z) : Z :=
  match l with
  | [] => 0
  | b :: l => b + 256 * le_combine l
  end.

Lemma length_le_split n x : List.length (le_split n x) = n.
Proof. revert x. induction n; simpl; auto. Qed.

Lemma le_split_bytes_ok n x : bytes_ok (le_split n x).
Proof. revert x. induction n; constructor; [by apply wrap_range | apply IHn]. Qed.

Lemma le_combine_split n x : le_combine (le_split n x) = x mod 256 ^ Z.of_nat n.
Proof.
  revert x. induction n as [|n IH]; intros x.
  - simpl. by rewrite Z.mod_1_r.
  - change (le_combine (le_split (S n) x)) with (u8 x + 256 * le_combine (le_split n (x / 256))).
    rewrite IH. unfold wrap. change (2 ^ 8) with 256.
    rewrite Nat2Z.inj_succ, Z.pow_succ_r by lia.
    rewrite Z.rem_mul_r by lia. lia.
Qed.

Lemma le_combine_range l : bytes_ok l -> 0 <= le_combine l < 256 ^ Z.of_nat (List.length l).
Proof.
  induction 1 as [|b l Hb Hl IH]; [done|].
  change (le_combine (b :: l)) with (b + 256 * le_combine l).
  cbn [List.length].
  rewrite Nat2Z.inj_succ, Z.pow_succ_r by lia. unfold in_u in Hb. lia.
Qed.

Lemma le_split_combine l : bytes_ok l -> le_split (List.length l) (le_combine l) = l.
Proof.
  induction 1 as [|b l Hb Hl IH]; [done|].
  change (le_combine (b :: l)) with (b + 256 * le_combine l).
  cbn [List.length le_split]. unfold in_u in Hb. f_equal.
  - unfold wrap. change (2 ^ 8) with 256.
    rewrite Z.mul_comm, Z.mod_add by lia. apply Z.mod_small. lia.
  - rewrite (Z.mul_comm 256), Z.div_add by lia. rewrite Z.div_small by lia. exact IH.
Qed.

Lemma le_combine_app l1 l2 :
  le_combine (l1 ++ l2) = le_combine l1 + 256 ^ Z.of_nat (List.length l1) * le_combine l2.
Proof.
  induction l1 as [|b l1 IH]; [simpl; lia|].
  change ((b :: l1) ++ l2) with (b :: (l1 ++ l2)).
  change (le_combine (b :: ?l)) with (b + 256 * le_combine l).
  cbn [List.length]. rewrite IH, Nat2Z.inj_succ, Z.pow_succ_r by lia. cbn [le_combine]. lia.
Qed.

#[export] Hint Resolve le_split_bytes_ok : machine.

(** *** Bit-level equalities of bounded width

    [zbits] reduces the [Z.testbit] of bitwise expressions at concrete
    indices; [bit_cases i n] splits [0 <= i < n] into its cases. *)

Lemma wrap_testbit_low w x i : 0 <= i < w -> Z.testbit (wrap w x) i = Z.testbit x i.
Proof. intros. apply Z.mod_pow2_bits_low. lia. Qed.

Lemma wrap_testbit_high w x i : 0 <= w <= i -> Z.testbit (wrap w x) i = false.
Proof. intros. apply Z.mod_pow2_bits_high. lia. Qed.

Lemma in_u_testbit_high w x i : in_u w x -> 0 <= w <= i -> Z.testbit x i = false.
Proof. intros Hx Hi. rewrite <- (wrap_small w x Hx). by apply wrap_testbit_high. Qed.

Lemma in_u_bits w x : 0 <= w -> 0 <= x -> (forall i, w <= i -> Z.testbit x i = false) -> in_u w x.
Proof.
  intros Hw Hx H.
  assert (x = wrap w x) as ->; [|by apply wrap_range].
  apply Z.bits_inj'. intros i Hi. destruct (decide (i < w)).
  - by rewrite wrap_testbit_low by lia.
  - rewrite wrap_testbit_high by lia. apply H. lia.
Qed.

Lemma in_u_lor w x y : 0 <= w -> in_u w x -> in_u w y -> in_u w (Z.lor x y).
Proof.
  intros Hw Hx Hy. apply in_u_bits; [done| |].
  - apply Z.lor_nonneg. unfold in_u in *; lia.
  - intros i Hi. by rewrite Z.lor_spec, !(in_u_testbit_high w) by done.
Qed.

Lemma in_u_lxor w x y : 0 <= w -> in_u w x -> in_u w y -> in_u w (Z.lxor x y).
Proof.
  intros Hw Hx Hy. apply in_u_bits; [done| |].
  - apply Z.lxor_nonneg. unfold in_u in *; lia.
  - intros i Hi. by rewrite Z.lxor_spec, !(in_u_testbit_high w) by done.
Qed.

Lemma in_u_shiftr w x n : 0 <= n -> in_u w x -> in_u w (Z.shiftr x n).
Proof.
  intros Hn [H0 H1]. rewrite Z.shiftr_div_pow2 by done.
  pose proof (Z.pow_pos_nonneg 2 n). split; [apply Z.div_pos; lia|].
  eapply Z.le_lt_trans; [|exact H1]. apply Z.div_le_upper_bound; nia.
Qed.

#[export] Hint Resolve in_u_lor in_u_lxor in_u_shiftr : machine.

Ltac bit_cases i n :=
  lazymatch n with
  | 0 => exfalso; lia
  | _ => let m := eval vm_compute in (n - 1) in
         destruct (decide (i = m)) as [->|?]; [|bit_cases i m]
  end.

Ltac zbits :=
  repeat first
    [ rewrite Z.lor_spec | rewrite Z.land_spec | rewrite Z.lxor_spec
    | rewrite wrap_testbit_low by lia | rewrite wrap_testbit_high by lia
    | rewrite Z.shiftr_spec by lia | rewrite Z.shiftl_spec_low by lia
    | rewrite Z.shiftl_spec_high by lia | rewrite Z.bits_0 ];
  repeat match goal with
  | |- context [Z.testbit ?x ?i] =>
      let j := eval vm_compute in i in
      lazymatch i with j => fail | _ => change (Z.testbit x i) with (Z.testbit x j) end
  | |- context [Z.testbit ?x ?i] =>
      let b := eval vm_compute in (Z.testbit x i) in
      lazymatch b with
      | true => change (Z.testbit x i) with true
      | false => change (Z.testbit x i) with false
      end
  end;
  rewrite ?andb_false_r, ?andb_true_r, ?orb_false_r, ?orb_false_l.

Lemma lookup_le_split n x j : (j < n)%nat ->
  le_split n x !! j = Some (u8 (x / 2 ^ (8 * Z.of_nat j))).
Proof.
  revert x j. induction n as [|n IH]; intros x j Hj; [lia|].
  destruct j as [|j]; cbn [le_split lookup list_lookup].
  - by rewrite Z.div_1_r.
  - change (le_split n (x / 256) !! j = Some (u8 (x / 2 ^ (8 * Z.of_nat (S j))))).
    rewrite IH by lia. do 2 f_equal. rewrite Z.div_div by lia. f_equal.
    change 256 with (2 ^ 8). rewrite <- Z.pow_add_r by lia. f_equal. lia.
Qed.

Lemma le_split_inj n x y :
  0 <= x < 256 ^ Z.of_nat n -> 0 <= y < 256 ^ Z.of_nat n ->
  le_split n x = le_split n y -> x = y.
Proof.
  intros Hx Hy H. apply (f_equal le_combine) in H.
  rewrite !le_combine_split, !Z.mod_small in H by done. done.
Qed.

(** Equality of byte strings, index by index. *)
Lemma le_split_ext n x (l : list Z) :
  List.length l = n -> (forall j, (j < n)%nat -> l !! j = Some (u8 (x / 2 ^ (8 * Z.of_nat j)))) ->
  le_split n x = l.
Proof.
  intros Hl H. apply list_eq. intros j. destruct (decide (j < n)%nat).
  - by rewrite lookup_le_split, H.
  - rewrite !lookup_ge_None_2; [done|lia|rewrite length_le_split; lia].
Qed.

(** ** Loops and arrays

    [for_loop i n f a] runs [f i], [f (i+1)], ... [n] times: the counted [for]
    loops of the code. *)

Fixpoint for_loop {A} (i n : nat) (f : nat -> A -> A) (a : A) : A :=
  match n with
  | O => a
  | S n => for_loop (S i) n f (f i a)
  end.

(** Reading an element of a C array held in a list of words. *)
Definition ld (l : list Z) (i : nat) : Z := List.nth i l 0.

Lemma for_loop_ind {A} (P : nat -> A -> Prop) (f : nat -> A -> A) i n a :
  P i a -> (forall k x, (i <= k < i + n)%nat -> P k x -> P (S k) (f k x)) ->
  P (i + n)%nat (for_loop i n f a).
Proof.
  revert i a. induction n as [|n IH]; intros i a H0 Hs; [by rewrite Nat.add_0_r|].
  cbn [for_loop]. replace (i + S n)%nat with (S i + n)%nat by lia.
  apply IH; [apply Hs; [lia|done]|]. intros k x Hk. apply Hs. lia.
Qed.

Lemma for_loop_inv {A} (P : A -> Prop) (f : nat -> A -> A) i n a :
  P a -> (forall k x, (i <= k < i + n)%nat -> P x -> P (f k x)) -> P (for_loop i n f a).
Proof. intros H0 Hs. by apply (for_loop_ind (fun _ => P)). Qed.

Lemma for_loop_ext {A} (f g : nat -> A -> A) i n a :
  (forall k x, (i <= k < i + n)%nat -> f k x = g k x) -> for_loop i n f a = for_loop i n g a.
Proof.
  revert i a. induction n as [|n IH]; intros i a H; [done|].
  cbn [for_loop]. rewrite H by lia. apply IH. intros. apply H. lia.
Qed.

Lemma for_loop_ext_inv {A} (P : A -> Prop) (f g : nat -> A -> A) i n a :
  P a -> (forall k x, (i <= k < i + n)%nat -> P x -> f k x = g k x /\ P (f k x)) ->
  for_loop i n f a = for_loop i n g a.
Proof.
  revert i a. induction n as [|n IH]; intros i a Ha H; [done|].
  cbn [for_loop]. destruct (H i a) as [E HP]; [lia|done|]. rewrite <- E.
  apply IH; [done|]. intros. apply H; [lia|done].
Qed.

(** ** Operations that throw

    [Throw] stands for a C++ exception or for a step whose behaviour the
    language leaves undefined (an index outside its array). *)

Inductive outcome (A : Type) : Type :=
| Ret (a : A)
| Throw.
Arguments Ret {A} a.
Arguments Throw {A}.

#[export] Instance outcome_ret : MRet outcome := fun A a => Ret a.
#[export] Instance outcome_bind : MBind outcome := fun A B f m =>
  match m with Ret a => f a | Throw => Throw end.

(** [outcome_simp] runs the binds of the goal whose argument returned. *)
Ltac outcome_simp :=
  repeat (progress (change (mbind (M := outcome) ?f (Ret ?a)) with (f a)); cbv beta iota).

(** ** Strings as bytes *)

Definition chars (s : string) : list Z :=
  map (fun a => Z.of_N (Ascii.N_of_ascii a)) (String.list_ascii_of_string s).

(** A property of every byte, by enumeration. *)
Lemma forall_byte (P : Z -> bool) :
  forallb (fun n => P (Z.of_nat n)) (seq 0 256) = true -> forall b, is_u8 b -> P b = true.
Proof.
  intros H b [H0 H1]. rewrite forallb_forall in H.
  rewrite <- (Z2Nat.id b) by done. apply H, in_seq. change (2 ^ 8) with 256 in H1. lia.
Qed.

Lemma rev_replicate {A} n (x : A) : rev (replicate n x) = replicate n x.
Proof. rewrite rev_alt. apply reverse_replicate. Qed.

Lemma le_split_app n m x : le_split (n + m) x = le_split n x ++ le_split m (x / 256 ^ Z.of_nat n).
Proof.
  revert x. induction n as [|n IH]; intros x; [by rewrite Z.div_1_r|].
  cbn [Nat.add le_split app]. rewrite IH, Z.div_div by lia.
  do 4 f_equal. rewrite Nat2Z.inj_succ, Z.pow_succ_r by lia. done.
Qed.

Lemma le_split_mod n x : le_split n (x mod 256 ^ Z.of_nat n) = le_split n x.
Proof.
  apply le_split_ext; [apply length_le_split|]. intros j Hj. rewrite lookup_le_split by done.
  f_equal. apply Z.bits_inj'. intros i Hi.
  destruct (decide (i < 8)); [|by rewrite !wrap_testbit_high by lia].
  rewrite !wrap_testbit_low by lia. rewrite <- !Z.shiftr_div_pow2, !Z.shiftr_spec by lia.
  change 256 with (2 ^ 8). rewrite <- Z.pow_mul_r, Z.mod_pow2_bits_low by lia. done.
Qed.

Lemma le_split_u64 x : le_split 8 (u64 x) = le_split 8 x.
Proof. apply (le_split_mod 8). Qed.

(** ** Boolean tests of lists *)

Lemma forallb_iff {A} (f : A -> bool) (P : A -> Prop) l :
  (forall x, f x = true <-> P x) -> forallb f l = true <-> Forall P l.
Proof.
  intros Hf. rewrite forallb_forall, List.Forall_forall. split; intros H x Hx; by apply Hf, H.
Qed.

Lemma existsb_false_iff {A} (f : A -> bool) l : existsb f l = false <-> Forall (fun x => f x = false) l.
Proof.
  induction l as [|x l IH]; cbn; [by split|]. rewrite orb_false_iff, IH, Forall_cons. done.
Qed.
