(* ===== verification/Config.v ===== *)
(** * Protocol constants: [src/src/currency_core/currency_config.h] *)

From S2P Require Import Prelude.

Definition CURRENCY_MAX_BLOCK_NUMBER : Z := 500000000.
Definition CURRENCY_TX_MAX_ALLOWED_INPUTS : Z := 256.
Definition CURRENCY_TX_MAX_ALLOWED_OUTS : Z := 32.
Definition CURRENCY_TX_MAX_ALLOWED_OUTS_PRE_HF4 : Z := 2000.

Definition CURRENT_TRANSACTION_VERSION : Z := 4.
Definition TRANSACTION_VERSION_INITAL : Z := 0.
Definition TRANSACTION_VERSION_PRE_HF4 : Z := 1.
Definition TRANSACTION_VERSION_POST_HF4 : Z := 2.
Definition TRANSACTION_VERSION_POST_HF5 : Z := 3.
Definition TRANSACTION_VERSION_POST_HF6 : Z := 4.

Definition BLOCK_MAJOR_VERSION_INITIAL : Z := 0.
Definition HF1_BLOCK_MAJOR_VERSION : Z := 1.
Definition HF3_BLOCK_MAJOR_VERSION : Z := 2.
Definition HF3_BLOCK_MINOR_VERSION : Z := 0.
Definition CURRENT_BLOCK_MAJOR_VERSION : Z := 3.

Definition CURRENCY_BLOCK_GRANTED_FULL_REWARD_ZONE : Z := 125000.
Definition CURRENCY_COINBASE_BLOB_RESERVED_SIZE : Z := 1100.
Definition CURRENCY_MAX_TRANSACTION_BLOB_SIZE : Z :=
  CURRENCY_BLOCK_GRANTED_FULL_REWARD_ZONE - CURRENCY_COINBASE_BLOB_RESERVED_SIZE * 2.

Definition ZANO_HARDFORK_04_ZARCANUM : Z := 4.
Definition ZANO_HARDFORK_06 : Z := 6.
Definition ZANO_HARDFORKS_TOTAL : nat := 8.

Definition DIFFICULTY_POS_TARGET : Z := 120.
Definition DIFFICULTY_POW_TARGET : Z := 120.
Definition DIFFICULTY_TOTAL_TARGET : Z := (DIFFICULTY_POS_TARGET + DIFFICULTY_POW_TARGET) / 4.

Definition CURRENCY_LOCKED_TX_ALLOWED_DELTA_BLOCKS : Z := 1.
Definition CURRENCY_LOCKED_TX_ALLOWED_DELTA_SECONDS : Z :=
  DIFFICULTY_TOTAL_TARGET * CURRENCY_LOCKED_TX_ALLOWED_DELTA_BLOCKS.

Definition CURRENCY_BLOCK_REWARD : Z := 1000000000000.
Definition PREMINE_AMOUNT : Z := 17517203000000000000.
Definition CURRENCY_TX_MIN_ALLOWED_OUTS : Z := 2.
