(* ===== verification/StdSort.v ===== *)
(** * [std::sort]

    The standard fixes the result up to the order of equivalent elements, and
    only for a comparison that is a strict weak order.  The code is modelled over
    any function with that contract; insertion sort is one. *)

From stdpp Require Import sorting.
From S2P Require Import Prelude.

(** Nothing is below itself, and not being below is transitive. *)
Record strict_weak_order {A} (lt : A -> A -> bool) (l : list A) : Prop := {
  swo_irrefl x : x ∈ l -> lt x x = false;
  swo_asym x y : x ∈ l -> y ∈ l -> lt x y = true -> lt y x = false;
  swo_cotrans x y z : x ∈ l -> y ∈ l -> z ∈ l -> lt y x = false -> lt z y = false -> lt z x = false
}.

Class StdSort := {
  std_sort {A} : (A -> A -> bool) -> list A -> list A;
  std_sort_perm {A} (lt : A -> A -> bool) l : std_sort lt l ≡ₚ l;
  std_sort_sorted {A} (lt : A -> A -> bool) l :
    strict_weak_order lt l -> StronglySorted (fun x y => lt y x = false) (std_sort lt l)
}.

(** ** Insertion sort *)

Section insertion.
Context {A : Type} (lt : A -> A -> bool).

Fixpoint insert_sorted (x : A) (l : list A) : list A :=
  match l with
  | [] => [x]
  | y :: l' => if lt y x then y :: insert_sorted x l' else x :: l
  end.
Definition insertion_sort (l : list A) : list A := foldr insert_sorted [] l.

Lemma insert_sorted_perm x l : insert_sorted x l ≡ₚ x :: l.
Proof.
  induction l as [|y l IH]; cbn; [done|]. destruct (lt y x); [|done]. rewrite IH. apply Permutation_swap.
Qed.

Lemma insertion_sort_perm l : insertion_sort l ≡ₚ l.
Proof. induction l as [|x l IH]; cbn; [done|]. by rewrite insert_sorted_perm, IH. Qed.

Lemma insert_sorted_sorted x l : strict_weak_order lt (x :: l) ->
  StronglySorted (fun x y => lt y x = false) l -> StronglySorted (fun x y => lt y x = false) (insert_sorted x l).
Proof.
  induction l as [|y l IH]; intros [Hi Ha Hc] Hs; cbn; [repeat constructor|].
  apply StronglySorted_inv in Hs as [Hs Hy]. destruct (lt y x) eqn:E.
  - constructor.
    + apply IH; [|done]. split; [intros; apply Hi|intros ????; apply Ha|intros ??????; apply Hc]; set_solver.
    + rewrite insert_sorted_perm. constructor; [apply Ha; set_solver|done].
  - constructor; [by constructor|]. constructor; [done|]. apply list.Forall_forall. intros z Hz.
    rewrite list.Forall_forall in Hy. apply (Hc x y z); [set_solver..|done|by apply Hy].
Qed.

Lemma swo_mono l l' : l ⊆ l' -> strict_weak_order lt l' -> strict_weak_order lt l.
Proof. intros Hl [Hi Ha Hc]. split; [intros; apply Hi|intros ????; apply Ha|intros ??????; apply Hc]; set_solver. Qed.

Lemma insertion_sort_sorted l : strict_weak_order lt l -> StronglySorted (fun x y => lt y x = false) (insertion_sort l).
Proof.
  induction l as [|x l IH]; intros Hl; cbn; [constructor|]. apply insert_sorted_sorted.
  - apply (swo_mono _ (x :: l)); [|done]. intros y. rewrite elem_of_cons, insertion_sort_perm. set_solver.
  - apply IH. apply (swo_mono _ (x :: l)); set_solver.
Qed.
End insertion.

Definition insertion_std_sort : StdSort := {|
  std_sort := @insertion_sort;
  std_sort_perm := @insertion_sort_perm;
  std_sort_sorted := @insertion_sort_sorted
|}.

(** A comparison of keys in a total order is a strict weak order. *)
Lemma key_order {A} (key : A -> Z) l : strict_weak_order (fun x y => key x <? key y) l.
Proof. split; intros; zbool; lia. Qed.
