(* ===== verification/IntUtil.v ===== *)
(** * Wide integer arithmetic: [src/src/common/int-util.h]

    The portable 64x64 to 128 multiplication and the 128 by 32 division the
    difficulty and reward code is built on, the rotations of the ciphers and
    hashes, and the byte swaps. *)

From S2P Require Import Prelude.

(** ** Rotations *)

Definition rol32 (x r : Z) : Z :=
  Z.lor (u32 (Z.shiftl x (Z.land r 31))) (Z.shiftr x (Z.land (- r) 31)).

Definition rol64 (x r : Z) : Z :=
  Z.lor (u64 (Z.shiftl x (Z.land r 63))) (Z.shiftr x (Z.land (- r) 63)).

(** ** 128-bit multiplication and division *)

Definition hi_dword (val : Z) : Z := Z.shiftr val 32.
Definition lo_dword (val : Z) : Z := Z.land val 0xFFFFFFFF.

(** The pair [(product_lo, *product_hi)]; [None] when the [assert] fails. *)
Definition mul128_manually (multiplier multiplicand : Z) : option (Z * Z) :=
  let a := hi_dword multiplier in
  let b := lo_dword multiplier in
  let c := hi_dword multiplicand in
  let d := lo_dword multiplicand in
  let ac := u64 (a * c) in
  let ad := u64 (a * d) in
  let bc := u64 (b * c) in
  let bd := u64 (b * d) in
  let adbc := u64 (ad + bc) in
  let adbc_carry := if adbc <? ad then 1 else 0 in
  let product_lo := u64 (bd + u64 (Z.shiftl adbc 32)) in
  let product_lo_carry := if product_lo <? bd then 1 else 0 in
  let product_hi :=
    u64 (u64 (u64 (ac + Z.shiftr adbc 32) + u64 (Z.shiftl adbc_carry 32)) + product_lo_carry) in
  if ac <=? product_hi then Some (product_lo, product_hi) else None.

Definition mul128 (multiplier multiplicand : Z) : option (Z * Z) :=
  mul128_manually multiplier multiplicand.

(** Returns [(quotient, remainder)]; the in-out remainder is an argument. *)
Definition div_with_reminder (dividend divisor remainder : Z) : Z * Z :=
  let dividend := Z.lor dividend (u64 (Z.shiftl remainder 32)) in
  (dividend / divisor, u32 (dividend mod divisor)).

(** Returns [(remainder, quotient_hi, quotient_lo)]. *)
Definition div128_32_manually (dividend_hi dividend_lo divisor : Z) : Z * Z * Z :=
  let d3 := hi_dword dividend_hi in
  let d2 := lo_dword dividend_hi in
  let d1 := hi_dword dividend_lo in
  let d0 := lo_dword dividend_lo in
  let remainder := 0 in
  let '(q, remainder) := div_with_reminder d3 divisor remainder in
  let quotient_hi := u64 (Z.shiftl q 32) in
  let '(q, remainder) := div_with_reminder d2 divisor remainder in
  let quotient_hi := Z.lor quotient_hi q in
  let '(q, remainder) := div_with_reminder d1 divisor remainder in
  let quotient_lo := u64 (Z.shiftl q 32) in
  let '(q, remainder) := div_with_reminder d0 divisor remainder in
  let quotient_lo := Z.lor quotient_lo q in
  (remainder, quotient_hi, quotient_lo).

Definition div128_32 (dividend_hi dividend_lo divisor : Z) : Z * Z * Z :=
  div128_32_manually dividend_hi dividend_lo divisor.

(** ** Byte swaps *)

Definition SWAP32 (x : Z) : Z :=
  Z.lor (Z.lor (Z.lor (u32 (Z.shiftl (Z.land x 0x000000ff) 24))
    (u32 (Z.shiftl (Z.land x 0x0000ff00) 8)))
    (Z.shiftr (Z.land x 0x00ff0000) 8))
    (Z.shiftr (Z.land x 0xff000000) 24).

Definition SWAP64 (x : Z) : Z :=
  Z.lor (Z.lor (Z.lor (Z.lor (Z.lor (Z.lor (Z.lor
    (u64 (Z.shiftl (Z.land x 0x00000000000000ff) 56))
    (u64 (Z.shiftl (Z.land x 0x000000000000ff00) 40)))
    (u64 (Z.shiftl (Z.land x 0x0000000000ff0000) 24)))
    (u64 (Z.shiftl (Z.land x 0x00000000ff000000) 8)))
    (Z.shiftr (Z.land x 0x000000ff00000000) 8))
    (Z.shiftr (Z.land x 0x0000ff0000000000) 24))
    (Z.shiftr (Z.land x 0x00ff000000000000) 40))
    (Z.shiftr (Z.land x 0xff00000000000000) 56).

Definition ident32 (x : Z) : Z := x.
Definition ident64 (x : Z) : Z := x.

Definition swap32 (x : Z) : Z :=
  let x := Z.lor (u32 (Z.shiftl (Z.land x 0x00ff00ff) 8)) (Z.shiftr (Z.land x 0xff00ff00) 8) in
  Z.lor (u32 (Z.shiftl x 16)) (Z.shiftr x 16).

Definition swap64 (x : Z) : Z :=
  let x := Z.lor (u64 (Z.shiftl (Z.land x 0x00ff00ff00ff00ff) 8))
                 (Z.shiftr (Z.land x 0xff00ff00ff00ff00) 8) in
  let x := Z.lor (u64 (Z.shiftl (Z.land x 0x0000ffff0000ffff) 16))
                 (Z.shiftr (Z.land x 0xffff0000ffff0000) 16) in
  Z.lor (u64 (Z.shiftl x 32)) (Z.shiftr x 32).

(** The arrays of [mem_inplace_swap32] and [memcpy_swap32] (and the 64-bit
    twins) are lists of words: the loops swap the first [n]. *)
Definition mem_inplace_swap32 (mem : list Z) (n : nat) : list Z :=
  map swap32 (take n mem) ++ drop n mem.
Definition mem_inplace_swap64 (mem : list Z) (n : nat) : list Z :=
  map swap64 (take n mem) ++ drop n mem.
Definition memcpy_swap32 (dst src : list Z) (n : nat) : list Z :=
  map swap32 (take n src) ++ drop n dst.
Definition memcpy_swap64 (dst src : list Z) (n : nat) : list Z :=
  map swap64 (take n src) ++ drop n dst.

(** On the little-endian targets the [LE] macros are the identity and the
    [BE] macros the swaps. *)
Definition swap32le := ident32.
Definition swap64le := ident64.
Definition swap32be := swap32.
Definition swap64be := swap64.
Definition SWAP32LE := ident32.
Definition SWAP64BE := SWAP64.

(** ** Properties *)

Lemma hi_lo_dword x : is_u64 x ->
  x = hi_dword x * 2 ^ 32 + lo_dword x /\ is_u32 (hi_dword x) /\ is_u32 (lo_dword x).
Proof.
  unfold in_u, hi_dword, lo_dword. intros Hx.
  change 0xFFFFFFFF with (2 ^ 32 - 1). rewrite land_ones_mod, Z.shiftr_div_pow2 by lia.
  pose proof (Z.div_mod x (2 ^ 32)). pose proof (Z.mod_pos_bound x (2 ^ 32)).
  split; [lia|]. split; [|lia].
  split; [apply Z.div_pos; lia | apply Z.div_lt_upper_bound; lia].
Qed.

Lemma mul_dwords_range a b : is_u32 a -> is_u32 b -> 0 <= a * b <= (2 ^ 32 - 1) * (2 ^ 32 - 1).
Proof. unfold in_u. nia. Qed.

Lemma u64_add_carry x y : is_u64 x -> is_u64 y ->
  u64 (x + y) = x + y - (if u64 (x + y) <? x then 2 ^ 64 else 0).
Proof.
  unfold in_u. intros Hx Hy. unfold wrap.
  destruct (decide (x + y < 2 ^ 64)).
  - rewrite Z.mod_small by lia. zcase; lia.
  - assert ((x + y) mod 2 ^ 64 = x + y - 2 ^ 64) as ->.
    { symmetry. apply Z.mod_unique with 1; lia. }
    zcase; lia.
Qed.

Lemma u64_shl32 x : is_u64 x -> u64 (Z.shiftl x 32) = (x mod 2 ^ 32) * 2 ^ 32.
Proof.
  intros Hx. rewrite Z.shiftl_mul_pow2 by lia. unfold wrap.
  change (2 ^ 64) with (2 ^ 32 * 2 ^ 32). rewrite Z.mul_mod_distr_r; lia.
Qed.

Lemma mul128_manually_spec x y : is_u64 x -> is_u64 y ->
  exists lo hi, mul128_manually x y = Some (lo, hi) /\
    is_u64 lo /\ is_u64 hi /\ hi * 2 ^ 64 + lo = x * y.
Proof.
  intros Hx Hy.
  destruct (hi_lo_dword x Hx) as (Ex & Ha & Hb), (hi_lo_dword y Hy) as (Ey & Hc & Hd).
  unfold mul128_manually.
  set (a := hi_dword x) in *. set (b := lo_dword x) in *.
  set (c := hi_dword y) in *. set (d := lo_dword y) in *.
  pose proof (mul_dwords_range a c Ha Hc) as Rac.
  pose proof (mul_dwords_range a d Ha Hd) as Rad.
  pose proof (mul_dwords_range b c Hb Hc) as Rbc.
  pose proof (mul_dwords_range b d Hb Hd) as Rbd.
  assert (E : x * y = a * c * 2 ^ 64 + (a * d + b * c) * 2 ^ 32 + b * d) by nia.
  assert (B : x * y <= (2 ^ 64 - 1) * (2 ^ 64 - 1)) by (unfold in_u in Hx, Hy; nia).
  rewrite E in *. clear E Ex Ey.
  generalize dependent (a * c). intros ac Rac.
  generalize dependent (a * d). intros ad Rad.
  generalize dependent (b * c). intros bc Rbc.
  generalize dependent (b * d). intros bd Rbd. clear a b c d Ha Hb Hc Hd Hx Hy x y.
  cbv zeta.
  rewrite !(wrap_small 64 ac), !(wrap_small 64 ad), !(wrap_small 64 bc), !(wrap_small 64 bd)
    by (split; lia).
  pose proof (u64_add_carry ad bc ltac:(split; lia) ltac:(split; lia)) as H1.
  pose proof (wrap_range 64 (ad + bc) ltac:(lia)) as R1.
  set (adbc := u64 (ad + bc)) in *. clearbody adbc.
  rewrite (u64_shl32 adbc), Z.shiftr_div_pow2 by (done || lia).
  pose proof (Z.div_mod adbc (2 ^ 32) ltac:(lia)) as D.
  pose proof (Z.mod_pos_bound adbc (2 ^ 32) ltac:(lia)) as M.
  set (q := adbc / 2 ^ 32) in *. set (r := adbc mod 2 ^ 32) in *. clearbody q r.
  unfold in_u in R1.
  pose proof (u64_add_carry bd (r * 2 ^ 32) ltac:(split; lia) ltac:(split; lia)) as H2.
  pose proof (wrap_range 64 (bd + r * 2 ^ 32) ltac:(lia)) as R2.
  set (plo := u64 (bd + r * 2 ^ 32)) in *. clearbody plo. unfold in_u in R2.
  rewrite Z.shiftl_mul_pow2 by lia.
  set (c1 := if adbc <? ad then 1 else 0).
  set (c2 := if plo <? bd then 1 else 0).
  assert (adbc = ad + bc - c1 * 2 ^ 64 /\ 0 <= c1 <= 1) as [H1' Rc1]
    by (subst c1; destruct (adbc <? ad); lia).
  assert (plo = bd + r * 2 ^ 32 - c2 * 2 ^ 64 /\ 0 <= c2 <= 1) as [H2' Rc2]
    by (subst c2; destruct (plo <? bd); lia).
  clearbody c1 c2. clear H1 H2.
  unwrap by lia.
  exists plo, (ac + q + c1 * 2 ^ 32 + c2).
  zcase; [|lia]. unfold in_u. repeat split; lia.
Qed.

(** the portable 64-bit multiplication never trips its assertion and
    returns the two halves of the exact 128-bit product. *)
Theorem mul128_manually_correct x y : is_u64 x -> is_u64 y ->
  exists lo hi, mul128_manually x y = Some (lo, hi) /\
    is_u64 lo /\ is_u64 hi /\ hi * 2 ^ 64 + lo = x * y.
Proof. apply mul128_manually_spec. Qed.

Example mul128_manually_correct_witness :
  is_u64 0xFFFFFFFFFFFFFFFF /\ is_u64 0xFFFFFFFF00000001 /\
  exists lo hi, mul128_manually 0xFFFFFFFFFFFFFFFF 0xFFFFFFFF00000001 = Some (lo, hi) /\
    is_u64 lo /\ is_u64 hi /\
    hi * 2 ^ 64 + lo = 0xFFFFFFFFFFFFFFFF * 0xFFFFFFFF00000001.
Proof.
  split; [split; lia|]. split; [split; lia|].
  apply (mul128_manually_correct 0xFFFFFFFFFFFFFFFF 0xFFFFFFFF00000001); split; lia.
Defined.

Lemma div_with_reminder_correct x d r :
  is_u32 x -> is_u32 d -> 0 <= r < d ->
  exists q r', div_with_reminder x d r = (q, r') /\
    r * 2 ^ 32 + x = d * q + r' /\ 0 <= r' < d /\ is_u32 q.
Proof.
  intros Hx Hd Hr. unfold div_with_reminder. unfold in_u in *.
  rewrite Z.shiftl_mul_pow2 by lia. unwrap by lia.
  rewrite (lor_add_low x r 32) by lia.
  pose proof (Z.div_mod (x + r * 2 ^ 32) d ltac:(lia)).
  pose proof (Z.mod_pos_bound (x + r * 2 ^ 32) d ltac:(lia)).
  unwrap by lia. eexists _, _. split; [done|].
  split; [lia|]. split; [done|].
  split; [apply Z.div_pos; lia | apply Z.div_lt_upper_bound; nia].
Qed.

Lemma quotient_join qh ql : is_u32 qh -> is_u32 ql ->
  Z.lor (u64 (Z.shiftl qh 32)) ql = qh * 2 ^ 32 + ql.
Proof.
  unfold in_u. intros H1 H2. rewrite Z.shiftl_mul_pow2 by lia. unwrap by lia.
  rewrite Z.lor_comm, lor_add_low by lia. lia.
Qed.

Lemma div128_32_manually_spec hi lo d :
  is_u64 hi -> is_u64 lo -> is_u32 d -> d <> 0 ->
  exists r qh ql, div128_32_manually hi lo d = (r, qh, ql) /\
    is_u64 qh /\ is_u64 ql /\
    qh * 2 ^ 64 + ql = (hi * 2 ^ 64 + lo) / d /\ r = (hi * 2 ^ 64 + lo) mod d.
Proof.
  intros Hhi Hlo Hd Hd0. unfold div128_32_manually.
  destruct (hi_lo_dword hi Hhi) as (E1 & H3 & H2), (hi_lo_dword lo Hlo) as (E2 & H1 & H0).
  assert (0 < d) by (unfold in_u in Hd; lia).
  destruct (div_with_reminder_correct _ d 0 H3 Hd ltac:(lia)) as (q3 & r3 & -> & D3 & R3 & Q3).
  destruct (div_with_reminder_correct _ d r3 H2 Hd R3) as (q2 & r2 & -> & D2 & R2 & Q2).
  destruct (div_with_reminder_correct _ d r2 H1 Hd R2) as (q1 & r1 & -> & D1 & R1 & Q1).
  destruct (div_with_reminder_correct _ d r1 H0 Hd R1) as (q0 & r0 & -> & D0 & R0 & Q0).
  rewrite !quotient_join by done. unfold in_u in *.
  eexists _, _, _. split; [done|].
  assert (E : hi * 2 ^ 64 + lo = d * ((q3 * 2 ^ 32 + q2) * 2 ^ 64 + (q1 * 2 ^ 32 + q0)) + r0) by nia.
  repeat split; try lia.
  - by apply Z.div_unique with r0; [lia|].
  - by apply Z.mod_unique with ((q3 * 2 ^ 32 + q2) * 2 ^ 64 + (q1 * 2 ^ 32 + q0)); [lia|].
Qed.

(** the base-2^32 long division returns the quotient, split in two
    64-bit words, and the remainder of a 128-bit dividend. *)
Theorem div128_32_manually_correct hi lo d :
  is_u64 hi -> is_u64 lo -> is_u32 d -> d <> 0 ->
  exists r qh ql, div128_32_manually hi lo d = (r, qh, ql) /\
    is_u64 qh /\ is_u64 ql /\
    qh * 2 ^ 64 + ql = (hi * 2 ^ 64 + lo) / d /\ r = (hi * 2 ^ 64 + lo) mod d.
Proof. apply div128_32_manually_spec. Qed.

Example div128_32_manually_correct_witness :
  exists r qh ql, div128_32_manually 0xFFFFFFFFFFFFFFFF 12345 0xFFFFFFFE = (r, qh, ql) /\
    is_u64 qh /\ is_u64 ql /\
    qh * 2 ^ 64 + ql = (0xFFFFFFFFFFFFFFFF * 2 ^ 64 + 12345) / 0xFFFFFFFE /\
    r = (0xFFFFFFFFFFFFFFFF * 2 ^ 64 + 12345) mod 0xFFFFFFFE.
Proof. apply (div128_32_manually_correct 0xFFFFFFFFFFFFFFFF 12345 0xFFFFFFFE); unfold in_u; lia. Defined.
