(* ===== verification/IntSwap.v ===== *)
(** * Byte order: the swaps of [src/src/common/int-util.h]

    The two ways the header reverses the bytes of a word, the masked
    butterfly [swap64] and the macro [SWAP64], against the reversal of the
    byte string. *)

From S2P Require Import Prelude IntUtil.

(** Byte [j] of the swapped word is byte [n - 1 - j] of the word. *)
Ltac swap_byte :=
  apply Z.bits_inj'; intros i Hi;
  rewrite <- ?Z.shiftr_div_pow2 by lia;
  destruct (decide (i < 8)); [|by rewrite !wrap_testbit_high by lia];
  bit_cases i 8; zbits; done.

Lemma swap64_byte x j : 0 <= j < 8 ->
  u8 (swap64 x / 2 ^ (8 * j)) = u8 (x / 2 ^ (56 - 8 * j)).
Proof.
  intros Hj. unfold swap64. bit_cases j 8; swap_byte.
Qed.

Lemma SWAP64_byte x j : 0 <= j < 8 ->
  u8 (SWAP64 x / 2 ^ (8 * j)) = u8 (x / 2 ^ (56 - 8 * j)).
Proof. intros Hj. unfold SWAP64. bit_cases j 8; swap_byte. Qed.

Lemma swap32_byte x j : 0 <= j < 4 ->
  u8 (swap32 x / 2 ^ (8 * j)) = u8 (x / 2 ^ (24 - 8 * j)).
Proof. intros Hj. unfold swap32. bit_cases j 4; swap_byte. Qed.

Lemma SWAP32_byte x j : 0 <= j < 4 ->
  u8 (SWAP32 x / 2 ^ (8 * j)) = u8 (x / 2 ^ (24 - 8 * j)).
Proof. intros Hj. unfold SWAP32. bit_cases j 4; swap_byte. Qed.

(** A word whose bytes are those of [x] in the other order. *)
Lemma le_split_swapped n f x :
  (forall j, 0 <= j < Z.of_nat n ->
     u8 (f x / 2 ^ (8 * j)) = u8 (x / 2 ^ (8 * (Z.of_nat n - 1) - 8 * j))) ->
  le_split n (f x) = rev (le_split n x).
Proof.
  intros H. apply le_split_ext.
  - by rewrite length_rev, length_le_split.
  - intros j Hj. rewrite rev_alt. change (rev_append (le_split n x) []) with (reverse (le_split n x)).
    rewrite reverse_lookup; rewrite length_le_split; [|done].
    rewrite lookup_le_split by lia. f_equal. rewrite H by lia. do 3 f_equal. lia.
Qed.

Lemma swap64_bytes x : le_split 8 (swap64 x) = rev (le_split 8 x).
Proof. apply le_split_swapped. intros. by apply swap64_byte. Qed.

Lemma SWAP64_bytes x : le_split 8 (SWAP64 x) = rev (le_split 8 x).
Proof. apply le_split_swapped. intros. by apply SWAP64_byte. Qed.

Lemma swap32_bytes x : le_split 4 (swap32 x) = rev (le_split 4 x).
Proof. apply le_split_swapped. intros. by apply swap32_byte. Qed.

Lemma SWAP32_bytes x : le_split 4 (SWAP32 x) = rev (le_split 4 x).
Proof. apply le_split_swapped. intros. by apply SWAP32_byte. Qed.

Lemma is_u64_shr x n : 0 <= n -> is_u64 x -> is_u64 (Z.shiftr x n).
Proof. apply in_u_shiftr. Qed.

Lemma in_u_land w x m : 0 <= w -> 0 <= x -> in_u w m -> in_u w (Z.land x m).
Proof.
  intros Hw Hx Hm. apply in_u_bits; [done|apply Z.land_nonneg; lia|].
  intros i Hi. rewrite Z.land_spec, (in_u_testbit_high w m) by done. apply andb_false_r.
Qed.

Lemma swap64_range x : 0 <= x -> is_u64 (swap64 x).
Proof.
  intros Hx. unfold swap64.
  repeat first [apply in_u_lor | apply in_u_shiftr | apply in_u_land | apply wrap_range
               | (split; lia) | lia
               | apply Z.lor_nonneg; split | apply Z.shiftr_nonneg | apply Z.land_nonneg; right
               | apply wrap_range ].
Qed.

Lemma SWAP64_range x : 0 <= x -> is_u64 (SWAP64 x).
Proof.
  intros Hx. unfold SWAP64.
  repeat first [apply in_u_lor | apply in_u_shiftr | apply in_u_land | apply wrap_range
               | (split; lia) | lia ].
Qed.

Lemma swap64_involutive x : is_u64 x -> swap64 (swap64 x) = x.
Proof.
  intros Hx. apply (le_split_inj 8); [apply swap64_range, swap64_range, Hx|exact Hx|].
  by rewrite !swap64_bytes, rev_involutive.
Qed.

(** [swap64] and the [SWAP64] macro compute the same word: the one whose
    little-endian bytes are those of the argument in reverse order; applying
    the swap twice gives the argument back. *)
Theorem swap64_reverses_bytes x : is_u64 x ->
  le_split 8 (swap64 x) = rev (le_split 8 x) /\ SWAP64 x = swap64 x /\ swap64 (swap64 x) = x.
Proof.
  intros Hx. split; [apply swap64_bytes|]. split; [|by apply swap64_involutive].
  apply (le_split_inj 8).
  - apply SWAP64_range, Hx.
  - apply swap64_range, Hx.
  - by rewrite SWAP64_bytes, swap64_bytes.
Qed.

Example swap64_reverses_bytes_witness :
  is_u64 0x0102030405060708 /\
  (le_split 8 (swap64 0x0102030405060708) = rev (le_split 8 0x0102030405060708) /\
   SWAP64 0x0102030405060708 = swap64 0x0102030405060708 /\
   swap64 (swap64 0x0102030405060708) = 0x0102030405060708).
Proof.
  split; [split; lia|]. apply (swap64_reverses_bytes 0x0102030405060708). split; lia.
Defined.
