(* ===== verification/Varint.v ===== *)
(** * Variable-length integers: [src/src/common/varint.h]

    The base-128 encoding of every integer of the wire format, the canonical
    decoder with its three outcomes, and the size predictor used to estimate
    transaction blobs. *)

From S2P Require Import Prelude.

(** [get_varint_packed_size]: the estimate of the encoded length. *)
Definition get_varint_packed_size (v : Z) : Z :=
  if v <=? 127 then 1
  else if v <=? 16383 then 2
  else if v <=? 2097151 then 3
  else if v <=? 268435455 then 4
  else if v <=? 34359738367 then 5
  else if v <=? 4398046511103 then 6
  else if v <=? 562949953421311 then 7
  else 8.

(** The loop of [write_varint]; [fuel] bounds its iterations. *)
Fixpoint write_varint_loop (fuel : nat) (i : Z) : option (list Z) :=
  match fuel with
  | O => None
  | S fuel =>
      if 0x80 <=? i then
        l ← write_varint_loop fuel (Z.shiftr i 7);
        Some (Z.lor (Z.land (u8 i) 0x7f) 0x80 :: l)
      else Some [u8 i]
  end.

(** Ten groups of seven bits are enough for the widest type, [uint64_t]. *)
Definition write_varint (i : Z) : option (list Z) := write_varint_loop 10 i.

Definition get_varint_data (v : Z) : option (list Z) := write_varint v.

(** [read_varint<bits, InputIt, T>] with [T] of width [w]: the return code,
    the value left in [i] and the iterator, as the bytes that remain.  A
    positive code is the number of bytes read; [-1] is an overflow of [bits],
    [-2] a non-canonical encoding.  At the end of input the code is the
    number of bytes seen so far. *)
Fixpoint read_varint_loop (w bits shift read i : Z) (l : list Z) : Z * Z * list Z :=
  match l with
  | [] => (read, i, [])
  | byte :: l =>
      let read := read + 1 in
      if (bits <=? shift + 7) && (Z.shiftl 1 (bits - shift) <=? byte) then (-1, i, l)
      else if (byte =? 0) && negb (shift =? 0) then (-2, i, l)
      else
        let i := Z.lor i (wrap w (Z.shiftl (Z.land byte 0x7f) shift)) in
        if Z.land byte 0x80 =? 0 then (read, i, l)
        else read_varint_loop w bits (shift + 7) read i l
  end.

Definition read_varint_bits (w bits : Z) (l : list Z) : Z * Z * list Z :=
  read_varint_loop w bits 0 0 0 l.

(** The second overload takes [bits] from [std::numeric_limits<T>::digits]. *)
Definition read_varint (w : Z) (l : list Z) : Z * Z * list Z := read_varint_bits w w l.

(** ** Bytes of the encoding *)

Lemma cont_byte i : 0 <= i ->
  Z.lor (Z.land (u8 i) 0x7f) 0x80 = i mod 128 + 128.
Proof.
  intros Hi. change 0x7f with (2 ^ 7 - 1). rewrite land_ones_mod by lia.
  change 0x80 with (1 * 2 ^ 7). rewrite lor_add_low by (try apply Z.mod_pos_bound; lia).
  unfold wrap. change (2 ^ 8) with (2 ^ 7 * 2). rewrite Z.rem_mul_r by lia.
  rewrite Z.mul_comm, Z.mod_add by lia. rewrite Z.mod_mod by lia. done.
Qed.

Lemma land_7f b : is_u8 b -> Z.land b 0x7f = b mod 128.
Proof. intros. change 0x7f with (2 ^ 7 - 1). by rewrite land_ones_mod. Qed.

Lemma land_80 b : is_u8 b -> (Z.land b 0x80 =? 0) = (b <? 128).
Proof.
  intros Hb. unfold in_u in Hb.
  assert (E : b = b mod 128 + b / 128 * 2 ^ 7) by (pose proof (Z.div_mod b 128); lia).
  assert (Z.land b 0x80 = b / 128 * 128) as ->.
  { apply Z.bits_inj'. intros k Hk. rewrite Z.land_spec.
    change (b / 128 * 128) with (b / 2 ^ 7 * 2 ^ 7).
    rewrite <- Z.shiftl_mul_pow2, <- Z.shiftr_div_pow2 by lia.
    destruct (decide (k < 7)).
    - rewrite Z.shiftl_spec_low by lia. bit_cases k 7; apply andb_false_r.
    - rewrite Z.shiftl_spec, Z.shiftr_spec by lia.
      replace (k - 7 + 7) with k by lia.
      destruct (decide (k = 7)) as [->|]; [apply andb_true_r|].
      rewrite (in_u_testbit_high 8 b k) by (unfold in_u; lia). done. }
  destruct (b <? 128) eqn:?; zbool.
  - rewrite Z.div_small by lia. done.
  - apply Z.eqb_neq. assert (1 <= b / 128) by (apply Z.div_le_lower_bound; lia). lia.
Qed.

(** The writer's loop in arithmetic form: the reference encoding. *)
Fixpoint varint_digits (fuel : nat) (i : Z) : list Z :=
  match fuel with
  | O => []
  | S fuel => if i <? 128 then [i] else (i mod 128 + 128) :: varint_digits fuel (i / 128)
  end.

Lemma write_varint_loop_digits fuel i :
  0 <= i < 128 ^ Z.of_nat fuel -> (0 < fuel)%nat ->
  write_varint_loop fuel i = Some (varint_digits fuel i).
Proof.
  revert i. induction fuel as [|fuel IH]; intros i Hi Hf; [lia|].
  cbn [write_varint_loop varint_digits].
  destruct (0x80 <=? i) eqn:E; zbool.
  - replace (i <? 128) with false by (symmetry; apply Z.ltb_ge; lia).
    rewrite Nat2Z.inj_succ, Z.pow_succ_r in Hi by lia.
    rewrite cont_byte, Z.shiftr_div_pow2 by lia. change (2 ^ 7) with 128.
    rewrite IH; [done| |].
    + split; [apply Z.div_pos; lia | apply Z.div_lt_upper_bound; lia].
    + destruct fuel; [change (Z.of_nat 0) with 0 in Hi; lia|lia].
  - replace (i <? 128) with true by (symmetry; apply Z.ltb_lt; lia).
    rewrite wrap_small by (split; lia). done.
Qed.

Lemma write_varint_digits i : is_u64 i -> write_varint i = Some (varint_digits 10 i).
Proof. intros [H0 H1]. apply write_varint_loop_digits; [|lia]. split; [done|]. etrans; [exact H1|done]. Qed.

Lemma varint_digits_bytes fuel i : 0 <= i -> bytes_ok (varint_digits fuel i).
Proof.
  revert i. induction fuel as [|fuel IH]; intros i Hi; [constructor|].
  cbn [varint_digits]. zcase.
  - repeat constructor; lia.
  - pose proof (Z.mod_pos_bound i 128). constructor; [split; lia|].
    apply IH. apply Z.div_pos; lia.
Qed.

Lemma varint_digits_fuel f f' i :
  (0 < f)%nat -> (0 < f')%nat -> 0 <= i < 128 ^ Z.of_nat f -> 0 <= i < 128 ^ Z.of_nat f' ->
  varint_digits f i = varint_digits f' i.
Proof.
  revert f' i. induction f as [|f IH]; intros [|f'] i Hf Hf' Hi Hi'; [lia..|].
  cbn [varint_digits]. zcase; [done|]. f_equal.
  rewrite !Nat2Z.inj_succ, !Z.pow_succ_r in * by lia.
  apply IH.
  1,2: destruct f, f'; try lia; exfalso; change (Z.of_nat 0) with 0 in *; lia.
  all: split; [apply Z.div_pos; lia | apply Z.div_lt_upper_bound; lia].
Qed.

(** ** Decoding an encoding *)

(** One step of the reader on a byte that passes both checks. *)
Lemma read_varint_step w bits shift read i b l :
  0 <= shift -> bits <= w -> 0 <= i < 2 ^ shift -> is_u8 b ->
  (b mod 128) * 2 ^ shift < 2 ^ bits -> (bits <= shift + 7 -> b < 2 ^ (bits - shift)) ->
  (b = 0 -> shift = 0) ->
  read_varint_loop w bits shift read i (b :: l) =
    (if b <? 128 then (read + 1, i + b mod 128 * 2 ^ shift, l)
     else read_varint_loop w bits (shift + 7) (read + 1) (i + b mod 128 * 2 ^ shift) l).
Proof.
  intros Hs Hw Hi Hb Hm Ho Hz. cbn [read_varint_loop].
  assert (((bits <=? shift + 7) && (Z.shiftl 1 (bits - shift) <=? b))%bool = false) as ->.
  { apply andb_false_iff. destruct (decide (bits <= shift + 7)).
    - right. apply Z.leb_gt. rewrite Z.shiftl_1_l. auto.
    - left. apply Z.leb_gt. lia. }
  assert (((b =? 0) && negb (shift =? 0))%bool = false) as ->.
  { apply andb_false_iff. destruct (decide (b = 0)).
    - right. rewrite Hz by done. done.
    - left. by apply Z.eqb_neq. }
  rewrite land_7f, land_80 by done.
  pose proof (Z.mod_pos_bound b 128 ltac:(lia)).
  rewrite Z.shiftl_mul_pow2 by done.
  rewrite wrap_small; [by rewrite lor_add_low by done|].
  pose proof (Z.pow_pos_nonneg 2 shift). split; [nia|].
  eapply Z.lt_le_trans; [exact Hm|]. by apply Z.pow_le_mono_r.
Qed.

Lemma read_varint_loop_digits w bits fuel shift read i v rest :
  0 <= shift -> bits <= w -> 0 <= i < 2 ^ shift ->
  0 <= v < 128 ^ Z.of_nat fuel -> (0 < fuel)%nat ->
  v * 2 ^ shift < 2 ^ bits -> (v = 0 -> shift = 0) -> 0 < bits ->
  read_varint_loop w bits shift read i (varint_digits fuel v ++ rest) =
    (read + Z.of_nat (List.length (varint_digits fuel v)), i + v * 2 ^ shift, rest).
Proof.
  revert shift read i v. induction fuel as [|fuel IH]; intros shift read i v Hs Hw Hi Hv Hf Hb Hz Hp; [lia|].
  pose proof (Z.pow_pos_nonneg 2 shift ltac:(lia) Hs) as Hpow.
  assert (Hbs : v < 2 ^ (bits - shift) \/ bits < shift).
  { destruct (decide (bits < shift)); [by right|left].
    apply (Z.mul_lt_mono_pos_r (2 ^ shift)); [done|].
    rewrite <- Z.pow_add_r by lia. by replace (bits - shift + shift) with bits by lia. }
  assert (Hsb : shift <= bits).
  { destruct (decide (v = 0)) as [->|]; [rewrite Hz by done; lia|].
    apply (Z.pow_le_mono_r_iff 2); nia. }
  cbn [varint_digits]. destruct (v <? 128) eqn:E; zbool.
  - change ([v] ++ rest) with (v :: rest).
    rewrite read_varint_step; try done.
    + rewrite (proj2 (Z.ltb_lt v 128)) by done. rewrite Z.mod_small by lia. done.
    + split; lia.
    + rewrite Z.mod_small by lia. done.
    + intros. destruct Hbs; [done|lia].
  - pose proof (Z.mod_pos_bound v 128 ltac:(lia)) as Hm.
    pose proof (Z.div_mod v 128 ltac:(lia)) as Hdm.
    assert (Hm' : (v mod 128 + 128) mod 128 = v mod 128).
    { rewrite <- (Z.mul_1_l 128) at 2. rewrite Z.mod_add by lia. by rewrite Z.mod_mod by lia. }
    change ((v mod 128 + 128 :: varint_digits fuel (v / 128)) ++ rest)
      with ((v mod 128 + 128) :: (varint_digits fuel (v / 128) ++ rest)).
    rewrite Nat2Z.inj_succ, Z.pow_succ_r in Hv by lia.
    assert (Hs7 : shift + 7 < bits).
    { apply (Z.pow_lt_mono_r_iff 2); [lia..|]. rewrite Z.pow_add_r by lia. change (2 ^ 7) with 128.
      eapply Z.le_lt_trans; [|exact Hb]. rewrite Z.mul_comm. apply Z.mul_le_mono_nonneg_r; lia. }
    rewrite read_varint_step;
      [|done|done|done|split; lia| |lia|lia];
      rewrite Hm';
      [|eapply Z.le_lt_trans; [|exact Hb]; apply Z.mul_le_mono_nonneg_r; lia]. rewrite (proj2 (Z.ltb_ge (v mod 128 + 128) 128)) by lia.
    assert (0 < fuel)%nat by (destruct fuel; [change (Z.of_nat 0) with 0 in Hv; lia|lia]).
    assert (Hp7 : 2 ^ (shift + 7) = 128 * 2 ^ shift) by (rewrite Z.pow_add_r by lia; lia).
    rewrite IH; try done; try lia; rewrite ?Hp7.
    + cbn [List.length].
      assert (v * 2 ^ shift = v mod 128 * 2 ^ shift + v / 128 * (128 * 2 ^ shift)) by (rewrite Hdm at 1; ring).
      do 2 f_equal; lia.
    + split; [apply Z.add_nonneg_nonneg; [lia|apply Z.mul_nonneg_nonneg; lia]|].
      apply Z.lt_le_trans with (2 ^ shift + v mod 128 * 2 ^ shift); [lia|].
      rewrite <- (Z.mul_1_l (2 ^ shift)) at 1. rewrite <- Z.mul_add_distr_r.
      apply Z.mul_le_mono_nonneg_r; lia.
Qed.

(** ** The reader accepts canonical encodings only *)

(** What a nonnegative return code means: the bytes consumed are a prefix of
    the input, and either they encode [v] or the input ended inside a number. *)
Inductive read_outcome (shift i v : Z) (pre rest : list Z) : Prop :=
| outcome_value u :
    v = i + u * 2 ^ shift -> 0 <= u < 128 ^ Z.of_nat (List.length pre) ->
    pre = varint_digits (List.length pre) u -> (0 < List.length pre)%nat ->
    (u = 0 -> shift = 0) -> read_outcome shift i v pre rest
| outcome_truncated :
    rest = [] -> Forall (fun b => 128 <= b) pre -> read_outcome shift i v pre rest.

Lemma read_varint_loop_outcome w bits shift read i l n v rest :
  0 <= shift -> shift = 0 \/ shift < bits -> bits <= w -> 0 < bits -> 0 <= i < 2 ^ shift -> 0 <= read ->
  bytes_ok l -> read_varint_loop w bits shift read i l = (n, v, rest) -> 0 <= n ->
  exists pre, l = pre ++ rest /\ n = read + Z.of_nat (List.length pre) /\
    read_outcome shift i v pre rest /\ 0 <= v < 2 ^ Z.max bits shift.
Proof.
  revert shift read i. induction l as [|b l IH];
    intros shift read i Hs Hsb Hw Hbits Hi Hr Hl E Hn.
  { injection E as <- <- <-. exists []. split; [done|]. split; [simpl; lia|]. split; [by apply outcome_truncated|].
    split; [lia|]. eapply Z.lt_le_trans; [apply Hi|]. apply Z.pow_le_mono_r; lia. }
  inversion Hl as [|? ? Hb Hl']; subst.
  pose proof (Z.pow_pos_nonneg 2 shift ltac:(lia) Hs) as Hpow.
  pose proof (Z.mod_pos_bound b 128 ltac:(lia)) as Hm.
  assert (Hchk : (bits <=? shift + 7) && (Z.shiftl 1 (bits - shift) <=? b) = false /\
                 (b =? 0) && negb (shift =? 0) = false).
  { cbn [read_varint_loop] in E. destruct ((bits <=? shift + 7) && _); [injection E as <- _ _; lia|].
    destruct ((b =? 0) && _); [injection E as <- _ _; lia|done]. }
  destruct Hchk as [H1 H2].
  assert (Hov : bits <= shift + 7 -> b < 2 ^ (bits - shift)).
  { intros Hle. apply andb_false_iff in H1 as [H1|H1]; zbool; [lia|].
    by rewrite Z.shiftl_1_l in H1. }
  assert (Hz : b = 0 -> shift = 0).
  { intros ->. apply andb_false_iff in H2 as [H2|H2]; zbool; done. }
  assert (Hfit : b mod 128 * 2 ^ shift < 2 ^ bits /\ i + b mod 128 * 2 ^ shift < 2 ^ Z.max bits shift).
  { assert (Hsle : shift <= bits) by lia. rewrite Z.max_l by lia.
    assert (Hc : (b mod 128 + 1) * 2 ^ shift <= 2 ^ bits); [|lia].
    replace bits with (bits - shift + shift) by lia. rewrite Z.pow_add_r by lia.
    apply Z.mul_le_mono_nonneg_r; [lia|].
    destruct (decide (bits <= shift + 7)) as [Hle|Hgt].
    - specialize (Hov Hle). assert (b mod 128 <= b) by (apply Z.mod_le; unfold in_u in Hb; lia). lia.
    - assert (2 ^ 7 <= 2 ^ (bits - shift)) by (apply Z.pow_le_mono_r; lia). lia. }
  rewrite read_varint_step in E by (done || apply Hfit).
  destruct (b <? 128) eqn:Eb; zbool.
  - injection E as <- <- <-. exists [b]. split; [done|]. split; [done|]. unfold in_u in Hb.
    rewrite Z.mod_small in Hfit |- * by lia.
    split; [|split; [|apply Hfit]; apply Z.add_nonneg_nonneg; [|apply Z.mul_nonneg_nonneg]; lia].
    apply outcome_value with b; [done|change (128 ^ _) with 128; lia| |simpl; lia|done].
    cbn [List.length varint_digits]. by rewrite (proj2 (Z.ltb_lt b 128)).
  - unfold in_u in Hb. change (2 ^ 8) with 256 in Hb.
    assert (Hs7 : shift + 7 < bits).
    { destruct (decide (bits <= shift + 7)) as [Hle|]; [|lia]. specialize (Hov Hle).
      assert (2 ^ (bits - shift) <= 2 ^ 7) by (apply Z.pow_le_mono_r; lia). lia. }
    assert (Hp7 : 2 ^ (shift + 7) = 128 * 2 ^ shift) by (rewrite Z.pow_add_r by lia; lia).
    apply IH in E as (pre & -> & -> & Ho & Hv); try done; try lia;
      [|rewrite Hp7; split; [apply Z.add_nonneg_nonneg; [lia|apply Z.mul_nonneg_nonneg; lia]|];
        apply Z.lt_le_trans with ((1 + b mod 128) * 2 ^ shift); [lia|apply Z.mul_le_mono_nonneg_r; lia]].
    exists (b :: pre). split; [done|]. split; [cbn [List.length]; lia|].
    split; [|by rewrite Z.max_l in * by lia].
    assert (Hbm : b = b mod 128 + 128).
    { pose proof (Z.div_mod b 128 ltac:(lia)). assert (b / 128 = 1); [|lia].
      symmetry. apply Z.div_unique with (b - 128); lia. }
    destruct Ho as [u -> Hu Hpre Hlen Hu0| -> Hpre]; [|apply outcome_truncated; [done|by constructor]].
    apply outcome_value with (b mod 128 + u * 128); cbn [List.length].
    + rewrite Hp7. ring.
    + rewrite Nat2Z.inj_succ, Z.pow_succ_r by lia. lia.
    + cbn [varint_digits].
      assert (Hu1 : 0 < u) by (destruct (decide (u = 0)) as [->|]; [specialize (Hu0 eq_refl)|]; lia).
      rewrite (proj2 (Z.ltb_ge (b mod 128 + u * 128) 128)) by lia.
      rewrite Z.mod_add, Z.mod_mod, Z.div_add, Z.div_small, Z.add_0_l by lia. congruence.
    + lia.
    + lia.
Qed.

Lemma write_read_varint w bits v rest :
  0 < bits <= 64 -> bits <= w -> in_u bits v ->
  exists l, write_varint v = Some l /\ bytes_ok l /\
    read_varint_bits w bits (l ++ rest) = (Z.of_nat (List.length l), v, rest).
Proof.
  intros Hb Hw Hv. pose proof (in_u_le bits 64 v ltac:(lia) Hv) as Hv64.
  exists (varint_digits 10 v). split; [by apply write_varint_digits|].
  split; [apply varint_digits_bytes, Hv|]. unfold read_varint_bits.
  rewrite read_varint_loop_digits; try done; try lia.
  - rewrite Z.mul_1_r, !Z.add_0_l. done.
  - unfold in_u in Hv64. split; [lia|]. eapply Z.lt_trans; [apply Hv64|done].
  - unfold in_u in Hv. lia.
Qed.

(** encoding then decoding any value that fits in [bits] gives the value
    back, reads exactly the bytes written and leaves the rest of the input. *)
Theorem varint_roundtrip w bits v rest :
  0 < bits <= 64 -> bits <= w -> in_u bits v ->
  exists l, write_varint v = Some l /\ bytes_ok l /\
    read_varint_bits w bits (l ++ rest) = (Z.of_nat (List.length l), v, rest).
Proof. apply write_read_varint. Qed.

Example varint_roundtrip_witness :
  exists l, write_varint 0xFFFFFFFFFFFFFFFF = Some l /\ bytes_ok l /\
    read_varint_bits 64 64 (l ++ [7; 8]) = (Z.of_nat (List.length l), 0xFFFFFFFFFFFFFFFF, [7; 8]).
Proof. apply (varint_roundtrip 64 64 0xFFFFFFFFFFFFFFFF [7; 8]); unfold in_u; lia. Defined.

Lemma read_varint_outcome w bits l n v rest :
  0 < bits <= 64 -> bits <= w -> bytes_ok l ->
  read_varint_bits w bits l = (n, v, rest) -> 0 <= n ->
  in_u bits v /\
  exists pre, l = pre ++ rest /\ n = Z.of_nat (List.length pre) /\
    (write_varint v = Some pre \/ rest = [] /\ Forall (fun b => 128 <= b) pre).
Proof.
  intros Hb Hw Hl E Hn.
  apply read_varint_loop_outcome in E as (pre & -> & -> & Ho & Hv); try done; try lia.
  rewrite Z.max_l in Hv by lia. split; [done|]. exists pre. split; [done|]. split; [lia|].
  destruct Ho as [u -> Hu Hpre Hlen Hu0| -> Hpre]; [left|by right].
  rewrite Z.mul_1_r, Z.add_0_l in *.
  pose proof (in_u_le bits 64 u ltac:(lia) Hv) as Hu64. pose proof Hu64 as [Hu1 Hu2].
  rewrite write_varint_digits by done. f_equal. symmetry. etrans; [exact Hpre|].
  apply varint_digits_fuel; [lia|lia|exact Hu|split; [done|]; eapply Z.lt_trans; [exact Hu2|reflexivity]].
Qed.

Lemma write_varint_loop_length fuel v l :
  write_varint_loop fuel v = Some l -> (0 < List.length l)%nat.
Proof.
  destruct fuel as [|fuel]; [done|]. cbn [write_varint_loop].
  destruct (0x80 <=? v); [|intros [= <-]; cbn [List.length]; lia].
  destruct (write_varint_loop fuel (Z.shiftr v 7)) as [l'|]; [|done].
  intros [= <-]. cbn [List.length]. lia.
Qed.

Lemma write_varint_length v l : write_varint v = Some l -> (0 < List.length l)%nat.
Proof. apply write_varint_loop_length. Qed.

(** the decoder is canonical.  When it returns a nonnegative code [n] it
    has consumed exactly [n] bytes, and these bytes are the encoding the
    writer gives of the value returned, unless the input ended inside a
    number (every byte read has its continuation bit set). *)
Theorem read_varint_canonical w bits l n v rest :
  0 < bits <= 64 -> bits <= w -> bytes_ok l ->
  read_varint_bits w bits l = (n, v, rest) -> 0 <= n ->
  in_u bits v /\
  exists pre, l = pre ++ rest /\ n = Z.of_nat (List.length pre) /\
    (write_varint v = Some pre \/ rest = [] /\ Forall (fun b => 128 <= b) pre).
Proof. apply read_varint_outcome. Qed.

Example read_varint_canonical_witness :
  in_u 64 300 /\
  exists pre, [172; 2; 9] = pre ++ [9] /\ 2 = Z.of_nat (List.length pre) /\
    (write_varint 300 = Some pre \/ [9] = [] /\ Forall (fun b => 128 <= b) pre).
Proof.
  apply (read_varint_canonical 64 64 [172; 2; 9] 2 300 [9]); try lia; [|reflexivity].
  repeat constructor; lia.
Defined.

(** ** The size predictor *)

Lemma varint_digits_length fuel i : 0 <= i < 128 ^ Z.of_nat fuel -> 0 < i -> (0 < fuel)%nat ->
  exists k, List.length (varint_digits fuel i) = S k /\ 128 ^ Z.of_nat k <= i < 128 ^ Z.of_nat (S k).
Proof.
  revert i. induction fuel as [|fuel IH]; intros i Hi Hp Hf; [lia|].
  cbn [varint_digits]. destruct (i <? 128) eqn:E; zbool.
  - exists 0%nat. split; [done|]. change (128 ^ Z.of_nat 1) with 128. change (128 ^ Z.of_nat 0) with 1. lia.
  - rewrite Nat2Z.inj_succ, Z.pow_succ_r in Hi by lia.
    assert (0 < fuel)%nat by (destruct fuel; [change (Z.of_nat 0) with 0 in Hi|]; lia).
    assert (1 <= i / 128) by (apply Z.div_le_lower_bound; lia).
    destruct (IH (i / 128)) as (k & Hk & Hk1 & Hk2); [split; [lia|apply Z.div_lt_upper_bound; lia]|lia|done|].
    exists (S k). cbn [List.length]. split; [by rewrite Hk|].
    rewrite Nat2Z.inj_succ, Z.pow_succ_r in Hk2 by lia.
    rewrite !Nat2Z.inj_succ, !Z.pow_succ_r by lia.
    pose proof (Z.div_mod i 128 ltac:(lia)). pose proof (Z.mod_pos_bound i 128 ltac:(lia)). lia.
Qed.

(** the size predictor is exact for every value below 2^56 and undercounts
    above: it answers 8 where the encoding takes 9 or 10 bytes. *)
Theorem packed_size_exact_below_2_56 v l :
  is_u64 v -> write_varint v = Some l ->
  (v < 2 ^ 56 -> get_varint_packed_size v = Z.of_nat (List.length l)) /\
  (2 ^ 56 <= v -> get_varint_packed_size v < Z.of_nat (List.length l)).
Proof.
  intros Hv E. rewrite write_varint_digits in E by done. apply (inj Some) in E as <-.
  assert (Hb : 0 <= v < 128 ^ Z.of_nat 10).
  { unfold in_u in Hv. split; [lia|]. eapply Z.lt_trans; [apply Hv|done]. }
  destruct (decide (v = 0)) as [->|]; [split; [done|lia]|].
  destruct (varint_digits_length 10 v Hb) as (k & -> & Hk); [lia|lia|].
  unfold in_u in Hv.
  assert (Hk10 : (k < 10)%nat).
  { destruct (decide (k < 10)%nat); [done|exfalso].
    assert (128 ^ 10 <= 128 ^ Z.of_nat k) by (apply Z.pow_le_mono_r; lia). lia. }
  unfold get_varint_packed_size.
  do 10 (destruct k as [|k]; [cbn in Hk; repeat zcase; cbn; lia|]). lia.
Qed.

Example packed_size_exact_below_2_56_witness :
  is_u64 (2 ^ 63) /\
  ((2 ^ 63 < 2 ^ 56 -> get_varint_packed_size (2 ^ 63) = 10) /\
   (2 ^ 56 <= 2 ^ 63 -> get_varint_packed_size (2 ^ 63) < 10)).
Proof.
  split; [split; lia|].
  apply (packed_size_exact_below_2_56 (2 ^ 63) [128; 128; 128; 128; 128; 128; 128; 128; 128; 1]);
    [split; lia|reflexivity].
Defined.
