(* ===== verification/Keccak.v ===== *)
(** * Keccak: [src/src/crypto/keccak.c] and [src/src/crypto/hash.c]

    The permutation, the sponge and the 256-bit hash [cn_fast_hash] that names
    blocks and transactions, checked against the FIPS 202 description of the
    permutation and of the padded sponge. *)

From S2P Require Import Prelude.

Definition KECCAK_ROUNDS : nat := 24.
Definition HASH_SIZE : Z := 32.
Definition HASH_DATA_AREA : Z := 136.

Definition keccakf_rndc : list Z :=
  [ 0x0000000000000001; 0x0000000000008082; 0x800000000000808a;
    0x8000000080008000; 0x000000000000808b; 0x0000000080000001;
    0x8000000080008081; 0x8000000000008009; 0x000000000000008a;
    0x0000000000000088; 0x0000000080008009; 0x000000008000000a;
    0x000000008000808b; 0x800000000000008b; 0x8000000000008089;
    0x8000000000008003; 0x8000000000008002; 0x8000000000000080;
    0x000000000000800a; 0x800000008000000a; 0x8000000080008081;
    0x8000000000008080; 0x0000000080000001; 0x8000000080008008 ].

Definition keccakf_rotc : list Z :=
  [ 1;  3;  6;  10; 15; 21; 28; 36; 45; 55; 2;  14;
    27; 41; 56; 8;  25; 43; 62; 18; 39; 61; 20; 44 ].

Definition keccakf_piln : list nat :=
  [ 10; 7;  11; 17; 18; 3; 5;  16; 8;  21; 24; 4;
    15; 23; 19; 13; 12; 2; 20; 14; 22; 9;  6;  1 ]%nat.

Definition ROTL64 (x y : Z) : Z := Z.lor (u64 (Z.shiftl x y)) (Z.shiftr x (64 - y)).

(** [~x] on a 64-bit word. *)
Definition not64 (x : Z) : Z := 2 ^ 64 - 1 - x.

(** The four stages of the loop body of [keccakf]; the arrays [st] and [bc]
    are lists of words. *)
Definition theta_bc (st : list Z) : list Z :=
  for_loop 0 5 (fun i bc =>
    <[i := Z.lxor (Z.lxor (Z.lxor (Z.lxor (ld st i) (ld st (i + 5))) (ld st (i + 10)))
             (ld st (i + 15))) (ld st (i + 20))]> bc) (replicate 5 0).

Definition theta (st : list Z) : list Z :=
  let bc := theta_bc st in
  for_loop 0 5 (fun i st =>
    let t := Z.lxor (ld bc ((i + 4) mod 5)) (ROTL64 (ld bc ((i + 1) mod 5)) 1) in
    for_loop 0 5 (fun jj st => let j := (5 * jj)%nat in
      <[(j + i)%nat := Z.lxor (ld st (j + i)) t]> st) st) st.

Definition rho_pi (st : list Z) : list Z :=
  fst (for_loop 0 24 (fun i '(st, t) =>
    let j := List.nth i keccakf_piln 0%nat in
    let bc0 := ld st j in
    (<[j := ROTL64 t (ld keccakf_rotc i)]> st, bc0)) (st, ld st 1)).

Definition chi (st : list Z) : list Z :=
  for_loop 0 5 (fun jj st =>
    let j := (5 * jj)%nat in
    let bc := for_loop 0 5 (fun i bc => <[i := ld st (j + i)]> bc) (replicate 5 0) in
    for_loop 0 5 (fun i st =>
      <[(j + i)%nat := Z.lxor (ld st (j + i))
          (Z.land (not64 (ld bc ((i + 1) mod 5))) (ld bc ((i + 2) mod 5)))]> st) st) st.

Definition iota (round : nat) (st : list Z) : list Z :=
  <[0%nat := Z.lxor (ld st 0) (ld keccakf_rndc round)]> st.

Definition keccakf (st : list Z) (rounds : nat) : list Z :=
  for_loop 0 rounds (fun round st => iota round (chi (rho_pi (theta st)))) st.

(** [st[i] ^= ((uint64_t * ) in)[i]] for [i < rsizw]. *)
Definition xor_block (st : list Z) (inb : list Z) (rsizw : nat) : list Z :=
  for_loop 0 rsizw (fun i st =>
    <[i := Z.lxor (ld st i) (le_combine (take 8 (drop (8 * i) inb)))]> st) st.

(** The absorbing loop; [fuel] bounds its iterations, the result is the state
    and the bytes not yet absorbed. *)
Fixpoint absorb_loop (fuel : nat) (st : list Z) (inb : list Z) (rsiz : nat) : list Z * list Z :=
  match fuel with
  | O => (st, inb)
  | S fuel =>
      if (rsiz <=? List.length inb)%nat then
        absorb_loop fuel (keccakf (xor_block st inb (rsiz / 8)) KECCAK_ROUNDS) (drop rsiz inb) rsiz
      else (st, inb)
  end.

(** The bytes of a state in memory. *)
Definition state_bytes (st : list Z) : list Z := st ≫= le_split 8.

Definition keccak (inb : list Z) (mdlen : Z) : list Z :=
  let rsiz := Z.to_nat (if 200 =? mdlen then HASH_DATA_AREA else 200 - 2 * mdlen) in
  let rsizw := (rsiz / 8)%nat in
  let st := replicate 25 0 in
  let '(st, inb) := absorb_loop (List.length inb) st inb rsiz in
  let temp := inb ++ [1] ++ replicate (rsiz - S (List.length inb)) 0 in
  let temp := <[(rsiz - 1)%nat := Z.lor (ld temp (rsiz - 1)) 0x80]> temp in
  let st := xor_block st temp rsizw in
  let st := keccakf st KECCAK_ROUNDS in
  take (Z.to_nat mdlen) (state_bytes st).

Definition keccak1600 (inb : list Z) : list Z := keccak inb 200.

Definition hash_permutation (state : list Z) : list Z := keccakf state 24.
Definition hash_process (buf : list Z) : list Z := keccak1600 buf.
Definition cn_fast_hash_old (data : list Z) : list Z := take (Z.to_nat HASH_SIZE) (hash_process data).
Definition cn_fast_hash (data : list Z) : list Z := keccak data HASH_SIZE.

(** Known answer: the hash of the empty string. *)
Example cn_fast_hash_empty :
  cn_fast_hash [] =
    [0xc5; 0xd2; 0x46; 0x01; 0x86; 0xf7; 0x23; 0x3c; 0x92; 0x7e; 0x7d; 0xb2; 0xdc; 0xc7; 0x03; 0xc0;
     0xe5; 0x00; 0xb6; 0x53; 0xca; 0x82; 0x27; 0x3b; 0x7b; 0xfa; 0xd8; 0x04; 0x5d; 0x85; 0xa4; 0x70].
Proof. vm_compute. reflexivity. Qed.

(** ** Sizes *)

Lemma theta_length st : List.length (theta st) = List.length st.
Proof.
  unfold theta. apply (for_loop_inv (fun s => List.length s = List.length st)); [done|].
  intros k x _ Hx. apply (for_loop_inv (fun s => List.length s = List.length st)); [done|].
  intros j y _ Hy. by rewrite length_insert.
Qed.

Lemma rho_pi_length st : List.length (rho_pi st) = List.length st.
Proof.
  unfold rho_pi.
  apply (for_loop_inv (fun p : list Z * Z => List.length (fst p) = List.length st)); [done|].
  intros k [x t] _ Hx. simpl. by rewrite length_insert.
Qed.

Lemma chi_length st : List.length (chi st) = List.length st.
Proof.
  unfold chi. apply (for_loop_inv (fun s => List.length s = List.length st)); [done|].
  intros k x _ Hx. apply (for_loop_inv (fun s => List.length s = List.length st)); [done|].
  intros j y _ Hy. by rewrite length_insert.
Qed.

Lemma keccakf_length st n : List.length (keccakf st n) = List.length st.
Proof.
  unfold keccakf. apply (for_loop_inv (fun s => List.length s = List.length st)); [done|].
  intros k x _ Hx. unfold iota. by rewrite length_insert, chi_length, rho_pi_length, theta_length.
Qed.

Lemma xor_block_length st inb w : List.length (xor_block st inb w) = List.length st.
Proof.
  unfold xor_block. apply (for_loop_inv (fun s => List.length s = List.length st)); [done|].
  intros k x _ Hx. by rewrite length_insert.
Qed.

Lemma state_bytes_length st : List.length (state_bytes st) = (8 * List.length st)%nat.
Proof.
  induction st as [|w st IH]; [done|].
  change (state_bytes (w :: st)) with (le_split 8 w ++ state_bytes st).
  rewrite length_app, length_le_split, IH. cbn [List.length]. lia.
Qed.

Lemma state_bytes_ok st : bytes_ok (state_bytes st).
Proof.
  induction st as [|w st IH]; [constructor|].
  change (state_bytes (w :: st)) with (le_split 8 w ++ state_bytes st).
  apply Forall_app. split; [apply le_split_bytes_ok|done].
Qed.

Lemma absorb_loop_length fuel st inb r :
  List.length (fst (absorb_loop fuel st inb r)) = List.length st.
Proof.
  revert st inb. induction fuel as [|fuel IH]; intros st inb; [done|].
  cbn [absorb_loop]. destruct (_ <=? _)%nat; [|done].
  by rewrite IH, keccakf_length, xor_block_length.
Qed.

(** ** The permutation against FIPS 202 *)

(** The bits of the round constants come from a linear feedback register:
    [rc_step] is one shift of it. *)
Definition rc_step (r : Z) : Z :=
  let r := 2 * r in if Z.testbit r 8 then Z.lxor r 0x171 else r.
Definition rc_bit (t : nat) : bool := Z.testbit (Nat.iter t rc_step 1) 0.
Definition spec_RC (round : nat) : Z :=
  foldr (fun j acc => if rc_bit (j + 7 * round) then Z.lor (2 ^ (2 ^ Z.of_nat j - 1)) acc else acc)
    0 (seq 0 7).

(** The rotation offsets, walked along the orbit of [(1, 0)]. *)
Fixpoint spec_offset (fuel : nat) (t : Z) (x y : nat) (x0 y0 : nat) : Z :=
  match fuel with
  | O => 0
  | S fuel =>
      if ((x =? x0) && (y =? y0))%nat then ((t + 1) * (t + 2) / 2) mod 64
      else spec_offset fuel (t + 1) y ((2 * x + 3 * y) mod 5) x0 y0
  end.
Definition spec_rot (x0 y0 : nat) (w : Z) : Z :=
  match spec_offset 24 0 1 0 x0 y0 with 0 => w | n => ROTL64 w n end.

Definition lane (st : list Z) (x y : nat) : Z := ld st (x mod 5 + 5 * (y mod 5)).
Definition of_lanes (f : nat -> nat -> Z) : list Z :=
  map (fun k => f (k mod 5) (k / 5))%nat (seq 0 25).

Definition spec_C (st : list Z) (x : nat) : Z :=
  Z.lxor (Z.lxor (Z.lxor (Z.lxor (lane st x 0) (lane st x 1)) (lane st x 2)) (lane st x 3)) (lane st x 4).
Definition spec_theta (st : list Z) : list Z :=
  of_lanes (fun x y => Z.lxor (lane st x y) (Z.lxor (spec_C st (x + 4)) (ROTL64 (spec_C st (x + 1)) 1))).
Definition spec_rho (st : list Z) : list Z :=
  of_lanes (fun x y => spec_rot x y (lane st x y)).
Definition spec_pi (st : list Z) : list Z :=
  of_lanes (fun x y => lane st (x + 3 * y) x).
Definition spec_chi (st : list Z) : list Z :=
  of_lanes (fun x y => Z.lxor (lane st x y) (Z.land (not64 (lane st (x + 1) y)) (lane st (x + 2) y))).
Definition spec_iota (round : nat) (st : list Z) : list Z :=
  of_lanes (fun x y => if ((x =? 0) && (y =? 0))%nat then Z.lxor (lane st x y) (spec_RC round) else lane st x y).

Definition spec_round (round : nat) (st : list Z) : list Z :=
  spec_iota round (spec_chi (spec_pi (spec_rho (spec_theta st)))).

(** A list of [25] words written out. *)
Ltac split25 st H :=
  do 25 (destruct st as [|? st]; [discriminate H|]); destruct st; [|discriminate H]; clear H.

Ltac lanes_eq := cbv -[Z.lxor ROTL64 not64 Z.land]; reflexivity.

Lemma theta_spec st : List.length st = 25%nat -> theta st = spec_theta st.
Proof. intros H. split25 st H. lanes_eq. Qed.

Lemma rho_pi_spec st : List.length st = 25%nat -> rho_pi st = spec_pi (spec_rho st).
Proof. intros H. split25 st H. lanes_eq. Qed.

Lemma chi_spec st : List.length st = 25%nat -> chi st = spec_chi st.
Proof. intros H. split25 st H. lanes_eq. Qed.

Lemma rndc_spec round : (round < 24)%nat -> ld keccakf_rndc round = spec_RC round.
Proof.
  intros H.
  assert (HF : forallb (fun r => ld keccakf_rndc r =? spec_RC r) (seq 0 24) = true)
    by (vm_compute; reflexivity).
  rewrite forallb_forall in HF. apply Z.eqb_eq, HF, in_seq. lia.
Qed.

Lemma iota_spec round st : List.length st = 25%nat -> (round < 24)%nat -> iota round st = spec_iota round st.
Proof.
  intros H Hr. unfold iota. rewrite rndc_spec by done. split25 st H.
  cbv -[Z.lxor spec_RC]. reflexivity.
Qed.

Definition spec_keccakf (st : list Z) (rounds : nat) : list Z :=
  for_loop 0 rounds spec_round st.

Lemma round_length i st : List.length (iota i (chi (rho_pi (theta st)))) = List.length st.
Proof. unfold iota. by rewrite length_insert, chi_length, rho_pi_length, theta_length. Qed.

Lemma round_spec i st : List.length st = 25%nat -> (i < 24)%nat ->
  iota i (chi (rho_pi (theta st))) = spec_round i st.
Proof.
  intros Hst Hi. unfold spec_round.
  rewrite <- theta_spec by done.
  rewrite <- rho_pi_spec by by rewrite theta_length.
  rewrite <- chi_spec by by rewrite rho_pi_length, theta_length.
  apply iota_spec; [by rewrite chi_length, rho_pi_length, theta_length|done].
Qed.

(** C38: the in-place permutation with its tables of lanes, rotations and round
    constants is the permutation of FIPS 202: theta, rho, pi, chi and iota on
    the 5x5 array of lanes, with the offsets and constants generated as the
    standard does. *)
Theorem keccakf_is_fips202 st rounds : List.length st = 25%nat -> (rounds <= 24)%nat ->
  keccakf st rounds = spec_keccakf st rounds.
Proof.
  intros Hlen Hr. unfold keccakf, spec_keccakf.
  apply (for_loop_ext_inv (fun st => List.length st = 25%nat)); [done|].
  intros k x Hk Hx. rewrite round_length. split; [apply round_spec; [done|lia]|done].
Qed.

Example keccakf_is_fips202_witness :
  List.length (replicate 25 0) = 25%nat /\
  keccakf (replicate 25 0) 24 = spec_keccakf (replicate 25 0) 24.
Proof. split; [reflexivity|]. apply (keccakf_is_fips202 (replicate 25 0) 24); [reflexivity|lia]. Defined.

(** ** The sponge *)

(** Multi-rate padding with the domain bit [0x01] to a multiple of the rate. *)
Definition spec_pad (rsiz : nat) (m : list Z) : list Z :=
  m ++ match (rsiz - List.length m mod rsiz)%nat with
       | O | 1%nat => [0x81]
       | S (S n) => [0x01] ++ replicate n 0 ++ [0x80]
       end.

(** Absorb whole blocks of [rsiz] bytes, one permutation each. *)
Fixpoint spec_absorb (blocks : nat) (st m : list Z) (rsiz : nat) : list Z :=
  match blocks with
  | O => st
  | S blocks =>
      spec_absorb blocks (spec_keccakf (xor_block st (take rsiz m) (rsiz / 8)) 24) (drop rsiz m) rsiz
  end.

Definition spec_sponge (rsiz mdlen : nat) (m : list Z) : list Z :=
  let p := spec_pad rsiz m in
  take mdlen (state_bytes (spec_absorb (List.length p / rsiz) (replicate 25 0) p rsiz)).

Lemma xor_block_take st inb w n : (8 * w <= n)%nat -> xor_block st (take n inb) w = xor_block st inb w.
Proof.
  intros Hn. unfold xor_block. apply for_loop_ext. intros k x Hk. do 2 f_equal.
  f_equal. rewrite skipn_firstn_comm, take_take. f_equal. lia.
Qed.

Lemma xor_block_app st l1 l2 w : (8 * w <= List.length l1)%nat ->
  xor_block st (l1 ++ l2) w = xor_block st l1 w.
Proof.
  intros Hw. rewrite <- (xor_block_take st (l1 ++ l2) w (List.length l1)) by done.
  by rewrite take_app_length.
Qed.

Lemma pad_length_block rsiz m : (List.length m < rsiz)%nat ->
  let temp := m ++ [1] ++ replicate (rsiz - S (List.length m)) 0 in
  <[(rsiz - 1)%nat := Z.lor (ld temp (rsiz - 1)) 0x80]> temp = spec_pad rsiz m.
Proof.
  intros Hm temp. unfold spec_pad. rewrite Nat.mod_small by done.
  destruct (rsiz - List.length m)%nat as [|[|n]] eqn:E; [lia| |].
  - assert (rsiz = S (List.length m)) as -> by lia. subst temp.
    replace (S (List.length m) - S (List.length m))%nat with 0%nat by lia.
    replace (S (List.length m) - 1)%nat with (List.length m + 0)%nat by lia.
    rewrite insert_app_r. f_equal. unfold ld. rewrite app_nth2_plus. done.
  - subst temp. replace (rsiz - S (List.length m))%nat with (S n) by lia.
    replace (rsiz - 1)%nat with (List.length m + (1 + (List.length (replicate n 0%Z) + 0)))%nat
      by (rewrite length_replicate; lia).
    rewrite insert_app_r. f_equal. unfold ld. rewrite app_nth2_plus.
    change ([1] ++ replicate (S n) 0) with ([1] ++ 0 :: replicate n 0).
    rewrite replicate_cons_app.
    change ([1] ++ replicate n 0 ++ [0]) with (1 :: (replicate n 0 ++ [0])).
    change (<[(1 + (List.length (replicate n 0%Z) + 0))%nat := ?v]> (1 :: ?l))
      with (1 :: <[(List.length (replicate n 0%Z) + 0)%nat := v]> l).
    rewrite insert_app_r.
    change (List.nth (1 + (List.length (replicate n 0%Z) + 0)) (1 :: ?l) 0)
      with (List.nth (List.length (replicate n 0%Z) + 0) l 0).
    rewrite app_nth2_plus. done.
Qed.

Lemma xor_state_block st inb rsiz : xor_block st (take rsiz inb) (rsiz / 8) = xor_block st inb (rsiz / 8).
Proof. apply xor_block_take. apply Nat.Div0.mul_div_le. Qed.

Lemma spec_pad_length rsiz m : (0 < rsiz)%nat ->
  List.length (spec_pad rsiz m) = (rsiz * S (List.length m / rsiz))%nat.
Proof.
  intros Hr. unfold spec_pad. rewrite length_app.
  pose proof (Nat.mod_upper_bound (List.length m) rsiz ltac:(lia)).
  pose proof (Nat.div_mod_eq (List.length m) rsiz).
  destruct (rsiz - List.length m mod rsiz)%nat as [|[|n]] eqn:E; [lia| |];
    rewrite ?length_app, ?length_replicate; simpl; nia.
Qed.

Lemma spec_pad_drop rsiz m : (0 < rsiz)%nat -> (rsiz <= List.length m)%nat ->
  drop rsiz (spec_pad rsiz m) = spec_pad rsiz (drop rsiz m).
Proof.
  intros Hr Hm. unfold spec_pad. rewrite drop_app_le by done. do 2 f_equal.
  rewrite length_drop. f_equal.
  replace (List.length m) with (List.length m - rsiz + 1 * rsiz)%nat at 1 by lia.
  by rewrite Nat.Div0.mod_add.
Qed.

Lemma spec_absorb_S k st m rsiz :
  spec_absorb (S k) st m rsiz =
    spec_absorb k (spec_keccakf (xor_block st (take rsiz m) (rsiz / 8)) 24) (drop rsiz m) rsiz.
Proof. done. Qed.

Lemma absorb_last rsiz m st : (0 < rsiz)%nat -> (List.length m < rsiz)%nat -> List.length st = 25%nat ->
  keccakf (xor_block st (spec_pad rsiz m) (rsiz / 8)) 24 =
    spec_absorb (List.length (spec_pad rsiz m) / rsiz) st (spec_pad rsiz m) rsiz.
Proof.
  intros Hr Hm Hst. rewrite spec_pad_length by done. rewrite (Nat.div_small _ _ Hm).
  rewrite Nat.mul_1_r, Nat.div_same by lia. cbn [spec_absorb].
  rewrite xor_state_block. apply keccakf_is_fips202; [by rewrite xor_block_length|lia].
Qed.

Lemma absorb_more rsiz m st : (0 < rsiz)%nat -> (rsiz <= List.length m)%nat -> List.length st = 25%nat ->
  spec_absorb (List.length (spec_pad rsiz m) / rsiz) st (spec_pad rsiz m) rsiz =
    spec_absorb (List.length (spec_pad rsiz (drop rsiz m)) / rsiz)
      (keccakf (xor_block st m (rsiz / 8)) KECCAK_ROUNDS) (spec_pad rsiz (drop rsiz m)) rsiz.
Proof.
  intros Hr Hm Hst. rewrite !spec_pad_length, length_drop by done.
  rewrite !(Nat.mul_comm rsiz), !Nat.div_mul by lia.
  replace (List.length m) with (List.length m - rsiz + 1 * rsiz)%nat at 1 by lia.
  rewrite Nat.div_add, Nat.add_1_r by lia.
  rewrite spec_absorb_S, spec_pad_drop by done.
  rewrite (xor_state_block st (spec_pad rsiz m) rsiz). unfold spec_pad at 1.
  rewrite (xor_block_app st m) by (pose proof (Nat.Div0.mul_div_le rsiz 8); lia).
  rewrite <- (keccakf_is_fips202 (xor_block st m (rsiz / 8)) 24); [done|by rewrite xor_block_length|lia].
Qed.

(** The absorbing loop followed by the last block is the absorption of the
    padded message. *)
Lemma absorb_loop_spec fuel st inb rsiz :
  (0 < rsiz)%nat -> (List.length inb <= fuel)%nat -> List.length st = 25%nat ->
  let '(st', rest) := absorb_loop fuel st inb rsiz in
  (List.length rest < rsiz)%nat /\
  keccakf (xor_block st' (spec_pad rsiz rest) (rsiz / 8)) 24 =
    spec_absorb (List.length (spec_pad rsiz inb) / rsiz) st (spec_pad rsiz inb) rsiz.
Proof.
  intros Hr. revert st inb. induction fuel as [|fuel IH]; intros st inb Hf Hst.
  { destruct inb; [|simpl in Hf; lia]. cbn [absorb_loop]. split; [done|].
    by apply absorb_last. }
  cbn [absorb_loop]. destruct (rsiz <=? List.length inb)%nat eqn:E.
  - apply Nat.leb_le in E.
    specialize (IH (keccakf (xor_block st inb (rsiz / 8)) KECCAK_ROUNDS) (drop rsiz inb)).
    destruct (absorb_loop _ _ _ _) as [st' rest].
    destruct IH as [H1 H2]; [rewrite length_drop; lia|by rewrite keccakf_length, xor_block_length|].
    split; [done|]. rewrite H2. symmetry. by apply absorb_more.
  - apply Nat.leb_gt in E. split; [done|]. by apply absorb_last.
Qed.

Lemma keccak_rate_pos mdlen : 0 <= mdlen < 100 \/ mdlen = 200 ->
  (0 < Z.to_nat (if 200 =? mdlen then HASH_DATA_AREA else 200 - 2 * mdlen)%Z)%nat.
Proof. unfold HASH_DATA_AREA. destruct (200 =? mdlen) eqn:E; zbool; lia. Qed.

(** for every digest length whose rate is positive, [keccak] is the Keccak
    sponge: the first [mdlen] bytes of the state after absorbing the padded
    message block by block with the FIPS 202 permutation.  The absorbing loop
    ends after at most as many rounds as the message has bytes. *)
Theorem keccak_is_sponge inb mdlen : 0 <= mdlen < 100 \/ mdlen = 200 ->
  keccak inb mdlen =
    spec_sponge (Z.to_nat (if 200 =? mdlen then HASH_DATA_AREA else 200 - 2 * mdlen)) (Z.to_nat mdlen) inb.
Proof.
  intros Hmd. pose proof (keccak_rate_pos mdlen Hmd) as Hr.
  unfold keccak, spec_sponge. set (rsiz := Z.to_nat _) in *.
  pose proof (absorb_loop_spec (List.length inb) (replicate 25 0) inb rsiz Hr ltac:(lia) eq_refl) as H.
  destruct (absorb_loop _ _ _ _) as [st' rest]. destruct H as [H1 H2].
  rewrite (pad_length_block rsiz rest H1). unfold KECCAK_ROUNDS. by rewrite H2.
Qed.

Example keccak_is_sponge_witness :
  keccak [1; 2; 3] 32 =
    spec_sponge (Z.to_nat (if 200 =? 32 then HASH_DATA_AREA else 200 - 2 * 32)) (Z.to_nat 32) [1; 2; 3].
Proof. apply (keccak_is_sponge [1; 2; 3] 32). lia. Defined.

Lemma keccak_length inb mdlen : 0 <= mdlen < 100 \/ mdlen = 200 ->
  List.length (keccak inb mdlen) = Z.to_nat mdlen.
Proof.
  intros Hmd. unfold keccak. set (rsiz := Z.to_nat (if 200 =? mdlen then HASH_DATA_AREA else 200 - 2 * mdlen)).
  pose proof (absorb_loop_length (List.length inb) (replicate 25 0) inb rsiz) as HL.
  destruct (absorb_loop _ _ _ _) as [st' rest]. simpl in HL.
  rewrite length_take, state_bytes_length, keccakf_length, xor_block_length, HL. lia.
Qed.

Lemma cn_fast_hash_length d : List.length (cn_fast_hash d) = 32%nat.
Proof. unfold cn_fast_hash, HASH_SIZE. by rewrite keccak_length by lia. Qed.

Lemma cn_fast_hash_bytes d : bytes_ok (cn_fast_hash d).
Proof.
  unfold cn_fast_hash, keccak. destruct (absorb_loop _ _ _ _) as [st' rest].
  apply Forall_take, state_bytes_ok.
Qed.

#[export] Hint Resolve cn_fast_hash_bytes : machine.
