(* ===== verification/Base58.v ===== *)
(** * Base58 addresses: [src/src/common/base58.cpp]

    The block-wise base58 codec and the tagged, checksummed address strings
    built on it.  A string is the list of its bytes. *)

From S2P Require Import Prelude IntUtil IntSwap Varint Keccak.

Definition alphabet : list Z :=
  Eval vm_compute in chars "123456789ABCDEFGHJKLMNPQRSTUVWXYZabcdefghijkmnopqrstuvwxyz".
Definition alphabet_size : Z := 58.
Definition encoded_block_sizes : list nat := [0; 2; 3; 5; 6; 7; 9; 10; 11]%nat.
Definition full_block_size : nat := 8.
Definition full_encoded_block_size : nat := 11.
Definition addr_checksum_size : nat := 4.

(** The table of [reverse_alphabet] and its lookup: [-1] outside the alphabet. *)
Definition reverse_alphabet_data : list Z :=
  for_loop 0 58 (fun i m_data => <[Z.to_nat (ld alphabet i - ld alphabet 0) := Z.of_nat i]> m_data)
    (replicate (Z.to_nat (ld alphabet 57 - ld alphabet 0 + 1)) (-1)).

Definition reverse_alphabet (letter : Z) : Z :=
  let idx := letter - ld alphabet 0 in
  if (0 <=? idx) && (idx <? Z.of_nat (List.length reverse_alphabet_data))
  then ld reverse_alphabet_data (Z.to_nat idx) else -1.

Definition decoded_block_sizes_data : list Z :=
  for_loop 0 9 (fun i m_data => <[List.nth i encoded_block_sizes 0%nat := Z.of_nat i]> m_data)
    (replicate 12 (-1)).

Definition decoded_block_sizes (encoded_block_size : nat) : outcome Z :=
  if (encoded_block_size <=? full_encoded_block_size)%nat
  then Ret (ld decoded_block_sizes_data encoded_block_size) else Throw.

(** The fall-through [switch] shifts and adds one byte per remaining label. *)
Definition uint_8be_to_64 (data : list Z) : outcome Z :=
  let size := List.length data in
  if ((1 <=? size) && (size <=? 8))%nat then
    Ret (fold_left (fun res b => Z.lor (u64 (Z.shiftl res 8)) b) data 0)
  else Throw.

Definition uint_64_to_8be (num : Z) (size : nat) : outcome (list Z) :=
  if ((1 <=? size) && (size <=? 8))%nat then
    let num_be := SWAP64BE num in
    Ret (take size (drop (8 - size) (le_split 8 num_be)))
  else Throw.

(** The digit loop of [encode_block], writing backwards from index [i]. *)
Fixpoint encode_block_loop (fuel : nat) (num i : Z) (res : list Z) : outcome (list Z) :=
  match fuel with
  | O => Throw
  | S fuel =>
      if 0 <? num then
        let remainder := num mod alphabet_size in
        let num := num / alphabet_size in
        if (0 <=? i) && (i <? Z.of_nat (List.length res)) then
          encode_block_loop fuel num (i - 1) (<[Z.to_nat i := ld alphabet (Z.to_nat remainder)]> res)
        else Throw
      else Ret res
  end.

(** [res] is the slice of the output reserved for the block. *)
Definition encode_block (block : list Z) (res : list Z) : outcome (list Z) :=
  let size := List.length block in
  if ((1 <=? size) && (size <=? full_block_size))%nat then
    num ← uint_8be_to_64 block;
    let i := Z.of_nat (List.nth size encoded_block_sizes 0%nat) - 1 in
    encode_block_loop 12 num i res
  else Throw.

(** The loop of [decode_block] over the characters from the last to the
    first; [None] is a [return false]. *)
Fixpoint decode_block_loop (rblock : list Z) (res_num order : Z) : option Z :=
  match rblock with
  | [] => Some res_num
  | c :: rblock =>
      let digit := reverse_alphabet c in
      if digit <? 0 then None
      else
        let tmp := u128 (res_num + u128 (order * digit)) in
        if (tmp <? res_num) || (2 ^ 64 - 1 <? tmp) then None
        else decode_block_loop rblock tmp (u64 (order * alphabet_size))
  end.

Definition decode_block (block : list Z) : outcome (option (list Z)) :=
  let size := List.length block in
  if ((1 <=? size) && (size <=? full_encoded_block_size))%nat then
    res_size ← decoded_block_sizes size;
    if res_size <=? 0 then Ret None
    else
      match decode_block_loop (rev block) 0 1 with
      | None => Ret None
      | Some res_num =>
          if (Z.to_nat res_size <? full_block_size)%nat &&
             (Z.shiftl 1 (8 * res_size) <=? res_num)
          then Ret None
          else res ← uint_64_to_8be res_num (Z.to_nat res_size); Ret (Some res)
      end
  else Throw.

(** The loops over blocks: [count] full blocks, then the last partial one. *)
Fixpoint encode_blocks (count : nat) (data : list Z) : outcome (list Z) :=
  match count with
  | S count =>
      b ← encode_block (take full_block_size data) (replicate full_encoded_block_size (ld alphabet 0));
      r ← encode_blocks count (drop full_block_size data);
      Ret (b ++ r)
  | O =>
      if (0 <? List.length data)%nat then
        encode_block data (replicate (List.nth (List.length data) encoded_block_sizes 0%nat) (ld alphabet 0))
      else Ret []
  end.

Definition encode (data : list Z) : outcome (list Z) :=
  match data with
  | [] => Ret []
  | _ => encode_blocks (List.length data / full_block_size) data
  end.

Fixpoint decode_blocks (count : nat) (enc : list Z) : outcome (option (list Z)) :=
  match count with
  | S count =>
      b ← decode_block (take full_encoded_block_size enc);
      match b with
      | None => Ret None
      | Some b =>
          r ← decode_blocks count (drop full_encoded_block_size enc);
          match r with None => Ret None | Some r => Ret (Some (b ++ r)) end
      end
  | O => if (0 <? List.length enc)%nat then decode_block enc else Ret (Some [])
  end.

Definition decode (enc : list Z) : outcome (option (list Z)) :=
  match enc with
  | [] => Ret (Some [])
  | _ =>
      let full_block_count := (List.length enc / full_encoded_block_size)%nat in
      let last_block_size := (List.length enc mod full_encoded_block_size)%nat in
      last_block_decoded_size ← decoded_block_sizes last_block_size;
      if last_block_decoded_size <? 0 then Ret None
      else decode_blocks full_block_count enc
  end.

Definition encode_addr (tag : Z) (data : list Z) : outcome (list Z) :=
  match get_varint_data tag with
  | None => Throw
  | Some v =>
      let buf := v ++ data in
      let hash := cn_fast_hash buf in
      encode (buf ++ take addr_checksum_size hash)
  end.

(** [None] is [return false]; otherwise the tag and the data. *)
Definition decode_addr (addr : list Z) : outcome (option (Z * list Z)) :=
  r ← decode addr;
  match r with
  | None => Ret None
  | Some addr_data =>
      if (List.length addr_data <=? addr_checksum_size)%nat then Ret None
      else
        let n := (List.length addr_data - addr_checksum_size)%nat in
        let checksum := drop n addr_data in
        let addr_data := take n addr_data in
        let hash := cn_fast_hash addr_data in
        let expected_checksum := take addr_checksum_size hash in
        if negb (bool_decide (expected_checksum = checksum)) then Ret None
        else
          let '(read, tag, _) := read_varint 64 addr_data in
          if read <=? 0 then Ret None
          else Ret (Some (tag, drop (Z.to_nat read) addr_data))
  end.

Example encode_ff : encode (replicate 8 0xff) = Ret (chars "jpXCZedGfVQ").
Proof. vm_compute. reflexivity. Qed.

(** ** Digits

    [digits58 k n] are the [k] low base-58 digits of [n], the least
    significant first, as characters. *)

Fixpoint digits58 (k : nat) (n : Z) : list Z :=
  match k with
  | O => []
  | S k => ld alphabet (Z.to_nat (n mod 58)) :: digits58 k (n / 58)
  end.

Lemma digits58_length k n : List.length (digits58 k n) = k.
Proof. revert n. induction k; intros; simpl; auto. Qed.

Lemma digits58_zero k : digits58 k 0 = replicate k (ld alphabet 0).
Proof. induction k as [|k IH]; [done|]. cbn [digits58 replicate]. by rewrite Z.mod_0_l, Z.div_0_l, IH. Qed.

Lemma reverse_alphabet_digit d : 0 <= d < 58 -> reverse_alphabet (ld alphabet (Z.to_nat d)) = d.
Proof.
  intros Hd.
  assert (H : forallb (fun n => reverse_alphabet (ld alphabet n) =? Z.of_nat n) (seq 0 58) = true)
    by (vm_compute; reflexivity).
  rewrite forallb_forall in H. specialize (H (Z.to_nat d)). rewrite Z2Nat.id in H by lia.
  apply Z.eqb_eq, H, in_seq. lia.
Qed.

Lemma reverse_alphabet_char c : is_u8 c -> 0 <= reverse_alphabet c ->
  reverse_alphabet c < 58 /\ ld alphabet (Z.to_nat (reverse_alphabet c)) = c.
Proof.
  intros Hc Hr.
  pose proof (forall_byte (fun c => (reverse_alphabet c <? 0) ||
    ((reverse_alphabet c <? 58) && (ld alphabet (Z.to_nat (reverse_alphabet c)) =? c))))
    as H. specialize (H ltac:(vm_compute; reflexivity) c Hc). cbv beta in H.
  apply orb_true_iff in H as [H|H]; zbool; [lia|done].
Qed.

(** ** Big-endian words *)

Lemma le_combine_snoc l b : le_combine (l ++ [b]) = le_combine l + 256 ^ Z.of_nat (List.length l) * b.
Proof. rewrite le_combine_app. simpl. lia. Qed.

Lemma be_fold data acc :
  bytes_ok data -> 0 <= acc -> acc * 256 ^ Z.of_nat (List.length data) + le_combine (rev data) < 2 ^ 64 ->
  fold_left (fun res b => Z.lor (u64 (Z.shiftl res 8)) b) data acc =
    acc * 256 ^ Z.of_nat (List.length data) + le_combine (rev data).
Proof.
  intros Hd. revert acc. induction Hd as [|b l Hb Hl IH]; intros acc Ha Hlt.
  { simpl in *. lia. }
  unfold in_u in Hb. change (2 ^ 8) with 256 in Hb.
  cbn [rev fold_left List.length] in *.
  rewrite le_combine_snoc, length_rev, Nat2Z.inj_succ, Z.pow_succ_r in * by lia.
  pose proof (Z.pow_pos_nonneg 256 (Z.of_nat (List.length l)) ltac:(lia) ltac:(lia)) as Hp.
  pose proof (le_combine_range (rev l) ltac:(by apply Forall_rev)) as Hr.
  rewrite length_rev in Hr.
  assert (Hs : u64 (Z.shiftl acc 8) = acc * 2 ^ 8).
  { rewrite Z.shiftl_mul_pow2 by lia. apply wrap_small. split; [lia|]. nia. }
  rewrite Hs, Z.lor_comm, lor_add_low by lia. rewrite IH; [lia|lia|]. nia.
Qed.

Lemma uint_8be_to_64_spec data : bytes_ok data -> (1 <= List.length data <= 8)%nat ->
  uint_8be_to_64 data = Ret (le_combine (rev data)).
Proof.
  intros Hd Hl. unfold uint_8be_to_64.
  rewrite (proj2 (andb_true_iff _ _)) by (rewrite !Nat.leb_le; lia).
  rewrite be_fold; [done|done|lia|].
  pose proof (le_combine_range (rev data) ltac:(by apply Forall_rev)) as Hr.
  rewrite length_rev in Hr. rewrite Z.mul_0_l, Z.add_0_l.
  eapply Z.lt_le_trans; [apply Hr|]. change (2 ^ 64) with (256 ^ 8). apply Z.pow_le_mono_r; lia.
Qed.

Lemma take_le_split n m x : (n <= m)%nat -> take n (le_split m x) = le_split n x.
Proof.
  revert m x. induction n as [|n IH]; intros m x H; [done|].
  destruct m as [|m]; [lia|]. cbn [le_split take firstn]. f_equal. apply IH. lia.
Qed.

Lemma uint_64_to_8be_spec num size : (1 <= size <= 8)%nat ->
  uint_64_to_8be num size = Ret (rev (le_split size num)).
Proof.
  intros Hs. unfold uint_64_to_8be, SWAP64BE.
  rewrite (proj2 (andb_true_iff _ _)) by (rewrite !Nat.leb_le; lia).
  rewrite SWAP64_bytes. f_equal. rewrite skipn_rev, length_le_split.
  replace (8 - (8 - size))%nat with size by lia.
  rewrite firstn_all2 by (rewrite length_rev, length_take, length_le_split; lia).
  f_equal. apply take_le_split. lia.
Qed.

(** ** One block *)

(** [enc n] is the encoded length of a block of [n] bytes. *)
Abbreviation enc n := (List.nth n encoded_block_sizes 0%nat).

Lemma enc_fits n : (1 <= n <= 8)%nat -> 256 ^ Z.of_nat n <= 58 ^ Z.of_nat (enc n) /\ (2 <= enc n <= 11)%nat.
Proof. intros Hn. do 9 (destruct n as [|n]; [first [lia | split; [vm_compute; discriminate | simpl; lia]]|]). lia. Qed.

Lemma alphabet_bytes i : is_u8 (ld alphabet i).
Proof.
  destruct (decide (i < 58)%nat) as [Hi|Hi].
  - assert (H : forallb (fun n => (0 <=? ld alphabet n) && (ld alphabet n <? 256)) (seq 0 58) = true)
      by (vm_compute; reflexivity).
    rewrite forallb_forall in H. specialize (H i ltac:(apply in_seq; lia)). zbool. by split.
  - unfold ld. rewrite nth_overflow; [by split|]. change (List.length alphabet) with 58%nat. lia.
Qed.

Lemma digits58_bytes k n : bytes_ok (digits58 k n).
Proof. revert n. induction k as [|k IH]; intros n; [constructor|]. constructor; [apply alphabet_bytes|apply IH]. Qed.

Lemma encode_block_loop_spec k fuel num tail :
  0 <= num < 58 ^ Z.of_nat k -> (k < fuel)%nat ->
  encode_block_loop fuel num (Z.of_nat k - 1) (replicate k (ld alphabet 0) ++ tail) =
    Ret (rev (digits58 k num) ++ tail).
Proof.
  revert fuel num tail. induction k as [|k IH]; intros [|fuel] num tail Hn Hf; [lia| |lia|];
    cbn [encode_block_loop].
  { assert (num = 0) as -> by (simpl in Hn; lia). done. }
  destruct (0 <? num) eqn:E; zbool.
  - rewrite Nat2Z.inj_succ, Z.pow_succ_r in Hn by lia.
    assert (Hi : (0 <=? Z.of_nat (S k) - 1) &&
       (Z.of_nat (S k) - 1 <? Z.of_nat (List.length (replicate (S k) (ld alphabet 0) ++ tail))) = true).
    { rewrite length_app, length_replicate. apply andb_true_intro. rewrite Z.leb_le, Z.ltb_lt. lia. }
    rewrite Hi. replace (Z.of_nat (S k) - 1) with (Z.of_nat k) by lia. rewrite Nat2Z.id.
    rewrite replicate_S_end, <- app_assoc.
    replace k with (List.length (replicate k (ld alphabet 0)) + 0)%nat at 2 by (rewrite length_replicate; lia).
    rewrite insert_app_r. change (<[0%nat := ?v]> ([?a] ++ tail)) with ([v] ++ tail).
    unfold alphabet_size.
    assert (Hq : 0 <= num / 58 < 58 ^ Z.of_nat k)
      by (split; [apply Z.div_pos; lia | apply Z.div_lt_upper_bound; lia]).
    rewrite (IH fuel (num / 58) ([ld alphabet (Z.to_nat (num mod 58))] ++ tail)) by (done || lia).
    cbn [digits58 rev]. by rewrite <- app_assoc.
  - assert (num = 0) as -> by lia. by rewrite digits58_zero, rev_replicate.
Qed.

Lemma encode_block_spec block : bytes_ok block -> (1 <= List.length block <= 8)%nat ->
  encode_block block (replicate (enc (List.length block)) (ld alphabet 0)) =
    Ret (rev (digits58 (enc (List.length block)) (le_combine (rev block)))).
Proof.
  intros Hb Hl. unfold encode_block, full_block_size.
  rewrite (proj2 (andb_true_iff _ _)) by (rewrite !Nat.leb_le; lia).
  rewrite uint_8be_to_64_spec by done.
  pose proof (enc_fits _ Hl) as [H1 H2].
  pose proof (le_combine_range (rev block) ltac:(by apply Forall_rev)) as Hr. rewrite length_rev in Hr.
  rewrite <- (app_nil_r (replicate _ _)).
  outcome_simp. cbv zeta.
  rewrite encode_block_loop_spec; [by rewrite app_nil_r|lia|lia].
Qed.

Lemma pow58_u64 j : (j <= 10)%nat -> is_u64 (58 ^ Z.of_nat j).
Proof.
  intros Hj. split; [lia|]. apply Z.le_lt_trans with (58 ^ 10); [apply Z.pow_le_mono_r; lia|reflexivity].
Qed.

(** A step of the decoding loop on a character of the alphabet. *)
Lemma decode_block_loop_step c l r j :
  (j <= 10)%nat -> is_u8 c -> 0 <= r < 2 ^ 64 -> 0 <= reverse_alphabet c < 58 ->
  decode_block_loop (c :: l) r (u64 (58 ^ Z.of_nat j)) =
    (if 2 ^ 64 <=? r + 58 ^ Z.of_nat j * reverse_alphabet c then None
     else decode_block_loop l (r + 58 ^ Z.of_nat j * reverse_alphabet c) (u64 (58 ^ Z.of_nat (S j)))).
Proof.
  intros Hj Hc Hr Hd. cbn [decode_block_loop].
  pose proof (pow58_u64 j Hj) as Hp. rewrite (wrap_small 64 _ Hp). unfold in_u in Hp.
  rewrite (proj2 (Z.ltb_ge _ 0)) by lia.
  assert (58 ^ Z.of_nat j * reverse_alphabet c < 2 ^ 64 * 58) by nia.
  unwrap by nia. rewrite (proj2 (Z.ltb_ge _ r)) by nia. cbn [orb].
  unfold alphabet_size. rewrite Nat2Z.inj_succ, Z.pow_succ_r, (Z.mul_comm 58) by lia.
  destruct (2 ^ 64 - 1 <? _) eqn:E1, (2 ^ 64 <=? _) eqn:E2; zbool; try done; lia.
Qed.

Lemma decode_block_loop_digits k j num r :
  (k + j <= 11)%nat -> 0 <= r -> 0 <= num < 58 ^ Z.of_nat k -> r + 58 ^ Z.of_nat j * num < 2 ^ 64 ->
  decode_block_loop (digits58 k num) r (u64 (58 ^ Z.of_nat j)) = Some (r + 58 ^ Z.of_nat j * num).
Proof.
  revert j num r. induction k as [|k IH]; intros j num r Hkj Hr Hn Hlt.
  { assert (num = 0) as -> by (simpl in Hn; lia). simpl. f_equal. lia. }
  cbn [digits58].
  pose proof (Z.mod_pos_bound num 58 ltac:(lia)) as Hm. pose proof (Z.div_mod num 58 ltac:(lia)) as Hdm.
  rewrite Nat2Z.inj_succ, Z.pow_succ_r in Hn by lia.
  assert (Hq : 0 <= num / 58 < 58 ^ Z.of_nat k)
    by (split; [apply Z.div_pos; lia | apply Z.div_lt_upper_bound; lia]).
  pose proof (Z.pow_pos_nonneg 58 (Z.of_nat j) ltac:(lia) ltac:(lia)) as Hp.
  assert (HE : 58 ^ Z.of_nat j * num = 58 ^ Z.of_nat j * (num mod 58) + 58 ^ Z.of_nat (S j) * (num / 58)).
  { rewrite Nat2Z.inj_succ, Z.pow_succ_r by lia. rewrite Hdm at 1. ring. }
  pose proof (Z.pow_pos_nonneg 58 (Z.of_nat (S j)) ltac:(lia) ltac:(lia)) as Hp'.
  assert (0 <= 58 ^ Z.of_nat (S j) * (num / 58)) by (apply Z.mul_nonneg_nonneg; lia).
  assert (0 <= 58 ^ Z.of_nat j * (num mod 58)) by (apply Z.mul_nonneg_nonneg; lia).
  rewrite decode_block_loop_step; rewrite ?reverse_alphabet_digit by done;
    [|lia|apply alphabet_bytes|lia|done].
  rewrite (proj2 (Z.leb_gt _ _)) by lia.
  rewrite IH; [f_equal; lia|lia|lia|done|lia].
Qed.

Lemma decode_block_loop_inv l j r v :
  bytes_ok l -> (List.length l + j <= 11)%nat -> 0 <= r < 2 ^ 64 ->
  decode_block_loop l r (u64 (58 ^ Z.of_nat j)) = Some v ->
  v < 2 ^ 64 /\ exists num, l = digits58 (List.length l) num /\
    0 <= num < 58 ^ Z.of_nat (List.length l) /\ v = r + 58 ^ Z.of_nat j * num.
Proof.
  intros Hl. revert j r. induction Hl as [|c l Hc Hl IH]; intros j r Hj Hr E.
  { injection E as <-. split; [lia|]. exists 0. split; [done|]. split; [simpl; lia|lia]. }
  destruct (decide (0 <= reverse_alphabet c)) as [Hd|Hd].
  2:{ cbn [decode_block_loop] in E. rewrite (proj2 (Z.ltb_lt _ 0)) in E by lia. discriminate. }
  destruct (reverse_alphabet_char c Hc Hd) as [Hd58 Hal].
  cbn [List.length] in Hj. rewrite decode_block_loop_step in E by (done || lia).
  destruct (2 ^ 64 <=? _) eqn:Eb; [discriminate|]. zbool.
  pose proof (Z.pow_pos_nonneg 58 (Z.of_nat j) ltac:(lia) ltac:(lia)) as Hp.
  apply IH in E as (Hv & num & HE & Hn & ->); [|lia|split; [nia|lia]].
  split; [done|]. exists (reverse_alphabet c + num * 58). cbn [List.length digits58].
  rewrite Z.mod_add, Z.div_add, Z.mod_small, Z.div_small, Z.add_0_l, Hal by lia.
  split; [by rewrite HE at 1|]. rewrite !Nat2Z.inj_succ, !Z.pow_succ_r by lia. split; lia.
Qed.

Lemma decode_block_loop_digits_0 k num : (k <= 11)%nat -> 0 <= num < 58 ^ Z.of_nat k -> num < 2 ^ 64 ->
  decode_block_loop (digits58 k num) 0 1 = Some num.
Proof.
  intros Hk Hn Hlt. pose proof (decode_block_loop_digits k 0 num 0) as H.
  change (58 ^ Z.of_nat 0) with 1 in H. rewrite Z.mul_1_l, Z.add_0_l in H. apply H; lia.
Qed.

Lemma decode_block_loop_inv_0 l v : bytes_ok l -> (List.length l <= 11)%nat ->
  decode_block_loop l 0 1 = Some v ->
  v < 2 ^ 64 /\ l = digits58 (List.length l) v /\ 0 <= v < 58 ^ Z.of_nat (List.length l).
Proof.
  intros Hl Hn E. destruct (decode_block_loop_inv l 0 0 v) as (Hv & num & HE & Hnum & ->);
    [done|lia|lia|done|].
  change (58 ^ Z.of_nat 0) with 1 in *. rewrite Z.mul_1_l, Z.add_0_l in *. done.
Qed.

Lemma decoded_block_sizes_enc n : (n <= 8)%nat -> decoded_block_sizes (enc n) = Ret (Z.of_nat n).
Proof. intros Hn. do 9 (destruct n as [|n]; [vm_compute; reflexivity|]). lia. Qed.

Lemma decoded_block_sizes_inv m n : decoded_block_sizes m = Ret n -> 0 <= n ->
  m = enc (Z.to_nat n) /\ (Z.to_nat n <= 8)%nat /\ (n = 0 -> m = 0%nat).
Proof.
  unfold decoded_block_sizes. destruct (m <=? full_encoded_block_size)%nat eqn:E; [|done].
  apply Nat.leb_le in E. unfold full_encoded_block_size in E. intros [= <-].
  do 12 (destruct m as [|m]; [vm_compute; repeat split; try lia; try done; intros; exfalso; auto|]). lia.
Qed.

Lemma shiftl_1_bytes n : Z.shiftl 1 (8 * Z.of_nat n) = 256 ^ Z.of_nat n.
Proof. rewrite Z.shiftl_1_l. change 256 with (2 ^ 8). by rewrite <- Z.pow_mul_r by lia. Qed.

Lemma decode_block_digits n num : (1 <= n <= 8)%nat -> 0 <= num < 256 ^ Z.of_nat n ->
  decode_block (rev (digits58 (enc n) num)) = Ret (Some (rev (le_split n num))).
Proof.
  intros Hn Hnum. pose proof (enc_fits n Hn) as [H1 H2].
  unfold decode_block. rewrite length_rev, digits58_length. unfold full_encoded_block_size.
  rewrite (proj2 (andb_true_iff _ _)) by (rewrite !Nat.leb_le; lia).
  rewrite decoded_block_sizes_enc by lia.
  outcome_simp.
  rewrite (proj2 (Z.leb_gt _ 0)) by lia. rewrite rev_involutive.
  assert (H64 : num < 2 ^ 64).
  { eapply Z.lt_le_trans; [apply Hnum|]. change (2 ^ 64) with (256 ^ 8). apply Z.pow_le_mono_r; lia. }
  rewrite decode_block_loop_digits_0 by lia. rewrite Nat2Z.id.
  rewrite shiftl_1_bytes, (proj2 (Z.leb_gt _ num)), andb_false_r by lia.
  by rewrite uint_64_to_8be_spec by lia.
Qed.

(** Decoding accepts only the string the encoder writes. *)
Lemma decode_block_inv block d : bytes_ok block -> decode_block block = Ret (Some d) ->
  (1 <= List.length d <= 8)%nat /\ bytes_ok d /\ List.length block = enc (List.length d) /\
  encode_block d (replicate (enc (List.length d)) (ld alphabet 0)) = Ret block.
Proof.
  intros Hb. unfold decode_block. destruct (_ && _)%nat eqn:Esz; [|done].
  apply andb_true_iff in Esz as [S1%Nat.leb_le S2%Nat.leb_le]. unfold full_encoded_block_size in S2.
  destruct (decoded_block_sizes (List.length block)) as [n|] eqn:En; [|done].
  outcome_simp.
  destruct (n <=? 0) eqn:En0; [done|]. zbool.
  destruct (decoded_block_sizes_inv _ _ En ltac:(lia)) as (Hm & Hn8 & _).
  destruct (decode_block_loop (rev block) 0 1) as [v|] eqn:Ev; [|done].
  destruct (_ && _) eqn:Eov; [done|].
  rewrite uint_64_to_8be_spec by lia. outcome_simp. intros Ed.
  assert (d = rev (le_split (Z.to_nat n) v)) as -> by congruence. clear Ed.
  apply decode_block_loop_inv_0 in Ev as (Hv64 & HE & Hnum);
    [|by apply Forall_rev|by rewrite length_rev]. rewrite length_rev in *. rename v into num.
  set (k := Z.to_nat n) in *.
  assert (Hk : num < 256 ^ Z.of_nat k).
  { apply andb_false_iff in Eov as [Eov|Eov].
    - apply Nat.ltb_ge in Eov. unfold full_block_size in Eov. assert (k = 8%nat) as -> by lia. done.
    - zbool. rewrite <- shiftl_1_bytes. unfold k. by rewrite Z2Nat.id by lia. }
  rewrite ?length_rev, ?length_le_split. split; [lia|]. split; [apply Forall_rev, le_split_bytes_ok|].
  split; [done|].
  pose proof (encode_block_spec (rev (le_split k num))) as HS.
  rewrite length_rev, length_le_split, rev_involutive, le_combine_split, Z.mod_small in HS by lia.
  rewrite HS by (try apply Forall_rev, le_split_bytes_ok; lia).
  rewrite <- Hm, <- HE. by rewrite rev_involutive.
Qed.

(** ** Whole strings *)

Lemma encode_blocks_decode c m data : bytes_ok data -> (m < 8)%nat ->
  List.length data = (8 * c + m)%nat ->
  exists e, encode_blocks c data = Ret e /\ bytes_ok e /\ List.length e = (11 * c + enc m)%nat /\
    decode_blocks c e = Ret (Some data).
Proof.
  revert data. induction c as [|c IH]; intros data Hd Hm Hl; cbn [encode_blocks decode_blocks].
  - destruct m as [|m].
    { assert (data = []) as -> by (destruct data; [done|simpl in Hl; lia]).
      exists []. split; [done|]. split; [constructor|]. done. }
    assert (Hlm : List.length data = S m) by lia. rewrite Hlm. cbn [Nat.ltb Nat.leb].
    pose proof (encode_block_spec data Hd ltac:(lia)) as HE. rewrite Hlm in HE.
    eexists. split; [exact HE|]. split; [apply Forall_rev, digits58_bytes|].
    rewrite length_rev, digits58_length. split; [done|].
    pose proof (enc_fits (S m) ltac:(lia)) as [_ He].
    destruct (enc (S m)) as [|k] eqn:Ek; [lia|]. rewrite <- Ek.
    pose proof (le_combine_range (rev data) ltac:(by apply Forall_rev)) as Hr.
    rewrite length_rev, Hlm in Hr. rewrite decode_block_digits by (done || lia).
    rewrite <- Hlm, <- (length_rev data), le_split_combine by by apply Forall_rev.
    by rewrite rev_involutive.
  - assert (Ht : List.length (take full_block_size data) = 8%nat)
      by (rewrite length_take; unfold full_block_size; lia).
    pose proof (encode_block_spec (take full_block_size data) ltac:(by apply Forall_take) ltac:(lia)) as HE.
    rewrite Ht in HE.
    change (replicate full_encoded_block_size (ld alphabet 0)) with (replicate (enc 8) (ld alphabet 0)).
    rewrite HE. outcome_simp.
    destruct (IH (drop full_block_size data)) as (e & -> & He & Hle & Hde);
      [by apply Forall_drop|done|rewrite length_drop; unfold full_block_size; lia|].
    outcome_simp.
    eexists. split; [done|].
    set (b := rev (digits58 (enc 8) _)) in *.
    assert (Hlb : List.length b = 11%nat) by (unfold b; by rewrite length_rev, digits58_length).
    split; [apply Forall_app; split; [apply Forall_rev, digits58_bytes|done]|].
    split; [rewrite length_app; lia|].
    change full_encoded_block_size with 11%nat.
    rewrite (take_app_length' b e) , (drop_app_length' b e) by done.
    pose proof (le_combine_range (rev (take full_block_size data)) ltac:(by apply Forall_rev, Forall_take)) as Hr.
    rewrite length_rev, Ht in Hr. unfold b. rewrite (decode_block_digits 8) by (done || lia).
    outcome_simp. rewrite Hde.
    outcome_simp.
    rewrite <- Ht, <- (length_rev (take _ _)) at 1.
    rewrite le_split_combine, rev_involutive by by apply Forall_rev, Forall_take.
    by rewrite take_drop.
Qed.

Lemma decode_blocks_inv c m e d : bytes_ok e -> (m < 11)%nat -> List.length e = (11 * c + m)%nat ->
  decode_blocks c e = Ret (Some d) ->
  exists n, (n < 8)%nat /\ List.length d = (8 * c + n)%nat /\ bytes_ok d /\ encode_blocks c d = Ret e.
Proof.
  revert e d. induction c as [|c IH]; intros e d He Hm Hl E; cbn [decode_blocks] in E.
  - destruct (0 <? List.length e)%nat eqn:E0.
    + apply decode_block_inv in E as (Hd & Hdb & Hle & HE); [|done].
      exists (List.length d). split; [|split; [lia|split; [done|]]].
      * destruct (decide (List.length d = 8%nat)) as [H8|]; [|lia].
        rewrite H8 in Hle. simpl in Hle. lia.
      * cbn [encode_blocks]. rewrite (proj2 (Nat.ltb_lt 0 (List.length d))) by lia. done.
    + injection E as <-. apply Nat.ltb_ge in E0. exists 0%nat.
      split; [lia|]. split; [done|]. split; [constructor|].
      destruct e; [done|simpl in E0; lia].
  - destruct (decode_block (take full_encoded_block_size e)) as [[b|]|] eqn:Eb; [|done..].
    revert E. outcome_simp.
    destruct (decode_blocks c (drop full_encoded_block_size e)) as [[r|]|] eqn:Er; [|done..].
    outcome_simp. intros E. assert (d = b ++ r) as -> by congruence. clear E.
    apply decode_block_inv in Eb as (Hd & Hdb & Hle & HE); [|by apply Forall_take].
    rewrite length_take in Hle. unfold full_encoded_block_size in *.
    assert (H8 : List.length b = 8%nat).
    { assert (enc (List.length b) = 11%nat) by lia. revert H Hd. clear.
      generalize (List.length b). intros k Hk Hd. do 8 (destruct k as [|k]; [simpl in Hk; lia|]). lia. }
    apply IH in Er as (n & Hn & Hlr & Hrb & HEr); [|by apply Forall_drop|done|rewrite length_drop; lia].
    exists n. split; [done|]. split; [rewrite length_app; lia|]. split; [by apply Forall_app|].
    cbn [encode_blocks]. change full_block_size with 8%nat.
    rewrite take_app_length', drop_app_length' by done.
    rewrite H8 in HE. unfold full_encoded_block_size. change (replicate 11 ?x) with (replicate (enc 8) x).
    rewrite HE. outcome_simp. rewrite HEr. outcome_simp. by rewrite take_drop.
Qed.

Lemma encode_unfold data : data <> [] -> encode data = encode_blocks (List.length data / 8) data.
Proof. by destruct data. Qed.

Lemma decode_unfold e : e <> [] ->
  decode e = (n ← decoded_block_sizes (List.length e mod 11);
              if n <? 0 then Ret None else decode_blocks (List.length e / 11) e).
Proof. by destruct e. Qed.

Lemma decode_of_encode data : bytes_ok data ->
  exists e, encode data = Ret e /\ decode e = Ret (Some data).
Proof.
  intros Hd. destruct (decide (data = [])) as [->|Hne]; [by exists []|].
  pose proof (Nat.div_mod_eq (List.length data) 8) as Hdm.
  pose proof (Nat.mod_upper_bound (List.length data) 8 ltac:(lia)) as Hm.
  rewrite encode_unfold by done. revert Hdm Hm.
  generalize (List.length data / 8)%nat as c. generalize (List.length data mod 8)%nat as m. intros m c Hdm Hm.
  destruct (encode_blocks_decode c m data) as (e & E' & He & Hle & HD); [done..|].
  exists e. split; [done|].
  assert (Hn8 : (enc m < 11)%nat) by (do 8 (destruct m as [|m]; [simpl; lia|]); lia).
  rewrite decode_unfold.
  - rewrite Hle, (Nat.add_comm (11 * c)), (Nat.mul_comm 11), Nat.Div0.mod_add, Nat.div_add by lia.
    rewrite Nat.mod_small, Nat.div_small by done.
    rewrite decoded_block_sizes_enc by lia. outcome_simp.
    by rewrite (proj2 (Z.ltb_ge _ 0)) by lia.
  - intros ->. cbn [List.length] in Hle. assert (c = 0)%nat as -> by lia.
    destruct m as [|m]; [by destruct data|]. pose proof (enc_fits (S m) ltac:(lia)). lia.
Qed.

(** base58 decoding inverts encoding: every byte string is encoded (no
    assertion fails) and decodes back to itself. *)
Theorem base58_decode_encode data : bytes_ok data ->
  exists e, encode data = Ret e /\ decode e = Ret (Some data).
Proof. apply decode_of_encode. Qed.

Example base58_decode_encode_witness :
  exists e, encode [0; 255; 7; 0; 0; 1; 2; 3; 4; 0] = Ret e /\
    decode e = Ret (Some [0; 255; 7; 0; 0; 1; 2; 3; 4; 0]).
Proof. apply (base58_decode_encode [0; 255; 7; 0; 0; 1; 2; 3; 4; 0]). repeat constructor; lia. Defined.

Lemma encode_of_decode e d : bytes_ok e ->
  decode e = Ret (Some d) -> bytes_ok d /\ encode d = Ret e.
Proof.
  intros He E. destruct (decide (e = [])) as [->|Hne]; [injection E as <-; by split; [constructor|]|].
  rewrite decode_unfold in E by done.
  destruct (decoded_block_sizes (List.length e mod 11)) as [n|] eqn:En; [|done].
  revert E. outcome_simp. destruct (n <? 0) eqn:En0; [done|]. zbool. intros E.
  pose proof (Nat.div_mod_eq (List.length e) 11) as Hdm.
  pose proof (Nat.mod_upper_bound (List.length e) 11 ltac:(lia)) as Hm.
  revert E Hdm. generalize (List.length e / 11)%nat as c. intros c E Hdm.
  apply (decode_blocks_inv _ (List.length e mod 11)) in E as (k & Hk & Hld & Hdb & HE); [|done..].
  split; [done|]. destruct (decide (d = [])) as [->|Hd].
  - cbn [List.length] in Hld. assert (c = 0)%nat as -> by lia. exact HE.
  - rewrite encode_unfold, Hld, (Nat.add_comm (8 * _)), (Nat.mul_comm 8), Nat.div_add, Nat.div_small by (done || lia).
    done.
Qed.

(** base58 decoding is canonical: a string the decoder accepts is the
    encoding of the bytes it returns, so no two strings decode to the same
    bytes (overflowing blocks and foreign symbols are refused). *)
Theorem base58_decode_canonical e d : bytes_ok e ->
  decode e = Ret (Some d) -> bytes_ok d /\ encode d = Ret e.
Proof. apply encode_of_decode. Qed.

Example base58_decode_canonical_witness :
  decode (chars "jpXCZedGfVQ5Q") = Ret (Some (replicate 9 255)) /\
  (bytes_ok (replicate 9 255) /\ encode (replicate 9 255) = Ret (chars "jpXCZedGfVQ5Q")).
Proof.
  split; [vm_compute; reflexivity|].
  apply (base58_decode_canonical (chars "jpXCZedGfVQ5Q") (replicate 9 255)); [|vm_compute; reflexivity].
  vm_compute. repeat constructor; vm_compute; congruence.
Defined.

(** ** Addresses *)

(** an address string carries its tag and data: encoding never fails and
    decoding verifies the checksum and gives both back. *)
Theorem addr_roundtrip tag data : is_u64 tag -> bytes_ok data ->
  exists a, encode_addr tag data = Ret a /\ decode_addr a = Ret (Some (tag, data)).
Proof.
  intros Ht Hd. unfold encode_addr, get_varint_data.
  destruct (write_read_varint 64 64 tag data) as (v & Ev & Hv & Hrd); [lia|lia|done|]. rewrite Ev.
  set (buf := v ++ data) in *.
  assert (Hbuf : bytes_ok buf) by by apply Forall_app.
  set (sum := take addr_checksum_size (cn_fast_hash buf)).
  assert (Hlsum : List.length sum = 4%nat)
    by (unfold sum; rewrite length_take, cn_fast_hash_length; done).
  destruct (decode_of_encode (buf ++ sum)) as (a & -> & Ha).
  { apply Forall_app. split; [done|]. apply Forall_take, cn_fast_hash_bytes. }
  exists a. split; [done|]. unfold decode_addr. rewrite Ha. outcome_simp.
  assert (Hvl : (0 < List.length v)%nat) by (by eapply write_varint_length).
  assert (Hbl : List.length buf = (List.length v + List.length data)%nat) by apply length_app.
  rewrite (proj2 (Nat.leb_gt _ _)) by (rewrite length_app; unfold addr_checksum_size; lia).
  cbv zeta. rewrite length_app, Hlsum.
  replace (List.length buf + 4 - addr_checksum_size)%nat with (List.length buf)
    by (unfold addr_checksum_size; lia).
  rewrite drop_app_length, take_app_length.
  fold sum. rewrite bool_decide_eq_true_2 by done. cbn [negb].
  unfold read_varint. rewrite Hrd. cbv iota beta.
  rewrite (proj2 (Z.leb_gt _ 0)) by lia. rewrite Nat2Z.id. unfold buf. by rewrite drop_app_length.
Qed.

Example addr_roundtrip_witness :
  exists a, encode_addr 0xc5 (replicate 64 7) = Ret a /\ decode_addr a = Ret (Some (0xc5, replicate 64 7)).
Proof. apply (addr_roundtrip 0xc5 (replicate 64 7)); [split; lia|]. repeat constructor; lia. Defined.

(** what [decode_addr] accepts: the string is the base58 form of a varint
    tag, the data and the first four bytes of their hash; the tag is encoded
    canonically unless the data is empty and the tag itself is truncated. *)
Theorem decode_addr_accepts a tag data : bytes_ok a ->
  decode_addr a = Ret (Some (tag, data)) ->
  encode_addr tag data = Ret a \/
  exists v, data = [] /\ Forall (fun b => 128 <= b) v /\ encode (v ++ take addr_checksum_size (cn_fast_hash v)) = Ret a.
Proof.
  intros Ha. unfold decode_addr.
  destruct (decode a) as [[l|]|] eqn:E; [|done..]. outcome_simp.
  apply encode_of_decode in E as [Hl E]; [|done].
  destruct (List.length l <=? addr_checksum_size)%nat eqn:E4; [done|]. apply Nat.leb_gt in E4.
  cbv zeta. set (n := (List.length l - addr_checksum_size)%nat) in *.
  destruct (negb (bool_decide _)) eqn:Esum; [done|].
  apply negb_false_iff, bool_decide_eq_true_1 in Esum.
  destruct (read_varint 64 (take n l)) as [[read t] rest] eqn:Er.
  destruct (read <=? 0) eqn:E0; [done|]. zbool. intros [= <- <-].
  assert (Hb : bytes_ok (take n l)) by by apply Forall_take.
  destruct (read_varint_outcome 64 64 _ _ _ _ ltac:(lia) ltac:(lia) Hb Er ltac:(lia))
    as (_ & pre & Hpre & -> & Ho).
  rewrite Hpre, Nat2Z.id, drop_app_length in *.
  rewrite <- (take_drop n l), <- Esum, Hpre in E.
  destruct Ho as [Hw|[-> Hw]]; [left|right].
  - unfold encode_addr, get_varint_data. by rewrite Hw.
  - exists pre. split; [done|]. split; [done|]. by rewrite app_nil_r in E.
Qed.

Example decode_addr_accepts_witness :
  encode_addr 5 [1; 2] = Ret (chars "1BzuUTxs1r") \/
  exists v, [1; 2] = [] /\ Forall (fun b => 128 <= b) v /\
    encode (v ++ take addr_checksum_size (cn_fast_hash v)) = Ret (chars "1BzuUTxs1r").
Proof.
  apply (decode_addr_accepts (chars "1BzuUTxs1r") 5 [1; 2]); [|vm_compute; reflexivity].
  vm_compute. repeat constructor; vm_compute; congruence.
Defined.
