(* ===== verification/TreeHash.v ===== *)
(** * Merkle roots: [src/src/crypto/tree-hash.c]

    The in-place computation of the transaction tree of a block, for any hash
    function, against the recursive definition of a Merkle tree over a power
    of two of leaves. *)

From S2P Require Import Prelude Keccak.

Section TreeHash.

(** [H] is the hash of the code, [cn_fast_hash]; a hash is a byte string. *)
Context (H : list Z -> list Z).

Definition hnth (l : list (list Z)) (i : nat) : list Z := List.nth i l [].

(** [for (i = 1; i < 8 * sizeof(size_t); i <<= 1) cnt |= cnt >> i;
     cnt &= ~(cnt >> 1);] *)
Definition smear (cnt : Z) : Z :=
  fold_left (fun cnt i => Z.lor cnt (Z.shiftr cnt i)) [1; 2; 4; 8; 16; 32] cnt.
Definition top_bit (cnt : Z) : Z :=
  let cnt := smear cnt in Z.land cnt (Z.lxor (2 ^ 64 - 1) (Z.shiftr cnt 1)).

(** [for (...; j < cnt; i += 2, ++j) cn_fast_hash(src[i], 64, ints[j])] for [n]
    iterations; [src] is read from [ints] itself when it is the same array. *)
Fixpoint hash_pairs_from (n : nat) (src : list (list Z)) (i j : nat) (ints : list (list Z)) : list (list Z) :=
  match n with
  | O => ints
  | S n => hash_pairs_from n src (i + 2) (j + 1) (<[j := H (hnth src i ++ hnth src (i + 1))]> ints)
  end.

Fixpoint hash_pairs_in_place (n : nat) (i j : nat) (ints : list (list Z)) : list (list Z) :=
  match n with
  | O => ints
  | S n => hash_pairs_in_place n (i + 2) (j + 1) (<[j := H (hnth ints i ++ hnth ints (i + 1))]> ints)
  end.

(** [while (cnt > 2) { cnt >>= 1; ... }]; [fuel] bounds the iterations. *)
Fixpoint tree_levels (fuel : nat) (cnt : nat) (ints : list (list Z)) : option (list (list Z)) :=
  match fuel with
  | O => None
  | S fuel =>
      if (2 <? cnt)%nat then
        let cnt := (cnt / 2)%nat in
        tree_levels fuel cnt (hash_pairs_in_place cnt 0 0 ints)
      else Some ints
  end.

(** [malloc_ok] says whether the allocation succeeds; [None] is a failed
    [assert]. *)
Definition tree_hash (malloc_ok : bool) (hashes : list (list Z)) : option (list Z) :=
  let count := List.length hashes in
  match count with
  | O => None
  | 1%nat => Some (hnth hashes 0)
  | 2%nat => Some (H (hnth hashes 0 ++ hnth hashes 1))
  | _ =>
      let cnt := Z.to_nat (top_bit (Z.of_nat count - 1)) in
      if malloc_ok then
        let ints := replicate cnt [] in
        let k := (2 * cnt - count)%nat in
        let ints := take k hashes ++ drop k ints in
        let ints := hash_pairs_from (cnt - k) hashes k k ints in
        if (k + 2 * (cnt - k) =? count)%nat then
          ints ← tree_levels 64 cnt ints;
          Some (H (hnth ints 0 ++ hnth ints 1))
        else None
      else Some (replicate 32 0)
  end.

(** ** The reference tree *)

(** The root of a perfect tree with [2^k] leaves. *)
Fixpoint merkle (k : nat) (leaves : list (list Z)) : list Z :=
  match k with
  | O => hnth leaves 0
  | S k => H (merkle k (take (2 ^ k) leaves) ++ merkle k (drop (2 ^ k) leaves))
  end.

(** Hash consecutive pairs. *)
Fixpoint pairs (l : list (list Z)) : list (list Z) :=
  match l with
  | a :: b :: l => H (a ++ b) :: pairs l
  | _ => []
  end.

(** The leaves of the tree of [count] hashes: [2^k] is the largest power of two
    below [count]; the last [2 * (count - 2^k)] hashes are paired so that
    exactly [2^k] leaves remain. *)
Definition leaves (k : nat) (hashes : list (list Z)) : list (list Z) :=
  let p := (2 * 2 ^ k - List.length hashes)%nat in
  take p hashes ++ pairs (drop p hashes).

(** ** The power of two *)

Lemma lor_shiftr_testbit c i n : 0 <= n -> 0 <= i ->
  Z.testbit (Z.lor c (Z.shiftr c i)) n = Z.testbit c n || Z.testbit c (n + i).
Proof. intros Hn Hi. by rewrite Z.lor_spec, Z.shiftr_spec. Qed.

(** After the smearing loop, bit [n] is set iff some bit from [n] to [n + 63]
    of the argument is. *)
Lemma smear_ones c k : (k < 64)%nat -> 2 ^ Z.of_nat k <= c < 2 ^ (Z.of_nat k + 1) ->
  smear c = 2 ^ (Z.of_nat k + 1) - 1.
Proof.
  intros Hk Hc.
  assert (Htop : Z.testbit c (Z.of_nat k) = true).
  { rewrite Z.testbit_true by lia.
    replace (c / 2 ^ Z.of_nat k) with 1; [done|].
    rewrite Z.pow_add_r in Hc by lia.
    apply Z.div_unique with (c - 2 ^ Z.of_nat k); lia. }
  assert (Hhigh : forall n, Z.of_nat k < n -> Z.testbit c n = false).
  { intros n Hn. apply (in_u_testbit_high (Z.of_nat k + 1)); [|lia].
    pose proof (Z.pow_pos_nonneg 2 (Z.of_nat k)). split; lia. }
  assert (step : forall c i w, 0 < i ->
    (forall n, Z.of_nat k - w < n <= Z.of_nat k -> 0 <= n -> Z.testbit c n = true) ->
    (forall n, Z.of_nat k < n -> Z.testbit c n = false) -> i <= w ->
    (forall n, Z.of_nat k - (w + i) < n <= Z.of_nat k -> 0 <= n -> Z.testbit (Z.lor c (Z.shiftr c i)) n = true) /\
    (forall n, Z.of_nat k < n -> Z.testbit (Z.lor c (Z.shiftr c i)) n = false)).
  { intros c' i w Hi H1 H2 Hw. split; intros n Hn; [intros Hn0|].
    - rewrite lor_shiftr_testbit by lia. destruct (decide (Z.of_nat k - w < n)).
      + by rewrite H1 by lia.
      + rewrite (H1 (n + i)) by lia. apply orb_true_r.
    - rewrite lor_shiftr_testbit by lia. by rewrite !H2 by lia. }
  unfold smear. cbn [fold_left].
  assert (A0 : forall n, Z.of_nat k - 1 < n <= Z.of_nat k -> 0 <= n -> Z.testbit c n = true).
  { intros n Hn Hn0. assert (n = Z.of_nat k) as -> by lia. done. }
  pose proof (step c 1 1 ltac:(lia) A0 Hhigh ltac:(lia)) as [A1 B1].
  pose proof (step _ 2 2 ltac:(lia) A1 B1 ltac:(lia)) as [A2 B2].
  pose proof (step _ 4 4 ltac:(lia) A2 B2 ltac:(lia)) as [A3 B3].
  pose proof (step _ 8 8 ltac:(lia) A3 B3 ltac:(lia)) as [A4 B4].
  pose proof (step _ 16 16 ltac:(lia) A4 B4 ltac:(lia)) as [A5 B5].
  pose proof (step _ 32 32 ltac:(lia) A5 B5 ltac:(lia)) as [A6 B6].
  apply Z.bits_inj'. intros n Hn.
  replace (2 ^ (Z.of_nat k + 1) - 1) with (Z.ones (Z.of_nat k + 1)) by (rewrite Z.ones_equiv; lia).
  destruct (decide (n <= Z.of_nat k)).
  - rewrite A6, Z.ones_spec_low by lia. done.
  - rewrite B6, Z.ones_spec_high by lia. done.
Qed.

Lemma top_bit_pow c k : (k < 63)%nat -> 2 ^ Z.of_nat k <= c < 2 ^ (Z.of_nat k + 1) ->
  top_bit c = 2 ^ Z.of_nat k.
Proof.
  intros Hk Hc. unfold top_bit. cbv zeta. rewrite (smear_ones c k) by (done || lia).
  replace (2 ^ (Z.of_nat k + 1) - 1) with (Z.ones (Z.of_nat k + 1)) by (rewrite Z.ones_equiv; lia).
  change (2 ^ 64 - 1) with (Z.ones 64).
  apply Z.bits_inj'. intros n Hn.
  rewrite Z.land_spec, Z.lxor_spec, Z.shiftr_spec by lia.
  destruct (decide (n = Z.of_nat k)) as [->|].
  - rewrite Z.pow2_bits_true, Z.ones_spec_low, Z.ones_spec_low, Z.ones_spec_high by lia. done.
  - rewrite Z.pow2_bits_false by lia.
    destruct (decide (n < Z.of_nat k)).
    + rewrite (Z.ones_spec_low _ n), (Z.ones_spec_low 64), (Z.ones_spec_low _ (n + 1)) by lia. done.
    + by rewrite (Z.ones_spec_high _ n) by lia.
Qed.

(** ** The array passes *)

Lemma hnth_drop l i j : hnth (drop i l) j = hnth l (i + j).
Proof. unfold hnth. revert l j. induction i as [|i IH]; intros [|a l] j; simpl; auto. by destruct j. Qed.

Lemma drop_two l i : (i + 1 < List.length l)%nat ->
  drop i l = hnth l i :: hnth l (i + 1) :: drop (i + 2) l.
Proof.
  revert i. induction l as [|a l IH]; intros [|i] Hi; cbn [List.length] in Hi; [lia..| |].
  - destruct l as [|b l]; [simpl in Hi; lia|done].
  - change (drop i l = hnth l i :: hnth l (i + 1) :: drop (i + 2) l). apply IH. lia.
Qed.

Lemma pairs_take_step l n i : (i + 2 * S n <= List.length l)%nat ->
  pairs (take (2 * S n) (drop i l)) =
    H (hnth l i ++ hnth l (i + 1)) :: pairs (take (2 * n) (drop (i + 2) l)).
Proof.
  intros Hl. rewrite (drop_two l i) by lia.
  replace (2 * S n)%nat with (S (S (2 * n))) by lia. done.
Qed.

Lemma insert_pass (l r : list (list Z)) j v : (j < List.length l)%nat ->
  take (j + 1) (<[j := v]> l) ++ r = take j l ++ v :: r.
Proof.
  intros Hj. rewrite Nat.add_1_r, (take_S_r _ _ v) by by apply list_lookup_insert_eq.
  rewrite take_insert_ge, <- app_assoc by done. done.
Qed.

Lemma hash_pairs_from_spec n src i j ints :
  (i + 2 * n <= List.length src)%nat -> (j + n <= List.length ints)%nat ->
  hash_pairs_from n src i j ints = take j ints ++ pairs (take (2 * n) (drop i src)) ++ drop (j + n) ints.
Proof.
  revert i j ints. induction n as [|n IH]; intros i j ints Hi Hj; cbn [hash_pairs_from].
  - rewrite Nat.add_0_r. change (2 * 0)%nat with 0%nat. rewrite firstn_O. cbn [pairs app]. by rewrite take_drop.
  - rewrite pairs_take_step, IH by (rewrite ?length_insert; lia).
    rewrite insert_pass, drop_insert_lt by lia. cbn [app]. do 4 f_equal. lia.
Qed.

Lemma hash_pairs_in_place_spec n j ints :
  (2 * j + 2 * n <= List.length ints)%nat ->
  hash_pairs_in_place n (2 * j) j ints =
    take j ints ++ pairs (take (2 * n) (drop (2 * j) ints)) ++ drop (j + n) ints.
Proof.
  revert j ints. induction n as [|n IH]; intros j ints Hj; cbn [hash_pairs_in_place].
  - rewrite Nat.add_0_r. change (2 * 0)%nat with 0%nat. rewrite firstn_O. cbn [pairs app]. by rewrite take_drop.
  - rewrite pairs_take_step by lia.
    replace (2 * j + 2)%nat with (2 * (j + 1))%nat by lia.
    rewrite IH by (rewrite length_insert; lia).
    rewrite insert_pass, !drop_insert_lt by lia. cbn [app]. do 4 f_equal. lia.
Qed.

Lemma pairs_length l n : List.length l = (2 * n)%nat -> List.length (pairs l) = n.
Proof.
  revert l. induction n as [|n IH]; intros l Hl; [by destruct l|].
  destruct l as [|a [|b l]]; [simpl in Hl; lia..|]. cbn [pairs List.length] in *. rewrite IH; lia.
Qed.

Lemma pairs_app l1 l2 n : List.length l1 = (2 * n)%nat -> pairs (l1 ++ l2) = pairs l1 ++ pairs l2.
Proof.
  revert l1. induction n as [|n IH]; intros l1 Hl; [by destruct l1|].
  destruct l1 as [|a [|b l1]]; [simpl in Hl; lia..|]. cbn [pairs app List.length] in *. rewrite IH by lia. done.
Qed.

(** Hashing the leaves pairwise removes one level of the tree. *)
Lemma merkle_pairs k l : List.length l = (2 ^ S k)%nat -> merkle k (pairs l) = merkle (S k) l.
Proof.
  revert l. induction k as [|k IH]; intros l Hl.
  - destruct l as [|a [|b [|]]]; try (simpl in Hl; lia). done.
  - change (merkle (S (S k)) l) with (H (merkle (S k) (take (2 ^ S k) l) ++ merkle (S k) (drop (2 ^ S k) l))).
    change (merkle (S k) (pairs l)) with
      (H (merkle k (take (2 ^ k) (pairs l)) ++ merkle k (drop (2 ^ k) (pairs l)))).
    rewrite Nat.pow_succ_r' in Hl.
    rewrite <- !IH by (rewrite ?length_take, ?length_drop; lia).
    rewrite <- (take_drop (2 ^ S k) l) at 1 2.
    assert (Ht : List.length (take (2 ^ S k) l) = (2 * 2 ^ k)%nat)
      by (rewrite length_take, Nat.pow_succ_r'; rewrite Nat.pow_succ_r' in Hl; lia).
    rewrite !(pairs_app _ _ (2 ^ k)) by exact Ht.
    pose proof (pairs_length _ _ Ht) as Hp.
    by rewrite take_app_length', drop_app_length' by done.
Qed.

(** The [while] loop halves the array down to two hashes whose hash is the
    root. *)
Lemma tree_levels_spec k fuel ints :
  (k < fuel)%nat -> (2 ^ S k <= List.length ints)%nat ->
  exists ints', tree_levels fuel (2 ^ S k) ints = Some ints' /\
    H (hnth ints' 0 ++ hnth ints' 1) = merkle (S k) (take (2 ^ S k) ints).
Proof.
  revert fuel ints. induction k as [|k IH]; intros [|fuel] ints Hf Hl; [lia| |lia|]; cbn [tree_levels].
  - exists ints. split; [done|]. simpl in Hl.
    destruct ints as [|a [|b ints]]; [simpl in Hl; lia..|done].
  - assert (H2 : (2 < 2 ^ S (S k))%nat) by (simpl; pose proof (Nat.pow_nonzero 2 k); lia).
    rewrite (proj2 (Nat.ltb_lt _ _) H2). rewrite (Nat.pow_succ_r' 2 (S k)).
    rewrite (Nat.mul_comm 2), Nat.div_mul by lia. cbv zeta.
    rewrite (Nat.pow_succ_r' 2 (S k)) in Hl.
    pose proof (hash_pairs_in_place_spec (2 ^ S k) 0 ints ltac:(lia)) as HP.
    change (2 * 0)%nat with 0%nat in HP. rewrite HP. clear HP.
    change (take 0 ints) with (@nil (list Z)). change (drop 0 ints) with ints.
    change (0 + 2 ^ S k)%nat with (2 ^ S k)%nat. change ([] ++ ?l) with l.
    set (p := pairs (take (2 * 2 ^ S k) ints)).
    assert (Hp : List.length p = (2 ^ S k)%nat) by (apply pairs_length; rewrite length_take; lia).
    destruct (IH fuel (p ++ drop (2 ^ S k) ints)) as (ints' & E & Hm); [lia|rewrite length_app; lia|].
    exists ints'. split; [exact E|]. rewrite Hm, take_app_length' by done.
    unfold p. rewrite merkle_pairs; [by rewrite Nat.mul_comm|]. rewrite length_take.
    rewrite (Nat.pow_succ_r' 2 (S k)). lia.
Qed.

Lemma tree_hash_root hashes k :
  (k < 63)%nat -> (2 ^ k < List.length hashes <= 2 * 2 ^ k)%nat ->
  tree_hash true hashes = Some (merkle k (leaves k hashes)).
Proof.
  intros Hk Hc. destruct k as [|k].
  { destruct hashes as [|a [|b [|]]]; simpl in Hc; try lia. done. }
  assert (Htop : top_bit (Z.of_nat (List.length hashes) - 1) = 2 ^ Z.of_nat (S k)).
  { apply top_bit_pow; [done|]. rewrite Z.pow_add_r, <- (Nat2Z.inj_pow 2) by lia. lia. }
  assert (H3 : (2 < List.length hashes)%nat).
  { rewrite Nat.pow_succ_r' in Hc. pose proof (Nat.pow_nonzero 2 k). lia. }
  unfold tree_hash.
  destruct (List.length hashes) as [|[|[|c]]] eqn:Elen; [lia..|]. cbv zeta.
  rewrite Htop, <- (Nat2Z.inj_pow 2), Nat2Z.id. rewrite <- Elen in *.
  set (cnt := (2 ^ S k)%nat) in *. set (p := (2 * cnt - List.length hashes)%nat) in *.
  set (ints := take p hashes ++ drop p (replicate cnt [])).
  assert (Hints : List.length ints = cnt)
    by (unfold ints; rewrite length_app, length_take, length_drop, length_replicate; lia).
  rewrite (hash_pairs_from_spec (cnt - p) hashes p p ints) by lia.
  rewrite (proj2 (Nat.eqb_eq _ _)) by lia.
  assert (Hleaves : take p ints ++ pairs (take (2 * (cnt - p)) (drop p hashes)) ++ drop (p + (cnt - p)) ints
                    = leaves (S k) hashes).
  { unfold leaves. fold cnt. fold p. unfold ints.
    rewrite take_app_length' by (rewrite length_take; lia).
    rewrite (firstn_all2 (drop p hashes)) by (rewrite length_drop; lia).
    rewrite (skipn_all2 (n := p + (cnt - p))); [by rewrite app_nil_r|].
    fold ints. lia. }
  rewrite Hleaves.
  assert (Hll : List.length (leaves (S k) hashes) = cnt).
  { unfold leaves. fold cnt. fold p. rewrite length_app, length_take.
    rewrite (pairs_length _ (cnt - p)) by (rewrite length_drop; lia). lia. }
  destruct (tree_levels_spec k 64 (leaves (S k) hashes)) as (ints' & E & Hm); [lia|fold cnt; lia|].
  fold cnt in E, Hm. rewrite E. cbn [mbind option_bind]. rewrite Hm.
  by rewrite firstn_all2 by lia.
Qed.

(** C37: for every list of at least two hashes the in-place computation
    returns the root of the perfect Merkle tree over its [2^k] leaves, [2^k]
    being the largest power of two below the number of hashes; neither
    assertion fails and the level loop ends.  One hash is its own root, an
    empty list is refused. *)
Theorem tree_hash_is_merkle hashes k :
  (k < 63)%nat -> (2 ^ k < List.length hashes <= 2 * 2 ^ k)%nat ->
  tree_hash true hashes = Some (merkle k (leaves k hashes)).
Proof. apply tree_hash_root. Qed.

Lemma tree_hash_small h malloc_ok : tree_hash malloc_ok [h] = Some h /\ tree_hash malloc_ok [] = None.
Proof. done. Qed.

End TreeHash.

(** The tree of the code hashes with Keccak: [crypto::tree_hash]. *)
Definition crypto_tree_hash (hashes : list (list Z)) : option (list Z) :=
  tree_hash cn_fast_hash true hashes.

Example tree_hash_is_merkle_witness :
  (1 < 63)%nat /\ (2 ^ 1 < 3 <= 2 * 2 ^ 1)%nat /\
  tree_hash (fun l => [Z.of_nat (List.length l)]) true [[1]; [2]; [3]] =
    Some (merkle (fun l => [Z.of_nat (List.length l)]) 1
            (leaves (fun l => [Z.of_nat (List.length l)]) 1 [[1]; [2]; [3]])).
Proof.
  split; [lia|]. split; [simpl; lia|].
  apply (tree_hash_is_merkle (fun l => [Z.of_nat (List.length l)]) [[1]; [2]; [3]] 1); simpl; lia.
Defined.
