(* ===== verification/Difficulty.v ===== *)
(** * Proof of work and difficulty: [src/src/currency_core/difficulty.cpp]

    The 256-bit comparison of a hash with a difficulty, the mining boundary
    and the retargeting rule over the last 720 blocks of a kind. *)

From stdpp Require Import sorting.
From S2P Require Import Prelude IntUtil.

(** ** Comparing a hash with a difficulty *)

(** The two halves of the product, [(low, high)]. *)
Definition mul (a b : Z) : Z * Z :=
  let res := u128 (a * b) in (Z.land res 0xffffffffffffffff, Z.shiftr res 64).

Definition cadd (a b : Z) : bool := u64 (a + b) <? a.

Definition cadc (a b : Z) (c : bool) : bool :=
  (u64 (a + b) <? a) || (c && (u64 (a + b) =? 2 ^ 64 - 1)).

Definition max64bit : Z := 2 ^ 64 - 1.
Definition max128bit : Z := 2 ^ 128 - 1.
Definition max256bit : Z := 2 ^ 256 - 1.

(** [((const uint64_t * )&h)[i]], through [swap64le]. *)
Definition hash_word (h : list Z) (i : nat) : Z := swap64le (le_combine (take 8 (drop (8 * i) h))).

Definition check_hash (hash_ : list Z) (difficulty : Z) : bool :=
  let h := rev hash_ in
  if difficulty <? max64bit then
    let dl := u64 difficulty in
    let '(top, high) := mul (hash_word h 3) dl in
    if negb (high =? 0) then false
    else
      let '(low, cur) := mul (hash_word h 0) dl in
      let '(low, high) := mul (hash_word h 1) dl in
      let carry := cadd cur low in
      let cur := high in
      let '(low, high) := mul (hash_word h 2) dl in
      let carry := cadc cur low carry in
      let carry := cadc high top carry in
      negb carry
  else
    if 0 <? hash_word h 3 then false
    else
      let hashVal :=
        for_loop 0 4 (fun i hashVal => Z.lor (wrap 512 (Z.shiftl hashVal 64)) (hash_word h (3 - i))) 0 in
      wrap 512 (hashVal * difficulty) <=? max256bit.

(** Dividing by zero throws. *)
Definition difficulty_to_boundary (difficulty : Z) : outcome Z :=
  if difficulty =? 0 then Throw
  else let nominal_hash := max256bit / difficulty in Ret (u64 (Z.shiftr nominal_hash 192)).

Definition difficulty_to_boundary_long (difficulty : Z) : outcome (list Z) :=
  if difficulty =? 0 then Throw
  else
    let nominal_hash := max256bit / difficulty in
    let '(result, _) :=
      for_loop 0 4 (fun i '(result, nominal_hash) =>
        (result ++ le_split 8 (u64 nominal_hash), Z.shiftr nominal_hash 64)) ([], nominal_hash) in
    Ret result.

(** ** Retargeting *)

Definition DIFFICULTY_WINDOW : Z := 720.
Definition DIFFICULTY_CUT : Z := 60.

(** Both functions return [(cut_begin, cut_end)]. *)
Definition get_cut_location_from_len (length window cut_old cut_last : Z) : Z * Z :=
  if length <=? window then (0, length)
  else
    let cut_begin := u64 (window - cut_last + 1) in
    (cut_begin, u64 (cut_begin + (window - (cut_old + cut_last)))).

Definition get_adjustment_zone (length window cut_old cut_last : Z) : outcome (Z * Z) :=
  let '(cut_begin, cut_end) :=
    if length <=? u64 (window - (cut_old + cut_last)) then (0, length)
    else
      let cut_begin := cut_last in
      let cut_end := u64 (cut_begin + (window - (cut_old + cut_last))) in
      (cut_begin, if length <? cut_end then length else cut_end) in
  if (cut_begin + 2 <=? cut_end) && (cut_end <=? length) then Ret (cut_begin, cut_end) else Throw.

(** [v[i]], undefined outside the vector. *)
Definition at_ (v : list Z) (i : Z) : outcome Z :=
  match (if 0 <=? i then v !! Z.to_nat i else None) with Some x => Ret x | None => Throw end.

Definition get_adjustment_for_zone (timestamps_sorted cumulative_difficulties : list Z)
    (target_seconds window cut_old cut_last : Z) : outcome Z :=
  let length := Z.of_nat (List.length timestamps_sorted) in
  zone ← get_adjustment_zone length window cut_old cut_last;
  let '(cut_begin, cut_end) := zone in
  t0 ← at_ timestamps_sorted cut_begin;
  t1 ← at_ timestamps_sorted (cut_end - 1);
  let time_span := u64 (t0 - t1) in
  let time_span := if time_span =? 0 then 1 else time_span in
  d0 ← at_ cumulative_difficulties cut_begin;
  d1 ← at_ cumulative_difficulties (cut_end - 1);
  let total_work := u128 (d0 - d1) in
  let res := wrap 256 (total_work * target_seconds + time_span - 1) / time_span in
  if max128bit <? res then Ret 0 else Ret res.

#[export] Instance Zge_dec (x y : Z) : Decision (x >= y).
Proof. destruct (decide (y <= x)); [left|right]; lia. Defined.

(** [sort(..., std::greater<uint64_t>())] *)
Definition sort_greater (l : list Z) : list Z := merge_sort Z.ge l.

(** The value and the two vectors, which are in-out parameters. *)
Definition next_difficulty_1 (timestamps cumulative_difficulties : list Z) (target_seconds difficulty_starter : Z)
    : outcome (Z * list Z * list Z) :=
  let over := DIFFICULTY_WINDOW <? Z.of_nat (List.length timestamps) in
  let resize := fun v : list Z =>
    take (Z.to_nat DIFFICULTY_WINDOW) v ++ replicate (Z.to_nat DIFFICULTY_WINDOW - List.length v) 0 in
  let cumulative_difficulties := if over then resize cumulative_difficulties else cumulative_difficulties in
  let timestamps := if over then resize timestamps else timestamps in
  let length := Z.of_nat (List.length timestamps) in
  if negb (length =? Z.of_nat (List.length cumulative_difficulties)) then Ret (0, timestamps, cumulative_difficulties)
  else if length <=? 1 then Ret (difficulty_starter, timestamps, cumulative_difficulties)
  else if negb (length <=? DIFFICULTY_WINDOW) then Ret (0, timestamps, cumulative_difficulties)
  else
    let timestamps := sort_greater timestamps in
    dif_slow ← get_adjustment_for_zone timestamps cumulative_difficulties target_seconds
                 DIFFICULTY_WINDOW (DIFFICULTY_CUT / 2) (DIFFICULTY_CUT / 2);
    dif_medium ← get_adjustment_for_zone timestamps cumulative_difficulties target_seconds
                 (DIFFICULTY_WINDOW / 3) (DIFFICULTY_CUT / 8) (DIFFICULTY_CUT / 12);
    dif_fast ← get_adjustment_for_zone timestamps cumulative_difficulties target_seconds
                 (DIFFICULTY_WINDOW / 18) (DIFFICULTY_CUT / 10) 2;
    let devider := 1 in
    let summ := dif_slow in
    let '(summ, devider) :=
      if negb (dif_medium =? 0) then (u128 (summ + dif_medium), devider + 1) else (summ, devider) in
    let '(summ, devider) :=
      if negb (dif_fast =? 0) then (u128 (summ + dif_fast), devider + 1) else (summ, devider) in
    Ret (summ / devider, timestamps, cumulative_difficulties).

Definition next_difficulty_2 (timestamps cumulative_difficulties : list Z) (target_seconds difficulty_starter : Z)
    : outcome (Z * list Z * list Z) :=
  let over := DIFFICULTY_WINDOW <? Z.of_nat (List.length timestamps) in
  let resize := fun v : list Z =>
    take (Z.to_nat DIFFICULTY_WINDOW) v ++ replicate (Z.to_nat DIFFICULTY_WINDOW - List.length v) 0 in
  let cumulative_difficulties := if over then resize cumulative_difficulties else cumulative_difficulties in
  let timestamps := if over then resize timestamps else timestamps in
  let length := Z.of_nat (List.length timestamps) in
  if negb (length =? Z.of_nat (List.length cumulative_difficulties)) then Ret (0, timestamps, cumulative_difficulties)
  else if length <=? 1 then Ret (difficulty_starter, timestamps, cumulative_difficulties)
  else if negb (length <=? DIFFICULTY_WINDOW) then Ret (0, timestamps, cumulative_difficulties)
  else
    let timestamps := sort_greater timestamps in
    dif_slow ← get_adjustment_for_zone timestamps cumulative_difficulties target_seconds
                 DIFFICULTY_WINDOW (DIFFICULTY_CUT / 2) (DIFFICULTY_CUT / 2);
    dif_medium ← get_adjustment_for_zone timestamps cumulative_difficulties target_seconds
                 (DIFFICULTY_WINDOW / 3) (DIFFICULTY_CUT / 8) (DIFFICULTY_CUT / 12);
    let devider := 1 in
    let summ := dif_slow in
    let '(summ, devider) :=
      if negb (dif_medium =? 0) then (u128 (summ + dif_medium), devider + 1) else (summ, devider) in
    Ret (summ / devider, timestamps, cumulative_difficulties).

(** ** The hash comparison *)

(** The hash as a number: its bytes are read with the most significant first. *)
Definition hash_value (hash_ : list Z) : Z := le_combine (rev hash_).

Lemma le_combine_chunk (h : list Z) : (8 <= List.length h)%nat ->
  le_combine h = le_combine (take 8 h) + 2 ^ 64 * le_combine (drop 8 h).
Proof.
  intros Hl. rewrite <- (take_drop 8 h) at 1. rewrite le_combine_app, length_take.
  replace (8 `min` List.length h)%nat with 8%nat by lia. done.
Qed.

Lemma hash_words h : bytes_ok h -> List.length h = 32%nat ->
  le_combine h = hash_word h 0 + 2 ^ 64 * hash_word h 1 + 2 ^ 128 * hash_word h 2 + 2 ^ 192 * hash_word h 3 /\
  (forall i, is_u64 (hash_word h i)).
Proof.
  intros Hb Hl. split.
  - unfold hash_word, swap64le, ident64.
    rewrite (le_combine_chunk h), (le_combine_chunk (drop 8 h)), (le_combine_chunk (drop 8 (drop 8 h)))
      by (rewrite ?length_drop; lia).
    rewrite !drop_drop. cbn [Nat.add Nat.mul].
    rewrite (firstn_all2 (n := 8) (drop 24 h)) by (rewrite length_drop; lia). rewrite drop_0. ring.
  - intros i. unfold hash_word, swap64le, ident64.
    pose proof (le_combine_range (take 8 (drop (8 * i) h)) ltac:(by apply Forall_take, Forall_drop)) as Hr.
    split; [lia|]. eapply Z.lt_le_trans; [apply Hr|].
    change (2 ^ 64) with (256 ^ Z.of_nat 8). apply Z.pow_le_mono_r; [lia|]. rewrite length_take. lia.
Qed.

Lemma mul_spec a b : is_u64 a -> is_u64 b ->
  exists lo hi, mul a b = (lo, hi) /\ a * b = lo + 2 ^ 64 * hi /\ is_u64 lo /\ is_u64 hi.
Proof.
  intros [Ha Ha'] [Hb Hb']. unfold mul. rewrite (wrap_small 128) by (split; nia).
  change 0xffffffffffffffff with (2 ^ 64 - 1). rewrite land_ones_mod, Z.shiftr_div_pow2 by lia.
  eexists _, _. split; [done|].
  pose proof (Z.div_mod (a * b) (2 ^ 64) ltac:(lia)). pose proof (Z.mod_pos_bound (a * b) (2 ^ 64) ltac:(lia)).
  split; [lia|]. split; [done|]. split; [apply Z.div_pos; nia|apply Z.div_lt_upper_bound; nia].
Qed.

Lemma add_overflows a b : is_u64 a -> is_u64 b ->
  (u64 (a + b) <? a) = (2 ^ 64 <=? a + b) /\ u64 (a + b) = a + b - (if 2 ^ 64 <=? a + b then 2 ^ 64 else 0).
Proof.
  intros Ha Hb. pose proof (u64_add_carry a b Ha Hb) as E.
  pose proof (wrap_range 64 (a + b) ltac:(lia)) as R. unfold in_u in *. revert E R.
  generalize (u64 (a + b)). intros s.
  destruct (s <? a) eqn:E1, (2 ^ 64 <=? a + b) eqn:E2; zbool; lia.
Qed.

Lemma cadd_spec a b : is_u64 a -> is_u64 b -> cadd a b = (2 ^ 64 <=? a + b).
Proof. intros Ha Hb. apply (add_overflows a b Ha Hb). Qed.

Lemma cadc_spec a b c : is_u64 a -> is_u64 b -> cadc a b c = (2 ^ 64 <=? a + b + Z.b2z c).
Proof.
  intros Ha Hb. unfold cadc. destruct (add_overflows a b Ha Hb) as [-> ->]. unfold in_u in *.
  destruct (2 ^ 64 <=? a + b) eqn:E, c, (2 ^ 64 <=? a + b + _) eqn:E2; cbn [Z.b2z andb orb] in *; zbool;
    try done; try lia; try (symmetry; apply Z.eqb_eq; lia); try (apply Z.eqb_neq; lia); apply Z.eqb_eq; lia.
Qed.

(** The multi-word carry chain computes whether the product overflows. *)
Lemma check_hash_small hash_ d : bytes_ok hash_ -> List.length hash_ = 32%nat ->
  0 <= d < max64bit -> check_hash hash_ d = (hash_value hash_ * d <=? max256bit).
Proof.
  intros Hb Hl Hd. unfold check_hash. rewrite (proj2 (Z.ltb_lt _ _)) by lia.
  destruct (hash_words (rev hash_)) as [E Hw]; [by apply Forall_rev|by rewrite length_rev|].
  unfold hash_value. rewrite E. unfold max64bit, max256bit in *.
  rewrite (wrap_small 64 d) by (split; lia). assert (Hd64 : is_u64 d) by (split; lia).
  cbv zeta.
  destruct (mul_spec _ d (Hw 3%nat) Hd64) as (top & high & -> & E3 & Rt & Rh).
  destruct (mul_spec _ d (Hw 0%nat) Hd64) as (l0 & c0 & -> & E0 & R0 & Rc0).
  destruct (mul_spec _ d (Hw 1%nat) Hd64) as (l1 & c1 & -> & E1 & R1 & Rc1).
  destruct (mul_spec _ d (Hw 2%nat) Hd64) as (l2 & c2 & -> & E2 & R2 & Rc2).
  rewrite cadd_spec, !cadc_spec by done.
  assert (ET : (hash_word (rev hash_) 0 + 2 ^ 64 * hash_word (rev hash_) 1 +
    2 ^ 128 * hash_word (rev hash_) 2 + 2 ^ 192 * hash_word (rev hash_) 3) * d =
    l0 + 2 ^ 64 * (c0 + l1) + 2 ^ 128 * (c1 + l2) + 2 ^ 192 * (c2 + top) + 2 ^ 256 * high) by lia.
  rewrite ET. clear ET E E0 E1 E2 E3 Hw. unfold in_u in *.
  destruct (high =? 0) eqn:Eh; zbool; cbn [negb].
  - subst high.
    destruct (2 ^ 64 <=? c0 + l1) eqn:B1; zbool; cbn [Z.b2z];
    destruct (2 ^ 64 <=? c1 + l2 + _) eqn:B2; zbool; cbn [Z.b2z];
    destruct (2 ^ 64 <=? c2 + top + _) eqn:B3; zbool; cbn [negb];
    symmetry; first [apply Z.leb_le | apply Z.leb_gt]; lia.
  - symmetry. apply Z.leb_gt. lia.
Qed.

Lemma shift_in_word acc w k : 0 <= acc < 2 ^ k -> k <= 448 -> 0 <= k -> is_u64 w ->
  Z.lor (wrap 512 (Z.shiftl acc 64)) w = acc * 2 ^ 64 + w.
Proof.
  intros Ha Hk Hk0 Hw. rewrite Z.shiftl_mul_pow2 by lia.
  assert (2 ^ k <= 2 ^ 448) by (apply Z.pow_le_mono_r; lia).
  rewrite wrap_small by (split; lia). rewrite Z.lor_comm, lor_add_low by (unfold in_u in Hw; lia). lia.
Qed.

Lemma check_hash_large hash_ d : bytes_ok hash_ -> List.length hash_ = 32%nat ->
  max64bit <= d < 2 ^ 128 ->
  check_hash hash_ d = (hash_value hash_ <? 2 ^ 192) && (hash_value hash_ * d <=? max256bit).
Proof.
  intros Hb Hl Hd. unfold check_hash. rewrite (proj2 (Z.ltb_ge _ _)) by lia.
  destruct (hash_words (rev hash_)) as [E Hw]; [by apply Forall_rev|by rewrite length_rev|].
  unfold hash_value. rewrite E. clear E. cbv zeta. unfold max64bit, max256bit in *.
  pose proof (Hw 0%nat) as R0. pose proof (Hw 1%nat) as R1. pose proof (Hw 2%nat) as R2. pose proof (Hw 3%nat) as R3.
  cbn [for_loop Nat.sub].
  generalize dependent (hash_word (rev hash_) 0). intros w0 R0.
  generalize dependent (hash_word (rev hash_) 1). intros w1 R1.
  generalize dependent (hash_word (rev hash_) 2). intros w2 R2.
  generalize dependent (hash_word (rev hash_) 3). intros w3 R3. clear Hw.
  destruct (0 <? w3) eqn:E3; zbool.
  - symmetry. apply andb_false_iff. left. apply Z.ltb_ge. unfold in_u in *. lia.
  - assert (w3 = 0) as -> by (unfold in_u in R3; lia). unfold in_u in *.
    rewrite (proj2 (Z.ltb_lt _ (2 ^ 192))) by lia. cbn [andb].
    rewrite (shift_in_word 0 0 0) by (unfold in_u; lia).
    rewrite (shift_in_word (0 * 2 ^ 64 + 0) w2 0) by (unfold in_u; lia).
    rewrite (shift_in_word _ w1 64) by (unfold in_u; lia).
    rewrite (shift_in_word _ w0 128) by (unfold in_u; lia).
    rewrite wrap_small; [f_equal; ring|]. split; [apply Z.mul_nonneg_nonneg; lia|].
    apply Z.lt_le_trans with (2 ^ 192 * 2 ^ 128); [apply Z.mul_lt_mono_nonneg; lia|].
    rewrite <- Z.pow_add_r by lia. apply Z.pow_le_mono_r; lia.
Qed.

(** C31: a block hash passes [check_hash] exactly when the hash, read as a
    256-bit number, times the difficulty does not exceed [2^256 - 1]: the
    64-bit carry chain and the wide multiplication agree with this rule for
    every difficulty but one.  At [2^64 - 1] the wide branch also refuses the
    hashes from [2^192] on, some of which satisfy the rule. *)
Theorem check_hash_correct hash_ d : bytes_ok hash_ -> List.length hash_ = 32%nat -> is_u128 d ->
  check_hash hash_ d =
    (hash_value hash_ * d <=? 2 ^ 256 - 1) && ((negb (d =? 2 ^ 64 - 1)) || (hash_value hash_ <? 2 ^ 192)).
Proof.
  intros Hb Hl Hd. destruct (decide (d < max64bit)) as [Hs|Hs].
  - rewrite check_hash_small by (unfold in_u in Hd; done || lia). unfold max64bit in Hs.
    rewrite (proj2 (Z.eqb_neq d _)) by lia. by rewrite andb_true_r.
  - unfold in_u in Hd. rewrite check_hash_large by (done || lia). unfold max64bit, max256bit in *.
    rewrite andb_comm. destruct (hash_value hash_ * d <=? 2 ^ 256 - 1) eqn:E; [|done]. cbn [andb].
    destruct (d =? 2 ^ 64 - 1) eqn:Ed; [done|]. zbool. apply Z.ltb_lt.
    destruct (decide (hash_value hash_ < 2 ^ 192)); [done|exfalso].
    assert (2 ^ 192 * 2 ^ 64 <= hash_value hash_ * d) by (apply Z.mul_le_mono_nonneg; lia). lia.
Qed.

Example check_hash_correct_witness :
  check_hash (replicate 7 0 ++ [1] ++ replicate 24 0) (2 ^ 64 - 1) =
    (hash_value (replicate 7 0 ++ [1] ++ replicate 24 0) * (2 ^ 64 - 1) <=? 2 ^ 256 - 1) &&
    ((negb (2 ^ 64 - 1 =? 2 ^ 64 - 1)) || (hash_value (replicate 7 0 ++ [1] ++ replicate 24 0) <? 2 ^ 192)).
Proof.
  apply (check_hash_correct (replicate 7 0 ++ [1] ++ replicate 24 0) (2 ^ 64 - 1)).
  - repeat constructor; lia.
  - reflexivity.
  - split; lia.
Defined.

(** The rule holds and the code refuses: the boundary case of the theorem. *)
Example check_hash_boundary :
  let h := replicate 7 0 ++ [1] ++ replicate 24 0 in
  check_hash h (2 ^ 64 - 1) = false /\ hash_value h * (2 ^ 64 - 1) <= 2 ^ 256 - 1.
Proof. split; [reflexivity|]. vm_compute. discriminate. Qed.

Lemma le_split_words q : le_split 32 q =
  le_split 8 q ++ le_split 8 (q / 2 ^ 64) ++ le_split 8 (q / 2 ^ 128) ++ le_split 8 (q / 2 ^ 192).
Proof.
  pose proof (le_split_app 8 24 q) as E1. pose proof (le_split_app 8 16 (q / 2 ^ 64)) as E2.
  pose proof (le_split_app 8 8 (q / 2 ^ 128)) as E3.
  change (256 ^ Z.of_nat 8) with (2 ^ 64) in *. rewrite !Z.div_div in E2, E3 by lia.
  change (2 ^ 64 * 2 ^ 64) with (2 ^ 128) in E2. change (2 ^ 128 * 2 ^ 64) with (2 ^ 192) in E3.
  change (8 + 24)%nat with 32%nat in E1. change (8 + 16)%nat with 24%nat in E2.
  change (8 + 8)%nat with 16%nat in E3. congruence.
Qed.

(** the boundary handed to miners is the threshold of the check: a hash
    passes exactly when its value is at most the little-endian number
    [difficulty_to_boundary_long] writes, whose top word is
    [difficulty_to_boundary]. *)
Theorem boundary_is_threshold hash_ d : bytes_ok hash_ -> List.length hash_ = 32%nat ->
  is_u128 d -> d <> 0 -> d <> 2 ^ 64 - 1 ->
  exists b w, difficulty_to_boundary_long d = Ret b /\ difficulty_to_boundary d = Ret w /\
    check_hash hash_ d = (hash_value hash_ <=? le_combine b) /\ w = le_combine b / 2 ^ 192.
Proof.
  intros Hb Hl Hd H0 H1. unfold in_u in Hd.
  assert (Hc : check_hash hash_ d = (hash_value hash_ * d <=? max256bit)).
  { destruct (decide (d < max64bit)); [apply check_hash_small; done || lia|].
    rewrite check_hash_large by (done || lia). unfold max64bit, max256bit in *.
    destruct (hash_value hash_ * d <=? 2 ^ 256 - 1) eqn:E; [|apply andb_false_r]. zbool.
    rewrite andb_true_r. apply Z.ltb_lt. destruct (decide (hash_value hash_ < 2 ^ 192)); [done|exfalso].
    assert (2 ^ 192 * 2 ^ 64 <= hash_value hash_ * d) by (apply Z.mul_le_mono_nonneg; lia). lia. }
  unfold difficulty_to_boundary_long, difficulty_to_boundary. rewrite (proj2 (Z.eqb_neq d 0)) by done.
  cbv zeta. set (q := max256bit / d).
  assert (Hq : 0 <= q < 256 ^ Z.of_nat 32).
  { split; [apply Z.div_pos; unfold max256bit; lia|]. apply Z.le_lt_trans with max256bit; [|done].
    apply Z.div_le_upper_bound; [lia|]. unfold max256bit. nia. }
  assert (Hlong : for_loop 0 4 (fun _ '(result, nominal_hash) =>
      (result ++ le_split 8 (u64 nominal_hash), Z.shiftr nominal_hash 64)) ([], q) =
      (le_split 32 q, q / 2 ^ 256)).
  { cbn [for_loop]. cbv beta iota.
    rewrite !Z.shiftr_shiftr, !Z.shiftr_div_pow2, !le_split_u64 by lia.
    rewrite (le_split_words q), <- !app_assoc. done. }
  rewrite Hlong. eexists _, _. split; [done|]. split; [done|].
  rewrite le_combine_split, Z.mod_small by done. split.
  - rewrite Hc. subst q.
    destruct (hash_value hash_ * d <=? max256bit) eqn:E; zbool; symmetry.
    + apply Z.leb_le, Z.div_le_lower_bound; lia.
    + apply Z.leb_gt, Z.div_lt_upper_bound; lia.
  - rewrite Z.shiftr_div_pow2 by lia. apply wrap_small.
    split; [apply Z.div_pos; lia|apply Z.div_lt_upper_bound; [lia|apply Hq]].
Qed.

Example boundary_is_threshold_witness :
  exists b w, difficulty_to_boundary_long 1000003 = Ret b /\ difficulty_to_boundary 1000003 = Ret w /\
    check_hash (replicate 32 1) 1000003 = (hash_value (replicate 32 1) <=? le_combine b) /\
    w = le_combine b / 2 ^ 192.
Proof.
  apply (boundary_is_threshold (replicate 32 1) 1000003);
    [repeat constructor; lia|reflexivity|split; lia|lia|lia].
Defined.

(** ** The retargeting rule *)

(** The part of the window a rate is measured on. *)
Definition spec_zone (n window old last : Z) : Z * Z :=
  let w := window - (old + last) in
  if n <=? w then (0, n) else (last, Z.min n (last + w)).

(** Work per [target] seconds over a zone, rounded up; zero when it does not
    fit 128 bits. *)
Definition zone_rate (ts cds : list Z) (target : Z) (z : Z * Z) : Z :=
  let '(b, e) := z in
  let span := Z.max 1 (ld ts (Z.to_nat b) - ld ts (Z.to_nat (e - 1))) in
  let work := ld cds (Z.to_nat b) - ld cds (Z.to_nat (e - 1)) in
  let r := (work * target + span - 1) / span in
  if 2 ^ 128 - 1 <? r then 0 else r.

(** Latest first: later entries are not larger. *)
Definition descending (l : list Z) : Prop :=
  forall i j, (i <= j < List.length l)%nat -> ld l j <= ld l i.

Lemma ld_lookup l i : (i < List.length l)%nat -> l !! i = Some (ld l i).
Proof. intros Hi. destruct (nth_lookup_or_length l i 0); [done|lia]. Qed.

Lemma at_ld l i : 0 <= i < Z.of_nat (List.length l) -> at_ l i = Ret (ld l (Z.to_nat i)).
Proof.
  intros Hi. unfold at_. rewrite (proj2 (Z.leb_le 0 i)) by lia. by rewrite ld_lookup by lia.
Qed.

Lemma ld_range w l i : 0 <= w -> Forall (in_u w) l -> in_u w (ld l i).
Proof.
  intros Hw Hl. unfold ld. destruct (nth_in_or_default i l 0) as [Hin| ->].
  - rewrite List.Forall_forall in Hl. by apply Hl.
  - split; [lia|]. by apply Z.pow_pos_nonneg.
Qed.

(** The windows the code uses: something is left after the cuts. *)
Record window_ok (window old last : Z) : Prop := {
  wok_old : 0 <= old;
  wok_last : 0 <= last;
  wok_left : Z.max 2 (last + 1) <= window - (old + last);
  wok_small : window < 2 ^ 32
}.

Lemma get_adjustment_zone_spec n window old last : window_ok window old last -> 2 <= n ->
  exists b e, spec_zone n window old last = (b, e) /\ get_adjustment_zone n window old last = Ret (b, e) /\
    0 <= b /\ b + 2 <= e <= n.
Proof.
  intros [Ho Hl Hw Hs] Hn. unfold get_adjustment_zone, spec_zone. rewrite !wrap_small by (split; lia).
  destruct (n <=? window - (old + last)) eqn:E; zbool.
  - eexists _, _. split; [done|]. rewrite !(proj2 (Z.leb_le _ _)) by lia. split; [done|]. lia.
  - eexists _, _. split; [done|].
    assert ((if n <? last + (window - (old + last)) then n else last + (window - (old + last))) =
            Z.min n (last + (window - (old + last)))) as ->.
    { destruct (n <? _) eqn:E1; zbool; lia. }
    rewrite !(proj2 (Z.leb_le _ _)) by lia. split; [done|]. lia.
Qed.

(** On a descending history the vector accesses are in range, the machine
    differences do not wrap and the result is the rate of the zone. *)
Lemma get_adjustment_for_zone_spec ts cds target window old last :
  window_ok window old last -> List.length ts = List.length cds -> (2 <= List.length ts)%nat ->
  Forall is_u64 ts -> Forall is_u128 cds -> descending ts -> descending cds -> is_u64 target ->
  get_adjustment_for_zone ts cds target window old last =
    Ret (zone_rate ts cds target (spec_zone (Z.of_nat (List.length ts)) window old last)).
Proof.
  intros Hw Hlen Hn Hts Hcds Dts Dcds Ht. unfold get_adjustment_for_zone.
  destruct (get_adjustment_zone_spec (Z.of_nat (List.length ts)) window old last Hw ltac:(lia))
    as (b & e & -> & -> & Hb & He).
  outcome_simp. rewrite !at_ld by lia. outcome_simp. unfold zone_rate.
  pose proof (ld_range 64 ts (Z.to_nat b) ltac:(lia) Hts) as R1.
  pose proof (ld_range 64 ts (Z.to_nat (e - 1)) ltac:(lia) Hts) as R2.
  pose proof (ld_range 128 cds (Z.to_nat b) ltac:(lia) Hcds) as R3.
  pose proof (ld_range 128 cds (Z.to_nat (e - 1)) ltac:(lia) Hcds) as R4.
  specialize (Dts (Z.to_nat b) (Z.to_nat (e - 1)) ltac:(lia)).
  specialize (Dcds (Z.to_nat b) (Z.to_nat (e - 1)) ltac:(lia)).
  unfold in_u in *. rewrite (wrap_small 64), (wrap_small 128) by (split; lia). unfold max128bit.
  assert (Hs : (if ld ts (Z.to_nat b) - ld ts (Z.to_nat (e - 1)) =? 0 then 1
                else ld ts (Z.to_nat b) - ld ts (Z.to_nat (e - 1))) =
               Z.max 1 (ld ts (Z.to_nat b) - ld ts (Z.to_nat (e - 1)))).
  { destruct (_ =? 0) eqn:E; zbool; lia. }
  rewrite Hs. set (work := ld cds _ - ld cds _) in *. set (span := Z.max 1 _) in *.
  assert (Hwork : 0 <= work < 2 ^ 128) by lia. assert (Hspan : 1 <= span < 2 ^ 64) by lia.
  rewrite wrap_small; [by destruct (_ <? _)|]. split; [nia|].
  assert (work * target <= 2 ^ 128 * 2 ^ 64) by (apply Z.mul_le_mono_nonneg; lia). lia.
Qed.

#[export] Instance Zge_trans : Transitive Z.ge.
Proof. intros x y z. lia. Qed.
#[export] Instance Zge_total : Total Z.ge.
Proof. intros x y. lia. Qed.
#[export] Instance Zge_antisymm : AntiSymm (=) Z.ge.
Proof. intros x y. lia. Qed.

Lemma descending_strongly_sorted l : StronglySorted Z.ge l <-> descending l.
Proof.
  induction l as [|a l IH]; [split; [intros _ i j; simpl; lia|constructor]|].
  rewrite StronglySorted_cons, IH. split.
  - intros [Ha Hl] [|i] [|j] Hij; cbn [List.length] in Hij; try lia.
    + cbn. rewrite List.Forall_forall in Ha. specialize (Ha (ld l j)). apply Z.ge_le, Ha.
      apply nth_In. lia.
    + apply (Hl i j). lia.
  - intros Hd. split.
    + apply List.Forall_forall. intros x Hx. apply (In_nth l x 0) in Hx as (n & Hn & <-).
      specialize (Hd 0%nat (S n)). cbn in Hd. apply Z.le_ge, Hd. lia.
    + intros i j Hij. apply (Hd (S i) (S j)). cbn. lia.
Qed.

Lemma sort_greater_spec l : descending (sort_greater l) /\ sort_greater l ≡ₚ l.
Proof.
  split; [|apply merge_sort_Permutation]. apply descending_strongly_sorted, StronglySorted_merge_sort; apply _.
Qed.

Lemma sort_greater_unique l l' : l ≡ₚ l' -> descending l' -> sort_greater l = l'.
Proof.
  intros Hp Hd. destruct (sort_greater_spec l) as [H1 H2].
  apply (StronglySorted_unique Z.ge); [by apply descending_strongly_sorted..|]. by rewrite H2.
Qed.

(** The last [DIFFICULTY_WINDOW] blocks. *)
Definition recent (v : list Z) : list Z := take (Z.to_nat DIFFICULTY_WINDOW) v.

Lemma ld_take n l i : (i < n)%nat -> ld (take n l) i = ld l i.
Proof. intros Hi. unfold ld. rewrite !nth_lookup, lookup_take_lt by done. done. Qed.

Lemma descending_take n l : descending l -> descending (take n l).
Proof.
  intros Hd i j Hij. rewrite length_take in Hij. rewrite !ld_take by lia. apply Hd. lia.
Qed.

Lemma resize_recent (v : list Z) : (Z.to_nat DIFFICULTY_WINDOW <= List.length v)%nat ->
  take (Z.to_nat DIFFICULTY_WINDOW) v ++ replicate (Z.to_nat DIFFICULTY_WINDOW - List.length v) 0 = recent v.
Proof. intros H. replace (_ - _)%nat with 0%nat by lia. by rewrite app_nil_r. Qed.

Lemma recent_short (v : list Z) : (List.length v <= Z.to_nat DIFFICULTY_WINDOW)%nat -> recent v = v.
Proof. apply firstn_all2. Qed.

(** The three rates of the rule on a sorted history of [n] blocks. *)
Definition rate_slow ts cds target :=
  zone_rate ts cds target (spec_zone (Z.of_nat (List.length ts)) 720 30 30).
Definition rate_medium ts cds target :=
  zone_rate ts cds target (spec_zone (Z.of_nat (List.length ts)) 240 7 5).
Definition rate_fast ts cds target :=
  zone_rate ts cds target (spec_zone (Z.of_nat (List.length ts)) 40 6 2).
Definition nonzero (x : Z) : Z := if x =? 0 then 0 else 1.

Lemma window_slow : window_ok 720 30 30. Proof. split; lia. Qed.
Lemma window_medium : window_ok 240 7 5. Proof. split; lia. Qed.
Lemma window_fast : window_ok 40 6 2. Proof. split; lia. Qed.

Lemma zone_rate_range ts cds target z : descending ts -> descending cds -> 0 <= target ->
  (let '(b, e) := z in 0 <= b /\ b + 2 <= e <= Z.of_nat (List.length ts)) ->
  List.length ts = List.length cds -> 0 <= zone_rate ts cds target z.
Proof.
  destruct z as [b e]. intros Dts Dcds Ht Hz Hl. unfold zone_rate.
  specialize (Dcds (Z.to_nat b) (Z.to_nat (e - 1)) ltac:(lia)).
  destruct (_ <? _); [lia|]. apply Z.div_pos; nia.
Qed.

Section Value.
Context (ts cds : list Z) (target starter : Z).
Context (Hlen : List.length ts = List.length cds) (Hn : (2 <= List.length ts)%nat).
Context (Hts : Forall is_u64 ts) (Hcds : Forall is_u128 cds) (Dcds : descending cds) (Ht : is_u64 target).

Let sts := sort_greater (recent ts).
Let rcds := recent cds.

Lemma sts_facts : List.length sts = List.length rcds /\ (2 <= List.length sts)%nat /\ Forall is_u64 sts /\
  Forall is_u128 rcds /\ descending sts /\ descending rcds.
Proof.
  destruct (sort_greater_spec (recent ts)) as [Ds Ps]. fold sts in Ds, Ps.
  assert (Hl : List.length sts = List.length (recent ts)) by by rewrite Ps.
  unfold recent in *. rewrite length_take in Hl. unfold rcds, recent. rewrite length_take.
  change (Z.to_nat DIFFICULTY_WINDOW) with 720%nat in *.
  split; [lia|]. split; [lia|]. split; [rewrite Ps; by apply Forall_take|].
  split; [by apply Forall_take|]. split; [done|by apply descending_take].
Qed.

Lemma zone_of window old last : window_ok window old last ->
  let n := Z.of_nat (List.length sts) in
  get_adjustment_for_zone sts rcds target window old last = Ret (zone_rate sts rcds target (spec_zone n window old last)) /\
  0 <= zone_rate sts rcds target (spec_zone n window old last).
Proof.
  intros Hw n. destruct sts_facts as (F1 & F2 & F3 & F4 & F5 & F6).
  split; [by apply get_adjustment_for_zone_spec|].
  apply zone_rate_range; [done|done|apply Ht| |done].
  destruct (get_adjustment_zone_spec n window old last Hw ltac:(lia)) as (b & e & -> & _ & H). done.
Qed.

(** A vector after the initial truncation. *)
Lemma truncated (v : list Z) : List.length v = List.length ts ->
  (if DIFFICULTY_WINDOW <? Z.of_nat (List.length ts)
   then take (Z.to_nat DIFFICULTY_WINDOW) v ++ replicate (Z.to_nat DIFFICULTY_WINDOW - List.length v) 0
   else v) = recent v.
Proof.
  intros Hv. destruct (_ <? _) eqn:E; zbool; [by apply resize_recent; lia|].
  symmetry. apply recent_short. lia.
Qed.

Lemma recent_length_ok :
  let l := Z.of_nat (List.length (recent ts)) in
  (l =? Z.of_nat (List.length rcds)) = true /\ (l <=? 1) = false /\ (l <=? DIFFICULTY_WINDOW) = true.
Proof.
  unfold rcds, recent. rewrite !length_take. change (Z.to_nat DIFFICULTY_WINDOW) with 720%nat.
  unfold DIFFICULTY_WINDOW. rewrite Z.eqb_eq, Z.leb_gt, Z.leb_le. lia.
Qed.

Lemma next_difficulty_1_spec :
  rate_slow sts rcds target + rate_medium sts rcds target + rate_fast sts rcds target < 2 ^ 128 ->
  next_difficulty_1 ts cds target starter =
    Ret ((rate_slow sts rcds target + rate_medium sts rcds target + rate_fast sts rcds target)
           / (1 + nonzero (rate_medium sts rcds target) + nonzero (rate_fast sts rcds target)), sts, rcds).
Proof.
  intros Hsum. unfold next_difficulty_1. cbv zeta.
  rewrite (truncated ts), (truncated cds) by done. fold rcds.
  destruct recent_length_ok as (-> & -> & ->). cbn [negb]. fold sts.
  change (DIFFICULTY_CUT / 2) with 30. change (DIFFICULTY_WINDOW / 3) with 240.
  change (DIFFICULTY_CUT / 8) with 7. change (DIFFICULTY_CUT / 12) with 5.
  change (DIFFICULTY_WINDOW / 18) with 40. change (DIFFICULTY_CUT / 10) with 6.
  change DIFFICULTY_WINDOW with 720.
  destruct (zone_of _ _ _ window_slow) as [-> H1], (zone_of _ _ _ window_medium) as [-> H2],
    (zone_of _ _ _ window_fast) as [-> H3]. outcome_simp.
  fold (rate_slow sts rcds target) in *. fold (rate_medium sts rcds target) in *. fold (rate_fast sts rcds target) in *.
  unfold nonzero.
  destruct (rate_medium sts rcds target =? 0) eqn:E2, (rate_fast sts rcds target =? 0) eqn:E3; zbool;
    cbn [negb]; rewrite ?E2, ?E3; unwrap by lia; do 3 f_equal; f_equal; lia.
Qed.

Lemma next_difficulty_2_spec :
  rate_slow sts rcds target + rate_medium sts rcds target < 2 ^ 128 ->
  next_difficulty_2 ts cds target starter =
    Ret ((rate_slow sts rcds target + rate_medium sts rcds target)
           / (1 + nonzero (rate_medium sts rcds target)), sts, rcds).
Proof.
  intros Hsum. unfold next_difficulty_2. cbv zeta.
  rewrite (truncated ts), (truncated cds) by done. fold rcds.
  destruct recent_length_ok as (-> & -> & ->). cbn [negb]. fold sts.
  change (DIFFICULTY_CUT / 2) with 30. change (DIFFICULTY_WINDOW / 3) with 240.
  change (DIFFICULTY_CUT / 8) with 7. change (DIFFICULTY_CUT / 12) with 5.
  change DIFFICULTY_WINDOW with 720.
  destruct (zone_of _ _ _ window_slow) as [-> H1], (zone_of _ _ _ window_medium) as [-> H2]. outcome_simp.
  fold (rate_slow sts rcds target) in *. fold (rate_medium sts rcds target) in *.
  unfold nonzero.
  destruct (rate_medium sts rcds target =? 0) eqn:E2; zbool;
    cbn [negb]; rewrite ?E2; unwrap by lia; do 3 f_equal; f_equal; lia.
Qed.
End Value.

(** on a history whose cumulative difficulties do not increase towards the
    past the retargeting rule never throws (every vector access is in range)
    and returns the mean of the three zone rates, leaving out a zero medium or
    fast rate: each rate is the work of the zone per target spacing divided by
    its time span, rounded up, over the sorted timestamps of the last 720
    blocks. *)
Theorem next_difficulty_1_value ts cds target starter :
  List.length ts = List.length cds -> (2 <= List.length ts)%nat ->
  Forall is_u64 ts -> Forall is_u128 cds -> descending cds -> is_u64 target ->
  let s := sort_greater (recent ts) in
  let c := recent cds in
  rate_slow s c target + rate_medium s c target + rate_fast s c target < 2 ^ 128 ->
  next_difficulty_1 ts cds target starter =
    Ret ((rate_slow s c target + rate_medium s c target + rate_fast s c target)
           / (1 + nonzero (rate_medium s c target) + nonzero (rate_fast s c target)), s, c).
Proof. intros Hl Hn Hts Hcds Hd Ht s c. by apply next_difficulty_1_spec. Qed.

Example next_difficulty_1_value_witness :
  next_difficulty_1 [300; 100; 220] [1000; 600; 100] 120 1 = Ret (540, [300; 220; 100], [1000; 600; 100]).
Proof.
  apply (next_difficulty_1_value [300; 100; 220] [1000; 600; 100] 120 1);
    [reflexivity|cbn; lia|repeat constructor; lia|repeat constructor; lia| |split; lia|reflexivity].
  intros [|[|[|i]]] [|[|[|j]]] Hij; cbn in *; lia.
Defined.

(** ** Equilibrium *)

(** [n] blocks spaced [step] apart, the latest at [x0]. *)
Definition spaced (x0 step : Z) (n : nat) : list Z := map (fun i => x0 - step * Z.of_nat i) (seq 0 n).

Lemma spaced_length x0 step n : List.length (spaced x0 step n) = n.
Proof. unfold spaced. by rewrite length_map, length_seq. Qed.

Lemma ld_spaced x0 step n i : (i < n)%nat -> ld (spaced x0 step n) i = x0 - step * Z.of_nat i.
Proof.
  intros Hi. unfold ld, spaced.
  rewrite (nth_indep _ 0 (x0 - step * Z.of_nat 0)) by (rewrite length_map, length_seq; lia).
  rewrite (map_nth (fun i => x0 - step * Z.of_nat i)), seq_nth by done. done.
Qed.

Lemma spaced_take x0 step n m : (m <= n)%nat -> take m (spaced x0 step n) = spaced x0 step m.
Proof.
  intros H. unfold spaced. replace n with (m + (n - m))%nat by lia.
  rewrite seq_app, map_app. apply take_app_length'. by rewrite length_map, length_seq.
Qed.

Lemma spaced_descending x0 step n : 0 <= step -> descending (spaced x0 step n).
Proof. intros Hs i j Hij. rewrite spaced_length in Hij. rewrite !ld_spaced by lia. nia. Qed.

Lemma spaced_range w x0 step n : 0 <= step -> step * Z.of_nat n <= x0 < 2 ^ w -> Forall (in_u w) (spaced x0 step n).
Proof.
  intros Hs Hx. apply List.Forall_forall. intros x Hin. unfold spaced in Hin.
  apply in_map_iff in Hin as (i & <- & Hi). apply in_seq in Hi. unfold in_u. nia.
Qed.

Lemma zone_rate_spaced t0 T c0 D n b e :
  0 < T -> 0 < D < 2 ^ 128 -> 0 <= b -> b + 2 <= e <= Z.of_nat n ->
  zone_rate (spaced t0 T n) (spaced c0 D n) T (b, e) = D.
Proof.
  intros HT HD Hb He. unfold zone_rate. rewrite !ld_spaced by lia.
  rewrite !Z2Nat.id by lia.
  replace (t0 - T * b - (t0 - T * (e - 1))) with (T * (e - 1 - b)) by ring.
  replace (c0 - D * b - (c0 - D * (e - 1))) with (D * (e - 1 - b)) by ring.
  assert (Hk : 1 <= e - 1 - b) by lia. set (k := e - 1 - b) in *. clearbody k.
  rewrite Z.max_r by nia.
  assert (E : (D * k * T + T * k - 1) / (T * k) = D).
  { symmetry. apply Z.div_unique with (T * k - 1); [nia|ring]. }
  rewrite E. by rewrite (proj2 (Z.ltb_ge _ _)) by lia.
Qed.

(** equilibrium.  When the last blocks were found exactly one target
    spacing apart, each at difficulty [D], the next difficulty is [D], in
    whatever order their timestamps appear. *)
Theorem next_difficulty_1_equilibrium ts t0 T c0 D n starter :
  (2 <= n)%nat -> 0 < T -> T * Z.of_nat n <= t0 < 2 ^ 64 ->
  0 < D -> 3 * D < 2 ^ 128 -> D * Z.of_nat n <= c0 < 2 ^ 128 ->
  List.length ts = n -> recent ts ≡ₚ recent (spaced t0 T n) -> Forall is_u64 ts ->
  exists ts' cds', next_difficulty_1 ts (spaced c0 D n) T starter = Ret (D, ts', cds').
Proof.
  intros Hn HT Ht0 HD HD3 Hc0 Hl Hp Hts.
  assert (Es : sort_greater (recent ts) = recent (spaced t0 T n)).
  { apply sort_greater_unique; [done|]. apply descending_take, spaced_descending. lia. }
  pose proof (next_difficulty_1_spec ts (spaced c0 D n) T starter) as E.
  rewrite spaced_length, Es in E.
  set (m := (720 `min` n)%nat).
  assert (Er : forall x step, recent (spaced x step n) = spaced x step m).
  { intros x step. unfold recent. change (Z.to_nat DIFFICULTY_WINDOW) with 720%nat.
    rewrite <- (spaced_take x step n m) by lia. unfold m.
    destruct (decide (n <= 720)%nat).
    - rewrite !firstn_all2 by (rewrite spaced_length; lia). done.
    - by rewrite Nat.min_l by lia. }
  rewrite !Er in E.
  assert (Hz : forall window old last, window_ok window old last ->
    zone_rate (spaced t0 T m) (spaced c0 D m) T
      (spec_zone (Z.of_nat (List.length (spaced t0 T m))) window old last) = D).
  { intros window old last Hw. rewrite spaced_length.
    destruct (get_adjustment_zone_spec (Z.of_nat m) window old last Hw ltac:(lia)) as (b & e & -> & _ & H1 & H2).
    apply zone_rate_spaced; lia. }
  unfold rate_slow, rate_medium, rate_fast in E.
  rewrite (Hz _ _ _ window_slow), (Hz _ _ _ window_medium), (Hz _ _ _ window_fast) in E.
  unfold nonzero in E. rewrite (proj2 (Z.eqb_neq D 0)) in E by lia.
  replace ((D + D + D) / (1 + 1 + 1)) with D in E by (apply Z.div_unique with 0; lia).
  eexists _, _. apply E; try done; try lia.
  - apply spaced_range; lia.
  - apply spaced_descending; lia.
  - split; nia.
Qed.

Example next_difficulty_1_equilibrium_witness :
  exists ts' cds', next_difficulty_1 [760; 880; 1000; 640] (spaced 5000 7 4) 120 1 = Ret (7, ts', cds').
Proof.
  apply (next_difficulty_1_equilibrium [760; 880; 1000; 640] 1000 120 5000 7 4 1); try lia; try done.
  - vm_compute. etrans; [apply (Permutation_app_comm [760] [880; 1000; 640])|].
    etrans; [apply (Permutation_app_tail [640; 760] (Permutation_app_comm [880] [1000]))|].
    cbn. do 2 constructor. constructor.
  - repeat constructor; lia.
Defined.
