(* ===== verification/HardForks.v ===== *)
(** * Hard forks: [src/src/currency_core/core_runtime_config.h]

    The heights after which each hard fork is active, and what they say of a
    block: the most recent fork, the block version, the minimal build. *)

From S2P Require Import Prelude Config.

(** [m_height_the_hardfork_n_active_after], one height per fork. *)
Abbreviation hard_forks_descriptor := (list Z).

Definition hard_forks_clear : hard_forks_descriptor := replicate ZANO_HARDFORKS_TOTAL CURRENCY_MAX_BLOCK_NUMBER.

(** The loop over the previous forks, from [n - 1] down to 0. *)
Fixpoint set_previous (n : nat) (height : Z) (d : hard_forks_descriptor) : hard_forks_descriptor :=
  match n with
  | O => d
  | S hid => set_previous hid height (if ld d hid =? CURRENCY_MAX_BLOCK_NUMBER then <[hid := height]> d else d)
  end.

Definition set_hardfork_height (hardfork_id : nat) (height : Z) (d : hard_forks_descriptor)
    : outcome hard_forks_descriptor :=
  if (hardfork_id <? ZANO_HARDFORKS_TOTAL)%nat then Ret (set_previous hardfork_id height (<[hardfork_id := height]> d))
  else Throw.

Definition is_hardfork_active_for_height (hardfork_id : nat) (height : Z) (d : hard_forks_descriptor) : outcome bool :=
  if (hardfork_id =? 0)%nat then Ret true
  else if (hardfork_id <? ZANO_HARDFORKS_TOTAL)%nat then Ret (ld d hardfork_id <? height)
  else Throw.

Definition get_height_the_hardfork_active_after (hardfork_id : nat) (d : hard_forks_descriptor) : outcome Z :=
  if (hardfork_id <? ZANO_HARDFORKS_TOTAL)%nat then Ret (ld d hardfork_id) else Throw.

(** The loop from [hid] down to 1. *)
Fixpoint most_recent_loop (hid : nat) (height : Z) (d : hard_forks_descriptor) : outcome nat :=
  match hid with
  | O => Ret O
  | S hid' =>
      a ← is_hardfork_active_for_height hid height d;
      if a : bool then Ret hid else most_recent_loop hid' height d
  end.

Definition get_the_most_recent_hardfork_id_for_height (height : Z) (d : hard_forks_descriptor) : outcome nat :=
  most_recent_loop (ZANO_HARDFORKS_TOTAL - 1) height d.

Definition get_block_major_version_by_height (height : Z) (d : hard_forks_descriptor) : outcome Z :=
  a1 ← is_hardfork_active_for_height 1 height d;
  if negb a1 then Ret BLOCK_MAJOR_VERSION_INITIAL
  else
    a3 ← is_hardfork_active_for_height 3 height d;
    if negb a3 then Ret HF1_BLOCK_MAJOR_VERSION
    else
      a4 ← is_hardfork_active_for_height 4 height d;
      if negb a4 then Ret HF3_BLOCK_MAJOR_VERSION else Ret CURRENT_BLOCK_MAJOR_VERSION.

Definition get_block_minor_version_by_height (height : Z) : Z := HF3_BLOCK_MINOR_VERSION.

(** The part of [core_runtime_config] that depends on the forks. *)
Record core_runtime_config : Type := {
  hard_forks : hard_forks_descriptor;
  min_build_numbers_for_hard_forks : list Z;
}.

Definition get_min_allowed_build_version_for_height (height : Z) (c : core_runtime_config) : outcome Z :=
  hid ← get_the_most_recent_hardfork_id_for_height height (hard_forks c);
  Ret (ld (min_build_numbers_for_hard_forks c) hid).

(** The configuration of the main network. *)
Definition get_default_core_runtime_config : outcome core_runtime_config :=
  d ← set_hardfork_height 1 194624 hard_forks_clear;
  d ← set_hardfork_height 2 999999 d;
  d ← set_hardfork_height 3 1082577 d;
  d ← set_hardfork_height 4 2555000 d;
  d ← set_hardfork_height 5 3076400 d;
  d ← set_hardfork_height 6 3833000 d;
  d ← set_hardfork_height 7 3833000 d;
  Ret {| hard_forks := d; min_build_numbers_for_hard_forks := [0; 0; 0; 0; 0; 382; 501; 600] |}.

Definition mainnet_config : core_runtime_config :=
  Eval vm_compute in match get_default_core_runtime_config with Ret c => c | Throw => Build_core_runtime_config [] [] end.

Example mainnet_config_built :
  get_default_core_runtime_config = Ret mainnet_config /\
  hard_forks mainnet_config = [194624; 194624; 999999; 1082577; 2555000; 3076400; 3833000; 3833000].
Proof. by vm_compute. Qed.

(** ** Well-formed descriptors *)

(** One height per fork, none above the next. *)
Record wf (d : hard_forks_descriptor) : Prop := {
  wf_length : List.length d = ZANO_HARDFORKS_TOTAL;
  wf_mono : forall i j, (i <= j < ZANO_HARDFORKS_TOTAL)%nat -> ld d i <= ld d j;
  wf_max : forall i, ld d i <= CURRENCY_MAX_BLOCK_NUMBER;
}.

Lemma ld_insert (l : list Z) i j v : (i < List.length l)%nat -> ld (<[i := v]> l) j = if decide (i = j) then v else ld l j.
Proof.
  intros Hi. unfold ld. rewrite !nth_lookup. destruct (decide (i = j)) as [->|].
  - by rewrite list_lookup_insert_eq.
  - by rewrite list_lookup_insert_ne.
Qed.

Lemma clear_wf : wf hard_forks_clear.
Proof.
  split; [done| |].
  - intros i j Hij. unfold ZANO_HARDFORKS_TOTAL in *.
    do 8 (destruct i as [|i]; [do 8 (destruct j as [|j]; [done|]); lia|]); lia.
  - intros i. do 8 (destruct i as [|i]; [done|]). by destruct i.
Qed.

Lemma set_previous_spec n height d : (n <= List.length d)%nat ->
  List.length (set_previous n height d) = List.length d /\
  forall j, ld (set_previous n height d) j =
    if decide ((j < n)%nat /\ ld d j = CURRENCY_MAX_BLOCK_NUMBER) then height else ld d j.
Proof.
  revert d. induction n as [|n IH]; intros d Hn; cbn [set_previous].
  - split; [done|]. intros j. by rewrite decide_False by lia.
  - destruct (IH (if ld d n =? CURRENCY_MAX_BLOCK_NUMBER then <[n := height]> d else d)) as [IHl IHj].
    { case_match; rewrite ?length_insert; lia. }
    split; [rewrite IHl; case_match; by rewrite ?length_insert|].
    intros j. rewrite IHj. destruct (ld d n =? CURRENCY_MAX_BLOCK_NUMBER) eqn:E; zbool.
    + rewrite ld_insert by lia. destruct (decide (n = j)) as [->|].
      * rewrite (decide_False (P := (j < j)%nat /\ _)) by lia. by rewrite decide_True by (split; [lia|done]).
      * destruct (decide ((j < n)%nat /\ _)) as [[??]|Hno]; [by rewrite decide_True by (split; [lia|done])|].
        rewrite decide_False; [done|]. intros [? ?]. apply Hno. split; [lia|done].
    + destruct (decide ((j < n)%nat /\ _)) as [[??]|Hno]; [by rewrite decide_True by (split; [lia|done])|].
      rewrite decide_False; [done|]. intros [? E']. apply Hno. split; [|done].
      assert (j <> n) by congruence. lia.
Qed.

(** The heights after [set_hardfork_height]. *)
Lemma set_hardfork_height_spec hid height d : List.length d = ZANO_HARDFORKS_TOTAL ->
  (hid < ZANO_HARDFORKS_TOTAL)%nat ->
  exists d', set_hardfork_height hid height d = Ret d' /\ List.length d' = ZANO_HARDFORKS_TOTAL /\
    forall j, ld d' j = if decide (j = hid) then height
                        else if decide ((j < hid)%nat /\ ld d j = CURRENCY_MAX_BLOCK_NUMBER) then height else ld d j.
Proof.
  intros Hl Hh. unfold set_hardfork_height. rewrite (proj2 (Nat.ltb_lt _ _) Hh).
  eexists. split; [done|].
  destruct (set_previous_spec hid height (<[hid := height]> d)) as [E1 E2]; [rewrite length_insert; lia|].
  split; [by rewrite E1, length_insert|]. intros j. rewrite E2, ld_insert by lia.
  destruct (decide (hid = j)) as [->|].
  - rewrite (decide_True (P := j = j)) by done. by rewrite decide_False by lia.
  - by rewrite (decide_False (P := j = hid)) by done.
Qed.

(** Setting forks in order keeps the descriptor well formed. *)
Lemma set_hardfork_height_wf hid height d : wf d -> (hid < ZANO_HARDFORKS_TOTAL)%nat ->
  height <= CURRENCY_MAX_BLOCK_NUMBER ->
  (forall j, (j < hid)%nat -> ld d j = CURRENCY_MAX_BLOCK_NUMBER \/ ld d j <= height) ->
  (forall j, (hid < j < ZANO_HARDFORKS_TOTAL)%nat -> height <= ld d j) ->
  exists d', set_hardfork_height hid height d = Ret d' /\ wf d'.
Proof.
  intros [Hl Hm Hx] Hh Hmax Hlo Hhi.
  destruct (set_hardfork_height_spec hid height d Hl Hh) as (d' & E & Hl' & Hj).
  exists d'. split; [done|]. split; [done| |].
  - intros i j Hij. rewrite !Hj.
    pose proof (Hm i j Hij). pose proof (Hlo i). pose proof (Hhi j). pose proof (Hx j).
    repeat case_decide; subst; lia.
  - intros i. rewrite Hj. pose proof (Hx i). repeat case_decide; lia.
Qed.

Lemma active_spec hid height d : (hid < ZANO_HARDFORKS_TOTAL)%nat ->
  is_hardfork_active_for_height hid height d = Ret ((hid =? 0)%nat || (ld d hid <? height)).
Proof.
  intros Hh. unfold is_hardfork_active_for_height. destruct (hid =? 0)%nat; [done|].
  by rewrite (proj2 (Nat.ltb_lt _ _) Hh).
Qed.

Lemma active_mono d i j h h' a : wf d -> (i <= j < ZANO_HARDFORKS_TOTAL)%nat -> h <= h' ->
  is_hardfork_active_for_height j h d = Ret true -> is_hardfork_active_for_height i h' d = Ret a -> a = true.
Proof.
  intros Hw Hij Hh. rewrite !active_spec by lia. intros [= Hj] [= <-].
  apply orb_true_iff. destruct (Nat.eqb_spec i 0); [by left|right].
  destruct (Nat.eqb_spec j 0); [lia|]. cbn in Hj. zbool. apply Z.ltb_lt.
  pose proof (wf_mono _ Hw i j Hij). lia.
Qed.

Lemma most_recent_loop_spec n height d : (n < ZANO_HARDFORKS_TOTAL)%nat ->
  exists hid, most_recent_loop n height d = Ret hid /\ (hid <= n)%nat /\
    is_hardfork_active_for_height hid height d = Ret true /\
    forall j, (hid < j <= n)%nat -> is_hardfork_active_for_height j height d = Ret false.
Proof.
  induction n as [|n IH]; intros Hn; cbn [most_recent_loop].
  - exists O. split; [done|]. split; [done|]. split; [done|]. lia.
  - destruct (is_hardfork_active_for_height (S n) height d) as [[]|] eqn:E.
    + exists (S n). outcome_simp. split; [done|]. split; [done|]. split; [done|]. lia.
    + destruct IH as (hid & E' & Hle & Ha & Hj); [lia|]. exists hid. outcome_simp. split; [done|].
      split; [lia|]. split; [done|]. intros j Hj'. destruct (decide (j = S n)) as [->|]; [done|]. apply Hj. lia.
    + rewrite active_spec in E by done. done.
Qed.

Lemma major_version_spec height d : wf d ->
  exists v, get_block_major_version_by_height height d = Ret v /\
    v = (if ld d 1 <? height then if ld d 3 <? height then if ld d 4 <? height then 3 else 2 else 1 else 0).
Proof.
  intros Hw. unfold get_block_major_version_by_height.
  rewrite !active_spec by (unfold ZANO_HARDFORKS_TOTAL; lia). outcome_simp. cbn [Nat.eqb orb].
  repeat (case_match; cbn [negb]); eexists; (split; [done|]); done.
Qed.

(** The most recent fork, and which forks are active, by its number. *)
Lemma most_recent_spec h d : wf d -> exists hid, get_the_most_recent_hardfork_id_for_height h d = Ret hid /\
  (hid < ZANO_HARDFORKS_TOTAL)%nat /\
  forall j, (j < ZANO_HARDFORKS_TOTAL)%nat -> is_hardfork_active_for_height j h d = Ret (bool_decide (j <= hid)%nat).
Proof.
  intros Hw.
  destruct (most_recent_loop_spec (ZANO_HARDFORKS_TOTAL - 1) h d) as (hid & E & Hl & Ha & Hj); [unfold ZANO_HARDFORKS_TOTAL; lia|].
  exists hid. split; [done|]. split; [unfold ZANO_HARDFORKS_TOTAL in *; lia|]. intros j Hjlt. case_bool_decide as Hle.
  - destruct (is_hardfork_active_for_height j h d) as [a|] eqn:Ej; [|by rewrite active_spec in Ej].
    f_equal. eapply (active_mono d j hid h h a Hw); [unfold ZANO_HARDFORKS_TOTAL in *; lia|lia|done|done].
  - apply Hj. unfold ZANO_HARDFORKS_TOTAL in *. lia.
Qed.

(** on a well-formed schedule of hard forks the most recent fork of a height
    is the largest one active at it and all the earlier ones are active too;
    going up the chain the fork number and the block version never decrease,
    and none of the lookups throws. *)
Theorem hardforks_consistent d h h' : wf d -> h <= h' ->
  exists hid hid' v v',
    get_the_most_recent_hardfork_id_for_height h d = Ret hid /\
    get_the_most_recent_hardfork_id_for_height h' d = Ret hid' /\ (hid <= hid' < ZANO_HARDFORKS_TOTAL)%nat /\
    (forall j, (j < ZANO_HARDFORKS_TOTAL)%nat -> is_hardfork_active_for_height j h d = Ret (bool_decide (j <= hid)%nat)) /\
    get_block_major_version_by_height h d = Ret v /\ get_block_major_version_by_height h' d = Ret v' /\
    0 <= v <= v' /\ v' <= CURRENT_BLOCK_MAJOR_VERSION.
Proof.
  intros Hw Hh.
  destruct (most_recent_spec h d Hw) as (hid & E & Hlt & Hact). destruct (most_recent_spec h' d Hw) as (hid' & E' & Hlt' & Hact').
  destruct (major_version_spec h d Hw) as (v & Ev & Hv). destruct (major_version_spec h' d Hw) as (v' & Ev' & Hv').
  exists hid, hid', v, v'. split; [done|]. split; [done|]. split; [split; [|done]|split; [exact Hact|split; [done|split; [done|]]]].
  - assert (Ha : bool_decide (hid <= hid')%nat = true).
    { apply (active_mono d hid hid h h' _ Hw); [lia|done|rewrite Hact by done; by rewrite bool_decide_true|by rewrite Hact']. }
    by apply bool_decide_eq_true in Ha.
  - rewrite Hv, Hv'. pose proof (wf_mono d Hw 1 3 ltac:(unfold ZANO_HARDFORKS_TOTAL; lia)).
    pose proof (wf_mono d Hw 3 4 ltac:(unfold ZANO_HARDFORKS_TOTAL; lia)).
    change CURRENT_BLOCK_MAJOR_VERSION with 3. repeat (case_match; zbool); lia.
Qed.

Lemma mainnet_wf : wf (hard_forks mainnet_config).
Proof.
  split; [done| |].
  - intros i j Hij. unfold ZANO_HARDFORKS_TOTAL in *.
    do 8 (destruct i as [|i]; [do 8 (destruct j as [|j]; [first [lia|by vm_compute]|]); lia|]); lia.
  - intros i. do 8 (destruct i as [|i]; [by vm_compute|]). by destruct i.
Qed.

Example hardforks_consistent_witness :
  wf (hard_forks mainnet_config) /\ 1000000 <= 3000000 /\
  exists hid hid', get_the_most_recent_hardfork_id_for_height 1000000 (hard_forks mainnet_config) = Ret hid /\
    get_the_most_recent_hardfork_id_for_height 3000000 (hard_forks mainnet_config) = Ret hid' /\ (hid <= hid')%nat.
Proof.
  split; [exact mainnet_wf|]. split; [lia|].
  destruct (hardforks_consistent (hard_forks mainnet_config) 1000000 3000000 mainnet_wf ltac:(lia))
    as (hid & hid' & _ & _ & E & E' & H & _).
  exists hid, hid'. split; [exact E|]. split; [exact E'|]. lia.
Defined.

(** setting the height of a fork: unknown forks throw, the earlier forks not
    set yet are pulled down to it and, when the schedule is set in order, the
    heights stay sorted. *)
Theorem set_hardfork_height_correct hid height d : wf d ->
  if (hid <? ZANO_HARDFORKS_TOTAL)%nat then
    exists d', set_hardfork_height hid height d = Ret d' /\
      (forall j, ld d' j = if decide (j = hid) then height
                           else if decide ((j < hid)%nat /\ ld d j = CURRENCY_MAX_BLOCK_NUMBER) then height else ld d j) /\
      (height <= CURRENCY_MAX_BLOCK_NUMBER ->
       (forall j, (j < hid)%nat -> ld d j = CURRENCY_MAX_BLOCK_NUMBER \/ ld d j <= height) ->
       (forall j, (hid < j < ZANO_HARDFORKS_TOTAL)%nat -> height <= ld d j) -> wf d')
  else set_hardfork_height hid height d = Throw.
Proof.
  intros Hw. destruct (Nat.ltb_spec hid ZANO_HARDFORKS_TOTAL) as [Hlt|Hge].
  - destruct (set_hardfork_height_spec hid height d (wf_length _ Hw) Hlt) as (d' & E & _ & Hj).
    exists d'. split; [done|]. split; [done|]. intros H1 H2 H3.
    destruct (set_hardfork_height_wf hid height d Hw Hlt H1 H2 H3) as (d2 & E2 & H). congruence.
  - unfold set_hardfork_height. by rewrite (proj2 (Nat.ltb_ge _ _) Hge).
Qed.

Example set_hardfork_height_correct_witness :
  wf hard_forks_clear /\ exists d', set_hardfork_height 3 1000 hard_forks_clear = Ret d' /\ ld d' 2 = 1000 /\ ld d' 4 = CURRENCY_MAX_BLOCK_NUMBER.
Proof.
  split; [exact clear_wf|].
  destruct (set_hardfork_height_correct 3 1000 hard_forks_clear clear_wf) as (d' & E & Hj & _).
  exists d'. split; [exact E|]. rewrite !Hj. split; vm_compute; reflexivity.
Defined.
