(* ===== verification/Archive.v ===== *)
(** * The binary archive: [src/src/serialization/]

    A type is serialized by a [codec]: the writer, the reader on the bytes that
    remain in the stream, and the values the format can carry.  The
    combinators follow the archive ([binary_archive.h]), the field macros
    ([serialization.h]), the containers ([stl_containers.h], [string.h]),
    [boost_types.h] and the tagged unions ([variant.h]); the classes
    [RoundTrip] and [NonEmpty] are resolved on the shape of a codec. *)

From S2P Require Import Prelude Varint.

(** [None] of the writer is a [false] or an exception; [None] of the reader is
    a [false] or a stream left in a failed state, which every field macro turns
    into [false]. *)
Record codec (A : Type) : Type := Codec {
  wr : A -> option (list Z);
  rd : list Z -> option (A * list Z);
  ok : A -> bool;
}.
Arguments Codec {A}. Arguments wr {A}. Arguments rd {A}. Arguments ok {A}.

Definition byte_ok (b : Z) : bool := (0 <=? b) && (b <? 256).

(** ** Scalars *)

(** [serialize_varint] of an unsigned type of width [w]; the code of
    [read_varint] is ignored, whatever it decoded stays in the field. *)
Definition c_varint (w : Z) : codec Z := {|
  wr := fun v => write_varint v;
  rd := fun l => let '(_, v, rest) := read_varint w l in Some (v, rest);
  ok := fun v => (0 <=? v) && (v <? 2 ^ w);
|}.

(** [serialize_uint] on [n] bytes. *)
Definition c_uint (n : nat) : codec Z := {|
  wr := fun v => Some (le_split n v);
  rd := fun l => if (n <=? List.length l)%nat then Some (le_combine (take n l), drop n l) else None;
  ok := fun v => (0 <=? v) && (v <? 256 ^ Z.of_nat n);
|}.

(** [serialize_blob] of a plain type of [n] bytes. *)
Definition c_pod (n : nat) : codec (list Z) := {|
  wr := fun v => Some v;
  rd := fun l => if (n <=? List.length l)%nat then Some (take n l, drop n l) else None;
  ok := fun v => (List.length v =? n)%nat && forallb byte_ok v;
|}.

Definition c_bool : codec bool := {|
  wr := fun v : bool => Some [if v then 1 else 0];
  rd := fun l => match l with b :: l => Some (negb (b =? 0), l) | [] => None end;
  ok := fun _ => true;
|}.

(** A structure without fields. *)
Definition c_unit : codec unit := {| wr := fun _ => Some []; rd := fun l => Some (tt, l); ok := fun _ => true |}.

(** ** Structures *)

(** The [FIELD]s of a structure one after the other. *)
Definition c_pair {A B} (c : codec A) (d : codec B) : codec (A * B) := {|
  wr := fun '(a, b) => x ← wr c a; y ← wr d b; Some (x ++ y);
  rd := fun l => '(a, l) ← rd c l; '(b, l) ← rd d l; Some ((a, b), l);
  ok := fun '(a, b) => ok c a && ok d b;
|}.

Notation "c ⊗ d" := (c_pair c d) (at level 60, right associativity).

(** A field on which the layout of the next ones depends. *)
Definition c_dep {A B} (c : codec A) (d : A -> codec B) : codec (A * B) := {|
  wr := fun '(a, b) => x ← wr c a; y ← wr (d a) b; Some (x ++ y);
  rd := fun l => '(a, l) ← rd c l; '(b, l) ← rd (d a) l; Some ((a, b), l);
  ok := fun '(a, b) => ok c a && ok (d a) b;
|}.

(** [if (!p) return false] after a field. *)
Definition c_guard {A} (p : A -> bool) (c : codec A) : codec A := {|
  wr := fun a => if p a then wr c a else None;
  rd := fun l => '(a, l) ← rd c l; if p a then Some (a, l) else None;
  ok := fun a => p a && ok c a;
|}.

(** The fields after an early [return true] keep the value [a] they were
    initialised with; [eqb] says when a value is that one. *)
Definition c_default {A} (eqb : A -> bool) (a : A) : codec A := {|
  wr := fun _ => Some []; rd := fun l => Some (a, l); ok := eqb |}.

(** The fields of a structure [B] as a tuple [A]. *)
Definition c_iso {A B} (from : B -> A) (to : A -> B) (c : codec A) : codec B := {|
  wr := fun b => wr c (from b);
  rd := fun l => '(a, l) ← rd c l; Some (to a, l);
  ok := fun b => ok c (from b);
|}.

(** [transition_t]: the object goes through an older type; [p] holds of the
    objects the older type can carry. *)
Definition c_conv {A B} (from : B -> option A) (to : A -> B) (p : B -> bool) (c : codec A) : codec B := {|
  wr := fun b => a ← from b; wr c a;
  rd := fun l => '(a, l) ← rd c l; Some (to a, l);
  ok := fun b => p b && match from b with Some a => ok c a | None => false end;
|}.

(** [BEGIN_VERSIONED_SERIALIZE(last, version)]: a varint [uint8_t]. *)
Definition c_version (last : Z) : codec Z := c_guard (fun v => v <=? last) (c_varint 8).

(** ** Containers *)

Fixpoint wr_list {A} (c : codec A) (v : list A) : option (list Z) :=
  match v with
  | [] => Some []
  | a :: v => x ← wr c a; y ← wr_list c v; Some (x ++ y)
  end.

Fixpoint rd_list {A} (c : codec A) (cnt : nat) (l : list Z) : option (list A * list Z) :=
  match cnt with
  | O => Some ([], l)
  | S cnt => '(a, l) ← rd c l; '(v, l) ← rd_list c cnt l; Some (a :: v, l)
  end.

(** [std::vector]: the count, then the elements; a count larger than the bytes
    that remain is refused. *)
Definition c_vector {A} (c : codec A) : codec (list A) := {|
  wr := fun v => x ← write_varint (Z.of_nat (List.length v)); y ← wr_list c v; Some (x ++ y);
  rd := fun l =>
    let '(_, cnt, l) := read_varint 64 l in
    if Z.of_nat (List.length l) <? cnt then None else rd_list c (Z.to_nat cnt) l;
  ok := fun v => (Z.of_nat (List.length v) <? 2 ^ 64) && forallb (ok c) v;
|}.

Definition c_string : codec (list Z) := {|
  wr := fun s => x ← write_varint (Z.of_nat (List.length s)); Some (x ++ s);
  rd := fun l =>
    let '(_, size, l) := read_varint 64 l in
    if Z.of_nat (List.length l) <? size then None else Some (take (Z.to_nat size) l, drop (Z.to_nat size) l);
  ok := fun s => (Z.of_nat (List.length s) <? 2 ^ 64) && forallb byte_ok s;
|}.

(** [boost::optional]: the flag says that there is no value. *)
Definition c_optional {A} (c : codec A) : codec (option A) := {|
  wr := fun o => match o with None => wr c_bool true | Some a => x ← wr c_bool false; y ← wr c a; Some (x ++ y) end;
  rd := fun l =>
    '(is_none, l) ← rd c_bool l;
    if is_none : bool then Some (None, l) else '(a, l) ← rd c l; Some (Some a, l);
  ok := fun o => match o with None => true | Some a => ok c a end;
|}.

(** ** Tagged unions

    The alternatives of a [boost::variant] in order, each with its tag, its
    injection and the test of the visitor. *)

Inductive alternatives (V : Type) : Type :=
| alt_end
| alt {T : Type} (tag : Z) (inj : T -> V) (proj : V -> option T) (c : codec T) (rest : alternatives V).
Arguments alt_end {V}. Arguments alt {V T}.

Fixpoint alt_wr {V} (a : alternatives V) (v : V) : option (list Z) :=
  match a with
  | alt_end => None
  | alt tag inj proj c rest =>
      match proj v with Some x => y ← wr c x; Some (tag :: y) | None => alt_wr rest v end
  end.

(** [variant_reader::read] *)
Fixpoint alt_rd {V} (a : alternatives V) (t : Z) (l : list Z) : option (V * list Z) :=
  match a with
  | alt_end => None
  | alt tag inj proj c rest => if tag =? t then '(x, l) ← rd c l; Some (inj x, l) else alt_rd rest t l
  end.

Fixpoint alt_ok {V} (a : alternatives V) (v : V) : bool :=
  match a with
  | alt_end => false
  | alt tag inj proj c rest => match proj v with Some x => ok c x | None => alt_ok rest v end
  end.

Fixpoint alt_tags {V} (a : alternatives V) : list Z :=
  match a with alt_end => [] | alt tag _ _ _ rest => tag :: alt_tags rest end.

Definition c_variant {V} (a : alternatives V) : codec V := {|
  wr := alt_wr a;
  rd := fun l => match l with t :: l => alt_rd a t l | [] => None end;
  ok := alt_ok a;
|}.

(** ** Blobs: the whole stream must be consumed *)

Definition t_serializable_object_to_blob {A} (c : codec A) (a : A) : option (list Z) := wr c a.

Definition t_unserializable_object_from_blob {A} (c : codec A) (blob : list Z) : option A :=
  match rd c blob with Some (a, []) => Some a | _ => None end.

(** ** Laws *)

#[local] Arguments write_varint : simpl never.
#[local] Arguments read_varint : simpl never.

Class RoundTrip {A} (c : codec A) : Prop :=
  round_trip a : ok c a = true -> exists b, wr c a = Some b /\ bytes_ok b /\
    forall rest, rd c (b ++ rest) = Some (a, rest).

Class NonEmpty {A} (c : codec A) : Prop :=
  non_empty a b : ok c a = true -> wr c a = Some b -> (1 <= List.length b)%nat.

Class Iso {A B} (from : B -> A) (to : A -> B) : Prop := iso b : to (from b) = b.
#[export] Hint Extern 1 (Iso _ _) => intros []; reflexivity : typeclass_instances.

(** The visitor's test agrees with the injection. *)
Inductive alt_law {V} : alternatives V -> Prop :=
| alt_law_end : alt_law alt_end
| alt_law_alt {T} tag (inj : T -> V) proj c rest :
    RoundTrip c -> (forall v x, proj v = Some x -> v = inj x) -> alt_law rest ->
    alt_law (alt tag inj proj c rest).

Lemma bytes_okb l : forallb byte_ok l = true -> bytes_ok l.
Proof.
  intros H. apply Forall_forall. intros b Hb. rewrite forallb_forall in H.
  apply list_elem_of_In in Hb. apply H in Hb. unfold byte_ok in Hb. zbool. split; lia.
Qed.

Lemma bytes_ok_app l1 l2 : bytes_ok l1 -> bytes_ok l2 -> bytes_ok (l1 ++ l2).
Proof. apply Forall_app_2. Qed.

(** [rt_dest H] opens a [RoundTrip] hypothesis applied to [ok]. *)
Ltac rt_open H :=
  let b := fresh "b" in let E := fresh "E" in let B := fresh "B" in let R := fresh "R" in
  destruct (round_trip _ H) as (b & E & B & R).

#[export] Instance rt_varint w : TCEq (0 <? w) true -> TCEq (w <=? 64) true -> RoundTrip (c_varint w).
Proof.
  rewrite !TCEq_eq. intros H1 H2 v Hv. cbn in *. zbool.
  destruct (write_read_varint w w v []) as (b & E & B & _); [lia|lia|split; lia|].
  exists b. split; [done|]. split; [done|]. intros rest.
  destruct (write_read_varint w w v rest) as (b' & E' & _ & R); [lia|lia|split; lia|].
  assert (b' = b) as -> by congruence. unfold read_varint. by rewrite R.
Qed.

#[export] Instance ne_varint w : NonEmpty (c_varint w).
Proof. intros v b _ E. cbn in E. apply write_varint_length in E. lia. Qed.

#[export] Instance rt_uint n : RoundTrip (c_uint n).
Proof.
  intros v Hv. cbn in *. zbool. eexists. split; [done|]. split; [apply le_split_bytes_ok|]. intros rest.
  rewrite length_app, length_le_split, (proj2 (Nat.leb_le _ _)) by lia.
  rewrite take_app_length', drop_app_length' by (symmetry; apply length_le_split).
  by rewrite le_combine_split, Z.mod_small by lia.
Qed.

#[export] Instance ne_uint n : NonEmpty (c_uint (S n)).
Proof. intros v b _ [= <-]. cbn. lia. Qed.

#[export] Instance rt_pod n : RoundTrip (c_pod n).
Proof.
  intros v Hv. cbn in *. apply andb_prop in Hv as [Hl Hb]. apply Nat.eqb_eq in Hl.
  eexists. split; [done|]. split; [by apply bytes_okb|]. intros rest.
  rewrite length_app, (proj2 (Nat.leb_le _ _)) by lia. by rewrite take_app_length', drop_app_length'.
Qed.

#[export] Instance ne_pod n : NonEmpty (c_pod (S n)).
Proof.
  intros v b Ho [= <-]. cbn in Ho. apply andb_prop in Ho as [Hl _]. apply Nat.eqb_eq in Hl. lia.
Qed.

#[export] Instance rt_bool : RoundTrip c_bool.
Proof. intros [] _; eexists; (split; [done|]); (split; [repeat constructor; lia|]); done. Qed.

#[export] Instance ne_bool : NonEmpty c_bool.
Proof. intros v b _ [= <-]. done. Qed.

#[export] Instance rt_unit : RoundTrip c_unit.
Proof. intros [] _. exists []. split; [done|]. split; [constructor|done]. Qed.

#[export] Instance rt_pair {A B} (c : codec A) (d : codec B) : RoundTrip c -> RoundTrip d -> RoundTrip (c_pair c d).
Proof.
  intros Hc Hd [a b] H. cbn in *. apply andb_prop in H as [H1 H2]. rt_open H1. rt_open H2.
  rewrite E, E0. cbn. eexists. split; [done|]. split; [by apply bytes_ok_app|]. intros rest.
  rewrite <- app_assoc, R. cbn. by rewrite R0.
Qed.

#[export] Instance ne_pair {A B} (c : codec A) (d : codec B) : NonEmpty c -> NonEmpty (c_pair c d).
Proof.
  intros Hc [a b] x Ho E. cbn in *. apply andb_prop in Ho as [Ho _]. destruct (wr c a) as [y|] eqn:Ey; [|done]. apply non_empty in Ey; [|done].
  cbn in E. destruct (wr d b); [|done]. injection E as <-. rewrite length_app. lia.
Qed.

#[export] Instance rt_dep {A B} (c : codec A) (d : A -> codec B) :
  RoundTrip c -> (forall a, RoundTrip (d a)) -> RoundTrip (c_dep c d).
Proof.
  intros Hc Hd [a b] H. cbn in *. apply andb_prop in H as [H1 H2]. rt_open H1. rt_open H2.
  rewrite E, E0. cbn. eexists. split; [done|]. split; [by apply bytes_ok_app|]. intros rest.
  rewrite <- app_assoc, R. cbn. by rewrite R0.
Qed.

#[export] Instance ne_dep {A B} (c : codec A) (d : A -> codec B) : NonEmpty c -> NonEmpty (c_dep c d).
Proof.
  intros Hc [a b] x Ho E. cbn in *. apply andb_prop in Ho as [Ho _]. destruct (wr c a) as [y|] eqn:Ey; [|done]. apply non_empty in Ey; [|done].
  cbn in E. destruct (wr (d a) b); [|done]. injection E as <-. rewrite length_app. lia.
Qed.

#[export] Instance rt_guard {A} p (c : codec A) : RoundTrip c -> RoundTrip (c_guard p c).
Proof.
  intros Hc a H. cbn in *. apply andb_prop in H as [H1 H2]. rt_open H2. rewrite H1, E.
  eexists. split; [done|]. split; [done|]. intros rest. rewrite R. cbn. by rewrite H1.
Qed.

#[export] Instance ne_guard {A} p (c : codec A) : NonEmpty c -> NonEmpty (c_guard p c).
Proof.
  intros Hc a b Ho E. cbn in *. apply andb_prop in Ho as [Hp Ho]. rewrite Hp in E. by apply non_empty in E.
Qed.

#[export] Instance rt_if {A} (b : bool) (c d : codec A) : RoundTrip c -> RoundTrip d -> RoundTrip (if b then c else d).
Proof. by destruct b. Qed.

(** A default is a round trip when its test is sound. *)
Class IsDefault {A} (eqb : A -> bool) (a : A) : Prop := is_default x : eqb x = true -> x = a.

#[export] Instance rt_default {A} eqb (a : A) : IsDefault eqb a -> RoundTrip (c_default eqb a).
Proof. intros Hd x H. apply Hd in H as ->. exists []. split; [done|]. split; [constructor|done]. Qed.

#[export] Instance rt_iso {A B} (from : B -> A) to c : Iso from to -> RoundTrip c -> RoundTrip (c_iso from to c).
Proof.
  intros Hi Hc b H. cbn in *. rt_open H. exists b0. split; [done|]. split; [done|]. intros rest.
  rewrite R. cbn. by rewrite Hi.
Qed.

#[export] Instance ne_iso {A B} (from : B -> A) to c : NonEmpty c -> NonEmpty (c_iso from to c).
Proof. intros Hc b x Ho E. exact (Hc _ _ Ho E). Qed.

Class Conv {A B} (from : B -> option A) (to : A -> B) (p : B -> bool) : Prop :=
  conv b a : p b = true -> from b = Some a -> to a = b.

#[export] Instance rt_conv {A B} (from : B -> option A) to p c : Conv from to p -> RoundTrip c -> RoundTrip (c_conv from to p c).
Proof.
  intros Hi Hc b H. cbn in *. apply andb_prop in H as [H1 H2]. destruct (from b) as [a|] eqn:Ea; [|done].
  rt_open H2. cbn. exists b0. split; [done|]. split; [done|]. intros rest.
  rewrite R. cbn. by rewrite (Hi b a).
Qed.

Lemma wr_list_spec {A} (c : codec A) v : RoundTrip c -> NonEmpty c -> forallb (ok c) v = true ->
  exists b, wr_list c v = Some b /\ bytes_ok b /\ (List.length v <= List.length b)%nat /\
    forall rest, rd_list c (List.length v) (b ++ rest) = Some (v, rest).
Proof.
  intros Hc Hn. induction v as [|a v IH]; intros H; cbn in *.
  - exists []. split; [done|]. split; [constructor|]. by split.
  - apply andb_prop in H as [H1 H2]. rt_open H1. destruct (IH H2) as (b' & E' & B' & L & R').
    rewrite E, E'. cbn. eexists. split; [done|]. split; [by apply bytes_ok_app|].
    split; [apply non_empty in E; [rewrite length_app; lia|done]|]. intros rest.
    rewrite <- app_assoc, R. cbn. by rewrite R'.
Qed.

#[export] Instance rt_vector {A} (c : codec A) : RoundTrip c -> NonEmpty c -> RoundTrip (c_vector c).
Proof.
  intros Hc Hn v H. cbn in *. apply andb_prop in H as [H1 H2]. zbool.
  destruct (wr_list_spec c v Hc Hn H2) as (b & E & B & L & R).
  destruct (write_read_varint 64 64 (Z.of_nat (List.length v)) []) as (x & Ex & Bx & _); [lia|lia|split; lia|].
  rewrite Ex, E. cbn. eexists. split; [done|]. split; [by apply bytes_ok_app|]. intros rest.
  destruct (write_read_varint 64 64 (Z.of_nat (List.length v)) (b ++ rest)) as (x' & Ex' & _ & Rx); [lia|lia|split; lia|].
  assert (x' = x) as -> by congruence. unfold read_varint. rewrite <- app_assoc, Rx.
  rewrite length_app, (proj2 (Z.ltb_ge _ _)) by lia. by rewrite Nat2Z.id.
Qed.

#[export] Instance ne_vector {A} (c : codec A) : NonEmpty (c_vector c).
Proof.
  intros v b _ E. cbn in E. destruct (write_varint _) as [x|] eqn:Ex; [|done]. cbn in E.
  destruct (wr_list c v); [|done]. injection E as <-. apply write_varint_length in Ex. rewrite length_app. lia.
Qed.

#[export] Instance rt_string : RoundTrip c_string.
Proof.
  intros s H. cbn in *. apply andb_prop in H as [H1 H2]. zbool.
  destruct (write_read_varint 64 64 (Z.of_nat (List.length s)) []) as (x & Ex & Bx & _); [lia|lia|split; lia|].
  rewrite Ex. cbn. eexists. split; [done|]. split; [apply bytes_ok_app; [done|by apply bytes_okb]|]. intros rest.
  destruct (write_read_varint 64 64 (Z.of_nat (List.length s)) (s ++ rest)) as (x' & Ex' & _ & Rx); [lia|lia|split; lia|].
  assert (x' = x) as -> by congruence. unfold read_varint. rewrite <- app_assoc, Rx.
  rewrite length_app, (proj2 (Z.ltb_ge _ _)), Nat2Z.id by lia. by rewrite take_app_length, drop_app_length.
Qed.

#[export] Instance ne_string : NonEmpty c_string.
Proof.
  intros v b _ E. cbn in E. destruct (write_varint _) as [x|] eqn:Ex; [|done]. injection E as <-.
  apply write_varint_length in Ex. rewrite length_app. lia.
Qed.

#[export] Instance rt_optional {A} (c : codec A) : RoundTrip c -> RoundTrip (c_optional c).
Proof.
  intros Hc [a|] H; cbn in *.
  - rt_open H. rewrite E. cbn. eexists. split; [done|]. split; [constructor; [split; lia|done]|].
    intros rest. cbn. by rewrite R.
  - eexists. split; [done|]. split; [repeat constructor; lia|done].
Qed.

#[export] Instance ne_optional {A} (c : codec A) : NonEmpty (c_optional c).
Proof. intros [a|] b _ E; cbn in E; [destruct (wr c a); [|done]|]; injection E as <-; cbn; lia. Qed.

Lemma alt_wr_tag {V} (a : alternatives V) v b : alt_wr a v = Some b ->
  exists t b', b = t :: b' /\ t ∈ alt_tags a.
Proof.
  induction a as [|T tag inj proj c rest IH]; intros E; cbn in *; [done|].
  destruct (proj v) as [x|].
  - destruct (wr c x); [|done]. injection E as <-. eexists _, _. split; [done|by left].
  - destruct (IH E) as (t & b' & -> & Hin). eexists _, _. split; [done|by right].
Qed.

Lemma alt_round_trip {V} (a : alternatives V) v : alt_law a -> NoDup (alt_tags a) -> alt_ok a v = true ->
  exists t b, alt_wr a v = Some (t :: b) /\ t ∈ alt_tags a /\ bytes_ok b /\
    forall rest, alt_rd a t (b ++ rest) = Some (v, rest).
Proof.
  intros Hl. induction Hl as [|T tag inj proj c rest Hc Hp Hl IH]; intros Hd H; cbn in *; [done|].
  apply NoDup_cons in Hd as [Hnin Hd]. destruct (proj v) as [x|] eqn:Ex.
  - rt_open H. rewrite E. exists tag, b. split; [done|]. split; [by left|]. split; [done|].
    intros r. rewrite Z.eqb_refl, R. cbn. by rewrite (Hp v x).
  - destruct (IH Hd H) as (t & b & E & Hin & B & R). exists t, b. split; [done|]. split; [by right|].
    split; [done|]. intros r. destruct (tag =? t) eqn:Et; zbool; [|done]. subst. done.
Qed.

(** [alternatives_law] proves the laws of a list of alternatives. *)
Ltac alternatives_law :=
  repeat (apply alt_law_alt; [apply _|intros [] ? ?; simplify_eq; reflexivity|]); apply alt_law_end.

Lemma rt_variant {V} (a : alternatives V) : alt_law a -> bool_decide (NoDup (alt_tags a)) = true ->
  forallb byte_ok (alt_tags a) = true -> RoundTrip (c_variant a).
Proof.
  intros Hl Hd%bool_decide_eq_true Hb v H. cbn in *. apply bytes_okb in Hb.
  destruct (alt_round_trip a v Hl Hd H) as (t & b & E & Hin & B & R).
  exists (t :: b). split; [done|]. split; [|done]. constructor; [|done].
  unfold bytes_ok in Hb. rewrite Forall_forall in Hb. by apply Hb.
Qed.

#[export] Instance ne_variant {V} (a : alternatives V) : NonEmpty (c_variant a).
Proof. intros v b _ E. cbn in E. apply alt_wr_tag in E as (t & b' & -> & _). cbn. lia. Qed.

(** What the wire gives back: whatever the context, an object that the format
    can carry is read back from its blob. *)
Lemma blob_round_trip {A} (c : codec A) a : RoundTrip c -> ok c a = true ->
  exists blob, t_serializable_object_to_blob c a = Some blob /\ bytes_ok blob /\
    t_unserializable_object_from_blob c blob = Some a.
Proof.
  intros Hc H. rt_open H. exists b. split; [done|]. split; [done|].
  unfold t_unserializable_object_from_blob. specialize (R []). rewrite app_nil_r in R. by rewrite R.
Qed.
