(* ===== verification/Pod.v ===== *)
(** * Plain data and its hexadecimal form: [src/contrib/epee/include/string_tools.h]

    Hashes and keys are plain 32-byte values; they are read from and printed as
    hexadecimal strings.  A string is the list of its bytes. *)

From S2P Require Import Prelude.

(** [crypto::hash], the bytes of its [data] array. *)
Abbreviation hash := (list Z).
Definition null_hash : hash := replicate 32 0.


(** ** [strtoul] in base 16, on the one or two characters the parser hands it *)

Definition isspace (c : Z) : bool := (c =? 32) || ((9 <=? c) && (c <=? 13)).

Definition hex_digit (c : Z) : option Z :=
  if (48 <=? c) && (c <=? 57) then Some (c - 48)
  else if (97 <=? c) && (c <=? 102) then Some (c - 87)
  else if (65 <=? c) && (c <=? 70) then Some (c - 55)
  else None.

(** The value of the longest run of digits and its length. *)
Fixpoint hex_digits (s : list Z) (v : Z) : Z * nat :=
  match s with
  | [] => (v, O)
  | c :: s =>
      match hex_digit c with
      | Some d => let '(v, n) := hex_digits s (16 * v + d) in (v, S n)
      | None => (v, O)
      end
  end.

Fixpoint skip_spaces (s : list Z) : nat :=
  match s with c :: s => if isspace c then S (skip_spaces s) else O | [] => O end.

(** The value and the number of characters consumed, 0 when there is no
    number.  A [0x] prefix needs a digit after it, which two characters do not
    leave room for. *)
Definition strtoul16 (s : list Z) : Z * nat :=
  let n := skip_spaces s in
  let s := drop n s in
  let '(neg, m) := match s with
    | c :: _ => if c =? 45 then (true, 1%nat) else if c =? 43 then (false, 1%nat) else (false, O)
    | [] => (false, O) end in
  let '(v, d) := hex_digits (drop m s) 0 in
  if (d =? 0)%nat then (0, O) else (if neg : bool then u64 (- v) else v, (n + m + d)%nat).

(** [v] is a [long]: the unsigned result converted. *)
Definition to_long (v : Z) : Z := if v <? 2 ^ 63 then v else v - 2 ^ 64.

(** The loop over the pairs of characters. *)
Fixpoint parse_hex_loop (count : nat) (s : list Z) : option (list Z) :=
  match count with
  | O => Some []
  | S count =>
      let byte_str := take 2 s in
      let copied := List.length byte_str in
      let '(v, consumed) := strtoul16 byte_str in
      let v := to_long v in
      if (v <? 0) || (0xFF <? v) || negb (consumed =? copied)%nat then None
      else r ← parse_hex_loop count (drop 2 s); Some (u8 v :: r)
  end.

Definition parse_hexstr_to_binbuff (s : list Z) : option (list Z) :=
  parse_hex_loop ((List.length s + 1) / 2) s.

(** [sizeof_t] is the size of the plain type. *)
Definition parse_tpod_from_hex_string (sizeof_t : nat) (str_hash : list Z) : option (list Z) :=
  match parse_hexstr_to_binbuff str_hash with
  | Some buf => if (List.length buf =? sizeof_t)%nat then Some buf else None
  | None => None
  end.

Definition hex_char (d : Z) : Z := if d <? 10 then 48 + d else 87 + d.

Definition buff_to_hex_nodelimer (s : list Z) : list Z :=
  s ≫= fun b => [hex_char (b / 16); hex_char (b mod 16)].

Definition pod_to_hex (s : list Z) : list Z := buff_to_hex_nodelimer s.

(** ** Round trip *)

Lemma hex_char_spec b : is_u8 b ->
  hex_digit (hex_char (b / 16)) = Some (b / 16) /\ hex_digit (hex_char (b mod 16)) = Some (b mod 16) /\
  isspace (hex_char (b / 16)) = false /\ (hex_char (b / 16) =? 45) = false /\ (hex_char (b / 16) =? 43) = false.
Proof.
  intros Hb.
  assert (H : bool_decide (hex_digit (hex_char (b / 16)) = Some (b / 16)) &&
              bool_decide (hex_digit (hex_char (b mod 16)) = Some (b mod 16)) &&
              negb (isspace (hex_char (b / 16))) && negb (hex_char (b / 16) =? 45) &&
              negb (hex_char (b / 16) =? 43) = true).
  { revert b Hb. apply forall_byte. vm_compute. reflexivity. }
  rewrite !andb_true_iff, !bool_decide_eq_true, !negb_true_iff in H. intuition.
Qed.

Lemma strtoul16_byte b : is_u8 b ->
  strtoul16 [hex_char (b / 16); hex_char (b mod 16)] = (b, 2%nat).
Proof.
  intros Hb. destruct (hex_char_spec b Hb) as (E1 & E2 & E3 & E4 & E5).
  unfold strtoul16. cbn [skip_spaces]. rewrite E3. cbn [drop]. rewrite E4, E5. cbn [drop hex_digits].
  rewrite E1, E2. cbn. f_equal. pose proof (Z.div_mod b 16 ltac:(lia)). lia.
Qed.

Lemma parse_hex_roundtrip s : bytes_ok s -> parse_hexstr_to_binbuff (buff_to_hex_nodelimer s) = Some s.
Proof.
  unfold parse_hexstr_to_binbuff.
  assert (Hl : List.length (buff_to_hex_nodelimer s) = (2 * List.length s)%nat).
  { induction s as [|b s IH]; [done|]. unfold buff_to_hex_nodelimer in *. cbn [mbind list_bind app List.length] in *.
    rewrite IH. lia. }
  rewrite Hl. replace ((2 * List.length s + 1) / 2)%nat with (List.length s).
  2:{ apply Nat.div_unique with 1%nat; lia. }
  clear Hl. intros Hb. induction Hb as [|b s Hb Hs IH]; [done|].
  change (buff_to_hex_nodelimer (b :: s)) with
    (hex_char (b / 16) :: hex_char (b mod 16) :: buff_to_hex_nodelimer s).
  cbn [List.length parse_hex_loop take drop]. rewrite strtoul16_byte by done.
  unfold in_u in Hb. change (2 ^ 8) with 256 in Hb.
  unfold to_long. rewrite (proj2 (Z.ltb_lt b _)) by lia. rewrite (proj2 (Z.ltb_ge b 0)), (proj2 (Z.ltb_ge 255 b)) by lia.
  rewrite firstn_O, drop_0, IH. cbn. by rewrite wrap_small.
Qed.

Lemma pod_hex_roundtrip n s : bytes_ok s -> List.length s = n ->
  parse_tpod_from_hex_string n (pod_to_hex s) = Some s.
Proof.
  intros Hb <-. unfold parse_tpod_from_hex_string, pod_to_hex. by rewrite parse_hex_roundtrip, Nat.eqb_refl.
Qed.

(** [strtoul] skips a leading space or plus sign, so the parser is not
    canonical. *)
Example parse_hex_lenient :
  parse_hexstr_to_binbuff (chars " 5+6-0") = Some [5; 6; 0] /\ parse_hexstr_to_binbuff (chars "-1") = None.
Proof. by vm_compute. Qed.
