(* ===== verification/CryptoTypes.v ===== *)
(** * Cryptographic values on the wire: [src/src/common/crypto_serialization.h]

    Keys, hashes and scalars are plain byte arrays; the proofs and signatures
    are structures of them.  The codecs are those of the [BEGIN_SERIALIZE]
    blocks, in the order of their fields. *)

From S2P Require Import Prelude Archive Pod.

(** ** Plain types *)

Abbreviation public_key := (list Z).
Abbreviation secret_key := (list Z).
Abbreviation key_derivation := (list Z).
Abbreviation key_image := (list Z).
Abbreviation signature := (list Z).
Abbreviation scalar_t := (list Z).
Abbreviation eth_public_key := (list Z).
Abbreviation eth_signature := (list Z).
Abbreviation eddsa_public_key := (list Z).
Abbreviation eddsa_signature := (list Z).

Definition null_pkey : public_key := replicate 32 0.

Definition c_hash : codec hash := c_pod 32.
Definition c_public_key : codec public_key := c_pod 32.
Definition c_secret_key : codec secret_key := c_pod 32.
Definition c_key_derivation : codec key_derivation := c_pod 32.
Definition c_key_image : codec key_image := c_pod 32.
Definition c_signature : codec signature := c_pod 64.
Definition c_scalar_t : codec scalar_t := c_pod 32.
Definition c_eth_public_key : codec eth_public_key := c_pod 33.
Definition c_eth_signature : codec eth_signature := c_pod 64.
Definition c_eddsa_public_key : codec eddsa_public_key := c_pod 32.
Definition c_eddsa_signature : codec eddsa_signature := c_pod 64.

#[export] Instance rt_hash : RoundTrip c_hash.
Proof. apply rt_pod. Qed.
#[export] Instance ne_hash : NonEmpty c_hash.
Proof. apply ne_pod. Qed.
#[export] Instance rt_public_key : RoundTrip c_public_key.
Proof. apply rt_pod. Qed.
#[export] Instance ne_public_key : NonEmpty c_public_key.
Proof. apply ne_pod. Qed.
#[export] Instance rt_secret_key : RoundTrip c_secret_key.
Proof. apply rt_pod. Qed.
#[export] Instance ne_secret_key : NonEmpty c_secret_key.
Proof. apply ne_pod. Qed.
#[export] Instance rt_key_derivation : RoundTrip c_key_derivation.
Proof. apply rt_pod. Qed.
#[export] Instance ne_key_derivation : NonEmpty c_key_derivation.
Proof. apply ne_pod. Qed.
#[export] Instance rt_key_image : RoundTrip c_key_image.
Proof. apply rt_pod. Qed.
#[export] Instance ne_key_image : NonEmpty c_key_image.
Proof. apply ne_pod. Qed.
#[export] Instance rt_signature : RoundTrip c_signature.
Proof. apply rt_pod. Qed.
#[export] Instance ne_signature : NonEmpty c_signature.
Proof. apply ne_pod. Qed.
#[export] Instance rt_scalar_t : RoundTrip c_scalar_t.
Proof. apply rt_pod. Qed.
#[export] Instance ne_scalar_t : NonEmpty c_scalar_t.
Proof. apply ne_pod. Qed.
#[export] Instance rt_eth_public_key : RoundTrip c_eth_public_key.
Proof. apply rt_pod. Qed.
#[export] Instance ne_eth_public_key : NonEmpty c_eth_public_key.
Proof. apply ne_pod. Qed.
#[export] Instance rt_eth_signature : RoundTrip c_eth_signature.
Proof. apply rt_pod. Qed.
#[export] Instance ne_eth_signature : NonEmpty c_eth_signature.
Proof. apply ne_pod. Qed.
#[export] Instance rt_eddsa_public_key : RoundTrip c_eddsa_public_key.
Proof. apply rt_pod. Qed.
#[export] Instance ne_eddsa_public_key : NonEmpty c_eddsa_public_key.
Proof. apply ne_pod. Qed.
#[export] Instance rt_eddsa_signature : RoundTrip c_eddsa_signature.
Proof. apply rt_pod. Qed.
#[export] Instance ne_eddsa_signature : NonEmpty c_eddsa_signature.
Proof. apply ne_pod. Qed.

(** ** Proofs and signatures *)

Record bpp_signature_serialized : Type := {
  bpp_L : list public_key; bpp_R : list public_key; bpp_A0 : public_key; bpp_A : public_key;
  bpp_B : public_key; bpp_r : scalar_t; bpp_s : scalar_t; bpp_delta : scalar_t
}.
Definition c_bpp_signature_serialized : codec bpp_signature_serialized :=
  c_iso
    (fun x => (bpp_L x, (bpp_R x, (bpp_A0 x, (bpp_A x, (bpp_B x, (bpp_r x, (bpp_s x, bpp_delta x))))))))
    (fun '(a0, (a1, (a2, (a3, (a4, (a5, (a6, a7))))))) =>
      Build_bpp_signature_serialized a0 a1 a2 a3 a4 a5 a6 a7)
    (c_vector c_public_key ⊗ c_vector c_public_key ⊗ c_public_key ⊗ c_public_key ⊗ c_public_key ⊗
     c_scalar_t ⊗ c_scalar_t ⊗ c_scalar_t).
#[export] Instance rt_bpp_signature_serialized : RoundTrip c_bpp_signature_serialized.
Proof. apply rt_iso; apply _. Qed.
#[export] Instance ne_bpp_signature_serialized : NonEmpty c_bpp_signature_serialized.
Proof. apply ne_iso; apply _. Qed.

Record bppe_signature_serialized : Type := {
  bppe_L : list public_key; bppe_R : list public_key; bppe_A0 : public_key; bppe_A : public_key;
  bppe_B : public_key; bppe_r : scalar_t; bppe_s : scalar_t; bppe_delta_1 : scalar_t;
  bppe_delta_2 : scalar_t
}.
Definition c_bppe_signature_serialized : codec bppe_signature_serialized :=
  c_iso
    (fun x => (bppe_L x, (bppe_R x, (bppe_A0 x, (bppe_A x, (bppe_B x, (bppe_r x, (bppe_s x,
      (bppe_delta_1 x, bppe_delta_2 x)))))))))
    (fun '(a0, (a1, (a2, (a3, (a4, (a5, (a6, (a7, a8)))))))) =>
      Build_bppe_signature_serialized a0 a1 a2 a3 a4 a5 a6 a7 a8)
    (c_vector c_public_key ⊗ c_vector c_public_key ⊗ c_public_key ⊗ c_public_key ⊗ c_public_key ⊗
     c_scalar_t ⊗ c_scalar_t ⊗ c_scalar_t ⊗ c_scalar_t).
#[export] Instance rt_bppe_signature_serialized : RoundTrip c_bppe_signature_serialized.
Proof. apply rt_iso; apply _. Qed.
#[export] Instance ne_bppe_signature_serialized : NonEmpty c_bppe_signature_serialized.
Proof. apply ne_iso; apply _. Qed.

Record CLSAG_GGX_signature_serialized : Type := {
  ggx_c : scalar_t; ggx_r_g : list scalar_t; ggx_r_x : list scalar_t; ggx_K1 : public_key;
  ggx_K2 : public_key
}.
Definition c_CLSAG_GGX_signature_serialized : codec CLSAG_GGX_signature_serialized :=
  c_iso
    (fun x => (ggx_c x, (ggx_r_g x, (ggx_r_x x, (ggx_K1 x, ggx_K2 x)))))
    (fun '(a0, (a1, (a2, (a3, a4)))) =>
      Build_CLSAG_GGX_signature_serialized a0 a1 a2 a3 a4)
    (c_scalar_t ⊗ c_vector c_scalar_t ⊗ c_vector c_scalar_t ⊗ c_public_key ⊗ c_public_key).
#[export] Instance rt_CLSAG_GGX_signature_serialized : RoundTrip c_CLSAG_GGX_signature_serialized.
Proof. apply rt_iso; apply _. Qed.
#[export] Instance ne_CLSAG_GGX_signature_serialized : NonEmpty c_CLSAG_GGX_signature_serialized.
Proof. apply ne_iso; apply _. Qed.

Record CLSAG_GGXXG_signature_serialized : Type := {
  ggxxg_c : scalar_t; ggxxg_r_g : list scalar_t; ggxxg_r_x : list scalar_t; ggxxg_K1 : public_key;
  ggxxg_K2 : public_key; ggxxg_K3 : public_key; ggxxg_K4 : public_key
}.
Definition c_CLSAG_GGXXG_signature_serialized : codec CLSAG_GGXXG_signature_serialized :=
  c_iso
    (fun x => (ggxxg_c x, (ggxxg_r_g x, (ggxxg_r_x x, (ggxxg_K1 x, (ggxxg_K2 x, (ggxxg_K3 x,
      ggxxg_K4 x)))))))
    (fun '(a0, (a1, (a2, (a3, (a4, (a5, a6)))))) =>
      Build_CLSAG_GGXXG_signature_serialized a0 a1 a2 a3 a4 a5 a6)
    (c_scalar_t ⊗ c_vector c_scalar_t ⊗ c_vector c_scalar_t ⊗ c_public_key ⊗ c_public_key ⊗
     c_public_key ⊗ c_public_key).
#[export] Instance rt_CLSAG_GGXXG_signature_serialized : RoundTrip c_CLSAG_GGXXG_signature_serialized.
Proof. apply rt_iso; apply _. Qed.
#[export] Instance ne_CLSAG_GGXXG_signature_serialized : NonEmpty c_CLSAG_GGXXG_signature_serialized.
Proof. apply ne_iso; apply _. Qed.

Record vector_UG_aggregation_proof_serialized : Type := {
  vug_amount_commitments_for_rp_aggregation : list public_key; vug_y0s : list scalar_t;
  vug_y1s : list scalar_t; vug_c : scalar_t
}.
Definition c_vector_UG_aggregation_proof_serialized : codec vector_UG_aggregation_proof_serialized :=
  c_iso
    (fun x => (vug_amount_commitments_for_rp_aggregation x, (vug_y0s x, (vug_y1s x, vug_c x))))
    (fun '(a0, (a1, (a2, a3))) =>
      Build_vector_UG_aggregation_proof_serialized a0 a1 a2 a3)
    (c_vector c_public_key ⊗ c_vector c_scalar_t ⊗ c_vector c_scalar_t ⊗ c_scalar_t).
#[export] Instance rt_vector_UG_aggregation_proof_serialized : RoundTrip c_vector_UG_aggregation_proof_serialized.
Proof. apply rt_iso; apply _. Qed.
#[export] Instance ne_vector_UG_aggregation_proof_serialized : NonEmpty c_vector_UG_aggregation_proof_serialized.
Proof. apply ne_iso; apply _. Qed.

Record linear_composition_proof_s : Type := {
  lcp_c : scalar_t; lcp_y0 : scalar_t; lcp_y1 : scalar_t
}.
Definition c_linear_composition_proof_s : codec linear_composition_proof_s :=
  c_iso
    (fun x => (lcp_c x, (lcp_y0 x, lcp_y1 x)))
    (fun '(a0, (a1, a2)) =>
      Build_linear_composition_proof_s a0 a1 a2)
    (c_scalar_t ⊗ c_scalar_t ⊗ c_scalar_t).
#[export] Instance rt_linear_composition_proof_s : RoundTrip c_linear_composition_proof_s.
Proof. apply rt_iso; apply _. Qed.
#[export] Instance ne_linear_composition_proof_s : NonEmpty c_linear_composition_proof_s.
Proof. apply ne_iso; apply _. Qed.

Record generic_schnorr_sig_s : Type := {
  gss_c : scalar_t; gss_y : scalar_t
}.
Definition c_generic_schnorr_sig_s : codec generic_schnorr_sig_s :=
  c_iso
    (fun x => (gss_c x, gss_y x))
    (fun '(a0, a1) =>
      Build_generic_schnorr_sig_s a0 a1)
    (c_scalar_t ⊗ c_scalar_t).
#[export] Instance rt_generic_schnorr_sig_s : RoundTrip c_generic_schnorr_sig_s.
Proof. apply rt_iso; apply _. Qed.
#[export] Instance ne_generic_schnorr_sig_s : NonEmpty c_generic_schnorr_sig_s.
Proof. apply ne_iso; apply _. Qed.

Record generic_double_schnorr_sig_s : Type := {
  gdss_c : scalar_t; gdss_y0 : scalar_t; gdss_y1 : scalar_t
}.
Definition c_generic_double_schnorr_sig_s : codec generic_double_schnorr_sig_s :=
  c_iso
    (fun x => (gdss_c x, (gdss_y0 x, gdss_y1 x)))
    (fun '(a0, (a1, a2)) =>
      Build_generic_double_schnorr_sig_s a0 a1 a2)
    (c_scalar_t ⊗ c_scalar_t ⊗ c_scalar_t).
#[export] Instance rt_generic_double_schnorr_sig_s : RoundTrip c_generic_double_schnorr_sig_s.
Proof. apply rt_iso; apply _. Qed.
#[export] Instance ne_generic_double_schnorr_sig_s : NonEmpty c_generic_double_schnorr_sig_s.
Proof. apply ne_iso; apply _. Qed.

Record generic_linear_composition_and_schnorr_sig_s : Type := {
  glcss_c : scalar_t; glcss_y0 : scalar_t; glcss_y1 : scalar_t; glcss_y2 : scalar_t
}.
Definition c_generic_linear_composition_and_schnorr_sig_s : codec generic_linear_composition_and_schnorr_sig_s :=
  c_iso
    (fun x => (glcss_c x, (glcss_y0 x, (glcss_y1 x, glcss_y2 x))))
    (fun '(a0, (a1, (a2, a3))) =>
      Build_generic_linear_composition_and_schnorr_sig_s a0 a1 a2 a3)
    (c_scalar_t ⊗ c_scalar_t ⊗ c_scalar_t ⊗ c_scalar_t).
#[export] Instance rt_generic_linear_composition_and_schnorr_sig_s : RoundTrip c_generic_linear_composition_and_schnorr_sig_s.
Proof. apply rt_iso; apply _. Qed.
#[export] Instance ne_generic_linear_composition_and_schnorr_sig_s : NonEmpty c_generic_linear_composition_and_schnorr_sig_s.
Proof. apply ne_iso; apply _. Qed.

Record BGE_proof_s : Type := {
  bge_A : public_key; bge_B : public_key; bge_Pk : list public_key; bge_f : list scalar_t;
  bge_y : scalar_t; bge_z : scalar_t
}.
Definition c_BGE_proof_s : codec BGE_proof_s :=
  c_iso
    (fun x => (bge_A x, (bge_B x, (bge_Pk x, (bge_f x, (bge_y x, bge_z x))))))
    (fun '(a0, (a1, (a2, (a3, (a4, a5))))) =>
      Build_BGE_proof_s a0 a1 a2 a3 a4 a5)
    (c_public_key ⊗ c_public_key ⊗ c_vector c_public_key ⊗ c_vector c_scalar_t ⊗ c_scalar_t ⊗
     c_scalar_t).
#[export] Instance rt_BGE_proof_s : RoundTrip c_BGE_proof_s.
Proof. apply rt_iso; apply _. Qed.
#[export] Instance ne_BGE_proof_s : NonEmpty c_BGE_proof_s.
Proof. apply ne_iso; apply _. Qed.

