(* ===== verification/Basic.v ===== *)
(** * Blocks and transactions: [src/src/currency_core/currency_basic.h]

    The structures of the block chain with their wire format, the older formats
    they go through ([currency_basic_backward_comp.inl]), and the round trip of
    transactions and blocks.  A structure with a single field is that field; a
    [boost::variant] is an inductive type with a constructor per alternative. *)

From S2P Require Import Prelude Archive Pod CryptoTypes.

#[export] Instance default_zero : IsDefault (fun h => h =? 0) 0.
Proof. intros x H. by zbool. Qed.

#[export] Instance default_eqb v : IsDefault (fun h => h =? v) v.
Proof. intros x H. by zbool. Qed.

#[export] Instance default_none {A} : IsDefault (fun o : option A => match o with None => true | Some _ => false end) None.
Proof. by intros []. Qed.

#[export] Instance default_nil {A} : IsDefault (fun l : list A => match l with [] => true | _ => false end) [].
Proof. by intros []. Qed.

(** ** Addresses *)

Record account_public_address_old : Type := {
  apao_spend_public_key : public_key; apao_view_public_key : public_key
}.
Definition c_account_public_address_old : codec account_public_address_old :=
  c_iso
    (fun x => (apao_spend_public_key x, apao_view_public_key x))
    (fun '(a0, a1) =>
      Build_account_public_address_old a0 a1)
    (c_public_key ⊗ c_public_key).
#[export] Instance rt_account_public_address_old : RoundTrip c_account_public_address_old.
Proof. apply rt_iso; apply _. Qed.
#[export] Instance ne_account_public_address_old : NonEmpty c_account_public_address_old.
Proof. apply ne_iso; apply _. Qed.

Record account_public_address : Type := {
  apa_spend_public_key : public_key; apa_view_public_key : public_key; apa_flags : Z
}.
Definition c_account_public_address : codec account_public_address :=
  c_iso
    (fun x => (apa_spend_public_key x, (apa_view_public_key x, apa_flags x)))
    (fun '(a0, (a1, a2)) =>
      Build_account_public_address a0 a1 a2)
    (c_public_key ⊗ c_public_key ⊗ c_uint 1).
#[export] Instance rt_account_public_address : RoundTrip c_account_public_address.
Proof. apply rt_iso; apply _. Qed.
#[export] Instance ne_account_public_address : NonEmpty c_account_public_address.
Proof. apply ne_iso; apply _. Qed.

Abbreviation gateway_address_id_type := public_key.

Inductive gateway_owner_key_v : Type :=
| gok_public_key (x : public_key)
| gok_eth_public_key (x : eth_public_key)
| gok_eddsa_public_key (x : eddsa_public_key).

Definition c_gateway_owner_key_v_alternatives : alternatives gateway_owner_key_v :=
  alt 22 gok_public_key (fun v => match v with gok_public_key x => Some x | _ => None end) c_public_key (
  alt 60 gok_eth_public_key (fun v => match v with gok_eth_public_key x => Some x | _ => None end) c_eth_public_key (
  alt 69 gok_eddsa_public_key (fun v => match v with gok_eddsa_public_key x => Some x | _ => None end) c_eddsa_public_key (
  alt_end))).
Definition c_gateway_owner_key_v : codec gateway_owner_key_v := c_variant c_gateway_owner_key_v_alternatives.
#[export] Instance rt_gateway_owner_key_v : RoundTrip c_gateway_owner_key_v.
Proof. apply rt_variant; [alternatives_law|by vm_compute..]. Qed.

(** Also [gateway_signature_v], the same alternatives. *)
Inductive gateway_owner_signature_v : Type :=
| gos_generic_schnorr_sig_s (x : generic_schnorr_sig_s)
| gos_eth_signature (x : eth_signature)
| gos_eddsa_signature (x : eddsa_signature).

Definition c_gateway_owner_signature_v_alternatives : alternatives gateway_owner_signature_v :=
  alt 70 gos_generic_schnorr_sig_s (fun v => match v with gos_generic_schnorr_sig_s x => Some x | _ => None end) c_generic_schnorr_sig_s (
  alt 71 gos_eth_signature (fun v => match v with gos_eth_signature x => Some x | _ => None end) c_eth_signature (
  alt 68 gos_eddsa_signature (fun v => match v with gos_eddsa_signature x => Some x | _ => None end) c_eddsa_signature (
  alt_end))).
Definition c_gateway_owner_signature_v : codec gateway_owner_signature_v := c_variant c_gateway_owner_signature_v_alternatives.
#[export] Instance rt_gateway_owner_signature_v : RoundTrip c_gateway_owner_signature_v.
Proof. apply rt_variant; [alternatives_law|by vm_compute..]. Qed.

Record gateway_address_ownership_proof : Type := {
  gaop_version : Z; gaop_sign : gateway_owner_signature_v
}.
Definition c_gateway_address_ownership_proof : codec gateway_address_ownership_proof :=
  c_iso
    (fun x => (gaop_version x, gaop_sign x))
    (fun '(a0, a1) =>
      Build_gateway_address_ownership_proof a0 a1)
    (c_version 0 ⊗ c_gateway_owner_signature_v).
#[export] Instance rt_gateway_address_ownership_proof : RoundTrip c_gateway_address_ownership_proof.
Proof. apply rt_iso; apply _. Qed.
#[export] Instance ne_gateway_address_ownership_proof : NonEmpty c_gateway_address_ownership_proof.
Proof. apply ne_iso; apply _. Qed.

(** ** Inputs *)

Record extra_attachment_info : Type := {
  eai_sz : Z; eai_hsh : hash; eai_cnt : Z
}.
Definition c_extra_attachment_info : codec extra_attachment_info :=
  c_iso
    (fun x => (eai_sz x, (eai_hsh x, eai_cnt x)))
    (fun '(a0, (a1, a2)) =>
      Build_extra_attachment_info a0 a1 a2)
    (c_varint 64 ⊗ c_hash ⊗ c_varint 64).
#[export] Instance rt_extra_attachment_info : RoundTrip c_extra_attachment_info.
Proof. apply rt_iso; apply _. Qed.
#[export] Instance ne_extra_attachment_info : NonEmpty c_extra_attachment_info.
Proof. apply ne_iso; apply _. Qed.

Record txout_to_key : Type := {
  tok_key : public_key; tok_mix_attr : Z
}.
Definition c_txout_to_key : codec txout_to_key :=
  c_iso
    (fun x => (tok_key x, tok_mix_attr x))
    (fun '(a0, a1) =>
      Build_txout_to_key a0 a1)
    (c_public_key ⊗ c_uint 1).
#[export] Instance rt_txout_to_key : RoundTrip c_txout_to_key.
Proof. apply rt_iso; apply _. Qed.
#[export] Instance ne_txout_to_key : NonEmpty c_txout_to_key.
Proof. apply ne_iso; apply _. Qed.

(** [txin_gen] has one field, its height. *)
Definition c_txin_gen : codec Z := c_varint 64.
#[export] Instance rt_txin_gen : RoundTrip c_txin_gen.
Proof. apply rt_varint; by apply TCEq_eq. Qed.

Record ref_by_id : Type := {
  rbi_tx_id : hash; rbi_n : Z
}.
Definition c_ref_by_id : codec ref_by_id :=
  c_iso
    (fun x => (rbi_tx_id x, rbi_n x))
    (fun '(a0, a1) =>
      Build_ref_by_id a0 a1)
    (c_hash ⊗ c_varint 32).
#[export] Instance rt_ref_by_id : RoundTrip c_ref_by_id.
Proof. apply rt_iso; apply _. Qed.
#[export] Instance ne_ref_by_id : NonEmpty c_ref_by_id.
Proof. apply ne_iso; apply _. Qed.

Inductive txout_ref_v : Type :=
| ref_global_index (x : Z)
| ref_id (x : ref_by_id).

Definition c_txout_ref_v_alternatives : alternatives txout_ref_v :=
  alt 26 ref_global_index (fun v => match v with ref_global_index x => Some x | _ => None end) (c_uint 8) (
  alt 25 ref_id (fun v => match v with ref_id x => Some x | _ => None end) c_ref_by_id (
  alt_end)).
Definition c_txout_ref_v : codec txout_ref_v := c_variant c_txout_ref_v_alternatives.
#[export] Instance rt_txout_ref_v : RoundTrip c_txout_ref_v.
Proof. apply rt_variant; [alternatives_law|by vm_compute..]. Qed.

Record signed_parts : Type := {
  sp_n_outs : Z; sp_n_extras : Z
}.
Definition c_signed_parts : codec signed_parts :=
  c_iso
    (fun x => (sp_n_outs x, sp_n_extras x))
    (fun '(a0, a1) =>
      Build_signed_parts a0 a1)
    (c_varint 32 ⊗ c_varint 32).
#[export] Instance rt_signed_parts : RoundTrip c_signed_parts.
Proof. apply rt_iso; apply _. Qed.
#[export] Instance ne_signed_parts : NonEmpty c_signed_parts.
Proof. apply ne_iso; apply _. Qed.

Inductive txin_etc_details_v : Type :=
| etc_signed_parts (x : signed_parts)
| etc_extra_attachment_info (x : extra_attachment_info).

Definition c_txin_etc_details_v_alternatives : alternatives txin_etc_details_v :=
  alt 17 etc_signed_parts (fun v => match v with etc_signed_parts x => Some x | _ => None end) c_signed_parts (
  alt 18 etc_extra_attachment_info (fun v => match v with etc_extra_attachment_info x => Some x | _ => None end) c_extra_attachment_info (
  alt_end)).
Definition c_txin_etc_details_v : codec txin_etc_details_v := c_variant c_txin_etc_details_v_alternatives.
#[export] Instance rt_txin_etc_details_v : RoundTrip c_txin_etc_details_v.
Proof. apply rt_variant; [alternatives_law|by vm_compute..]. Qed.

Record txin_to_key : Type := {
  ttk_amount : Z; ttk_key_offsets : list txout_ref_v; ttk_k_image : key_image;
  ttk_etc_details : list txin_etc_details_v
}.
Definition c_txin_to_key : codec txin_to_key :=
  c_iso
    (fun x => (ttk_amount x, (ttk_key_offsets x, (ttk_k_image x, ttk_etc_details x))))
    (fun '(a0, (a1, (a2, a3))) =>
      Build_txin_to_key a0 a1 a2 a3)
    (c_varint 64 ⊗ c_vector c_txout_ref_v ⊗ c_key_image ⊗ c_vector c_txin_etc_details_v).
#[export] Instance rt_txin_to_key : RoundTrip c_txin_to_key.
Proof. apply rt_iso; apply _. Qed.
#[export] Instance ne_txin_to_key : NonEmpty c_txin_to_key.
Proof. apply ne_iso; apply _. Qed.

Record txin_multisig : Type := {
  tms_amount : Z; tms_multisig_out_id : hash; tms_sigs_count : Z;
  tms_etc_details : list txin_etc_details_v
}.
Definition c_txin_multisig : codec txin_multisig :=
  c_iso
    (fun x => (tms_amount x, (tms_multisig_out_id x, (tms_sigs_count x, tms_etc_details x))))
    (fun '(a0, (a1, (a2, a3))) =>
      Build_txin_multisig a0 a1 a2 a3)
    (c_varint 64 ⊗ c_hash ⊗ c_varint 32 ⊗ c_vector c_txin_etc_details_v).
#[export] Instance rt_txin_multisig : RoundTrip c_txin_multisig.
Proof. apply rt_iso; apply _. Qed.
#[export] Instance ne_txin_multisig : NonEmpty c_txin_multisig.
Proof. apply ne_iso; apply _. Qed.

(** The version is serialized twice: the field at the end is not checked
    against the last version. *)
Record txin_gateway : Type := { tgw_version : Z; tgw_gateway_addr : gateway_address_id_type; tgw_asset_id : public_key;
  tgw_amount : Z }.
Definition c_txin_gateway : codec txin_gateway :=
  c_iso (fun x => (tgw_version x, (tgw_gateway_addr x, (tgw_asset_id x, (tgw_amount x, tgw_version x)))))
    (fun '(_, (a1, (a2, (a3, a4)))) => Build_txin_gateway a4 a1 a2 a3)
    (c_version 0 ⊗ c_public_key ⊗ c_public_key ⊗ c_varint 64 ⊗ c_varint 8).
#[export] Instance rt_txin_gateway : RoundTrip c_txin_gateway.
Proof. apply rt_iso; apply _. Qed.

Record txin_zc_input : Type := {
  tzc_key_offsets : list txout_ref_v; tzc_k_image : key_image; tzc_etc_details : list txin_etc_details_v
}.
Definition c_txin_zc_input : codec txin_zc_input :=
  c_iso
    (fun x => (tzc_key_offsets x, (tzc_k_image x, tzc_etc_details x)))
    (fun '(a0, (a1, a2)) =>
      Build_txin_zc_input a0 a1 a2)
    (c_vector c_txout_ref_v ⊗ c_key_image ⊗ c_vector c_txin_etc_details_v).
#[export] Instance rt_txin_zc_input : RoundTrip c_txin_zc_input.
Proof. apply rt_iso; apply _. Qed.
#[export] Instance ne_txin_zc_input : NonEmpty c_txin_zc_input.
Proof. apply ne_iso; apply _. Qed.

Inductive txin_v : Type :=
| in_gen (x : Z)
| in_to_key (x : txin_to_key)
| in_multisig (x : txin_multisig)
| in_gateway (x : txin_gateway)
| in_zc (x : txin_zc_input).

Definition c_txin_v_alternatives : alternatives txin_v :=
  alt 0 in_gen (fun v => match v with in_gen x => Some x | _ => None end) c_txin_gen (
  alt 1 in_to_key (fun v => match v with in_to_key x => Some x | _ => None end) c_txin_to_key (
  alt 2 in_multisig (fun v => match v with in_multisig x => Some x | _ => None end) c_txin_multisig (
  alt 65 in_gateway (fun v => match v with in_gateway x => Some x | _ => None end) c_txin_gateway (
  alt 37 in_zc (fun v => match v with in_zc x => Some x | _ => None end) c_txin_zc_input (
  alt_end))))).
Definition c_txin_v : codec txin_v := c_variant c_txin_v_alternatives.
#[export] Instance rt_txin_v : RoundTrip c_txin_v.
Proof. apply rt_variant; [alternatives_law|by vm_compute..]. Qed.

(** ** Outputs *)

Record txout_multisig : Type := {
  oms_minimum_sigs : Z; oms_keys : list public_key
}.
Definition c_txout_multisig : codec txout_multisig :=
  c_iso
    (fun x => (oms_minimum_sigs x, oms_keys x))
    (fun '(a0, a1) =>
      Build_txout_multisig a0 a1)
    (c_varint 32 ⊗ c_vector c_public_key).
#[export] Instance rt_txout_multisig : RoundTrip c_txout_multisig.
Proof. apply rt_iso; apply _. Qed.
#[export] Instance ne_txout_multisig : NonEmpty c_txout_multisig.
Proof. apply ne_iso; apply _. Qed.

Inductive txout_target_v : Type :=
| target_to_key (x : txout_to_key)
| target_multisig (x : txout_multisig).

Definition c_txout_target_v_alternatives : alternatives txout_target_v :=
  alt 3 target_to_key (fun v => match v with target_to_key x => Some x | _ => None end) c_txout_to_key (
  alt 4 target_multisig (fun v => match v with target_multisig x => Some x | _ => None end) c_txout_multisig (
  alt_end)).
Definition c_txout_target_v : codec txout_target_v := c_variant c_txout_target_v_alternatives.
#[export] Instance rt_txout_target_v : RoundTrip c_txout_target_v.
Proof. apply rt_variant; [alternatives_law|by vm_compute..]. Qed.

Record tx_out_bare : Type := {
  ob_amount : Z; ob_target : txout_target_v
}.
Definition c_tx_out_bare : codec tx_out_bare :=
  c_iso
    (fun x => (ob_amount x, ob_target x))
    (fun '(a0, a1) =>
      Build_tx_out_bare a0 a1)
    (c_varint 64 ⊗ c_txout_target_v).
#[export] Instance rt_tx_out_bare : RoundTrip c_tx_out_bare.
Proof. apply rt_iso; apply _. Qed.
#[export] Instance ne_tx_out_bare : NonEmpty c_tx_out_bare.
Proof. apply ne_iso; apply _. Qed.

Record tx_out_gateway : Type := {
  ogw_version : Z; ogw_gateway_addr : gateway_address_id_type; ogw_asset_id : public_key; ogw_amount : Z;
  ogw_payment_id : Z
}.
Definition c_tx_out_gateway : codec tx_out_gateway :=
  c_iso
    (fun x => (ogw_version x, (ogw_gateway_addr x, (ogw_asset_id x, (ogw_amount x, ogw_payment_id x)))))
    (fun '(a0, (a1, (a2, (a3, a4)))) =>
      Build_tx_out_gateway a0 a1 a2 a3 a4)
    (c_version 0 ⊗ c_public_key ⊗ c_public_key ⊗ c_varint 64 ⊗ c_uint 8).
#[export] Instance rt_tx_out_gateway : RoundTrip c_tx_out_gateway.
Proof. apply rt_iso; apply _. Qed.
#[export] Instance ne_tx_out_gateway : NonEmpty c_tx_out_gateway.
Proof. apply ne_iso; apply _. Qed.

Record tx_out_zarcanum : Type := {
  oz_version : Z; oz_stealth_address : public_key; oz_concealing_point : public_key;
  oz_amount_commitment : public_key; oz_blinded_asset_id : public_key; oz_encrypted_amount : Z;
  oz_encrypted_payment_id : Z; oz_mix_attr : Z
}.
Definition c_tx_out_zarcanum : codec tx_out_zarcanum :=
  c_iso
    (fun x => (oz_version x, (oz_stealth_address x, (oz_concealing_point x, (oz_amount_commitment x,
      (oz_blinded_asset_id x, (oz_encrypted_amount x, (oz_encrypted_payment_id x, oz_mix_attr x))))))))
    (fun '(a0, (a1, (a2, (a3, (a4, (a5, (a6, a7))))))) =>
      Build_tx_out_zarcanum a0 a1 a2 a3 a4 a5 a6 a7)
    (c_version 0 ⊗ c_public_key ⊗ c_public_key ⊗ c_public_key ⊗ c_public_key ⊗ c_uint 8 ⊗ c_uint 8 ⊗
     c_uint 1).
#[export] Instance rt_tx_out_zarcanum : RoundTrip c_tx_out_zarcanum.
Proof. apply rt_iso; apply _. Qed.
#[export] Instance ne_tx_out_zarcanum : NonEmpty c_tx_out_zarcanum.
Proof. apply ne_iso; apply _. Qed.

Inductive tx_out_v : Type :=
| out_bare (x : tx_out_bare)
| out_zarcanum (x : tx_out_zarcanum)
| out_gateway (x : tx_out_gateway).

Definition c_tx_out_v_alternatives : alternatives tx_out_v :=
  alt 36 out_bare (fun v => match v with out_bare x => Some x | _ => None end) c_tx_out_bare (
  alt 63 out_zarcanum (fun v => match v with out_zarcanum x => Some x | _ => None end) c_tx_out_zarcanum (
  alt 66 out_gateway (fun v => match v with out_gateway x => Some x | _ => None end) c_tx_out_gateway (
  alt_end))).
Definition c_tx_out_v : codec tx_out_v := c_variant c_tx_out_v_alternatives.
#[export] Instance rt_tx_out_v : RoundTrip c_tx_out_v.
Proof. apply rt_variant; [alternatives_law|by vm_compute..]. Qed.

(** ** Payloads of the extra and of the attachments *)

Record tx_crypto_checksum : Type := {
  tcc_encrypted_key_derivation : key_derivation; tcc_derivation_hash : Z
}.
Definition c_tx_crypto_checksum : codec tx_crypto_checksum :=
  c_iso
    (fun x => (tcc_encrypted_key_derivation x, tcc_derivation_hash x))
    (fun '(a0, a1) =>
      Build_tx_crypto_checksum a0 a1)
    (c_key_derivation ⊗ c_uint 4).
#[export] Instance rt_tx_crypto_checksum : RoundTrip c_tx_crypto_checksum.
Proof. apply rt_iso; apply _. Qed.
#[export] Instance ne_tx_crypto_checksum : NonEmpty c_tx_crypto_checksum.
Proof. apply ne_iso; apply _. Qed.

Record tx_service_attachment : Type := {
  tsa_service_id : list Z; tsa_instruction : list Z; tsa_body : list Z; tsa_security : list public_key;
  tsa_flags : Z
}.
Definition c_tx_service_attachment : codec tx_service_attachment :=
  c_iso
    (fun x => (tsa_service_id x, (tsa_instruction x, (tsa_body x, (tsa_security x, tsa_flags x)))))
    (fun '(a0, (a1, (a2, (a3, a4)))) =>
      Build_tx_service_attachment a0 a1 a2 a3 a4)
    (c_string ⊗ c_string ⊗ c_string ⊗ c_vector c_public_key ⊗ c_uint 1).
#[export] Instance rt_tx_service_attachment : RoundTrip c_tx_service_attachment.
Proof. apply rt_iso; apply _. Qed.
#[export] Instance ne_tx_service_attachment : NonEmpty c_tx_service_attachment.
Proof. apply ne_iso; apply _. Qed.

Record extra_alias_entry_old : Type := {
  aeo_m_alias : list Z; aeo_m_address : account_public_address_old; aeo_m_text_comment : list Z;
  aeo_m_view_key : list secret_key; aeo_m_sign : list signature
}.
Definition c_extra_alias_entry_old : codec extra_alias_entry_old :=
  c_iso
    (fun x => (aeo_m_alias x, (aeo_m_address x, (aeo_m_text_comment x, (aeo_m_view_key x,
      aeo_m_sign x)))))
    (fun '(a0, (a1, (a2, (a3, a4)))) =>
      Build_extra_alias_entry_old a0 a1 a2 a3 a4)
    (c_string ⊗ c_account_public_address_old ⊗ c_string ⊗ c_vector c_secret_key ⊗ c_vector c_signature).
#[export] Instance rt_extra_alias_entry_old : RoundTrip c_extra_alias_entry_old.
Proof. apply rt_iso; apply _. Qed.
#[export] Instance ne_extra_alias_entry_old : NonEmpty c_extra_alias_entry_old.
Proof. apply ne_iso; apply _. Qed.

Record extra_alias_entry : Type := {
  ae_m_alias : list Z; ae_m_address : account_public_address; ae_m_text_comment : list Z;
  ae_m_view_key : list secret_key; ae_m_sign : list signature
}.
Definition c_extra_alias_entry : codec extra_alias_entry :=
  c_iso
    (fun x => (ae_m_alias x, (ae_m_address x, (ae_m_text_comment x, (ae_m_view_key x, ae_m_sign x)))))
    (fun '(a0, (a1, (a2, (a3, a4)))) =>
      Build_extra_alias_entry a0 a1 a2 a3 a4)
    (c_string ⊗ c_account_public_address ⊗ c_string ⊗ c_vector c_secret_key ⊗ c_vector c_signature).
#[export] Instance rt_extra_alias_entry : RoundTrip c_extra_alias_entry.
Proof. apply rt_iso; apply _. Qed.
#[export] Instance ne_extra_alias_entry : NonEmpty c_extra_alias_entry.
Proof. apply ne_iso; apply _. Qed.

(** [boost::variant<dummy>]: the tag of [dummy] and nothing else. *)
Inductive dummy_v : Type :=
| dummy_etc (x : unit).
Definition c_dummy_alternatives : alternatives dummy_v :=
  alt 62 dummy_etc (fun v => match v with dummy_etc x => Some x end) c_unit alt_end.
Definition c_dummy_v : codec dummy_v := c_variant c_dummy_alternatives.
#[export] Instance rt_dummy_v : RoundTrip c_dummy_v.
Proof. apply rt_variant; [alternatives_law|by vm_compute..]. Qed.

(** [END_VERSION_UNDER(1)] and [(2)] leave the last two members as they were
    initialised. *)
Record asset_descriptor_base : Type := { adb_version : Z; adb_total_max_supply : Z; adb_current_supply : Z;
    adb_decimal_point : Z; adb_ticker : list Z; adb_full_name : list Z; adb_meta_info : list Z; adb_owner :
    public_key; adb_hidden_supply : bool; adb_owner_eth_pub_key : option eth_public_key; adb_etc : list
    dummy_v }.
Definition c_asset_descriptor_base : codec asset_descriptor_base :=
  c_iso (fun x => (adb_version x, (adb_total_max_supply x, (adb_current_supply x, (adb_decimal_point x,
    (adb_ticker x, (adb_full_name x, (adb_meta_info x, (adb_owner x, (adb_hidden_supply x,
    (adb_owner_eth_pub_key x, adb_etc x)))))))))))
    (fun '(v, (a0, (a1, (a2, (a3, (a4, (a5, (a6, (a7, (a8, a9)))))))))) => Build_asset_descriptor_base v a0 a1 a2 a3 a4 a5 a6 a7 a8 a9)
    (c_dep (c_version 2) (fun version =>
      c_uint 8 ⊗ c_uint 8 ⊗ c_uint 1 ⊗ c_string ⊗ c_string ⊗ c_string ⊗ c_public_key ⊗ c_bool
      ⊗ (if version <? 1 then c_default (fun o => match o with None => true | Some _ => false end) None
         else c_optional c_eth_public_key)
      ⊗ (if version <? 2 then c_default (fun l => match l with [] => true | _ => false end) []
         else c_vector c_dummy_v))).
#[export] Instance rt_asset_descriptor_base : RoundTrip c_asset_descriptor_base.
Proof. apply rt_iso; [apply _|]. apply rt_dep; [apply _|]. intros v. repeat apply rt_pair; apply _. Qed.
#[export] Instance ne_asset_descriptor_base : NonEmpty c_asset_descriptor_base.
Proof. apply ne_iso, ne_dep; apply _. Qed.

(** *** Asset operations

    Versions 0 and 1 are written and read as [asset_descriptor_operation_v1],
    whose own [verion] member is not serialized and stays 1. *)

Record asset_descriptor_operation_v1 : Type := { adv1_operation_type : Z; adv1_descriptor : asset_descriptor_base;
  adv1_amount_commitment : public_key; adv1_opt_asset_id : option public_key }.
Definition c_asset_descriptor_operation_v1 : codec asset_descriptor_operation_v1 :=
  c_iso (fun x => (adv1_operation_type x, (adv1_descriptor x, (adv1_amount_commitment x, adv1_opt_asset_id x))))
    (fun '(a0, (a1, (a2, a3))) => Build_asset_descriptor_operation_v1 a0 a1 a2 a3)
    (c_uint 1 ⊗ c_asset_descriptor_base ⊗ c_public_key ⊗ c_optional c_public_key).
#[export] Instance rt_asset_descriptor_operation_v1 : RoundTrip c_asset_descriptor_operation_v1.
Proof. apply rt_iso; apply _. Qed.

Record asset_descriptor_operation : Type := { ado_operation_type : Z; ado_version : Z;
  ado_opt_amount_commitment : option public_key; ado_opt_asset_id : option public_key;
  ado_opt_descriptor : option asset_descriptor_base; ado_opt_amount : option Z; ado_opt_asset_id_salt : option Z;
  ado_etc : list dummy_v }.

Definition ASSET_DESCRIPTOR_OPERATION_HF4_VER : Z := 1.

(** [transition_convert] to the old type; [None] is one of its exceptions. *)
Definition ado_to_v1 (from : asset_descriptor_operation) : option asset_descriptor_operation_v1 :=
  descriptor ← ado_opt_descriptor from;
  let amount_commitment := match ado_opt_amount_commitment from with Some c => c | None => null_pkey end in
  match ado_opt_amount from, ado_etc from with
  | None, [] => Some (Build_asset_descriptor_operation_v1 (ado_operation_type from) descriptor amount_commitment
                        (ado_opt_asset_id from))
  | _, _ => None
  end.

(** [transition_convert] from the old type. *)
Definition ado_from_v1 (from : asset_descriptor_operation_v1) : asset_descriptor_operation :=
  Build_asset_descriptor_operation (adv1_operation_type from) ASSET_DESCRIPTOR_OPERATION_HF4_VER
    (Some (adv1_amount_commitment from)) (adv1_opt_asset_id from) (Some (adv1_descriptor from)) None None [].

(** What the old format carries: version 1, with a commitment and no salt. *)
Definition ado_is_v1 (x : asset_descriptor_operation) : bool :=
  (ado_version x =? ASSET_DESCRIPTOR_OPERATION_HF4_VER) &&
  match ado_opt_amount_commitment x, ado_opt_asset_id_salt x with Some _, None => true | _, _ => false end.

#[export] Instance conv_ado : Conv ado_to_v1 ado_from_v1 ado_is_v1.
Proof.
  intros [op ver oac oai od oam salt etc] [] H E. unfold ado_is_v1, ado_to_v1, ado_from_v1 in *. cbn in *.
  apply andb_prop in H as [Hv H]. zbool. subst. destruct oac, salt, od, oam, etc; try done. cbn in E. by simplify_eq.
Qed.

(** The fields of the current format, with the version already read. *)
Definition c_ado_fields (version : Z) : codec asset_descriptor_operation :=
  c_iso (fun x => (ado_version x, (ado_operation_type x, (ado_opt_amount_commitment x, (ado_opt_asset_id x,
           (ado_opt_descriptor x, (ado_opt_amount x, (ado_opt_asset_id_salt x, ado_etc x))))))))
    (fun '(v, (a0, (a1, (a2, (a3, (a4, (a5, a6))))))) => Build_asset_descriptor_operation a0 v a1 a2 a3 a4 a5 a6)
    (c_default (fun v => v =? version) version ⊗ c_uint 1 ⊗ c_optional c_public_key ⊗ c_optional c_public_key ⊗
     c_optional c_asset_descriptor_base ⊗ c_optional (c_uint 8) ⊗ c_optional (c_uint 4) ⊗ c_vector c_dummy_v).

Definition c_asset_descriptor_operation : codec asset_descriptor_operation :=
  c_iso (fun x => (ado_version x, x)) snd
    (c_dep (c_version 2) (fun version =>
      if (version =? 0) || (version =? 1) then c_conv ado_to_v1 ado_from_v1 ado_is_v1 c_asset_descriptor_operation_v1
      else c_ado_fields version)).
#[export] Instance rt_asset_descriptor_operation : RoundTrip c_asset_descriptor_operation.
Proof.
  apply rt_iso; [done|]. apply rt_dep; [apply _|]. intros v. apply rt_if; [apply _|].
  apply rt_iso; apply _.
Qed.

(** *** Gateway address operations *)

Record gateway_address_descriptor_base : Type := {
  gadb_version : Z; gadb_owner_key : gateway_owner_key_v; gadb_etc : list dummy_v;
  gadb_meta_info : list Z
}.
Definition c_gateway_address_descriptor_base : codec gateway_address_descriptor_base :=
  c_iso
    (fun x => (gadb_version x, (gadb_owner_key x, (gadb_etc x, gadb_meta_info x))))
    (fun '(a0, (a1, (a2, a3))) =>
      Build_gateway_address_descriptor_base a0 a1 a2 a3)
    (c_version 0 ⊗ c_gateway_owner_key_v ⊗ c_vector c_dummy_v ⊗ c_string).
#[export] Instance rt_gateway_address_descriptor_base : RoundTrip c_gateway_address_descriptor_base.
Proof. apply rt_iso; apply _. Qed.
#[export] Instance ne_gateway_address_descriptor_base : NonEmpty c_gateway_address_descriptor_base.
Proof. apply ne_iso; apply _. Qed.

Record gateway_address_descriptor_operation_register : Type := {
  gar_version : Z; gar_view_pub_key : public_key; gar_descriptor : gateway_address_descriptor_base
}.
Definition c_gateway_address_descriptor_operation_register : codec gateway_address_descriptor_operation_register :=
  c_iso
    (fun x => (gar_version x, (gar_view_pub_key x, gar_descriptor x)))
    (fun '(a0, (a1, a2)) =>
      Build_gateway_address_descriptor_operation_register a0 a1 a2)
    (c_version 0 ⊗ c_public_key ⊗ c_gateway_address_descriptor_base).
#[export] Instance rt_gateway_address_descriptor_operation_register : RoundTrip c_gateway_address_descriptor_operation_register.
Proof. apply rt_iso; apply _. Qed.
#[export] Instance ne_gateway_address_descriptor_operation_register : NonEmpty c_gateway_address_descriptor_operation_register.
Proof. apply ne_iso; apply _. Qed.

Record gateway_address_descriptor_operation_update : Type := {
  gau_version : Z; gau_address_id : gateway_address_id_type;
  gau_descriptor : gateway_address_descriptor_base
}.
Definition c_gateway_address_descriptor_operation_update : codec gateway_address_descriptor_operation_update :=
  c_iso
    (fun x => (gau_version x, (gau_address_id x, gau_descriptor x)))
    (fun '(a0, (a1, a2)) =>
      Build_gateway_address_descriptor_operation_update a0 a1 a2)
    (c_version 0 ⊗ c_public_key ⊗ c_gateway_address_descriptor_base).
#[export] Instance rt_gateway_address_descriptor_operation_update : RoundTrip c_gateway_address_descriptor_operation_update.
Proof. apply rt_iso; apply _. Qed.
#[export] Instance ne_gateway_address_descriptor_operation_update : NonEmpty c_gateway_address_descriptor_operation_update.
Proof. apply ne_iso; apply _. Qed.

Inductive gateway_address_descriptor_operation_v : Type :=
| ga_register (x : gateway_address_descriptor_operation_register)
| ga_update (x : gateway_address_descriptor_operation_update).

Definition c_gateway_address_descriptor_operation_v_alternatives : alternatives gateway_address_descriptor_operation_v :=
  alt 74 ga_register (fun v => match v with ga_register x => Some x | _ => None end) c_gateway_address_descriptor_operation_register (
  alt 75 ga_update (fun v => match v with ga_update x => Some x | _ => None end) c_gateway_address_descriptor_operation_update (
  alt_end)).
Definition c_gateway_address_descriptor_operation_v : codec gateway_address_descriptor_operation_v := c_variant c_gateway_address_descriptor_operation_v_alternatives.
#[export] Instance rt_gateway_address_descriptor_operation_v : RoundTrip c_gateway_address_descriptor_operation_v.
Proof. apply rt_variant; [alternatives_law|by vm_compute..]. Qed.

Record gateway_address_descriptor_operation : Type := {
  gado_version : Z; gado_operation : gateway_address_descriptor_operation_v
}.
Definition c_gateway_address_descriptor_operation : codec gateway_address_descriptor_operation :=
  c_iso
    (fun x => (gado_version x, gado_operation x))
    (fun '(a0, a1) =>
      Build_gateway_address_descriptor_operation a0 a1)
    (c_version 0 ⊗ c_gateway_address_descriptor_operation_v).
#[export] Instance rt_gateway_address_descriptor_operation : RoundTrip c_gateway_address_descriptor_operation.
Proof. apply rt_iso; apply _. Qed.
#[export] Instance ne_gateway_address_descriptor_operation : NonEmpty c_gateway_address_descriptor_operation.
Proof. apply ne_iso; apply _. Qed.

(** *** The payload variant, the type of [extra_v] and [attachment_v] *)

Inductive payload_items_v : Type :=
| P_tx_service_attachment (x : tx_service_attachment)
| P_tx_comment (x : list Z)
| P_tx_payer_old (x : account_public_address_old)
| P_tx_receiver_old (x : account_public_address_old)
| P_tx_derivation_hint (x : list Z)
| P_string (x : list Z)
| P_tx_crypto_checksum (x : tx_crypto_checksum)
| P_etc_tx_time (x : Z)
| P_etc_tx_details_unlock_time (x : Z)
| P_etc_tx_details_expiration_time (x : Z)
| P_etc_tx_details_flags (x : Z)
| P_public_key (x : public_key)
| P_extra_attachment_info (x : extra_attachment_info)
| P_extra_alias_entry_old (x : extra_alias_entry_old)
| P_extra_user_data (x : list Z)
| P_extra_padding (x : list Z)
| P_etc_tx_flags16_t (x : Z)
| P_etc_tx_details_unlock_time2 (x : list Z)
| P_tx_payer (x : account_public_address)
| P_tx_receiver (x : account_public_address)
| P_extra_alias_entry (x : extra_alias_entry)
| P_zarcanum_tx_data_v1 (x : Z)
| P_asset_descriptor_operation (x : asset_descriptor_operation)
| P_gateway_address_descriptor_operation (x : gateway_address_descriptor_operation)
| P_etc_coinbase_block_cumulative_size (x : Z).

Definition c_payload_items_v_alternatives : alternatives payload_items_v :=
  alt 12 P_tx_service_attachment (fun v => match v with P_tx_service_attachment x => Some x | _ => None end) c_tx_service_attachment (
  alt 7 P_tx_comment (fun v => match v with P_tx_comment x => Some x | _ => None end) c_string (
  alt 8 P_tx_payer_old (fun v => match v with P_tx_payer_old x => Some x | _ => None end) c_account_public_address_old (
  alt 29 P_tx_receiver_old (fun v => match v with P_tx_receiver_old x => Some x | _ => None end) c_account_public_address_old (
  alt 11 P_tx_derivation_hint (fun v => match v with P_tx_derivation_hint x => Some x | _ => None end) c_string (
  alt 9 P_string (fun v => match v with P_string x => Some x | _ => None end) c_string (
  alt 10 P_tx_crypto_checksum (fun v => match v with P_tx_crypto_checksum x => Some x | _ => None end) c_tx_crypto_checksum (
  alt 27 P_etc_tx_time (fun v => match v with P_etc_tx_time x => Some x | _ => None end) (c_varint 64) (
  alt 14 P_etc_tx_details_unlock_time (fun v => match v with P_etc_tx_details_unlock_time x => Some x | _ => None end) (c_varint 64) (
  alt 15 P_etc_tx_details_expiration_time (fun v => match v with P_etc_tx_details_expiration_time x => Some x | _ => None end) (c_varint 64) (
  alt 16 P_etc_tx_details_flags (fun v => match v with P_etc_tx_details_flags x => Some x | _ => None end) (c_varint 64) (
  alt 22 P_public_key (fun v => match v with P_public_key x => Some x | _ => None end) c_public_key (
  alt 18 P_extra_attachment_info (fun v => match v with P_extra_attachment_info x => Some x | _ => None end) c_extra_attachment_info (
  alt 20 P_extra_alias_entry_old (fun v => match v with P_extra_alias_entry_old x => Some x | _ => None end) c_extra_alias_entry_old (
  alt 19 P_extra_user_data (fun v => match v with P_extra_user_data x => Some x | _ => None end) c_string (
  alt 21 P_extra_padding (fun v => match v with P_extra_padding x => Some x | _ => None end) (c_vector (c_uint 1)) (
  alt 23 P_etc_tx_flags16_t (fun v => match v with P_etc_tx_flags16_t x => Some x | _ => None end) (c_uint 2) (
  alt 30 P_etc_tx_details_unlock_time2 (fun v => match v with P_etc_tx_details_unlock_time2 x => Some x | _ => None end) (c_vector (c_varint 64)) (
  alt 31 P_tx_payer (fun v => match v with P_tx_payer x => Some x | _ => None end) c_account_public_address (
  alt 32 P_tx_receiver (fun v => match v with P_tx_receiver x => Some x | _ => None end) c_account_public_address (
  alt 33 P_extra_alias_entry (fun v => match v with P_extra_alias_entry x => Some x | _ => None end) c_extra_alias_entry (
  alt 39 P_zarcanum_tx_data_v1 (fun v => match v with P_zarcanum_tx_data_v1 x => Some x | _ => None end) (c_uint 8) (
  alt 49 P_asset_descriptor_operation (fun v => match v with P_asset_descriptor_operation x => Some x | _ => None end) c_asset_descriptor_operation (
  alt 73 P_gateway_address_descriptor_operation (fun v => match v with P_gateway_address_descriptor_operation x => Some x | _ => None end) c_gateway_address_descriptor_operation (
  alt 78 P_etc_coinbase_block_cumulative_size (fun v => match v with P_etc_coinbase_block_cumulative_size x => Some x | _ => None end) (c_varint 64) (
  alt_end))))))))))))))))))))))))).
Definition c_payload_items_v : codec payload_items_v := c_variant c_payload_items_v_alternatives.
#[export] Instance rt_payload_items_v : RoundTrip c_payload_items_v.
Proof. apply rt_variant; [alternatives_law|by vm_compute..]. Qed.

(** ** Signatures and proofs *)

Record ZC_sig : Type := {
  zcs_pseudo_out_amount_commitment : public_key; zcs_pseudo_out_blinded_asset_id : public_key;
  zcs_clsags_ggx : CLSAG_GGX_signature_serialized
}.
Definition c_ZC_sig : codec ZC_sig :=
  c_iso
    (fun x => (zcs_pseudo_out_amount_commitment x, (zcs_pseudo_out_blinded_asset_id x,
      zcs_clsags_ggx x)))
    (fun '(a0, (a1, a2)) =>
      Build_ZC_sig a0 a1 a2)
    (c_public_key ⊗ c_public_key ⊗ c_CLSAG_GGX_signature_serialized).
#[export] Instance rt_ZC_sig : RoundTrip c_ZC_sig.
Proof. apply rt_iso; apply _. Qed.
#[export] Instance ne_ZC_sig : NonEmpty c_ZC_sig.
Proof. apply ne_iso; apply _. Qed.

Record zarcanum_sig : Type := {
  zs_d : scalar_t; zs_C : public_key; zs_C_prime : public_key; zs_E : public_key; zs_c : scalar_t;
  zs_y0 : scalar_t; zs_y1 : scalar_t; zs_y2 : scalar_t; zs_y3 : scalar_t; zs_y4 : scalar_t;
  zs_E_range_proof : bppe_signature_serialized; zs_pseudo_out_amount_commitment : public_key;
  zs_clsag_ggxxg : CLSAG_GGXXG_signature_serialized
}.
Definition c_zarcanum_sig : codec zarcanum_sig :=
  c_iso
    (fun x => (zs_d x, (zs_C x, (zs_C_prime x, (zs_E x, (zs_c x, (zs_y0 x, (zs_y1 x, (zs_y2 x, (zs_y3 x,
      (zs_y4 x, (zs_E_range_proof x, (zs_pseudo_out_amount_commitment x, zs_clsag_ggxxg x)))))))))))))
    (fun '(a0, (a1, (a2, (a3, (a4, (a5, (a6, (a7, (a8, (a9, (a10, (a11, a12)))))))))))) =>
      Build_zarcanum_sig a0 a1 a2 a3 a4 a5 a6 a7 a8 a9 a10 a11 a12)
    (c_scalar_t ⊗ c_public_key ⊗ c_public_key ⊗ c_public_key ⊗ c_scalar_t ⊗ c_scalar_t ⊗ c_scalar_t ⊗
     c_scalar_t ⊗ c_scalar_t ⊗ c_scalar_t ⊗ c_bppe_signature_serialized ⊗ c_public_key ⊗
     c_CLSAG_GGXXG_signature_serialized).
#[export] Instance rt_zarcanum_sig : RoundTrip c_zarcanum_sig.
Proof. apply rt_iso; apply _. Qed.
#[export] Instance ne_zarcanum_sig : NonEmpty c_zarcanum_sig.
Proof. apply ne_iso; apply _. Qed.

Record gateway_sig : Type := {
  gws_version : Z; gws_s : gateway_owner_signature_v
}.
Definition c_gateway_sig : codec gateway_sig :=
  c_iso
    (fun x => (gws_version x, gws_s x))
    (fun '(a0, a1) =>
      Build_gateway_sig a0 a1)
    (c_version 0 ⊗ c_gateway_owner_signature_v).
#[export] Instance rt_gateway_sig : RoundTrip c_gateway_sig.
Proof. apply rt_iso; apply _. Qed.
#[export] Instance ne_gateway_sig : NonEmpty c_gateway_sig.
Proof. apply ne_iso; apply _. Qed.

Inductive signature_v : Type :=
| sig_NLSAG (x : list signature)
| sig_void (x : unit)
| sig_ZC (x : ZC_sig)
| sig_zarcanum (x : zarcanum_sig)
| sig_gateway (x : gateway_sig).

Definition c_signature_v_alternatives : alternatives signature_v :=
  alt 42 sig_NLSAG (fun v => match v with sig_NLSAG x => Some x | _ => None end) (c_vector c_signature) (
  alt 44 sig_void (fun v => match v with sig_void x => Some x | _ => None end) c_unit (
  alt 43 sig_ZC (fun v => match v with sig_ZC x => Some x | _ => None end) c_ZC_sig (
  alt 45 sig_zarcanum (fun v => match v with sig_zarcanum x => Some x | _ => None end) c_zarcanum_sig (
  alt 67 sig_gateway (fun v => match v with sig_gateway x => Some x | _ => None end) c_gateway_sig (
  alt_end))))).
Definition c_signature_v : codec signature_v := c_variant c_signature_v_alternatives.
#[export] Instance rt_signature_v : RoundTrip c_signature_v.
Proof. apply rt_variant; [alternatives_law|by vm_compute..]. Qed.

Record zc_outs_range_proof : Type := {
  zorp_bpp : bpp_signature_serialized; zorp_aggregation_proof : vector_UG_aggregation_proof_serialized
}.
Definition c_zc_outs_range_proof : codec zc_outs_range_proof :=
  c_iso
    (fun x => (zorp_bpp x, zorp_aggregation_proof x))
    (fun '(a0, a1) =>
      Build_zc_outs_range_proof a0 a1)
    (c_bpp_signature_serialized ⊗ c_vector_UG_aggregation_proof_serialized).
#[export] Instance rt_zc_outs_range_proof : RoundTrip c_zc_outs_range_proof.
Proof. apply rt_iso; apply _. Qed.
#[export] Instance ne_zc_outs_range_proof : NonEmpty c_zc_outs_range_proof.
Proof. apply ne_iso; apply _. Qed.

Record asset_operation_proof : Type := {
  aop_version : Z; aop_opt_amount_commitment_composition_proof : option linear_composition_proof_s;
  aop_opt_amount_commitment_g_proof : option signature
}.
Definition c_asset_operation_proof : codec asset_operation_proof :=
  c_iso
    (fun x => (aop_version x, (aop_opt_amount_commitment_composition_proof x,
      aop_opt_amount_commitment_g_proof x)))
    (fun '(a0, (a1, a2)) =>
      Build_asset_operation_proof a0 a1 a2)
    (c_version 0 ⊗ c_optional c_linear_composition_proof_s ⊗ c_optional c_signature).
#[export] Instance rt_asset_operation_proof : RoundTrip c_asset_operation_proof.
Proof. apply rt_iso; apply _. Qed.
#[export] Instance ne_asset_operation_proof : NonEmpty c_asset_operation_proof.
Proof. apply ne_iso; apply _. Qed.

Record asset_operation_ownership_proof : Type := {
  aoop_version : Z; aoop_gss : generic_schnorr_sig_s
}.
Definition c_asset_operation_ownership_proof : codec asset_operation_ownership_proof :=
  c_iso
    (fun x => (aoop_version x, aoop_gss x))
    (fun '(a0, a1) =>
      Build_asset_operation_ownership_proof a0 a1)
    (c_version 0 ⊗ c_generic_schnorr_sig_s).
#[export] Instance rt_asset_operation_ownership_proof : RoundTrip c_asset_operation_ownership_proof.
Proof. apply rt_iso; apply _. Qed.
#[export] Instance ne_asset_operation_ownership_proof : NonEmpty c_asset_operation_ownership_proof.
Proof. apply ne_iso; apply _. Qed.

Record asset_operation_ownership_proof_eth : Type := {
  aoope_version : Z; aoope_eth_sig : eth_signature
}.
Definition c_asset_operation_ownership_proof_eth : codec asset_operation_ownership_proof_eth :=
  c_iso
    (fun x => (aoope_version x, aoope_eth_sig x))
    (fun '(a0, a1) =>
      Build_asset_operation_ownership_proof_eth a0 a1)
    (c_version 0 ⊗ c_eth_signature).
#[export] Instance rt_asset_operation_ownership_proof_eth : RoundTrip c_asset_operation_ownership_proof_eth.
Proof. apply rt_iso; apply _. Qed.
#[export] Instance ne_asset_operation_ownership_proof_eth : NonEmpty c_asset_operation_ownership_proof_eth.
Proof. apply ne_iso; apply _. Qed.

Inductive proof_v : Type :=
| proof_asset_surjection (x : list BGE_proof_s)
| proof_outs_range (x : zc_outs_range_proof)
| proof_balance (x : generic_double_schnorr_sig_s)
| proof_asset_operation (x : asset_operation_proof)
| proof_asset_operation_ownership (x : asset_operation_ownership_proof)
| proof_asset_operation_ownership_eth (x : asset_operation_ownership_proof_eth)
| proof_gateway_address_ownership (x : gateway_address_ownership_proof)
| proof_gw_balance (x : generic_linear_composition_and_schnorr_sig_s).

Definition c_proof_v_alternatives : alternatives proof_v :=
  alt 46 proof_asset_surjection (fun v => match v with proof_asset_surjection x => Some x | _ => None end) (c_vector c_BGE_proof_s) (
  alt 47 proof_outs_range (fun v => match v with proof_outs_range x => Some x | _ => None end) c_zc_outs_range_proof (
  alt 48 proof_balance (fun v => match v with proof_balance x => Some x | _ => None end) c_generic_double_schnorr_sig_s (
  alt 50 proof_asset_operation (fun v => match v with proof_asset_operation x => Some x | _ => None end) c_asset_operation_proof (
  alt 51 proof_asset_operation_ownership (fun v => match v with proof_asset_operation_ownership x => Some x | _ => None end) c_asset_operation_ownership_proof (
  alt 52 proof_asset_operation_ownership_eth (fun v => match v with proof_asset_operation_ownership_eth x => Some x | _ => None end) c_asset_operation_ownership_proof_eth (
  alt 76 proof_gateway_address_ownership (fun v => match v with proof_gateway_address_ownership x => Some x | _ => None end) c_gateway_address_ownership_proof (
  alt 77 proof_gw_balance (fun v => match v with proof_gw_balance x => Some x | _ => None end) c_generic_linear_composition_and_schnorr_sig_s (
  alt_end)))))))).
Definition c_proof_v : codec proof_v := c_variant c_proof_v_alternatives.
#[export] Instance rt_proof_v : RoundTrip c_proof_v.
Proof. apply rt_variant; [alternatives_law|by vm_compute..]. Qed.

