(* ===== verification/Transactions.v ===== *)
(** * The transaction and block formats: [src/src/currency_core/currency_basic.h]

    The versioned layout of a transaction, the older layouts of
    [currency_basic_backward_comp.inl], and the round trip of whole blobs. *)

From S2P Require Import Prelude Config Varint Keccak Archive Pod CryptoTypes Basic.

(** ** Outputs before hard fork 6 *)

Record tx_out_zarcanum_v1 : Type := {
  oz1_stealth_address : public_key; oz1_concealing_point : public_key; oz1_amount_commitment : public_key;
  oz1_blinded_asset_id : public_key; oz1_encrypted_amount : Z; oz1_mix_attr : Z
}.
Definition c_tx_out_zarcanum_v1 : codec tx_out_zarcanum_v1 :=
  c_iso
    (fun x => (oz1_stealth_address x, (oz1_concealing_point x, (oz1_amount_commitment x,
      (oz1_blinded_asset_id x, (oz1_encrypted_amount x, oz1_mix_attr x))))))
    (fun '(a0, (a1, (a2, (a3, (a4, a5))))) => Build_tx_out_zarcanum_v1 a0 a1 a2 a3 a4 a5)
    (c_public_key ⊗ c_public_key ⊗ c_public_key ⊗ c_public_key ⊗ c_uint 8 ⊗ c_uint 1).
#[export] Instance rt_tx_out_zarcanum_v1 : RoundTrip c_tx_out_zarcanum_v1.
Proof. apply rt_iso; apply _. Qed.

Inductive tx_out_v_v1 : Type :=
| out1_bare (x : tx_out_bare)
| out1_zarcanum (x : tx_out_zarcanum_v1).

Definition c_tx_out_v_v1_alternatives : alternatives tx_out_v_v1 :=
  alt 36 out1_bare (fun v => match v with out1_bare x => Some x | _ => None end) c_tx_out_bare (
  alt 38 out1_zarcanum (fun v => match v with out1_zarcanum x => Some x | _ => None end) c_tx_out_zarcanum_v1
  alt_end).
Definition c_tx_out_v_v1 : codec tx_out_v_v1 := c_variant c_tx_out_v_v1_alternatives.
#[export] Instance rt_tx_out_v_v1 : RoundTrip c_tx_out_v_v1.
Proof. apply rt_variant; [alternatives_law|by vm_compute..]. Qed.

(** [transition_convert] of one output; [None] is an exception. *)
Definition zarcanum_to_v1 (from : tx_out_zarcanum) : option tx_out_zarcanum_v1 :=
  if negb (oz_encrypted_payment_id from =? 0) then None
  else if 0 <? oz_version from then None
  else Some (Build_tx_out_zarcanum_v1 (oz_stealth_address from) (oz_concealing_point from) (oz_amount_commitment from)
               (oz_blinded_asset_id from) (oz_encrypted_amount from) (oz_mix_attr from)).

Definition zarcanum_from_v1 (from : tx_out_zarcanum_v1) : tx_out_zarcanum :=
  Build_tx_out_zarcanum 0 (oz1_stealth_address from) (oz1_concealing_point from) (oz1_amount_commitment from)
    (oz1_blinded_asset_id from) (oz1_encrypted_amount from) 0 (oz1_mix_attr from).

Definition out_to_v1 (v : tx_out_v) : option tx_out_v_v1 :=
  match v with
  | out_zarcanum z => z1 ← zarcanum_to_v1 z; Some (out1_zarcanum z1)
  | out_bare b => Some (out1_bare b)
  | out_gateway _ => None
  end.

Definition out_from_v1 (v1 : tx_out_v_v1) : tx_out_v :=
  match v1 with
  | out1_zarcanum z1 => out_zarcanum (zarcanum_from_v1 z1)
  | out1_bare b => out_bare b
  end.

Definition outs_to_v1 (from : list tx_out_v) : option (list tx_out_v_v1) := mapM out_to_v1 from.
Definition outs_from_v1 (from : list tx_out_v_v1) : list tx_out_v := map out_from_v1 from.

(** The version of an output that goes through the old type must be 0. *)
Definition outs_are_v1 (from : list tx_out_v) : bool :=
  forallb (fun v => match v with out_zarcanum z => oz_version z =? 0 | _ => true end) from.

#[export] Instance conv_outs : Conv outs_to_v1 outs_from_v1 outs_are_v1.
Proof.
  intros b a H E. unfold outs_to_v1 in E. apply mapM_Some in E.
  unfold outs_from_v1. induction E as [|v v1 vs v1s E _ IH]; [done|]. cbn in *. apply andb_prop in H as [Hv H].
  rewrite IH by done. f_equal. clear -E Hv. destruct v as [ob|z|]; cbn in *; [by simplify_eq| |done].
  unfold zarcanum_to_v1 in E. destruct z as [ver ? ? ? ? ? pid ?]. cbn in *. zbool. subst.
  destruct (pid =? 0) eqn:Ep; [|done]. zbool. cbn in E. by simplify_eq.
Qed.

(** ** The prefix *)

Record transaction_prefix : Type := {
  tp_version : Z; tp_hardfork_id : Z; tp_vin : list txin_v; tp_extra : list payload_items_v; tp_vout : list tx_out_v
}.

(** The fields of [transaction_prefix_v1] in their order on the wire; its own
    [version] member is not serialized and stays 0. *)
Definition c_transaction_prefix_v1 : codec (list txin_v * (list tx_out_bare * list payload_items_v)) :=
  c_vector c_txin_v ⊗ c_vector c_tx_out_bare ⊗ c_vector c_payload_items_v.

Definition prefix_to_v1 (from : transaction_prefix) : option (list txin_v * (list tx_out_bare * list payload_items_v)) :=
  vout ← mapM (fun v => match v with out_bare b => Some b | _ => None end) (tp_vout from);
  Some (tp_vin from, (vout, tp_extra from)).

Definition prefix_from_v1 (version : Z) (from : list txin_v * (list tx_out_bare * list payload_items_v))
    : transaction_prefix :=
  let '(vin, (vout, extra)) := from in Build_transaction_prefix version 0 vin extra (map out_bare vout).

Definition prefix_is_v1 (version : Z) (p : transaction_prefix) : bool :=
  (tp_version p =? version) && (tp_hardfork_id p =? 0).

#[export] Instance conv_prefix version : Conv prefix_to_v1 (prefix_from_v1 version) (prefix_is_v1 version).
Proof.
  intros [ver hf vin extra vout] [vin' [bs extra']] H E. unfold prefix_is_v1, prefix_to_v1, prefix_from_v1 in *. cbn in *.
  zbool. subst. destruct (mapM _ vout) as [l|] eqn:El; [|done]. cbn in E. injection E as <- <- <-. f_equal.
  apply mapM_Some in El. induction El as [|v b vs bs Ev _ IH]; [done|]. cbn. rewrite IH. f_equal.
  destruct v; by simplify_eq.
Qed.

(** The layout from version 2 on, [version] being already read. *)
Definition c_prefix_fields (version : Z) : codec transaction_prefix :=
  c_iso
    (fun x => (tp_version x, (tp_vin x, (tp_extra x, (tp_vout x, tp_hardfork_id x)))))
    (fun '(a0, (a1, (a2, (a3, a4)))) => Build_transaction_prefix a0 a4 a1 a2 a3)
    (c_default (fun v => v =? version) version ⊗ c_vector c_txin_v ⊗ c_vector c_payload_items_v ⊗
     (if version <? TRANSACTION_VERSION_POST_HF6
      then c_conv outs_to_v1 outs_from_v1 outs_are_v1 (c_vector c_tx_out_v_v1)
      else c_vector c_tx_out_v) ⊗
     (if version <? TRANSACTION_VERSION_POST_HF5 then c_default (fun h => h =? 0) 0 else c_uint 1)).

Definition is_v1 (version : Z) : bool :=
  (version =? TRANSACTION_VERSION_INITAL) || (version =? TRANSACTION_VERSION_PRE_HF4).

Definition c_transaction_prefix : codec transaction_prefix :=
  c_iso (fun x => (tp_version x, x)) snd
    (c_dep (c_guard (fun v => v <=? CURRENT_TRANSACTION_VERSION) (c_varint 64)) (fun version =>
      if is_v1 version
      then c_conv prefix_to_v1 (prefix_from_v1 version) (prefix_is_v1 version) c_transaction_prefix_v1
      else c_prefix_fields version)).

#[export] Instance rt_transaction_prefix : RoundTrip c_transaction_prefix.
Proof.
  apply rt_iso; [done|]. apply rt_dep; [apply _|]. intros v. apply rt_if.
  - apply rt_conv; [apply _|]. apply rt_pair; apply _.
  - apply rt_iso; [apply _|]. repeat apply rt_pair; apply _.
Qed.

(** ** The transaction *)

Record transaction : Type := {
  tx_prefix : transaction_prefix; tx_attachment : list payload_items_v; tx_signatures : list signature_v;
  tx_proofs : list proof_v
}.

(** [transaction_v1]: the ring signatures, then the attachments. *)
Definition c_transaction_v1 : codec (list (list signature) * list payload_items_v) :=
  c_vector (c_vector c_signature) ⊗ c_vector c_payload_items_v.

Definition tail_to_v1 (from : list payload_items_v * (list signature_v * list proof_v))
    : option (list (list signature) * list payload_items_v) :=
  let '(attachment, (signatures, _)) := from in
  s ← mapM (fun s => match s with sig_NLSAG s => Some s | _ => None end) signatures;
  Some (s, attachment).

Definition tail_from_v1 (from : list (list signature) * list payload_items_v)
    : list payload_items_v * (list signature_v * list proof_v) :=
  let '(signatures, attachment) := from in (attachment, (map sig_NLSAG signatures, [])).

(** The old format has no proofs. *)
Definition tail_is_v1 (from : list payload_items_v * (list signature_v * list proof_v)) : bool :=
  match from with (_, (_, [])) => true | _ => false end.

#[export] Instance conv_tail : Conv tail_to_v1 tail_from_v1 tail_is_v1.
Proof.
  intros [att [sigs proofs]] [l att'] H E. unfold tail_to_v1, tail_from_v1, tail_is_v1 in *. destruct proofs; [|done].
  destruct (mapM _ sigs) as [l'|] eqn:El; [|done]. cbn in E. injection E as <- <-. do 2 f_equal.
  apply mapM_Some in El. induction El as [|v b vs bs Ev _ IH]; [done|]. cbn. rewrite IH. f_equal.
  destruct v; by simplify_eq.
Qed.

Definition c_transaction : codec transaction :=
  c_iso
    (fun x => (tx_prefix x, (tx_attachment x, (tx_signatures x, tx_proofs x))))
    (fun '(a0, (a1, (a2, a3))) => Build_transaction a0 a1 a2 a3)
    (c_dep c_transaction_prefix (fun p =>
      if is_v1 (tp_version p) then c_conv tail_to_v1 tail_from_v1 tail_is_v1 c_transaction_v1
      else c_vector c_payload_items_v ⊗ c_vector c_signature_v ⊗ c_vector c_proof_v)).

#[export] Instance rt_transaction : RoundTrip c_transaction.
Proof.
  apply rt_iso; [apply _|]. apply rt_dep; [apply _|]. intros p. apply rt_if.
  - apply rt_conv; [apply _|]. apply rt_pair; apply _.
  - repeat apply rt_pair; apply _.
Qed.

(** ** Blocks *)

Record block_header : Type := {
  bh_major_version : Z; bh_nonce : Z; bh_prev_id : hash; bh_minor_version : Z; bh_timestamp : Z; bh_flags : Z
}.
Definition c_block_header : codec block_header :=
  c_iso
    (fun x => (bh_major_version x, (bh_nonce x, (bh_prev_id x, (bh_minor_version x, (bh_timestamp x, bh_flags x))))))
    (fun '(a0, (a1, (a2, (a3, (a4, a5))))) => Build_block_header a0 a1 a2 a3 a4 a5)
    (c_guard (fun v => v <=? CURRENT_BLOCK_MAJOR_VERSION) (c_uint 1) ⊗ c_uint 8 ⊗ c_hash ⊗ c_varint 8 ⊗
     c_varint 64 ⊗ c_uint 1).
#[export] Instance rt_block_header : RoundTrip c_block_header.
Proof. apply rt_iso; apply _. Qed.

Record block : Type := { bl_header : block_header; bl_miner_tx : transaction; bl_tx_hashes : list hash }.
Definition c_block : codec block :=
  c_iso
    (fun x => (bl_header x, (bl_miner_tx x, bl_tx_hashes x)))
    (fun '(a0, (a1, a2)) => Build_block a0 a1 a2)
    (c_block_header ⊗ c_transaction ⊗ c_vector c_hash).
#[export] Instance rt_block : RoundTrip c_block.
Proof. apply rt_iso; apply _. Qed.

(** ** Round trips *)

(** The objects the format carries: the members within their widths, versions
    the code knows, and for the versions that go through an older structure
    nothing that this structure cannot hold. *)
Definition tx_ok (tx : transaction) : bool := ok c_transaction tx.
Definition block_ok (b : block) : bool := ok c_block b.

Definition tx_to_blob (tx : transaction) : option (list Z) := t_serializable_object_to_blob c_transaction tx.
Definition parse_and_validate_tx_from_blob (blob : list Z) : option transaction :=
  t_unserializable_object_from_blob c_transaction blob.
Definition block_to_blob (b : block) : option (list Z) := t_serializable_object_to_blob c_block b.
Definition parse_and_validate_block_from_blob (blob : list Z) : option block :=
  t_unserializable_object_from_blob c_block blob.

(** The id of a transaction hashes the blob of its prefix. *)
Definition get_transaction_prefix_hash (p : transaction_prefix) : option hash :=
  data ← t_serializable_object_to_blob c_transaction_prefix p; Some (cn_fast_hash data).

(** C36: transactions survive the wire.  Every transaction the format can carry,
    of any of the five versions, serializes to a byte string which parses back
    to the same transaction; so two different transactions never share a blob,
    hence never share the preimage of a transaction hash. *)
Theorem transaction_blob_round_trip tx : tx_ok tx = true ->
  exists blob, tx_to_blob tx = Some blob /\ bytes_ok blob /\
    parse_and_validate_tx_from_blob blob = Some tx /\
    (forall tx', tx_ok tx' = true -> tx_to_blob tx' = Some blob -> tx' = tx).
Proof.
  intros H. destruct (blob_round_trip c_transaction tx _ H) as (blob & E & B & P).
  exists blob. split; [done|]. split; [done|]. split; [done|]. intros tx' H' E'.
  destruct (blob_round_trip c_transaction tx' _ H') as (blob' & E2 & _ & P2). unfold tx_to_blob in *. congruence.
Qed.

(** blocks survive the wire: header, miner transaction and the hashes of
    the others. *)
Theorem block_blob_round_trip b : block_ok b = true ->
  exists blob, block_to_blob b = Some blob /\ bytes_ok blob /\
    parse_and_validate_block_from_blob blob = Some b /\
    (forall b', block_ok b' = true -> block_to_blob b' = Some blob -> b' = b).
Proof.
  intros H. destruct (blob_round_trip c_block b _ H) as (blob & E & B & P).
  exists blob. split; [done|]. split; [done|]. split; [done|]. intros b' H' E'.
  destruct (blob_round_trip c_block b' _ H') as (blob' & E2 & _ & P2). unfold block_to_blob in *. congruence.
Qed.

(** ** Concrete objects *)

Definition key_of (b : Z) : list Z := replicate 32 b.

(** A transaction of version 4 with inputs, outputs and extras of several
    kinds, and one of version 1 through the old layout. *)
Definition demo_tx_v4 : transaction := {|
  tx_prefix := {|
    tp_version := 4; tp_hardfork_id := 6;
    tp_vin := [in_zc (Build_txin_zc_input [ref_global_index 300; ref_id (Build_ref_by_id (key_of 1) 2)] (key_of 7) []);
               in_gateway (Build_txin_gateway 0 (key_of 2) (key_of 3) 1000)];
    tp_extra := [P_public_key (key_of 9); P_zarcanum_tx_data_v1 10000000000;
                 P_asset_descriptor_operation (Build_asset_descriptor_operation 1 2 (Some (key_of 4)) None
                   (Some (Build_asset_descriptor_base 2 100 50 12 (chars "ZABC") (chars "Zano ABC") [] (key_of 5) false None []))
                   (Some 50) (Some 17) [])];
    tp_vout := [out_zarcanum (Build_tx_out_zarcanum 0 (key_of 11) (key_of 12) (key_of 13) (key_of 14) 5 6 0);
                out_gateway (Build_tx_out_gateway 0 (key_of 2) (key_of 3) 999 77)] |};
  tx_attachment := [P_tx_comment (chars "hi")];
  tx_signatures := [sig_ZC (Build_ZC_sig (key_of 1) (key_of 2) (Build_CLSAG_GGX_signature_serialized (key_of 3) [key_of 4] [] (key_of 5) (key_of 6)));
                    sig_void tt];
  tx_proofs := [proof_balance (Build_generic_double_schnorr_sig_s (key_of 1) (key_of 2) (key_of 3))] |}.

Definition demo_tx_v1 : transaction := {|
  tx_prefix := {|
    tp_version := 1; tp_hardfork_id := 0;
    tp_vin := [in_gen 100]; tp_extra := [P_public_key (key_of 9); P_etc_tx_details_unlock_time 110];
    tp_vout := [out_bare (Build_tx_out_bare 1000000 (target_to_key (Build_txout_to_key (key_of 8) 0)))] |};
  tx_attachment := []; tx_signatures := [sig_NLSAG [replicate 64 1]]; tx_proofs := [] |}.

Definition demo_block : block := {|
  bl_header := {| bh_major_version := 3; bh_nonce := 42; bh_prev_id := key_of 1; bh_minor_version := 0;
                  bh_timestamp := 1700000000; bh_flags := 1 |};
  bl_miner_tx := demo_tx_v1; bl_tx_hashes := [key_of 21; key_of 22] |}.

Example transaction_blob_round_trip_witness :
  tx_ok demo_tx_v4 = true /\ (exists blob, tx_to_blob demo_tx_v4 = Some blob /\ parse_and_validate_tx_from_blob blob = Some demo_tx_v4) /\
  tx_ok demo_tx_v1 = true /\ (exists blob, tx_to_blob demo_tx_v1 = Some blob /\ parse_and_validate_tx_from_blob blob = Some demo_tx_v1).
Proof.
  split; [vm_compute; reflexivity|]. split; [|split; [vm_compute; reflexivity|]].
  - destruct (transaction_blob_round_trip demo_tx_v4) as (b & E & _ & P & _); [vm_compute; reflexivity|].
    exists b. split; [exact E|exact P].
  - destruct (transaction_blob_round_trip demo_tx_v1) as (b & E & _ & P & _); [vm_compute; reflexivity|].
    exists b. split; [exact E|exact P].
Defined.

Example block_blob_round_trip_witness :
  block_ok demo_block = true /\ exists blob, block_to_blob demo_block = Some blob /\ parse_and_validate_block_from_blob blob = Some demo_block.
Proof.
  split; [vm_compute; reflexivity|].
  destruct (block_blob_round_trip demo_block) as (b & E & _ & P & _); [vm_compute; reflexivity|].
  exists b. split; [exact E|exact P].
Defined.

(** ** Where the parser is not canonical *)

Definition demo_header_blob (timestamp : list Z) : list Z :=
  [3] ++ le_split 8 42 ++ key_of 1 ++ [0] ++ timestamp ++ [1].

Definition demo_header : block_header :=
  {| bh_major_version := 3; bh_nonce := 42; bh_prev_id := key_of 1; bh_minor_version := 0; bh_timestamp := 5; bh_flags := 1 |}.

(** The archive ignores the code of [read_varint]: a timestamp of [85 00],
    which the varint decoder refuses as non-canonical, is read as 5, so two
    blobs parse to the same header. *)
Lemma header_parse_not_canonical :
  t_unserializable_object_from_blob c_block_header (demo_header_blob [5]) = Some demo_header /\
  t_unserializable_object_from_blob c_block_header (demo_header_blob [0x85; 0]) = Some demo_header /\
  t_serializable_object_to_blob c_block_header demo_header = Some (demo_header_blob [5]) /\
  fst (fst (read_varint 64 [0x85; 0])) = -2.
Proof. by vm_compute. Qed.

(** An asset operation of version 1 with a salt loses the salt on the wire, and
    one of version 0 comes back as version 1. *)
Definition demo_ado (version : Z) (salt : option Z) : asset_descriptor_operation :=
  Build_asset_descriptor_operation 1 version (Some (key_of 4)) None
    (Some (Build_asset_descriptor_base 0 100 50 12 (chars "ZABC") (chars "Zano ABC") [] (key_of 5) false None [])) None salt [].

Lemma ado_v1_drops_salt :
  exists blob, t_serializable_object_to_blob c_asset_descriptor_operation (demo_ado 1 (Some 17)) = Some blob /\
    t_unserializable_object_from_blob c_asset_descriptor_operation blob = Some (demo_ado 1 None).
Proof. eexists. split; [vm_compute; reflexivity|]. by vm_compute. Qed.

Lemma ado_v0_becomes_v1 :
  exists blob, t_serializable_object_to_blob c_asset_descriptor_operation (demo_ado 0 None) = Some blob /\
    t_unserializable_object_from_blob c_asset_descriptor_operation blob = Some (demo_ado 1 None).
Proof. eexists. split; [vm_compute; reflexivity|]. by vm_compute. Qed.

(** The second copy of the version of a gateway input is read without the
    check of the first, so the parser builds inputs the writer refuses. *)
Lemma gateway_version_unchecked :
  exists blob x, t_unserializable_object_from_blob c_txin_gateway blob = Some x /\ tgw_version x = 7 /\
    t_serializable_object_to_blob c_txin_gateway x = None.
Proof.
  exists ([0] ++ key_of 2 ++ key_of 3 ++ [100; 7]), (Build_txin_gateway 7 (key_of 2) (key_of 3) 100).
  by vm_compute.
Qed.
