(* ===== verification/BlockId.v ===== *)
(** * Block ids: [src/src/currency_core/currency_format_utils_blocks.cpp]

    The id of a block hashes its header, the root of the tree of its
    transaction ids and their number. *)

From S2P Require Import Prelude Keccak Varint TreeHash Archive Pod CryptoTypes Basic Transactions.

(** ** The id

    A failed serialization leaves an empty blob, and [tree_hash] writes nothing
    for no hash, which [null_hash] then stands for. *)

Definition get_transaction_hash (t : transaction) : hash :=
  cn_fast_hash (default [] (t_serializable_object_to_blob c_transaction_prefix (tx_prefix t))).

Definition get_tx_tree_hash (tx_hashes : list hash) : hash := default null_hash (crypto_tree_hash tx_hashes).

Definition block_tree_hash (b : block) : hash := get_tx_tree_hash (get_transaction_hash (bl_miner_tx b) :: bl_tx_hashes b).

Definition get_block_hashing_blob (b : block) : list Z :=
  default [] (t_serializable_object_to_blob c_block_header (bl_header b)) ++ block_tree_hash b ++
  default [] (get_varint_data (u64 (Z.of_nat (List.length (bl_tx_hashes b)) + 1))).

(** [get_object_hash] serializes the blob, which is a string: its length
    comes first. *)
Definition get_block_hash (b : block) : hash :=
  cn_fast_hash (default [] (t_serializable_object_to_blob c_string (get_block_hashing_blob b))).

(** ** Collisions in a hash tree

    The strings hashed by the computation of a root. *)

Section trees.
Context (H : list Z -> list Z).
Hypothesis H_length : forall x, List.length (H x) = 32%nat.

Abbreviation hashes32 := (Forall (fun h => List.length h = 32%nat)).

Fixpoint tree_nodes (k : nat) (l : list hash) : list (list Z) :=
  match k with
  | O => []
  | S k =>
      (merkle H k (take (2 ^ k) l) ++ merkle H k (drop (2 ^ k) l)) ::
      tree_nodes k (take (2 ^ k) l) ++ tree_nodes k (drop (2 ^ k) l)
  end.

Fixpoint pair_nodes (l : list hash) : list (list Z) :=
  match l with a :: b :: l => (a ++ b) :: pair_nodes l | _ => [] end.

(** Two different strings, one of each list, with the same hash. *)
Definition collision (xs ys : list (list Z)) : Prop :=
  exists x y, x ∈ xs /\ y ∈ ys /\ x <> y /\ H x = H y.

Lemma collision_mono xs ys xs' ys' : xs ⊆ xs' -> ys ⊆ ys' -> collision xs ys -> collision xs' ys'.
Proof. intros Hx Hy (x & y & ? & ? & ? & ?). exists x, y. auto. Qed.

(** Equal hashes of two strings: the strings are equal or a collision. *)
Lemma same_or_collision x y xs ys : x ∈ xs -> y ∈ ys -> H x = H y -> x = y \/ collision xs ys.
Proof. intros Hx Hy E. destruct (decide (x = y)); [by left|]. right. by exists x, y. Qed.

Lemma app_split (a b a' b' : list Z) : List.length a = List.length a' -> a ++ b = a' ++ b' -> a = a' /\ b = b'.
Proof. intros Hl E. by apply app_inj_1 in E. Qed.

Lemma merkle_length k l : hashes32 l -> List.length l = (2 ^ k)%nat -> List.length (merkle H k l) = 32%nat.
Proof.
  destruct k as [|k]; [|intros; apply H_length]. intros Hl E. destruct l as [|h [|]]; [done| |done].
  by apply Forall_inv in Hl.
Qed.

Lemma merkle_binding k l l' : hashes32 l -> hashes32 l' ->
  List.length l = (2 ^ k)%nat -> List.length l' = (2 ^ k)%nat -> merkle H k l = merkle H k l' ->
  l = l' \/ collision (tree_nodes k l) (tree_nodes k l').
Proof.
  revert l l'. induction k as [|k IH]; intros l l' Hl Hl' E E' Hr.
  { left. destruct l as [|h [|]], l' as [|h' [|]]; try done. cbn in Hr. by subst. }
  cbn [merkle] in Hr. rewrite Nat.pow_succ_r' in E, E'.
  assert (Hn : forall m : list hash, hashes32 m -> List.length m = (2 * 2 ^ k)%nat ->
    hashes32 (take (2 ^ k) m) /\ hashes32 (drop (2 ^ k) m) /\
    List.length (take (2 ^ k) m) = (2 ^ k)%nat /\ List.length (drop (2 ^ k) m) = (2 ^ k)%nat).
  { intros m Hm Em. rewrite length_take, length_drop. repeat split; [by apply Forall_take|by apply Forall_drop|lia..]. }
  destruct (Hn l Hl E) as (T1 & D1 & T2 & D2), (Hn l' Hl' E') as (T1' & D1' & T2' & D2').
  cbn [tree_nodes].
  destruct (same_or_collision _ _ (tree_nodes (S k) l) (tree_nodes (S k) l')
              ltac:(by left) ltac:(by left) Hr) as [Hs|Hc]; [|by right].
  apply app_split in Hs as [Ht Hd]; [|by rewrite !merkle_length].
  destruct (IH _ _ T1 T1' T2 T2' Ht) as [Htt|Hc].
  - destruct (IH _ _ D1 D1' D2 D2' Hd) as [Hdd|Hc].
    + left. by rewrite <- (take_drop (2 ^ k) l), <- (take_drop (2 ^ k) l'), Htt, Hdd.
    + right. revert Hc. apply collision_mono; intros x Hx; right; apply elem_of_app; by right.
  - right. revert Hc. apply collision_mono; intros x Hx; right; apply elem_of_app; by left.
Qed.

Lemma pairs_binding n l l' : hashes32 l -> hashes32 l' ->
  List.length l = (2 * n)%nat -> List.length l' = (2 * n)%nat -> pairs H l = pairs H l' ->
  l = l' \/ collision (pair_nodes l) (pair_nodes l').
Proof.
  revert l l'. induction n as [|n IH]; intros l l' Hl Hl' E E' Hp.
  { left. by destruct l, l'. }
  destruct l as [|a [|b l]], l' as [|a' [|b' l']]; cbn [List.length] in *; try lia.
  cbn [pairs pair_nodes] in *. injection Hp as Hh Hp.
  apply Forall_cons in Hl as [Ha Hl], Hl' as [Ha' Hl']. apply Forall_cons in Hl as [Hb Hl], Hl' as [Hb' Hl'].
  destruct (same_or_collision (a ++ b) (a' ++ b') ((a ++ b) :: pair_nodes l) ((a' ++ b') :: pair_nodes l')
              ltac:(by left) ltac:(by left) Hh) as [Hs|Hc]; [|by right].
  apply app_split in Hs as [-> ->]; [|congruence].
  destruct (IH l l' Hl Hl' ltac:(lia) ltac:(lia) Hp) as [->|Hc]; [by left|right].
  revert Hc. apply collision_mono; intros x Hx; by right.
Qed.

Lemma pairs_hashes n l : List.length l = (2 * n)%nat -> hashes32 (pairs H l).
Proof.
  revert l. induction n as [|n IH]; intros l E; [by destruct l|].
  destruct l as [|a [|b l]]; cbn [List.length] in E; [lia..|]. cbn [pairs]. constructor; [apply H_length|].
  apply IH. lia.
Qed.

(** The strings hashed for the root of [hashes]: those that pair the last
    ones, and those of the levels above. *)
Definition root_nodes (k : nat) (hashes : list hash) : list (list Z) :=
  pair_nodes (drop (2 * 2 ^ k - List.length hashes) hashes) ++ tree_nodes k (leaves H k hashes).

Lemma root_binding k hashes hashes' : hashes32 hashes -> hashes32 hashes' ->
  List.length hashes = List.length hashes' -> (2 ^ k < List.length hashes <= 2 * 2 ^ k)%nat ->
  merkle H k (leaves H k hashes) = merkle H k (leaves H k hashes') ->
  hashes = hashes' \/ collision (root_nodes k hashes) (root_nodes k hashes').
Proof.
  intros Hh Hh' El Hk Hm.
  set (p := (2 * 2 ^ k - List.length hashes)%nat).
  assert (Hfacts : forall m : list hash, hashes32 m -> List.length m = List.length hashes ->
    leaves H k m = take p m ++ pairs H (drop p m) /\ List.length (take p m) = p /\
    hashes32 (leaves H k m) /\ List.length (leaves H k m) = (2 ^ k)%nat /\ hashes32 (drop p m) /\
    List.length (drop p m) = (2 * (2 ^ k - p))%nat).
  { intros m Hm' Em. assert (Hd : List.length (drop p m) = (2 * (2 ^ k - p))%nat) by (rewrite length_drop; lia).
    assert (E : leaves H k m = take p m ++ pairs H (drop p m)) by (unfold leaves; by rewrite Em).
    rewrite E. repeat split; [rewrite length_take; lia| | |by apply Forall_drop|done].
    - apply Forall_app. split; [by apply Forall_take|by eapply pairs_hashes].
    - rewrite length_app, length_take, (pairs_length _ _ _ Hd). lia. }
  destruct (Hfacts hashes Hh eq_refl) as (E1 & E2 & E3 & E4 & E5 & E6),
    (Hfacts hashes' Hh' (eq_sym El)) as (E1' & E2' & E3' & E4' & E5' & E6').
  unfold root_nodes. rewrite <- El. fold p.
  destruct (merkle_binding k _ _ E3 E3' E4 E4' Hm) as [Hl|Hc].
  - rewrite E1, E1' in Hl. apply app_inj_1 in Hl as [Ht Hp]; [|congruence].
    destruct (pairs_binding _ _ _ E5 E5' E6 E6' Hp) as [Hd|Hc].
    + left. by rewrite <- (take_drop p hashes), <- (take_drop p hashes'), Ht, Hd.
    + right. revert Hc. apply collision_mono; intros x Hx; apply elem_of_app; by left.
  - right. revert Hc. apply collision_mono; intros x Hx; apply elem_of_app; by right.
Qed.
End trees.

(** ** The hashing blob *)

Lemma write_varint_loop_max fuel v l : write_varint_loop fuel v = Some l -> (List.length l <= fuel)%nat.
Proof.
  revert v l. induction fuel as [|fuel IH]; intros v l E; [done|]. cbn [write_varint_loop] in E.
  case_match; [|by injection E as <-; cbn; lia].
  apply bind_Some in E as (l' & E' & [= <-]). apply IH in E'. cbn. lia.
Qed.

(** The size of what a codec writes. *)
Class Bounded {A} (c : codec A) (n : nat) : Prop :=
  bounded a x : ok c a = true -> wr c a = Some x -> (List.length x <= n)%nat.

#[export] Instance bounded_uint n : Bounded (c_uint n) n.
Proof. intros v x _ [= <-]. by rewrite length_le_split. Qed.
#[export] Instance bounded_pod n : Bounded (c_pod n) n.
Proof. intros v x Ho [= <-]. cbn in Ho. apply andb_prop in Ho as [Ho _]. apply Nat.eqb_eq in Ho. lia. Qed.
#[export] Instance bounded_varint w : Bounded (c_varint w) 10.
Proof. intros v x _ E. exact (write_varint_loop_max 10 v x E). Qed.
#[export] Instance bounded_guard {A} p (c : codec A) n : Bounded c n -> Bounded (c_guard p c) n.
Proof. intros Hc a x Ho E. cbn in *. apply andb_prop in Ho as [Hp Ho]. rewrite Hp in E. exact (Hc a x Ho E). Qed.
#[export] Instance bounded_pair {A B} (c : codec A) (d : codec B) n m :
  Bounded c n -> Bounded d m -> Bounded (c ⊗ d) (n + m).
Proof.
  intros Hc Hd [a b] x Ho E. cbn in *. apply andb_prop in Ho as [H1 H2].
  apply bind_Some in E as (y & Ey & E). apply bind_Some in E as (z & Ez & [= <-]).
  apply Hc in Ey; [|done]. apply Hd in Ez; [|done]. rewrite length_app. lia.
Qed.
#[export] Instance bounded_iso {A B} (from : B -> A) to c n : Bounded c n -> Bounded (c_iso from to c) n.
Proof. intros Hc b x Ho E. exact (Hc (from b) x Ho E). Qed.

#[export] Instance bounded_block_header : Bounded c_block_header 62.
Proof. unfold c_block_header. change 62%nat with (1 + (8 + (32 + (10 + (10 + 1)))))%nat. apply _. Qed.

(** What a codec wrote determines the object and what follows it. *)
Lemma wr_app_inj {A} (c : codec A) a a' x x' r r' : RoundTrip c -> ok c a = true -> ok c a' = true ->
  wr c a = Some x -> wr c a' = Some x' -> x ++ r = x' ++ r' -> a = a' /\ r = r'.
Proof.
  intros Hc Ho Ho' E E' Hx.
  destruct (round_trip _ Ho) as (y & Ey & _ & R), (round_trip _ Ho') as (y' & Ey' & _ & R').
  assert (y = x) as -> by congruence. assert (y' = x') as -> by congruence.
  specialize (R r). specialize (R' r'). rewrite Hx in R. rewrite R in R'. by injection R' as -> ->.
Qed.

(** ** What an id stands for *)

Definition block_ids (b : block) : list hash := get_transaction_hash (bl_miner_tx b) :: bl_tx_hashes b.

Definition tree_preimages (ids : list hash) : list (list Z) :=
  match ids with
  | [] | [_] => []
  | _ => root_nodes cn_fast_hash (Nat.log2 (List.length ids - 1)) ids
  end.

(** Every string hashed while the id of a block is computed. *)
Definition id_preimages (b : block) : list (list Z) :=
  default [] (t_serializable_object_to_blob c_string (get_block_hashing_blob b)) ::
  tree_preimages (block_ids b) ++
  [default [] (t_serializable_object_to_blob c_transaction_prefix (tx_prefix (bl_miner_tx b)))].

Abbreviation hashes32 := (Forall (fun h : hash => List.length h = 32%nat)).

Lemma root_level n : (2 <= n)%nat -> (2 ^ Nat.log2 (n - 1) < n <= 2 * 2 ^ Nat.log2 (n - 1))%nat.
Proof. intros Hn. destruct (Nat.log2_spec (n - 1)) as [H1 H2]; [lia|]. rewrite Nat.pow_succ_r' in H2. lia. Qed.

Lemma log2_small n : (2 <= n)%nat -> Z.of_nat n < 2 ^ 63 -> (Nat.log2 (n - 1) < 63)%nat.
Proof.
  intros Hn Hw. apply Nat.log2_lt_pow2; [lia|]. apply Nat2Z.inj_lt. rewrite Nat2Z.inj_pow. cbn [Z.of_nat]. lia.
Qed.

Lemma tree_hash_binding ids ids' : hashes32 ids -> hashes32 ids' -> ids <> [] -> Z.of_nat (List.length ids) < 2 ^ 63 ->
  List.length ids = List.length ids' -> get_tx_tree_hash ids = get_tx_tree_hash ids' ->
  ids = ids' \/ collision cn_fast_hash (tree_preimages ids) (tree_preimages ids').
Proof.
  intros Hh Hh' Hne Hw Hl Hr. unfold get_tx_tree_hash, crypto_tree_hash in Hr.
  destruct (decide (List.length ids = 1%nat)) as [E1|E1].
  - rewrite E1 in Hl. destruct ids as [|h [|]], ids' as [|h' [|]]; try done. cbn in Hr. left. by subst.
  - assert (H2 : (2 <= List.length ids)%nat) by (destruct ids as [|? [|]]; cbn in *; (done || lia)).
    pose proof (root_level _ H2) as Hlev. pose proof (log2_small _ H2 Hw) as Hlog.
    rewrite (tree_hash_root _ _ _ Hlog Hlev) in Hr. rewrite Hl in Hlog, Hlev.
    rewrite (tree_hash_root _ _ _ Hlog Hlev), <- Hl in Hr. rewrite <- Hl in Hlog, Hlev. cbn [default from_option id] in Hr.
    destruct (root_binding cn_fast_hash cn_fast_hash_length _ _ _ Hh Hh' Hl Hlev Hr) as [?|Hc]; [by left|right].
    unfold tree_preimages. destruct ids as [|? [|? ?]]; [done|done|]. destruct ids' as [|? [|? ?]]; [done|done|].
    by rewrite <- Hl.
Qed.

Lemma get_tx_tree_hash_length ids : hashes32 ids -> List.length (get_tx_tree_hash ids) = 32%nat.
Proof.
  intros Hh. unfold get_tx_tree_hash, crypto_tree_hash, tree_hash.
  destruct ids as [|h [|h' [|h'' l]]]; [done| | |]; cbn [List.length].
  - by apply Forall_inv in Hh.
  - apply cn_fast_hash_length.
  - cbv zeta. case_match; [|done]. destruct (tree_levels _ _ _ _); [|done]. apply cn_fast_hash_length.
Qed.

Lemma block_ok_parts b : block_ok b = true ->
  ok c_block_header (bl_header b) = true /\ ok c_transaction_prefix (tx_prefix (bl_miner_tx b)) = true /\
  hashes32 (bl_tx_hashes b).
Proof.
  intros H. unfold block_ok in H. cbn [ok c_block c_iso c_pair] in H.
  apply andb_prop in H as [H1 H]. apply andb_prop in H as [H2 H3]. repeat split; [done| |].
  - unfold c_transaction in H2. cbn [ok c_iso c_dep] in H2. by apply andb_prop in H2 as [H2 _].
  - cbn [ok c_vector] in H3. apply andb_prop in H3 as [_ H3]. rewrite forallb_forall in H3.
    apply Forall_forall. intros h Hh. apply list_elem_of_In, H3 in Hh. unfold c_hash in Hh. cbn [ok c_pod] in Hh.
    apply andb_prop in Hh as [Hh _]. by apply Nat.eqb_eq in Hh.
Qed.

Lemma block_ids_hashes b : block_ok b = true -> hashes32 (block_ids b).
Proof. intros H. constructor; [apply cn_fast_hash_length|by apply block_ok_parts]. Qed.

Definition block_small (b : block) : Prop := Z.of_nat (List.length (bl_tx_hashes b)) < 2 ^ 62.

Lemma ok_varint w n : 0 <= n < 2 ^ w -> ok (c_varint w) n = true.
Proof. intros H. cbn [ok c_varint]. apply andb_true_intro. split; [apply Z.leb_le|apply Z.ltb_lt]; apply H. Qed.

Lemma block_ids_length b : Z.of_nat (List.length (block_ids b)) = Z.of_nat (List.length (bl_tx_hashes b)) + 1.
Proof. unfold block_ids. cbn [List.length]. lia. Qed.

(** The three parts of the hashing blob. *)
Lemma hashing_blob_parts b : block_ok b = true -> block_small b ->
  exists hdr cnt,
    wr c_block_header (bl_header b) = Some hdr /\ (List.length hdr <= 62)%nat /\
    wr (c_varint 64) (Z.of_nat (List.length (block_ids b))) = Some cnt /\ (List.length cnt <= 10)%nat /\
    get_block_hashing_blob b = hdr ++ get_tx_tree_hash (block_ids b) ++ cnt.
Proof.
  intros Hb Hs. destruct (block_ok_parts b Hb) as (H1 & _ & _). unfold block_small in Hs.
  destruct (round_trip _ H1) as (hdr & E1 & _ & _).
  assert (H2 : ok (c_varint 64) (Z.of_nat (List.length (block_ids b))) = true)
    by (apply ok_varint; rewrite block_ids_length; lia).
  destruct (round_trip _ H2) as (cnt & E2 & _ & _).
  exists hdr, cnt. split; [done|]. split; [exact (bounded (n := 62) _ _ H1 E1)|]. split; [done|].
  split; [exact (bounded (n := 10) _ _ H2 E2)|].
  unfold get_block_hashing_blob, t_serializable_object_to_blob, get_varint_data. rewrite E1.
  rewrite wrap_small by (split; lia). cbn [wr c_varint block_ids List.length] in E2.
  replace (Z.of_nat (List.length (bl_tx_hashes b)) + 1) with (Z.of_nat (S (List.length (bl_tx_hashes b)))) by lia.
  by rewrite E2.
Qed.

(** The length in front of the blob parses back. *)
Lemma string_blob_inj s s' : Z.of_nat (List.length s) < 2 ^ 64 -> Z.of_nat (List.length s') < 2 ^ 64 ->
  default [] (t_serializable_object_to_blob c_string s) = default [] (t_serializable_object_to_blob c_string s') -> s = s'.
Proof.
  intros Hs Hs'. unfold t_serializable_object_to_blob. cbn [wr c_string].
  assert (Ho : ok (c_varint 64) (Z.of_nat (List.length s)) = true) by (apply ok_varint; lia).
  assert (Ho' : ok (c_varint 64) (Z.of_nat (List.length s')) = true) by (apply ok_varint; lia).
  destruct (round_trip _ Ho) as (x & E & _), (round_trip _ Ho') as (x' & E' & _).
  pose proof E as F. pose proof E' as F'. cbn [wr c_varint] in F, F'. rewrite F, F'.
  cbn [mbind option_bind default from_option id]. intros Hx.
  by destruct (wr_app_inj (c_varint 64) _ _ _ _ _ _ _ Ho Ho' E E' Hx) as [_ ->].
Qed.

(** C7: the id of a block commits to the block.  Two blocks of the format with
    the same id have the same header, the same miner transaction prefix and
    the same list of transaction ids, in the same order; otherwise two
    different strings among those hashed while the two ids are computed have
    the same Keccak hash. *)
Theorem block_id_binding b b' : block_ok b = true -> block_ok b' = true -> block_small b -> block_small b' ->
  get_block_hash b = get_block_hash b' ->
  (bl_header b = bl_header b' /\ tx_prefix (bl_miner_tx b) = tx_prefix (bl_miner_tx b') /\
   bl_tx_hashes b = bl_tx_hashes b') \/
  collision cn_fast_hash (id_preimages b) (id_preimages b').
Proof.
  intros Hb Hb' Hs Hs' Hid.
  destruct (hashing_blob_parts b Hb Hs) as (hdr & cnt & E1 & L1 & E2 & L2 & E).
  destruct (hashing_blob_parts b' Hb' Hs') as (hdr' & cnt' & E1' & L1' & E2' & L2' & E').
  pose proof (block_ids_hashes b Hb) as Hi. pose proof (block_ids_hashes b' Hb') as Hi'.
  destruct (block_ok_parts b Hb) as (H1 & H2 & _), (block_ok_parts b' Hb') as (H1' & H2' & _).
  destruct (same_or_collision cn_fast_hash _ _ (id_preimages b) (id_preimages b') ltac:(by left) ltac:(by left) Hid)
    as [Hblob|Hc]; [|by right].
  apply string_blob_inj in Hblob.
  2, 3: rewrite ?E, ?E', !length_app, get_tx_tree_hash_length by done; lia.
  rewrite E, E' in Hblob. destruct (wr_app_inj _ _ _ _ _ _ _ _ H1 H1' E1 E1' Hblob) as [Hh Hrest].
  apply app_split in Hrest as [Hroot Hcnt]; [|by rewrite !get_tx_tree_hash_length].
  unfold block_small in *.
  assert (Hl : List.length (block_ids b) = List.length (block_ids b')).
  { apply Nat2Z.inj. eapply (wr_app_inj (c_varint 64) _ _ cnt cnt' [] []);
      [apply _|apply ok_varint; rewrite block_ids_length; lia..|done|done|by rewrite !app_nil_r]. }
  destruct (tree_hash_binding _ _ Hi Hi' ltac:(done) ltac:(rewrite block_ids_length; lia) Hl Hroot) as [Hids|Hc].
  - injection Hids as Hm Ht. unfold get_transaction_hash in Hm.
    destruct (same_or_collision cn_fast_hash _ _ (id_preimages b) (id_preimages b')
      ltac:(right; apply elem_of_app; right; by left) ltac:(right; apply elem_of_app; right; by left) Hm) as [Hp|Hc];
      [|by right].
    left. split; [done|]. split; [|done].
    destruct (round_trip _ H2) as (x & Ex & _), (round_trip _ H2') as (x' & Ex' & _).
    unfold t_serializable_object_to_blob in Hp. rewrite Ex, Ex' in Hp. cbn [default from_option id] in Hp.
    destruct (wr_app_inj c_transaction_prefix _ _ _ _ [] [] _ H2 H2' Ex Ex') as [Hpp _]; [by rewrite Hp|done].
  - right. revert Hc. apply collision_mono; intros x Hx; right; apply elem_of_app; by left.
Qed.

(** The same block with other signatures of its miner transaction: the id
    hashes only the prefix. *)
Definition demo_block_resigned : block := {|
  bl_header := bl_header demo_block;
  bl_miner_tx := {| tx_prefix := tx_prefix demo_tx_v1; tx_attachment := [];
                    tx_signatures := [sig_NLSAG [replicate 64 2]]; tx_proofs := [] |};
  bl_tx_hashes := bl_tx_hashes demo_block |}.

Example block_id_binding_witness :
  demo_block <> demo_block_resigned /\ get_block_hash demo_block = get_block_hash demo_block_resigned /\
  ((bl_header demo_block = bl_header demo_block_resigned /\
    tx_prefix (bl_miner_tx demo_block) = tx_prefix (bl_miner_tx demo_block_resigned) /\
    bl_tx_hashes demo_block = bl_tx_hashes demo_block_resigned) \/
   collision cn_fast_hash (id_preimages demo_block) (id_preimages demo_block_resigned)).
Proof.
  assert (E : get_block_hash demo_block = get_block_hash demo_block_resigned) by (vm_compute; reflexivity).
  split; [discriminate|]. split; [exact E|].
  apply block_id_binding; [vm_compute; reflexivity|vm_compute; reflexivity|unfold block_small; cbn; lia|unfold block_small; cbn; lia|exact E].
Defined.
