(* ===== verification/Offsets.v ===== *)
(** * References of an input to outputs

    An input refers to the members of its ring by their index among the outputs
    of the same amount, written as differences, or by transaction and position.
    The conversions are those of [src/src/currency_core/currency_format_utils.cpp]
    and [currency_format_utils_transactions.cpp]. *)

From stdpp Require Import sorting.
From S2P Require Import Prelude Config StdSort Archive Pod CryptoTypes Basic Transactions.

#[export] Instance ref_by_id_eq_dec : EqDecision ref_by_id.
Proof. solve_decision. Defined.
#[export] Instance txout_ref_v_eq_dec : EqDecision txout_ref_v.
Proof. solve_decision. Defined.

(** ** Reading *)

(** The loop from the second reference on; [boost::get] throws on a reference
    of the other kind. *)
Fixpoint absolute_loop (prev : txout_ref_v) (res : list txout_ref_v) : outcome (list txout_ref_v) :=
  match res with
  | [] => Ret []
  | ref_id _ :: _ => Ret res
  | ref_global_index d :: res =>
      match prev with
      | ref_id _ => Throw
      | ref_global_index p =>
          let x := ref_global_index (u64 (d + p)) in
          rest ← absolute_loop x res;
          Ret (x :: rest)
      end
  end.

Definition relative_output_offsets_to_absolute (off : list txout_ref_v) : outcome (list txout_ref_v) :=
  match off with
  | [] => Ret []
  | o :: off => rest ← absolute_loop o off; Ret (o :: rest)
  end.

(** ** Writing *)

(** [while (i != 0 && offsets[i].type() == typeid(ref_by_id)) --i;] *)
Fixpoint skip_ids (offsets : list txout_ref_v) (i : nat) : nat :=
  match i with
  | O => O
  | S i' => match offsets !! i with Some (ref_id _) => skip_ids offsets i' | _ => i end
  end.

Fixpoint relative_loop (i : nat) (offsets : list txout_ref_v) : bool * list txout_ref_v :=
  match i with
  | O => (true, offsets)
  | S i' =>
      match offsets !! i, offsets !! i' with
      | Some (ref_global_index offset_i), Some (ref_global_index offset_im1) =>
          if offset_i <=? offset_im1 then (false, offsets)
          else relative_loop i' (<[i := ref_global_index (u64 (offset_i - offset_im1))]> offsets)
      | _, _ => (false, offsets)
      end
  end.

(** The verdict, and the references as they are left. *)
Definition absolute_sorted_output_offsets_to_relative_in_place (offsets : list txout_ref_v) : bool * list txout_ref_v :=
  if (List.length offsets <? 2)%nat then (true, offsets)
  else relative_loop (skip_ids offsets (List.length offsets - 1)) offsets.

(** ** Preparing the sources of an input *)

Record output_entry : Type := {
  oe_out_reference : txout_ref_v;
  oe_stealth_address : public_key;
  oe_concealing_point : public_key;
  oe_amount_commitment : public_key;
  oe_blinded_asset_id : public_key
}.

Definition entry_lt (lhs rhs : output_entry) : bool :=
  match oe_out_reference lhs, oe_out_reference rhs with
  | ref_global_index l, ref_global_index r => l <? r
  | ref_global_index _, ref_id _ => true
  | ref_id _, _ => false
  end.

Definition SIZE_MAX : Z := 2 ^ 64 - 1.

(** [operator==] compares the references only. *)
Fixpoint find_entry (r : txout_ref_v) (l : list output_entry) (i : nat) : option nat :=
  match l with
  | [] => None
  | e :: l => if decide (oe_out_reference e = r) then Some i else find_entry r l (S i)
  end.

Definition with_reference (r : txout_ref_v) (e : output_entry) : output_entry :=
  {| oe_out_reference := r; oe_stealth_address := oe_stealth_address e; oe_concealing_point := oe_concealing_point e;
     oe_amount_commitment := oe_amount_commitment e; oe_blinded_asset_id := oe_blinded_asset_id e |}.

(** [boost::get] throws outside of the type, here [None]. *)
Fixpoint entries_relative_loop (i : nat) (result : list output_entry) : option (list output_entry) :=
  match i with
  | O => Some result
  | S i' =>
      match result !! i, result !! i' with
      | Some e, Some e' =>
          match oe_out_reference e, oe_out_reference e' with
          | ref_global_index x, ref_global_index y =>
              entries_relative_loop i' (<[i := with_reference (ref_global_index (u64 (x - y))) e]> result)
          | _, _ => None
          end
      | _, _ => None
      end
  end.

Section prepare.
Context `{StdSort}.

(** The new entries and the new index; an exception leaves the index as it was
    before and gives no entry.  The index keeps its value when the caller asks
    for none. *)
Definition prepare_outputs_entries_for_key_offsets (outputs : list output_entry) (old_real_index new_real_index : Z)
    : list output_entry * Z :=
  if (List.length outputs <? 2)%nat then (outputs, old_real_index)
  else
    let result := std_sort entry_lt outputs in
    let finish i := match entries_relative_loop
        (skip_ids (map oe_out_reference result) (List.length result - 1)) result with
      | Some result => (result, i)
      | None => ([], i)
      end in
    if old_real_index =? SIZE_MAX then finish new_real_index
    else
      match outputs !! Z.to_nat old_real_index with
      | None => ([], new_real_index)
      | Some e =>
          match find_entry (oe_out_reference e) result 0 with
          | None => ([], new_real_index)
          | Some i => finish (Z.of_nat i)
          end
      end.

End prepare.

(** ** Differences *)

Definition is_index (r : txout_ref_v) : bool := match r with ref_global_index _ => true | ref_id _ => false end.
Definition index_of (r : txout_ref_v) : Z := match r with ref_global_index x => x | ref_id _ => 0 end.

Fixpoint deltas (p : Z) (l : list Z) : list Z :=
  match l with [] => [] | x :: l => u64 (x - p) :: deltas x l end.

Abbreviation u64_list := (Forall is_u64).
Abbreviation indices := (map ref_global_index).
Abbreviation ids := (map ref_id).

Lemma lookup_map {A B} (f : A -> B) l i : map f l !! i = f <$> l !! i.
Proof. change (map f l) with (f <$> l). apply list_lookup_fmap. Qed.

Lemma last_cons_default {A} (a b : A) l : List.last (b :: l) a = List.last l b.
Proof.
  revert a b. induction l as [|c l IH]; intros a b; [done|].
  change (List.last (b :: c :: l) a) with (List.last (c :: l) a). by rewrite !IH.
Qed.

Lemma deltas_snoc p l x : deltas p (l ++ [x]) = deltas p l ++ [u64 (x - List.last l p)].
Proof. revert p. induction l as [|y l IH]; intros p; [done|]. cbn [deltas app]. by rewrite IH, last_cons_default. Qed.

Lemma u64_sub_add x p : is_u64 x -> u64 (u64 (x - p) + p) = x.
Proof. intros Hx. unfold wrap. rewrite Zplus_mod_idemp_l. replace (x - p + p) with x by lia. by apply wrap_small. Qed.

Lemma absolute_of_deltas p l rs : u64_list l ->
  absolute_loop (ref_global_index p) (indices (deltas p l) ++ ids rs) = Ret (indices l ++ ids rs).
Proof.
  revert p. induction l as [|x l IH]; intros p Hl; cbn.
  - by destruct rs.
  - apply Forall_cons in Hl as [Hx Hl]. by rewrite u64_sub_add, IH.
Qed.

(** The tests of the loops pass over the references by transaction. *)
Lemma skip_ids_spec l rs : l <> [] -> skip_ids (indices l ++ ids rs) (List.length (indices l ++ ids rs) - 1) = (List.length l - 1)%nat.
Proof.
  intros Hl. assert (Hn : forall n, (n <= List.length rs)%nat ->
    skip_ids (indices l ++ ids rs) (List.length l + n - 1) = (List.length l - 1)%nat).
  { destruct l as [|a l]; [done|]. intros n. induction n as [|n IH]; intros Hn.
    - rewrite Nat.add_0_r. destruct (List.length (a :: l) - 1)%nat as [|i] eqn:E; [done|]. cbn [skip_ids].
      rewrite lookup_app_l by (rewrite length_map; lia).
      rewrite lookup_map. by destruct ((a :: l) !! S i).
    - replace (List.length (a :: l) + S n - 1)%nat with (S (List.length l + n)) by (cbn; lia). cbn [skip_ids].
      rewrite lookup_app_r by (rewrite length_map; cbn [List.length]; lia). rewrite length_map. cbn [List.length].
      replace (S (List.length l + n) - S (List.length l))%nat with n by lia.
      destruct (lookup_lt_is_Some_2 rs n) as [r Hr]; [lia|]. rewrite lookup_map, Hr. cbn [fmap option_fmap option_map].
      change (S (List.length l)) with (List.length (a :: l)). rewrite <- IH by lia. f_equal. cbn [List.length]. lia. }
  rewrite <- (Hn (List.length rs)) by lia. f_equal. by rewrite length_app, !length_map.
Qed.

Lemma skip_only_ids rs n : (n < List.length rs)%nat -> skip_ids (ids rs) n = 0%nat.
Proof.
  induction n as [|n IH]; intros Hn; [done|]. cbn [skip_ids].
  destruct (lookup_lt_is_Some_2 rs (S n)) as [r Hr]; [lia|]. rewrite lookup_map, Hr. apply IH. lia.
Qed.

Lemma lookup_last {A} (a : A) l rest : (a :: l ++ rest) !! List.length l = Some (List.last l a).
Proof. revert a. induction l as [|b l IH]; intros a; [done|]. rewrite last_cons_default. apply IH. Qed.

Lemma relative_loop_spec a l rest : u64_list (a :: l) -> StronglySorted Z.lt (a :: l) ->
  relative_loop (List.length l) (indices (a :: l) ++ rest) = (true, indices (a :: deltas a l) ++ rest).
Proof.
  revert rest. induction l as [|x l IH] using rev_ind; intros rest Hu Hs; [done|].
  rewrite length_app. cbn [List.length]. rewrite Nat.add_1_r. cbn [relative_loop].
  change (a :: l ++ [x]) with ((a :: l) ++ [x]) in *. rewrite map_app, <- app_assoc. change (indices [x] ++ rest) with (ref_global_index x :: rest).
  assert (Hx : (indices (a :: l) ++ ref_global_index x :: rest) !! S (List.length l) = Some (ref_global_index x)).
  { apply list_lookup_middle. by rewrite length_map. }
  assert (Hp : (indices (a :: l) ++ ref_global_index x :: rest) !! List.length l = Some (ref_global_index (List.last l a))).
  { cbn [map app]. rewrite <- (length_map ref_global_index l), lookup_last. f_equal. clear. revert a.
    induction l as [|b l IH]; intros a; [done|]. cbn [map]. by rewrite !last_cons_default. }
  rewrite Hx, Hp. apply StronglySorted_app in Hs as [Hlt Hs].
  assert (List.last l a < x).
  { apply (Hlt (List.last l a) x); [|set_solver]. destruct l as [|b l] using rev_ind; [set_solver|]. rewrite last_last. set_solver. }
  destruct (Z.leb_spec x (List.last l a)); [lia|].
  assert (Hi : <[S (List.length l) := ref_global_index (u64 (x - List.last l a))]> (indices (a :: l) ++ ref_global_index x :: rest)
             = indices (a :: l) ++ ref_global_index (u64 (x - List.last l a)) :: rest).
  { rewrite insert_app_r_alt by by rewrite length_map. by rewrite length_map, Nat.sub_diag. }
  rewrite Hi, IH; [|by apply Forall_app in Hu as [? _]|by destruct Hs]. f_equal. cbn. rewrite deltas_snoc, map_app, <- app_assoc. done.
Qed.

(** Strictly growing references by index, then references by transaction, read
    back as they were. *)
Lemma relative_absolute_roundtrip l rs : u64_list l -> StronglySorted Z.lt l ->
  exists rel, absolute_sorted_output_offsets_to_relative_in_place (indices l ++ ids rs) = (true, rel) /\
    relative_output_offsets_to_absolute rel = Ret (indices l ++ ids rs).
Proof.
  intros Hu Hs. unfold absolute_sorted_output_offsets_to_relative_in_place.
  destruct (Nat.ltb_spec (List.length (indices l ++ ids rs)) 2) as [Hl|Hl].
  - eexists. split; [done|]. destruct l as [|x [|y l]], rs as [|r [|r' rs]]; try done; cbn in Hl; lia.
  - destruct l as [|a l].
    + cbn [map app] in *. rewrite skip_only_ids by (rewrite length_map in *; lia). eexists. split; [done|]. by destruct rs as [|r [|]].
    + rewrite skip_ids_spec by done. cbn [List.length]. rewrite Nat.sub_succ, Nat.sub_0_r.
      rewrite relative_loop_spec by done. eexists. split; [done|]. cbn [map app relative_output_offsets_to_absolute].
      apply Forall_cons in Hu as [_ Hu]. by rewrite absolute_of_deltas.
Qed.

(** ** Prepared entries *)

Fixpoint entry_deltas (p : Z) (l : list output_entry) : list output_entry :=
  match l with
  | [] => []
  | e :: l => let x := index_of (oe_out_reference e) in with_reference (ref_global_index (u64 (x - p))) e :: entry_deltas x l
  end.

Definition by_index (e : output_entry) : Prop := is_index (oe_out_reference e) = true.

Lemma entry_deltas_snoc p l e : entry_deltas p (l ++ [e]) = entry_deltas p l ++
  [with_reference (ref_global_index (u64 (index_of (oe_out_reference e) - List.last (map (fun e => index_of (oe_out_reference e)) l) p))) e].
Proof. revert p. induction l as [|y l IH]; intros p; [done|]. cbn [entry_deltas app map]. by rewrite IH, last_cons_default. Qed.

Lemma entry_deltas_refs p l : map oe_out_reference (entry_deltas p l) = indices (deltas p (map (fun e => index_of (oe_out_reference e)) l)).
Proof. revert p. induction l as [|e l IH]; intros p; cbn; [done|]. by rewrite IH. Qed.

Lemma last_map {A B} (f : A -> B) a l : List.last (map f l) (f a) = f (List.last l a).
Proof. revert a. induction l as [|b l IH]; intros a; [done|]. cbn [map]. by rewrite !last_cons_default. Qed.

Lemma entries_relative_loop_spec a l rest : Forall by_index (a :: l) ->
  entries_relative_loop (List.length l) (a :: l ++ rest) = Some (a :: entry_deltas (index_of (oe_out_reference a)) l ++ rest).
Proof.
  revert rest. induction l as [|e l IH] using rev_ind; intros rest Hi; [done|].
  rewrite length_app. cbn [List.length]. rewrite Nat.add_1_r. cbn [entries_relative_loop].
  rewrite <- app_assoc. change ([e] ++ rest) with (e :: rest).
  assert (He : (a :: l ++ e :: rest) !! S (List.length l) = Some e) by by apply (list_lookup_middle (a :: l)).
  rewrite He, lookup_last.
  assert (Hlast : by_index (List.last l a)).
  { rewrite list.Forall_forall in Hi. apply Hi. destruct l as [|b l _] using rev_ind; [set_solver|]. rewrite last_last. set_solver. }
  assert (Hbe : by_index e) by (rewrite list.Forall_forall in Hi; apply Hi; set_solver).
  unfold by_index in Hlast, Hbe. destruct (oe_out_reference e) as [x|] eqn:Ex; [|done].
  destruct (oe_out_reference (List.last l a)) as [y|] eqn:Ey; [|done].
  assert (Hins : forall e', <[S (List.length l) := e']> (a :: l ++ e :: rest) = a :: l ++ e' :: rest).
  { intros e'. change (a :: l ++ e :: rest) with ((a :: l) ++ e :: rest). rewrite insert_app_r_alt by done. by rewrite Nat.sub_diag. }
  rewrite Hins, IH by (apply Forall_cons in Hi as [? Hi]; apply Forall_app in Hi as [? _]; by constructor). f_equal. f_equal.
  rewrite entry_deltas_snoc, <- app_assoc, Ex. f_equal. cbn [app].
  rewrite (last_map (fun e => index_of (oe_out_reference e))), Ey. done.
Qed.

(** The order of the entries: by index first. *)
Lemma sorted_entries_split l : StronglySorted (fun x y => entry_lt y x = false) l ->
  exists l1 l2, l = l1 ++ l2 /\ Forall by_index l1 /\ Forall (fun e => ~ by_index e) l2.
Proof.
  induction l as [|e l IH]; intros Hs; [by exists [], []|]. apply StronglySorted_cons in Hs as [He Hs].
  destruct (IH Hs) as (l1 & l2 & -> & H1 & H2). destruct (is_index (oe_out_reference e)) eqn:E.
  - exists (e :: l1), l2. split; [done|]. split; [by constructor|done].
  - exists [], (e :: l1 ++ l2). split; [done|]. split; [constructor|]. constructor; [unfold by_index; congruence|].
    apply Forall_app. split; [|done]. apply Forall_app in He as [He _]. eapply Forall_impl; [exact He|].
    intros e' Hlt Hi. unfold entry_lt, by_index in *. by destruct (oe_out_reference e'), (oe_out_reference e).
Qed.

Lemma entry_lt_order l : strict_weak_order entry_lt l.
Proof.
  split; unfold entry_lt.
  - intros x _. destruct (oe_out_reference x); [apply Z.ltb_irrefl|done].
  - intros x y _ _. destruct (oe_out_reference x), (oe_out_reference y); try done. intros; zbool; lia.
  - intros x y z _ _ _. destruct (oe_out_reference x), (oe_out_reference y), (oe_out_reference z); try done. intros; zbool; lia.
Qed.

Lemma find_entry_some r l i : r ∈ map oe_out_reference l ->
  exists k e, find_entry r l i = Some (i + k)%nat /\ l !! k = Some e /\ oe_out_reference e = r.
Proof.
  revert i. induction l as [|e l IH]; intros i Hr; [set_solver|]. cbn [find_entry].
  destruct (decide (oe_out_reference e = r)) as [E|E].
  - exists 0%nat, e. by rewrite Nat.add_0_r.
  - destruct (IH (S i)) as (k & e' & -> & Hk & He'); [set_solver|]. exists (S k), e'. split; [f_equal; lia|done].
Qed.

(** The entries after the subtraction, by their order. *)
Definition same_but_reference (e e' : output_entry) : Prop := e' = with_reference (oe_out_reference e') e.
Lemma same_but_reference_refl e : same_but_reference e e.
Proof. by destruct e. Qed.

Lemma entry_deltas_same p l : Forall2 same_but_reference l (entry_deltas p l).
Proof. revert p. induction l as [|e l IH]; intros p; constructor; [done|apply IH]. Qed.

Lemma indices_of_by_index l : Forall by_index l -> map oe_out_reference l = indices (map (fun e => index_of (oe_out_reference e)) l).
Proof.
  induction 1 as [|e l He _ IH]; [done|]. cbn. rewrite IH. f_equal. unfold by_index in He. by destruct (oe_out_reference e).
Qed.

Lemma ids_of_not_by_index l : Forall (fun e => ~ by_index e) l -> exists rs, map oe_out_reference l = ids rs.
Proof.
  induction 1 as [|e l He _ [rs IH]]; [by exists []|]. unfold by_index in He. destruct (oe_out_reference e) as [|r] eqn:E; [done|].
  exists (r :: rs). cbn. by rewrite E, IH.
Qed.

Lemma subtract_and_read l1 l2 : Forall by_index l1 -> Forall (fun e => ~ by_index e) l2 ->
  Forall (fun e => is_u64 (index_of (oe_out_reference e))) l1 -> (1 < List.length (l1 ++ l2))%nat ->
  exists result, entries_relative_loop (skip_ids (map oe_out_reference (l1 ++ l2)) (List.length (l1 ++ l2) - 1)) (l1 ++ l2) = Some result /\
    Forall2 same_but_reference (l1 ++ l2) result /\
    relative_output_offsets_to_absolute (map oe_out_reference result) = Ret (map oe_out_reference (l1 ++ l2)).
Proof.
  intros H1 H2 Hu Hn. destruct (ids_of_not_by_index l2 H2) as [rs Hrs]. pose proof (indices_of_by_index l1 H1) as Hl1.
  destruct l1 as [|a l1].
  - cbn [app] in *. rewrite Hrs, skip_only_ids by (rewrite <- (length_map ref_id), <- Hrs, length_map; lia).
    exists l2. split; [done|]. split; [apply Forall_Forall2_diag, list.Forall_forall; intros; apply same_but_reference_refl|].
    rewrite Hrs. by destruct rs as [|r [|]].
  - assert (Hskip : skip_ids (map oe_out_reference ((a :: l1) ++ l2)) (List.length ((a :: l1) ++ l2) - 1) = List.length l1).
    { rewrite <- (length_map oe_out_reference), map_app, Hrs, Hl1, skip_ids_spec by done. rewrite length_map. cbn. lia. }
    rewrite Hskip. cbn [app]. rewrite entries_relative_loop_spec by done. eexists. split; [done|]. split.
    + constructor; [apply same_but_reference_refl|]. apply Forall2_app; [apply entry_deltas_same|].
      apply Forall_Forall2_diag, list.Forall_forall. intros; apply same_but_reference_refl.
    + cbn [map relative_output_offsets_to_absolute]. rewrite !map_app, Hrs, entry_deltas_refs.
      apply Forall_cons in H1 as [Ha H1]. unfold by_index in Ha. destruct (oe_out_reference a) as [x|]; [|done]. cbn [index_of].
      rewrite absolute_of_deltas; [outcome_simp; by rewrite indices_of_by_index|].
      apply Forall_cons in Hu as [_ Hu]. by apply List.Forall_map.
Qed.

Section ring.
Context `{StdSort}.

(** C22: What a wallet writes for the ring of an input is what a node reads.  For
    any entries whose indices fit 64 bits, in any order, duplicates included, and
    any sorting function, the prepared entries are the given ones in some order
    with nothing but the references changed, the differences written for them are
    read back as the references of the entries, and the entry at the new index
    has the reference of the real output. *)
Theorem prepared_ring_reads_back (outputs : list output_entry) real_index i :
  Forall (fun e => is_u64 (index_of (oe_out_reference e))) outputs ->
  (Z.of_nat (List.length outputs) < SIZE_MAX) -> 0 <= real_index < Z.of_nat (List.length outputs) ->
  exists entries result new_index,
    prepare_outputs_entries_for_key_offsets outputs real_index i = (result, new_index) /\
    entries ≡ₚ outputs /\ Forall2 same_but_reference entries result /\
    relative_output_offsets_to_absolute (map oe_out_reference result) = Ret (map oe_out_reference entries) /\
    oe_out_reference <$> entries !! Z.to_nat new_index = oe_out_reference <$> outputs !! Z.to_nat real_index.
Proof.
  intros Hu Hmax Hr. unfold prepare_outputs_entries_for_key_offsets.
  destruct (Nat.ltb_spec (List.length outputs) 2) as [Hn|Hn].
  - exists outputs, outputs, real_index. repeat (split; [done|]). split.
    { apply Forall_Forall2_diag, list.Forall_forall. intros; apply same_but_reference_refl. }
    split; [|done]. by destruct outputs as [|? [|]]; [..|cbn in Hn; lia].
  - destruct (Z.eqb_spec real_index SIZE_MAX); [lia|].
    destruct (lookup_lt_is_Some_2 outputs (Z.to_nat real_index)) as [e He]; [lia|]. rewrite He.
    pose proof (std_sort_perm entry_lt outputs) as Hp. pose proof (std_sort_sorted entry_lt outputs (entry_lt_order _)) as Hs.
    set (sorted := std_sort entry_lt outputs) in *. cbv zeta.
    destruct (find_entry_some (oe_out_reference e) sorted 0) as (k & e' & -> & Hk & He').
    { rewrite Hp. apply list_elem_of_In, in_map, list_elem_of_In. by eapply list_elem_of_lookup_2. }
    destruct (sorted_entries_split sorted Hs) as (l1 & l2 & E & H1 & H2).
    destruct (subtract_and_read l1 l2 H1 H2) as (result & Hres & Hsame & Hread).
    { rewrite <- Hp, E, Forall_app in Hu. by destruct Hu. }
    { rewrite <- E. apply Permutation_length in Hp. lia. }
    rewrite E, Hres. exists (l1 ++ l2), result, (Z.of_nat (0 + k)). rewrite <- E in *. repeat (split; [done|]).
    rewrite Nat2Z.id. cbn [Nat.add]. rewrite Hk. cbn. by f_equal.
Qed.

End ring.

(** ** Examples *)

Definition demo_entry (r : txout_ref_v) (n : Z) : output_entry :=
  {| oe_out_reference := r; oe_stealth_address := key_of n; oe_concealing_point := null_pkey; oe_amount_commitment := null_pkey;
     oe_blinded_asset_id := null_pkey |}.
Definition demo_ring : list output_entry :=
  [demo_entry (ref_global_index 70) 1; demo_entry (ref_id (Build_ref_by_id (key_of 9) 3)) 2; demo_entry (ref_global_index 12) 3;
   demo_entry (ref_global_index 55) 4].

Example prepared_ring_reads_back_witness : exists entries result new_index,
    prepare_outputs_entries_for_key_offsets (H := insertion_std_sort) demo_ring 0 7 = (result, new_index) /\
    map oe_out_reference result =
      [ref_global_index 12; ref_global_index 43; ref_global_index 15; ref_id (Build_ref_by_id (key_of 9) 3)] /\
    new_index = 2 /\ relative_output_offsets_to_absolute (map oe_out_reference result) = Ret (map oe_out_reference entries).
Proof.
  destruct (prepared_ring_reads_back (H := insertion_std_sort) demo_ring 0 7) as (entries & result & n & E & _ & _ & Hread & _);
    [repeat constructor; done|done|done|].
  exists entries, result, n. split; [exact E|]. split; [|split; [|exact Hread]].
  - vm_compute in E. injection E as <- <-. reflexivity.
  - vm_compute in E. injection E as _ <-. reflexivity.
Defined.
