(* ===== verification/HfTerms.v ===== *)
(** * Hard fork terms: [src/src/currency_core/hardfork_specific_terms.h]

    Which types of payloads, inputs, outputs, signatures and proofs a
    transaction may contain at each hard fork, in which containers and how
    often. *)

From S2P Require Import Prelude Archive Pod CryptoTypes Basic Transactions.

Inductive allowance : Type := no | one | many.

Definition input : Z := 1.
Definition output : Z := 2.
Definition extra : Z := 4.
Definition attach : Z := 8.
Definition signtr : Z := 16.
Definition proofs : Z := 32.

(** The types the terms speak of, by their [typeid]. *)
Inductive term_type : Type :=
| T_tx_service_attachment | T_tx_comment | T_tx_payer_old | T_tx_receiver_old | T_tx_payer
| T_tx_receiver | T_tx_derivation_hint | T_std_string | T_tx_crypto_checksum | T_etc_tx_time
| T_etc_tx_details_unlock_time | T_etc_tx_details_unlock_time2 | T_etc_tx_details_expiration_time
| T_etc_tx_details_flags | T_crypto_public_key | T_extra_attachment_info | T_extra_alias_entry_old
| T_extra_user_data | T_extra_padding | T_etc_tx_flags16_t | T_extra_alias_entry | T_zarcanum_tx_data_v1
| T_asset_descriptor_operation | T_gateway_address_descriptor_operation
| T_etc_coinbase_block_cumulative_size | T_txin_gen | T_txin_to_key | T_txin_multisig | T_txin_zc_input
| T_txin_gateway | T_tx_out_bare | T_tx_out_zarcanum | T_tx_out_gateway | T_NLSAG_sig | T_void_sig
| T_ZC_sig | T_zarcanum_sig | T_gateway_sig | T_zc_asset_surjection_proof | T_zc_outs_range_proof
| T_zc_balance_proof | T_zc_gw_balance_proof | T_asset_operation_proof
| T_asset_operation_ownership_proof | T_asset_operation_ownership_proof_eth
| T_gateway_address_ownership_proof.

#[export] Instance term_type_eq_dec : EqDecision term_type.
Proof. solve_decision. Defined.

(** The table of [DEFINE_TERMS]: the allowances at hard forks 0 to 8 and the
    containers. *)
Definition type_hf_terms_traits (T : term_type) : list allowance * Z :=
  match T with
  | T_tx_service_attachment => ([many; many; many; many; many; many; many; many; many], Z.lor extra attach)
  | T_tx_comment => ([one; one; one; one; one; one; one; one; one], extra)
  | T_tx_payer_old => ([one; one; one; one; one; one; no; no; no], Z.lor extra attach)
  | T_tx_receiver_old => ([one; one; one; one; one; one; no; no; no], Z.lor extra attach)
  | T_tx_payer => ([no; no; one; one; one; one; no; no; no], Z.lor extra attach)
  | T_tx_receiver => ([no; no; one; one; one; one; no; no; no], Z.lor extra attach)
  | T_tx_derivation_hint => ([many; many; many; many; many; many; many; many; many], extra)
  | T_std_string => ([many; many; many; many; many; many; many; many; many], Z.lor extra attach)
  | T_tx_crypto_checksum => ([many; many; many; many; many; many; many; many; many], Z.lor extra attach)
  | T_etc_tx_time => ([one; one; one; one; one; one; one; one; one], extra)
  | T_etc_tx_details_unlock_time => ([one; one; one; one; one; one; no; no; no], extra)
  | T_etc_tx_details_unlock_time2 => ([no; one; one; one; one; one; no; no; no], extra)
  | T_etc_tx_details_expiration_time => ([one; one; one; one; one; one; one; one; one], extra)
  | T_etc_tx_details_flags => ([one; one; one; one; one; one; one; one; one], extra)
  | T_crypto_public_key => ([one; one; one; one; one; one; one; one; one], extra)
  | T_extra_attachment_info => ([one; one; one; one; one; one; one; one; one], extra)
  | T_extra_alias_entry_old => ([one; one; no; no; no; no; no; no; no], extra)
  | T_extra_user_data => ([one; one; one; one; one; one; one; one; one], extra)
  | T_extra_padding => ([one; one; one; one; one; one; one; one; one], extra)
  | T_etc_tx_flags16_t => ([one; one; one; one; one; one; one; one; one], extra)
  | T_extra_alias_entry => ([no; no; one; one; one; one; one; one; one], extra)
  | T_zarcanum_tx_data_v1 => ([no; no; no; no; one; one; one; one; one], extra)
  | T_asset_descriptor_operation => ([no; no; no; no; one; one; one; one; one], extra)
  | T_gateway_address_descriptor_operation => ([no; no; no; no; no; no; one; no; no], extra)
  | T_etc_coinbase_block_cumulative_size => ([no; no; no; no; no; no; one; one; one], extra)
  | T_txin_gen => ([one; one; one; one; one; one; one; one; one], input)
  | T_txin_to_key => ([many; many; many; many; many; many; many; many; many], input)
  | T_txin_multisig => ([many; many; many; many; many; many; many; many; many], input)
  | T_txin_zc_input => ([no; no; no; no; many; many; many; many; many], input)
  | T_txin_gateway => ([no; no; no; no; no; no; many; no; no], input)
  | T_tx_out_bare => ([many; many; many; many; no; no; no; no; no], output)
  | T_tx_out_zarcanum => ([no; no; no; no; many; many; many; many; many], output)
  | T_tx_out_gateway => ([no; no; no; no; no; no; many; no; no], output)
  | T_NLSAG_sig => ([many; many; many; many; many; many; many; many; many], signtr)
  | T_void_sig => ([no; no; no; no; many; many; many; many; many], signtr)
  | T_ZC_sig => ([no; no; no; no; many; many; many; many; many], signtr)
  | T_zarcanum_sig => ([no; no; no; no; many; many; many; many; many], signtr)
  | T_gateway_sig => ([no; no; no; no; no; no; many; no; no], signtr)
  | T_zc_asset_surjection_proof => ([no; no; no; no; many; many; many; many; many], proofs)
  | T_zc_outs_range_proof => ([no; no; no; no; many; many; many; many; many], proofs)
  | T_zc_balance_proof => ([no; no; no; no; one; one; one; one; one], proofs)
  | T_zc_gw_balance_proof => ([no; no; no; no; no; no; one; no; no], proofs)
  | T_asset_operation_proof => ([no; no; no; no; one; one; one; one; one], proofs)
  | T_asset_operation_ownership_proof => ([no; no; no; no; one; one; one; one; one], proofs)
  | T_asset_operation_ownership_proof_eth => ([no; no; no; no; one; one; one; one; one], proofs)
  | T_gateway_address_ownership_proof => ([no; no; no; no; no; no; one; no; no], proofs)
  end.

Definition payload_type (v : payload_items_v) : term_type :=
  match v with
  | P_tx_service_attachment _ => T_tx_service_attachment | P_tx_comment _ => T_tx_comment
  | P_tx_payer_old _ => T_tx_payer_old | P_tx_receiver_old _ => T_tx_receiver_old
  | P_tx_derivation_hint _ => T_tx_derivation_hint | P_string _ => T_std_string
  | P_tx_crypto_checksum _ => T_tx_crypto_checksum | P_etc_tx_time _ => T_etc_tx_time
  | P_etc_tx_details_unlock_time _ => T_etc_tx_details_unlock_time
  | P_etc_tx_details_expiration_time _ => T_etc_tx_details_expiration_time
  | P_etc_tx_details_flags _ => T_etc_tx_details_flags | P_public_key _ => T_crypto_public_key
  | P_extra_attachment_info _ => T_extra_attachment_info | P_extra_alias_entry_old _ => T_extra_alias_entry_old
  | P_extra_user_data _ => T_extra_user_data | P_extra_padding _ => T_extra_padding
  | P_etc_tx_flags16_t _ => T_etc_tx_flags16_t
  | P_etc_tx_details_unlock_time2 _ => T_etc_tx_details_unlock_time2
  | P_tx_payer _ => T_tx_payer | P_tx_receiver _ => T_tx_receiver
  | P_extra_alias_entry _ => T_extra_alias_entry | P_zarcanum_tx_data_v1 _ => T_zarcanum_tx_data_v1
  | P_asset_descriptor_operation _ => T_asset_descriptor_operation
  | P_gateway_address_descriptor_operation _ => T_gateway_address_descriptor_operation
  | P_etc_coinbase_block_cumulative_size _ => T_etc_coinbase_block_cumulative_size
  end.

Definition in_type (v : txin_v) : term_type :=
  match v with
  | in_gen _ => T_txin_gen | in_to_key _ => T_txin_to_key | in_multisig _ => T_txin_multisig
  | in_gateway _ => T_txin_gateway | in_zc _ => T_txin_zc_input
  end.

Definition out_type (v : tx_out_v) : term_type :=
  match v with
  | out_bare _ => T_tx_out_bare | out_zarcanum _ => T_tx_out_zarcanum | out_gateway _ => T_tx_out_gateway
  end.

Definition sig_type (v : signature_v) : term_type :=
  match v with
  | sig_NLSAG _ => T_NLSAG_sig | sig_void _ => T_void_sig | sig_ZC _ => T_ZC_sig | sig_zarcanum _ => T_zarcanum_sig
  | sig_gateway _ => T_gateway_sig
  end.

Definition proof_type (v : proof_v) : term_type :=
  match v with
  | proof_asset_surjection _ => T_zc_asset_surjection_proof | proof_outs_range _ => T_zc_outs_range_proof
  | proof_balance _ => T_zc_balance_proof | proof_asset_operation _ => T_asset_operation_proof
  | proof_asset_operation_ownership _ => T_asset_operation_ownership_proof
  | proof_asset_operation_ownership_eth _ => T_asset_operation_ownership_proof_eth
  | proof_gateway_address_ownership _ => T_gateway_address_ownership_proof
  | proof_gw_balance _ => T_zc_gw_balance_proof
  end.

(** [m_type_occurence_count] of the visitor. *)
Definition occurrences : Type := term_type -> Z.

(** [proxy_visitor::operator()]: the result and the new counts. *)
Definition proxy_visitor (m_current_hard_fork_id : nat) (m_container_type : Z) (T : term_type)
    (m_type_occurence_count : occurrences) : outcome (bool * occurrences) :=
  let '(hf, container_mask) := type_hf_terms_traits T in
  if Z.land m_container_type container_mask =? 0 then Ret (false, m_type_occurence_count)
  else
    let type_count := m_type_occurence_count T + 1 in
    let counts := fun U => if decide (U = T) then type_count else m_type_occurence_count U in
    if (m_current_hard_fork_id <? List.length hf)%nat then
      match List.nth m_current_hard_fork_id hf no with
      | no => Ret (false, counts)
      | one => Ret (if 1 <? type_count then false else true, counts)
      | many => Ret (true, counts)
      end
    else Throw.

(** The loop over one container. *)
Fixpoint visit_container (hf : nat) (container : Z) (els : list term_type) (counts : occurrences)
    : outcome (bool * occurrences) :=
  match els with
  | [] => Ret (true, counts)
  | T :: els =>
      '(r, counts) ← proxy_visitor hf container T counts;
      if r : bool then visit_container hf container els counts else Ret (false, counts)
  end.

Definition validate_tx_for_hardfork_specific_terms_types_HF6 (tx : transaction) (current_hard_fork_id : nat)
    : outcome bool :=
  let visit := visit_container current_hard_fork_id in
  '(r, counts) ← visit extra (map payload_type (tp_extra (tx_prefix tx))) (fun _ => 0);
  if negb r then Ret false else
  '(r, counts) ← visit attach (map payload_type (tx_attachment tx)) counts;
  if negb r then Ret false else
  '(r, counts) ← visit input (map in_type (tp_vin (tx_prefix tx))) counts;
  if negb r then Ret false else
  '(r, counts) ← visit output (map out_type (tp_vout (tx_prefix tx))) counts;
  if negb r then Ret false else
  '(r, counts) ← visit proofs (map proof_type (tx_proofs tx)) counts;
  if negb r then Ret false else
  '(r, counts) ← visit signtr (map sig_type (tx_signatures tx)) counts;
  Ret r.

(** ** What the validation accepts *)

(** The contents of a transaction, each with the container it is in. *)
Definition contents (tx : transaction) : list (Z * term_type) :=
  map (pair extra) (map payload_type (tp_extra (tx_prefix tx))) ++
  map (pair attach) (map payload_type (tx_attachment tx)) ++
  map (pair input) (map in_type (tp_vin (tx_prefix tx))) ++
  map (pair output) (map out_type (tp_vout (tx_prefix tx))) ++
  map (pair proofs) (map proof_type (tx_proofs tx)) ++
  map (pair signtr) (map sig_type (tx_signatures tx)).

Definition term (hf : nat) (T : term_type) : allowance := List.nth hf (fst (type_hf_terms_traits T)) no.

Definition permitted (hf : nat) (e : Z * term_type) : Prop :=
  Z.land (fst e) (snd (type_hf_terms_traits (snd e))) <> 0 /\ term hf (snd e) <> no.

Fixpoint occ (T : term_type) (l : list (Z * term_type)) : Z :=
  match l with [] => 0 | (_, U) :: l => (if decide (T = U) then 1 else 0) + occ T l end.

(** Everything is where it may be, and nothing occurs twice that may occur
    once. *)
Definition terms_ok (hf : nat) (counts : occurrences) (l : list (Z * term_type)) : Prop :=
  Forall (permitted hf) l /\ forall T, T ∈ map snd l -> term hf T = one -> counts T + occ T l <= 1.

Lemma occ_nonneg T l : 0 <= occ T l.
Proof. induction l as [|[c U] l IH]; cbn; [done|]. case_decide; lia. Qed.

Lemma occ_app T l1 l2 : occ T (l1 ++ l2) = occ T l1 + occ T l2.
Proof. induction l1 as [|[c U] l IH]; cbn; [done|]. rewrite IH. lia. Qed.

Lemma traits_length T : List.length (fst (type_hf_terms_traits T)) = 9%nat.
Proof. by destruct T. Qed.

(** One step of the visitor. *)
Lemma proxy_visitor_spec hf c T counts : (hf < 9)%nat ->
  exists r counts', proxy_visitor hf c T counts = Ret (r, counts') /\
    (r = true -> permitted hf (c, T) /\ (term hf T = one -> counts T + 1 <= 1) /\
                 forall U, counts' U = counts U + occ U [(c, T)]) /\
    (r = false -> ~ permitted hf (c, T) \/ term hf T = one /\ 1 < counts T + 1).
Proof.
  intros Hh. unfold proxy_visitor, permitted, term. pose proof (traits_length T) as Hl.
  destruct (type_hf_terms_traits T) as [tbl mask] eqn:Et. cbn in Hl. cbn [fst snd]. rewrite Et. cbn [fst snd].
  destruct (Z.land c mask =? 0) eqn:Em; zbool.
  { eexists _, _. split; [done|]. split; [done|]. intros _. left. tauto. }
  rewrite (proj2 (Nat.ltb_lt _ _)) by lia.
  assert (Hc : forall U, (if decide (U = T) then counts T + 1 else counts U) = counts U + occ U [(c, T)]).
  { intros U. cbn. case_decide; subst; lia. }
  destruct (List.nth hf tbl no) eqn:Ea; eexists _, _; (split; [done|]).
  - split; [done|]. intros _. left. tauto.
  - destruct (1 <? counts T + 1) eqn:E1; zbool; (split; [|]); try done.
    intros _. right. split; [done|]. lia.
  - split; [|done]. intros _. split; [split; [done|congruence]|]. split; [congruence|exact Hc].
Qed.

Lemma visit_container_spec hf c els counts : (hf < 9)%nat -> (forall U, 0 <= counts U) ->
  exists r counts', visit_container hf c els counts = Ret (r, counts') /\
    (r = true <-> terms_ok hf counts (map (pair c) els)) /\
    (r = true -> forall U, counts' U = counts U + occ U (map (pair c) els)).
Proof.
  intros Hh. revert counts. induction els as [|T els IH]; intros counts Hpos; cbn [visit_container map].
  - eexists _, _. split; [done|]. split; [|intros _ U; cbn; lia].
    split; [|done]. intros _. split; [constructor|]. by intros T ?%elem_of_nil.
  - destruct (proxy_visitor_spec hf c T counts Hh) as (r & counts1 & E & Ht & Hf). rewrite E. outcome_simp.
    destruct r.
    + destruct (Ht eq_refl) as (Hp & H1 & Hc1). clear Ht Hf.
      destruct (IH counts1) as (r & counts' & E' & Hr & Hc').
      { intros U. rewrite Hc1. pose proof (occ_nonneg U [(c, T)]). pose proof (Hpos U). lia. }
      exists r, counts'. split; [done|]. split.
      * rewrite Hr. clear -Hp H1 Hc1 Hpos. unfold terms_ok. rewrite Forall_cons. cbn [map snd].
        setoid_rewrite Hc1. split.
        -- intros [Hf Hu]. split; [by split|]. intros U HU HoU. specialize (Hu U).
           cbn in *. apply elem_of_cons in HU as [->|HU]; [|specialize (Hu HU HoU); lia].
           destruct (decide (T ∈ map snd (map (pair c) els))) as [Hin|Hnin]; [specialize (Hu Hin HoU); lia|].
           assert (occ T (map (pair c) els) = 0) as ->.
           { clear -Hnin. induction els as [|V els IH]; cbn in *; [done|]. apply not_elem_of_cons in Hnin as [??].
             rewrite decide_False, IH by done. lia. }
           specialize (H1 HoU). case_decide; lia.
        -- intros [[_ Hf] Hu]. split; [done|]. intros U HU HoU. specialize (Hu U). cbn in *.
           specialize (Hu ltac:(by right) HoU). lia.
      * intros Hr' U. rewrite Hc' by done. rewrite Hc1. cbn. lia.
    + eexists _, _. split; [done|]. split; [|done]. split; [done|]. intros [Hf' Hu]. exfalso.
      apply Forall_cons in Hf' as [Hp _]. destruct (Hf eq_refl) as [Hn|[Ho Hgt]]; [done|].
      specialize (Hu T ltac:(by left) Ho). cbn in Hu. rewrite decide_True in Hu by done.
      pose proof (occ_nonneg T (map (pair c) els)). lia.
Qed.

Lemma terms_ok_app hf counts l1 l2 : (forall U, 0 <= counts U) ->
  terms_ok hf counts (l1 ++ l2) <->
  terms_ok hf counts l1 /\ terms_ok hf (fun U => counts U + occ U l1) l2.
Proof.
  intros Hpos. unfold terms_ok. rewrite Forall_app. setoid_rewrite map_app. setoid_rewrite elem_of_app.
  setoid_rewrite occ_app. split.
  - intros [[H1 H2] Hu]. repeat split; try done.
    + intros T HT Ho. specialize (Hu T ltac:(by left) Ho). pose proof (occ_nonneg T l2). lia.
    + intros T HT Ho. specialize (Hu T ltac:(by right) Ho). lia.
  - intros [[H1 Hu1] [H2 Hu2]]. split; [done|]. intros T HT Ho.
    destruct (decide (T ∈ map snd l2)) as [Hin|Hnin]; [specialize (Hu2 T Hin Ho); lia|].
    destruct HT as [HT|?]; [|done]. specialize (Hu1 T HT Ho).
    assert (occ T l2 = 0) as ->; [|lia].
    clear -Hnin. induction l2 as [|[d V] l2 IH]; cbn in *; [done|]. apply not_elem_of_cons in Hnin as [??].
    rewrite decide_False, IH by done. lia.
Qed.

(** The validation as one pass over a list of containers. *)
Fixpoint visit_seq (hf : nat) (cs : list (Z * list term_type)) (counts : occurrences) : outcome bool :=
  match cs with
  | [] => Ret true
  | (c, els) :: cs =>
      '(r, counts) ← visit_container hf c els counts;
      if negb r then Ret false else visit_seq hf cs counts
  end.

Lemma visit_seq_spec hf cs counts : (hf < 9)%nat -> (forall U, 0 <= counts U) ->
  exists b, visit_seq hf cs counts = Ret b /\
    (b = true <-> terms_ok hf counts (cs ≫= fun '(c, els) => map (pair c) els)).
Proof.
  intros Hh. revert counts. induction cs as [|[c els] cs IH]; intros counts Hpos; cbn [visit_seq mbind list_bind].
  - exists true. split; [done|]. split; [|done]. intros _. split; [constructor|]. by intros T ?%elem_of_nil.
  - destruct (visit_container_spec hf c els counts Hh Hpos) as (r & counts' & E & Hr & Hc). rewrite E. outcome_simp.
    change (((c, els) :: cs) ≫= fun '(c, els) => map (pair c) els)
      with (map (pair c) els ++ (cs ≫= fun '(c, els) => map (pair c) els)).
    setoid_rewrite (terms_ok_app hf counts (map (pair c) els)); [|done]. destruct r; cbn [negb].
    + destruct (IH counts') as (b & E' & Hb).
      { intros U. rewrite Hc by done. pose proof (occ_nonneg U (map (pair c) els)). pose proof (Hpos U). lia. }
      exists b. split; [done|]. rewrite Hb. specialize (Hc eq_refl). pose proof (proj1 Hr eq_refl).
      assert (Hext : forall l, terms_ok hf counts' l <-> terms_ok hf (fun U => counts U + occ U (map (pair c) els)) l).
      { intros l. unfold terms_ok. by setoid_rewrite Hc. }
      rewrite Hext. tauto.
    + exists false. split; [done|]. split; [done|]. intros [?%Hr _]. done.
Qed.

Lemma validate_terms_spec tx hf : (hf < 9)%nat ->
  exists b, validate_tx_for_hardfork_specific_terms_types_HF6 tx hf = Ret b /\
    (b = true <-> terms_ok hf (fun _ => 0) (contents tx)).
Proof.
  intros Hh.
  set (cs := [(extra, map payload_type (tp_extra (tx_prefix tx))); (attach, map payload_type (tx_attachment tx));
    (input, map in_type (tp_vin (tx_prefix tx))); (output, map out_type (tp_vout (tx_prefix tx)));
    (proofs, map proof_type (tx_proofs tx)); (signtr, map sig_type (tx_signatures tx))]).
  assert (validate_tx_for_hardfork_specific_terms_types_HF6 tx hf = visit_seq hf cs (fun _ => 0)) as ->.
  { unfold validate_tx_for_hardfork_specific_terms_types_HF6, cs. cbn [visit_seq].
    repeat (destruct (visit_container _ _ _ _) as [[[] ?]|]; outcome_simp; cbn [negb]; try done). }
  destruct (visit_seq_spec hf cs (fun _ => 0) Hh ltac:(done)) as (b & E & Hb).
  exists b. split; [done|]. rewrite Hb. unfold cs, contents. cbn [mbind list_bind]. by rewrite app_nil_r.
Qed.

(** the hard-fork terms decide a transaction completely: the validation
    accepts it exactly when every payload, input, output, proof and signature
    is in a container its type may be in and its type is allowed at that fork,
    and no type allowed once occurs twice, counted over all the containers
    together; at every known fork it gives an answer. *)
Theorem hf6_terms_accept_iff tx hf : (hf < 9)%nat ->
  exists b, validate_tx_for_hardfork_specific_terms_types_HF6 tx hf = Ret b /\
    (b = true <->
      Forall (permitted hf) (contents tx) /\
      forall T, T ∈ map snd (contents tx) -> term hf T = one -> occ T (contents tx) <= 1).
Proof. apply validate_terms_spec. Qed.

Definition demo_tx_hf6 : transaction := {|
  tx_prefix := {| tp_version := 4; tp_hardfork_id := 6; tp_vin := tp_vin (tx_prefix demo_tx_v4);
    tp_extra := tp_extra (tx_prefix demo_tx_v4); tp_vout := tp_vout (tx_prefix demo_tx_v4) |};
  tx_attachment := [P_string [1]]; tx_signatures := tx_signatures demo_tx_v4; tx_proofs := tx_proofs demo_tx_v4 |}.

(** Gateway inputs and outputs are for hard fork 6 alone, and a comment may not
    be an attachment. *)
Example hf6_terms_accept_iff_witness :
  (6 < 9)%nat /\
  (validate_tx_for_hardfork_specific_terms_types_HF6 demo_tx_hf6 6 = Ret true /\ occ T_zc_balance_proof (contents demo_tx_hf6) <= 1) /\
  validate_tx_for_hardfork_specific_terms_types_HF6 demo_tx_hf6 7 = Ret false /\
  validate_tx_for_hardfork_specific_terms_types_HF6 demo_tx_v4 6 = Ret false.
Proof.
  split; [lia|]. split.
  - destruct (hf6_terms_accept_iff demo_tx_hf6 6 ltac:(lia)) as (b & E & H & _).
    assert (b = true) as -> by (vm_compute in E; congruence).
    split; [exact E|]. destruct (H eq_refl) as [_ Hone]. apply Hone; [|reflexivity].
    apply list_elem_of_In. vm_compute. tauto.
  - split; vm_compute; reflexivity.
Defined.
