(* ===== verification/TxSemantic.v ===== *)
(** * Semantic validation of transactions:
    [src/src/currency_core/tx_semantic_validation.cpp] and the checks of
    [currency_format_utils.cpp] it calls

    The checks a transaction must pass before anything is looked up in the
    chain.  The test that a public key encodes a point of the curve is a
    variable of the section. *)

From S2P Require Import Prelude Config Archive Pod CryptoTypes Basic Transactions HfTerms.

Abbreviation vin tx := (tp_vin (tx_prefix tx)).
Abbreviation vout tx := (tp_vout (tx_prefix tx)).
Abbreviation version tx := (tp_version (tx_prefix tx)).
Abbreviation hardfork_id tx := (tp_hardfork_id (tx_prefix tx)).

Definition native_coin_asset_id_1div8 : public_key :=
  [0x74; 0xc3; 0x2d; 0x3e; 0xaa; 0xfa; 0xfc; 0x62; 0x3b; 0xf4; 0x83; 0xe8; 0x58; 0xd4; 0x2e; 0x8b;
   0xf4; 0xec; 0x7d; 0xf0; 0x64; 0xad; 0xa2; 0xe3; 0x49; 0x34; 0x46; 0x9c; 0xff; 0x6b; 0x62; 0x68].

(** ** Amounts *)

Definition get_amount_from_variant (v : txin_v) : Z :=
  match v with
  | in_to_key i => ttk_amount i
  | in_multisig i => tms_amount i
  | in_gateway i => tgw_amount i
  | in_zc _ | in_gen _ => 0
  end.

Definition get_inputs_money_amount (tx : transaction) : Z :=
  fold_left (fun money i => u64 (money + get_amount_from_variant i)) (vin tx) 0.

(** [get_outs_money_amount] with its default argument, the null keys, so that
    hidden amounts are not looked at. *)
Definition get_outs_money_amount (tx : transaction) : Z :=
  fold_left (fun outputs_amount o =>
    match o with
    | out_bare bo => u64 (outputs_amount + ob_amount bo)
    | _ => outputs_amount
    end) (vout tx) 0.

(** The loop both overflow checks share; [None] is a wrong type. *)
Fixpoint overflow_loop {A} (this_amount : A -> option Z) (l : list A) (money : Z) : bool :=
  match l with
  | [] => true
  | x :: l =>
      match this_amount x with
      | None => false
      | Some a => if u64 (a + money) <? money then false else overflow_loop this_amount l (u64 (money + a))
      end
  end.

Definition input_amount (v : txin_v) : option Z :=
  match v with
  | in_to_key tokey_in => Some (ttk_amount tokey_in)
  | in_multisig ms_in => Some (tms_amount ms_in)
  | in_zc _ => Some 0
  | in_gateway gw_in =>
      Some (if decide (tgw_asset_id gw_in = native_coin_asset_id_1div8) then tgw_amount gw_in else 0)
  | in_gen _ => None
  end.

Definition check_bare_inputs_overflow (tx : transaction) : bool := overflow_loop input_amount (vin tx) 0.

Definition output_amount (v : tx_out_v) : option Z :=
  match v with
  | out_bare o => Some (ob_amount o)
  | out_gateway out_gw =>
      Some (if decide (ogw_asset_id out_gw = native_coin_asset_id_1div8) then ogw_amount out_gw else 0)
  | out_zarcanum _ => Some 0
  end.

Definition check_bare_outs_overflow (tx : transaction) : bool := overflow_loop output_amount (vout tx) 0.

Definition check_bare_money_overflow (tx : transaction) : bool :=
  check_bare_inputs_overflow tx && check_bare_outs_overflow tx.

Definition check_tx_bare_balance (tx : transaction) (additional_inputs_amount_and_fees_for_mining_tx : Z) : bool :=
  if TRANSACTION_VERSION_PRE_HF4 <? version tx then false
  else
    let bare_outputs_sum := get_outs_money_amount tx in
    let bare_inputs_sum := get_inputs_money_amount tx in
    if additional_inputs_amount_and_fees_for_mining_tx =? 0 then bare_outputs_sum <=? bare_inputs_sum
    else u64 (bare_inputs_sum + additional_inputs_amount_and_fees_for_mining_tx) =? bare_outputs_sum.

(** ** The fee *)

Definition is_coinbase (tx : transaction) : bool :=
  match vin tx with
  | [in_gen _] | [in_gen _; _] => true
  | _ => false
  end.

(** The fees [process_type_in_variant_container] hands to the callback. *)
Definition zarcanum_fees (l : list payload_items_v) : list Z :=
  omap (fun p => match p with P_zarcanum_tx_data_v1 fee => Some fee | _ => None end) l.

(** [None] is [false], with the fee 0 or the one before it. *)
Definition get_tx_fee (tx : transaction) : option Z :=
  if is_coinbase tx then Some 0
  else if version tx <=? TRANSACTION_VERSION_PRE_HF4 then
    let amount_out := get_outs_money_amount tx in
    let amount_in := fold_left (fun a i => u64 (a + get_amount_from_variant i)) (vin tx) 0 in
    if amount_out <=? amount_in then Some (u64 (amount_in - amount_out)) else None
  else
    match zarcanum_fees (tp_extra (tx_prefix tx)) with
    | [] => None
    | fees => Some (fold_left (fun fee f => u64 (fee + f)) fees 0)
    end.

(** ** Inputs *)

Definition check_inputs_types_supported (tx : transaction) : bool :=
  forallb (fun i => match i with in_gen _ => false | _ => true end) (vin tx).

Definition key_offsets_of (i : txin_v) : list txout_ref_v :=
  match i with in_to_key i => ttk_key_offsets i | in_zc i => tzc_key_offsets i | _ => [] end.

Definition additional_inputs_types_validations (tx : transaction) : bool :=
  forallb (fun i =>
    if ZANO_HARDFORK_04_ZARCANUM <? hardfork_id tx then
      forallb (fun o => match o with ref_id _ => false | _ => true end) (key_offsets_of i)
    else true) (vin tx).

Definition get_key_image_from_txin_v (in_v : txin_v) : option key_image :=
  match in_v with
  | in_zc i => Some (tzc_k_image i)
  | in_to_key i => Some (ttk_k_image i)
  | _ => None
  end.

Fixpoint keyimages_loop (l : list txin_v) (key_images multisig_out_ids : gset (list Z)) : bool :=
  match l with
  | [] => true
  | in_v :: l =>
      match get_key_image_from_txin_v in_v with
      | Some ki => if decide (ki ∈ key_images) then false else keyimages_loop l ({[ki]} ∪ key_images) multisig_out_ids
      | None =>
          match in_v with
          | in_multisig ms_in =>
              if decide (tms_multisig_out_id ms_in ∈ multisig_out_ids) then false
              else keyimages_loop l key_images ({[tms_multisig_out_id ms_in]} ∪ multisig_out_ids)
          | _ => keyimages_loop l key_images multisig_out_ids
          end
      end
  end.

Definition check_tx_inputs_keyimages_diff (tx : transaction) : bool := keyimages_loop (vin tx) ∅ ∅.

Definition check_inputs_and_outputs_size (tx : transaction) : bool :=
  let n_in := Z.of_nat (List.length (vin tx)) in
  let tx_max_allowed_outs :=
    if TRANSACTION_VERSION_POST_HF4 <=? version tx then CURRENCY_TX_MAX_ALLOWED_OUTS
    else CURRENCY_TX_MAX_ALLOWED_OUTS_PRE_HF4 in
  if n_in =? 0 then false
  else if negb ((version tx <? TRANSACTION_VERSION_POST_HF5) || (n_in <=? CURRENCY_TX_MAX_ALLOWED_INPUTS)) then false
  else Z.of_nat (List.length (vout tx)) <=? tx_max_allowed_outs.

(** ** The extra *)

Record tx_extra_info : Type := {
  m_tx_pub_key : public_key; m_alias : extra_alias_entry; m_user_data_blob : list Z;
  m_attachment_info : extra_attachment_info; m_asset_operation : asset_descriptor_operation;
  m_opt_gateway_address_operation : option gateway_address_descriptor_operation
}.

(** [AUTO_VAL_INIT(ei)]: every member zero, empty or as its declaration
    initialises it. *)
Definition tx_extra_info_init : tx_extra_info := {|
  m_tx_pub_key := null_pkey;
  m_alias := Build_extra_alias_entry [] (Build_account_public_address null_pkey null_pkey 0) [] [] [];
  m_user_data_blob := [];
  m_attachment_info := Build_extra_attachment_info 0 null_hash 0;
  m_asset_operation := Build_asset_descriptor_operation 0 ASSET_DESCRIPTOR_OPERATION_HF4_VER None None None None None [];
  m_opt_gateway_address_operation := None |}.

(** The converting constructor [extra_alias_entry(const extra_alias_entry_old&)]. *)
Definition alias_from_old (old : extra_alias_entry_old) : extra_alias_entry :=
  let a := aeo_m_address old in
  Build_extra_alias_entry (aeo_m_alias old)
    (Build_account_public_address (apao_spend_public_key a) (apao_view_public_key a) 0)
    (aeo_m_text_comment old) (aeo_m_view_key old) (aeo_m_sign old).

(** The flags [was_padding], ... of the handler: the set of the entries seen. *)
Inductive onetime : Type :=
| was_padding | was_pubkey | was_attachment | was_userdata | was_alias | was_asset | was_gateway.

#[export] Instance onetime_eq_dec : EqDecision onetime.
Proof. solve_decision. Defined.

Definition with_pub_key (k : public_key) (e : tx_extra_info) : tx_extra_info :=
  Build_tx_extra_info k (m_alias e) (m_user_data_blob e) (m_attachment_info e) (m_asset_operation e)
    (m_opt_gateway_address_operation e).
Definition with_alias (a : extra_alias_entry) (e : tx_extra_info) : tx_extra_info :=
  Build_tx_extra_info (m_tx_pub_key e) a (m_user_data_blob e) (m_attachment_info e) (m_asset_operation e)
    (m_opt_gateway_address_operation e).
Definition with_user_data (b : list Z) (e : tx_extra_info) : tx_extra_info :=
  Build_tx_extra_info (m_tx_pub_key e) (m_alias e) b (m_attachment_info e) (m_asset_operation e)
    (m_opt_gateway_address_operation e).
Definition with_attachment (a : extra_attachment_info) (e : tx_extra_info) : tx_extra_info :=
  Build_tx_extra_info (m_tx_pub_key e) (m_alias e) (m_user_data_blob e) a (m_asset_operation e)
    (m_opt_gateway_address_operation e).
Definition with_asset (a : asset_descriptor_operation) (e : tx_extra_info) : tx_extra_info :=
  Build_tx_extra_info (m_tx_pub_key e) (m_alias e) (m_user_data_blob e) (m_attachment_info e) a
    (m_opt_gateway_address_operation e).
Definition with_gateway (g : gateway_address_descriptor_operation) (e : tx_extra_info) : tx_extra_info :=
  Build_tx_extra_info (m_tx_pub_key e) (m_alias e) (m_user_data_blob e) (m_attachment_info e) (m_asset_operation e)
    (Some g).

(** [tx_extra_handler::operator()]: the flag the entry must not find set, if it
    has one, and what it does to the info. *)
Definition tx_extra_entry (ex_v : payload_items_v) : option (onetime * (tx_extra_info -> tx_extra_info)) :=
  match ex_v with
  | P_public_key k => Some (was_pubkey, with_pub_key k)
  | P_extra_attachment_info ai => Some (was_attachment, with_attachment ai)
  | P_extra_alias_entry ae => Some (was_alias, with_alias ae)
  | P_asset_descriptor_operation ado => Some (was_asset, with_asset ado)
  | P_gateway_address_descriptor_operation gao => Some (was_gateway, with_gateway gao)
  | P_extra_alias_entry_old ae => Some (was_alias, with_alias (alias_from_old ae))
  | P_extra_user_data buff => Some (was_userdata, match buff with [] => id | _ => with_user_data buff end)
  | P_extra_padding _ => Some (was_padding, id)
  | _ => None
  end.

(** The handler over the whole extra: the verdict and the info as it was left. *)
Fixpoint tx_extra_handler (l : list payload_items_v) (was : list onetime) (rei : tx_extra_info)
    : bool * tx_extra_info :=
  match l with
  | [] => (true, rei)
  | ex_v :: l =>
      match tx_extra_entry ex_v with
      | None => tx_extra_handler l was rei
      | Some (varname, upd) =>
          if decide (varname ∈ was) then (false, rei) else tx_extra_handler l (varname :: was) (upd rei)
      end
  end.

Definition parse_and_validate_tx_extra (tx : transaction) (extra : tx_extra_info) : bool * tx_extra_info :=
  tx_extra_handler (tp_extra (tx_prefix tx)) [] (with_pub_key null_pkey extra).

Definition check_tx_extra (tx : transaction) : bool := fst (parse_and_validate_tx_extra tx tx_extra_info_init).

Section validation.
Variable check_key : public_key -> bool.

(** ** Outputs *)

Definition check_out_valid (vo : tx_out_v) : bool :=
  match vo with
  | out_bare out =>
      if negb (0 <? ob_amount out) then false
      else match ob_target out with
           | target_to_key tk => check_key (tok_key tk)
           | target_multisig ms =>
               let n := Z.of_nat (List.length (oms_keys ms)) in
               (0 <? n) && (0 <? oms_minimum_sigs ms) && (oms_minimum_sigs ms <=? n)
           end
  | out_zarcanum o =>
      check_key (oz_stealth_address o) && check_key (oz_concealing_point o) &&
      check_key (oz_amount_commitment o) && check_key (oz_blinded_asset_id o)
  | out_gateway _ => true
  end.

Definition check_outs_valid (tx : transaction) : bool := forallb check_out_valid (vout tx).

(** ** The validation *)

Definition validate_tx_semantic (tx : transaction) (tx_blob_size : Z) : outcome bool :=
  if CURRENCY_MAX_TRANSACTION_BLOB_SIZE <=? tx_blob_size then Ret false
  else if negb (check_inputs_and_outputs_size tx) then Ret false
  else
    types ← (if ZANO_HARDFORK_06 <=? hardfork_id tx
             then validate_tx_for_hardfork_specific_terms_types_HF6 tx (Z.to_nat (hardfork_id tx))
             else Ret (check_inputs_types_supported tx));
    if negb types then Ret false
    else if negb (additional_inputs_types_validations tx) then Ret false
    else if negb (check_outs_valid tx) then Ret false
    else if negb (check_bare_money_overflow tx) then Ret false
    else if negb (check_tx_inputs_keyimages_diff tx) then Ret false
    else if negb (check_tx_extra tx) then Ret false
    else if version tx <=? TRANSACTION_VERSION_PRE_HF4 then Ret (check_tx_bare_balance tx 0)
    else Ret true.

End validation.

(** ** What the checks decide *)

Definition sum_Z (l : list Z) : Z := fold_right Z.add 0 l.

Lemma sum_Z_cons x l : sum_Z (x :: l) = x + sum_Z l.
Proof. done. Qed.

Lemma sum_Z_nonneg l : Forall (fun x => 0 <= x) l -> 0 <= sum_Z l.
Proof. induction 1 as [|x l Hx _ IH]; [done|]. rewrite sum_Z_cons. lia. Qed.

(** The test [money > this_amount + money] sees exactly the sums that leave
    64 bits. *)
Lemma wrapped_sum_test a money : is_u64 a -> is_u64 money ->
  (u64 (a + money) <? money) = negb (a + money <? 2 ^ 64).
Proof.
  unfold in_u. intros Ha Hm. destruct (a + money <? 2 ^ 64) eqn:E; zbool; cbn.
  - apply Z.ltb_ge. rewrite wrap_small by (split; lia). lia.
  - apply Z.ltb_lt. destruct (wrap_eq 64 (a + money)) as [k Hk]; [lia|].
    pose proof (wrap_range 64 (a + money)) as Hr. unfold in_u in Hr.
    assert (1 <= k) by (change (2 ^ 64) with 18446744073709551616 in *; lia).
    change (2 ^ 64) with 18446744073709551616 in *. nia.
Qed.

Lemma overflow_loop_spec {A} (f : A -> option Z) l money :
  is_u64 money -> Forall (fun x => forall a, f x = Some a -> is_u64 a) l ->
  overflow_loop f l money = true <-> exists amounts, mapM f l = Some amounts /\ money + sum_Z amounts < 2 ^ 64.
Proof.
  intros Hm Hl. revert money Hm. induction Hl as [|x l Hx Hl IH]; intros money Hm; cbn [overflow_loop].
  - split; [|done]. intros _. exists []. unfold in_u in Hm. split; [done|]. change (sum_Z []) with 0. lia.
  - destruct (f x) as [a|] eqn:Ex.
    2:{ split; [done|]. intros (? & E & _). cbn in E. by rewrite Ex in E. }
    specialize (Hx a eq_refl). rewrite wrapped_sum_test by done.
    assert (Hnn : forall amounts, mapM f l = Some amounts -> 0 <= sum_Z amounts).
    { intros amounts E. apply sum_Z_nonneg. apply mapM_Some in E. clear -E Hl. induction E as [|y b ys bs E _ IH]; [done|].
      apply Forall_cons in Hl as [Hy Hl]. constructor; [by apply Hy|by apply IH]. }
    destruct (a + money <? 2 ^ 64) eqn:E; zbool; cbn [negb].
    + unfold in_u in *. rewrite wrap_small by (split; lia). rewrite IH by (split; lia). split.
      * intros (am & Em & Hs). exists (a :: am). split; [cbn; by rewrite Ex, Em|]. rewrite sum_Z_cons. lia.
      * intros (am & Em & Hs). cbn in Em. rewrite Ex in Em. destruct (mapM f l) as [am'|]; [|done].
        cbn in Em. injection Em as <-. exists am'. split; [done|]. rewrite sum_Z_cons in Hs. lia.
    + split; [done|]. intros (am & Em & Hs). cbn in Em. rewrite Ex in Em.
      destruct (mapM f l) as [am'|]; [|done]. cbn in Em. injection Em as <-. specialize (Hnn am' eq_refl). rewrite sum_Z_cons in Hs. lia.
Qed.

(** A loop that adds amounts modulo 2^64. *)
Lemma wrapping_sum {A} (f : A -> Z) l acc : is_u64 acc ->
  fold_left (fun m x => u64 (m + f x)) l acc = u64 (acc + sum_Z (map f l)).
Proof.
  revert acc. induction l as [|x l IH]; intros acc Ha; cbn [fold_left map].
  - change (sum_Z []) with 0. by rewrite Z.add_0_r, wrap_small.
  - rewrite sum_Z_cons, IH by by apply wrap_range. unfold wrap. by rewrite Zplus_mod_idemp_l, Z.add_assoc.
Qed.

(** *** Key images *)

Definition key_images_of (l : list txin_v) : list key_image := omap get_key_image_from_txin_v l.
Definition multisig_ids_of (l : list txin_v) : list hash :=
  omap (fun i => match i with in_multisig m => Some (tms_multisig_out_id m) | _ => None end) l.

Lemma keyimages_loop_spec l ks ms :
  keyimages_loop l ks ms = true <->
  (NoDup (key_images_of l) /\ forall k, k ∈ key_images_of l -> k ∉ ks) /\
  (NoDup (multisig_ids_of l) /\ forall m, m ∈ multisig_ids_of l -> m ∉ ms).
Proof.
  revert ks ms. induction l as [|i l IH]; intros ks ms; cbn [keyimages_loop].
  { split; [|done]. intros _. split; (split; [constructor|by intros ? ?%elem_of_nil]). }
  assert (Hset : forall (k : list Z) L (S : gset (list Z)), k ∉ S ->
    ((NoDup L /\ forall x, x ∈ L -> x ∉ ({[k]} ∪ S : gset (list Z))) <->
     (NoDup (k :: L) /\ forall x, x ∈ k :: L -> x ∉ S))).
  { clear. intros k L S Hk. rewrite NoDup_cons. setoid_rewrite elem_of_cons.
    setoid_rewrite not_elem_of_union. setoid_rewrite not_elem_of_singleton. split.
    - intros [Hn Hd]. split; [split; [|done]|].
      + intros HL. by destruct (Hd k HL).
      + intros x [->|HL]; [done|]. by apply Hd.
    - intros [[HkL Hn] Hd]. split; [done|]. intros x HL. split; [by intros ->|]. apply Hd. by right. }
  destruct i as [g|t|m|g|z]; cbn [get_key_image_from_txin_v key_images_of multisig_ids_of omap list_omap];
    try apply IH; case_decide as Hin.
  all: try (split; [done|]; intros [[_ Hk] [_ Hm]]; exfalso; first [apply (Hk _ ltac:(by left)) | apply (Hm _ ltac:(by left))]; done).
  all: rewrite IH, Hset by done; done.
Qed.

(** *** The extra *)

Definition onetime_entries (l : list payload_items_v) : list onetime :=
  omap (fun p => fst <$> tx_extra_entry p) l.

Lemma tx_extra_handler_spec l was rei :
  fst (tx_extra_handler l was rei) = true <->
  NoDup (onetime_entries l) /\ forall o, o ∈ onetime_entries l -> o ∉ was.
Proof.
  revert was rei. induction l as [|p l IH]; intros was rei; cbn [tx_extra_handler].
  { split; [|done]. intros _. split; [constructor|by intros ? ?%elem_of_nil]. }
  unfold onetime_entries. cbn [omap list_omap]. destruct (tx_extra_entry p) as [[v upd]|]; cbn; [|apply IH].
  case_decide as Hin.
  - split; [done|]. intros [_ Hd]. exfalso. apply (Hd v); [by left|done].
  - rewrite IH. fold (onetime_entries l). rewrite NoDup_cons. setoid_rewrite elem_of_cons. split.
    + intros [Hn Hd]. split; [split; [|done]|].
      * intros HL. apply (Hd v HL). by left.
      * intros o [->|HL]; [done|]. intros Hw. apply (Hd o HL). by right.
    + intros [[HvL Hn] Hd]. split; [done|]. intros o HL [->|Hw]; [done|]. apply (Hd o); [by right|done].
Qed.

(** *** The amounts of a transaction *)

(** The amounts are [uint64_t]. *)
Definition amounts_u64 (tx : transaction) : Prop :=
  Forall (fun i => is_u64 (get_amount_from_variant i)) (vin tx) /\
  Forall (fun o => match o with out_bare b => is_u64 (ob_amount b) | out_gateway g => is_u64 (ogw_amount g)
                   | out_zarcanum _ => True end) (vout tx).

Definition is_gen (i : txin_v) : bool := match i with in_gen _ => true | _ => false end.

(** What an input brings and what an output takes of the native coin, where
    the amount is open. *)
Definition native_input (i : txin_v) : Z := match input_amount i with Some a => a | None => 0 end.
Definition native_output (o : tx_out_v) : Z := match output_amount o with Some a => a | None => 0 end.

(** The outputs the fee and the balance of an old transaction count. *)
Definition bare_output (o : tx_out_v) : Z := match o with out_bare b => ob_amount b | _ => 0 end.

Lemma overflow_total {A} (f : A -> option Z) l :
  Forall (fun x => forall a, f x = Some a -> is_u64 a) l ->
  overflow_loop f l 0 = true <->
  Forall (fun x => f x <> None) l /\ sum_Z (map (fun x => match f x with Some a => a | None => 0 end) l) < 2 ^ 64.
Proof.
  intros Hl. rewrite overflow_loop_spec by done. clear Hl.
  assert (H : forall am, mapM f l = Some am <->
    Forall (fun x => f x <> None) l /\ am = map (fun x => match f x with Some a => a | None => 0 end) l).
  { intros am. rewrite mapM_Some. split.
    - induction 1 as [|x a l am Ex _ [H1 H2]]; [done|]. split; [constructor; [by rewrite Ex|done]|].
      cbn. by rewrite Ex, H2.
    - intros [H ->]. induction H as [|x l Hx _ IH]; [constructor|]. cbn. constructor; [by destruct (f x)|done]. }
  setoid_rewrite H. split.
  - by intros (am & [? ->] & ?).
  - intros [? ?]. eexists. split; [by split|done].
Qed.

Lemma amounts_inputs tx : amounts_u64 tx -> Forall (fun i => forall a, input_amount i = Some a -> is_u64 a) (vin tx).
Proof.
  intros [H _]. eapply Forall_impl; [exact H|]. intros [] Hi a E; cbn in *; try done; simplify_eq; try done.
  by case_decide.
Qed.

Lemma amounts_outputs tx : amounts_u64 tx -> Forall (fun o => forall a, output_amount o = Some a -> is_u64 a) (vout tx).
Proof.
  intros [_ H]. eapply Forall_impl; [exact H|]. intros [] Ho a E; cbn in *; simplify_eq; try done. by case_decide.
Qed.

Lemma check_bare_money_overflow_spec tx : amounts_u64 tx ->
  check_bare_money_overflow tx = true <->
  Forall (fun i => is_gen i = false) (vin tx) /\
  sum_Z (map native_input (vin tx)) < 2 ^ 64 /\ sum_Z (map native_output (vout tx)) < 2 ^ 64.
Proof.
  intros Ha. unfold check_bare_money_overflow. rewrite andb_true_iff.
  unfold check_bare_inputs_overflow, check_bare_outs_overflow.
  rewrite !overflow_total by (by apply amounts_inputs || by apply amounts_outputs).
  assert (Hi : forall i, input_amount i <> None <-> is_gen i = false) by (intros []; cbn; naive_solver).
  assert (Ho : Forall (fun o => output_amount o <> None) (vout tx)) by (apply Forall_true; intros []; done).
  setoid_rewrite Hi. fold native_output. tauto.
Qed.

Lemma get_inputs_money_amount_spec tx :
  get_inputs_money_amount tx = u64 (sum_Z (map get_amount_from_variant (vin tx))).
Proof. unfold get_inputs_money_amount. by rewrite wrapping_sum. Qed.

Lemma get_outs_money_amount_spec tx : amounts_u64 tx ->
  get_outs_money_amount tx = u64 (sum_Z (map bare_output (vout tx))).
Proof.
  intros [_ Ho]. unfold get_outs_money_amount.
  transitivity (fold_left (fun m x => u64 (m + bare_output x)) (vout tx) 0); [|by rewrite wrapping_sum].
  enough (H : forall l m, is_u64 m -> Forall (fun o => match o with out_bare b => is_u64 (ob_amount b)
    | out_gateway g => is_u64 (ogw_amount g) | out_zarcanum _ => True end) l ->
    fold_left (fun a o => match o with out_bare bo => u64 (a + ob_amount bo) | _ => a end) l m =
    fold_left (fun a o => u64 (a + bare_output o)) l m) by by apply H.
  clear. induction l as [|o l IH]; intros m Hm Ho; [done|]. apply Forall_cons in Ho as [Ho Hl].
  cbn [fold_left]. destruct o as [b|z|g]; cbn [bare_output]; [by apply IH; [apply wrap_range|]| |];
    rewrite Z.add_0_r, wrap_small by done; by apply IH.
Qed.

Lemma bare_le_native tx : amounts_u64 tx ->
  0 <= sum_Z (map bare_output (vout tx)) <= sum_Z (map native_output (vout tx)).
Proof.
  intros [_ Ho]. induction Ho as [|o l H _ IH]; [done|].
  cbn [map]. rewrite !sum_Z_cons. unfold in_u in H.
  assert (0 <= bare_output o <= native_output o); [|lia].
  destruct o; cbn in *; [lia|lia|]. unfold native_output. cbn. case_decide; lia.
Qed.

(** ** The validation as a specification *)

Definition out_wellformed (check_key : public_key -> bool) (o : tx_out_v) : Prop :=
  match o with
  | out_bare b =>
      0 < ob_amount b /\
      match ob_target b with
      | target_to_key tk => check_key (tok_key tk) = true
      | target_multisig ms =>
          oms_keys ms <> [] /\ 0 < oms_minimum_sigs ms <= Z.of_nat (List.length (oms_keys ms))
      end
  | out_zarcanum z =>
      check_key (oz_stealth_address z) = true /\ check_key (oz_concealing_point z) = true /\
      check_key (oz_amount_commitment z) = true /\ check_key (oz_blinded_asset_id z) = true
  | out_gateway _ => True
  end.

Record semantically_valid (check_key : public_key -> bool) (tx : transaction) (tx_blob_size : Z) : Prop := {
  sv_size : tx_blob_size < CURRENCY_MAX_TRANSACTION_BLOB_SIZE;
  sv_inputs : vin tx <> [];
  sv_inputs_max : 3 <= version tx -> Z.of_nat (List.length (vin tx)) <= 256;
  sv_outputs_max : Z.of_nat (List.length (vout tx)) <= (if 2 <=? version tx then 32 else 2000);
  sv_not_coinbase : Forall (fun i => is_gen i = false) (vin tx);
  sv_terms : 6 <= hardfork_id tx -> terms_ok (Z.to_nat (hardfork_id tx)) (fun _ => 0) (contents tx);
  sv_references : 4 < hardfork_id tx -> Forall (fun i => forall r, ref_id r ∉ key_offsets_of i) (vin tx);
  sv_outs : Forall (out_wellformed check_key) (vout tx);
  sv_inputs_sum : sum_Z (map native_input (vin tx)) < 2 ^ 64;
  sv_outputs_sum : sum_Z (map native_output (vout tx)) < 2 ^ 64;
  sv_key_images : NoDup (key_images_of (vin tx));
  sv_multisig : NoDup (multisig_ids_of (vin tx));
  sv_extra : NoDup (onetime_entries (tp_extra (tx_prefix tx)));
  sv_balance : version tx <= 1 ->
    sum_Z (map bare_output (vout tx)) <= u64 (sum_Z (map get_amount_from_variant (vin tx)))
}.

Lemma check_inputs_and_outputs_size_spec tx :
  check_inputs_and_outputs_size tx = true <->
  vin tx <> [] /\ (3 <= version tx -> Z.of_nat (List.length (vin tx)) <= 256) /\
  Z.of_nat (List.length (vout tx)) <= (if 2 <=? version tx then 32 else 2000).
Proof.
  unfold check_inputs_and_outputs_size, TRANSACTION_VERSION_POST_HF4, TRANSACTION_VERSION_POST_HF5,
    CURRENCY_TX_MAX_ALLOWED_INPUTS, CURRENCY_TX_MAX_ALLOWED_OUTS, CURRENCY_TX_MAX_ALLOWED_OUTS_PRE_HF4.
  destruct (tp_vin (tx_prefix tx)) as [|i l]; [by split; [|intros []]|].
  replace (Z.of_nat (List.length (i :: l)) =? 0) with false by (symmetry; apply Z.eqb_neq; cbn [List.length]; lia).
  destruct (tp_version (tx_prefix tx) <? 3) eqn:E1, (Z.of_nat (List.length (i :: l)) <=? 256) eqn:E2; zbool;
    cbn [negb orb]; rewrite ?Z.leb_le;
    (split; [intros ?; first [done|split; [done|split; [intros; lia|done]]]
            |intros (_ & H1 & H2); first [done|specialize (H1 ltac:(lia)); lia]]).
Qed.

Lemma check_outs_valid_spec check_key tx :
  check_outs_valid check_key tx = true <-> Forall (out_wellformed check_key) (vout tx).
Proof.
  unfold check_outs_valid. rewrite <- Is_true_true, forallb_True. apply Forall_iff. intros [b|z|g]; cbn; rewrite ?Is_true_true.
  - destruct (0 <? ob_amount b) eqn:E; zbool; cbn [negb]; [|split; [done|lia]].
    destruct (ob_target b) as [tk|ms]; [tauto|]. rewrite !andb_true_iff, !Z.ltb_lt, Z.leb_le.
    destruct (oms_keys ms); cbn [List.length]; (split; [intros; repeat split|]; intuition (try done; lia)).
  - rewrite !andb_true_iff. tauto.
  - done.
Qed.

Lemma additional_inputs_types_validations_spec tx :
  additional_inputs_types_validations tx = true <->
  (4 < hardfork_id tx -> Forall (fun i => forall r, ref_id r ∉ key_offsets_of i) (vin tx)).
Proof.
  unfold additional_inputs_types_validations, ZANO_HARDFORK_04_ZARCANUM. destruct (4 <? tp_hardfork_id (tx_prefix tx)) eqn:E; zbool.
  - assert (H : forall i, forallb (fun o => match o with ref_id _ => false | _ => true end) (key_offsets_of i) = true <->
      forall r, ref_id r ∉ key_offsets_of i).
    { intros i. rewrite forallb_forall. setoid_rewrite <- list_elem_of_In. split.
      - intros H r Hr. by specialize (H _ Hr).
      - intros H [g|r] Hx; [done|]. by destruct (H r). }
    rewrite <- Is_true_true, forallb_True. setoid_rewrite Is_true_true. setoid_rewrite H. tauto.
  - split; [lia|]. intros _. by induction (tp_vin (tx_prefix tx)).
Qed.

Lemma check_tx_bare_balance_spec tx : amounts_u64 tx -> version tx <= 1 ->
  sum_Z (map native_output (vout tx)) < 2 ^ 64 ->
  check_tx_bare_balance tx 0 = true <->
  sum_Z (map bare_output (vout tx)) <= u64 (sum_Z (map get_amount_from_variant (vin tx))).
Proof.
  intros Ha Hv Ho. unfold check_tx_bare_balance, TRANSACTION_VERSION_PRE_HF4.
  rewrite (proj2 (Z.ltb_ge 1 _)) by done. cbn [Z.eqb].
  rewrite Z.leb_le, get_inputs_money_amount_spec, get_outs_money_amount_spec by done.
  pose proof (bare_le_native tx Ha). by rewrite (wrap_small 64 (sum_Z (map bare_output _))) by (split; lia).
Qed.

Lemma check_tx_inputs_keyimages_diff_spec tx :
  check_tx_inputs_keyimages_diff tx = true <-> NoDup (key_images_of (vin tx)) /\ NoDup (multisig_ids_of (vin tx)).
Proof.
  unfold check_tx_inputs_keyimages_diff. rewrite keyimages_loop_spec. split; [tauto|].
  intros [? ?]. split; (split; [done|]); intros ? _; apply not_elem_of_empty.
Qed.

Lemma check_tx_extra_spec tx : check_tx_extra tx = true <-> NoDup (onetime_entries (tp_extra (tx_prefix tx))).
Proof.
  unfold check_tx_extra, parse_and_validate_tx_extra. rewrite tx_extra_handler_spec. split; [tauto|].
  intros ?. split; [done|]. intros ? _. apply not_elem_of_nil.
Qed.

(** The type checks of the two kinds of forks. *)
Lemma types_spec tx : 0 <= hardfork_id tx < 9 ->
  exists t, (if ZANO_HARDFORK_06 <=? hardfork_id tx
             then validate_tx_for_hardfork_specific_terms_types_HF6 tx (Z.to_nat (hardfork_id tx))
             else Ret (check_inputs_types_supported tx)) = Ret t /\
    (t = true <->
     (6 <= hardfork_id tx -> terms_ok (Z.to_nat (hardfork_id tx)) (fun _ => 0) (contents tx)) /\
     (hardfork_id tx < 6 -> Forall (fun i => is_gen i = false) (vin tx))).
Proof.
  intros Hh. unfold ZANO_HARDFORK_06. destruct (6 <=? tp_hardfork_id (tx_prefix tx)) eqn:E; zbool.
  - destruct (validate_terms_spec tx (Z.to_nat (tp_hardfork_id (tx_prefix tx)))) as (b & Eb & Hb); [lia|].
    exists b. split; [done|]. rewrite Hb. split; [intros; split; [done|lia]|]. intros [H _]. auto.
  - eexists. split; [done|]. unfold check_inputs_types_supported. rewrite <- Is_true_true, forallb_True.
    assert (H : forall i, Is_true (match i with in_gen _ => false | _ => true end) <-> is_gen i = false)
      by by intros [].
    setoid_rewrite H. split; [intros; split; [lia|done]|]. intros [_ H']. auto.
Qed.

(** [refuse c H]: when the check [c], decided by [H], fails, so does the
    validation. *)
Ltac refuse c H :=
  destruct c; cbn [negb];
  [|exists false; split; [reflexivity|]; split; [done|]; intros []; exfalso;
    assert (false = true) by (apply H; auto); done].

Lemma validate_tx_semantic_spec check_key tx tx_blob_size :
  amounts_u64 tx -> 0 <= hardfork_id tx < 9 ->
  exists b, validate_tx_semantic check_key tx tx_blob_size = Ret b /\
    (b = true <-> semantically_valid check_key tx tx_blob_size).
Proof.
  intros Ha Hh. unfold validate_tx_semantic.
  pose proof (check_inputs_and_outputs_size_spec tx) as H1. destruct (types_spec tx Hh) as (t & -> & H2).
  pose proof (additional_inputs_types_validations_spec tx) as H3. pose proof (check_outs_valid_spec check_key tx) as H4.
  pose proof (check_bare_money_overflow_spec tx Ha) as H5. pose proof (check_tx_inputs_keyimages_diff_spec tx) as H6.
  pose proof (check_tx_extra_spec tx) as H7. pose proof (check_tx_bare_balance_spec tx Ha) as H8.
  outcome_simp.
  destruct (_ <=? tx_blob_size) eqn:E0; zbool;
    [exists false; split; [done|]; split; [done|]; intros []; lia|].
  refuse (check_inputs_and_outputs_size tx) H1. refuse t H2. refuse (additional_inputs_types_validations tx) H3.
  refuse (check_outs_valid check_key tx) H4. refuse (check_bare_money_overflow tx) H5.
  refuse (check_tx_inputs_keyimages_diff tx) H6. refuse (check_tx_extra tx) H7.
  destruct H1 as [H1 _], H2 as [H2 _], H3 as [H3 _], H4 as [H4 _], H5 as [H5 _], H6 as [H6 _], H7 as [H7 _].
  destruct (H1 eq_refl) as (? & ? & ?), (H2 eq_refl), (H5 eq_refl) as (? & ? & ?), (H6 eq_refl).
  unfold TRANSACTION_VERSION_PRE_HF4. destruct (_ <=? 1) eqn:E; zbool; eexists; (split; [reflexivity|]).
  - rewrite H8 by done. split; [intros; constructor; auto|]. intros []. auto.
  - split; [|done]. intros _. constructor; auto. lia.
Qed.

(** C29: the semantic validation decides the specification: at every known hard
    fork it answers, and it accepts exactly the transactions whose blob is
    small enough, with inputs and outputs in the allowed numbers, no coinbase
    input, only types the fork allows, no reference by id from fork 5 on,
    well-formed outputs, sums of open native amounts that fit 64 bits, pairwise
    different key images and multisig ids, no double one-time extra, and before
    fork 4 outputs covered by the inputs. *)
Theorem validate_tx_semantic_iff check_key tx tx_blob_size :
  amounts_u64 tx -> 0 <= hardfork_id tx < 9 ->
  exists b, validate_tx_semantic check_key tx tx_blob_size = Ret b /\
    (b = true <-> semantically_valid check_key tx tx_blob_size).
Proof. apply validate_tx_semantic_spec. Qed.

Lemma native_le_amounts l :
  (forall g, in_gateway g ∈ l -> tgw_asset_id g = native_coin_asset_id_1div8) ->
  map get_amount_from_variant l = map native_input l.
Proof.
  intros Hg. apply map_ext_in. intros i Hi%list_elem_of_In. destruct i; try done.
  unfold native_input. cbn. by rewrite decide_True by by apply Hg.
Qed.

Lemma native_inputs_nonneg tx : amounts_u64 tx -> 0 <= sum_Z (map native_input (vin tx)).
Proof.
  intros Ha. apply sum_Z_nonneg, Forall_map. eapply Forall_impl; [by apply amounts_inputs|].
  intros i H. unfold native_input. cbn in *. destruct (input_amount i) as [a|]; [|done]. by destruct (H a eq_refl).
Qed.

(** The bare outputs of a transaction of the first versions that passes the
    semantic validation are covered by its inputs, over the integers, and the fee
    the daemon computes is exactly the difference, nothing having wrapped. *)
Lemma bare_fee_exact check_key tx tx_blob_size :
  amounts_u64 tx -> 0 <= hardfork_id tx < 9 -> version tx <= 1 ->
  (forall g, in_gateway g ∈ vin tx -> tgw_asset_id g = native_coin_asset_id_1div8) ->
  validate_tx_semantic check_key tx tx_blob_size = Ret true ->
  sum_Z (map bare_output (vout tx)) <= sum_Z (map native_input (vin tx)) /\
  get_tx_fee tx = Some (sum_Z (map native_input (vin tx)) - sum_Z (map bare_output (vout tx))).
Proof.
  intros Ha Hh Hv Hg E. destruct (validate_tx_semantic_spec check_key tx tx_blob_size Ha Hh) as (b & E' & Hb).
  rewrite E in E'. injection E' as <-. destruct (proj1 Hb eq_refl) as [_ _ _ _ Hc _ _ _ Hi Ho _ _ _ Hbal].
  specialize (Hbal Hv). pose proof (native_inputs_nonneg tx Ha) as Hn. pose proof (bare_le_native tx Ha) as Hbo.
  assert (Hin : u64 (sum_Z (map get_amount_from_variant (vin tx))) = sum_Z (map native_input (vin tx))).
  { rewrite native_le_amounts by done. by apply wrap_small. }
  rewrite Hin in Hbal. split; [done|]. unfold get_tx_fee.
  assert (is_coinbase tx = false) as ->.
  { unfold is_coinbase. destruct (tp_vin (tx_prefix tx)) as [|[] l]; try done. by apply Forall_cons in Hc as [? _]. }
  unfold TRANSACTION_VERSION_PRE_HF4. rewrite (proj2 (Z.leb_le _ 1)) by done.
  rewrite wrapping_sum by done. rewrite Z.add_0_l, Hin, get_outs_money_amount_spec by done.
  rewrite (wrap_small 64 (sum_Z (map bare_output _))) by (split; lia).
  rewrite (proj2 (Z.leb_le _ _)) by done. by rewrite wrap_small by (split; lia).
Qed.

(** ** Spend time locks *)

Definition is_tx_spendtime_unlocked (unlock_time current_blockchain_size current_time : Z) : bool :=
  if unlock_time <? CURRENCY_MAX_BLOCK_NUMBER then
    unlock_time <=? u64 (u64 (current_blockchain_size - 1) + CURRENCY_LOCKED_TX_ALLOWED_DELTA_BLOCKS)
  else unlock_time <=? u64 (current_time + CURRENCY_LOCKED_TX_ALLOWED_DELTA_SECONDS).

(** [remove_padding_from_tx] iterates with [for (auto ex : tx.extra)]: the
    resize is on a copy of the entry, dropped at the end of the iteration.  The
    first component is the result, the second the transaction afterwards. *)
Fixpoint remove_padding_loop (l : list payload_items_v) (count : Z) : outcome bool :=
  match l with
  | [] => Throw
  | P_extra_padding buff :: _ => Ret (if Z.of_nat (List.length buff) <? count then false else true)
  | _ :: l => remove_padding_loop l count
  end.

Definition remove_padding_from_tx (tx : transaction) (count : Z) : outcome (bool * transaction) :=
  if count =? 0 then Ret (true, tx)
  else
    r ← remove_padding_loop (tp_extra (tx_prefix tx)) count;
    Ret (r, tx).

Lemma remove_padding_keeps_padding tx count buff l1 l2 :
  tp_extra (tx_prefix tx) = l1 ++ P_extra_padding buff :: l2 ->
  Forall (fun p => match p with P_extra_padding _ => False | _ => True end) l1 ->
  0 < count <= Z.of_nat (List.length buff) ->
  remove_padding_from_tx tx count = Ret (true, tx).
Proof.
  intros E Hl Hc. unfold remove_padding_from_tx. rewrite (proj2 (Z.eqb_neq count 0)) by lia. rewrite E.
  assert (remove_padding_loop (l1 ++ P_extra_padding buff :: l2) count = Ret true) as ->; [|done].
  clear E. induction Hl as [|[] l1 H _ IH]; cbn; try done. by rewrite (proj2 (Z.ltb_ge _ _)) by lia.
Qed.

(** an unlock time below the block limit is a height, any other one a time:
    an output locked to a height can be spent in the block of that height or
    later (one block of tolerance on the chain size included), never earlier,
    and once unlocked it stays so as the chain and the clock advance. *)
Theorem spendtime_unlocked_correct unlock_time size time size' time' :
  is_u64 unlock_time -> 0 <= size <= size' -> 0 <= time <= time' -> size' < 2 ^ 63 -> time' < 2 ^ 63 ->
  (is_tx_spendtime_unlocked unlock_time size time = true <->
     if unlock_time <? CURRENCY_MAX_BLOCK_NUMBER then unlock_time <= size
     else unlock_time <= time + CURRENCY_LOCKED_TX_ALLOWED_DELTA_SECONDS) /\
  (is_tx_spendtime_unlocked unlock_time size time = true -> is_tx_spendtime_unlocked unlock_time size' time' = true).
Proof.
  intros Hu Hs Ht Hs' Ht'. unfold in_u in Hu.
  assert (Hb : forall n, 0 <= n < 2 ^ 63 -> u64 (u64 (n - 1) + CURRENCY_LOCKED_TX_ALLOWED_DELTA_BLOCKS) = n).
  { intros n Hn. unfold CURRENCY_LOCKED_TX_ALLOWED_DELTA_BLOCKS, wrap. rewrite Zplus_mod_idemp_l.
    rewrite Z.sub_add. apply Z.mod_small. lia. }
  assert (Hc : forall n, 0 <= n < 2 ^ 63 ->
    u64 (n + CURRENCY_LOCKED_TX_ALLOWED_DELTA_SECONDS) = n + CURRENCY_LOCKED_TX_ALLOWED_DELTA_SECONDS).
  { intros n Hn. change CURRENCY_LOCKED_TX_ALLOWED_DELTA_SECONDS with 60. apply wrap_small. split; lia. }
  unfold is_tx_spendtime_unlocked. rewrite !Hb, !Hc by lia.
  destruct (unlock_time <? CURRENCY_MAX_BLOCK_NUMBER); rewrite !Z.leb_le; lia.
Qed.

Example spendtime_unlocked_correct_witness :
  is_tx_spendtime_unlocked 100 100 0 = true /\ is_tx_spendtime_unlocked 100 200 50 = true /\
  is_tx_spendtime_unlocked 100 99 0 = false.
Proof.
  destruct (spendtime_unlocked_correct 100 100 0 200 50 ltac:(by split) ltac:(lia) ltac:(lia) ltac:(lia) ltac:(lia)) as [H Hm].
  assert (is_tx_spendtime_unlocked 100 100 0 = true) by (apply H; vm_compute; discriminate).
  split; [assumption|]. split; [apply Hm; assumption|reflexivity].
Defined.

(** ** Concrete transactions *)

(** A stand-in for the curve test: the key is not all zero bytes. *)
Definition demo_check_key (k : public_key) : bool := negb (forallb (fun b => b =? 0) k).

Definition demo_bare (v hf : Z) (ins : list txin_v) (outs : list tx_out_v) : transaction := {|
  tx_prefix := {| tp_version := v; tp_hardfork_id := hf; tp_vin := ins; tp_extra := [P_public_key (key_of 9)]; tp_vout := outs |};
  tx_attachment := []; tx_signatures := []; tx_proofs := [] |}.

Definition demo_in (amount ki : Z) : txin_v :=
  in_to_key (Build_txin_to_key amount [ref_global_index 3] (key_of ki) []).
Definition demo_out (amount : Z) : tx_out_v :=
  out_bare (Build_tx_out_bare amount (target_to_key (Build_txout_to_key (key_of 8) 0))).
Definition demo_gateway_in (asset : public_key) (amount : Z) : txin_v :=
  in_gateway (Build_txin_gateway 0 (key_of 2) asset amount).

Definition demo_spend : transaction :=
  demo_bare 1 0 [demo_in 700 1; demo_in 400 2; demo_gateway_in native_coin_asset_id_1div8 20] [demo_out 1000; demo_out 50].

Lemma demo_spend_amounts : amounts_u64 demo_spend.
Proof. split; repeat constructor; cbn; done. Qed.

(** Two inputs with one key image are refused, and so are outputs above the
    inputs, whatever their sum modulo 2^64. *)
Example validate_tx_semantic_iff_witness :
  validate_tx_semantic demo_check_key demo_spend 2000 = Ret true /\
  semantically_valid demo_check_key demo_spend 2000 /\
  validate_tx_semantic demo_check_key (demo_bare 1 0 [demo_in 700 1; demo_in 400 1] [demo_out 1000]) 2000 = Ret false /\
  validate_tx_semantic demo_check_key (demo_bare 1 0 [demo_in 700 1] [demo_out (2 ^ 64 - 1); demo_out 5]) 2000 = Ret false.
Proof.
  destruct (validate_tx_semantic_iff demo_check_key demo_spend 2000 demo_spend_amounts ltac:(cbn; lia)) as (b & E & H).
  assert (b = true) as -> by (vm_compute in E; congruence).
  split; [exact E|]. split; [apply H; reflexivity|]. split; vm_compute; reflexivity.
Defined.

(** The overflow check counts gateway inputs of the native coin only, the
    balance check and the fee count those of every asset: an old transaction
    with a gateway input of another asset passes with native outputs that no
    native input covers. *)
Lemma foreign_gateway_input_counts :
  let tx := demo_bare 1 0 [demo_gateway_in (key_of 3) 1000] [demo_out 900] in
  validate_tx_semantic demo_check_key tx 2000 = Ret true /\ get_tx_fee tx = Some 100 /\
  sum_Z (map native_input (vin tx)) < sum_Z (map bare_output (vout tx)).
Proof. vm_compute. split; [done|]. split; done. Qed.
