(* ===== verification/BlockReward.v ===== *)
(** * Block reward: [src/src/currency_core/currency_format_utils.cpp]

    The base reward and the penalty for blocks above the median size. *)

From S2P Require Import Prelude Config IntUtil.

Definition get_base_block_reward (height : Z) : Z :=
  if height =? 0 then PREMINE_AMOUNT else CURRENCY_BLOCK_REWARD.

(** The legacy overload; [None] is [false].  [is_pos] and
    [already_generated_coins] are not used by the code. *)
Definition get_block_reward_checked (median_size current_block_size height : Z) : option Z :=
  let base_reward := get_base_block_reward height in
  let median_size :=
    if median_size <? CURRENCY_BLOCK_GRANTED_FULL_REWARD_ZONE then CURRENCY_BLOCK_GRANTED_FULL_REWARD_ZONE
    else median_size in
  if (current_block_size <=? median_size) || (height =? 0) then Some base_reward
  else if u64 (2 * median_size) <? current_block_size then None
  else
    let multiplicand := u64 (u64 (2 * median_size) - current_block_size) in
    let multiplicand := u64 (multiplicand * current_block_size) in
    '(product_lo, product_hi) ← mul128 base_reward multiplicand;
    let '(_, reward_hi, reward_lo) := div128_32 product_hi product_lo (u32 median_size) in
    let '(_, reward_hi, reward_lo) := div128_32 reward_hi reward_lo (u32 median_size) in
    if negb (0 =? reward_hi) then None
    else if negb (reward_lo <? base_reward) then None
    else Some reward_lo.

Definition get_block_reward (height median_block_size current_block_size : Z) : Z :=
  match get_block_reward_checked median_block_size current_block_size height with
  | Some reward => reward
  | None => 0
  end.

(** ** The reward as a function of the size *)

Definition effective_median (median_size : Z) : Z := Z.max median_size CURRENCY_BLOCK_GRANTED_FULL_REWARD_ZONE.

(** The quadratic penalty, with the roundings of the two divisions. *)
Definition penalized_reward (base m size : Z) : Z := base * ((2 * m - size) * size) / m / m.

Lemma penalized_reward_range base m size : 0 < m -> 0 < base -> m < size <= 2 * m ->
  0 <= penalized_reward base m size < base.
Proof.
  intros Hm Hb Hs. unfold penalized_reward. split.
  - do 2 (apply Z.div_pos; [|lia]). repeat apply Z.mul_nonneg_nonneg; lia.
  - rewrite Z.div_div by lia. apply Z.div_lt_upper_bound; [nia|].
    rewrite (Z.mul_comm _ base). apply Z.mul_lt_mono_pos_l; [done|]. nia.
Qed.

Lemma get_block_reward_checked_spec median_size size height :
  0 <= median_size < 2 ^ 32 -> is_u64 size -> is_u64 height ->
  let m := effective_median median_size in
  get_block_reward_checked median_size size height =
    if (size <=? m) || (height =? 0) then Some (get_base_block_reward height)
    else if 2 * m <? size then None
    else Some (penalized_reward CURRENCY_BLOCK_REWARD m size).
Proof.
  intros Hmed Hsize _ m. unfold get_block_reward_checked.
  replace (if median_size <? _ then _ else _) with m
    by (unfold m, effective_median; destruct (_ <? _) eqn:E; zbool; lia).
  assert (Hm : 125000 <= m < 2 ^ 32) by (unfold m, effective_median, CURRENCY_BLOCK_GRANTED_FULL_REWARD_ZONE; lia).
  clearbody m. clear Hmed median_size. unfold in_u in Hsize.
  destruct ((size <=? m) || (height =? 0)) eqn:E0; [done|]. zbool.
  unfold get_base_block_reward. rewrite (proj2 (Z.eqb_neq height 0)) by done.
  rewrite (wrap_small 64 (2 * m)) by (split; lia). destruct (2 * m <? size) eqn:E1; zbool; [done|].
  rewrite (wrap_small 64 (2 * m - size)) by (split; lia).
  assert (Hp : 0 <= (2 * m - size) * size < 2 ^ 64) by (split; nia).
  rewrite (wrap_small 64 _ Hp), (wrap_small 32 m) by (split; lia).
  destruct (mul128_manually_spec CURRENCY_BLOCK_REWARD ((2 * m - size) * size)) as (lo & hi & E & Hlo & Hhi & Eq);
    [split; done|done|].
  unfold mul128, div128_32. rewrite E. cbn [mbind option_bind].
  destruct (div128_32_manually_spec hi lo m Hhi Hlo) as (r & qh & ql & E2 & Hqh & Hql & Eq2 & _); [split; lia|lia|].
  rewrite E2.
  destruct (div128_32_manually_spec qh ql m Hqh Hql) as (r' & qh' & ql' & E3 & Hqh' & Hql' & Eq3 & _); [split; lia|lia|].
  rewrite E3. rewrite Eq2, Eq in Eq3. fold (penalized_reward CURRENCY_BLOCK_REWARD m size) in Eq3.
  pose proof (penalized_reward_range CURRENCY_BLOCK_REWARD m size ltac:(lia) ltac:(done) ltac:(lia)) as Hr.
  unfold CURRENCY_BLOCK_REWARD in *. unfold in_u in *.
  assert (qh' = 0) as -> by nia. assert (ql' = penalized_reward 1000000000000 m size) as -> by lia.
  cbn [Z.eqb negb]. rewrite (proj2 (Z.ltb_lt _ _)) by lia. done.
Qed.

(** C30: the reward of a block: none of its asserts can fail and nothing
    overflows; the full base reward up to the median, nothing above twice the
    median, and between them the quadratic penalty
    [base * (2m - s) * s / m^2], rounded down, always below the base reward and
    never growing with the size of the block. *)
Theorem get_block_reward_correct height median_size size :
  0 <= median_size < 2 ^ 32 -> is_u64 size -> is_u64 height -> height <> 0 ->
  let m := effective_median median_size in
  let r := get_block_reward height median_size in
  (size <= m -> r size = CURRENCY_BLOCK_REWARD) /\
  (2 * m < size -> r size = 0) /\
  (m < size <= 2 * m ->
     r size = CURRENCY_BLOCK_REWARD * ((2 * m - size) * size) / (m * m) /\ 0 <= r size < CURRENCY_BLOCK_REWARD) /\
  (forall size', size <= size' < 2 ^ 64 -> r size' <= r size).
Proof.
  intros Hmed Hsize Hh H0. set (m := effective_median median_size). cbv zeta.
  assert (Hm : 125000 <= m) by (unfold m, effective_median, CURRENCY_BLOCK_GRANTED_FULL_REWARD_ZONE; lia).
  assert (Hr : forall s, is_u64 s -> get_block_reward height median_size s =
    if s <=? m then CURRENCY_BLOCK_REWARD else if 2 * m <? s then 0 else penalized_reward CURRENCY_BLOCK_REWARD m s).
  { intros s Hs. unfold get_block_reward. rewrite get_block_reward_checked_spec by done. fold m.
    unfold get_base_block_reward. rewrite (proj2 (Z.eqb_neq height 0)) by done. rewrite orb_false_r.
    destruct (s <=? m); [done|]. by destruct (2 * m <? s). }
  rewrite Hr by done. split; [|split; [|split]].
  - intros H. by rewrite (proj2 (Z.leb_le _ _)).
  - intros H. rewrite (proj2 (Z.leb_gt _ _)), (proj2 (Z.ltb_lt _ _)) by lia. done.
  - intros H. rewrite (proj2 (Z.leb_gt _ _)), (proj2 (Z.ltb_ge _ _)) by lia.
    split; [unfold penalized_reward; by rewrite Z.div_div by lia|apply penalized_reward_range; [lia|done|done]].
  - intros s' Hs'. unfold in_u in Hsize. rewrite Hr by (split; lia).
    pose proof (fun s => penalized_reward_range CURRENCY_BLOCK_REWARD m s ltac:(lia) ltac:(done)) as Hp.
    assert (HB : 0 <= CURRENCY_BLOCK_REWARD) by done.
    destruct (s' <=? m) eqn:E1, (size <=? m) eqn:E2, (2 * m <? s') eqn:E3, (2 * m <? size) eqn:E4; zbool; try lia;
      try (specialize (Hp s'); lia); try (specialize (Hp size); lia).
    unfold penalized_reward. repeat (apply Z.div_le_mono; [lia|]). apply Z.mul_le_mono_nonneg_l; [done|]. nia.
Qed.

Example get_block_reward_correct_witness :
  get_block_reward 1000 50000 187500 = 750000000000 /\ get_block_reward 1000 50000 250001 = 0 /\
  get_block_reward 1000 50000 200000 <= get_block_reward 1000 50000 187500.
Proof.
  destruct (get_block_reward_correct 1000 50000 187500 ltac:(lia) ltac:(split; lia) ltac:(split; lia) ltac:(lia))
    as (_ & _ & H & Hmono).
  split; [rewrite (proj1 (H ltac:(vm_compute; split; [reflexivity|discriminate]))); vm_compute; reflexivity|].
  split; [vm_compute; reflexivity|apply Hmono; lia].
Defined.
