(* ===== verification/Limbs.v ===== *)
(** * Multi-limb integers

    The straight-line limb code of [src/src/crypto/crypto-ops.c] keeps a large
    integer in an array of signed words and reduces it by carries and by folds
    of the high limbs.  Such a piece of code is a list of steps here, one per
    statement group of the source, executed with the wrap-around of the machine
    word.  An interval analysis of the steps, run by the kernel, shows that no
    word overflows; a second check shows that the represented value is kept
    modulo a given modulus. *)

From S2P Require Import Prelude.

(** ** Signed machine words *)

Definition in_s (w x : Z) : Prop := - 2 ^ (w - 1) <= x < 2 ^ (w - 1).

Definition swrap (w x : Z) : Z := (x + 2 ^ (w - 1)) mod 2 ^ w - 2 ^ (w - 1).
Abbreviation i32 := (swrap 32).
Abbreviation i64 := (swrap 64).

Lemma swrap_small w x : 0 < w -> in_s w x -> swrap w x = x.
Proof.
  intros Hw [H1 H2]. unfold swrap. rewrite Z.mod_small; [lia|].
  assert (2 ^ w = 2 * 2 ^ (w - 1)) as -> by (rewrite <- Z.pow_succ_r by lia; f_equal; lia). lia.
Qed.

(** ** Steps *)

Inductive limb_op : Type :=
| Carry (i j : nat) (k w r : Z)          (* carry = (s_i + r) >> w; s_j += carry * k; s_i -= carry << w *)
| Cut (i : nat) (w : Z)                  (* carry = s_i >> w; s_i -= carry << w *)
| Fold (i : nat) (terms : list (nat * Z)) (* s_j += s_i * m, or s_j -= s_i * -m when m < 0, for each (j, m) *)
| Clear (i : nat).                       (* s_i = 0 *)

Section machine.
Variable W : Z.

Definition fold_line (i : nat) (s : list Z) (t : nat * Z) : list Z :=
  let '(j, m) := t in
  if m <? 0 then <[j := swrap W (ld s j - swrap W (ld s i * - m))]> s
  else <[j := swrap W (ld s j + swrap W (ld s i * m))]> s.

Definition exec (s : list Z) (op : limb_op) : list Z :=
  match op with
  | Carry i j k w r =>
      let carry := Z.shiftr (swrap W (ld s i + r)) w in
      let s := <[j := swrap W (ld s j + swrap W (carry * k))]> s in
      <[i := swrap W (ld s i - swrap W (Z.shiftl carry w))]> s
  | Cut i w =>
      let carry := Z.shiftr (ld s i) w in
      <[i := swrap W (ld s i - swrap W (Z.shiftl carry w))]> s
  | Fold i terms => fold_left (fold_line i) terms s
  | Clear i => <[i := 0]> s
  end.

Definition run (ops : list limb_op) (s : list Z) : list Z := fold_left exec ops s.

(** The same steps over the integers. *)
Definition pure_fold_line (i : nat) (s : list Z) (t : nat * Z) : list Z :=
  <[fst t := ld s (fst t) + ld s i * snd t]> s.

Definition pure_exec (s : list Z) (op : limb_op) : list Z :=
  match op with
  | Carry i j k w r =>
      let carry := (ld s i + r) / 2 ^ w in
      let s := <[j := ld s j + carry * k]> s in
      <[i := ld s i - carry * 2 ^ w]> s
  | Cut i w => <[i := ld s i mod 2 ^ w]> s
  | Fold i terms => fold_left (pure_fold_line i) terms s
  | Clear i => <[i := 0]> s
  end.

(** ** Intervals *)

Definition itv : Type := (Z * Z)%type.
Definition inb (x : Z) (b : itv) : Prop := fst b <= x <= snd b.
Definition fits (b : itv) : bool := (- 2 ^ (W - 1) <=? fst b) && (snd b <? 2 ^ (W - 1)).

Definition ib (B : list itv) (i : nat) : itv := List.nth i B (0, 0).
Definition iadd (a b : itv) : itv := (fst a + fst b, snd a + snd b).
Definition iscale (m : Z) (a : itv) : itv := if m <? 0 then (m * snd a, m * fst a) else (m * fst a, m * snd a).

Definition checked (b : itv) : option itv := if fits b then Some b else None.
Definition index_ok (B : list itv) (i : nat) : option unit := if (i <? List.length B)%nat then Some tt else None.

Definition abs_fold_line (i : nat) (B : list itv) (t : nat * Z) : option (list itv) :=
  let '(j, m) := t in
  _ ← index_ok B i; _ ← index_ok B j;
  _ ← (if (j =? i)%nat then None else Some tt);
  p ← checked (iscale (Z.abs m) (ib B i));
  v ← checked (iadd (ib B j) (iscale m (ib B i)));
  Some (<[j := v]> B).

Fixpoint abs_fold (i : nat) (terms : list (nat * Z)) (B : list itv) : option (list itv) :=
  match terms with
  | [] => Some B
  | t :: terms => B ← abs_fold_line i B t; abs_fold i terms B
  end.

(** What is left of a limb from which a carry of [w] bits is taken. *)
Definition remainder_itv (w r : Z) : itv := (- r, 2 ^ w - 1 - r).

Definition abs_exec (B : list itv) (op : limb_op) : option (list itv) :=
  match op with
  | Carry i j k w r =>
      _ ← index_ok B i; _ ← index_ok B j;
      _ ← (if (j =? i)%nat || (k <? 0) || (w <? 0) then None else Some tt);
      x ← checked (iadd (ib B i) (r, r));
      let c := (fst x / 2 ^ w, snd x / 2 ^ w) in
      ck ← checked (iscale k c);
      sh ← checked (iscale (2 ^ w) c);
      v ← checked (iadd (ib B j) ck);
      rest ← checked (remainder_itv w r);
      Some (<[i := rest]> (<[j := v]> B))
  | Cut i w =>
      _ ← index_ok B i;
      _ ← (if w <? 0 then None else Some tt);
      sh ← checked (iscale (2 ^ w) (fst (ib B i) / 2 ^ w, snd (ib B i) / 2 ^ w));
      rest ← checked (remainder_itv w 0);
      Some (<[i := rest]> B)
  | Fold i terms => abs_fold i terms B
  | Clear i => _ ← index_ok B i; Some (<[i := (0, 0)]> B)
  end.

Fixpoint analyze (ops : list limb_op) (B : list itv) : option (list itv) :=
  match ops with
  | [] => Some B
  | op :: ops => B ← abs_exec B op; analyze ops B
  end.

End machine.

Definition within (s : list Z) (B : list itv) : Prop := Forall2 inb s B.

Fixpoint subset (A B : list itv) : bool :=
  match A, B with
  | [], [] => true
  | a :: A, b :: B => (fst b <=? fst a) && (snd a <=? snd b) && subset A B
  | _, _ => false
  end.

Lemma within_subset s A B : within s A -> subset A B = true -> within s B.
Proof.
  intros H. revert B. induction H as [|x a s A Hx _ IH]; intros [|b B] E; try done; [constructor|].
  cbn in E. zbool. constructor; [|by apply IH]. unfold inb in *. lia.
Qed.

Lemma within_ld s B i : within s B -> (i < List.length B)%nat -> inb (ld s i) (ib B i).
Proof.
  intros H Hi. unfold ld, ib. revert i Hi.
  induction H as [|x b s B Hx _ IH]; intros [|i] Hi; cbn [List.length List.nth] in *; try lia; [done|].
  apply IH. lia.
Qed.

Lemma within_length s B : within s B -> List.length s = List.length B.
Proof. apply Forall2_length. Qed.

Lemma within_insert s B i x b : within s B -> inb x b -> within (<[i := x]> s) (<[i := b]> B).
Proof. intros H Hx. by apply Forall2_insert. Qed.

Lemma limb_insert s i j v : (i < List.length s)%nat -> ld (<[i := v]> s) j = if (i =? j)%nat then v else ld s j.
Proof.
  unfold ld. intros Hi. destruct (i =? j)%nat eqn:E.
  - apply Nat.eqb_eq in E as ->. apply nth_lookup_Some. by apply list_lookup_insert_eq.
  - apply Nat.eqb_neq in E. rewrite !nth_lookup. by rewrite list_lookup_insert_ne.
Qed.

(** ** No step overflows *)

Lemma checked_inv W b b' : checked W b = Some b' -> b' = b /\ fits W b = true.
Proof. unfold checked. destruct (fits W b); naive_solver. Qed.

Lemma index_ok_inv B i u : index_ok B i = Some u -> (i < List.length B)%nat.
Proof. unfold index_ok. destruct (_ <? _)%nat eqn:E; [|done]. by apply Nat.ltb_lt in E. Qed.

(** [check_inv] opens the checks of an analysis that succeeded. *)
Ltac check_inv :=
  repeat match goal with
  | H : (match ?x with Some _ => _ | None => _ end) = Some _ |- _ => let E := fresh "E" in destruct x eqn:E; [|done]
  | H : mbind _ ?x = Some _ |- _ => let E := fresh "E" in destruct x eqn:E; [|done]; cbn [mbind option_bind] in H
  | H : checked _ _ = Some _ |- _ => apply checked_inv in H as [-> H]
  | H : index_ok _ _ = Some _ |- _ => apply index_ok_inv in H
  | H : (if ?b then None else Some _) = Some _ |- _ => let E := fresh "E" in destruct b eqn:E; [done|]; clear H
  | H : Some _ = Some _ |- _ => injection H as <-
  end; zbool.

Lemma swrap_fits W x b : 0 < W -> inb x b -> fits W b = true -> swrap W x = x.
Proof. unfold inb, fits. intros HW Hx Hf. zbool. apply swrap_small; [done|]. split; lia. Qed.

Lemma inb_iadd x y a b : inb x a -> inb y b -> inb (x + y) (iadd a b).
Proof. unfold inb, iadd. cbn. lia. Qed.

Lemma inb_iscale m x a : inb x a -> inb (x * m) (iscale m a).
Proof. unfold inb, iscale. intros H. destruct (m <? 0) eqn:E; zbool; cbn; nia. Qed.

Lemma inb_div w x a : 0 <= w -> inb x a -> inb (x / 2 ^ w) (fst a / 2 ^ w, snd a / 2 ^ w).
Proof.
  unfold inb. intros Hw H. cbn. pose proof (Z.pow_pos_nonneg 2 w). split; apply Z.div_le_mono; lia.
Qed.

Lemma inb_remainder w r x : 0 <= w -> inb (x - (x + r) / 2 ^ w * 2 ^ w) (remainder_itv w r).
Proof.
  intros Hw. unfold inb, remainder_itv. cbn.
  pose proof (Z.pow_pos_nonneg 2 w). pose proof (Z.div_mod (x + r) (2 ^ w)). pose proof (Z.mod_pos_bound (x + r) (2 ^ w)). lia.
Qed.

Section sound.
Context (W : Z) (HW : 0 < W).

Lemma fold_line_sound s B i t B' : within s B -> abs_fold_line W i B t = Some B' ->
  fold_line W i s t = pure_fold_line i s t /\ within (pure_fold_line i s t) B'.
Proof.
  intros Hs H. destruct t as [j m]. unfold abs_fold_line in H. check_inv.
  pose proof (within_ld s B i Hs E) as Hi. pose proof (within_ld s B j Hs E0) as Hj.
  unfold fold_line, pure_fold_line. cbn [fst snd]. pose proof (inb_iscale m _ _ Hi) as Hp.
  pose proof (inb_iscale (Z.abs m) _ _ Hi) as Hp'.
  split; [|by apply within_insert; [|apply inb_iadd]].
  destruct (m <? 0) eqn:Em; zbool.
  - replace (- m) with (Z.abs m) by lia. rewrite (swrap_fits W (ld s i * Z.abs m) _ HW Hp') by done.
    replace (ld s j - ld s i * Z.abs m) with (ld s j + ld s i * m) by lia.
    by rewrite (swrap_fits W _ (iadd (ib B j) (iscale m (ib B i)))) by (done || by apply inb_iadd).
  - replace (Z.abs m) with m in * by lia. rewrite (swrap_fits W (ld s i * m) _ HW Hp) by done.
    by rewrite (swrap_fits W _ (iadd (ib B j) (iscale m (ib B i)))) by (done || by apply inb_iadd).
Qed.

Lemma fold_sound s B i ts B' : within s B -> abs_fold W i ts B = Some B' ->
  fold_left (fold_line W i) ts s = fold_left (pure_fold_line i) ts s /\
  within (fold_left (pure_fold_line i) ts s) B'.
Proof.
  revert s B. induction ts as [|t ts IH]; intros s B Hs H; cbn [abs_fold fold_left] in *; check_inv; [done|].
  destruct (fold_line_sound s B i t l Hs E) as [-> Hw]. by apply (IH _ l).
Qed.

Lemma exec_sound s B op B' : within s B -> abs_exec W B op = Some B' ->
  exec W s op = pure_exec s op /\ within (pure_exec s op) B'.
Proof.
  intros Hs H. destruct op as [i j k w r|i w|i ts|i]; cbn [abs_exec exec pure_exec] in *.
  - check_inv. apply Nat.eqb_neq in H. pose proof (within_length _ _ Hs) as Hl.
    pose proof (within_ld s B i Hs E) as Hi. pose proof (within_ld s B j Hs E0) as Hj.
    assert (Hx : inb (ld s i + r) (iadd (ib B i) (r, r))) by (apply inb_iadd; [done|unfold inb; cbn; lia]).
    rewrite (swrap_fits W _ _ HW Hx) by done. rewrite Z.shiftr_div_pow2 by done.
    pose proof (inb_div w _ _ ltac:(lia) Hx) as Hc. set (c := (ld s i + r) / 2 ^ w) in *.
    pose proof (inb_iscale k _ _ Hc) as Hck. pose proof (inb_iscale (2 ^ w) _ _ Hc) as Hsh.
    rewrite (swrap_fits W (c * k) _ HW Hck), Z.shiftl_mul_pow2, (swrap_fits W (c * 2 ^ w) _ HW Hsh) by done.
    rewrite (swrap_fits W (ld s j + c * k) (iadd (ib B j) (iscale k (fst (iadd (ib B i) (r, r)) / 2 ^ w, snd (iadd (ib B i) (r, r)) / 2 ^ w))))
      by (done || by apply inb_iadd).
    rewrite !limb_insert by lia. rewrite (proj2 (Nat.eqb_neq j i)) by done.
    pose proof (inb_remainder w r (ld s i) ltac:(lia)) as Hr. fold c in Hr.
    rewrite (swrap_fits W (ld s i - c * 2 ^ w) _ HW Hr) by done. split; [done|].
    apply within_insert; [|done]. apply within_insert; [done|]. by apply inb_iadd.
  - check_inv. pose proof (within_ld s B i Hs E) as Hi. rewrite Z.shiftr_div_pow2, Z.shiftl_mul_pow2 by done.
    pose proof (inb_iscale (2 ^ w) _ _ (inb_div w _ _ ltac:(lia) Hi)) as Hsh.
    rewrite (swrap_fits W _ _ HW Hsh) by done. pose proof (inb_remainder w 0 (ld s i) ltac:(lia)) as Hr.
    rewrite Z.add_0_r in Hr. rewrite (swrap_fits W _ _ HW Hr) by done.
    assert (ld s i mod 2 ^ w = ld s i - ld s i / 2 ^ w * 2 ^ w) as ->
      by (pose proof (Z.pow_pos_nonneg 2 w); pose proof (Z.div_mod (ld s i) (2 ^ w)); lia).
    split; [done|]. by apply within_insert.
  - by apply fold_sound with B.
  - check_inv. split; [done|]. apply within_insert; [done|]. unfold inb. cbn. lia.
Qed.

Lemma run_sound s B ops B' : within s B -> analyze W ops B = Some B' ->
  run W ops s = fold_left pure_exec ops s /\ within (run W ops s) B'.
Proof.
  revert s B. induction ops as [|op ops IH]; intros s B Hs H; cbn [analyze] in H; check_inv; [done|].
  unfold run. cbn [fold_left]. destruct (exec_sound s B op l Hs E) as [-> Hw]. by apply (IH _ l).
Qed.

End sound.

(** ** The represented value

    The limb [i] counts [nth i ws]; the limbs beyond the weights are not
    counted. *)

Fixpoint val (ws s : list Z) : Z :=
  match ws, s with
  | w :: ws, x :: s => w * x + val ws s
  | _, _ => 0
  end.

Lemma val_insert ws s i v : (i < List.length s)%nat ->
  val ws (<[i := v]> s) = val ws s + ld ws i * (v - ld s i).
Proof.
  unfold ld. revert s i. induction ws as [|w ws IH]; intros s i Hi.
  { destruct i; cbn; lia. }
  destruct s as [|x s]; [cbn in Hi; lia|]. destruct i as [|i]; cbn; [lia|].
  rewrite IH by (cbn in Hi; lia). lia.
Qed.

Lemma val_take_S ws s n : (n < List.length ws)%nat -> (n < List.length s)%nat ->
  val (take (S n) ws) s = val (take n ws) s + ld ws n * ld s n.
Proof.
  unfold ld. revert s n. induction ws as [|w ws IH]; intros s n Hn Hs; [cbn in Hn; lia|].
  destruct s as [|x s]; [cbn in Hs; lia|]. destruct n as [|n].
  { cbn. rewrite Z.add_0_r. done. }
  change (val (take (S (S n)) (w :: ws)) (x :: s)) with (w * x + val (take (S n) ws) s).
  rewrite IH by (cbn in *; lia). apply Z.add_assoc.
Qed.

Lemma limb_take ws n i : ld (take n ws) i = if (i <? n)%nat then ld ws i else 0.
Proof.
  unfold ld. destruct (i <? n)%nat eqn:E.
  - apply Nat.ltb_lt in E. rewrite !nth_lookup, lookup_take_lt by done. done.
  - apply Nat.ltb_ge in E. apply nth_overflow. rewrite length_take. lia.
Qed.

(** [value_step M ws n op]: the number of limbs that count after the step, if
    it keeps the value of the first [n] modulo [M]. *)
Definition fold_weight (ws : list Z) (ts : list (nat * Z)) : Z :=
  fold_right (fun t acc => ld ws (fst t) * snd t + acc) 0 ts.

Definition value_step (M : Z) (ws : list Z) (n : nat) (op : limb_op) : option nat :=
  match op with
  | Carry i j k w r =>
      if (i <? n)%nat && (j <? n)%nat && negb (i =? j)%nat && ((ld ws j * k - ld ws i * 2 ^ w) mod M =? 0)
      then Some n else None
  | Fold i ts =>
      if (S i =? n)%nat && forallb (fun t => (fst t <? i)%nat) ts && ((fold_weight ws ts - ld ws i) mod M =? 0)
      then Some i else None
  | Clear i => if (i =? n)%nat && (i <? List.length ws)%nat then Some (S n) else None
  | Cut i w => if (i <? n)%nat && (0 <=? w) && ((ld ws i * 2 ^ w) mod M =? 0) then Some n else None
  end.

Fixpoint value_steps (M : Z) (ws : list Z) (n : nat) (ops : list limb_op) : option nat :=
  match ops with
  | [] => Some n
  | op :: ops => n ← value_step M ws n op; value_steps M ws n ops
  end.

Lemma length_pure_exec s op : List.length (pure_exec s op) = List.length s.
Proof.
  destruct op as [i j k w r|i w|i ts|i]; cbn; rewrite ?length_insert; try done.
  revert s. induction ts as [|t ts IH]; intros s; cbn; [done|]. rewrite IH. apply length_insert.
Qed.

Lemma pure_folds_value ws s i ts :
  (i < List.length s)%nat -> Forall (fun t => fst t < i)%nat ts ->
  val ws (fold_left (pure_fold_line i) ts s) = val ws s + ld s i * fold_weight ws ts /\
  ld (fold_left (pure_fold_line i) ts s) i = ld s i /\
  List.length (fold_left (pure_fold_line i) ts s) = List.length s.
Proof.
  intros Hi Hts. revert s Hi. induction Hts as [|[j m] ts Hj _ IH]; intros s Hi; cbn [fold_left fold_weight fold_right].
  { split; [lia|done]. }
  cbn [fst snd] in *. assert (Hl : List.length (pure_fold_line i s (j, m)) = List.length s) by apply length_insert.
  destruct (IH (pure_fold_line i s (j, m))) as (E1 & E2 & E3); [lia|]. rewrite E1, E2, E3.
  unfold pure_fold_line. cbn [fst snd].
  rewrite val_insert, limb_insert, length_insert, (proj2 (Nat.eqb_neq j i)) by lia.
  fold (fold_weight ws ts). split; [lia|done].
Qed.

Lemma value_step_sound M ws n op n' s : M <> 0 ->
  (n <= List.length ws)%nat -> (List.length ws <= List.length s)%nat ->
  value_step M ws n op = Some n' ->
  val (take n' ws) (pure_exec s op) mod M = val (take n ws) s mod M /\ (n' <= List.length ws)%nat.
Proof.
  intros HM Hn Hs H. destruct op as [i j k w r|i w|i ts|i]; cbn [value_step pure_exec] in *;
    (destruct (_ && _)%bool eqn:E in H; [|done]; injection H as <-).
  - rewrite !andb_true_iff, !Nat.ltb_lt, negb_true_iff, Nat.eqb_neq, Z.eqb_eq in E.
    destruct E as [[[Hi Hj] Hij] E]. split; [|done].
    rewrite !val_insert, limb_insert, (proj2 (Nat.eqb_neq j i)), !limb_take by (rewrite ?length_insert; lia).
    rewrite (proj2 (Nat.ltb_lt i n)), (proj2 (Nat.ltb_lt j n)) by done.
    set (c := (ld s i + r) / 2 ^ w).
    replace (_ + _ + _) with (val (take n ws) s + c * (ld ws j * k - ld ws i * 2 ^ w)) by lia.
    rewrite Z.add_mod, Z.mul_mod, E by done. by rewrite Z.mul_0_r, Z.mod_0_l, Z.add_0_r, Z.mod_mod.
  - rewrite !andb_true_iff, Nat.ltb_lt, Z.leb_le, Z.eqb_eq in E. destruct E as [[Hi Hw] E]. split; [|done].
    rewrite val_insert, limb_take, (proj2 (Nat.ltb_lt i n)) by lia.
    assert (ld s i mod 2 ^ w - ld s i = ld s i / 2 ^ w * - 2 ^ w) as ->
      by (pose proof (Z.pow_pos_nonneg 2 w); pose proof (Z.div_mod (ld s i) (2 ^ w)); lia).
    replace (ld ws i * _) with (ld ws i * 2 ^ w * - (ld s i / 2 ^ w)) by lia.
    rewrite Z.add_mod, (Z.mul_mod (ld ws i * 2 ^ w)), E by done.
    by rewrite Z.mul_0_l, Z.mod_0_l, Z.add_0_r, Z.mod_mod.
  - rewrite !andb_true_iff, Nat.eqb_eq, forallb_forall, Z.eqb_eq in E. destruct E as [[<- Hts'] E].
    split; [|lia].
    assert (Hts : Forall (fun t => fst t < i)%nat ts).
    { apply Forall_forall. intros t Ht. apply Nat.ltb_lt, Hts'. by apply list_elem_of_In. }
    destruct (pure_folds_value (take i ws) s i ts) as [-> _]; [lia|done|].
    rewrite val_take_S by lia.
    assert (fold_weight (take i ws) ts = fold_weight ws ts) as ->.
    { clear -Hts. induction Hts as [|t ts Ht _ IH]; [done|]. change (fold_weight ?v (t :: ts)) with (ld v (fst t) * snd t + fold_weight v ts).
      rewrite IH, limb_take, (proj2 (Nat.ltb_lt _ _)) by done. done. }
    replace (_ + ld s i * _) with (val (take i ws) s + ld ws i * ld s i + ld s i * (fold_weight ws ts - ld ws i)) by lia.
    rewrite Z.add_mod, (Z.mul_mod (ld s i)), E by done. by rewrite Z.mul_0_r, Z.mod_0_l, Z.add_0_r, Z.mod_mod.
  - rewrite andb_true_iff, Nat.eqb_eq, Nat.ltb_lt in E. destruct E as [-> E]. split; [|done].
    rewrite val_take_S by (rewrite ?length_insert; lia).
    rewrite val_insert, limb_insert, limb_take, Nat.ltb_irrefl, Nat.eqb_refl by lia. f_equal. lia.
Qed.

Lemma value_steps_sound M ws n ops n' s : M <> 0 ->
  (n <= List.length ws)%nat -> (List.length ws <= List.length s)%nat ->
  value_steps M ws n ops = Some n' ->
  val (take n' ws) (fold_left pure_exec ops s) mod M = val (take n ws) s mod M.
Proof.
  intros HM. revert n s. induction ops as [|op ops IH]; intros n s Hn Hs H; cbn in *; [by simplify_eq|].
  destruct (value_step M ws n op) as [m|] eqn:E; [|done]. cbn in H.
  destruct (value_step_sound M ws n op m s) as [<- Hm]; try done.
  apply IH; [done|by rewrite length_pure_exec|done].
Qed.

(** ** Limbs and bytes

    The bytes of a value given by limbs in their ranges, each from the one or
    two limbs it overlaps. *)

Lemma horner_skip w l u n : 0 <= l < 2 ^ w -> 0 <= w <= n -> (l + 2 ^ w * u) / 2 ^ n = u / 2 ^ (n - w).
Proof.
  intros Hl Hw. replace n with (w + (n - w)) at 1 by lia. rewrite Z.pow_add_r by lia.
  rewrite <- Z.div_div by lia. rewrite Z.mul_comm, Z.div_add by lia. by rewrite (Z.div_small l) by done.
Qed.

Lemma horner_div w l u n : 0 <= n <= w -> (l + 2 ^ w * u) / 2 ^ n = l / 2 ^ n + 2 ^ (w - n) * u.
Proof.
  intros Hn. replace w with ((w - n) + n) at 1 by lia. rewrite Z.pow_add_r by lia.
  replace (l + _) with (l + 2 ^ (w - n) * u * 2 ^ n) by lia. apply Z.div_add. lia.
Qed.

Lemma u8_add_high x y n : 8 <= n -> u8 (x + 2 ^ n * y) = u8 x.
Proof.
  intros Hn. unfold wrap. replace n with ((n - 8) + 8) by lia. rewrite Z.pow_add_r by lia.
  replace (x + _) with (x + 2 ^ (n - 8) * y * 2 ^ 8) by lia. by apply Z.mod_add.
Qed.

Lemma horner_byte1 w l u n : 0 <= n -> n + 8 <= w -> u8 ((l + 2 ^ w * u) / 2 ^ n) = u8 (Z.shiftr l n).
Proof.
  intros Hn Hw. rewrite horner_div, Z.shiftr_div_pow2 by lia. apply u8_add_high. lia.
Qed.

Lemma horner_byte2 w l w' l' u n : 0 <= l < 2 ^ w -> 0 <= n <= w -> 0 <= w' -> 8 <= w - n + w' ->
  u8 ((l + 2 ^ w * (l' + 2 ^ w' * u)) / 2 ^ n) = u8 (Z.lor (Z.shiftr l n) (Z.shiftl l' (w - n))).
Proof.
  intros Hl Hn Hw Hr. rewrite horner_div, Z.shiftr_div_pow2, Z.shiftl_mul_pow2 by lia.
  assert (0 <= l / 2 ^ n < 2 ^ (w - n)).
  { split; [apply Z.div_pos; lia|]. apply Z.div_lt_upper_bound; [lia|]. rewrite <- Z.pow_add_r by lia.
    replace (n + (w - n)) with w by lia. lia. }
  rewrite lor_add_low by lia.
  rewrite Z.mul_add_distr_l, Z.mul_assoc, <- Z.pow_add_r, Z.add_assoc, (Z.mul_comm _ l') by lia.
  apply u8_add_high. lia.
Qed.
