(* ===== verification/Field25519.v ===== *)
(** * The field of the curve: [src/src/crypto/crypto-ops.c], functions [fe_*]

    Elements modulo 2^255 - 19 as ten signed limbs of alternating 26 and 25
    bits.  A statement group with carries is a step of [Limbs]; the products
    of [fe_mul] are listed as the source lists them. *)

From S2P Require Import Prelude Limbs.

Definition p25519 : Z := 2 ^ 255 - 19.

Abbreviation fe := (list Z).

(** ** Loads *)

Definition load_3 (input : list Z) : Z :=
  let result := ld input 0 in
  let result := Z.lor result (Z.shiftl (ld input 1) 8) in
  Z.lor result (Z.shiftl (ld input 2) 16).

Definition load_4 (input : list Z) : Z :=
  let result := ld input 0 in
  let result := Z.lor result (Z.shiftl (ld input 1) 8) in
  let result := Z.lor result (Z.shiftl (ld input 2) 16) in
  Z.lor result (Z.shiftl (ld input 3) 24).

(** ** Linear operations *)

Definition fe_0 : fe := [0; 0; 0; 0; 0; 0; 0; 0; 0; 0].
Definition fe_1 : fe := [1; 0; 0; 0; 0; 0; 0; 0; 0; 0].

Definition fe_add (f g : fe) : fe := map (fun i => i32 (ld f i + ld g i)) (seq 0 10).
Definition fe_sub (f g : fe) : fe := map (fun i => i32 (ld f i - ld g i)) (seq 0 10).
Definition fe_neg (f : fe) : fe := map (fun i => i32 (- ld f i)) (seq 0 10).
Definition fe_copy (f : fe) : fe := map (fun i => ld f i) (seq 0 10).

(** [None] when the assert on [b] fails; the words are combined as unsigned
    ones and converted back. *)
Definition fe_cmov (f g : fe) (b : Z) : option fe :=
  if (b =? 0) || (b =? 1) then
    let mask := u32 (- b) in
    Some (map (fun i =>
      let x := Z.land (u32 (Z.lxor (ld f i) (ld g i))) mask in
      i32 (Z.lxor (u32 (ld f i)) x)) (seq 0 10))
  else None.

(** ** Multiplication *)

(** A sum of 64-bit products. *)
Definition dot (l : list (Z * Z)) : Z := fold_left (fun h '(a, b) => i64 (h + i64 (a * b))) l 0.

(** [carry_i]: 26 bits of an even limb or 25 of an odd one, rounded. *)
Definition fe_carry (i : nat) : limb_op :=
  if Nat.even i then Carry i (S i) 1 26 (2 ^ 25) else Carry i (S i) 1 25 (2 ^ 24).
Definition fe_carry9 : limb_op := Carry 9 0 19 25 (2 ^ 24).

Definition mul_carries : list limb_op :=
  [fe_carry 0; fe_carry 4; fe_carry 1; fe_carry 5; fe_carry 2; fe_carry 6; fe_carry 3; fe_carry 7;
   fe_carry 4; fe_carry 8; fe_carry9; fe_carry 0].

Definition fe_mul (f g : fe) : fe :=
  let f0 := ld f 0 in let f1 := ld f 1 in let f2 := ld f 2 in let f3 := ld f 3 in let f4 := ld f 4 in
  let f5 := ld f 5 in let f6 := ld f 6 in let f7 := ld f 7 in let f8 := ld f 8 in let f9 := ld f 9 in
  let g0 := ld g 0 in let g1 := ld g 1 in let g2 := ld g 2 in let g3 := ld g 3 in let g4 := ld g 4 in
  let g5 := ld g 5 in let g6 := ld g 6 in let g7 := ld g 7 in let g8 := ld g 8 in let g9 := ld g 9 in
  let g1_19 := i32 (19 * g1) in let g2_19 := i32 (19 * g2) in let g3_19 := i32 (19 * g3) in
  let g4_19 := i32 (19 * g4) in let g5_19 := i32 (19 * g5) in let g6_19 := i32 (19 * g6) in
  let g7_19 := i32 (19 * g7) in let g8_19 := i32 (19 * g8) in let g9_19 := i32 (19 * g9) in
  let f1_2 := i32 (2 * f1) in let f3_2 := i32 (2 * f3) in let f5_2 := i32 (2 * f5) in
  let f7_2 := i32 (2 * f7) in let f9_2 := i32 (2 * f9) in
  let h0 := dot [(f0, g0); (f1_2, g9_19); (f2, g8_19); (f3_2, g7_19); (f4, g6_19); (f5_2, g5_19);
    (f6, g4_19); (f7_2, g3_19); (f8, g2_19); (f9_2, g1_19)] in
  let h1 := dot [(f0, g1); (f1, g0); (f2, g9_19); (f3, g8_19); (f4, g7_19); (f5, g6_19); (f6, g5_19);
    (f7, g4_19); (f8, g3_19); (f9, g2_19)] in
  let h2 := dot [(f0, g2); (f1_2, g1); (f2, g0); (f3_2, g9_19); (f4, g8_19); (f5_2, g7_19); (f6, g6_19);
    (f7_2, g5_19); (f8, g4_19); (f9_2, g3_19)] in
  let h3 := dot [(f0, g3); (f1, g2); (f2, g1); (f3, g0); (f4, g9_19); (f5, g8_19); (f6, g7_19); (f7, g6_19);
    (f8, g5_19); (f9, g4_19)] in
  let h4 := dot [(f0, g4); (f1_2, g3); (f2, g2); (f3_2, g1); (f4, g0); (f5_2, g9_19); (f6, g8_19);
    (f7_2, g7_19); (f8, g6_19); (f9_2, g5_19)] in
  let h5 := dot [(f0, g5); (f1, g4); (f2, g3); (f3, g2); (f4, g1); (f5, g0); (f6, g9_19); (f7, g8_19);
    (f8, g7_19); (f9, g6_19)] in
  let h6 := dot [(f0, g6); (f1_2, g5); (f2, g4); (f3_2, g3); (f4, g2); (f5_2, g1); (f6, g0); (f7_2, g9_19);
    (f8, g8_19); (f9_2, g7_19)] in
  let h7 := dot [(f0, g7); (f1, g6); (f2, g5); (f3, g4); (f4, g3); (f5, g2); (f6, g1); (f7, g0); (f8, g9_19);
    (f9, g8_19)] in
  let h8 := dot [(f0, g8); (f1_2, g7); (f2, g6); (f3_2, g5); (f4, g4); (f5_2, g3); (f6, g2); (f7_2, g1);
    (f8, g0); (f9_2, g9_19)] in
  let h9 := dot [(f0, g9); (f1, g8); (f2, g7); (f3, g6); (f4, g5); (f5, g4); (f6, g3); (f7, g2); (f8, g1);
    (f9, g0)] in
  map i32 (run 64 mul_carries [h0; h1; h2; h3; h4; h5; h6; h7; h8; h9]).

Definition fe_sq (f : fe) : fe :=
  let f0 := ld f 0 in let f1 := ld f 1 in let f2 := ld f 2 in let f3 := ld f 3 in let f4 := ld f 4 in
  let f5 := ld f 5 in let f6 := ld f 6 in let f7 := ld f 7 in let f8 := ld f 8 in let f9 := ld f 9 in
  let f0_2 := i32 (2 * f0) in let f1_2 := i32 (2 * f1) in let f2_2 := i32 (2 * f2) in
  let f3_2 := i32 (2 * f3) in let f4_2 := i32 (2 * f4) in let f5_2 := i32 (2 * f5) in
  let f6_2 := i32 (2 * f6) in let f7_2 := i32 (2 * f7) in let f5_38 := i32 (38 * f5) in
  let f6_19 := i32 (19 * f6) in let f7_38 := i32 (38 * f7) in let f8_19 := i32 (19 * f8) in
  let f9_38 := i32 (38 * f9) in
  let h0 := dot [(f0, f0); (f1_2, f9_38); (f2_2, f8_19); (f3_2, f7_38); (f4_2, f6_19); (f5, f5_38)] in
  let h1 := dot [(f0_2, f1); (f2, f9_38); (f3_2, f8_19); (f4, f7_38); (f5_2, f6_19)] in
  let h2 := dot [(f0_2, f2); (f1_2, f1); (f3_2, f9_38); (f4_2, f8_19); (f5_2, f7_38); (f6, f6_19)] in
  let h3 := dot [(f0_2, f3); (f1_2, f2); (f4, f9_38); (f5_2, f8_19); (f6, f7_38)] in
  let h4 := dot [(f0_2, f4); (f1_2, f3_2); (f2, f2); (f5_2, f9_38); (f6_2, f8_19); (f7, f7_38)] in
  let h5 := dot [(f0_2, f5); (f1_2, f4); (f2_2, f3); (f6, f9_38); (f7_2, f8_19)] in
  let h6 := dot [(f0_2, f6); (f1_2, f5_2); (f2_2, f4); (f3_2, f3); (f7_2, f9_38); (f8, f8_19)] in
  let h7 := dot [(f0_2, f7); (f1_2, f6); (f2_2, f5); (f3_2, f4); (f8, f9_38)] in
  let h8 := dot [(f0_2, f8); (f1_2, f7_2); (f2_2, f6); (f3_2, f5_2); (f4, f4); (f9, f9_38)] in
  let h9 := dot [(f0_2, f9); (f1_2, f8); (f2_2, f7); (f3_2, f6); (f4_2, f5)] in
  map i32 (run 64 mul_carries [h0; h1; h2; h3; h4; h5; h6; h7; h8; h9]).

Definition fe_sq2 (f : fe) : fe :=
  let f0 := ld f 0 in let f1 := ld f 1 in let f2 := ld f 2 in let f3 := ld f 3 in let f4 := ld f 4 in
  let f5 := ld f 5 in let f6 := ld f 6 in let f7 := ld f 7 in let f8 := ld f 8 in let f9 := ld f 9 in
  let f0_2 := i32 (2 * f0) in let f1_2 := i32 (2 * f1) in let f2_2 := i32 (2 * f2) in
  let f3_2 := i32 (2 * f3) in let f4_2 := i32 (2 * f4) in let f5_2 := i32 (2 * f5) in
  let f6_2 := i32 (2 * f6) in let f7_2 := i32 (2 * f7) in let f5_38 := i32 (38 * f5) in
  let f6_19 := i32 (19 * f6) in let f7_38 := i32 (38 * f7) in let f8_19 := i32 (19 * f8) in
  let f9_38 := i32 (38 * f9) in
  let h0 := dot [(f0, f0); (f1_2, f9_38); (f2_2, f8_19); (f3_2, f7_38); (f4_2, f6_19); (f5, f5_38)] in
  let h1 := dot [(f0_2, f1); (f2, f9_38); (f3_2, f8_19); (f4, f7_38); (f5_2, f6_19)] in
  let h2 := dot [(f0_2, f2); (f1_2, f1); (f3_2, f9_38); (f4_2, f8_19); (f5_2, f7_38); (f6, f6_19)] in
  let h3 := dot [(f0_2, f3); (f1_2, f2); (f4, f9_38); (f5_2, f8_19); (f6, f7_38)] in
  let h4 := dot [(f0_2, f4); (f1_2, f3_2); (f2, f2); (f5_2, f9_38); (f6_2, f8_19); (f7, f7_38)] in
  let h5 := dot [(f0_2, f5); (f1_2, f4); (f2_2, f3); (f6, f9_38); (f7_2, f8_19)] in
  let h6 := dot [(f0_2, f6); (f1_2, f5_2); (f2_2, f4); (f3_2, f3); (f7_2, f9_38); (f8, f8_19)] in
  let h7 := dot [(f0_2, f7); (f1_2, f6); (f2_2, f5); (f3_2, f4); (f8, f9_38)] in
  let h8 := dot [(f0_2, f8); (f1_2, f7_2); (f2_2, f6); (f3_2, f5_2); (f4, f4); (f9, f9_38)] in
  let h9 := dot [(f0_2, f9); (f1_2, f8); (f2_2, f7); (f3_2, f6); (f4_2, f5)] in
  map i32 (run 64 mul_carries (map (fun h => i64 (h + h)) [h0; h1; h2; h3; h4; h5; h6; h7; h8; h9])).

(** ** Bytes *)

(** The low bytes of limbs; a [| (h << n)] of the source stays in 32 bits. *)
Definition fe_tobytes_carries : list limb_op :=
  [Carry 0 1 1 26 0; Carry 1 2 1 25 0; Carry 2 3 1 26 0; Carry 3 4 1 25 0; Carry 4 5 1 26 0;
   Carry 5 6 1 25 0; Carry 6 7 1 26 0; Carry 7 8 1 25 0; Carry 8 9 1 26 0; Cut 9 25].

Definition fe_tobytes (h : fe) : list Z :=
  let q := Z.shiftr (i32 (i32 (19 * ld h 9) + 2 ^ 24)) 25 in
  let q := Z.shiftr (i32 (ld h 0 + q)) 26 in
  let q := Z.shiftr (i32 (ld h 1 + q)) 25 in
  let q := Z.shiftr (i32 (ld h 2 + q)) 26 in
  let q := Z.shiftr (i32 (ld h 3 + q)) 25 in
  let q := Z.shiftr (i32 (ld h 4 + q)) 26 in
  let q := Z.shiftr (i32 (ld h 5 + q)) 25 in
  let q := Z.shiftr (i32 (ld h 6 + q)) 26 in
  let q := Z.shiftr (i32 (ld h 7 + q)) 25 in
  let q := Z.shiftr (i32 (ld h 8 + q)) 26 in
  let q := Z.shiftr (i32 (ld h 9 + q)) 25 in
  let h := <[0%nat := i32 (ld h 0 + i32 (19 * q))]> h in
  let h := run 32 fe_tobytes_carries h in
  let h0 := ld h 0 in let h1 := ld h 1 in let h2 := ld h 2 in let h3 := ld h 3 in let h4 := ld h 4 in
  let h5 := ld h 5 in let h6 := ld h 6 in let h7 := ld h 7 in let h8 := ld h 8 in let h9 := ld h 9 in
  map u8
  [Z.shiftr h0 0; Z.shiftr h0 8; Z.shiftr h0 16; Z.lor (Z.shiftr h0 24) (Z.shiftl h1 2);
   Z.shiftr h1 6; Z.shiftr h1 14; Z.lor (Z.shiftr h1 22) (Z.shiftl h2 3);
   Z.shiftr h2 5; Z.shiftr h2 13; Z.lor (Z.shiftr h2 21) (Z.shiftl h3 5);
   Z.shiftr h3 3; Z.shiftr h3 11; Z.lor (Z.shiftr h3 19) (Z.shiftl h4 6);
   Z.shiftr h4 2; Z.shiftr h4 10; Z.shiftr h4 18;
   Z.shiftr h5 0; Z.shiftr h5 8; Z.shiftr h5 16; Z.lor (Z.shiftr h5 24) (Z.shiftl h6 1);
   Z.shiftr h6 7; Z.shiftr h6 15; Z.lor (Z.shiftr h6 23) (Z.shiftl h7 3);
   Z.shiftr h7 5; Z.shiftr h7 13; Z.lor (Z.shiftr h7 21) (Z.shiftl h8 4);
   Z.shiftr h8 4; Z.shiftr h8 12; Z.lor (Z.shiftr h8 20) (Z.shiftl h9 6);
   Z.shiftr h9 2; Z.shiftr h9 10; Z.shiftr h9 18].

Definition fe_frombytes_carries : list limb_op :=
  [fe_carry9; fe_carry 1; fe_carry 3; fe_carry 5; fe_carry 7;
   fe_carry 0; fe_carry 2; fe_carry 4; fe_carry 6; fe_carry 8].

Definition fe_frombytes (s : list Z) : fe :=
  let h0 := load_4 s in
  let h1 := i64 (Z.shiftl (load_3 (drop 4 s)) 6) in
  let h2 := i64 (Z.shiftl (load_3 (drop 7 s)) 5) in
  let h3 := i64 (Z.shiftl (load_3 (drop 10 s)) 3) in
  let h4 := i64 (Z.shiftl (load_3 (drop 13 s)) 2) in
  let h5 := load_4 (drop 16 s) in
  let h6 := i64 (Z.shiftl (load_3 (drop 20 s)) 7) in
  let h7 := i64 (Z.shiftl (load_3 (drop 23 s)) 5) in
  let h8 := i64 (Z.shiftl (load_3 (drop 26 s)) 4) in
  let h9 := i64 (Z.shiftl (Z.land (load_3 (drop 29 s)) 8388607) 2) in
  map i32 (run 64 fe_frombytes_carries [h0; h1; h2; h3; h4; h5; h6; h7; h8; h9]).

Definition fe_isnegative (f : fe) : Z := Z.land (ld (fe_tobytes f) 0) 1.

Definition fe_isnonzero (f : fe) : Z :=
  Z.shiftr (fold_left Z.lor (fe_tobytes f) 0 - 1) 8 + 1.

(** ** Inversion *)

(** A [for] loop of squarings. *)
Definition fe_sq_n (n : nat) (t : fe) : fe := Nat.iter n fe_sq t.

Definition fe_invert (z : fe) : fe :=
  let t0 := fe_sq z in
  let t1 := fe_sq t0 in
  let t1 := fe_sq t1 in
  let t1 := fe_mul z t1 in
  let t0 := fe_mul t0 t1 in
  let t2 := fe_sq t0 in
  let t1 := fe_mul t1 t2 in
  let t2 := fe_sq_n 4 (fe_sq t1) in
  let t1 := fe_mul t2 t1 in
  let t2 := fe_sq_n 9 (fe_sq t1) in
  let t2 := fe_mul t2 t1 in
  let t3 := fe_sq_n 19 (fe_sq t2) in
  let t2 := fe_mul t3 t2 in
  let t2 := fe_sq_n 9 (fe_sq t2) in
  let t1 := fe_mul t2 t1 in
  let t2 := fe_sq_n 49 (fe_sq t1) in
  let t2 := fe_mul t2 t1 in
  let t3 := fe_sq_n 99 (fe_sq t2) in
  let t2 := fe_mul t3 t2 in
  let t2 := fe_sq_n 49 (fe_sq t2) in
  let t1 := fe_mul t2 t1 in
  let t1 := fe_sq_n 4 (fe_sq t1) in
  fe_mul t1 t0.

(** The power [fe_divpowm1] raises [u v^7] to. *)
Definition fe_pow22523 (uv7 : fe) : fe :=
  let t0 := fe_sq uv7 in
  let t1 := fe_sq t0 in
  let t1 := fe_sq t1 in
  let t1 := fe_mul uv7 t1 in
  let t0 := fe_mul t0 t1 in
  let t0 := fe_sq t0 in
  let t0 := fe_mul t1 t0 in
  let t1 := fe_sq_n 4 (fe_sq t0) in
  let t0 := fe_mul t1 t0 in
  let t1 := fe_sq_n 9 (fe_sq t0) in
  let t1 := fe_mul t1 t0 in
  let t2 := fe_sq_n 19 (fe_sq t1) in
  let t1 := fe_mul t2 t1 in
  let t1 := fe_sq_n 10 t1 in
  let t0 := fe_mul t1 t0 in
  let t1 := fe_sq_n 49 (fe_sq t0) in
  let t1 := fe_mul t1 t0 in
  let t2 := fe_sq_n 99 (fe_sq t1) in
  let t1 := fe_mul t2 t1 in
  let t1 := fe_sq_n 50 t1 in
  let t0 := fe_mul t1 t0 in
  let t0 := fe_sq t0 in
  let t0 := fe_sq t0 in
  fe_mul t0 uv7.

Definition fe_divpowm1 (u v : fe) : fe :=
  let v3 := fe_sq v in
  let v3 := fe_mul v3 v in
  let uv7 := fe_sq v3 in
  let uv7 := fe_mul uv7 v in
  let uv7 := fe_mul uv7 u in
  let t0 := fe_pow22523 uv7 in
  let t0 := fe_mul t0 v3 in
  fe_mul t0 u.

(** ** Values and bounds *)

Definition fe_weights : list Z :=
  [1; 2 ^ 26; 2 ^ 51; 2 ^ 77; 2 ^ 102; 2 ^ 128; 2 ^ 153; 2 ^ 179; 2 ^ 204; 2 ^ 230].

Definition fval (f : fe) : Z := val fe_weights f.

(** [bounded c f]: the limbs of [f] are bounded by c/100 of 2^25, 2^24, 2^25,
    and so on.  The comments of the source speak of 1.01 (products), 1.1 (the
    arguments of additions), 2.2 (sums) and 3.3 (arguments of products). *)
Definition fe_bound (c : Z) : list itv :=
  map (fun i => let b := c * (if Nat.even i then 2 ^ 25 else 2 ^ 24) / 100 in (- b, b)) (seq 0 10).
Definition bounded (c : Z) (f : fe) : Prop := within f (fe_bound c).

(** Two elements are the same modulo the prime. *)
Definition feq (x y : Z) : Prop := x mod p25519 = y mod p25519.

#[export] Instance feq_dec x y : Decision (feq x y).
Proof. unfold feq. apply _. Defined.

#[export] Instance feq_equiv : Equivalence feq.
Proof. split; unfold feq; congruence. Qed.

#[export] Instance feq_mul : Proper (feq ==> feq ==> feq) Z.mul.
Proof. intros x x' Hx y y' Hy. unfold feq in *. by rewrite (Z.mul_mod x y), (Z.mul_mod x' y'), Hx, Hy. Qed.

#[export] Instance feq_add : Proper (feq ==> feq ==> feq) Z.add.
Proof. intros x x' Hx y y' Hy. unfold feq in *. by rewrite (Z.add_mod x y), (Z.add_mod x' y'), Hx, Hy. Qed.

#[export] Instance feq_opp : Proper (feq ==> feq) Z.opp.
Proof.
  intros x x' Hx. rewrite !Z.opp_eq_mul_m1. by rewrite Hx.
Qed.

#[export] Instance feq_sub : Proper (feq ==> feq ==> feq) Z.sub.
Proof. intros x x' Hx y y' Hy. unfold Z.sub. by rewrite Hx, Hy. Qed.

#[export] Instance feq_pow n : Proper (feq ==> feq) (fun x => x ^ Z.of_nat n).
Proof.
  intros x y Hxy. induction n as [|n IH]; [done|]. rewrite Nat2Z.inj_succ, !Z.pow_succ_r by lia. by apply feq_mul.
Qed.

Lemma feq_shift x y k : x = y + k * p25519 -> feq x y.
Proof. intros ->. unfold feq. by rewrite Z.mod_add. Qed.

Lemma bounded_le c c' f : 0 <= c <= c' -> bounded c f -> bounded c' f.
Proof.
  intros Hc. unfold bounded, within. assert (H : Forall2 (fun a b => fst b <= fst a /\ snd a <= snd b) (fe_bound c) (fe_bound c')).
  { unfold fe_bound. apply Forall2_fmap_2, Forall_Forall2_diag, Forall_forall. intros i _. cbn.
    assert (c * (if Nat.even i then 2 ^ 25 else 2 ^ 24) / 100 <= c' * (if Nat.even i then 2 ^ 25 else 2 ^ 24) / 100);
      [|lia]. apply Z.div_le_mono; [lia|]. destruct (Nat.even i); lia. }
  revert H. generalize (fe_bound c) (fe_bound c'). intros A B H Hf. revert f Hf.
  induction H as [|a b A B Hab _ IH]; intros f Hf; inversion Hf as [|x ? ? ? Hx Hf']; subst; constructor; [|by apply IH].
  unfold inb in *. lia.
Qed.

Lemma bounded_limbs c f : bounded c f -> exists f0 f1 f2 f3 f4 f5 f6 f7 f8 f9,
  f = [f0; f1; f2; f3; f4; f5; f6; f7; f8; f9] /\
  let e := c * 2 ^ 25 / 100 in let o := c * 2 ^ 24 / 100 in
  (- e <= f0 <= e /\ - o <= f1 <= o /\ - e <= f2 <= e /\ - o <= f3 <= o /\ - e <= f4 <= e) /\
  (- o <= f5 <= o /\ - e <= f6 <= e /\ - o <= f7 <= o /\ - e <= f8 <= e /\ - o <= f9 <= o).
Proof.
  intros H. pose proof (within_length _ _ H) as Hl.
  do 10 (destruct f as [|? f]; [done|]). destruct f; [|done]. clear Hl.
  unfold bounded, within, fe_bound in H. cbn [seq map Nat.even] in H.
  repeat (apply Forall2_cons in H as [? H]). do 10 eexists. split; [reflexivity|]. unfold inb in *. cbn [fst snd] in *.
  tauto.
Qed.

(** [limbs f H] replaces [f], bounded by [H], by ten limbs with numeric
    bounds. *)
Ltac limbs f H :=
  let f0 := fresh f "0" in let f1 := fresh f "1" in let f2 := fresh f "2" in let f3 := fresh f "3" in
  let f4 := fresh f "4" in let f5 := fresh f "5" in let f6 := fresh f "6" in let f7 := fresh f "7" in
  let f8 := fresh f "8" in let f9 := fresh f "9" in
  let Hl := fresh "Hl" in
  destruct (bounded_limbs _ _ H) as (f0 & f1 & f2 & f3 & f4 & f5 & f6 & f7 & f8 & f9 & -> & Hl);
  cbv zeta in Hl;
  repeat match type of Hl with
  | context [?c * 2 ^ ?k / 100] => let v := eval vm_compute in (c * 2 ^ k / 100) in change (c * 2 ^ k / 100) with v in Hl
  end;
  destruct Hl as [(? & ? & ? & ? & ?) (? & ? & ? & ? & ?)].

(** ** Multiplication *)

(** The factors that occur in the products. *)
Definition factors (e : Z * Z) : Prop :=
  (- 221459250 <= fst e <= 221459250) /\ (- 2103862875 <= snd e <= 2103862875).

Definition psum (l : list (Z * Z)) : Z := fold_right (fun e acc => fst e * snd e + acc) 0 l.

Lemma dot_from l acc n : Forall factors l ->
  - (n * (221459250 * 2103862875)) <= acc <= n * (221459250 * 2103862875) -> 0 <= n ->
  n + Z.of_nat (List.length l) <= 10 ->
  fold_left (fun h '(a, b) => i64 (h + i64 (a * b))) l acc = acc + psum l.
Proof.
  intros Hl. revert acc n. induction Hl as [|[a b] l [Ha Hb] _ IH]; intros acc n Hacc Hn Hlen; [cbn; lia|].
  cbn [fold_left psum fold_right fst snd] in *. cbn [List.length] in Hlen.
  assert (Hp : - (221459250 * 2103862875) <= a * b <= 221459250 * 2103862875) by nia.
  rewrite (swrap_small 64 (a * b)) by (first [lia|split; lia]).
  rewrite (swrap_small 64 (acc + a * b)) by (first [lia|split; lia]).
  rewrite (IH (acc + a * b) (n + 1)) by lia. fold (psum l). lia.
Qed.

Lemma psum_bound l : Forall factors l ->
  inb (psum l) (- (Z.of_nat (List.length l) * (221459250 * 2103862875)), Z.of_nat (List.length l) * (221459250 * 2103862875)).
Proof.
  unfold inb. induction 1 as [|[a b] l [Ha Hb] _ IH]; [done|]. cbn [psum fold_right fst snd List.length] in *.
  fold (psum l). assert (Hp : - (221459250 * 2103862875) <= a * b <= 221459250 * 2103862875) by nia. lia.
Qed.

Lemma dot_exact l : Forall factors l -> (List.length l <= 10)%nat -> dot l = psum l.
Proof. intros Hl Hlen. unfold dot. by rewrite (dot_from l 0 0) by (done || lia). Qed.

(** The carries bring the sums back to small limbs of the same element. *)
Definition sums_bound : list itv := replicate 10 (- 5600000000000000000, 5600000000000000000).

Lemma mul_carries_correct hs : within hs sums_bound ->
  let r := map i32 (run 64 mul_carries hs) in bounded 101 r /\ feq (fval r) (fval hs).
Proof.
  intros Hs. destruct (analyze 64 mul_carries sums_bound) as [B|] eqn:E; [|by vm_compute in E].
  destruct (run_sound 64 ltac:(done) hs sums_bound mul_carries B Hs E) as [Hp Hw].
  assert (Hsub : subset B (fe_bound 101) = true) by (vm_compute in E; injection E as <-; vm_compute; reflexivity).
  pose proof (within_subset _ _ _ Hw Hsub) as Hb.
  assert (Hid : map i32 (run 64 mul_carries hs) = run 64 mul_carries hs).
  { clear -Hb. revert Hb. generalize (run 64 mul_carries hs). intros r Hb. limbs r Hb. cbn [map]. repeat f_equal; (apply swrap_small; [lia|split; lia]). }
  cbv zeta. rewrite Hid. split; [done|]. unfold feq, fval. rewrite Hp.
  apply (value_steps_sound p25519 fe_weights 10 mul_carries 10); [done|done| |by vm_compute].
  by rewrite (within_length _ _ Hs).
Qed.

(** [unscale] removes the wraps of the 32-bit multiples of limbs, [exact_sums]
    those of the products. *)
Ltac unscale :=
  repeat match goal with
  | |- context [swrap 32 (?c * ?x)] => rewrite (swrap_small 32 (c * x)) by (first [lia|split; lia])
  end.

Ltac factors_tac := repeat constructor; cbn [fst snd]; lia.

Ltac exact_sums :=
  repeat match goal with
  | |- context [dot ?l] => rewrite (dot_exact l) by (first [factors_tac|cbn; lia])
  end.

Ltac sums_within :=
  repeat (apply Forall2_cons; split; [|]); try apply Forall2_nil_2;
  match goal with |- context [psum ?l] =>
    pose proof (psum_bound l ltac:(factors_tac)); unfold inb in *; cbn [fst snd List.length] in *; lia end.

Lemma fe_mul_spec f g : bounded 330 f -> bounded 330 g ->
  bounded 101 (fe_mul f g) /\ feq (fval (fe_mul f g)) (fval f * fval g).
Proof.
  intros Hf Hg. limbs f Hf. limbs g Hg. unfold fe_mul. cbn [ld List.nth]. cbv zeta.
  unscale. exact_sums.
  match goal with |- context [run 64 mul_carries ?hs] => destruct (mul_carries_correct hs) as [Hb Hv] end;
    [sums_within|].
  split; [exact Hb|]. etransitivity; [exact Hv|]. symmetry. apply (feq_shift _ _ (
    (2 * f1 * g9 + f2 * g8 + 2 * f3 * g7 + f4 * g6 + 2 * f5 * g5 + f6 * g4 + 2 * f7 * g3 + f8 * g2 + 2 * f9 * g1) * 2 ^ 0 +
    (f2 * g9 + f3 * g8 + f4 * g7 + f5 * g6 + f6 * g5 + f7 * g4 + f8 * g3 + f9 * g2) * 2 ^ 26 +
    (2 * f3 * g9 + f4 * g8 + 2 * f5 * g7 + f6 * g6 + 2 * f7 * g5 + f8 * g4 + 2 * f9 * g3) * 2 ^ 51 +
    (f4 * g9 + f5 * g8 + f6 * g7 + f7 * g6 + f8 * g5 + f9 * g4) * 2 ^ 77 +
    (2 * f5 * g9 + f6 * g8 + 2 * f7 * g7 + f8 * g6 + 2 * f9 * g5) * 2 ^ 102 +
    (f6 * g9 + f7 * g8 + f8 * g7 + f9 * g6) * 2 ^ 128 +
    (2 * f7 * g9 + f8 * g8 + 2 * f9 * g7) * 2 ^ 153 +
    (f8 * g9 + f9 * g8) * 2 ^ 179 +
    (2 * f9 * g9) * 2 ^ 204)).
  unfold fval, fe_weights, p25519. cbn [val psum fold_right fst snd]. ring.
Qed.


Lemma fe_sq_spec f : bounded 330 f ->
  bounded 101 (fe_sq f) /\ feq (fval (fe_sq f)) (fval f * fval f).
Proof.
  intros Hf. limbs f Hf. unfold fe_sq. cbn [ld List.nth]. cbv zeta.
  unscale. exact_sums.
  match goal with |- context [run 64 mul_carries ?hs] => destruct (mul_carries_correct hs) as [Hb Hv] end;
    [sums_within|].
  split; [exact Hb|]. etransitivity; [exact Hv|]. symmetry. apply (feq_shift _ _ (
    (2 * f1 * f9 + f2 * f8 + 2 * f3 * f7 + f4 * f6 + 2 * f5 * f5 + f6 * f4 + 2 * f7 * f3 + f8 * f2 + 2 * f9 * f1) * 2 ^ 0 +
    (f2 * f9 + f3 * f8 + f4 * f7 + f5 * f6 + f6 * f5 + f7 * f4 + f8 * f3 + f9 * f2) * 2 ^ 26 +
    (2 * f3 * f9 + f4 * f8 + 2 * f5 * f7 + f6 * f6 + 2 * f7 * f5 + f8 * f4 + 2 * f9 * f3) * 2 ^ 51 +
    (f4 * f9 + f5 * f8 + f6 * f7 + f7 * f6 + f8 * f5 + f9 * f4) * 2 ^ 77 +
    (2 * f5 * f9 + f6 * f8 + 2 * f7 * f7 + f8 * f6 + 2 * f9 * f5) * 2 ^ 102 +
    (f6 * f9 + f7 * f8 + f8 * f7 + f9 * f6) * 2 ^ 128 +
    (2 * f7 * f9 + f8 * f8 + 2 * f9 * f7) * 2 ^ 153 +
    (f8 * f9 + f9 * f8) * 2 ^ 179 +
    (2 * f9 * f9) * 2 ^ 204)).
  unfold fval, fe_weights, p25519. cbn [val psum fold_right fst snd]. ring.
Qed.

(** [double_sums] removes the wraps of [h += h]. *)
Ltac double_sums :=
  repeat match goal with
  | |- context [swrap 64 (psum ?l + psum ?l)] =>
      rewrite (swrap_small 64 (psum l + psum l))
        by (pose proof (psum_bound l ltac:(factors_tac)); unfold inb in *; cbn [fst snd List.length] in *; first [lia|split; lia])
  end.

Lemma fe_sq2_spec f : bounded 330 f ->
  bounded 101 (fe_sq2 f) /\ feq (fval (fe_sq2 f)) (2 * (fval f * fval f)).
Proof.
  intros Hf. limbs f Hf. unfold fe_sq2. cbn [ld List.nth]. cbv zeta.
  unscale. cbn [map]. exact_sums. double_sums.
  match goal with |- context [run 64 mul_carries ?hs] => destruct (mul_carries_correct hs) as [Hb Hv] end;
    [sums_within|].
  split; [exact Hb|]. etransitivity; [exact Hv|]. symmetry. apply (feq_shift _ _ (
    (4 * f1 * f9 + 2 * f2 * f8 + 4 * f3 * f7 + 2 * f4 * f6 + 4 * f5 * f5 + 2 * f6 * f4 + 4 * f7 * f3 + 2 * f8 * f2 + 4 * f9 * f1) * 2 ^ 0 +
    (2 * f2 * f9 + 2 * f3 * f8 + 2 * f4 * f7 + 2 * f5 * f6 + 2 * f6 * f5 + 2 * f7 * f4 + 2 * f8 * f3 + 2 * f9 * f2) * 2 ^ 26 +
    (4 * f3 * f9 + 2 * f4 * f8 + 4 * f5 * f7 + 2 * f6 * f6 + 4 * f7 * f5 + 2 * f8 * f4 + 4 * f9 * f3) * 2 ^ 51 +
    (2 * f4 * f9 + 2 * f5 * f8 + 2 * f6 * f7 + 2 * f7 * f6 + 2 * f8 * f5 + 2 * f9 * f4) * 2 ^ 77 +
    (4 * f5 * f9 + 2 * f6 * f8 + 4 * f7 * f7 + 2 * f8 * f6 + 4 * f9 * f5) * 2 ^ 102 +
    (2 * f6 * f9 + 2 * f7 * f8 + 2 * f8 * f7 + 2 * f9 * f6) * 2 ^ 128 +
    (4 * f7 * f9 + 2 * f8 * f8 + 4 * f9 * f7) * 2 ^ 153 +
    (2 * f8 * f9 + 2 * f9 * f8) * 2 ^ 179 +
    (4 * f9 * f9) * 2 ^ 204)).
  unfold fval, fe_weights, p25519. cbn [val psum fold_right fst snd]. ring.
Qed.


(** ** Serialization *)

(** The quotient estimated from the limbs is the quotient by the prime. *)
Lemma quotient_estimate V h9 q0 q :
  - 2 ^ 256 <= V <= 2 ^ 256 -> - 2 ^ 233 <= V - 2 ^ 230 * h9 <= 2 ^ 233 ->
  2 ^ 25 * q0 <= 19 * h9 + 2 ^ 24 < 2 ^ 25 * q0 + 2 ^ 25 ->
  2 ^ 255 * q <= V + q0 < 2 ^ 255 * q + 2 ^ 255 ->
  0 <= V - p25519 * q < p25519.
Proof.
  unfold p25519. intros HV He Hq0 Hq. split.
  - destruct (decide (0 <= V - (2 ^ 255 - 19) * q)); [done|]. exfalso. assert (q0 <= 19 * q) by lia. lia.
  - destruct (decide (V - (2 ^ 255 - 19) * q < 2 ^ 255 - 19)); [done|]. exfalso.
    assert (19 * (q + 1) <= q0) by lia. lia.
Qed.

(** One step of the chain of floors. *)
Lemma floor_step h q w : 0 <= w -> 2 ^ w * (Z.shiftr (h + q) w) <= h + q < 2 ^ w * (Z.shiftr (h + q) w) + 2 ^ w.
Proof.
  intros Hw. rewrite Z.shiftr_div_pow2 by done. pose proof (Z.pow_pos_nonneg 2 w).
  pose proof (Z.div_mod (h + q) (2 ^ w)). pose proof (Z.mod_pos_bound (h + q) (2 ^ w)). lia.
Qed.

(** [floor_tac] names the next quotient of the chain and bounds it. *)
Ltac floor_tac :=
  match goal with
  | |- context [Z.shiftr (swrap 32 (?h + ?q)) ?w] =>
      rewrite (swrap_small 32 (h + q)) by (first [lia|split; lia]);
      let H := fresh "Hq" in pose proof (floor_step h q w ltac:(lia)) as H;
      let q' := fresh "q" in set (q' := Z.shiftr (h + q) w) in *; clearbody q'
  end.

Lemma fe_quotient h : bounded 220 h ->
  let q := Z.shiftr (i32 (i32 (19 * ld h 9) + 2 ^ 24)) 25 in
  let q := fold_left (fun q i => Z.shiftr (i32 (ld h i + q)) (if Nat.even i then 26 else 25)) (seq 0 10) q in
  0 <= fval h - p25519 * q < p25519 /\ -3 <= q <= 3.
Proof.
  intros Hh. limbs h Hh. cbn [ld List.nth seq fold_left Nat.even]. cbv zeta. unscale.
  do 11 floor_tac. split; [|lia].
  apply (quotient_estimate _ h9 q); unfold fval, fe_weights; cbn [val]; lia.
Qed.

Definition tobytes_bound : list itv := (- 73819850, 73819850) :: tl (fe_bound 220).
Definition digits_bound : list itv := map (fun i => (0, if Nat.even i then 2 ^ 26 - 1 else 2 ^ 25 - 1)) (seq 0 10).

(** The carry chain computes the digits of the value modulo 2^255. *)
Lemma tobytes_digits h : within h tobytes_bound ->
  let r := run 32 fe_tobytes_carries h in within r digits_bound /\ fval r = fval h mod 2 ^ 255.
Proof.
  intros Hh. destruct (analyze 32 fe_tobytes_carries tobytes_bound) as [B|] eqn:E; [|by vm_compute in E].
  destruct (run_sound 32 ltac:(done) h tobytes_bound fe_tobytes_carries B Hh E) as [Hp Hw].
  assert (Hsub : subset B digits_bound = true) by (vm_compute in E; injection E as <-; vm_compute; reflexivity).
  pose proof (within_subset _ _ _ Hw Hsub) as Hb. cbv zeta. split; [done|].
  assert (Hv : fval (run 32 fe_tobytes_carries h) mod 2 ^ 255 = fval h mod 2 ^ 255).
  { unfold fval. rewrite Hp.
    apply (value_steps_sound (2 ^ 255) fe_weights 10 fe_tobytes_carries 10); [done|done| |by vm_compute].
    by rewrite (within_length _ _ Hh). }
  rewrite <- Hv, Z.mod_small; [done|]. clear -Hb. revert Hb. generalize (run 32 fe_tobytes_carries h). intros r Hb.
  pose proof (within_length _ _ Hb) as Hl. do 10 (destruct r as [|? r]; [done|]). destruct r; [|done].
  unfold within, digits_bound in Hb. cbn [seq map Nat.even] in Hb. repeat (apply Forall2_cons in Hb as [? Hb]).
  unfold inb, fval, fe_weights in *. cbn [val fst snd] in *. lia.
Qed.

(** [byte_tac] reads one byte of a value in Horner form off its limbs. *)
Ltac byte_tac :=
  repeat (rewrite horner_skip by lia; match goal with |- context [Z.pow 2 (?a - ?b)] =>
    let v := eval vm_compute in (a - b) in change (a - b) with v end);
  first [by rewrite horner_byte1 by lia | by rewrite horner_byte2 by lia
    | by rewrite horner_byte2, Z.shiftl_0_l, Z.lor_0_r by lia].

Lemma fe_tobytes_spec h : bounded 220 h -> fe_tobytes h = le_split 32 (fval h mod p25519).
Proof.
  intros Hh. pose proof (fe_quotient h Hh) as Hq. cbn [seq fold_left Nat.even] in Hq. cbv zeta in Hq.
  unfold fe_tobytes. cbv zeta.
  match type of Hq with _ <= fval h - p25519 * ?e < _ /\ _ => set (q := e) in * end. clearbody q.
  destruct Hq as [Hr Hq].
  assert (Hm : fval h mod p25519 = fval h - p25519 * q) by (symmetry; apply Z.mod_unique with q; lia).
  set (h' := <[0%nat := _]> h).
  assert (Hw : within h' tobytes_bound /\ fval h' = fval h + 19 * q).
  { clear -Hh Hq. subst h'. limbs h Hh. cbn [ld List.nth insert list_insert].
    rewrite (swrap_small 32 (19 * q)), (swrap_small 32 (h0 + 19 * q)) by (first [lia|split; lia]). split.
    - unfold within, inb. let B := eval vm_compute in tobytes_bound in change tobytes_bound with B.
      repeat (apply Forall2_cons; split); [cbn [fst snd]; lia..|apply Forall2_nil_2].
    - unfold fval, fe_weights. cbn [val]. lia. }
  destruct Hw as [Hw Hv]. destruct (tobytes_digits h' Hw) as [Hb Hd].
  assert (Hval : fval (run 32 fe_tobytes_carries h') = fval h mod p25519).
  { rewrite Hd, Hv, Hm. unfold p25519 in *. replace (fval h + 19 * q) with (fval h - (2 ^ 255 - 19) * q + q * 2 ^ 255) by lia.
    rewrite Z.mod_add by lia. apply Z.mod_small. lia. }
  rewrite <- Hval. clear -Hb. revert Hb. generalize (run 32 fe_tobytes_carries h'). intros r Hb.
  pose proof (within_length _ _ Hb) as Hl. do 10 (destruct r as [|? r]; [done|]). destruct r; [|done].
  unfold within, digits_bound in Hb. cbn [seq map Nat.even] in Hb. repeat (apply Forall2_cons in Hb as [? Hb]).
  unfold inb in *. cbn [fst snd] in *. cbn [ld List.nth]. symmetry.
  apply le_split_ext; [done|]. intros j Hj.
  match goal with |- context [fval ?l] => match l with [?l0; ?l1; ?l2; ?l3; ?l4; ?l5; ?l6; ?l7; ?l8; ?l9] =>
    replace (fval l) with (l0 + 2 ^ 26 * (l1 + 2 ^ 25 * (l2 + 2 ^ 26 * (l3 + 2 ^ 25 * (l4 + 2 ^ 26 * (l5 + 2 ^ 25 *
      (l6 + 2 ^ 26 * (l7 + 2 ^ 25 * (l8 + 2 ^ 26 * (l9 + 2 ^ 25 * (0 + 2 ^ 26 * 0)))))))))))
      by (unfold fval, fe_weights; cbn [val]; ring)
  end end.
  do 32 (destruct j as [|j]; [cbn [map lookup list_lookup]; f_equal; symmetry;
    match goal with |- context [8 * Z.of_nat ?k] => let v := eval vm_compute in (8 * Z.of_nat k) in change (8 * Z.of_nat k) with v end;
    byte_tac|]). lia.
Qed.

Lemma load_3_bytes b0 b1 b2 l : is_u8 b0 -> is_u8 b1 -> is_u8 b2 ->
  load_3 (b0 :: b1 :: b2 :: l) = b0 + b1 * 2 ^ 8 + b2 * 2 ^ 16.
Proof.
  unfold in_u. intros H0 H1 H2. unfold load_3. cbn [ld List.nth].
  rewrite !Z.shiftl_mul_pow2, (lor_add_low b0 b1 8), lor_add_low by lia. lia.
Qed.

Lemma load_4_bytes b0 b1 b2 b3 l : is_u8 b0 -> is_u8 b1 -> is_u8 b2 -> is_u8 b3 ->
  load_4 (b0 :: b1 :: b2 :: b3 :: l) = b0 + b1 * 2 ^ 8 + b2 * 2 ^ 16 + b3 * 2 ^ 24.
Proof.
  unfold in_u. intros H0 H1 H2 H3. unfold load_4. cbn [ld List.nth].
  rewrite !Z.shiftl_mul_pow2, (lor_add_low b0 b1 8), (lor_add_low _ b2 16), lor_add_low by lia. lia.
Qed.

Definition loads_bound : list itv := replicate 10 (0, 2 ^ 32 - 1).

Lemma frombytes_carries_correct hs : within hs loads_bound ->
  let r := map i32 (run 64 fe_frombytes_carries hs) in bounded 110 r /\ feq (fval r) (fval hs).
Proof.
  intros Hs. destruct (analyze 64 fe_frombytes_carries loads_bound) as [B|] eqn:E; [|by vm_compute in E].
  destruct (run_sound 64 ltac:(done) hs loads_bound fe_frombytes_carries B Hs E) as [Hp Hw].
  assert (Hsub : subset B (fe_bound 110) = true) by (vm_compute in E; injection E as <-; vm_compute; reflexivity).
  pose proof (within_subset _ _ _ Hw Hsub) as Hb.
  assert (Hid : map i32 (run 64 fe_frombytes_carries hs) = run 64 fe_frombytes_carries hs).
  { clear -Hb. revert Hb. generalize (run 64 fe_frombytes_carries hs). intros r Hb. limbs r Hb. cbn [map].
    repeat f_equal; (apply swrap_small; [lia|split; lia]). }
  cbv zeta. rewrite Hid. split; [done|]. unfold feq, fval. rewrite Hp.
  apply (value_steps_sound p25519 fe_weights 10 fe_frombytes_carries 10); [done|done| |by vm_compute].
  by rewrite (within_length _ _ Hs).
Qed.

(** [bytes_tac s Hs Hl] names the bytes of [s]. *)
Ltac bytes_tac s Hs Hl :=
  repeat (destruct s as [|? s]; [done|let H := fresh "B" in apply Forall_cons in Hs as [H Hs]; cbn in Hl; apply Nat.succ_inj in Hl]);
  destruct s; [|done].

Lemma fe_frombytes_spec s : bytes_ok s -> List.length s = 32%nat ->
  bounded 110 (fe_frombytes s) /\ feq (fval (fe_frombytes s)) (le_combine s mod 2 ^ 255).
Proof.
  intros Hs Hl. bytes_tac s Hs Hl. clear Hl Hs. unfold fe_frombytes. cbn [drop]. cbv zeta.
  rewrite !load_3_bytes, !load_4_bytes by done.
  change 8388607 with (2 ^ 23 - 1). rewrite land_ones_mod by lia. rewrite !Z.shiftl_mul_pow2 by lia.
  unfold in_u in *.
  match goal with |- context [(?a + ?b * 2 ^ 8 + ?c * 2 ^ 16) mod 2 ^ 23] =>
    pose proof (Z.div_mod c 128 ltac:(lia)); pose proof (Z.mod_pos_bound c 128 ltac:(lia));
    assert ((a + b * 2 ^ 8 + c * 2 ^ 16) mod 2 ^ 23 = a + b * 2 ^ 8 + (c mod 128) * 2 ^ 16) as ->
      by (symmetry; apply Z.mod_unique with (c / 128); lia)
  end.
  repeat match goal with |- context [swrap 64 ?x] => rewrite (swrap_small 64 x) by (first [lia|split; lia]) end.
  match goal with |- context [run 64 _ ?hs] => destruct (frombytes_carries_correct hs) as [Hb Hv] end.
  { unfold within, loads_bound, inb. cbn [replicate]. repeat (apply Forall2_cons; split); [cbn [fst snd]; lia..|apply Forall2_nil_2]. }
  split; [exact Hb|]. etransitivity; [exact Hv|]. unfold feq. f_equal. unfold fval, fe_weights. cbn [val le_combine].
  match goal with |- context [?c mod 128] => apply Z.mod_unique with (c / 128) end; lia.
Qed.

(** ** Linear operations *)

Lemma fe_linear c d f g h :
  bounded c f -> bounded d g -> 0 <= c -> 0 <= d -> c + d <= 1000 ->
  (h = fe_add f g -> bounded (c + d) h /\ fval h = fval f + fval g) /\
  (h = fe_sub f g -> bounded (c + d) h /\ fval h = fval f - fval g).
Proof.
  intros Hf Hg Hc Hd Hcd.
  assert (He : c * 2 ^ 25 / 100 + d * 2 ^ 25 / 100 <= (c + d) * 2 ^ 25 / 100 <= 1000 * 2 ^ 25 / 100).
  { split; [|apply Z.div_le_mono; lia]. apply Z.div_le_lower_bound; [lia|].
    pose proof (Z.mul_div_le (c * 2 ^ 25) 100). pose proof (Z.mul_div_le (d * 2 ^ 25) 100). lia. }
  assert (Ho : c * 2 ^ 24 / 100 + d * 2 ^ 24 / 100 <= (c + d) * 2 ^ 24 / 100 <= 1000 * 2 ^ 24 / 100).
  { split; [|apply Z.div_le_mono; lia]. apply Z.div_le_lower_bound; [lia|].
    pose proof (Z.mul_div_le (c * 2 ^ 24) 100). pose proof (Z.mul_div_le (d * 2 ^ 24) 100). lia. }
  change (1000 * 2 ^ 25 / 100) with 335544320 in He. change (1000 * 2 ^ 24 / 100) with 167772160 in Ho.
  destruct (bounded_limbs _ _ Hf) as (f0 & f1 & f2 & f3 & f4 & f5 & f6 & f7 & f8 & f9 & -> & Hf').
  destruct (bounded_limbs _ _ Hg) as (g0 & g1 & g2 & g3 & g4 & g5 & g6 & g7 & g8 & g9 & -> & Hg').
  cbv zeta in Hf', Hg'. unfold bounded, fe_bound. cbn [seq map Nat.even].
  generalize dependent (c * 2 ^ 25 / 100). intros ce Hce. generalize dependent (c * 2 ^ 24 / 100). intros co Hco.
  generalize dependent (d * 2 ^ 25 / 100). intros de Hde. generalize dependent (d * 2 ^ 24 / 100). intros do_ Hdo.
  generalize dependent ((c + d) * 2 ^ 25 / 100). intros be Hbe. generalize dependent ((c + d) * 2 ^ 24 / 100). intros bo Hbo.
  intros. split; intros ->; [unfold fe_add|unfold fe_sub]; cbn [seq map ld List.nth];
    repeat match goal with |- context [swrap 32 ?x] => rewrite (swrap_small 32 x) by (first [lia|split; lia]) end;
    (split; [unfold within, inb; repeat (apply Forall2_cons; split); [cbn [fst snd]; lia..|apply Forall2_nil_2]
            |unfold fval, fe_weights; cbn [val]; ring]).
Qed.

Lemma fe_neg_spec f c : bounded c f -> 0 <= c <= 1000 -> bounded c (fe_neg f) /\ fval (fe_neg f) = - fval f.
Proof.
  intros Hf Hc.
  assert (He : c * 2 ^ 25 / 100 <= 335544320) by (change 335544320 with (1000 * 2 ^ 25 / 100); apply Z.div_le_mono; lia).
  assert (Ho : c * 2 ^ 24 / 100 <= 167772160) by (change 167772160 with (1000 * 2 ^ 24 / 100); apply Z.div_le_mono; lia).
  destruct (bounded_limbs _ _ Hf) as (f0 & f1 & f2 & f3 & f4 & f5 & f6 & f7 & f8 & f9 & -> & Hf').
  cbv zeta in Hf'. unfold bounded, fe_bound. cbn [seq map Nat.even].
  generalize dependent (c * 2 ^ 25 / 100). intros ce Hce. generalize dependent (c * 2 ^ 24 / 100). intros co Hco.
  intros. unfold fe_neg. cbn [seq map ld List.nth].
  repeat match goal with |- context [swrap 32 ?x] => rewrite (swrap_small 32 x) by (first [lia|split; lia]) end.
  split; [unfold within, inb; repeat (apply Forall2_cons; split); [cbn [fst snd]; lia..|apply Forall2_nil_2]|].
  unfold fval, fe_weights. cbn [val]. ring.
Qed.

Lemma fe_copy_spec f : List.length f = 10%nat -> fe_copy f = f.
Proof. intros H. do 10 (destruct f as [|? f]; [done|]). by destruct f. Qed.

Lemma i32_u32 x : in_s 32 x -> i32 (u32 x) = x.
Proof.
  unfold in_s, wrap, swrap. cbn [Z.sub Z.pos_sub Pos.pred_double]. intros H. change (2 ^ (32 - 1)) with (2 ^ 31) in *.
  rewrite Zplus_mod_idemp_l, Z.mod_small by lia. lia.
Qed.

Lemma u32_lxor_cancel x y : u32 (Z.lxor x (Z.lxor x y)) = u32 y.
Proof. by rewrite <- Z.lxor_assoc, Z.lxor_nilpotent, Z.lxor_0_l. Qed.

Lemma u32_lxor x y : u32 (Z.lxor x y) = Z.lxor (u32 x) (u32 y).
Proof.
  apply Z.bits_inj'. intros i Hi. rewrite Z.lxor_spec. destruct (decide (i < 32)).
  - by rewrite !wrap_testbit_low, Z.lxor_spec by lia.
  - by rewrite !wrap_testbit_high by lia.
Qed.

(** The conditional move selects one of its arguments without a branch. *)
Lemma fe_cmov_spec f g b : within f (replicate 10 (- 2 ^ 31, 2 ^ 31 - 1)) -> within g (replicate 10 (- 2 ^ 31, 2 ^ 31 - 1)) ->
  fe_cmov f g b = if b =? 0 then Some f else if b =? 1 then Some g else None.
Proof.
  intros Hf Hg. unfold fe_cmov.
  assert (H0 : forall x y, in_s 32 x -> i32 (Z.lxor (u32 x) (Z.land (u32 (Z.lxor x y)) 0)) = x).
  { intros x y Hx. rewrite Z.land_0_r, Z.lxor_0_r. by apply i32_u32. }
  assert (H1 : forall x y, in_s 32 y -> i32 (Z.lxor (u32 x) (Z.land (u32 (Z.lxor x y)) (2 ^ 32 - 1))) = y).
  { intros x y Hy. rewrite land_ones_mod by lia. fold (wrap 32 (u32 (Z.lxor x y))).
    rewrite (wrap_small 32 (u32 _)) by by apply wrap_range.
    rewrite <- u32_lxor, u32_lxor_cancel. by apply i32_u32. }
  destruct (b =? 0) eqn:E0; zbool; subst; cbn [orb]; [f_equal|destruct (b =? 1) eqn:E1; zbool; subst; [f_equal|done]].
  all: pose proof (within_length _ _ Hf) as Hlf; pose proof (within_length _ _ Hg) as Hlg.
  all: do 10 (destruct f as [|? f]; [done|]; destruct g as [|? g]; [done|]); destruct f, g; try done.
  all: unfold within, inb in Hf, Hg; cbn [replicate] in Hf, Hg;
    repeat (apply Forall2_cons in Hf as [? Hf]); repeat (apply Forall2_cons in Hg as [? Hg]); cbn [fst snd] in *.
  all: cbn [seq map ld List.nth]; change (u32 (- (0))) with 0; change (u32 (- (1))) with (2 ^ 32 - 1).
  - repeat f_equal; apply H0; unfold in_s; change (2 ^ (32 - 1)) with (2 ^ 31); lia.
  - repeat f_equal; apply H1; unfold in_s; change (2 ^ (32 - 1)) with (2 ^ 31); lia.
Qed.

(** ** Tests *)

Lemma fold_lor_zero l acc : bytes_ok l -> is_u8 acc ->
  is_u8 (fold_left Z.lor l acc) /\ (fold_left Z.lor l acc = 0 <-> acc = 0 /\ Forall (fun b => b = 0) l).
Proof.
  intros Hl. revert acc. induction Hl as [|b l Hb _ IH]; intros acc Ha; cbn [fold_left].
  { split; [done|]. split; [by intros ->|tauto]. }
  destruct (IH (Z.lor acc b)) as [H1 H2]; [by apply in_u_lor|]. split; [done|].
  rewrite H2, Z.lor_eq_0_iff, Forall_cons. tauto.
Qed.

Lemma le_combine_zero l : bytes_ok l -> le_combine l = 0 <-> Forall (fun b => b = 0) l.
Proof.
  induction 1 as [|b l Hb Hl IH]; [done|]. change (le_combine (b :: l)) with (b + 256 * le_combine l).
  pose proof (le_combine_range l Hl). unfold in_u in Hb. rewrite Forall_cons, <- IH. lia.
Qed.

Lemma fe_isnonzero_spec f : bounded 220 f -> fe_isnonzero f = if decide (feq (fval f) 0) then 0 else 1.
Proof.
  intros Hf. unfold fe_isnonzero. rewrite fe_tobytes_spec by done.
  pose proof (Z.mod_pos_bound (fval f) p25519 ltac:(done)) as Hr.
  destruct (fold_lor_zero (le_split 32 (fval f mod p25519)) 0 (le_split_bytes_ok _ _) ltac:(done)) as [[H1 H2] H3].
  set (x := fold_left Z.lor _ 0) in *. change (2 ^ 8) with 256 in H2.
  assert (Hx : x = 0 <-> feq (fval f) 0).
  { rewrite H3, <- le_combine_zero by apply le_split_bytes_ok.
    rewrite le_combine_split, Z.mod_small by (unfold p25519 in *; change (256 ^ Z.of_nat 32) with (2 ^ 256); lia).
    unfold feq. rewrite Z.mod_0_l by done. tauto. }
  rewrite Z.shiftr_div_pow2 by lia. change (2 ^ 8) with 256. case_decide as Hd.
  - apply Hx in Hd. rewrite Hd. done.
  - rewrite Z.div_small; [done|]. assert (x <> 0) by tauto. lia.
Qed.

Lemma fe_isnegative_spec f : bounded 220 f -> fe_isnegative f = (fval f mod p25519) mod 2.
Proof.
  intros Hf. unfold fe_isnegative. rewrite fe_tobytes_spec by done.
  change (ld (le_split 32 ?x) 0) with (u8 x). change 1 with (2 ^ 1 - 1). rewrite land_ones_mod by lia.
  unfold wrap. change (2 ^ 8) with (2 * 2 ^ 7). rewrite Z.rem_mul_r by lia.
  rewrite Z.add_mod, Z.mul_comm, Z.mod_mul, Z.add_0_r, !Z.mod_mod by lia. done.
Qed.

(** ** Powers *)

(** [is_pow z e f]: [f] is the power [e] of [z], ready to be multiplied. *)
Definition is_pow (z e : Z) (f : fe) : Prop := bounded 330 f /\ 0 <= e /\ feq (fval f) (z ^ e).

Lemma is_pow_mul z m n f g : is_pow z m f -> is_pow z n g -> is_pow z (m + n) (fe_mul f g).
Proof.
  intros (Hf & Hm & Ef) (Hg & Hn & Eg). destruct (fe_mul_spec f g Hf Hg) as [Hb Hv].
  split; [by apply (bounded_le 101 330)|]. split; [lia|]. rewrite Z.pow_add_r by done.
  etransitivity; [exact Hv|]. by apply feq_mul.
Qed.

Lemma is_pow_sq z m f : is_pow z m f -> is_pow z (2 * m) (fe_sq f).
Proof.
  intros (Hf & Hm & Ef). destruct (fe_sq_spec f Hf) as [Hb Hv].
  split; [by apply (bounded_le 101 330)|]. split; [lia|]. replace (2 * m) with (m + m) by lia. rewrite Z.pow_add_r by done.
  etransitivity; [exact Hv|]. by apply feq_mul.
Qed.

Lemma is_pow_sq_n z m f n : is_pow z m f -> is_pow z (2 ^ Z.of_nat n * m) (fe_sq_n n f).
Proof.
  intros Hf. induction n as [|n IH]; [by rewrite Z.mul_1_l|].
  unfold fe_sq_n in *. cbn [Nat.iter nat_rect]. rewrite Nat2Z.inj_succ, Z.pow_succ_r by lia.
  rewrite <- Z.mul_assoc. by apply is_pow_sq.
Qed.

Lemma is_pow_1 f : bounded 330 f -> is_pow (fval f) 1 f.
Proof. intros Hf. split; [done|]. split; [done|]. by rewrite Z.pow_1_r. Qed.

(** [pow_tac] computes the exponent of a chain of products and squarings. *)
Ltac pow_tac :=
  lazymatch goal with
  | |- is_pow _ _ (fe_mul _ _) => apply is_pow_mul; pow_tac
  | |- is_pow _ _ (fe_sq _) => apply is_pow_sq; pow_tac
  | |- is_pow _ _ (fe_sq_n _ _) => apply is_pow_sq_n; pow_tac
  | H : is_pow ?z ?n ?t |- is_pow ?z _ ?t => exact H
  end.

Lemma is_pow_exp z e e' f : is_pow z e f -> e = e' -> is_pow z e' f.
Proof. by intros ? <-. Qed.

(** [pow_let] computes the exponent of the first of a sequence of lets and
    forgets its definition. *)
Ltac pow_let :=
  lazymatch goal with |- is_pow ?z ?e (let t := ?v in @?k t) =>
    let H := fresh "Ht" in let m := open_constr:(_ : Z) in
    assert (H : is_pow z m v) by pow_tac;
    lazymatch type of H with is_pow _ ?n _ =>
      let n' := eval vm_compute in n in change (is_pow z n' v) in H;
      let t := fresh "t" in change (is_pow z e (k v)); generalize dependent v; intros t H; cbv beta
    end
  end.

Lemma fe_invert_pow z : bounded 330 z -> is_pow (fval z) (p25519 - 2) (fe_invert z).
Proof.
  intros Hz%is_pow_1. cbv beta delta [fe_invert]. repeat pow_let.
  eapply is_pow_exp; [pow_tac|]. vm_compute. reflexivity.
Qed.

Lemma fe_pow22523_pow z : bounded 330 z -> is_pow (fval z) ((p25519 - 5) / 8) (fe_pow22523 z).
Proof.
  intros Hz%is_pow_1. cbv beta delta [fe_pow22523]. repeat pow_let.
  eapply is_pow_exp; [pow_tac|]. vm_compute. reflexivity.
Qed.

#[local] Opaque fe_mul fe_sq fe_pow22523.

Lemma feq_refl x y : x = y -> feq x y.
Proof. by intros ->. Qed.

Lemma fe_mul_feq f g x y : bounded 330 f -> bounded 330 g -> feq (fval f) x -> feq (fval g) y ->
  bounded 330 (fe_mul f g) /\ feq (fval (fe_mul f g)) (x * y).
Proof.
  intros Hf Hg Ex Ey. destruct (fe_mul_spec f g Hf Hg) as [Hb E]. split; [by apply (bounded_le 101 330)|].
  etransitivity; [exact E|]. by apply feq_mul.
Qed.

Lemma fe_sq_feq f x : bounded 330 f -> feq (fval f) x -> bounded 330 (fe_sq f) /\ feq (fval (fe_sq f)) (x * x).
Proof.
  intros Hf Ex. destruct (fe_sq_spec f Hf) as [Hb E]. split; [by apply (bounded_le 101 330)|].
  etransitivity; [exact E|]. by apply feq_mul.
Qed.

Lemma fe_divpowm1_spec u v : bounded 330 u -> bounded 330 v ->
  feq (fval (fe_divpowm1 u v)) (fval u * fval v ^ 3 * (fval u * fval v ^ 7) ^ ((p25519 - 5) / 8)).
Proof.
  intros Hu Hv. cbv beta delta [fe_divpowm1].
  destruct (fe_sq_feq v _ Hv (feq_refl _ _ eq_refl)) as [B1 E1].
  destruct (fe_mul_feq _ v _ _ B1 Hv E1 (feq_refl _ _ eq_refl)) as [B2 E2].
  destruct (fe_sq_feq _ _ B2 E2) as [B3 E3].
  destruct (fe_mul_feq _ v _ _ B3 Hv E3 (feq_refl _ _ eq_refl)) as [B4 E4].
  destruct (fe_mul_feq _ u _ _ B4 Hu E4 (feq_refl _ _ eq_refl)) as [B5 E5].
  destruct (fe_pow22523_pow _ B5) as (B6 & _ & E6).
  destruct (fe_mul_feq _ _ _ _ B6 B2 E6 E2) as [B7 E7].
  destruct (fe_mul_feq _ u _ _ B7 Hu E7 (feq_refl _ _ eq_refl)) as [_ E8].
  cbv zeta. etransitivity; [exact E8|]. clear - E5.
  apply (feq_pow (Z.to_nat ((p25519 - 5) / 8))) in E5. rewrite Z2Nat.id in E5 by done.
  etransitivity; [apply feq_mul; [apply feq_mul; [exact E5|apply feq_refl; reflexivity]|apply feq_refl; reflexivity]|].
  apply feq_refl.
  replace (fval v * fval v * fval v * (fval v * fval v * fval v) * fval v * fval u) with (fval u * fval v ^ 7) by ring. ring.
Qed.

(** ** The field operations *)

(** C39: multiplication, squaring and doubled squaring modulo 2^255 - 19: on
    arguments within the documented bounds no 32-bit multiple, product, sum or
    carry overflows, and the result is the product again within the documented
    bounds. *)
Theorem fe_mul_correct f g : bounded 330 f -> bounded 330 g ->
  (bounded 101 (fe_mul f g) /\ feq (fval (fe_mul f g)) (fval f * fval g)) /\
  (bounded 101 (fe_sq f) /\ feq (fval (fe_sq f)) (fval f * fval f)) /\
  (bounded 101 (fe_sq2 f) /\ feq (fval (fe_sq2 f)) (2 * (fval f * fval f))).
Proof. intros Hf Hg. split; [by apply fe_mul_spec|]. split; [by apply fe_sq_spec|by apply fe_sq2_spec]. Qed.

(** the 32 bytes of an element are those of its representative below the
    prime, whatever limbs hold it: two elements have the same bytes exactly
    when they are equal in the field; the tests for zero and for the sign read
    the canonical representative. *)
Theorem fe_tobytes_canonical f g : bounded 220 f -> bounded 220 g ->
  fe_tobytes f = le_split 32 (fval f mod p25519) /\
  (fe_tobytes f = fe_tobytes g <-> feq (fval f) (fval g)) /\
  fe_isnonzero f = (if decide (feq (fval f) 0) then 0 else 1) /\
  fe_isnegative f = (fval f mod p25519) mod 2.
Proof.
  intros Hf Hg. split; [by apply fe_tobytes_spec|].
  split; [|split; [by apply fe_isnonzero_spec|by apply fe_isnegative_spec]].
  rewrite !fe_tobytes_spec by done. unfold feq. split; [|by intros ->]. apply le_split_inj;
    match goal with |- 0 <= ?x mod _ < _ => pose proof (Z.mod_pos_bound x p25519 ltac:(done)) end;
    unfold p25519 in *; change (256 ^ Z.of_nat 32) with (2 ^ 256); lia.
Qed.

(** reading 32 bytes gives the element of their low 255 bits, within the
    bounds every other operation accepts; writing it back gives the bytes
    again when they encode a number below the prime, and the reduced number
    otherwise. *)
Theorem fe_bytes_roundtrip s : bytes_ok s -> List.length s = 32%nat ->
  bounded 110 (fe_frombytes s) /\
  fe_tobytes (fe_frombytes s) = le_split 32 ((le_combine s mod 2 ^ 255) mod p25519) /\
  (le_combine s < p25519 -> fe_tobytes (fe_frombytes s) = s).
Proof.
  intros Hs Hl. destruct (fe_frombytes_spec s Hs Hl) as [Hb Hv]. split; [done|].
  assert (E : fe_tobytes (fe_frombytes s) = le_split 32 ((le_combine s mod 2 ^ 255) mod p25519)).
  { rewrite fe_tobytes_spec by by apply (bounded_le 110 220). unfold feq in Hv. by rewrite Hv. }
  split; [done|]. intros Hlt. rewrite E. pose proof (le_combine_range s Hs). unfold p25519 in *.
  rewrite !Z.mod_small by (rewrite ?Z.mod_small by lia; lia).
  rewrite <- Hl. by apply le_split_combine.
Qed.

(** the addition chains compute the intended powers: [fe_invert] the power
    [p - 2], so that the product with the argument is its power [p - 1] (the
    inverse, by Fermat's theorem), and [fe_divpowm1] the candidate square root
    [u v^3 (u v^7)^((p - 5) / 8)]. *)
Theorem fe_invert_correct z u v : bounded 330 z -> bounded 330 u -> bounded 330 v ->
  feq (fval (fe_invert z)) (fval z ^ (p25519 - 2)) /\
  feq (fval z * fval (fe_invert z)) (fval z ^ (p25519 - 1)) /\
  feq (fval (fe_divpowm1 u v)) (fval u * fval v ^ 3 * (fval u * fval v ^ 7) ^ ((p25519 - 5) / 8)).
Proof.
  intros Hz Hu Hv. destruct (fe_invert_pow z Hz) as (_ & _ & E). split; [exact E|]. split.
  { etransitivity; [apply feq_mul; [by apply feq_refl|exact E]|].
    replace (p25519 - 1) with (Z.succ (p25519 - 2)) by lia. rewrite Z.pow_succ_r by done. by apply feq_refl. }
  by apply fe_divpowm1_spec.
Qed.

(** ** Concrete elements *)

Lemma bounded_check c f : subset (map (fun x => (x, x)) f) (fe_bound c) = true -> bounded c f.
Proof.
  apply within_subset. unfold within. induction f as [|x f IH]; constructor; [|done]. unfold inb. cbn. lia.
Qed.

(** The square root of -1 of the source, with its negative limbs. *)
Definition fe_sqrtm1 : fe :=
  [-32595792; -7943725; 9377950; 3500415; 12389472; -272473; -25146209; -2005654; 326686; 11406482].

Example fe_mul_correct_witness :
  bounded 330 fe_sqrtm1 /\ feq (fval (fe_sq fe_sqrtm1)) (fval fe_sqrtm1 * fval fe_sqrtm1) /\
  fe_tobytes (fe_mul fe_sqrtm1 fe_sqrtm1) = le_split 32 (p25519 - 1).
Proof.
  assert (H : bounded 330 fe_sqrtm1) by (apply bounded_check; vm_compute; reflexivity).
  destruct (fe_mul_correct fe_sqrtm1 fe_sqrtm1 H H) as (_ & [_ E] & _).
  split; [exact H|]. split; [exact E|vm_compute; reflexivity].
Defined.

(** The limbs of the prime itself are those of zero. *)
Definition demo_p : fe := [67108845; 33554431; 67108863; 33554431; 67108863; 33554431; 67108863; 33554431; 67108863; 33554431].

Example fe_tobytes_canonical_witness :
  fe_tobytes demo_p = fe_tobytes fe_0 /\ fe_isnonzero demo_p = 0 /\ fe_isnegative fe_sqrtm1 = 0.
Proof.
  assert (H : bounded 220 demo_p) by (apply bounded_check; vm_compute; reflexivity).
  assert (H0 : bounded 220 fe_0) by (apply bounded_check; vm_compute; reflexivity).
  destruct (fe_tobytes_canonical demo_p fe_0 H H0) as (_ & E & Z & _).
  split; [apply E; vm_compute; reflexivity|]. split; [rewrite Z; vm_compute; reflexivity|vm_compute; reflexivity].
Defined.

Example fe_bytes_roundtrip_witness :
  let s := le_split 32 (2 ^ 254 + 12345) in
  fe_tobytes (fe_frombytes s) = s /\
  fe_tobytes (fe_frombytes (le_split 32 (p25519 + 5))) = le_split 32 5.
Proof.
  split.
  - apply (fe_bytes_roundtrip (le_split 32 (2 ^ 254 + 12345)) (le_split_bytes_ok _ _) eq_refl). vm_compute. reflexivity.
  - vm_compute. reflexivity.
Defined.

Example fe_invert_correct_witness :
  feq (fval fe_sqrtm1 * fval (fe_invert fe_sqrtm1)) (fval fe_sqrtm1 ^ (p25519 - 1)) /\
  fe_tobytes (fe_mul fe_sqrtm1 (fe_invert fe_sqrtm1)) = fe_tobytes fe_1.
Proof.
  assert (H : bounded 330 fe_sqrtm1) by (apply bounded_check; vm_compute; reflexivity).
  destruct (fe_invert_correct fe_sqrtm1 fe_sqrtm1 fe_sqrtm1 H H H) as (_ & E & _).
  split; [exact E|vm_compute; reflexivity].
Defined.
