(* ===== verification/Scalar25519.v ===== *)
(** * Scalars of the curve: [src/src/crypto/crypto-ops.c], functions [sc_*]

    Integers modulo the order of the base point as little-endian strings of 32
    bytes.  The operations spread their arguments over limbs of 21 bits, fold
    the limbs from 12 upwards into the lower ones and finish with two chains of
    floors that leave the canonical representative.  The reduction is a program
    of [Limbs]; the same pieces of it occur in all the functions. *)

From S2P Require Import Prelude Limbs Field25519.

Definition l25519 : Z := 2 ^ 252 + 27742317777372353535851937790883648493.

(** ** Limbs of a scalar *)

Definition limb_loads : list (list Z -> Z) :=
  [(fun s => load_3 s); (fun s => Z.shiftr (load_4 (drop 2 s)) 5); (fun s => Z.shiftr (load_3 (drop 5 s)) 2);
   (fun s => Z.shiftr (load_4 (drop 7 s)) 7); (fun s => Z.shiftr (load_4 (drop 10 s)) 4);
   (fun s => Z.shiftr (load_3 (drop 13 s)) 1); (fun s => Z.shiftr (load_4 (drop 15 s)) 6);
   (fun s => Z.shiftr (load_3 (drop 18 s)) 3); (fun s => load_3 (drop 21 s));
   (fun s => Z.shiftr (load_4 (drop 23 s)) 5); (fun s => Z.shiftr (load_3 (drop 26 s)) 2);
   (fun s => Z.shiftr (load_4 (drop 28 s)) 7); (fun s => Z.shiftr (load_4 (drop 31 s)) 4);
   (fun s => Z.shiftr (load_3 (drop 34 s)) 1); (fun s => Z.shiftr (load_4 (drop 36 s)) 6);
   (fun s => Z.shiftr (load_3 (drop 39 s)) 3); (fun s => load_3 (drop 42 s));
   (fun s => Z.shiftr (load_4 (drop 44 s)) 5); (fun s => Z.shiftr (load_3 (drop 47 s)) 2);
   (fun s => Z.shiftr (load_4 (drop 49 s)) 7); (fun s => Z.shiftr (load_4 (drop 52 s)) 4);
   (fun s => Z.shiftr (load_3 (drop 55 s)) 1); (fun s => Z.shiftr (load_4 (drop 57 s)) 6);
   (fun s => Z.shiftr (load_4 (drop 60 s)) 3)].

(** The first [n] limbs; the last one is not masked. *)
Definition sc_load (n : nat) (s : list Z) : list Z :=
  map (fun f : list Z -> Z => Z.land 2097151 (f s)) (take (n - 1) limb_loads) ++
  map (fun f : list Z -> Z => f s) (take 1 (drop (n - 1) limb_loads)).

(** ** Reduction *)

(** [carry_i], rounded and rounded down. *)
Definition sc_carry (i : nat) : limb_op := Carry i (S i) 1 21 (2 ^ 20).
Definition sc_floor (i : nat) : limb_op := Carry i (S i) 1 21 0.

(** [s_i] is folded into the limbs 12 below it. *)
Definition sc_fold (i : nat) : limb_op :=
  Fold i [((i - 12)%nat, 666643); ((i - 11)%nat, 470296); ((i - 10)%nat, 654183);
   ((i - 9)%nat, -997805); ((i - 8)%nat, 136657); ((i - 7)%nat, -683901)].

Definition sc_carries_12 : list limb_op :=
  map sc_carry [0; 2; 4; 6; 8; 10]%nat ++ map sc_carry [1; 3; 5; 7; 9; 11]%nat.

Definition sc_finish : list limb_op :=
  [sc_fold 12; Clear 12] ++ map sc_floor (seq 0 12) ++ [sc_fold 12] ++ map sc_floor (seq 0 11).

(** From limbs 0 to 12. *)
Definition sc_reduce_12 : list limb_op := sc_carries_12 ++ sc_finish.

(** From limbs 0 to 23. *)
Definition sc_reduce_24 : list limb_op :=
  map sc_fold [23; 22; 21; 20; 19; 18]%nat ++
  map sc_carry [6; 8; 10; 12; 14; 16]%nat ++ map sc_carry [7; 9; 11; 13; 15]%nat ++
  map sc_fold [17; 16; 15; 14; 13; 12]%nat ++ [Clear 12] ++ sc_reduce_12.

Definition sc_carries_24 : list limb_op :=
  map sc_carry [0; 2; 4; 6; 8; 10; 12; 14; 16; 18; 20; 22]%nat ++
  map sc_carry [1; 3; 5; 7; 9; 11; 13; 15; 17; 19; 21]%nat.

Definition sc_pack (s : list Z) : list Z :=
  let s0 := ld s 0 in let s1 := ld s 1 in let s2 := ld s 2 in let s3 := ld s 3 in let s4 := ld s 4 in
  let s5 := ld s 5 in let s6 := ld s 6 in let s7 := ld s 7 in let s8 := ld s 8 in let s9 := ld s 9 in
  let s10 := ld s 10 in let s11 := ld s 11 in
  map u8
  [Z.shiftr s0 0; Z.shiftr s0 8; Z.lor (Z.shiftr s0 16) (Z.shiftl s1 5); Z.shiftr s1 3; Z.shiftr s1 11;
   Z.lor (Z.shiftr s1 19) (Z.shiftl s2 2); Z.shiftr s2 6; Z.lor (Z.shiftr s2 14) (Z.shiftl s3 7);
   Z.shiftr s3 1; Z.shiftr s3 9; Z.lor (Z.shiftr s3 17) (Z.shiftl s4 4); Z.shiftr s4 4; Z.shiftr s4 12;
   Z.lor (Z.shiftr s4 20) (Z.shiftl s5 1); Z.shiftr s5 7; Z.lor (Z.shiftr s5 15) (Z.shiftl s6 6);
   Z.shiftr s6 2; Z.shiftr s6 10; Z.lor (Z.shiftr s6 18) (Z.shiftl s7 3); Z.shiftr s7 5; Z.shiftr s7 13;
   Z.shiftr s8 0; Z.shiftr s8 8; Z.lor (Z.shiftr s8 16) (Z.shiftl s9 5); Z.shiftr s9 3; Z.shiftr s9 11;
   Z.lor (Z.shiftr s9 19) (Z.shiftl s10 2); Z.shiftr s10 6; Z.lor (Z.shiftr s10 14) (Z.shiftl s11 7);
   Z.shiftr s11 1; Z.shiftr s11 9; Z.shiftr s11 17].

(** ** The operations *)

Definition sc_0 : list Z := replicate 32 0.

Definition sc_reduce (s : list Z) : list Z := sc_pack (run 64 sc_reduce_24 (sc_load 24 s)).

Definition sc_reduce32 (s : list Z) : list Z := sc_pack (run 64 sc_reduce_12 (sc_load 12 s ++ [0])).

Definition sc_add (a b : list Z) : list Z :=
  let a := sc_load 12 a in let b := sc_load 12 b in
  sc_pack (run 64 sc_reduce_12 (map (fun i => i64 (ld a i + ld b i)) (seq 0 12) ++ [0])).

Definition sc_sub (a b : list Z) : list Z :=
  let a := sc_load 12 a in let b := sc_load 12 b in
  sc_pack (run 64 sc_reduce_12 (map (fun i => i64 (ld a i - ld b i)) (seq 0 12) ++ [0])).

(** The factors of the products in [s_k]: a_i b_(k-i) for the limbs there are. *)
Definition column (a b : list Z) (k : nat) : list (Z * Z) :=
  map (fun i => (ld a i, ld b (k - i))) (seq (k - 11) (S (Nat.min k 11) - (k - 11))).

(** [c] plus the products, in 64 bits. *)
Definition dot_add (c : Z) (l : list (Z * Z)) : Z := fold_left (fun h '(a, b) => i64 (h + i64 (a * b))) l c.

Definition sc_mul (a b : list Z) : list Z :=
  let a := sc_load 12 a in let b := sc_load 12 b in
  sc_pack (run 64 (sc_carries_24 ++ sc_reduce_24) (map (fun k => dot (column a b k)) (seq 0 23) ++ [0])).

Definition sc_muladd (a b c : list Z) : list Z :=
  let a := sc_load 12 a in let b := sc_load 12 b in let c := sc_load 12 c in
  sc_pack (run 64 (sc_carries_24 ++ sc_reduce_24)
    (map (fun k => dot_add (ld c k) (column a b k)) (seq 0 12) ++ map (fun k => dot (column a b k)) (seq 12 11) ++ [0])).

Definition sc_mulsub (a b c : list Z) : list Z :=
  let a := sc_load 12 a in let b := sc_load 12 b in let c := sc_load 12 c in
  sc_pack (run 64 (sc_carries_24 ++ sc_reduce_24)
    (map (fun k => i64 (ld c k - dot (column a b k))) (seq 0 12) ++
     map (fun k => i64 (- dot (column a b k))) (seq 12 10) ++ [i64 (i64 (- ld a 11) * ld b 11); 0])).

Definition signum (a : Z) : Z := i64 (Z.shiftr a 63 - Z.shiftr (i64 (- a)) 63).

(** 0 for the representation of a scalar below the order. *)
Definition sc_check (s : list Z) : Z :=
  let s0 := load_4 s in let s1 := load_4 (drop 4 s) in let s2 := load_4 (drop 8 s) in let s3 := load_4 (drop 12 s) in
  let s4 := load_4 (drop 16 s) in let s5 := load_4 (drop 20 s) in let s6 := load_4 (drop 24 s) in
  let s7 := load_4 (drop 28 s) in
  Z.shiftr (signum (1559614444 - s0) + Z.shiftl (signum (1477600026 - s1)) 1 + Z.shiftl (signum (2734136534 - s2)) 2 +
    Z.shiftl (signum (350157278 - s3)) 3 + Z.shiftl (signum (- s4)) 4 + Z.shiftl (signum (- s5)) 5 +
    Z.shiftl (signum (- s6)) 6 + Z.shiftl (signum (268435456 - s7)) 7) 8.

Definition sc_isnonzero (s : list Z) : Z := Z.shiftr (fold_left Z.lor (take 32 s) 0 - 1) 8 + 1.

Definition sc_sqmul (s : list Z) (n : nat) (a : list Z) : list Z :=
  sc_mul (Nat.iter n (fun s => sc_mul s s) s) a.

Definition sc_invert (s : list Z) : list Z :=
  let _10 := sc_mul s s in
  let _11 := sc_mul s _10 in
  let _100 := sc_mul s _11 in
  let _1000 := sc_mul _100 _100 in
  let _1010 := sc_mul _10 _1000 in
  let _1011 := sc_mul s _1010 in
  let _10000 := sc_mul _1000 _1000 in
  let _10110 := sc_mul _1011 _1011 in
  let _100000 := sc_mul _1010 _10110 in
  let _100110 := sc_mul _10000 _10110 in
  let _1000000 := sc_mul _100000 _100000 in
  let _1010000 := sc_mul _10000 _1000000 in
  let _1010011 := sc_mul _11 _1010000 in
  let _1100011 := sc_mul _10000 _1010011 in
  let _1100111 := sc_mul _100 _1100011 in
  let _1101011 := sc_mul _100 _1100111 in
  let _10010011 := sc_mul _1000000 _1010011 in
  let _10010111 := sc_mul _100 _10010011 in
  let _10111101 := sc_mul _100110 _10010111 in
  let _11010011 := sc_mul _10110 _10111101 in
  let _11100111 := sc_mul _1010000 _10010111 in
  let _11101011 := sc_mul _100 _11100111 in
  let _11110101 := sc_mul _1010 _11101011 in
  let recip := sc_mul _1011 _11110101 in
  let recip := sc_sqmul recip 126 _1010011 in
  let recip := sc_sqmul recip 9 _10 in
  let recip := sc_mul recip _11110101 in
  let recip := sc_sqmul recip 7 _1100111 in
  let recip := sc_sqmul recip 9 _11110101 in
  let recip := sc_sqmul recip 11 _10111101 in
  let recip := sc_sqmul recip 8 _11100111 in
  let recip := sc_sqmul recip 9 _1101011 in
  let recip := sc_sqmul recip 6 _1011 in
  let recip := sc_sqmul recip 14 _10010011 in
  let recip := sc_sqmul recip 10 _1100011 in
  let recip := sc_sqmul recip 9 _10010111 in
  let recip := sc_sqmul recip 10 _11110101 in
  let recip := sc_sqmul recip 8 _11010011 in
  sc_sqmul recip 8 _11101011.

(** ** Limbs are digits *)

Definition sc_weights : list Z := map (fun i => 2 ^ (21 * Z.of_nat i)) (seq 0 24).

(** The [n] lowest digits of [x] and what is above them. *)
Definition digits (n : nat) (x : Z) : list Z :=
  map (fun i => x / 2 ^ (21 * Z.of_nat i) mod 2 ^ 21) (seq 0 n) ++ [x / 2 ^ (21 * Z.of_nat n)].

Lemma drop_combine s n : bytes_ok s -> (n <= List.length s)%nat ->
  le_combine (drop n s) = le_combine s / 2 ^ (8 * Z.of_nat n).
Proof.
  intros Hs Hn. rewrite <- (take_drop n s) at 2. rewrite le_combine_app, length_take_le by done.
  pose proof (le_combine_range (take n s) (Forall_take _ n s Hs)) as H. rewrite length_take_le in H by done.
  rewrite Z.pow_mul_r by lia. change (2 ^ 8) with 256. rewrite Z.mul_comm, Z.div_add by lia. by rewrite Z.div_small.
Qed.

Lemma load_3_drop s n : bytes_ok s -> (n + 3 <= List.length s)%nat ->
  load_3 (drop n s) = le_combine s / 2 ^ (8 * Z.of_nat n) mod 2 ^ 24.
Proof.
  intros Hs Hn. rewrite <- drop_combine by (done || lia). pose proof (Forall_drop _ n s Hs) as Hd.
  assert (Hl : (3 <= List.length (drop n s))%nat) by (rewrite length_drop; lia). revert Hd Hl. generalize (drop n s). clear.
  intros l Hd Hl. do 3 (destruct l as [|? l]; [cbn in Hl; lia|apply Forall_cons in Hd as [? Hd]]).
  rewrite load_3_bytes by done. cbn [le_combine]. unfold in_u in *. apply Z.mod_unique with (le_combine l); lia.
Qed.

Lemma load_4_drop s n : bytes_ok s -> (n + 4 <= List.length s)%nat ->
  load_4 (drop n s) = le_combine s / 2 ^ (8 * Z.of_nat n) mod 2 ^ 32.
Proof.
  intros Hs Hn. rewrite <- drop_combine by (done || lia). pose proof (Forall_drop _ n s Hs) as Hd.
  assert (Hl : (4 <= List.length (drop n s))%nat) by (rewrite length_drop; lia). revert Hd Hl. generalize (drop n s). clear.
  intros l Hd Hl. do 4 (destruct l as [|? l]; [cbn in Hl; lia|apply Forall_cons in Hd as [? Hd]]).
  rewrite load_4_bytes by done. cbn [le_combine]. unfold in_u in *. apply Z.mod_unique with (le_combine l); lia.
Qed.

(** One limb: [k] bits of a load of [m] bits dropped, 21 kept. *)
Lemma limb_digit x a m k i : 0 <= a -> 0 <= k -> k + 21 <= m -> a + k = i ->
  Z.land 2097151 (Z.shiftr (x / 2 ^ a mod 2 ^ m) k) = x / 2 ^ i mod 2 ^ 21.
Proof.
  intros Ha Hk Hm <-. rewrite Z.land_comm. change 2097151 with (2 ^ 21 - 1). rewrite land_ones_mod by lia.
  apply Z.bits_inj'. intros j Hj. destruct (decide (j < 21)).
  - rewrite !Z.mod_pow2_bits_low, Z.shiftr_spec, Z.mod_pow2_bits_low, <- !Z.shiftr_div_pow2, !Z.shiftr_spec by lia. f_equal. lia.
  - by rewrite !Z.mod_pow2_bits_high by lia.
Qed.

(** The last limb. *)
Lemma limb_top x a m k i : 0 <= a -> 0 <= k <= m -> a + k = i -> 0 <= x < 2 ^ (a + m) ->
  Z.shiftr (x / 2 ^ a mod 2 ^ m) k = x / 2 ^ i.
Proof.
  intros Ha Hk <- Hx. rewrite Z.mod_small, Z.shiftr_div_pow2, Z.div_div, Z.pow_add_r by
    (first [lia|split; [apply Z.div_pos; lia|apply Z.div_lt_upper_bound; [lia|rewrite <- Z.pow_add_r; lia]]]). done.
Qed.

(** [loads_tac] reads the limbs off the loads. *)
Ltac load_tac Hx :=
  rewrite ?load_3_drop, ?load_4_drop by (done || lia);
  first [ apply limb_digit; [lia..|reflexivity]
        | rewrite <- (Z.shiftr_0_r (_ mod _)); apply limb_digit; [lia..|reflexivity]
        | apply limb_top; [lia|lia|reflexivity|exact Hx] ].

Lemma sc_load_12 s : bytes_ok s -> List.length s = 32%nat -> sc_load 12 s = digits 11 (le_combine s).
Proof.
  intros Hs Hl. pose proof (le_combine_range s Hs) as Hx. rewrite Hl in Hx. change (256 ^ Z.of_nat 32) with (2 ^ (224 + 32)) in Hx.
  unfold sc_load, digits, limb_loads. cbn [Nat.sub take drop map app seq]. rewrite <- (drop_0 s) at 1.
  repeat f_equal; load_tac Hx.
Qed.

Lemma sc_load_24 s : bytes_ok s -> List.length s = 64%nat -> sc_load 24 s = digits 23 (le_combine s).
Proof.
  intros Hs Hl. pose proof (le_combine_range s Hs) as Hx. rewrite Hl in Hx. change (256 ^ Z.of_nat 64) with (2 ^ (480 + 32)) in Hx.
  unfold sc_load, digits, limb_loads. cbn [Nat.sub take drop map app seq]. rewrite <- (drop_0 s) at 1.
  repeat f_equal; load_tac Hx.
Qed.

Lemma val_digits n k x : 0 <= x ->
  val (map (fun i => 2 ^ (21 * Z.of_nat i)) (seq n (S k)))
      (map (fun i => x / 2 ^ (21 * Z.of_nat i) mod 2 ^ 21) (seq n k) ++ [x / 2 ^ (21 * Z.of_nat (n + k))]) =
  2 ^ (21 * Z.of_nat n) * (x / 2 ^ (21 * Z.of_nat n)).
Proof.
  intros Hx. revert n. induction k as [|k IH]; intros n.
  { cbn [seq map app val]. rewrite Nat.add_0_r. lia. }
  change (seq n (S (S k))) with (n :: seq (S n) (S k)). change (seq n (S k)) with (n :: seq (S n) k). cbn [map app val].
  replace (n + S k)%nat with (S n + k)%nat by lia. rewrite IH.
  replace (21 * Z.of_nat (S n)) with (21 * Z.of_nat n + 21) by lia.
  rewrite !Z.pow_add_r, <- Z.div_div by lia. set (y := x / 2 ^ (21 * Z.of_nat n)).
  pose proof (Z.div_mod y (2 ^ 21) ltac:(lia)). rewrite <- Z.mul_assoc, <- Z.mul_add_distr_l. f_equal. lia.
Qed.

Lemma val_digits_11 x : 0 <= x -> val (take 12 sc_weights) (digits 11 x) = x.
Proof. intros Hx. pose proof (val_digits 0 11 x Hx) as H. rewrite Z.div_1_r, Z.mul_1_l in H. exact H. Qed.

Lemma val_digits_23 x : 0 <= x -> val (take 24 sc_weights) (digits 23 x) = x.
Proof. intros Hx. pose proof (val_digits 0 23 x Hx) as H. rewrite Z.div_1_r, Z.mul_1_l in H. exact H. Qed.

Lemma val_snoc_zero ws s : val ws (s ++ [0]) = val ws s.
Proof.
  revert s. induction ws as [|w ws IH]; intros s; [by destruct s|]. destruct s as [|x s]; cbn [app val]; [|by rewrite IH].
  destruct ws; cbn [val]; lia.
Qed.

(** The digits of a string of 32 bytes, the last one with the bits 231 to 255. *)
Definition digits_itv (n : nat) (top : Z) : list itv := replicate n (0, 2 ^ 21 - 1) ++ [(0, 2 ^ top - 1)].

Lemma digits_within n top x : 0 <= top -> 0 <= x < 2 ^ (21 * Z.of_nat n + top) -> within (digits n x) (digits_itv n top).
Proof.
  intros Ht Hx. unfold within, digits, digits_itv. apply Forall2_app.
  - clear. generalize 0%nat. induction n as [|n IH]; intros m; [constructor|]. cbn [seq map replicate]. constructor; [|apply IH].
    unfold inb. cbn [fst snd]. pose proof (Z.mod_pos_bound (x / 2 ^ (21 * Z.of_nat m)) (2 ^ 21)). lia.
  - constructor; [|constructor]. unfold inb. cbn [fst snd]. rewrite Z.pow_add_r in Hx by lia.
    assert (x / 2 ^ (21 * Z.of_nat n) < 2 ^ top) by (apply Z.div_lt_upper_bound; lia).
    pose proof (Z.div_pos x (2 ^ (21 * Z.of_nat n))). lia.
Qed.

(** ** The final chains *)

(** The interval of the value of limbs in intervals. *)
Lemma val_within ws s B : Forall (fun w => 0 <= w) ws -> within s B ->
  inb (val ws s) (val ws (map fst B), val ws (map snd B)).
Proof.
  unfold within, inb. cbn [fst snd]. intros Hw H. revert s B H. induction Hw as [|w ws Hw _ IH]; intros s B H; [destruct H; done|].
  destruct H as [|x b s B Hx H]; [done|]. cbn [val map]. pose proof (IH _ _ H). nia.
Qed.

Lemma val_equal M x y b : x mod M = y mod M -> - M < b -> inb x (b, b + M - 1) -> inb y (b, b + M - 1) -> 0 < M -> x = y.
Proof.
  unfold inb. cbn [fst snd]. intros H _ Hx Hy HM.
  assert (E : (x - b) mod M = (y - b) mod M) by by rewrite Zminus_mod, H, <- Zminus_mod.
  rewrite !Z.mod_small in E by lia. lia.
Qed.

(** The limbs before the final chains. *)
Definition finish_bound (k : nat) : list itv :=
  replicate 11 (- 2 ^ 38, 2 ^ 38) ++ [(- 2 ^ 20, 2 ^ 20); (- 2 ^ 42, 2 ^ 42)] ++ replicate k (- 2 ^ 62, 2 ^ 62).

Definition floors_1 : list limb_op := map sc_floor (seq 0 12).
Definition floors_2 : list limb_op := map sc_floor (seq 0 11).

Lemma sc_finish_split s : run 64 sc_finish s =
  run 64 floors_2 (run 64 [sc_fold 12] (run 64 floors_1 (run 64 [sc_fold 12; Clear 12] s))).
Proof. unfold run, sc_finish. by rewrite !fold_left_app. Qed.

(** The intervals after a program. *)
Definition bounds_after (ops : list limb_op) (B : list itv) : list itv := default [] (analyze 64 ops B).

Definition analyzes (ops : list limb_op) (B : list itv) : bool :=
  match analyze 64 ops B with Some _ => true | None => false end.

Lemma run_bounds ops s B : within s B -> analyzes ops B = true ->
  run 64 ops s = fold_left pure_exec ops s /\ within (run 64 ops s) (bounds_after ops B).
Proof.
  intros Hs E. unfold bounds_after, analyzes in *. destruct (analyze 64 ops B) as [B'|] eqn:EB; [|done].
  by apply run_sound with B.
Qed.

(** A chain of floors keeps the value of the [n] limbs it touches exactly. *)
Lemma floors_value ops n s B : within s B -> analyzes ops B = true ->
  (n <= 13)%nat -> (13 <= List.length B)%nat -> value_steps (2 ^ 400) (take 13 sc_weights) n ops = Some n ->
  inb (val (take n sc_weights) s) (- 2 ^ 399, - 2 ^ 399 + 2 ^ 400 - 1) ->
  inb (val (take n sc_weights) (run 64 ops s)) (- 2 ^ 399, - 2 ^ 399 + 2 ^ 400 - 1) ->
  val (take n sc_weights) (run 64 ops s) = val (take n sc_weights) s.
Proof.
  intros Hs Ha Hn HB Hv H1 H2. apply (val_equal (2 ^ 400) _ _ (- 2 ^ 399)); [|done..].
  destruct (run_bounds ops s B Hs Ha) as [-> _]. pose proof (within_length _ _ Hs) as Hl.
  assert (E : take n sc_weights = take n (take 13 sc_weights)) by by rewrite take_take, Nat.min_l.
  rewrite E. apply (value_steps_sound (2 ^ 400) (take 13 sc_weights) n ops n); [done| | |done].
  - exact Hn.
  - change (List.length (take 13 sc_weights)) with 13%nat. lia.
Qed.

Lemma inb_subset x a b : inb x a -> fst b <= fst a -> snd a <= snd b -> inb x b.
Proof. unfold inb. lia. Qed.

Lemma weights_pos n : Forall (fun w => 0 <= w) (take n sc_weights).
Proof. apply Forall_take. unfold sc_weights. apply Forall_fmap, Forall_true. intros i. cbn. lia. Qed.

(** [value_in] bounds the value of limbs by their intervals. *)
Ltac value_in n Hw :=
  eapply inb_subset; [exact (val_within (take n sc_weights) _ _ (weights_pos n) Hw)|vm_compute; discriminate..].

(** [computes H] evaluates a check for both numbers of limbs. *)
Ltac computes H := destruct H as [-> | ->]; vm_compute; reflexivity.

(** Folding limb 12 subtracts the low part of the order. *)
Lemma fold_12_value s B : within s B -> analyzes [sc_fold 12] B = true -> (13 <= List.length B)%nat ->
  val (take 12 sc_weights) (run 64 [sc_fold 12] s) = val (take 12 sc_weights) s - ld s 12 * (l25519 - 2 ^ 252).
Proof.
  intros Hs Ha HB. destruct (run_bounds _ _ _ Hs Ha) as [-> _]. pose proof (within_length _ _ Hs) as Hl.
  change (fold_left pure_exec [sc_fold 12] s) with (fold_left (pure_fold_line 12)
    [(0%nat, 666643); (1%nat, 470296); (2%nat, 654183); (3%nat, -997805); (4%nat, 136657); (5%nat, -683901)] s).
  match goal with |- context [fold_left _ ?ts s] =>
    destruct (pure_folds_value (take 12 sc_weights) s 12 ts) as [-> _]; [lia|repeat constructor; cbn [fst]; lia|] end.
  match goal with |- context [fold_weight ?w ?t] => let v := eval vm_compute in (fold_weight w t) in
    replace (fold_weight w t) with v by (vm_compute; reflexivity) end.
  unfold l25519. lia.
Qed.

Lemma finish_canonical k s : k = 0%nat \/ k = 11%nat -> within s (finish_bound k) ->
  within (run 64 sc_finish s) (bounds_after sc_finish (finish_bound k)) /\
  0 <= val (take 12 sc_weights) (run 64 sc_finish s) < l25519.
Proof.
  intros Hk Hs. split; [apply run_bounds; [done|]; computes Hk|]. rewrite sc_finish_split.
  assert (A1 : analyzes [sc_fold 12; Clear 12] (finish_bound k) = true) by computes Hk.
  destruct (run_bounds _ _ _ Hs A1) as [_ W1]. set (s1 := run 64 [sc_fold 12; Clear 12] s) in *. clearbody s1. clear Hs A1.
  set (B1 := bounds_after _ _) in *.
  assert (A2 : analyzes floors_1 B1 = true) by computes Hk.
  destruct (run_bounds _ _ _ W1 A2) as [_ W2]. set (B2 := bounds_after floors_1 B1) in *.
  assert (V1 : inb (val (take 13 sc_weights) s1) (- (3 * 2 ^ 250), 3 * 2 ^ 250)) by (destruct Hk as [-> | ->]; value_in 13%nat W1).
  assert (V2 : inb (val (take 12 sc_weights) (run 64 floors_1 s1)) (0, 2 ^ 252 - 1)) by (destruct Hk as [-> | ->]; value_in 12%nat W2).
  assert (T : inb (ld (run 64 floors_1 s1) 12) (-1, 0)).
  { eapply inb_subset; [apply (within_ld _ _ 12 W2)|..]; destruct Hk as [-> | ->]; vm_compute; first [lia|discriminate]. }
  assert (E1 : val (take 13 sc_weights) (run 64 floors_1 s1) = val (take 13 sc_weights) s1).
  { apply (floors_value floors_1 13 s1 B1); [exact W1|exact A2|lia|..].
    - destruct Hk as [-> | ->]; vm_compute; lia.
    - vm_compute; reflexivity.
    - eapply inb_subset; [exact V1|..]; vm_compute; discriminate.
    - destruct Hk as [-> | ->]; value_in 13%nat W2. }
  rewrite (val_take_S sc_weights _ 12) in E1.
  2: change (List.length sc_weights) with 24%nat; lia.
  2: rewrite (within_length _ _ W2); destruct Hk as [-> | ->]; vm_compute; lia.
  change (ld sc_weights 12) with (2 ^ 252) in E1.
  set (s2 := run 64 floors_1 s1) in *. clearbody s2.
  assert (A3 : analyzes [sc_fold 12] B2 = true) by computes Hk.
  pose proof (fold_12_value s2 B2 W2 A3 ltac:(destruct Hk as [-> | ->]; vm_compute; lia)) as E2.
  destruct (run_bounds _ _ _ W2 A3) as [_ W3]. set (s3 := run 64 [sc_fold 12] s2) in *. clearbody s3.
  set (B3 := bounds_after [sc_fold 12] B2) in *.
  assert (A4 : analyzes floors_2 B3 = true) by computes Hk.
  destruct (run_bounds _ _ _ W3 A4) as [_ W4].
  rewrite (floors_value floors_2 12 s3 B3).
  - unfold inb, l25519 in *. cbn [fst snd] in *. lia.
  - exact W3.
  - exact A4.
  - lia.
  - destruct Hk as [-> | ->]; vm_compute; lia.
  - vm_compute; reflexivity.
  - destruct Hk as [-> | ->]; value_in 12%nat W3.
  - destruct Hk as [-> | ->]; value_in 12%nat W4.
Qed.

(** The packing writes the value of reduced limbs. *)
Definition packed_bound : list itv := replicate 11 (0, 2 ^ 21 - 1).

Lemma sc_pack_spec r : (12 <= List.length r)%nat -> within (take 11 r) packed_bound ->
  sc_pack r = le_split 32 (val (take 12 sc_weights) r).
Proof.
  intros Hl Hb. do 12 (destruct r as [|? r]; [cbn in Hl; lia|]). clear Hl. cbn [take] in Hb. unfold within, packed_bound in Hb. cbn [replicate] in Hb.
  repeat (apply Forall2_cons in Hb as [? Hb]). unfold inb in *. cbn [fst snd] in *.
  unfold sc_pack. cbn [ld List.nth]. cbv zeta. symmetry. apply le_split_ext; [done|]. intros j Hj.
  match goal with |- context [val _ (?l0 :: ?l1 :: ?l2 :: ?l3 :: ?l4 :: ?l5 :: ?l6 :: ?l7 :: ?l8 :: ?l9 :: ?l10 :: ?l11 :: ?l)] =>
    replace (val (take 12 sc_weights) (l0 :: l1 :: l2 :: l3 :: l4 :: l5 :: l6 :: l7 :: l8 :: l9 :: l10 :: l11 :: l)) with
      (l0 + 2 ^ 21 * (l1 + 2 ^ 21 * (l2 + 2 ^ 21 * (l3 + 2 ^ 21 * (l4 + 2 ^ 21 * (l5 + 2 ^ 21 *
      (l6 + 2 ^ 21 * (l7 + 2 ^ 21 * (l8 + 2 ^ 21 * (l9 + 2 ^ 21 * (l10 + 2 ^ 21 * (l11 + 2 ^ 25 * 0))))))))))))
      by (unfold sc_weights; cbn [seq map take val]; lia)
  end.
  do 32 (destruct j as [|j]; [cbn [map lookup list_lookup]; f_equal; symmetry;
    match goal with |- context [8 * Z.of_nat ?k] => let v := eval vm_compute in (8 * Z.of_nat k) in change (8 * Z.of_nat k) with v end;
    byte_tac|]). lia.
Qed.

(** A program that ends with the final chains, checked: no overflow before
    them, limbs small enough for them, the value of the [n] limbs kept modulo
    the order. *)
Definition reduces (ops : list limb_op) (n k : nat) (B : list itv) : bool :=
  analyzes ops B && subset (bounds_after ops B) (finish_bound k) &&
  match value_steps l25519 (take n sc_weights) n (ops ++ sc_finish) with Some m => (m =? 12)%nat | None => false end.

Lemma finish_packed k : k = 0%nat \/ k = 11%nat ->
  subset (take 11 (bounds_after sc_finish (finish_bound k))) packed_bound = true.
Proof. intros Hk. computes Hk. Qed.

Lemma reduction ops k n s B : k = 0%nat \/ k = 11%nat -> n = (13 + k)%nat -> within s B -> List.length B = n ->
  reduces ops n k B = true ->
  sc_pack (run 64 (ops ++ sc_finish) s) = le_split 32 (val (take n sc_weights) s mod l25519).
Proof.
  intros Hk Hn Hs HB H. unfold reduces in H. rewrite !andb_true_iff in H. destruct H as [[Ha Hsub] Hv].
  destruct (value_steps _ _ _ _) as [m|] eqn:Ev; [|done]. apply Nat.eqb_eq in Hv as ->.
  destruct (run_bounds _ _ _ Hs Ha) as [Ep Hw]. pose proof (within_subset _ _ _ Hw Hsub) as Hf.
  destruct (finish_canonical k _ Hk Hf) as [Hb Hc].
  assert (Er : run 64 (ops ++ sc_finish) s = run 64 sc_finish (run 64 ops s)) by (unfold run; by rewrite fold_left_app).
  assert (A : analyzes sc_finish (finish_bound k) = true) by computes Hk.
  destruct (run_bounds _ _ _ Hf A) as [Eq _].
  assert (Hlen : List.length (take n sc_weights) = n) by (rewrite length_take; change (List.length sc_weights) with 24%nat; lia).
  pose proof (value_steps_sound l25519 (take n sc_weights) n (ops ++ sc_finish) 12 s ltac:(done)
    ltac:(lia) ltac:(rewrite (within_length _ _ Hs); lia) Ev) as E.
  rewrite !take_take, Nat.min_id, Nat.min_l, fold_left_app, <- Ep, <- Eq, (Z.mod_small _ _ Hc) in E by lia.
  rewrite Er, sc_pack_spec, E; [done|..].
  - rewrite (within_length _ _ Hb). destruct Hk as [-> | ->]; vm_compute; lia.
  - apply within_subset with (take 11 (bounds_after sc_finish (finish_bound k))); [|by apply finish_packed].
    by apply Forall2_take.
Qed.

(** ** Products *)

Lemma dot_add_from l acc m n : Forall (fun e => Z.abs (fst e) < 2 ^ 25 /\ Z.abs (snd e) < 2 ^ 25) l ->
  Z.abs acc <= m * 2 ^ 50 -> 0 <= m -> m + Z.of_nat (List.length l) <= n -> n <= 13 ->
  dot_add acc l = acc + psum l /\ Z.abs (acc + psum l) <= n * 2 ^ 50.
Proof.
  unfold dot_add. intros Hl. revert acc m. induction Hl as [|[a b] l [Ha Hb] _ IH]; intros acc m Hacc Hm Hlen Hn.
  { cbn [fold_left psum fold_right List.length] in *. nia. }
  cbn [fold_left psum fold_right fst snd] in *. cbn [List.length] in Hlen.
  assert (Hp : Z.abs (a * b) <= 2 ^ 50) by (rewrite Z.abs_mul; change (2 ^ 50) with (2 ^ 25 * 2 ^ 25); apply Z.mul_le_mono_nonneg; lia).
  rewrite (swrap_small 64 (a * b)) by (first [lia|split; lia]).
  rewrite (swrap_small 64 (acc + a * b)) by (first [lia|split; lia]).
  destruct (IH (acc + a * b) (m + 1)) as [-> ?]; [lia..|]. fold (psum l). split; [lia|].
  replace (acc + (a * b + psum l)) with (acc + a * b + psum l) by lia. done.
Qed.

Definition small_limbs (a : list Z) : Prop := List.length a = 12%nat /\ Forall (fun x => Z.abs x < 2 ^ 25) a.

Lemma small_ld a i : small_limbs a -> Z.abs (ld a i) < 2 ^ 25.
Proof.
  intros [_ H]. unfold ld. destruct (decide (i < List.length a)%nat).
  - eapply Forall_forall in H; [exact H|]. apply list_elem_of_In, nth_In. done.
  - by rewrite nth_overflow by lia.
Qed.

Lemma column_small a b k : small_limbs a -> small_limbs b ->
  Forall (fun e => Z.abs (fst e) < 2 ^ 25 /\ Z.abs (snd e) < 2 ^ 25) (column a b k) /\ (List.length (column a b k) <= 12)%nat.
Proof.
  intros Ha Hb. unfold column. split; [|rewrite length_map, length_seq; lia].
  apply Forall_fmap, Forall_true. intros i. cbn. split; by apply small_ld.
Qed.

Lemma column_dot a b k c : small_limbs a -> small_limbs b -> Z.abs c < 2 ^ 25 ->
  dot_add c (column a b k) = c + psum (column a b k) /\ Z.abs (c + psum (column a b k)) <= 13 * 2 ^ 50.
Proof.
  intros Ha Hb Hc. destruct (column_small a b k Ha Hb) as [Hs Hl]. apply (dot_add_from _ _ 1 13 Hs); lia.
Qed.

Lemma column_dot_0 a b k : small_limbs a -> small_limbs b ->
  dot (column a b k) = psum (column a b k) /\ Z.abs (psum (column a b k)) <= 12 * 2 ^ 50.
Proof.
  intros Ha Hb. destruct (column_small a b k Ha Hb) as [Hs Hl]. apply (dot_add_from _ 0 0 12 Hs); lia.
Qed.

Lemma map_within (f : nat -> Z) i n b : (forall k, inb (f k) b) -> within (map f (seq i n)) (replicate n b).
Proof. intros H. revert i. induction n as [|n IH]; intros i; constructor; [apply H|apply IH]. Qed.

Lemma digits_small x : 0 <= x < 2 ^ 256 -> small_limbs (digits 11 x).
Proof.
  intros Hx. split; [done|]. pose proof (digits_within 11 25 x ltac:(lia) Hx) as H.
  assert (Hb : Forall (fun b => - 2 ^ 25 < fst b /\ snd b < 2 ^ 25) (digits_itv 11 25)).
  { unfold digits_itv. apply Forall_app. split; [|apply Forall_singleton; cbn; lia].
    apply Forall_replicate. cbn. lia. }
  revert Hb. generalize (digits_itv 11 25) H. clear. intros B H Hb. induction H as [|y b s B Hy _ IH]; [constructor|].
  apply Forall_cons in Hb as [? Hb]. constructor; [unfold inb in *; lia|by apply IH].
Qed.

(** The value of the columns. *)
Lemma columns_value a b : List.length a = 12%nat -> List.length b = 12%nat ->
  val (take 24 sc_weights) (map (fun k => psum (column a b k)) (seq 0 23) ++ [0]) =
  val (take 12 sc_weights) a * val (take 12 sc_weights) b.
Proof.
  intros Ha Hb. do 12 (destruct a as [|? a]; [done|]). do 12 (destruct b as [|? b]; [done|]).
  destruct a; [|done]. destruct b; [|done].
  let w := eval vm_compute in (take 24 sc_weights) in change (take 24 sc_weights) with w.
  let w := eval vm_compute in (take 12 sc_weights) in change (take 12 sc_weights) with w.
  cbv [column psum seq map app Nat.sub Nat.min ld List.nth fold_right val fst snd]. ring.
Qed.

(** The sums of the products with the limbs of [c], before the carries. *)
Definition product_sums (sgn : Z) (a b c : list Z) : list Z :=
  map (fun k => ld c k + sgn * psum (column a b k)) (seq 0 23) ++ [0].

Lemma val_map_linear ws (f g : nat -> Z) m l :
  val ws (map (fun k => f k + m * g k) l ++ [0]) = val ws (map f l ++ [0]) + m * val ws (map g l ++ [0]).
Proof.
  revert l. induction ws as [|w ws IH]; intros l; [cbn; lia|]. destruct l as [|k l].
  - cbn [map app val]. destruct ws; cbn [val]; lia.
  - cbn [map app val]. rewrite IH. lia.
Qed.

Lemma product_sums_value sgn a b c : List.length a = 12%nat -> List.length b = 12%nat -> List.length c = 12%nat ->
  val (take 24 sc_weights) (product_sums sgn a b c) =
  val (take 12 sc_weights) c + sgn * (val (take 12 sc_weights) a * val (take 12 sc_weights) b).
Proof.
  intros Ha Hb Hc. unfold product_sums. rewrite val_map_linear, columns_value by done. f_equal.
  do 12 (destruct c as [|? c]; [done|]). destruct c; [|done].
  let w := eval vm_compute in (take 24 sc_weights) in change (take 24 sc_weights) with w.
  let w := eval vm_compute in (take 12 sc_weights) in change (take 12 sc_weights) with w.
  cbv [seq map app ld List.nth val]. lia.
Qed.

Definition product_bound : list itv := replicate 23 (- (13 * 2 ^ 50), 13 * 2 ^ 50) ++ [(0, 0)].

Definition sc_product_24 : list limb_op :=
  sc_carries_24 ++ map sc_fold [23; 22; 21; 20; 19; 18]%nat ++
  map sc_carry [6; 8; 10; 12; 14; 16]%nat ++ map sc_carry [7; 9; 11; 13; 15]%nat ++
  map sc_fold [17; 16; 15; 14; 13; 12]%nat ++ [Clear 12] ++ sc_carries_12.

Lemma product_reduction sgn a b c : sgn = 1 \/ sgn = -1 -> small_limbs a -> small_limbs b -> small_limbs c ->
  sc_pack (run 64 (sc_carries_24 ++ sc_reduce_24) (product_sums sgn a b c)) =
  le_split 32 ((val (take 12 sc_weights) c + sgn * (val (take 12 sc_weights) a * val (take 12 sc_weights) b)) mod l25519).
Proof.
  intros Hs Ha Hb Hc. assert (E : sc_carries_24 ++ sc_reduce_24 = sc_product_24 ++ sc_finish) by (vm_compute; reflexivity).
  rewrite E. rewrite (reduction sc_product_24 11 24 _ product_bound).
  - rewrite product_sums_value; [done|apply Ha|apply Hb|apply Hc].
  - by right.
  - done.
  - apply Forall2_app; [|constructor; [unfold inb; cbn; lia|constructor]].
    apply map_within. intros k. unfold inb. cbn [fst snd].
    pose proof (proj2 (column_dot a b k (ld c k) Ha Hb (small_ld c k Hc))).
    pose proof (proj2 (column_dot_0 a b k Ha Hb)). pose proof (small_ld c k Hc). destruct Hs as [-> | ->]; lia.
  - done.
  - vm_compute. reflexivity.
Qed.

(** ** The operations compute modulo the order *)

Definition scalar (s : list Z) : Prop := bytes_ok s /\ List.length s = 32%nat.

Lemma scalar_range s : scalar s -> 0 <= le_combine s < 2 ^ 256.
Proof. intros [Hs Hl]. pose proof (le_combine_range s Hs) as H. rewrite Hl in H. exact H. Qed.

Lemma scalar_split x : scalar (le_split 32 x).
Proof. split; [apply le_split_bytes_ok|apply length_le_split]. Qed.

Lemma scalar_load s : scalar s -> sc_load 12 s = digits 11 (le_combine s) /\ small_limbs (sc_load 12 s) /\
  val (take 12 sc_weights) (sc_load 12 s) = le_combine s.
Proof.
  intros [Hs Hl]. pose proof (scalar_range s (conj Hs Hl)) as Hr. rewrite sc_load_12 by done.
  split; [done|]. split; [by apply digits_small|apply val_digits_11; lia].
Qed.

Lemma sc_mul_spec a b : scalar a -> scalar b -> sc_mul a b = le_split 32 (le_combine a * le_combine b mod l25519).
Proof.
  intros Ha Hb. destruct (scalar_load a Ha) as (_ & Sa & Va). destruct (scalar_load b Hb) as (_ & Sb & Vb).
  unfold sc_mul. cbv zeta. set (a' := sc_load 12 a) in *. set (b' := sc_load 12 b) in *. clearbody a' b'.
  assert (Sc : small_limbs (replicate 12 0)) by (split; [done|repeat constructor]).
  assert (E : map (fun k => dot (column a' b' k)) (seq 0 23) ++ [0] = product_sums 1 a' b' (replicate 12 0)).
  { unfold product_sums. f_equal. apply map_ext. intros k. rewrite (proj1 (column_dot_0 a' b' k Sa Sb)).
    assert (ld (replicate 12 0) k = 0) as -> by (do 12 (destruct k as [|k]; [done|]); by destruct k). lia. }
  rewrite E, product_reduction by (done || by left). by rewrite Va, Vb, Z.mul_1_l.
Qed.

Lemma map_seq_split (f : nat -> Z) n m : map f (seq 0 (n + m)) = map f (seq 0 n) ++ map f (seq n m).
Proof. by rewrite seq_app, map_app. Qed.

Lemma sc_muladd_spec a b c : scalar a -> scalar b -> scalar c ->
  sc_muladd a b c = le_split 32 ((le_combine a * le_combine b + le_combine c) mod l25519).
Proof.
  intros Ha Hb Hc. destruct (scalar_load a Ha) as (_ & Sa & Va). destruct (scalar_load b Hb) as (_ & Sb & Vb).
  destruct (scalar_load c Hc) as (_ & Sc & Vc).
  unfold sc_muladd. cbv zeta. set (a' := sc_load 12 a) in *. set (b' := sc_load 12 b) in *. set (c' := sc_load 12 c) in *.
  clearbody a' b' c'.
  match goal with |- context [run 64 _ ?l] => assert (E : l = product_sums 1 a' b' c') end.
  { unfold product_sums. rewrite (map_seq_split _ 12 11), <- app_assoc. f_equal; [|f_equal].
    - apply map_ext. intros k. rewrite (proj1 (column_dot a' b' k _ Sa Sb (small_ld c' k Sc))). lia.
    - apply map_ext_in. intros k [Hk _]%in_seq. rewrite (proj1 (column_dot_0 a' b' k Sa Sb)).
      unfold ld at 1. rewrite nth_overflow by (destruct Sc as [-> _]; lia). lia. }
  rewrite E, product_reduction by (done || by left). do 2 f_equal. lia.
Qed.

Lemma sc_mulsub_spec a b c : scalar a -> scalar b -> scalar c ->
  sc_mulsub a b c = le_split 32 ((le_combine c - le_combine a * le_combine b) mod l25519).
Proof.
  intros Ha Hb Hc. destruct (scalar_load a Ha) as (_ & Sa & Va). destruct (scalar_load b Hb) as (_ & Sb & Vb).
  destruct (scalar_load c Hc) as (_ & Sc & Vc).
  unfold sc_mulsub. cbv zeta. set (a' := sc_load 12 a) in *. set (b' := sc_load 12 b) in *. set (c' := sc_load 12 c) in *.
  clearbody a' b' c'.
  assert (Hneg : forall k, i64 (ld c' k - dot (column a' b' k)) = ld c' k + -1 * psum (column a' b' k)).
  { intros k. destruct (column_dot_0 a' b' k Sa Sb) as [-> Hp]. pose proof (small_ld c' k Sc).
    rewrite swrap_small by (first [lia|split; lia]). lia. }
  assert (Hz : forall k, (12 <= k)%nat -> ld c' k = 0).
  { intros k Hk. unfold ld. apply nth_overflow. destruct Sc as [-> _]. done. }
  match goal with |- context [run 64 _ ?l] => assert (E : l = product_sums (-1) a' b' c') end.
  { unfold product_sums. rewrite (map_seq_split _ 12 11), (seq_app 10 1), map_app, <- !app_assoc. f_equal; [|f_equal].
    - apply map_ext. exact Hneg.
    - apply map_ext_in. intros k [Hk _]%in_seq. rewrite <- Hneg, Hz by lia. done.
    - cbn [Nat.add seq map app]. do 2 f_equal. rewrite Hz by lia. unfold column, psum. cbn [Nat.sub Nat.min seq map fold_right fst snd].
      pose proof (small_ld a' 11 Sa). pose proof (small_ld b' 11 Sb). cbn [Nat.sub].
      rewrite (swrap_small 64 (- ld a' 11)) by (first [lia|split; lia]).
      assert (Z.abs (ld a' 11 * ld b' 11) <= 2 ^ 25 * 2 ^ 25) by (rewrite Z.abs_mul; apply Z.mul_le_mono_nonneg; lia).
      rewrite swrap_small by (first [lia|split; lia]). lia. }
  rewrite E, product_reduction by (done || by right). do 2 f_equal. lia.
Qed.

(** Sums of limbs, with the thirteenth limb zero. *)
Definition sum_bound : list itv := replicate 12 (- 2 ^ 26, 2 ^ 26) ++ [(0, 0)].

Lemma sum_reduction s : List.length s = 12%nat -> Forall (fun x => Z.abs x < 2 ^ 26) s ->
  sc_pack (run 64 sc_reduce_12 (s ++ [0])) = le_split 32 (val (take 12 sc_weights) s mod l25519).
Proof.
  intros Hl Hs. unfold sc_reduce_12. rewrite (reduction sc_carries_12 0 13 _ sum_bound).
  - rewrite val_snoc_zero. do 12 (destruct s as [|? s]; [done|]). destruct s; [|done]. reflexivity.
  - by left.
  - done.
  - apply Forall2_app; [|constructor; [unfold inb; cbn; lia|constructor]].
    rewrite <- Hl. clear -Hs. induction Hs; constructor; [unfold inb; cbn [fst snd]; lia|done].
  - done.
  - vm_compute. reflexivity.
Qed.

Lemma sc_reduce32_spec s : scalar s -> sc_reduce32 s = le_split 32 (le_combine s mod l25519).
Proof.
  intros Hs. destruct (scalar_load s Hs) as (_ & [Hl Hf] & V). unfold sc_reduce32. rewrite sum_reduction, V; [done|done|].
  eapply Forall_impl; [exact Hf|]. intros x. cbn. lia.
Qed.

(** Limb by limb, plus or minus. *)
Lemma limbwise_reduction m a b (op : nat -> Z) : m = 1 \/ m = -1 -> small_limbs a -> small_limbs b ->
  (forall k, op k = i64 (ld a k + m * ld b k)) ->
  sc_pack (run 64 sc_reduce_12 (map op (seq 0 12) ++ [0])) =
  le_split 32 ((val (take 12 sc_weights) a + m * val (take 12 sc_weights) b) mod l25519).
Proof.
  intros Hm Sa Sb Hop.
  assert (Hs : forall k, op k = ld a k + m * ld b k /\ Z.abs (op k) < 2 ^ 26).
  { intros k. rewrite Hop. pose proof (small_ld a k Sa). pose proof (small_ld b k Sb).
    destruct Hm as [-> | ->]; (rewrite swrap_small by (first [lia|split; lia]); lia). }
  rewrite sum_reduction; [|done|apply Forall_fmap, Forall_true; intros k; apply Hs]. do 2 f_equal.
  rewrite (map_ext op (fun k => ld a k + m * ld b k)) by (intros k; apply Hs).
  destruct Sa as [Ha _], Sb as [Hb _]. clear Hs Hop op.
  do 12 (destruct a as [|? a]; [done|]). do 12 (destruct b as [|? b]; [done|]). destruct a; [|done]. destruct b; [|done].
  let w := eval vm_compute in (take 12 sc_weights) in change (take 12 sc_weights) with w.
  cbv [seq map ld List.nth val]. ring.
Qed.

Lemma sc_add_spec a b : scalar a -> scalar b -> sc_add a b = le_split 32 ((le_combine a + le_combine b) mod l25519).
Proof.
  intros Ha Hb. destruct (scalar_load a Ha) as (_ & Sa & Va). destruct (scalar_load b Hb) as (_ & Sb & Vb).
  unfold sc_add. cbv zeta. rewrite (limbwise_reduction 1 _ _ _ ltac:(by left) Sa Sb), Va, Vb.
  - by rewrite Z.mul_1_l.
  - intros k. by rewrite Z.mul_1_l.
Qed.

Lemma sc_sub_spec a b : scalar a -> scalar b -> sc_sub a b = le_split 32 ((le_combine a - le_combine b) mod l25519).
Proof.
  intros Ha Hb. destruct (scalar_load a Ha) as (_ & Sa & Va). destruct (scalar_load b Hb) as (_ & Sb & Vb).
  unfold sc_sub. cbv zeta. rewrite (limbwise_reduction (-1) _ _ _ ltac:(by right) Sa Sb), Va, Vb.
  - by replace (le_combine a + -1 * le_combine b) with (le_combine a - le_combine b) by lia.
  - intros k. by replace (ld (sc_load 12 a) k + -1 * ld (sc_load 12 b) k) with (ld (sc_load 12 a) k - ld (sc_load 12 b) k) by lia.
Qed.

(** 64 bytes. *)
Definition wide_bound : list itv := digits_itv 23 29.
Definition sc_wide_24 : list limb_op :=
  map sc_fold [23; 22; 21; 20; 19; 18]%nat ++
  map sc_carry [6; 8; 10; 12; 14; 16]%nat ++ map sc_carry [7; 9; 11; 13; 15]%nat ++
  map sc_fold [17; 16; 15; 14; 13; 12]%nat ++ [Clear 12] ++ sc_carries_12.

Lemma sc_reduce_spec s : bytes_ok s -> List.length s = 64%nat -> sc_reduce s = le_split 32 (le_combine s mod l25519).
Proof.
  intros Hs Hl. unfold sc_reduce. rewrite sc_load_24 by done. pose proof (le_combine_range s Hs) as Hr. rewrite Hl in Hr.
  change (256 ^ Z.of_nat 64) with (2 ^ (21 * Z.of_nat 23 + 29)) in Hr.
  assert (E : sc_reduce_24 = sc_wide_24 ++ sc_finish) by (vm_compute; reflexivity).
  rewrite E, (reduction sc_wide_24 11 24 _ wide_bound).
  - rewrite val_digits_23 by lia. done.
  - by right.
  - done.
  - by apply digits_within.
  - done.
  - vm_compute. reflexivity.
Qed.

(** ** Inversion *)

Lemma scalar_combine_split x : le_combine (le_split 32 (x mod l25519)) = x mod l25519.
Proof.
  rewrite le_combine_split, Z.mod_small; [done|]. pose proof (Z.mod_pos_bound x l25519 ltac:(done)).
  unfold l25519 in *. change (256 ^ Z.of_nat 32) with (2 ^ 256). lia.
Qed.

(** [sc_pow z e s]: [s] holds the power [e] of [z]. *)
Definition sc_pow (z e : Z) (s : list Z) : Prop := scalar s /\ 0 <= e /\ le_combine s mod l25519 = z ^ e mod l25519.

Lemma sc_pow_mul z m n a b : sc_pow z m a -> sc_pow z n b -> sc_pow z (m + n) (sc_mul a b).
Proof.
  intros (Ha & Hm & Ea) (Hb & Hn & Eb). rewrite sc_mul_spec by done. split; [apply scalar_split|]. split; [lia|].
  rewrite scalar_combine_split, Z.mod_mod, Z.pow_add_r, Z.mul_mod, Ea, Eb, <- Z.mul_mod by done. done.
Qed.

Lemma sc_pow_sqmul z m n k a b : sc_pow z m a -> sc_pow z n b -> sc_pow z (2 ^ Z.of_nat k * m + n) (sc_sqmul a k b).
Proof.
  intros Ha Hb. apply sc_pow_mul; [|done]. induction k as [|k IH]; [by rewrite Z.mul_1_l|].
  cbn [Nat.iter nat_rect]. rewrite Nat2Z.inj_succ, Z.pow_succ_r by lia.
  replace (2 * 2 ^ Z.of_nat k * m) with (2 ^ Z.of_nat k * m + 2 ^ Z.of_nat k * m) by lia. by apply sc_pow_mul.
Qed.

Lemma sc_sqmul_reduced z m n k a b e : sc_pow z m a -> sc_pow z n b -> 2 ^ Z.of_nat k * m + n = e ->
  sc_sqmul a k b = le_split 32 (z ^ e mod l25519).
Proof.
  intros Ha Hb He. pose proof (sc_pow_sqmul z m n k a b Ha Hb) as (_ & _ & E). rewrite He in E. rewrite <- E.
  assert (Hi : scalar (Nat.iter k (fun s => sc_mul s s) a)).
  { clear -Ha. induction k as [|k IH]; [apply Ha|]. cbn [Nat.iter nat_rect]. rewrite sc_mul_spec by exact IH. apply scalar_split. }
  unfold sc_sqmul. rewrite sc_mul_spec, scalar_combine_split by (exact Hi || apply Hb). by rewrite Z.mod_mod.
Qed.

#[local] Opaque sc_mul sc_sqmul.

Ltac sc_pow_tac :=
  lazymatch goal with
  | |- sc_pow _ _ (sc_mul _ _) => apply sc_pow_mul; sc_pow_tac
  | |- sc_pow _ _ (sc_sqmul _ _ _) => apply sc_pow_sqmul; sc_pow_tac
  | H : sc_pow ?z ?n ?t |- sc_pow ?z _ ?t => exact H
  end.

(** [sc_pow_let z] computes the exponent of the first of a sequence of lets
    and forgets its definition. *)
Ltac sc_pow_let z :=
  lazymatch goal with |- (let t := ?v in @?k t) = ?r =>
    let H := fresh "Ht" in let m := open_constr:(_ : Z) in
    assert (H : sc_pow z m v) by sc_pow_tac;
    lazymatch type of H with sc_pow _ ?n _ =>
      let n' := eval vm_compute in n in change (sc_pow z n' v) in H;
      let t := fresh "t" in change (k v = r); generalize dependent v; intros t H; cbv beta
    end
  end.

Lemma sc_invert_spec s : scalar s -> sc_invert s = le_split 32 (le_combine s ^ (l25519 - 2) mod l25519).
Proof.
  intros Hs. assert (H : sc_pow (le_combine s) 1 s) by (split; [done|split; [done|by rewrite Z.pow_1_r]]).
  generalize dependent (le_combine s). intros z H. cbv beta delta [sc_invert]. repeat sc_pow_let z.
  eapply sc_sqmul_reduced; [eassumption..|]. vm_compute. reflexivity.
Qed.

(** ** Tests *)

Lemma signum_spec a : Z.abs a < 2 ^ 62 -> signum a = Z.sgn a.
Proof.
  intros Ha. unfold signum. rewrite (swrap_small 64 (- a)) by (first [lia|split; lia]). rewrite !Z.shiftr_div_pow2 by lia.
  assert (D : forall x, Z.abs x < 2 ^ 62 -> x / 2 ^ 63 = if x <? 0 then -1 else 0).
  { intros x Hx. destruct (x <? 0) eqn:E; zbool; symmetry; [apply Z.div_unique with (x + 2 ^ 63)|apply Z.div_unique with x]; lia. }
  rewrite !D by lia. destruct (a <? 0) eqn:E1, (- a <? 0) eqn:E2; zbool; rewrite swrap_small by (first [lia|split; lia]); lia.
Qed.

(** Signs of the word differences, weighted: the highest difference decides. *)
Fixpoint sign_sum (l : list Z) : Z := match l with [] => 0 | d :: l => Z.sgn d + 2 * sign_sum l end.
Fixpoint word_sum (l : list Z) : Z := match l with [] => 0 | d :: l => d + 2 ^ 32 * word_sum l end.

Lemma sign_sum_spec l : Forall (fun d => Z.abs d < 2 ^ 32) l ->
  Z.abs (sign_sum l) < 2 ^ Z.of_nat (List.length l) /\ Z.sgn (sign_sum l) = Z.sgn (word_sum l).
Proof.
  induction 1 as [|d l Hd _ IH]; [done|]. cbn [sign_sum word_sum List.length].
  rewrite Nat2Z.inj_succ, Z.pow_succ_r by lia. destruct IH as [H1 H2]. split; [lia|].
  destruct (Z.sgn_spec (sign_sum l)) as [[? E]|[[? E]|[? E]]]; rewrite E in H2; lia.
Qed.

Lemma sc_check_spec s : scalar s -> sc_check s = if le_combine s <? l25519 then 0 else -1.
Proof.
  intros [Hs Hl]. unfold sc_check. cbv zeta. pose proof Hs as Hs'. pose proof Hl as Hl'. bytes_tac s Hs Hl. clear Hs Hl Hs' Hl'.
  cbn [drop]. rewrite !load_4_bytes by done.
  match goal with |- context [le_combine ?l] => set (v := le_combine l) end.
  rewrite !signum_spec by (unfold in_u in *; lia).
  match goal with |- context [Z.sgn (1559614444 - ?a) + Z.shiftl (Z.sgn (1477600026 - ?b)) 1 + Z.shiftl (Z.sgn (2734136534 - ?c)) 2 +
    Z.shiftl (Z.sgn (350157278 - ?d)) 3 + Z.shiftl (Z.sgn (- ?e)) 4 + Z.shiftl (Z.sgn (- ?f)) 5 +
    Z.shiftl (Z.sgn (- ?g)) 6 + Z.shiftl (Z.sgn (268435456 - ?h)) 7] =>
    set (w := [1559614444 - a; 1477600026 - b; 2734136534 - c; 350157278 - d; - e; - f; - g; 268435456 - h]) end.
  assert (Hw : word_sum w = l25519 - 1 - v) by (unfold v, w, l25519; cbn [word_sum le_combine]; lia).
  assert (Hf : Forall (fun d => Z.abs d < 2 ^ 32) w) by (unfold w, in_u in *; repeat (apply Forall_cons; split); [lia..|constructor]).
  destruct (sign_sum_spec w Hf) as [H1 H2]. rewrite Hw in H2. change (2 ^ Z.of_nat (List.length w)) with 256 in H1.
  rewrite !Z.shiftl_mul_pow2, Z.shiftr_div_pow2 by lia.
  match goal with |- ?x / 2 ^ 8 = _ => replace x with (sign_sum w) by (unfold w; cbn [sign_sum]; lia) end.
  destruct (v <? l25519) eqn:E; zbool; [apply Z.div_small; lia|symmetry; apply Z.div_unique with (sign_sum w + 256); lia].
Qed.

Lemma sc_isnonzero_spec s : scalar s -> sc_isnonzero s = if le_combine s =? 0 then 0 else 1.
Proof.
  intros [Hs Hl]. unfold sc_isnonzero. rewrite take_ge by lia.
  destruct (fold_lor_zero s 0 Hs ltac:(done)) as [[H1 H2] H3]. set (x := fold_left Z.lor _ 0) in *.
  change (2 ^ 8) with 256 in H2. rewrite <- le_combine_zero in H3 by done.
  rewrite Z.shiftr_div_pow2 by lia. change (2 ^ 8) with 256. destruct (le_combine s =? 0) eqn:E; zbool.
  - by rewrite (proj2 H3).
  - rewrite Z.div_small; [done|]. assert (x <> 0) by tauto. lia.
Qed.

(** A canonical scalar: below the order. *)
Definition canonical (s : list Z) : Prop := scalar s /\ le_combine s < l25519.

Lemma canonical_split x : canonical (le_split 32 (x mod l25519)).
Proof.
  split; [apply scalar_split|]. rewrite scalar_combine_split. apply Z.mod_pos_bound. done.
Qed.

Lemma scalar_split_combine s : scalar s -> le_split 32 (le_combine s) = s.
Proof. intros [Hs <-]. by apply le_split_combine. Qed.

(** C40: scalar arithmetic is arithmetic modulo the order l = 2^252 +
    27742317777372353535851937790883648493, whatever strings of 32 bytes (64
    for [sc_reduce]) are given: no limb overflows, and each result is the
    little-endian representation of the representative below the order. *)
Theorem sc_arithmetic_modulo_order w a b c :
  bytes_ok w -> List.length w = 64%nat -> scalar a -> scalar b -> scalar c ->
  sc_reduce w = le_split 32 (le_combine w mod l25519) /\
  sc_reduce32 a = le_split 32 (le_combine a mod l25519) /\
  sc_add a b = le_split 32 ((le_combine a + le_combine b) mod l25519) /\
  sc_sub a b = le_split 32 ((le_combine a - le_combine b) mod l25519) /\
  sc_mul a b = le_split 32 (le_combine a * le_combine b mod l25519) /\
  sc_muladd a b c = le_split 32 ((le_combine a * le_combine b + le_combine c) mod l25519) /\
  sc_mulsub a b c = le_split 32 ((le_combine c - le_combine a * le_combine b) mod l25519).
Proof.
  intros Hw Lw Ha Hb Hc. split; [by apply sc_reduce_spec|]. split; [by apply sc_reduce32_spec|].
  split; [by apply sc_add_spec|]. split; [by apply sc_sub_spec|]. split; [by apply sc_mul_spec|].
  split; [by apply sc_muladd_spec|by apply sc_mulsub_spec].
Qed.

(** [sc_check] accepts exactly the strings that encode a scalar below the
    order, the ones [sc_reduce32] leaves alone; [sc_isnonzero] recognises zero;
    a scalar that survives the check determines its bytes, and every result
    of the arithmetic survives it. *)
Theorem sc_check_canonical a b : scalar a -> scalar b ->
  (sc_check a = 0 <-> canonical a) /\ (sc_check a = 0 <-> sc_reduce32 a = a) /\
  (sc_isnonzero a = 0 <-> a = sc_0) /\
  (sc_check a = 0 -> sc_check b = 0 -> le_combine a mod l25519 = le_combine b mod l25519 -> a = b) /\
  (forall x, sc_check (le_split 32 (x mod l25519)) = 0).
Proof.
  intros Ha Hb. pose proof (scalar_range a Ha) as Hra. pose proof (scalar_range b Hb) as Hrb.
  assert (E : forall s, scalar s -> sc_check s = 0 <-> le_combine s < l25519).
  { intros s Hs. rewrite sc_check_spec by done. destruct (_ <? _) eqn:E; zbool; split; lia. }
  split; [by rewrite E; unfold canonical; tauto|]. split; [|split; [|split]].
  - rewrite E, sc_reduce32_spec by done. split.
    + intros H. rewrite Z.mod_small by lia. by apply scalar_split_combine.
    + intros H. rewrite <- H. apply canonical_split.
  - rewrite sc_isnonzero_spec by done. destruct (_ =? 0) eqn:E0; zbool; split; intros H; try done.
    + rewrite <- (scalar_split_combine a Ha), E0. reflexivity.
    + subst a. by vm_compute in E0.
  - rewrite !E by done. intros H1 H2. rewrite !Z.mod_small by lia. intros H3.
    by rewrite <- (scalar_split_combine a Ha), <- (scalar_split_combine b Hb), H3.
  - intros x. apply E; [apply scalar_split|apply canonical_split].
Qed.

Lemma mul_pow_reduced s e : scalar s -> 0 <= e ->
  sc_mul s (le_split 32 (le_combine s ^ e mod l25519)) = le_split 32 (le_combine s ^ Z.succ e mod l25519).
Proof.
  intros Hs He. rewrite sc_mul_spec, scalar_combine_split by (exact Hs || apply scalar_split).
  by rewrite Z.mul_mod_idemp_r, <- Z.pow_succ_r.
Qed.

(** the addition chain of [sc_invert] computes the power [l - 2], so that
    the product of a scalar with its inverse is its power [l - 1], which is 1
    for a scalar with an inverse, by Fermat's theorem. *)
Theorem sc_invert_correct s : scalar s ->
  sc_invert s = le_split 32 (le_combine s ^ (l25519 - 2) mod l25519) /\
  sc_mul s (sc_invert s) = le_split 32 (le_combine s ^ (l25519 - 1) mod l25519).
Proof.
  intros Hs. pose proof (sc_invert_spec s Hs) as E. split; [exact E|].
  rewrite E. exact (mul_pow_reduced s (l25519 - 2) Hs ltac:(done)).
Qed.

(** ** Concrete scalars *)

(** The largest canonical scalar, and the string of 32 bytes of ones. *)
Definition minus_one : list Z := le_split 32 (l25519 - 1).
Definition all_ones : list Z := le_split 32 (2 ^ 256 - 1).

Example sc_arithmetic_modulo_order_witness :
  sc_add minus_one (le_split 32 2) = le_split 32 1 /\ sc_mul minus_one all_ones = sc_sub sc_0 all_ones.
Proof.
  destruct (sc_arithmetic_modulo_order (le_split 64 (2 ^ 512 - 1)) minus_one (le_split 32 2) sc_0
    (le_split_bytes_ok _ _) eq_refl (scalar_split _) (scalar_split _) (scalar_split 0)) as (_ & _ & E & _).
  split; [rewrite E|]; vm_compute; reflexivity.
Defined.

Example sc_check_canonical_witness :
  sc_check minus_one = 0 /\ sc_check (le_split 32 l25519) = -1 /\ sc_reduce32 minus_one = minus_one.
Proof.
  destruct (sc_check_canonical minus_one all_ones (scalar_split _) (scalar_split _)) as (_ & E & _).
  split; [vm_compute; reflexivity|]. split; [vm_compute; reflexivity|]. apply E. vm_compute. reflexivity.
Defined.

Definition sc_two : list Z := le_split 32 2.

Example sc_invert_correct_witness :
  scalar sc_two /\ sc_mul sc_two (sc_invert sc_two) = le_split 32 (le_combine sc_two ^ (l25519 - 1) mod l25519).
Proof.
  split; [exact (scalar_split 2)|]. destruct (sc_invert_correct sc_two (scalar_split 2)) as [_ E]. exact E.
Defined.
