(* ===== verification/Curve.v ===== *)
(** * Points of the curve: [src/src/crypto/crypto-sugar.h], struct [point_t]

    The arithmetic of the points is the interface [Curve], whose functions carry
    the names of the operations of [point_t]; scalars enter it by their values.
    Points have several representations, so the interface's laws [CurveLaws] are
    stated up to the equality the code computes; the tactic [curve_ring] decides
    equations between linear combinations. *)

From S2P Require Import Prelude Limbs Field25519 Scalar25519 CryptoTypes.

Class Curve := {
  point_t : Type;
  pt_add : point_t -> point_t -> point_t;
  pt_sub : point_t -> point_t -> point_t;
  pt_mul : Z -> point_t -> point_t;
  pt_mul8 : point_t -> point_t;
  pt_is_zero : point_t -> bool;
  c_point_0 : point_t;
  c_point_G : point_t;
  c_point_X : point_t;
  c_point_H : point_t;
  pt_to_public_key : point_t -> public_key;
  pt_from_public_key : public_key -> option point_t;
  (** [hash_helper_t::hp(public_key)], the [hash_to_ec] of [crypto.cpp]. *)
  hp_key : public_key -> point_t
}.

Declare Scope curve_scope.
Delimit Scope curve_scope with C.
Infix "+" := pt_add : curve_scope.
Infix "-" := pt_sub : curve_scope.
Notation "a • p" := (pt_mul a p) (at level 40, left associativity) : curve_scope.

(** A scalar as a factor. *)
Notation "s *' p" := (pt_mul (le_combine s) p) (at level 40, left associativity) : curve_scope.
Local Open Scope curve_scope.

(** [operator==]. *)
Definition pt_eqb `{Curve} (p q : point_t) : bool := pt_is_zero (p - q).
#[export] Instance pt_equiv `{Curve} : Equiv point_t := fun p q => pt_eqb p q = true.

Definition in_main_subgroup `{Curve} (p : point_t) : bool := pt_is_zero (l25519 • p).

(** [mul_plus_G(a, b)]: [a * this + b * G]. *)
Definition mul_plus_G `{Curve} (a b : scalar_t) (p : point_t) : point_t := b *' c_point_G + a *' p.

Class CurveLaws `{Curve} : Prop := {
  curve_equivalence :: Equivalence (≡@{point_t});
  add_proper :: Proper ((≡) ==> (≡) ==> (≡)) pt_add;
  mul_proper a :: Proper ((≡) ==> (≡)) (pt_mul a);
  to_public_key_proper :: Proper ((≡) ==> (=)) pt_to_public_key;
  add_assoc p q r : p + (q + r) ≡ (p + q) + r;
  add_comm p q : p + q ≡ q + p;
  add_0_l p : c_point_0 + p ≡ p;
  mul_0_l p : 0 • p ≡ c_point_0;
  mul_1_l p : 1 • p ≡ p;
  mul_add_l a b p : (a + b)%Z • p ≡ a • p + b • p;
  mul_add_r a p q : a • (p + q) ≡ a • p + a • q;
  mul_mul a b p : a • (b • p) ≡ (a * b)%Z • p;
  sub_add p q : p - q ≡ p + (-1) • q;
  mul8_mul p : pt_mul8 p ≡ 8 • p;
  is_zero_spec p : pt_is_zero p = true <-> p ≡ c_point_0;
  from_to_public_key p : exists q, pt_from_public_key (pt_to_public_key p) = Some q /\ q ≡ p;
  zero_to_public_key : pt_to_public_key c_point_0 = 1 :: replicate 31 0;
  order_G : l25519 • c_point_G ≡ c_point_0;
  order_X : l25519 • c_point_X ≡ c_point_0;
  order_H : l25519 • c_point_H ≡ c_point_0;
  order_curve p : (8 * l25519)%Z • p ≡ c_point_0;
  order_hp k : l25519 • hp_key k ≡ c_point_0
}.

(** ** Equality modulo the order *)

Definition same_mod (a b : Z) : Prop := a mod l25519 = b mod l25519.

#[export] Instance same_mod_equivalence : Equivalence same_mod.
Proof. split; [done|by intros a b|intros a b c; unfold same_mod; congruence]. Qed.
#[export] Instance same_mod_add : Proper (same_mod ==> same_mod ==> same_mod) Z.add.
Proof. intros a a' Ha b b' Hb. unfold same_mod. by rewrite Z.add_mod, Ha, Hb, <- Z.add_mod. Qed.
#[export] Instance same_mod_sub : Proper (same_mod ==> same_mod ==> same_mod) Z.sub.
Proof. intros a a' Ha b b' Hb. unfold same_mod. by rewrite Zminus_mod, Ha, Hb, <- Zminus_mod. Qed.
#[export] Instance same_mod_mul : Proper (same_mod ==> same_mod ==> same_mod) Z.mul.
Proof. intros a a' Ha b b' Hb. unfold same_mod. by rewrite Z.mul_mod, Ha, Hb, <- Z.mul_mod. Qed.
#[export] Instance same_mod_opp : Proper (same_mod ==> same_mod) Z.opp.
Proof. intros a a' Ha. rewrite <- !Z.sub_0_l. by rewrite Ha. Qed.
Lemma mod_same_mod a : same_mod (a mod l25519) a.
Proof. unfold same_mod. by rewrite Z.mod_mod. Qed.
Lemma eq_same_mod a b : a = b -> same_mod a b.
Proof. by intros ->. Qed.
#[global] Typeclasses Opaque same_mod.

(** [mod_ring]: an equation modulo the order, up to reductions inside. *)
Ltac mod_ring :=
  rewrite ?mod_same_mod;
  apply eq_same_mod; ring.

(** ** Linear combinations *)

Section module.
Context `{CurveLaws}.

Lemma add_0_r p : p + c_point_0 ≡ p.
Proof. by rewrite add_comm, add_0_l. Qed.
Lemma mul_0_r a : a • c_point_0 ≡ c_point_0.
Proof. rewrite <- (mul_0_l c_point_0) at 1. by rewrite mul_mul, Z.mul_0_r, mul_0_l. Qed.

#[export] Instance sub_proper : Proper ((≡) ==> (≡) ==> (≡)) pt_sub.
Proof. intros p p' Hp q q' Hq. by rewrite !sub_add, Hp, Hq. Qed.
#[export] Instance mul8_proper : Proper ((≡) ==> (≡)) pt_mul8.
Proof. intros p p' Hp. by rewrite !mul8_mul, Hp. Qed.
#[export] Instance is_zero_proper : Proper ((≡) ==> (=)) pt_is_zero.
Proof. intros p p' Hp. apply eq_true_iff_eq. by rewrite !is_zero_spec, Hp. Qed.
#[export] Instance in_main_subgroup_proper : Proper ((≡) ==> (=)) in_main_subgroup.
Proof. intros p p' Hp. unfold in_main_subgroup. by rewrite Hp. Qed.

Lemma add_swap p q r : p + (q + r) ≡ q + (p + r).
Proof. by rewrite add_assoc, (add_comm p q), <- add_assoc. Qed.
Lemma add_exchange p q r s : (p + q) + (r + s) ≡ (p + r) + (q + s).
Proof. by rewrite <- !add_assoc, (add_swap q r s). Qed.

(** *** Reflection: an expression is the list of the factors of its atoms *)

Inductive pt_expr : Type :=
| E_0 | E_atom (i : nat) | E_add (e f : pt_expr) | E_sub (e f : pt_expr) | E_mul (a : Z) (e : pt_expr) | E_mul8 (e : pt_expr).

Fixpoint denote (env : list point_t) (e : pt_expr) : point_t :=
  match e with
  | E_0 => c_point_0
  | E_atom i => nth i env c_point_0
  | E_add e f => denote env e + denote env f
  | E_sub e f => denote env e - denote env f
  | E_mul a e => a • denote env e
  | E_mul8 e => pt_mul8 (denote env e)
  end.

Fixpoint factors (n : nat) (e : pt_expr) : list Z :=
  match e with
  | E_0 => replicate n 0
  | E_atom i => map (fun j => if (i =? j)%nat then 1 else 0) (seq 0 n)
  | E_add e f => zip_with Z.add (factors n e) (factors n f)
  | E_sub e f => zip_with Z.sub (factors n e) (factors n f)
  | E_mul a e => map (Z.mul a) (factors n e)
  | E_mul8 e => map (Z.mul 8) (factors n e)
  end.

Fixpoint combine_pts (l : list Z) (env : list point_t) : point_t :=
  match l, env with
  | a :: l, p :: env => a • p + combine_pts l env
  | _, _ => c_point_0
  end.

Lemma factors_length n e : List.length (factors n e) = n.
Proof.
  induction e as [|i|e IHe f IHf|e IHe f IHf|a e IHe|e IHe]; cbn [factors];
    rewrite ?length_replicate, ?length_map, ?length_zip_with, ?IHe, ?IHf, ?length_seq; lia.
Qed.

Lemma combine_zero env n : combine_pts (replicate n 0) env ≡ c_point_0.
Proof.
  revert env. induction n as [|n IH]; intros [|p env]; cbn; try done. by rewrite IH, mul_0_l, add_0_l.
Qed.
Lemma combine_add l1 l2 env : List.length l1 = List.length l2 ->
  combine_pts (zip_with Z.add l1 l2) env ≡ combine_pts l1 env + combine_pts l2 env.
Proof.
  revert l2 env. induction l1 as [|a l1 IH]; intros [|b l2] [|p env] Hl; cbn in *; try done; try by rewrite add_0_l.
  rewrite IH by lia. rewrite mul_add_l. apply add_exchange.
Qed.
Lemma combine_scale a l env : combine_pts (map (Z.mul a) l) env ≡ a • combine_pts l env.
Proof.
  revert env. induction l as [|b l IH]; intros [|p env]; cbn; try by rewrite mul_0_r.
  by rewrite IH, mul_add_r, mul_mul.
Qed.
Lemma zip_sub l1 l2 : List.length l1 = List.length l2 -> zip_with Z.sub l1 l2 = zip_with Z.add l1 (map (Z.mul (-1)) l2).
Proof.
  revert l2. induction l1 as [|a l1 IH]; intros [|b l2] Hl; cbn in *; try done. by rewrite IH by lia.
Qed.
Lemma combine_atom i env m : (m <= i)%nat ->
  combine_pts (map (fun j => if (i =? j)%nat then 1 else 0) (seq m (List.length env))) env ≡ nth (i - m) env c_point_0.
Proof.
  revert m. induction env as [|p env IH]; intros m Hm; cbn; [by destruct (i - m)%nat|].
  destruct (Nat.eqb_spec i m) as [->|Hne].
  - rewrite Nat.sub_diag, mul_1_l. cbn. rewrite <- (add_0_r p) at 2. f_equiv. clear IH.
    assert (G : forall k, (m < k)%nat ->
      combine_pts (map (fun j => if (m =? j)%nat then 1 else 0) (seq k (List.length env))) env ≡ c_point_0).
    { induction env as [|q env IH]; intros k Hk; cbn; [done|]. rewrite IH by lia.
      destruct (Nat.eqb_spec m k); [lia|]. by rewrite mul_0_l, add_0_l. }
    apply G. lia.
  - rewrite mul_0_l, add_0_l, IH by lia. by replace (i - m)%nat with (S (i - S m)) by lia.
Qed.

Lemma denote_factors env e : denote env e ≡ combine_pts (factors (List.length env) e) env.
Proof.
  induction e as [|i|e IHe f IHf|e IHe f IHf|a e IHe|e IHe]; cbn [denote factors].
  - by rewrite combine_zero.
  - rewrite combine_atom by lia. by rewrite Nat.sub_0_r.
  - rewrite combine_add by (by rewrite !factors_length). by rewrite IHe, IHf.
  - rewrite sub_add, zip_sub by (by rewrite !factors_length).
    rewrite combine_add by (by rewrite length_map, !factors_length). by rewrite combine_scale, IHe, IHf.
  - by rewrite combine_scale, IHe.
  - by rewrite mul8_mul, combine_scale, IHe.
Qed.

Lemma denote_eq env e f : Forall2 eq (factors (List.length env) e) (factors (List.length env) f) -> denote env e ≡ denote env f.
Proof.
  intros E. rewrite !denote_factors. f_equiv. induction E as [|a b l1 l2 -> _ IH]; [done|]. by rewrite IH.
Qed.

(** Up to multiples of the order, for atoms of the main subgroup. *)
Lemma mul_mod_order a p : l25519 • p ≡ c_point_0 -> a mod l25519 • p ≡ a • p.
Proof.
  intros Hp. rewrite (Z.div_mod a l25519) at 2 by done.
  by rewrite mul_add_l, (Z.mul_comm l25519), <- mul_mul, Hp, mul_0_r, add_0_l.
Qed.
Lemma mul_same_mod a b p : l25519 • p ≡ c_point_0 -> same_mod a b -> a • p ≡ b • p.
Proof. intros Hp Hab. rewrite <- (mul_mod_order a), <- (mul_mod_order b) by done. by rewrite Hab. Qed.

Lemma denote_eq_mod env e f : Forall (fun p => l25519 • p ≡ c_point_0) env ->
  Forall2 same_mod (factors (List.length env) e) (factors (List.length env) f) -> denote env e ≡ denote env f.
Proof.
  intros Henv. rewrite !denote_factors. generalize (factors (List.length env) e) (factors (List.length env) f).
  induction Henv as [|p env Hp Henv IH]; intros l1 l2 Hl; destruct Hl as [|a b l1 l2 Hab Hl]; cbn; try done.
  f_equiv; [by apply mul_same_mod|by apply IH].
Qed.

End module.

Ltac in_env p env :=
  lazymatch env with
  | [] => constr:(false)
  | p :: _ => constr:(true)
  | _ :: ?env => in_env p env
  end.
Ltac add_atoms t env :=
  lazymatch t with
  | c_point_0 => env
  | (?a + ?b)%C => let env := add_atoms a env in add_atoms b env
  | (?a - ?b)%C => let env := add_atoms a env in add_atoms b env
  | (_ • ?b)%C => add_atoms b env
  | pt_mul8 ?b => add_atoms b env
  | _ => let b := in_env t env in
         lazymatch b with true => env | false => constr:(t :: env) end
  end.
Ltac atom_index p env :=
  lazymatch env with
  | p :: _ => constr:(O)
  | _ :: ?env => let n := atom_index p env in constr:(S n)
  end.
Ltac reify_pt t env :=
  lazymatch t with
  | c_point_0 => constr:(E_0)
  | (?a + ?b)%C => let a := reify_pt a env in let b := reify_pt b env in constr:(E_add a b)
  | (?a - ?b)%C => let a := reify_pt a env in let b := reify_pt b env in constr:(E_sub a b)
  | (?z • ?b)%C => let b := reify_pt b env in constr:(E_mul z b)
  | pt_mul8 ?b => let b := reify_pt b env in constr:(E_mul8 b)
  | _ => let n := atom_index t env in constr:(E_atom n)
  end.
Ltac reify_goal lem :=
  lazymatch goal with
  | |- @equiv ?A _ ?p ?q =>
      let env := add_atoms p (@nil A) in let env := add_atoms q env in
      let e := reify_pt p env in let f := reify_pt q env in
      change (denote env e ≡ denote env f); apply lem; [typeclasses eauto|..]
  end.

(** Equal factors, by [ring]. *)
Ltac curve_ring :=
  reify_goal @denote_eq; cbn [factors List.length map zip_with seq replicate Nat.eqb];
  repeat (constructor; [ring|]); constructor.

(** The same modulo the order, for points of the main subgroup. *)
Ltac curve_ring_mod :=
  reify_goal @denote_eq_mod;
  [ repeat (refine (Forall_cons_2 _ _ _ _ _); [cbv beta; first [apply order_G | apply order_X | apply order_H | apply order_hp | assumption]|]);
    exact (Forall_nil_2 _)
  | cbn [factors List.length map zip_with seq replicate Nat.eqb]; repeat (constructor; [mod_ring|]); constructor ].
