(* ===== verification/CurveModel.v ===== *)
(** * A group with independent generators

    An implementation of the interface [Curve] on which its laws can be checked and
    the protocols run: points are combinations of the three generators of the code
    and one more, with factors modulo the order.  No two of the generators are
    related, and a point is encoded by its four factors, the neutral element by the key
    of the curve. *)

From S2P Require Import Prelude Limbs Field25519 Scalar25519 CryptoTypes Curve.

Definition free_point : Type := Z * Z * Z * Z.

Definition free_map (f : Z -> Z) : free_point -> free_point := fun '(g, x, h, u) => (f g, f x, f h, f u).
Definition free_zip (f : Z -> Z -> Z) : free_point -> free_point -> free_point :=
  fun '(g, x, h, u) '(g', x', h', u') => (f g g', f x x', f h h', f u u').
Definition free_zero (p : free_point) : bool := bool_decide (free_map (fun a => a mod l25519) p = (0, 0, 0, 0)).

Definition zero_key : list Z := 1 :: replicate 31 0.
Definition factors_key (p : free_point) : list Z :=
  let '(g, x, h, u) := free_map (fun a => a mod l25519) p in le_split 32 g ++ le_split 32 x ++ le_split 32 h ++ le_split 32 u.
Definition free_encode (p : free_point) : list Z := if free_zero p then zero_key else factors_key p.
Definition part (i : nat) (k : list Z) : Z := le_combine (take 32 (drop (32 * i) k)).
(** A string of 32 bytes is a multiple of the last generator; [special] are the
    other points of such strings. *)
Definition free_decode (special : list (list Z * free_point)) (k : list Z) : option free_point :=
  if (List.length k =? 128)%nat then Some (part 0 k, part 1 k, part 2 k, part 3 k)
  else if bool_decide (k = zero_key) then Some (0, 0, 0, 0)
  else
    match List.find (fun e => bool_decide (fst e = k)) special with
    | Some e => Some (snd e)
    | None => Some (0, 0, 0, le_combine k)
    end.

Definition free_curve (special : list (list Z * free_point)) : Curve := {|
  point_t := free_point;
  pt_add := free_zip Z.add; pt_sub := free_zip Z.sub; pt_mul a := free_map (Z.mul a); pt_mul8 := free_map (Z.mul 8);
  pt_is_zero := free_zero;
  c_point_0 := (0, 0, 0, 0); c_point_G := (1, 0, 0, 0); c_point_X := (0, 1, 0, 0); c_point_H := (0, 0, 1, 0);
  pt_to_public_key := free_encode; pt_from_public_key := free_decode special;
  hp_key k := (0, 0, 0, le_combine k)
|}.

(** ** The laws *)

Definition fits (p : free_point) (q : free_point) : Prop :=
  free_map (fun a => a mod l25519) p = free_map (fun a => a mod l25519) q.

Lemma sub_mod_zero a b : (a - b) mod l25519 = 0 <-> a mod l25519 = b mod l25519.
Proof.
  split.
  - intros E. apply Z.mod_divide in E as [k E]; [|done]. replace a with (b + k * l25519) by lia. by rewrite Z.mod_add.
  - intros E. by rewrite Zminus_mod, E, Z.sub_diag.
Qed.

Lemma free_equiv special (p q : @point_t (free_curve special)) : p ≡ q <-> fits p q.
Proof.
  destruct p as [[[g x] h] u], q as [[[g' x'] h'] u']. unfold equiv, pt_equiv, pt_eqb, fits. cbn.
  unfold free_zero. rewrite bool_decide_eq_true. cbn. split.
  - intros [= E1%sub_mod_zero E2%sub_mod_zero E3%sub_mod_zero E4%sub_mod_zero]. congruence.
  - intros [= E1 E2 E3 E4]. apply sub_mod_zero in E1, E2, E3, E4. congruence.
Qed.

Lemma part_encoded (a b c d : list Z) i : List.length a = 32%nat -> List.length b = 32%nat -> List.length c = 32%nat -> List.length d = 32%nat ->
  (i < 4)%nat -> part i (a ++ b ++ c ++ d) = le_combine (nth i [a; b; c; d] []).
Proof.
  intros Ha Hb Hc Hd Hi. unfold part. f_equal.
  destruct i as [|[|[|[|]]]]; cbn [nth Nat.mul Nat.add]; [| | | |lia].
  - by rewrite drop_0, take_app_length'.
  - by rewrite drop_app_length', take_app_length' by done.
  - change 64%nat with (32 + 32)%nat. by rewrite <- drop_drop, !drop_app_length', take_app_length' by done.
  - change 96%nat with (32 + (32 + 32))%nat. rewrite <- !drop_drop, !drop_app_length' by done. by rewrite take_ge by lia.
Qed.

(** Points up to equality, by their factors. *)
#[local] Ltac free_points := repeat match goal with p : _ |- _ => match type of p with free_point => destruct p as [[[? ?] ?] ?] | point_t => destruct p as [[[? ?] ?] ?] end end.

Lemma fits_iff g x h u g' x' h' u' : fits (g, x, h, u) (g', x', h', u') <->
  g mod l25519 = g' mod l25519 /\ x mod l25519 = x' mod l25519 /\ h mod l25519 = h' mod l25519 /\ u mod l25519 = u' mod l25519.
Proof. unfold fits. cbn. split; [by intros [= -> -> -> ->]|by intros (-> & -> & -> & ->)]. Qed.

#[local] Ltac free_start := intros; repeat match goal with H : _ ≡ _ |- _ => apply free_equiv in H end; try apply free_equiv; cbn in *; free_points;
  repeat match goal with H : fits _ _ |- _ => apply fits_iff in H as (? & ? & ? & ?) end; try apply fits_iff.

Lemma free_from_to special g x h u : exists q : @point_t (free_curve special),
  free_decode special (free_encode (g, x, h, u)) = Some q /\ q ≡ ((g, x, h, u) : @point_t (free_curve special)).
Proof.
  unfold free_encode. destruct (free_zero (g, x, h, u)) eqn:E.
  { exists (0, 0, 0, 0). split; [done|]. unfold free_zero in E. apply bool_decide_eq_true in E.
    apply free_equiv. unfold fits. cbn in *. by rewrite E. }
  set (f a := le_split 32 (a mod l25519)). change (factors_key (g, x, h, u)) with (f g ++ f x ++ f h ++ f u).
  assert (Hf : forall a, List.length (f a) = 32%nat) by (intros a; apply length_le_split).
  exists (le_combine (f g), le_combine (f x), le_combine (f h), le_combine (f u)). split.
  - unfold free_decode. rewrite !length_app, !Hf. cbn [Nat.add Nat.eqb]. by rewrite !part_encoded by (done || lia).
  - apply free_equiv, fits_iff. unfold f. by rewrite !scalar_combine_split, !Z.mod_mod.
Qed.

Lemma free_curve_laws special : @CurveLaws (free_curve special).
Proof.
  constructor.
  - constructor.
    + intros p. by apply free_equiv.
    + intros p q. rewrite !free_equiv. done.
    + intros p q r. rewrite !free_equiv. unfold fits. congruence.
  - intros p p' Hp q q' Hq. free_start. repeat split; rewrite Z.add_mod by done; symmetry; rewrite Z.add_mod by done; congruence.
  - intros a p p' Hp. free_start. repeat split; rewrite Z.mul_mod by done; symmetry; rewrite Z.mul_mod by done; congruence.
  - intros p p' Hp. free_start. unfold free_encode, free_zero, factors_key. cbn.
    by repeat match goal with E : _ mod _ = _ mod _ |- _ => rewrite E; clear E end.
  - free_start. repeat split; f_equal; lia.
  - free_start. repeat split; f_equal; lia.
  - free_start. repeat split; f_equal; lia.
  - free_start. repeat split; f_equal; lia.
  - free_start. repeat split; f_equal; lia.
  - free_start. repeat split; f_equal; lia.
  - free_start. repeat split; f_equal; lia.
  - free_start. repeat split; f_equal; lia.
  - free_start. repeat split; f_equal; lia.
  - free_start. repeat split; f_equal; lia.
  - intros p. rewrite free_equiv. cbn. unfold free_zero. rewrite bool_decide_eq_true. free_points. done.
  - intros p. cbn in p. destruct p as [[[g x] h] u]. exact (free_from_to special g x h u).
  - vm_compute. done.
  - by apply free_equiv.
  - by apply free_equiv.
  - by apply free_equiv.
  - free_start. by rewrite !(Z.mul_comm 8), <- !Z.mul_assoc, !(Z.mul_comm l25519), !Z.mod_mul.
  - intros k. apply free_equiv, fits_iff. repeat split; try done. by rewrite Z.mul_comm, Z.mod_mul.
Qed.
