(* ===== verification/Schnorr.v ===== *)
(** * Keys and Schnorr signatures: [src/src/crypto/crypto.cpp], class [crypto_ops],
    and [zarcanum.h]

    The keys of an account and of an output, the signatures of messages by keys,
    and the proofs of knowledge that balance proofs are made of, over the interface
    [Curve].  Random scalars are arguments of the generators. *)

From S2P Require Import Prelude Varint Keccak Limbs Field25519 Scalar25519 Pod CryptoTypes Curve CurveModel.

Local Open Scope curve_scope.

(** ** Hashes to scalars *)

(** [hash_helper_t::hs_t]: the hash of 32-byte items. *)
Definition calc_hash_no_reduce (items : list (list Z)) : hash := cn_fast_hash (concat items).
Definition calc_hash (items : list (list Z)) : scalar_t := sc_reduce32 (calc_hash_no_reduce items).
Definition hash_to_scalar (data : list Z) : scalar_t := sc_reduce32 (cn_fast_hash data).

Definition is_reduced (s : scalar_t) : bool := sc_check s =? 0.

(** [scalar_t::make_random], from the 64 bytes of the generator. *)
Definition make_random (tmp : list Z) : scalar_t := sc_reduce tmp.

Lemma hash_scalar d : scalar (cn_fast_hash d).
Proof. split; [apply cn_fast_hash_bytes|apply cn_fast_hash_length]. Qed.
Lemma sc_reduce32_canonical s : scalar s -> canonical (sc_reduce32 s).
Proof. intros Hs. rewrite sc_reduce32_spec by done. apply canonical_split. Qed.
Lemma calc_hash_canonical items : canonical (calc_hash items).
Proof. apply sc_reduce32_canonical, hash_scalar. Qed.
Lemma hash_to_scalar_canonical d : canonical (hash_to_scalar d).
Proof. apply sc_reduce32_canonical, hash_scalar. Qed.
Lemma canonical_scalar s : canonical s -> scalar s.
Proof. by intros []. Qed.
Lemma is_reduced_spec s : scalar s -> is_reduced s = true <-> canonical s.
Proof.
  intros Hs. unfold is_reduced. rewrite Z.eqb_eq, sc_check_spec by done. unfold canonical.
  destruct (_ <? _) eqn:E; zbool; split; try done; lia.
Qed.
Lemma sc_mulsub_canonical a b c : scalar a -> scalar b -> scalar c -> canonical (sc_mulsub a b c).
Proof. intros. rewrite sc_mulsub_spec by done. apply canonical_split. Qed.
Lemma mulsub_value c a r : scalar c -> scalar a -> scalar r ->
  le_combine (sc_mulsub c a r) = (le_combine r - le_combine c * le_combine a) mod l25519.
Proof. intros. rewrite sc_mulsub_spec by done. apply scalar_combine_split. Qed.
Lemma make_random_canonical tmp : bytes_ok tmp -> List.length tmp = 64%nat -> canonical (make_random tmp).
Proof. intros. unfold make_random. rewrite sc_reduce_spec by done. apply canonical_split. Qed.

(** Conversion unfolds the arithmetic last. *)
#[global] Strategy 1000 [cn_fast_hash calc_hash_no_reduce calc_hash hash_to_scalar sc_reduce32 sc_mulsub sc_sub sc_add sc_check sc_isnonzero].

Create HintDb scalars.
#[export] Hint Resolve canonical_scalar calc_hash_canonical hash_to_scalar_canonical sc_mulsub_canonical hash_scalar : scalars.

(** The constants [Z] and [I]. *)
Definition key_image_Z : key_image := replicate 32 0.
Definition key_image_I : key_image := 1 :: replicate 31 0.

Section schnorr.
Context `{Curve}.

(** ** [class crypto_ops] *)

Definition keys_from_default (a_part : list Z) : outcome (public_key * secret_key) :=
  if (64 <? List.length a_part)%nat then Throw
  else
    let tmp := a_part ++ replicate (64 - List.length a_part) 0 in
    let sec := sc_reduce (take 32 tmp ++ cn_fast_hash (take 32 tmp)) in
    Ret (pt_to_public_key (sec *' c_point_G), sec).

Definition generate_keys (tmp : list Z) : public_key * secret_key :=
  let sec := make_random tmp in (pt_to_public_key (sec *' c_point_G), sec).

Definition dependent_key (first : secret_key) : outcome secret_key :=
  let second := hash_to_scalar first in if negb (sc_check second =? 0) then Throw else Ret second.

Definition check_key (key : public_key) : bool := match pt_from_public_key key with Some _ => true | None => false end.

Definition secret_key_to_public_key (sec : secret_key) : option public_key :=
  if negb (sc_check sec =? 0) then None else Some (pt_to_public_key (sec *' c_point_G)).

(** [scalarmult_key] with the order as the scalar, and [validate_key_image]. *)
Definition scalarmult_key_L (P : key_image) : key_image :=
  match pt_from_public_key P with None => key_image_Z | Some A => pt_to_public_key (l25519 • A) end.
Definition validate_key_image (ki : key_image) : bool := bool_decide (scalarmult_key_L ki = key_image_I).

(** [None] is [false]. *)
Definition generate_key_derivation (key1 : public_key) (key2 : secret_key) : outcome (option key_derivation) :=
  if negb (sc_check key2 =? 0) then Throw
  else
    match pt_from_public_key key1 with
    | None => Ret None
    | Some point => Ret (Some (pt_to_public_key (pt_mul8 (key2 *' point))))
    end.

Definition derivation_to_scalar (derivation : key_derivation) (output_index : Z) : outcome scalar_t :=
  match write_varint output_index with
  | Some v => Ret (hash_to_scalar (derivation ++ v))
  | None => Throw
  end.

Definition derive_public_key (derivation : key_derivation) (output_index : Z) (base : public_key) : outcome (option public_key) :=
  match pt_from_public_key base with
  | None => Ret None
  | Some point1 =>
      s ← derivation_to_scalar derivation output_index;
      Ret (Some (pt_to_public_key (point1 + s *' c_point_G)))
  end.

Definition derive_secret_key (derivation : key_derivation) (output_index : Z) (base : secret_key) : outcome secret_key :=
  if negb (sc_check base =? 0) then Throw
  else s ← derivation_to_scalar derivation output_index; Ret (sc_add base s).

Definition generate_key_image (pub : public_key) (sec : secret_key) : outcome key_image :=
  if negb (sc_check sec =? 0) then Throw else Ret (pt_to_public_key (sec *' hp_key pub)).

(** A signature is the challenge and the response. *)
Definition sig_c (sig : signature) : scalar_t := take 32 sig.
Definition sig_r (sig : signature) : scalar_t := drop 32 sig.

(** The assertions of the debug build are left out; [k] is the random scalar. *)
Definition generate_signature (k : scalar_t) (prefix_hash : hash) (pub : public_key) (sec : secret_key) : signature :=
  let c := hash_to_scalar (prefix_hash ++ pub ++ pt_to_public_key (k *' c_point_G)) in
  c ++ sc_mulsub c sec k.

Definition check_signature (prefix_hash : hash) (pub : public_key) (sig : signature) : bool :=
  match pt_from_public_key pub with
  | None => false
  | Some tmp3 =>
      if negb (sc_check (sig_c sig) =? 0) || negb (sc_check (sig_r sig) =? 0) then false
      else
        let c := hash_to_scalar (prefix_hash ++ pub ++ pt_to_public_key (mul_plus_G (sig_c sig) (sig_r sig) tmp3)) in
        sc_isnonzero (sc_sub c (sig_c sig)) =? 0
  end.

(** ** [zarcanum.h]: proofs of knowledge *)

Inductive generator_tag : Type := gt_G | gt_X.
Definition generator (g : generator_tag) : point_t := match g with gt_G => c_point_G | gt_X => c_point_X end.

(** [y * gen + c * A], computed for [gt_G] by [mul_plus_G]. *)
Definition response_point (g : generator_tag) (c y : scalar_t) (A : point_t) : point_t :=
  match g with gt_G => mul_plus_G c y A | gt_X => y *' c_point_X + c *' A end.

Definition generate_schnorr_sig (r : scalar_t) (g : generator_tag) (m : hash) (A : point_t) (secret_a : scalar_t)
    : generic_schnorr_sig_s :=
  let c := calc_hash [m; pt_to_public_key A; pt_to_public_key (r *' generator g)] in
  {| gss_c := c; gss_y := sc_mulsub c secret_a r |}.

Definition verify_schnorr_sig (g : generator_tag) (m : hash) (A : public_key) (sig : generic_schnorr_sig_s) : bool :=
  if negb (is_reduced (gss_c sig)) || negb (is_reduced (gss_y sig)) then false
  else
    match pt_from_public_key A with
    | None => false
    | Some A_pt => bool_decide (gss_c sig = calc_hash [m; A; pt_to_public_key (response_point g (gss_c sig) (gss_y sig) A_pt)])
    end.

(** The second generator is [G]. *)
Definition generate_double_schnorr_sig (r0 r1 : scalar_t) (gen0 : generator_tag) (m : hash) (A : point_t) (secret_a : scalar_t)
    (B : point_t) (secret_b : scalar_t) : generic_double_schnorr_sig_s :=
  let c := calc_hash [m; pt_to_public_key A; pt_to_public_key B; pt_to_public_key (r0 *' generator gen0); pt_to_public_key (r1 *' c_point_G)] in
  {| gdss_c := c; gdss_y0 := sc_mulsub c secret_a r0; gdss_y1 := sc_mulsub c secret_b r1 |}.

Definition verify_double_schnorr_sig (gen0 : generator_tag) (m : hash) (A : point_t) (B : public_key)
    (sig : generic_double_schnorr_sig_s) : bool :=
  if negb (is_reduced (gdss_c sig)) || negb (is_reduced (gdss_y0 sig)) || negb (is_reduced (gdss_y1 sig)) then false
  else
    match pt_from_public_key B with
    | None => false
    | Some B_pt =>
        bool_decide (gdss_c sig = calc_hash [m; pt_to_public_key A; B;
          pt_to_public_key (response_point gen0 (gdss_c sig) (gdss_y0 sig) A);
          pt_to_public_key (mul_plus_G (gdss_c sig) (gdss_y1 sig) B_pt)])
    end.

(** The instance for the generators G, X, G. *)
Definition generate_linear_composition_and_schnorr_sig (r0 r1 r2 : scalar_t) (m : hash) (A : point_t) (secret_a0 secret_a1 : scalar_t)
    (B : point_t) (secret_b : scalar_t) : generic_linear_composition_and_schnorr_sig_s :=
  let c := calc_hash [m; pt_to_public_key A; pt_to_public_key B; pt_to_public_key (r0 *' c_point_G + r1 *' c_point_X);
                      pt_to_public_key (r2 *' c_point_G)] in
  {| glcss_c := c; glcss_y0 := sc_mulsub c secret_a0 r0; glcss_y1 := sc_mulsub c secret_a1 r1; glcss_y2 := sc_mulsub c secret_b r2 |}.

Definition verify_linear_composition_and_schnorr_sig (m : hash) (A : point_t) (B : public_key)
    (sig : generic_linear_composition_and_schnorr_sig_s) : bool :=
  if negb (is_reduced (glcss_c sig)) || negb (is_reduced (glcss_y0 sig)) || negb (is_reduced (glcss_y1 sig)) ||
     negb (is_reduced (glcss_y2 sig)) then false
  else
    match pt_from_public_key B with
    | None => false
    | Some B_pt =>
        bool_decide (glcss_c sig = calc_hash [m; pt_to_public_key A; B;
          pt_to_public_key (mul_plus_G (glcss_c sig) (glcss_y0 sig) A + glcss_y1 sig *' c_point_X);
          pt_to_public_key (glcss_y2 sig *' c_point_G + glcss_c sig *' B_pt)])
    end.

End schnorr.

(** Equal hashes of equal items, keys of equal points among them. *)
Ltac hash_items :=
  f_equal; repeat (apply (f_equal2 cons); [first [reflexivity | apply to_public_key_proper]|]); try reflexivity.

(** ** Proofs that are made are accepted *)

Section complete.
Context `{CurveLaws}.

Lemma order_generator g : l25519 • generator g ≡ c_point_0.
Proof. destruct g; [apply order_G|apply order_X]. Qed.

Lemma response_point_alt g c y A : response_point g c y A ≡ y *' generator g + c *' A.
Proof. by destruct g. Qed.

(** The response gives the point of the random scalar back. *)
Lemma response_opens g c a r A : canonical c -> canonical a -> scalar r -> A ≡ a *' generator g ->
  response_point g c (sc_mulsub c a r) A ≡ r *' generator g.
Proof.
  intros Hc Ha Hr HA. rewrite response_point_alt, HA. rewrite mulsub_value by auto with scalars.
  pose proof (order_generator g). curve_ring_mod.
Qed.

Lemma reduced_hash items : is_reduced (calc_hash items) = true.
Proof. apply is_reduced_spec; auto with scalars. Qed.
Lemma reduced_response c a r : canonical c -> canonical a -> scalar r -> is_reduced (sc_mulsub c a r) = true.
Proof. intros. apply is_reduced_spec; auto with scalars. Qed.

(** a proof of knowledge made with the secret is accepted, for either
    generator, whatever the message and the random scalar. *)
Lemma schnorr_sig_accepted r g m A a : canonical a -> scalar r -> A ≡ a *' generator g ->
  verify_schnorr_sig g m (pt_to_public_key A) (generate_schnorr_sig r g m A a) = true.
Proof.
  intros Ha Hr HA. unfold verify_schnorr_sig, generate_schnorr_sig. cbn [gss_c gss_y].
  rewrite reduced_hash, reduced_response by auto with scalars. cbn [negb orb].
  destruct (from_to_public_key A) as (A' & -> & HA'). apply bool_decide_eq_true. hash_items.
  rewrite response_opens; [done|auto with scalars..|]. by rewrite HA'.
Qed.

Lemma mul_plus_G_opens c a r B : canonical c -> canonical a -> scalar r -> B ≡ a *' c_point_G ->
  mul_plus_G c (sc_mulsub c a r) B ≡ r *' c_point_G.
Proof. exact (response_opens gt_G c a r B). Qed.

Lemma double_schnorr_sig_accepted r0 r1 gen0 m A a B b : canonical a -> canonical b -> scalar r0 -> scalar r1 ->
  A ≡ a *' generator gen0 -> B ≡ b *' c_point_G ->
  verify_double_schnorr_sig gen0 m A (pt_to_public_key B) (generate_double_schnorr_sig r0 r1 gen0 m A a B b) = true.
Proof.
  intros Ha Hb Hr0 Hr1 HA HB. unfold verify_double_schnorr_sig, generate_double_schnorr_sig. cbn [gdss_c gdss_y0 gdss_y1].
  rewrite reduced_hash, !reduced_response by auto with scalars. cbn [negb orb].
  destruct (from_to_public_key B) as (B' & -> & HB'). apply bool_decide_eq_true. hash_items.
  - by rewrite response_opens by auto with scalars.
  - rewrite mul_plus_G_opens; [done|auto with scalars..|]. by rewrite HB'.
Qed.

Lemma composition_opens c a0 a1 r0 r1 A : canonical c -> canonical a0 -> canonical a1 -> scalar r0 -> scalar r1 ->
  A ≡ a0 *' c_point_G + a1 *' c_point_X ->
  mul_plus_G c (sc_mulsub c a0 r0) A + sc_mulsub c a1 r1 *' c_point_X ≡ r0 *' c_point_G + r1 *' c_point_X.
Proof.
  intros Hc Ha0 Ha1 Hr0 Hr1 HA. unfold mul_plus_G. rewrite HA, !mulsub_value by auto with scalars. curve_ring_mod.
Qed.

Lemma linear_composition_sig_accepted r0 r1 r2 m A a0 a1 B b : canonical a0 -> canonical a1 -> canonical b ->
  scalar r0 -> scalar r1 -> scalar r2 -> A ≡ a0 *' c_point_G + a1 *' c_point_X -> B ≡ b *' c_point_G ->
  verify_linear_composition_and_schnorr_sig m A (pt_to_public_key B)
    (generate_linear_composition_and_schnorr_sig r0 r1 r2 m A a0 a1 B b) = true.
Proof.
  intros Ha0 Ha1 Hb Hr0 Hr1 Hr2 HA HB. unfold verify_linear_composition_and_schnorr_sig, generate_linear_composition_and_schnorr_sig.
  cbn [glcss_c glcss_y0 glcss_y1 glcss_y2]. rewrite reduced_hash, !reduced_response by auto with scalars. cbn [negb orb].
  destruct (from_to_public_key B) as (B' & -> & HB'). apply bool_decide_eq_true. hash_items.
  - by rewrite composition_opens by auto with scalars.
  - symmetry. apply (mul_plus_G_opens _ b r2 B'); [auto with scalars..|]. by rewrite HB'.
Qed.

Lemma signature_parts c r : List.length c = 32%nat -> sig_c (c ++ r) = c /\ sig_r (c ++ r) = r.
Proof. intros Hc. unfold sig_c, sig_r. by rewrite take_app_length', drop_app_length'. Qed.

Lemma zero_difference c : scalar c -> (sc_isnonzero (sc_sub c c) =? 0) = true.
Proof. intros Hc. rewrite sc_sub_spec, Z.sub_diag by done. by rewrite sc_isnonzero_spec by apply scalar_split. Qed.

Lemma signature_accepted k h sec pub : canonical sec -> scalar k -> pub = pt_to_public_key (sec *' c_point_G) ->
  check_signature h pub (generate_signature k h pub sec) = true.
Proof.
  intros Hs Hk Hpub. unfold check_signature, generate_signature.
  remember (hash_to_scalar (h ++ pub ++ pt_to_public_key (k *' c_point_G))) as c eqn:Ec.
  assert (Hc : canonical c) by (rewrite Ec; apply hash_to_scalar_canonical).
  destruct (signature_parts c (sc_mulsub c sec k)) as [-> ->]; [apply Hc|].
  pose proof (reduced_response c sec k Hc Hs ltac:(done)) as Hy. unfold is_reduced in Hy. rewrite Hy.
  assert (Hr : is_reduced c = true) by (apply is_reduced_spec; auto with scalars). unfold is_reduced in Hr. rewrite Hr.
  rewrite Hpub at 1. destruct (from_to_public_key (sec *' c_point_G)) as (P & -> & HP). cbn [negb orb].
  rewrite (to_public_key_proper _ (k *' c_point_G)) by by apply mul_plus_G_opens.
  rewrite <- Ec. apply zero_difference. apply Hc.
Qed.

(** ** What a proof proves

    Two accepted answers to different challenges for the same point of the random
    scalar give the secret away, with an inverse [d] of the difference. *)
Lemma response_extracts g c y c' y' A d : l25519 • A ≡ c_point_0 ->
  response_point g c y A ≡ response_point g c' y' A ->
  same_mod (d * (le_combine c - le_combine c')) 1 ->
  A ≡ (d * (le_combine y' - le_combine y)) • generator g.
Proof.
  intros HA E Hd. rewrite !response_point_alt in E.
  assert (E1 : (le_combine c - le_combine c') • A ≡ (le_combine y' - le_combine y) • generator g).
  { transitivity ((y *' generator g + c *' A) - (y *' generator g + c' *' A)); [curve_ring|]. rewrite E. curve_ring. }
  rewrite <- mul_mul, <- E1, mul_mul. rewrite <- (mul_1_l A) at 1. by apply mul_same_mod.
Qed.

(** ** One-time keys *)

Lemma derivation_to_scalar_total D i : is_u64 i -> exists s, derivation_to_scalar D i = Ret s /\ canonical s.
Proof.
  intros Hi. unfold derivation_to_scalar. rewrite write_varint_digits by done. eexists. split; [done|].
  apply hash_to_scalar_canonical.
Qed.

Lemma sc_check_canonical_0 s : canonical s -> (sc_check s =? 0) = true.
Proof. intros Hs. apply Z.eqb_eq. rewrite sc_check_spec by apply Hs. destruct Hs as [_ Hs]. by apply Z.ltb_lt in Hs as ->. Qed.

(** C19: an output sent to an address is found and can be spent by its owner: the
    recipient computes the same derivation from the key of the transaction and
    the view key as the sender from the address; the secret key derived from the
    spend key belongs to the one-time key of the output; its key image is valid,
    and signatures by it are accepted. *)
Theorem output_found_and_spendable r a b i h k : canonical r -> canonical a -> canonical b -> canonical k -> is_u64 i ->
  let key s := pt_to_public_key (s *' c_point_G) in
  exists D P x ki,
    generate_key_derivation (key a) r = Ret (Some D) /\ generate_key_derivation (key r) a = Ret (Some D) /\
    derive_public_key D i (key b) = Ret (Some P) /\ derive_secret_key D i b = Ret x /\
    secret_key_to_public_key x = Some P /\
    generate_key_image P x = Ret ki /\ validate_key_image ki = true /\
    check_signature h P (generate_signature k h P x) = true.
Proof.
  intros Hr Ha Hb Hk Hi key. unfold generate_key_derivation, derive_public_key, derive_secret_key.
  rewrite !sc_check_canonical_0 by done. cbn [negb].
  destruct (from_to_public_key (a *' c_point_G)) as (PA & EA & HA), (from_to_public_key (r *' c_point_G)) as (PR & ER & HR),
    (from_to_public_key (b *' c_point_G)) as (PB & EB & HB). unfold key. rewrite EA, ER, EB.
  set (D := pt_to_public_key (pt_mul8 (r *' PA))). destruct (derivation_to_scalar_total D i Hi) as (s & Es & Hs).
  assert (Hx : canonical (sc_add b s)) by (rewrite sc_add_spec by auto with scalars; apply canonical_split).
  assert (HP : pt_to_public_key (PB + s *' c_point_G) = pt_to_public_key (sc_add b s *' c_point_G)).
  { apply to_public_key_proper. rewrite HB, sc_add_spec, scalar_combine_split by auto with scalars. curve_ring_mod. }
  destruct (from_to_public_key (sc_add b s *' hp_key (pt_to_public_key (sc_add b s *' c_point_G)))) as (K & EK & HK).
  exists D, (pt_to_public_key (sc_add b s *' c_point_G)), (sc_add b s). eexists.
  split; [done|]. split; [|rewrite Es; outcome_simp; rewrite HP; split; [done|split; [done|]]].
  - unfold D. do 2 f_equal. apply to_public_key_proper. rewrite HA, HR. curve_ring.
  - unfold secret_key_to_public_key, generate_key_image. rewrite sc_check_canonical_0 by done. cbn [negb].
    split; [done|]. split; [done|]. split; [|apply signature_accepted; auto with scalars].
    unfold validate_key_image, scalarmult_key_L. rewrite EK. apply bool_decide_eq_true.
    rewrite (to_public_key_proper _ c_point_0); [apply zero_to_public_key|]. rewrite HK, mul_mul, Z.mul_comm, <- mul_mul, order_hp.
    apply mul_0_r.
Qed.
End complete.

(** *** Concrete keys *)

Lemma small_canonical n : 0 <= n < l25519 -> canonical (le_split 32 n).
Proof.
  intros Hn. split; [apply scalar_split|]. rewrite le_combine_split, Z.mod_small; [apply Hn|].
  split; [apply Hn|]. apply Z.lt_trans with l25519; [apply Hn|done].
Qed.

Example output_found_and_spendable_witness :
  let key s := @pt_to_public_key (free_curve []) (s *' c_point_G) in
  let r := le_split 32 5 in let a := le_split 32 7 in let b := le_split 32 11 in
  exists D P x ki,
    @generate_key_derivation (free_curve []) (key a) r = Ret (Some D) /\ @generate_key_derivation (free_curve []) (key r) a = Ret (Some D) /\
    @derive_public_key (free_curve []) D 3 (key b) = Ret (Some P) /\ derive_secret_key D 3 b = Ret x /\
    @secret_key_to_public_key (free_curve []) x = Some P /\
    @generate_key_image (free_curve []) P x = Ret ki /\ @validate_key_image (free_curve []) ki = true /\
    @check_signature (free_curve []) (replicate 32 9) P (@generate_signature (free_curve []) (le_split 32 13) (replicate 32 9) P x) = true.
Proof.
  exact (@output_found_and_spendable (free_curve []) (free_curve_laws []) (le_split 32 5) (le_split 32 7) (le_split 32 11) 3 (replicate 32 9) (le_split 32 13)
    (small_canonical 5 ltac:(done)) (small_canonical 7 ltac:(done)) (small_canonical 11 ltac:(done)) (small_canonical 13 ltac:(done)) ltac:(done)).
Defined.
