(* ===== verification/RingSig.v ===== *)
(** * Ring signatures: [src/src/crypto/crypto.cpp], [crypto_ops::generate_ring_signature]
    and [check_ring_signature]

    One challenge is shared out among the members of the ring: a signer can choose
    the parts of the others, and answers for what is left with the secret key. *)

From S2P Require Import Prelude Keccak Limbs Field25519 Scalar25519 Pod CryptoTypes Curve CurveModel Schnorr.

Local Open Scope curve_scope.

Section ring.
Context `{Curve}.

(** The two points of a member, as [rs_comm_entry]. *)
Definition rs_comm_entry (c r : scalar_t) (tmp3 image_unp : point_t) (pub : public_key) : list Z :=
  pt_to_public_key (mul_plus_G c r tmp3) ++ pt_to_public_key (r *' hp_key pub + c *' image_unp).

(** The buffer of the commitments and the sum of the challenges; the random
    scalars of the signer's own place are not used.  A key that is no point aborts. *)
Fixpoint generate_ring_loop (k : scalar_t) (image_unp : point_t) (sec_index : nat) (i : nat) (pubs : list public_key)
    (rnd : list (scalar_t * scalar_t)) (sum : scalar_t) : outcome (list Z * scalar_t) :=
  match pubs, rnd with
  | pub :: pubs, (c, r) :: rnd =>
      if (i =? sec_index)%nat then
        '(buf, total) ← generate_ring_loop k image_unp sec_index (S i) pubs rnd sum;
        Ret (pt_to_public_key (k *' c_point_G) ++ pt_to_public_key (k *' hp_key pub) ++ buf, total)
      else
        match pt_from_public_key pub with
        | None => Throw
        | Some tmp3 =>
            '(buf, total) ← generate_ring_loop k image_unp sec_index (S i) pubs rnd (sc_add sum c);
            Ret (rs_comm_entry c r tmp3 image_unp pub ++ buf, total)
        end
  | _, _ => Ret ([], sum)
  end.

Definition generate_ring_signature (k : scalar_t) (rnd : list (scalar_t * scalar_t)) (prefix_hash : hash) (image : key_image)
    (pubs : list public_key) (sec : secret_key) (sec_index : nat) : outcome (list signature) :=
  if negb (sec_index <? List.length pubs)%nat then Throw
  else
    match pt_from_public_key image with
    | None => Throw
    | Some image_unp =>
        '(buf, sum) ← generate_ring_loop k image_unp sec_index 0 pubs rnd sc_0;
        let h := hash_to_scalar (prefix_hash ++ buf) in
        let c := sc_sub h sum in
        Ret (<[sec_index := c ++ sc_mulsub c sec k]> (map (fun '(c, r) => c ++ r) rnd))
    end.

(** [None] is [false]. *)
Fixpoint check_ring_loop (image_unp : point_t) (pubs : list public_key) (sigs : list signature) (sum : scalar_t)
    : option (list Z * scalar_t) :=
  match pubs, sigs with
  | pub :: pubs, sig :: sigs =>
      if negb (sc_check (sig_c sig) =? 0) || negb (sc_check (sig_r sig) =? 0) then None
      else
        tmp3 ← pt_from_public_key pub;
        '(buf, total) ← check_ring_loop image_unp pubs sigs (sc_add sum (sig_c sig));
        Some (rs_comm_entry (sig_c sig) (sig_r sig) tmp3 image_unp pub ++ buf, total)
  | _, _ => Some ([], sum)
  end.

(** The caller passes as many signatures as keys. *)
Definition check_ring_signature (prefix_hash : hash) (image : key_image) (pubs : list public_key) (sigs : list signature) : bool :=
  match pt_from_public_key image with
  | None => false
  | Some image_unp =>
      match check_ring_loop image_unp pubs sigs sc_0 with
      | None => false
      | Some (buf, sum) => sc_isnonzero (sc_sub (hash_to_scalar (prefix_hash ++ buf)) sum) =? 0
      end
  end.
End ring.

(** ** A signature by a member is accepted *)

Section complete.
Context `{CurveLaws}.

(** Sums of scalars, modulo the order. *)
Definition has_value (s : scalar_t) (x : Z) : Prop := scalar s /\ same_mod (le_combine s) x.

Lemma has_value_add s x c : has_value s x -> scalar c -> has_value (sc_add s c) (x + le_combine c).
Proof.
  intros [Hs Hx] Hc. rewrite sc_add_spec by done. split; [apply scalar_split|].
  rewrite scalar_combine_split, mod_same_mod. by rewrite Hx.
Qed.

Definition signature_good (sig : signature) : Prop := canonical (sig_c sig) /\ canonical (sig_r sig).

Lemma signature_good_check sig : signature_good sig ->
  negb (sc_check (sig_c sig) =? 0) || negb (sc_check (sig_r sig) =? 0) = false.
Proof. intros [Hc Hr]. by rewrite !sc_check_canonical_0. Qed.

Lemma signature_good_parts c r : canonical c -> canonical r -> signature_good (c ++ r).
Proof. intros Hc Hr. unfold signature_good. destruct (signature_parts c r) as [-> ->]; [apply Hc|done]. Qed.

Lemma zero_difference_mod a b : scalar a -> scalar b -> same_mod (le_combine a) (le_combine b) -> (sc_isnonzero (sc_sub a b) =? 0) = true.
Proof.
  intros Ha Hb E. rewrite sc_sub_spec, sc_isnonzero_spec by (done || apply scalar_split). rewrite scalar_combine_split.
  apply sub_mod_zero in E. by rewrite E.
Qed.

Definition challenges (sigs : list signature) : Z := foldr (fun sig x => (le_combine (sig_c sig) + x)%Z) 0 sigs.

(** What the check computes, for good signatures and keys. *)
Definition points_of (pubs : list public_key) (pts : list point_t) : Prop :=
  Forall2 (fun pub p => pt_from_public_key pub = Some p) pubs pts.
Fixpoint ring_buffer (I : point_t) (pubs : list public_key) (pts : list point_t) (sigs : list signature) : list Z :=
  match pubs, pts, sigs with
  | pub :: pubs, p :: pts, sig :: sigs => rs_comm_entry (sig_c sig) (sig_r sig) p I pub ++ ring_buffer I pubs pts sigs
  | _, _, _ => []
  end.

Lemma check_ring_loop_good I pubs pts sigs sum x : points_of pubs pts -> List.length sigs = List.length pubs ->
  Forall signature_good sigs -> has_value sum x ->
  exists total, check_ring_loop I pubs sigs sum = Some (ring_buffer I pubs pts sigs, total) /\ has_value total (x + challenges sigs).
Proof.
  intros Hp. revert sigs sum x. induction Hp as [|pub p pubs pts Ep Hp IH]; intros [|sig sigs] sum x Hl Hg Hs; try done.
  - exists sum. cbn. by rewrite Z.add_0_r.
  - apply Forall_cons_1 in Hg as [Hsig Hg]. cbn [check_ring_loop]. rewrite signature_good_check by done. rewrite Ep. cbn [mbind option_bind].
    destruct (IH sigs (sc_add sum (sig_c sig)) (x + le_combine (sig_c sig))%Z) as (total & -> & Ht); [by injection Hl|done| |].
    { apply has_value_add; [done|apply Hsig]. }
    cbn. exists total. split; [done|]. by rewrite Z.add_assoc.
Qed.

(** The signer's loop makes the same buffer, if the answer at the own place opens
    both points; the sum lacks that place. *)
Lemma generate_ring_loop_spec k I s i pubs pts rnd sum x sig_s : points_of pubs pts -> List.length rnd = List.length pubs ->
  Forall (fun cr => canonical (fst cr) /\ canonical (snd cr)) rnd -> has_value sum x ->
  (forall j pub p, i + j = s -> pubs !! j = Some pub -> pts !! j = Some p ->
     rs_comm_entry (sig_c sig_s) (sig_r sig_s) p I pub = pt_to_public_key (k *' c_point_G) ++ pt_to_public_key (k *' hp_key pub))%nat ->
  let sigs := imap (fun j '(c, r) => if (i + j =? s)%nat then sig_s else c ++ r) rnd in
  exists total y, generate_ring_loop k I s i pubs rnd sum = Ret (ring_buffer I pubs pts sigs, total) /\ has_value total (x + y) /\
    challenges sigs = (y + if (i <=? s)%nat && (s <? i + List.length pubs)%nat then le_combine (sig_c sig_s) else 0)%Z.
Proof.
  intros Hp. revert i rnd sum x. induction Hp as [|pub p pubs pts Ep Hp IH]; intros i [|[c r] rnd] sum x Hl Hg Hs Hsig sigs; try done.
  - exists sum, 0. cbn. rewrite Nat.add_0_r. rewrite Z.add_0_r. split; [done|]. split; [done|].
    destruct (_ && _) eqn:E; [|done]. apply andb_prop in E as [E1%Nat.leb_le E2%Nat.ltb_lt]. lia.
  - apply Forall_cons_1 in Hg as [[Hc Hr] Hg]. cbn [generate_ring_loop].
    assert (E : sigs = (if (i =? s)%nat then sig_s else c ++ r) :: imap (fun j '(c, r) => if (S i + j =? s)%nat then sig_s else c ++ r) rnd).
    { unfold sigs. cbn. rewrite Nat.add_0_r. f_equal. apply imap_ext. intros j [c' r'] _. cbn. by rewrite Nat.add_succ_r. }
    clearbody sigs. subst sigs. destruct (Nat.eqb_spec i s) as [->|Hne].
    + destruct (IH (S s) rnd sum x) as (total & y & -> & Ht & Hy); [by injection Hl|done|done| |].
      { intros j pub' p' Hj. lia. }
      exists total, y. cbn [ring_buffer challenges foldr]. outcome_simp. cbn [fst snd].
      rewrite (Hsig 0%nat pub p) by (done || lia). rewrite <- app_assoc. split; [done|]. split; [done|]. fold (challenges (imap (fun j '(c, r) => if (S s + j =? s)%nat then sig_s else c ++ r) rnd)).
      rewrite Hy. replace (S s <=? s)%nat with false by (symmetry; apply Nat.leb_gt; lia). rewrite Nat.leb_refl.
      cbn [List.length andb]. replace (s <? s + S (List.length pubs))%nat with true by (symmetry; apply Nat.ltb_lt; lia). lia.
    + rewrite Ep. destruct (IH (S i) rnd (sc_add sum c) (x + le_combine c)%Z) as (total & y & -> & Ht & Hy);
        [by injection Hl|done|by apply has_value_add; [done|apply Hc]| |].
      { intros j pub' p' Hj Hpub Hpt. apply (Hsig (S j)); [lia|done..]. }
      exists total, (le_combine c + y)%Z. cbn [ring_buffer challenges foldr]. outcome_simp. cbn [fst snd].
      destruct (signature_parts c r) as [-> ->]; [apply Hc|]. split; [done|]. split; [by rewrite Z.add_assoc|].
      fold (challenges (imap (fun j '(c, r) => if (S i + j =? s)%nat then sig_s else c ++ r) rnd)). rewrite Hy.
      replace (S i <=? s)%nat with (i <=? s)%nat by (destruct (Nat.leb_spec i s), (Nat.leb_spec (S i) s); lia || done).
      cbn [List.length Nat.add]. rewrite Nat.add_succ_r. lia.
Qed.

Lemma opening_of_others p pub I c k sec : canonical c -> canonical sec -> scalar k ->
  p ≡ sec *' c_point_G -> I ≡ sec *' hp_key pub ->
  rs_comm_entry c (sc_mulsub c sec k) p I pub = pt_to_public_key (k *' c_point_G) ++ pt_to_public_key (k *' hp_key pub).
Proof.
  intros Hc Hs Hk Hp HI. unfold rs_comm_entry. f_equal; apply to_public_key_proper.
  - by apply mul_plus_G_opens.
  - rewrite HI, mulsub_value by auto with scalars. pose proof (order_hp pub). curve_ring_mod.
Qed.

Lemma points_exist pubs : Forall (fun pub => check_key pub = true) pubs -> exists pts, points_of pubs pts.
Proof.
  induction 1 as [|pub pubs Hpub _ (pts & IH)]; [exists []; constructor|]. unfold check_key in Hpub.
  destruct (pt_from_public_key pub) as [p|] eqn:E; [|done]. exists (p :: pts). by constructor.
Qed.
Lemma points_lookup pubs pts s pub : points_of pubs pts -> pubs !! s = Some pub ->
  exists p, pts !! s = Some p /\ pt_from_public_key pub = Some p.
Proof. intros Hp Hs. exact (Forall2_lookup_l _ _ _ _ _ Hp Hs). Qed.
Lemma value_zero : has_value sc_0 0.
Proof. split; [|done]. split; [|done]. repeat constructor; lia. Qed.

Lemma imap_insert {A B} (f : A -> B) v s l : imap (fun j a => if (0 + j =? s)%nat then v else f a) l = <[s := v]> (map f l).
Proof.
  revert s. induction l as [|a l IH]; intros s; [done|]. cbn. destruct s as [|s]; cbn; f_equal.
  - clear IH. induction l as [|b l IH]; cbn; [done|]. f_equal. rewrite <- IH. by apply imap_ext.
  - rewrite <- IH. by apply imap_ext.
Qed.

(** The signer's loop, for a member whose keys belong to the secret key. *)
Lemma generate_ring_loop_good k I s pubs pts rnd sec pub p : canonical sec -> scalar k ->
  Forall (fun cr => canonical (fst cr) /\ canonical (snd cr)) rnd -> List.length rnd = List.length pubs -> points_of pubs pts ->
  pubs !! s = Some pub -> pts !! s = Some p -> p ≡ sec *' c_point_G -> I ≡ sec *' hp_key pub ->
  exists buf total, generate_ring_loop k I s 0 pubs rnd sc_0 = Ret (buf, total) /\ scalar total /\
    forall c, canonical c -> let sigs := <[s := c ++ sc_mulsub c sec k]> (map (fun '(c, r) => c ++ r) rnd) in
      ring_buffer I pubs pts sigs = buf /\ same_mod (challenges sigs) (le_combine total + le_combine c).
Proof.
  intros Hsec Hk Hrnd Hl Hpts Hs Hp HpG HI.
  assert (G : forall c, canonical c -> let sigs := <[s := c ++ sc_mulsub c sec k]> (map (fun '(c, r) => c ++ r) rnd) in
    exists total, generate_ring_loop k I s 0 pubs rnd sc_0 = Ret (ring_buffer I pubs pts sigs, total) /\ scalar total /\
      same_mod (challenges sigs) (le_combine total + le_combine c)).
  { intros c Hc sigs. destruct (signature_parts c (sc_mulsub c sec k)) as [Ec Er]; [apply Hc|].
    destruct (generate_ring_loop_spec k I s 0 pubs pts rnd sc_0 0 (c ++ sc_mulsub c sec k) Hpts Hl Hrnd value_zero) as (total & y & E & Ht & Hy).
    - intros j pub' p' <- Hpub' Hp'. cbn in Hs, Hp. simplify_eq. rewrite Ec, Er. by apply opening_of_others.
    - replace (imap _ rnd) with sigs in E, Hy; [|symmetry; unfold sigs; rewrite <- imap_insert; by apply imap_ext; intros j [? ?]].
      destruct Ht as [Ht Hv]. exists total. split; [done|]. split; [done|]. rewrite Hv, Hy, Ec. apply lookup_lt_Some, Nat.ltb_lt in Hs.
      change (0 + List.length pubs)%nat with (List.length pubs). by rewrite Hs. }
  destruct (G sc_0) as (total & E & Ht & _); [split; [apply (proj1 value_zero)|done]|].
  eexists _, total. split; [exact E|]. split; [done|]. intros c Hc sigs.
  destruct (G c Hc) as (total' & E' & Ht' & Hy'). rewrite E in E'. by injection E' as Eb <-.
Qed.


(** A signature made with the secret key of a member of the ring, for the key
    image of that key, is accepted, whatever the message, the other members and
    the random scalars. *)
Theorem ring_signature_accepted k rnd h image pubs sec s pub :
  canonical sec -> scalar k -> Forall (fun cr => canonical (fst cr) /\ canonical (snd cr)) rnd ->
  List.length rnd = List.length pubs -> Forall (fun pub => check_key pub = true) pubs ->
  pubs !! s = Some pub -> pub = pt_to_public_key (sec *' c_point_G) -> generate_key_image pub sec = Ret image ->
  exists sigs, generate_ring_signature k rnd h image pubs sec s = Ret sigs /\ check_ring_signature h image pubs sigs = true.
Proof.
  intros Hsec Hk Hrnd Hl Hkeys Hs Hpub Himage. unfold generate_key_image in Himage. rewrite sc_check_canonical_0 in Himage by done.
  injection Himage as <-. unfold generate_ring_signature, check_ring_signature.
  destruct (from_to_public_key (sec *' hp_key pub)) as (I & -> & HI).
  assert (Hlt : (s < List.length pubs)%nat) by (by apply lookup_lt_Some in Hs). apply Nat.ltb_lt in Hlt as ->. cbn [negb].
  destruct (points_exist pubs Hkeys) as [pts Hpts]. destruct (points_lookup pubs pts s pub Hpts Hs) as (p & Hp & Ep).
  assert (HpG : p ≡ sec *' c_point_G).
  { destruct (from_to_public_key (sec *' c_point_G)) as (q & Eq & Hq). rewrite <- Hpub in Eq. by simplify_eq. }
  destruct (generate_ring_loop_good k I s pubs pts rnd sec pub p) as (buf & total & -> & Ht & Hsigs); [done..|].
  outcome_simp. set (hc := hash_to_scalar _). assert (Hhc : canonical hc) by apply hash_to_scalar_canonical.
  assert (Hc : canonical (sc_sub hc total)) by (rewrite sc_sub_spec by auto with scalars; apply canonical_split).
  destruct (Hsigs _ Hc) as [Hbuf Hsum]. eexists. split; [done|].
  match goal with |- context [check_ring_loop I pubs ?l sc_0] => set (sigs := l) in * end.
  destruct (check_ring_loop_good I pubs pts sigs sc_0 0) as (sum & -> & Hsum'); [done|..|apply value_zero|].
  { unfold sigs. by rewrite length_insert, length_map. }
  { unfold sigs. apply Forall_insert.
    - apply Forall_map. eapply Forall_impl; [exact Hrnd|]. intros [c r] [Hc' Hr']. by apply signature_good_parts.
    - apply signature_good_parts; auto with scalars. }
  rewrite Hbuf. fold hc.
  apply zero_difference_mod; [by destruct Hhc|by destruct Hsum'|]. destruct Hsum' as [_ ->]. rewrite Hsum, sc_sub_spec by auto with scalars.
  rewrite scalar_combine_split. mod_ring.
Qed.
End complete.

(** A ring of two keys, the signer's at index 1. *)
Example ring_signature_accepted_witness :
  let key n := @pt_to_public_key (free_curve []) (n • c_point_G) in
  let image := @pt_to_public_key (free_curve []) (le_split 32 7 *' hp_key (key 7)) in
  exists sigs, @generate_ring_signature (free_curve []) (le_split 32 13) [(le_split 32 3, le_split 32 4); (le_split 32 5, le_split 32 6)]
      (replicate 32 9) image [key 11; key 7] (le_split 32 7) 1 = Ret sigs /\
    @check_ring_signature (free_curve []) (replicate 32 9) image [key 11; key 7] sigs = true.
Proof.
  intros key image. apply (@ring_signature_accepted (free_curve []) (free_curve_laws [])) with (pub := key 7).
  - by apply small_canonical.
  - by apply small_canonical.
  - repeat (apply Forall_cons; split; [split; by apply small_canonical|]). by apply Forall_nil_2.
  - done.
  - repeat (apply Forall_cons; split; [by vm_compute|]). by apply Forall_nil_2.
  - done.
  - done.
  - unfold generate_key_image. by rewrite sc_check_canonical_0 by by apply small_canonical.
Defined.
