(* ===== verification/Clsag.v ===== *)
(** * Ring signatures of confidential outputs: [src/src/crypto/clsag.cpp]

    The keys of a member of the ring, its hidden amount and its hidden asset are
    folded into two aggregate keys, one over each of the generators G and X; the
    challenges go round the ring, each computed from the one before.  The layers
    differ between the signature of a transfer (GGX) and that of a stake (GGXXG),
    the ring is the same. *)

From S2P Require Import Prelude Keccak Limbs Field25519 Scalar25519 Pod CryptoTypes Curve CurveModel Schnorr.

Local Open Scope curve_scope.

Definition domain (s : string) : list Z := chars s ++ [0].
Definition CRYPTO_HDS_CLSAG_GGX_LAYER_0 : list Z := domain "ZANO_HDS_CLSAG_GGX_LAYER_ZERO__".
Definition CRYPTO_HDS_CLSAG_GGX_LAYER_1 : list Z := domain "ZANO_HDS_CLSAG_GGX_LAYER_ONE___".
Definition CRYPTO_HDS_CLSAG_GGX_LAYER_2 : list Z := domain "ZANO_HDS_CLSAG_GGX_LAYER_TWO___".
Definition CRYPTO_HDS_CLSAG_GGX_CHALLENGE : list Z := domain "ZANO_HDS_CLSAG_GGX_CHALLENGE___".
Definition CRYPTO_HDS_CLSAG_GGXXG_LAYER_0 : list Z := domain "ZANO_HDS_CLSAG_GGXXG_LAYER_ZERO".
Definition CRYPTO_HDS_CLSAG_GGXXG_LAYER_1 : list Z := domain "ZANO_HDS_CLSAG_GGXXG_LAYER_ONE_".
Definition CRYPTO_HDS_CLSAG_GGXXG_LAYER_2 : list Z := domain "ZANO_HDS_CLSAG_GGXXG_LAYER_TWO_".
Definition CRYPTO_HDS_CLSAG_GGXXG_LAYER_3 : list Z := domain "ZANO_HDS_CLSAG_GGXXG_LAYER_3___".
Definition CRYPTO_HDS_CLSAG_GGXXG_LAYER_4 : list Z := domain "ZANO_HDS_CLSAG_GGXXG_LAYER_FOUR".
Definition CRYPTO_HDS_CLSAG_GGXXG_CHALLENGE : list Z := domain "ZANO_HDS_CLSAG_GGXXG_CHALLENGE_".

(** [0x0600000000000000000000000000000007d39db37d1cdad06106e529e2dc2f79]. *)
Definition c_scalar_1div8 : scalar_t :=
  le_split 32 (0x6106e529e2dc2f79 + 0x07d39db37d1cdad0 * 2 ^ 64 + 0x0600000000000000 * 2 ^ 192).

Record CLSAG_GGX_input_ref : Type := { ir_stealth_address : public_key; ir_amount_commitment : public_key; ir_blinded_asset_id : public_key }.
Record CLSAG_GGXXG_input_ref : Type := { ir_ggx : CLSAG_GGX_input_ref; ir_concealing_point : public_key }.

(** A member: [hp] of its address, and its aggregate keys. *)
Record ring_member `{Curve} : Type := { rm_hp : point_t; rm_W_pub_key_g : point_t; rm_W_pub_key_x : point_t }.

Section clsag.
Context `{Curve}.

(** [point_t(const public_key&)], which may throw. *)
Definition to_point (k : public_key) : outcome point_t := match pt_from_public_key k with Some p => Ret p | None => Throw end.

Definition agg_coeff (layer : list Z) (input_hash : hash) : scalar_t := calc_hash [layer; input_hash].

(** ** The ring *)

Section rounds.
Context (challenge_domain : list Z) (input_hash : hash) (W_key_image_g W_key_image_x : point_t).

(** [c_{i + 1}]. *)
Definition challenge (p1 p2 p3 p4 : point_t) : scalar_t :=
  calc_hash [challenge_domain; input_hash; pt_to_public_key p1; pt_to_public_key p2; pt_to_public_key p3; pt_to_public_key p4].
Definition ring_step (m : ring_member) (r_g r_x c_prev : scalar_t) : scalar_t :=
  challenge (r_g *' c_point_G + c_prev *' rm_W_pub_key_g m) (r_g *' rm_hp m + c_prev *' W_key_image_g)
            (r_x *' c_point_X + c_prev *' rm_W_pub_key_x m) (r_x *' rm_hp m + c_prev *' W_key_image_x).

Fixpoint verify_rounds (ring : list ring_member) (r_g r_x : list scalar_t) (c_prev : scalar_t) : scalar_t :=
  match ring, r_g, r_x with
  | m :: ring, g :: r_g, x :: r_x => verify_rounds ring r_g r_x (ring_step m g x c_prev)
  | _, _, _ => c_prev
  end.

(** The step at an index. *)
Definition step_at (ring : list ring_member) (r_g r_x : list scalar_t) (i : nat) (c_prev : scalar_t) : scalar_t :=
  match ring !! i, r_g !! i, r_x !! i with
  | Some m, Some g, Some x => ring_step m g x c_prev
  | _, _, _ => c_prev
  end.

(** [j] rounds from the index [i]: the challenge reached, and [sig.c]. *)
Fixpoint generate_rounds (step : nat -> scalar_t -> scalar_t) (ring_size j i : nat) (c_prev sig_c : scalar_t) : scalar_t * scalar_t :=
  match j with
  | O => (c_prev, sig_c)
  | S j => generate_rounds step ring_size j ((i + 1) mod ring_size)%nat (step i c_prev) (if (i =? 0)%nat then c_prev else sig_c)
  end.

(** [sig.c], [sig.r_g] and [sig.r_x]. *)
Definition generate_ring (ring : list ring_member) (ki_base : point_t) (w_sec_key_g w_sec_key_x alpha_g alpha_x : scalar_t)
    (rnd_g rnd_x : list scalar_t) (secret_index : nat) : scalar_t * list scalar_t * list scalar_t :=
  let ring_size := List.length ring in
  let c_start := challenge (alpha_g *' c_point_G) (alpha_g *' ki_base) (alpha_x *' c_point_X) (alpha_x *' ki_base) in
  let '(c_prev, sig_c) := generate_rounds (step_at ring rnd_g rnd_x) ring_size (ring_size - 1) ((secret_index + 1) mod ring_size)%nat c_start sc_0 in
  let sig_c := if (secret_index =? 0)%nat then c_prev else sig_c in
  (sig_c, <[secret_index := sc_sub alpha_g (sc_mul c_prev w_sec_key_g)]> rnd_g,
          <[secret_index := sc_sub alpha_x (sc_mul c_prev w_sec_key_x)]> rnd_x).
End rounds.

(** ** GGX: transfers *)

Definition GGX_input_hash (m : hash) (ring : list CLSAG_GGX_input_ref) (pseudo_out_amount_commitment pseudo_out_blinded_asset_id : public_key)
    (ki : key_image) (K1 K2 : public_key) : hash :=
  calc_hash_no_reduce
    (m :: flat_map (fun r => [ir_stealth_address r; ir_amount_commitment r; ir_blinded_asset_id r]) ring ++
     [pseudo_out_amount_commitment; pseudo_out_blinded_asset_id; ki; K1; K2]).

Definition GGX_member (agg_coeff_0 agg_coeff_1 agg_coeff_2 : scalar_t) (pseudo_out_amount_commitment pseudo_out_blinded_asset_id : point_t)
    (r : CLSAG_GGX_input_ref) : outcome ring_member :=
  P ← to_point (ir_stealth_address r);
  A ← to_point (ir_amount_commitment r);
  Q ← to_point (ir_blinded_asset_id r);
  let A_i := pt_mul8 A in
  let Q_i := pt_mul8 Q in
  Ret {| rm_hp := hp_key (ir_stealth_address r);
         rm_W_pub_key_g := agg_coeff_0 *' P + agg_coeff_1 *' (A_i - pseudo_out_amount_commitment);
         rm_W_pub_key_x := agg_coeff_2 *' (Q_i - pseudo_out_blinded_asset_id) |}.

(** The assertions of the debug build are left out; the random scalars are
    arguments. *)
Definition generate_CLSAG_GGX (alpha_g alpha_x : scalar_t) (rnd_g rnd_x : list scalar_t) (m : hash) (ring : list CLSAG_GGX_input_ref)
    (pseudo_out_amount_commitment pseudo_out_blinded_asset_id : point_t) (ki : key_image)
    (secret_0_xp secret_1_f secret_2_t : scalar_t) (secret_index : nat) : outcome CLSAG_GGX_signature_serialized :=
  match ring !! secret_index with
  | None => Throw
  | Some r =>
      let ki_base := hp_key (ir_stealth_address r) in
      let key_image := secret_0_xp *' ki_base in
      let K1_div8 := sc_mul c_scalar_1div8 secret_1_f *' ki_base in
      let K2_div8 := sc_mul c_scalar_1div8 secret_2_t *' ki_base in
      let sig_K1 := pt_to_public_key K1_div8 in
      let sig_K2 := pt_to_public_key K2_div8 in
      let K1 := pt_mul8 K1_div8 in
      let K2 := pt_mul8 K2_div8 in
      let input_hash := GGX_input_hash m ring (pt_to_public_key (c_scalar_1div8 *' pseudo_out_amount_commitment))
                          (pt_to_public_key (c_scalar_1div8 *' pseudo_out_blinded_asset_id)) ki sig_K1 sig_K2 in
      let agg_coeff_0 := agg_coeff CRYPTO_HDS_CLSAG_GGX_LAYER_0 input_hash in
      let agg_coeff_1 := agg_coeff CRYPTO_HDS_CLSAG_GGX_LAYER_1 input_hash in
      let agg_coeff_2 := agg_coeff CRYPTO_HDS_CLSAG_GGX_LAYER_2 input_hash in
      members ← mapM (GGX_member agg_coeff_0 agg_coeff_1 agg_coeff_2 pseudo_out_amount_commitment pseudo_out_blinded_asset_id) ring;
      let w_sec_key_g := sc_add (sc_mul agg_coeff_0 secret_0_xp) (sc_mul agg_coeff_1 secret_1_f) in
      let w_sec_key_x := sc_mul agg_coeff_2 secret_2_t in
      let W_key_image_g := agg_coeff_0 *' key_image + agg_coeff_1 *' K1 in
      let W_key_image_x := agg_coeff_2 *' K2 in
      let '(c, r_g, r_x) := generate_ring CRYPTO_HDS_CLSAG_GGX_CHALLENGE input_hash W_key_image_g W_key_image_x members ki_base
                              w_sec_key_g w_sec_key_x alpha_g alpha_x rnd_g rnd_x secret_index in
      Ret {| ggx_c := c; ggx_r_g := r_g; ggx_r_x := r_x; ggx_K1 := sig_K1; ggx_K2 := sig_K2 |}
  end.

Definition verify_CLSAG_GGX (m : hash) (ring : list CLSAG_GGX_input_ref) (pseudo_out_amount_commitment pseudo_out_blinded_asset_id : public_key)
    (ki : key_image) (sig : CLSAG_GGX_signature_serialized) : outcome bool :=
  let ring_size := List.length ring in
  if (ring_size =? 0)%nat || negb (ring_size =? List.length (ggx_r_g sig))%nat || negb (ring_size =? List.length (ggx_r_x sig))%nat then Throw
  else
    key_image ← to_point ki;
    if negb (in_main_subgroup key_image) then Throw
    else
      pseudo_out_amount_commitment_pt ← to_point pseudo_out_amount_commitment;
      pseudo_out_blinded_asset_id_pt ← to_point pseudo_out_blinded_asset_id;
      let input_hash := GGX_input_hash m ring pseudo_out_amount_commitment pseudo_out_blinded_asset_id ki (ggx_K1 sig) (ggx_K2 sig) in
      let agg_coeff_0 := agg_coeff CRYPTO_HDS_CLSAG_GGX_LAYER_0 input_hash in
      let agg_coeff_1 := agg_coeff CRYPTO_HDS_CLSAG_GGX_LAYER_1 input_hash in
      let agg_coeff_2 := agg_coeff CRYPTO_HDS_CLSAG_GGX_LAYER_2 input_hash in
      members ← mapM (GGX_member agg_coeff_0 agg_coeff_1 agg_coeff_2 (pt_mul8 pseudo_out_amount_commitment_pt)
                        (pt_mul8 pseudo_out_blinded_asset_id_pt)) ring;
      K1 ← to_point (ggx_K1 sig);
      K2 ← to_point (ggx_K2 sig);
      let W_key_image_g := agg_coeff_0 *' key_image + agg_coeff_1 *' pt_mul8 K1 in
      let W_key_image_x := agg_coeff_2 *' pt_mul8 K2 in
      Ret (bool_decide (verify_rounds CRYPTO_HDS_CLSAG_GGX_CHALLENGE input_hash W_key_image_g W_key_image_x members
                          (ggx_r_g sig) (ggx_r_x sig) (ggx_c sig) = ggx_c sig)).

(** ** GGXXG: stakes *)

Definition GGXXG_input_hash (m : hash) (ring : list CLSAG_GGXXG_input_ref)
    (pseudo_out_amount_commitment pseudo_out_blinded_asset_id extended_amount_commitment : public_key)
    (ki : key_image) (K1 K2 K3 K4 : public_key) : hash :=
  calc_hash_no_reduce
    (m :: flat_map (fun r => [ir_stealth_address (ir_ggx r); ir_amount_commitment (ir_ggx r); ir_blinded_asset_id (ir_ggx r);
                              ir_concealing_point r]) ring ++
     [pseudo_out_amount_commitment; pseudo_out_blinded_asset_id; extended_amount_commitment; ki; K1; K2; K3; K4]).

Definition GGXXG_member (agg_coeff_0 agg_coeff_1 agg_coeff_2 agg_coeff_3 agg_coeff_4 : scalar_t)
    (pseudo_out_amount_commitment pseudo_out_blinded_asset_id extended_amount_commitment : point_t) (r : CLSAG_GGXXG_input_ref)
    : outcome ring_member :=
  S ← to_point (ir_stealth_address (ir_ggx r));
  A ← to_point (ir_amount_commitment (ir_ggx r));
  P ← to_point (ir_blinded_asset_id (ir_ggx r));
  Q ← to_point (ir_concealing_point r);
  let A_i := pt_mul8 A in
  let P_i := pt_mul8 P in
  let Q_i := pt_mul8 Q in
  Ret {| rm_hp := hp_key (ir_stealth_address (ir_ggx r));
         rm_W_pub_key_g := agg_coeff_0 *' S + agg_coeff_1 *' (A_i - pseudo_out_amount_commitment) + agg_coeff_4 *' Q_i;
         rm_W_pub_key_x := agg_coeff_2 *' (P_i - pseudo_out_blinded_asset_id) + agg_coeff_3 *' (extended_amount_commitment - A_i - Q_i) |}.

Definition generate_CLSAG_GGXXG (alpha_g alpha_x : scalar_t) (rnd_g rnd_x : list scalar_t) (m : hash) (ring : list CLSAG_GGXXG_input_ref)
    (pseudo_out_amount_commitment pseudo_out_blinded_asset_id extended_amount_commitment : point_t) (ki : key_image)
    (secret_0_xp secret_1_f secret_2_t secret_3_x secret_4_q : scalar_t) (secret_index : nat)
    : outcome CLSAG_GGXXG_signature_serialized :=
  match ring !! secret_index with
  | None => Throw
  | Some r =>
      let ki_base := hp_key (ir_stealth_address (ir_ggx r)) in
      let key_image := secret_0_xp *' ki_base in
      let K1_div8 := sc_mul c_scalar_1div8 secret_1_f *' ki_base in
      let K2_div8 := sc_mul c_scalar_1div8 secret_2_t *' ki_base in
      let K3_div8 := sc_mul c_scalar_1div8 secret_3_x *' ki_base in
      let K4_div8 := sc_mul c_scalar_1div8 secret_4_q *' ki_base in
      let sig_K1 := pt_to_public_key K1_div8 in
      let sig_K2 := pt_to_public_key K2_div8 in
      let sig_K3 := pt_to_public_key K3_div8 in
      let sig_K4 := pt_to_public_key K4_div8 in
      let input_hash := GGXXG_input_hash m ring (pt_to_public_key (c_scalar_1div8 *' pseudo_out_amount_commitment))
                          (pt_to_public_key (c_scalar_1div8 *' pseudo_out_blinded_asset_id))
                          (pt_to_public_key (c_scalar_1div8 *' extended_amount_commitment)) ki sig_K1 sig_K2 sig_K3 sig_K4 in
      let agg_coeff_0 := agg_coeff CRYPTO_HDS_CLSAG_GGXXG_LAYER_0 input_hash in
      let agg_coeff_1 := agg_coeff CRYPTO_HDS_CLSAG_GGXXG_LAYER_1 input_hash in
      let agg_coeff_2 := agg_coeff CRYPTO_HDS_CLSAG_GGXXG_LAYER_2 input_hash in
      let agg_coeff_3 := agg_coeff CRYPTO_HDS_CLSAG_GGXXG_LAYER_3 input_hash in
      let agg_coeff_4 := agg_coeff CRYPTO_HDS_CLSAG_GGXXG_LAYER_4 input_hash in
      members ← mapM (GGXXG_member agg_coeff_0 agg_coeff_1 agg_coeff_2 agg_coeff_3 agg_coeff_4
                        pseudo_out_amount_commitment pseudo_out_blinded_asset_id extended_amount_commitment) ring;
      let w_sec_key_g := sc_add (sc_add (sc_mul agg_coeff_0 secret_0_xp) (sc_mul agg_coeff_1 secret_1_f)) (sc_mul agg_coeff_4 secret_4_q) in
      let w_sec_key_x := sc_add (sc_mul agg_coeff_2 secret_2_t) (sc_mul agg_coeff_3 secret_3_x) in
      let W_key_image_g := agg_coeff_0 *' key_image + agg_coeff_1 *' pt_mul8 K1_div8 + agg_coeff_4 *' pt_mul8 K4_div8 in
      let W_key_image_x := agg_coeff_2 *' pt_mul8 K2_div8 + agg_coeff_3 *' pt_mul8 K3_div8 in
      let '(c, r_g, r_x) := generate_ring CRYPTO_HDS_CLSAG_GGXXG_CHALLENGE input_hash W_key_image_g W_key_image_x members ki_base
                              w_sec_key_g w_sec_key_x alpha_g alpha_x rnd_g rnd_x secret_index in
      Ret {| ggxxg_c := c; ggxxg_r_g := r_g; ggxxg_r_x := r_x; ggxxg_K1 := sig_K1; ggxxg_K2 := sig_K2; ggxxg_K3 := sig_K3;
             ggxxg_K4 := sig_K4 |}
  end.

Definition verify_CLSAG_GGXXG (m : hash) (ring : list CLSAG_GGXXG_input_ref)
    (pseudo_out_amount_commitment pseudo_out_blinded_asset_id extended_amount_commitment : public_key) (ki : key_image)
    (sig : CLSAG_GGXXG_signature_serialized) : outcome bool :=
  let ring_size := List.length ring in
  if (ring_size =? 0)%nat || negb (ring_size =? List.length (ggxxg_r_g sig))%nat || negb (ring_size =? List.length (ggxxg_r_x sig))%nat
  then Throw
  else
    key_image ← to_point ki;
    if negb (in_main_subgroup key_image) then Throw
    else
      pseudo_out_amount_commitment_pt ← to_point pseudo_out_amount_commitment;
      pseudo_out_blinded_asset_id_pt ← to_point pseudo_out_blinded_asset_id;
      extended_amount_commitment_pt ← to_point extended_amount_commitment;
      let input_hash := GGXXG_input_hash m ring pseudo_out_amount_commitment pseudo_out_blinded_asset_id extended_amount_commitment ki
                          (ggxxg_K1 sig) (ggxxg_K2 sig) (ggxxg_K3 sig) (ggxxg_K4 sig) in
      let agg_coeff_0 := agg_coeff CRYPTO_HDS_CLSAG_GGXXG_LAYER_0 input_hash in
      let agg_coeff_1 := agg_coeff CRYPTO_HDS_CLSAG_GGXXG_LAYER_1 input_hash in
      let agg_coeff_2 := agg_coeff CRYPTO_HDS_CLSAG_GGXXG_LAYER_2 input_hash in
      let agg_coeff_3 := agg_coeff CRYPTO_HDS_CLSAG_GGXXG_LAYER_3 input_hash in
      let agg_coeff_4 := agg_coeff CRYPTO_HDS_CLSAG_GGXXG_LAYER_4 input_hash in
      members ← mapM (GGXXG_member agg_coeff_0 agg_coeff_1 agg_coeff_2 agg_coeff_3 agg_coeff_4 (pt_mul8 pseudo_out_amount_commitment_pt)
                        (pt_mul8 pseudo_out_blinded_asset_id_pt) (pt_mul8 extended_amount_commitment_pt)) ring;
      K1 ← to_point (ggxxg_K1 sig);
      K2 ← to_point (ggxxg_K2 sig);
      K3 ← to_point (ggxxg_K3 sig);
      K4 ← to_point (ggxxg_K4 sig);
      let W_key_image_g := agg_coeff_0 *' key_image + agg_coeff_1 *' pt_mul8 K1 + agg_coeff_4 *' pt_mul8 K4 in
      let W_key_image_x := agg_coeff_2 *' pt_mul8 K2 + agg_coeff_3 *' pt_mul8 K3 in
      Ret (bool_decide (verify_rounds CRYPTO_HDS_CLSAG_GGXXG_CHALLENGE input_hash W_key_image_g W_key_image_x members
                          (ggxxg_r_g sig) (ggxxg_r_x sig) (ggxxg_c sig) = ggxxg_c sig)).

End clsag.

#[global] Strategy 1000 [agg_coeff challenge GGX_input_hash GGXXG_input_hash sc_mul le_combine c_scalar_1div8].

(** ** The challenges close the ring *)

Definition rounds (step : nat -> scalar_t -> scalar_t) (i k : nat) (c : scalar_t) : scalar_t := fold_left (fun c i => step i c) (seq i k) c.

Lemma rounds_add step i k l c : rounds step i (k + l) c = rounds step (i + k) l (rounds step i k c).
Proof. unfold rounds. by rewrite seq_app, fold_left_app. Qed.
Lemma rounds_S step i k c : rounds step i (S k) c = rounds step (S i) k (step i c).
Proof. done. Qed.
Lemma rounds_ext step step' i k c : (forall j c, (i <= j < i + k)%nat -> step j c = step' j c) -> rounds step i k c = rounds step' i k c.
Proof.
  revert i c. induction k as [|k IH]; intros i c Hs; [done|]. rewrite !rounds_S, Hs by lia. apply IH. intros j c' Hj. apply Hs. lia.
Qed.

Section closing.
Context (step : nat -> scalar_t -> scalar_t) (n : nat).

(** Up to the end of the ring, and from its start. *)
Lemma rounds_to_end k j i c sig_c : (0 < i)%nat -> (i + k <= n)%nat ->
  generate_rounds step n (k + j) i c sig_c =
    generate_rounds step n j (if (k =? 0)%nat then i else (i + k) mod n)%nat (rounds step i k c) sig_c.
Proof.
  revert i c. induction k as [|k IH]; intros i c Hi Hn; [done|]. cbn [Nat.add generate_rounds Nat.eqb].
  replace (i =? 0)%nat with false by (symmetry; apply Nat.eqb_neq; lia). rewrite rounds_S.
  destruct k as [|k].
  - by cbn.
  - rewrite Nat.mod_small by lia. replace (i + 1)%nat with (S i) by lia. rewrite IH by lia. cbn [Nat.eqb].
    by replace (S i + S k)%nat with (i + S (S k))%nat by lia.
Qed.

Lemma rounds_from_start k c sig_c : (k < n)%nat ->
  generate_rounds step n k 0 c sig_c = (rounds step 0 k c, if (k =? 0)%nat then sig_c else c).
Proof.
  intros Hk. destruct k as [|[|k]]; [done..|]. change (generate_rounds step n (S (S k)) 0 c sig_c)
    with (generate_rounds step n (S k) ((0 + 1) mod n)%nat (step 0%nat c) c).
  rewrite Nat.mod_small by lia. pose proof (rounds_to_end (S k) 0 1 (step 0%nat c) c ltac:(lia) ltac:(lia)) as E.
  by rewrite Nat.add_0_r in E.
Qed.

Lemma generate_rounds_eq s c : (s < n)%nat -> let c' := rounds step (S s) (n - 1 - s) c in
  generate_rounds step n (n - 1) ((s + 1) mod n)%nat c sc_0 = (rounds step 0 s c', if (s =? 0)%nat then sc_0 else c').
Proof.
  intros Hs. destruct (decide (s = n - 1)%nat) as [->|Hne].
  - replace ((n - 1 + 1) mod n)%nat with 0%nat by (replace (n - 1 + 1)%nat with n by lia; by rewrite Nat.Div0.mod_same).
    rewrite Nat.sub_diag. by apply rounds_from_start; lia.
  - rewrite Nat.mod_small by lia. pose proof (rounds_to_end (n - 1 - s) s (s + 1) c sc_0 ltac:(lia) ltac:(lia)) as E.
    replace (n - 1 - s + s)%nat with (n - 1)%nat in E by lia. rewrite E.
    replace (n - 1 - s =? 0)%nat with false by (symmetry; apply Nat.eqb_neq; lia).
    replace ((s + 1 + (n - 1 - s)) mod n)%nat with 0%nat by (replace (s + 1 + (n - 1 - s))%nat with n by lia; by rewrite Nat.Div0.mod_same).
    rewrite rounds_from_start by lia. by replace (s + 1)%nat with (S s) by lia.
Qed.

(** The signer's own challenge follows from [sig.c], and [sig.c] from the first
    one after it. *)
Lemma generate_rounds_spec s c : (s < n)%nat ->
  let '(c_prev, sig_c) := generate_rounds step n (n - 1) ((s + 1) mod n)%nat c sc_0 in
  let c0 := if (s =? 0)%nat then c_prev else sig_c in
  c0 = rounds step (S s) (n - 1 - s) c /\ c_prev = rounds step 0 s c0.
Proof. intros Hs. rewrite generate_rounds_eq by done. by destruct (Nat.eqb_spec s 0) as [->|]. Qed.

(** With the signer's step leading from the own challenge to the first one after
    it, going round from [sig.c] comes back to it. *)
Lemma rounds_close step' s c : (s < n)%nat -> (forall i c, i <> s -> step' i c = step i c) ->
  let '(c_prev, sig_c) := generate_rounds step n (n - 1) ((s + 1) mod n)%nat c sc_0 in
  let c0 := if (s =? 0)%nat then c_prev else sig_c in
  step' s c_prev = c -> rounds step' 0 n c0 = c0.
Proof.
  intros Hs Hstep. pose proof (generate_rounds_spec s c Hs) as Hg. destruct (generate_rounds _ _ _ _ _ _) as [c_prev sig_c].
  cbv zeta in *. destruct Hg as [H1 H2]. intros H3. set (c0 := if (s =? 0)%nat then c_prev else sig_c) in *.
  replace n with (s + S (n - 1 - s))%nat by lia. rewrite rounds_add, rounds_S. cbn [Nat.add].
  rewrite (rounds_ext step' step 0 s) by (intros; apply Hstep; lia). rewrite <- H2, H3.
  rewrite (rounds_ext step' step) by (intros; apply Hstep; lia). exact (eq_sym H1).
Qed.
End closing.

(** ** A ring made by a member closes *)

Section complete.
Context `{CurveLaws}.

Definition member_equiv (m m' : ring_member) : Prop :=
  rm_hp m ≡ rm_hp m' /\ rm_W_pub_key_g m ≡ rm_W_pub_key_g m' /\ rm_W_pub_key_x m ≡ rm_W_pub_key_x m'.

Lemma fold_left_map_nat {A} (f : A -> nat -> A) (g : nat -> nat) l a : fold_left f (map g l) a = fold_left (fun a i => f a (g i)) l a.
Proof. revert a. induction l as [|i l IH]; intros a; [done|]. apply IH. Qed.

Lemma ring_step_proper dom ih Kg Kg' Kx Kx' m m' g x c : Kg ≡ Kg' -> Kx ≡ Kx' -> member_equiv m m' ->
  ring_step dom ih Kg Kx m g x c = ring_step dom ih Kg' Kx' m' g x c.
Proof. intros Hg Hx (H1 & H2 & H3). unfold ring_step, challenge. hash_items; by rewrite ?H1, ?H2, ?H3, ?Hg, ?Hx. Qed.

Lemma verify_rounds_steps dom ih Kg Kx ring r_g r_x c : List.length r_g = List.length ring -> List.length r_x = List.length ring ->
  verify_rounds dom ih Kg Kx ring r_g r_x c = rounds (step_at dom ih Kg Kx ring r_g r_x) 0 (List.length ring) c.
Proof.
  revert r_g r_x c. induction ring as [|m ring IH]; intros [|g r_g] [|x r_x] c Hg Hx; try done.
  cbn [verify_rounds List.length] in *. rewrite rounds_S, IH by lia. unfold rounds.
  by rewrite <- seq_shift, fold_left_map_nat.
Qed.

Lemma generate_rounds_scalar step n j i c sig_c : (forall i c, scalar c -> scalar (step i c)) -> scalar c ->
  scalar (generate_rounds step n j i c sig_c).1.
Proof. intros Hs. revert i c sig_c. induction j as [|j IH]; intros i c sig_c Hc; [done|]. cbn [generate_rounds]. auto. Qed.
Lemma step_at_scalar dom ih Kg Kx ring r_g r_x i c : scalar c -> scalar (step_at dom ih Kg Kx ring r_g r_x i c).
Proof. intros Hc. unfold step_at, ring_step, challenge. repeat case_match; auto with scalars. Qed.

Lemma w_sec_opens alpha c w p W : scalar alpha -> scalar c -> scalar w -> l25519 • p ≡ c_point_0 -> W ≡ w *' p ->
  sc_sub alpha (sc_mul c w) *' p + c *' W ≡ alpha *' p.
Proof.
  intros Ha Hc Hw Hp HW. rewrite HW, sc_mul_spec by done. rewrite sc_sub_spec by (done || apply scalar_split).
  rewrite !scalar_combine_split. curve_ring_mod.
Qed.

(** The secret of the ring: both aggregate keys and both aggregate images of the
    signer are multiples by the aggregate secret keys. *)
Record ring_secret (ring : list ring_member) (Kg Kx : point_t) (w_g w_x : scalar_t) (s : nat) (m : ring_member) : Prop := {
  rs_member : ring !! s = Some m;
  rs_order : l25519 • rm_hp m ≡ c_point_0;
  rs_scalars : scalar w_g /\ scalar w_x;
  rs_key_g : rm_W_pub_key_g m ≡ w_g *' c_point_G;
  rs_key_x : rm_W_pub_key_x m ≡ w_x *' c_point_X;
  rs_image_g : Kg ≡ w_g *' rm_hp m;
  rs_image_x : Kx ≡ w_x *' rm_hp m
}.

Lemma ring_accepted dom ih Kg Kx ring w_g w_x s m alpha_g alpha_x rnd_g rnd_x : ring_secret ring Kg Kx w_g w_x s m ->
  scalar alpha_g -> scalar alpha_x -> List.length rnd_g = List.length ring -> List.length rnd_x = List.length ring ->
  let '(c, r_g, r_x) := generate_ring dom ih Kg Kx ring (rm_hp m) w_g w_x alpha_g alpha_x rnd_g rnd_x s in
  List.length r_g = List.length ring /\ List.length r_x = List.length ring /\ verify_rounds dom ih Kg Kx ring r_g r_x c = c.
Proof.
  intros [Hm Ho [Hwg Hwx] HWg HWx HKg HKx] Hag Hax Hg Hx. unfold generate_ring.
  assert (Hs : (s < List.length ring)%nat) by (by apply lookup_lt_Some in Hm).
  set (start := challenge dom ih (alpha_g *' c_point_G) _ _ _).
  pose proof (fun step' => rounds_close (step_at dom ih Kg Kx ring rnd_g rnd_x) (List.length ring) step' s start Hs) as Hclose.
  destruct (generate_rounds _ _ _ _ _ _) as [c_prev sig_c] eqn:E.
  split; [by rewrite length_insert|]. split; [by rewrite length_insert|].
  rewrite verify_rounds_steps by by rewrite length_insert. apply Hclose.
  - intros i c Hi. unfold step_at. by rewrite !list_lookup_insert_ne.
  - unfold step_at. rewrite Hm, !list_lookup_insert_eq by congruence. unfold ring_step, start.
    assert (Hc : scalar c_prev).
    { pose proof (generate_rounds_scalar (step_at dom ih Kg Kx ring rnd_g rnd_x) (List.length ring)
        (List.length ring - 1) ((s + 1) mod List.length ring)%nat start sc_0) as Hsc.
      rewrite E in Hsc. apply Hsc; [apply step_at_scalar|unfold start, challenge; auto with scalars]. }
    unfold challenge. hash_items.
    + apply w_sec_opens; auto with scalars. apply order_G.
    + by apply w_sec_opens.
    + apply w_sec_opens; auto with scalars. apply order_X.
    + by apply w_sec_opens.
Qed.
(** *** Values of the scalars *)

Lemma mul_value a b : scalar a -> scalar b -> le_combine (sc_mul a b) = (le_combine a * le_combine b) mod l25519.
Proof. intros. by rewrite sc_mul_spec, scalar_combine_split. Qed.
Lemma add_value a b : scalar a -> scalar b -> le_combine (sc_add a b) = (le_combine a + le_combine b) mod l25519.
Proof. intros. by rewrite sc_add_spec, scalar_combine_split. Qed.
Lemma sc_mul_scalar a b : scalar a -> scalar b -> scalar (sc_mul a b).
Proof. intros. rewrite sc_mul_spec by done. apply scalar_split. Qed.
Lemma sc_add_scalar a b : scalar a -> scalar b -> scalar (sc_add a b).
Proof. intros. rewrite sc_add_spec by done. apply scalar_split. Qed.
Lemma c_scalar_1div8_scalar : scalar c_scalar_1div8.
Proof. apply scalar_split. Qed.
Hint Resolve sc_mul_scalar sc_add_scalar c_scalar_1div8_scalar : scalars.

Lemma mul8_div8 p : l25519 • p ≡ c_point_0 -> pt_mul8 (c_scalar_1div8 *' p) ≡ p.
Proof.
  intros Hp. rewrite mul8_mul, mul_mul. rewrite <- (mul_1_l p) at 2. apply mul_same_mod; [done|]. by vm_compute.
Qed.
Lemma mul8_div8_secret f p : scalar f -> l25519 • p ≡ c_point_0 -> pt_mul8 (sc_mul c_scalar_1div8 f *' p) ≡ f *' p.
Proof.
  intros Hf Hp. rewrite mul_value by auto with scalars. rewrite mul_mod_order, <- mul_mul by done. apply mul8_div8.
  by rewrite mul_mul, Z.mul_comm, <- mul_mul, Hp, mul_0_r.
Qed.
(** A point that differs from a multiple of a point of the main subgroup by a
    multiple of eight lies in it. *)
Lemma order_pseudo A p f g : l25519 • g ≡ c_point_0 -> pt_mul8 A - p ≡ f • g -> l25519 • p ≡ c_point_0.
Proof.
  intros Hg E. transitivity (l25519 • (pt_mul8 A - (pt_mul8 A - p))); [curve_ring|]. rewrite E.
  transitivity ((8 * l25519)%Z • A - f • (l25519 • g)); [curve_ring|]. rewrite Hg, order_curve. curve_ring.
Qed.

Lemma Ret_inj {A} (a b : A) : Ret a = Ret b -> a = b.
Proof. by intros [= ->]. Qed.

(** A point and its key, parsed. *)
Lemma to_point_key p : exists q, to_point (pt_to_public_key p) = Ret q /\ q ≡ p.
Proof. destruct (from_to_public_key p) as (q & E & Hq). exists q. unfold to_point. by rewrite E. Qed.

(** *** The members the two sides compute *)

Section members.
Context {A : Type} (f g : A -> outcome ring_member).

Lemma mapM_members l : Forall (fun r => exists m m', f r = Ret m /\ g r = Ret m' /\ member_equiv m m') l ->
  exists ms ms', mapM f l = Ret ms /\ mapM g l = Ret ms' /\ Forall2 member_equiv ms ms' /\ Forall2 (fun r m => f r = Ret m) l ms.
Proof.
  induction 1 as [|r l (m & m' & Em & Em' & Hm) _ (ms & ms' & Es & Es' & Hs & Hf)].
  - exists [], []. repeat split; constructor.
  - exists (m :: ms), (m' :: ms'). cbn [mapM]. rewrite Em, Em'. outcome_simp. rewrite Es, Es'. outcome_simp.
    split; [done|]. split; [done|]. split; constructor; done.
Qed.
End members.

Lemma verify_rounds_proper dom ih Kg Kg' Kx Kx' ms ms' r_g r_x c : Kg ≡ Kg' -> Kx ≡ Kx' -> Forall2 member_equiv ms ms' ->
  verify_rounds dom ih Kg Kx ms r_g r_x c = verify_rounds dom ih Kg' Kx' ms' r_g r_x c.
Proof.
  intros Hg Hx Hms. revert r_g r_x c. induction Hms as [|m m' ms ms' Hm _ IH]; intros [|g r_g] [|x r_x] c; try done.
  cbn [verify_rounds]. rewrite IH. by rewrite (ring_step_proper dom ih Kg Kg' Kx Kx' m m').
Qed.

Lemma agg_coeff_scalar layer ih : scalar (agg_coeff layer ih).
Proof. unfold agg_coeff. auto with scalars. Qed.
Hint Resolve agg_coeff_scalar : scalars.

Lemma ring_verified dom ih Kg Kg' Kx Kx' ms ms' w_g w_x s m alpha_g alpha_x rnd_g rnd_x : ring_secret ms Kg Kx w_g w_x s m ->
  scalar alpha_g -> scalar alpha_x -> List.length rnd_g = List.length ms -> List.length rnd_x = List.length ms ->
  Kg ≡ Kg' -> Kx ≡ Kx' -> Forall2 member_equiv ms ms' ->
  exists c r_g r_x, generate_ring dom ih Kg Kx ms (rm_hp m) w_g w_x alpha_g alpha_x rnd_g rnd_x s = (c, r_g, r_x) /\
    List.length r_g = List.length ms /\ List.length r_x = List.length ms /\
    bool_decide (verify_rounds dom ih Kg' Kx' ms' r_g r_x c = c) = true.
Proof.
  intros Hs Hag Hax Hg Hx HKg HKx Hms. pose proof (ring_accepted dom ih _ _ _ _ _ _ _ alpha_g alpha_x rnd_g rnd_x Hs Hag Hax Hg Hx) as Hacc.
  destruct (generate_ring _ _ _ _ _ _ _ _ _ _ _ _ _) as [[c r_g] r_x]. destruct Hacc as (Lg & Lx & Hacc).
  exists c, r_g, r_x. split; [done|]. split; [done|]. split; [done|]. apply bool_decide_eq_true. rewrite <- Hacc at 2. symmetry.
  by apply verify_rounds_proper.
Qed.

(** A key image of the main subgroup. *)
Lemma image_in_main_subgroup K x k : K ≡ x • hp_key k -> in_main_subgroup K = true.
Proof.
  intros HK. unfold in_main_subgroup. apply is_zero_spec. by rewrite HK, mul_mul, Z.mul_comm, <- mul_mul, order_hp, mul_0_r.
Qed.

Lemma nonempty_at {A} (l : list A) s x : l !! s = Some x -> (List.length l =? 0)%nat = false.
Proof. intros E. apply lookup_lt_Some in E. apply Nat.eqb_neq. lia. Qed.

(** *** GGX *)

Definition ref_parses (r : CLSAG_GGX_input_ref) : Prop :=
  exists P A Q, to_point (ir_stealth_address r) = Ret P /\ to_point (ir_amount_commitment r) = Ret A /\ to_point (ir_blinded_asset_id r) = Ret Q.

Lemma GGX_members_equiv a0 a1 a2 p p' q q' ring : p ≡ p' -> q ≡ q' -> Forall ref_parses ring ->
  Forall (fun r => exists m m', GGX_member a0 a1 a2 p q r = Ret m /\ GGX_member a0 a1 a2 p' q' r = Ret m' /\ member_equiv m m') ring.
Proof.
  intros Hp Hq Hr. apply (Forall_impl _ _ _ Hr). intros r (P & A & Q & EP & EA & EQ). do 2 eexists. unfold GGX_member.
  rewrite EP, EA, EQ. outcome_simp. split; [done|]. split; [done|]. split; [done|]. cbn. by rewrite Hp, Hq.
Qed.

(** What the signer of an input of a transfer knows: the key of the output at
    the index, and the differences of the masks to the pseudo outputs. *)
Record GGX_opening (r : CLSAG_GGX_input_ref) (pseudo_amount pseudo_asset : point_t) (ki : key_image) (xp f t : scalar_t) : Prop := {
  go_scalars : scalar xp /\ scalar f /\ scalar t;
  go_parses P A Q : to_point (ir_stealth_address r) = Ret P -> to_point (ir_amount_commitment r) = Ret A ->
    to_point (ir_blinded_asset_id r) = Ret Q ->
    P ≡ xp *' c_point_G /\ pt_mul8 A - pseudo_amount ≡ f *' c_point_G /\ pt_mul8 Q - pseudo_asset ≡ t *' c_point_X;
  go_ki : ki = pt_to_public_key (xp *' hp_key (ir_stealth_address r))
}.

(** C20: a transfer's ring signature, made by the owner of any member of the ring,
    is accepted for the pseudo outputs it was made for. *)
Theorem CLSAG_GGX_accepted alpha_g alpha_x rnd_g rnd_x m ring pseudo_amount pseudo_asset ki xp f t s r :
  ring !! s = Some r -> Forall ref_parses ring -> GGX_opening r pseudo_amount pseudo_asset ki xp f t ->
  scalar alpha_g -> scalar alpha_x -> List.length rnd_g = List.length ring -> List.length rnd_x = List.length ring ->
  exists sig, generate_CLSAG_GGX alpha_g alpha_x rnd_g rnd_x m ring pseudo_amount pseudo_asset ki xp f t s = Ret sig /\
    verify_CLSAG_GGX m ring (pt_to_public_key (c_scalar_1div8 *' pseudo_amount)) (pt_to_public_key (c_scalar_1div8 *' pseudo_asset))
      ki sig = Ret true.
Proof.
  intros Hr Hring [(Hxp & Hf & Ht) Hopen Hki] Hag Hax Hg Hx. unfold generate_CLSAG_GGX. rewrite Hr.
  set (hp := hp_key (ir_stealth_address r)) in *. set (ih := GGX_input_hash _ _ _ _ _ _ _).
  set (a0 := agg_coeff CRYPTO_HDS_CLSAG_GGX_LAYER_0 ih). set (a1 := agg_coeff CRYPTO_HDS_CLSAG_GGX_LAYER_1 ih).
  set (a2 := agg_coeff CRYPTO_HDS_CLSAG_GGX_LAYER_2 ih).
  pose proof (Forall_lookup_1 _ _ _ _ Hring Hr) as (P & A & Q & EP & EA & EQ).
  destruct (Hopen _ _ _ EP EA EQ) as (HP & HA & HQ).
  assert (Ho1 : l25519 • pseudo_amount ≡ c_point_0) by exact (order_pseudo _ _ _ _ order_G HA).
  assert (Ho2 : l25519 • pseudo_asset ≡ c_point_0) by exact (order_pseudo _ _ _ _ order_X HQ).
  destruct (to_point_key (c_scalar_1div8 *' pseudo_amount)) as (p1 & E1 & H1).
  destruct (to_point_key (c_scalar_1div8 *' pseudo_asset)) as (p2 & E2 & H2).
  destruct (to_point_key (xp *' hp)) as (K & EK & HK).
  destruct (to_point_key (sc_mul c_scalar_1div8 f *' hp)) as (K1 & EK1 & HK1).
  destruct (to_point_key (sc_mul c_scalar_1div8 t *' hp)) as (K2 & EK2 & HK2).
  destruct (mapM_members _ _ _ (GGX_members_equiv a0 a1 a2 pseudo_amount (pt_mul8 p1) pseudo_asset (pt_mul8 p2) ring
    ltac:(by rewrite H1, mul8_div8) ltac:(by rewrite H2, mul8_div8) Hring)) as (ms & ms' & Ems & Ems' & Hms & Hgen).
  rewrite Ems. outcome_simp. assert (Hlen : List.length ms = List.length ring) by (symmetry; by eapply Forall2_length).
  destruct (Forall2_lookup_l _ _ _ _ _ Hgen Hr) as (mem & Hmem & Emem).
  unfold GGX_member in Emem. rewrite EP, EA, EQ in Emem. apply Ret_inj in Emem.
  set (Kg := a0 *' (xp *' hp) + _). set (Kx := a2 *' pt_mul8 _). set (wg := sc_add _ _). set (wx := sc_mul a2 t).
  assert (Hsec : ring_secret ms Kg Kx wg wx s mem).
  { assert (Hhp : l25519 • hp ≡ c_point_0) by apply order_hp.
    subst mem. split; cbn [rm_hp rm_W_pub_key_g rm_W_pub_key_x]; try done.
    - unfold wg, wx, a0, a1, a2. auto with scalars.
    - rewrite HP, HA. unfold wg. rewrite add_value, !mul_value by (unfold a0, a1; auto with scalars). curve_ring_mod.
    - rewrite HQ. unfold wx. rewrite !mul_value by (unfold a2; auto with scalars). curve_ring_mod.
    - unfold Kg, wg. fold hp. rewrite mul8_div8_secret by done. rewrite add_value, !mul_value by (unfold a0, a1; auto with scalars). curve_ring_mod.
    - unfold Kx, wx. fold hp. rewrite mul8_div8_secret by done. rewrite !mul_value by (unfold a2; auto with scalars). curve_ring_mod. }
  destruct (ring_verified CRYPTO_HDS_CLSAG_GGX_CHALLENGE ih Kg (a0 *' K + a1 *' pt_mul8 K1) Kx (a2 *' pt_mul8 K2) ms ms' wg wx s mem
    alpha_g alpha_x rnd_g rnd_x Hsec Hag Hax ltac:(congruence) ltac:(congruence) ltac:(by rewrite HK, HK1) ltac:(by rewrite HK2) Hms)
    as (c & r_g & r_x & Egen & Lg & Lx & Hacc).
  replace (rm_hp mem) with hp in Egen by (by subst mem). rewrite Egen. eexists. split; [done|].
  unfold verify_CLSAG_GGX. cbn [ggx_c ggx_r_g ggx_r_x ggx_K1 ggx_K2].
  rewrite Lg, Lx, Hlen, Nat.eqb_refl, (nonempty_at _ _ _ Hr). cbn [negb orb].
  rewrite Hki, EK. outcome_simp. rewrite (image_in_main_subgroup _ _ _ HK).
  cbn [negb]. rewrite E1. outcome_simp. rewrite E2. outcome_simp. rewrite <- Hki.
  fold ih. fold a0 a1 a2. rewrite Ems'. outcome_simp. rewrite EK1. outcome_simp. rewrite EK2. outcome_simp. by rewrite Hacc.
Qed.

(** *** GGXXG *)

Definition stake_ref_parses (r : CLSAG_GGXXG_input_ref) : Prop :=
  ref_parses (ir_ggx r) /\ exists C, to_point (ir_concealing_point r) = Ret C.

Lemma GGXXG_members_equiv a0 a1 a2 a3 a4 p p' q q' e e' ring : p ≡ p' -> q ≡ q' -> e ≡ e' -> Forall stake_ref_parses ring ->
  Forall (fun r => exists m m', GGXXG_member a0 a1 a2 a3 a4 p q e r = Ret m /\ GGXXG_member a0 a1 a2 a3 a4 p' q' e' r = Ret m' /\
                                member_equiv m m') ring.
Proof.
  intros Hp Hq He Hr. apply (Forall_impl _ _ _ Hr). intros r ((P & A & Q & EP & EA & EQ) & C & EC). do 2 eexists. unfold GGXXG_member.
  rewrite EP, EA, EQ, EC. outcome_simp. split; [done|]. split; [done|]. split; [done|]. cbn. by rewrite Hp, Hq, He.
Qed.

(** The staker moreover knows the concealing factor of the output, and the
    difference to the extended commitment. *)
Record GGXXG_opening (r : CLSAG_GGXXG_input_ref) (pseudo_amount pseudo_asset extended : point_t) (ki : key_image)
    (xp f t x q : scalar_t) : Prop := {
  so_ggx : GGX_opening (ir_ggx r) pseudo_amount pseudo_asset ki xp f t;
  so_scalars : scalar x /\ scalar q;
  so_parses A C : to_point (ir_amount_commitment (ir_ggx r)) = Ret A -> to_point (ir_concealing_point r) = Ret C ->
    extended - pt_mul8 A - pt_mul8 C ≡ x *' c_point_X /\ pt_mul8 C ≡ q *' c_point_G
}.

Lemma order_extended A C e x q : e - pt_mul8 A - pt_mul8 C ≡ x • c_point_X -> pt_mul8 C ≡ q • c_point_G -> l25519 • e ≡ c_point_0.
Proof.
  intros Hx Hq. transitivity (l25519 • ((e - pt_mul8 A - pt_mul8 C) + (pt_mul8 A + pt_mul8 C))); [curve_ring|]. rewrite Hx.
  transitivity (x • (l25519 • c_point_X) + ((8 * l25519)%Z • A + (8 * l25519)%Z • C)); [curve_ring|].
  rewrite order_X, !order_curve. curve_ring.
Qed.

(** The ring signature of a stake, made by the owner of any member of the
    ring, is accepted for the pseudo outputs and the extended commitment it was
    made for. *)
Theorem CLSAG_GGXXG_accepted alpha_g alpha_x rnd_g rnd_x m ring pseudo_amount pseudo_asset extended ki xp f t x q s r :
  ring !! s = Some r -> Forall stake_ref_parses ring -> GGXXG_opening r pseudo_amount pseudo_asset extended ki xp f t x q ->
  scalar alpha_g -> scalar alpha_x -> List.length rnd_g = List.length ring -> List.length rnd_x = List.length ring ->
  exists sig, generate_CLSAG_GGXXG alpha_g alpha_x rnd_g rnd_x m ring pseudo_amount pseudo_asset extended ki xp f t x q s = Ret sig /\
    verify_CLSAG_GGXXG m ring (pt_to_public_key (c_scalar_1div8 *' pseudo_amount)) (pt_to_public_key (c_scalar_1div8 *' pseudo_asset))
      (pt_to_public_key (c_scalar_1div8 *' extended)) ki sig = Ret true.
Proof.
  intros Hr Hring [[(Hxp & Hf & Ht) Hopen Hki] [Hx3 Hq4] Hopen'] Hag Hax Hg Hx. unfold generate_CLSAG_GGXXG. rewrite Hr.
  set (hp := hp_key (ir_stealth_address (ir_ggx r))) in *. set (ih := GGXXG_input_hash _ _ _ _ _ _ _ _ _ _).
  set (a0 := agg_coeff CRYPTO_HDS_CLSAG_GGXXG_LAYER_0 ih). set (a1 := agg_coeff CRYPTO_HDS_CLSAG_GGXXG_LAYER_1 ih).
  set (a2 := agg_coeff CRYPTO_HDS_CLSAG_GGXXG_LAYER_2 ih). set (a3 := agg_coeff CRYPTO_HDS_CLSAG_GGXXG_LAYER_3 ih).
  set (a4 := agg_coeff CRYPTO_HDS_CLSAG_GGXXG_LAYER_4 ih).
  pose proof (Forall_lookup_1 _ _ _ _ Hring Hr) as ((P & A & Q & EP & EA & EQ) & C & EC).
  destruct (Hopen _ _ _ EP EA EQ) as (HP & HA & HQ). destruct (Hopen' _ _ EA EC) as (HE & HC).
  assert (Ho1 : l25519 • pseudo_amount ≡ c_point_0) by exact (order_pseudo _ _ _ _ order_G HA).
  assert (Ho2 : l25519 • pseudo_asset ≡ c_point_0) by exact (order_pseudo _ _ _ _ order_X HQ).
  assert (Ho3 : l25519 • extended ≡ c_point_0) by exact (order_extended _ _ _ _ _ HE HC).
  destruct (to_point_key (c_scalar_1div8 *' pseudo_amount)) as (p1 & E1 & H1).
  destruct (to_point_key (c_scalar_1div8 *' pseudo_asset)) as (p2 & E2 & H2).
  destruct (to_point_key (c_scalar_1div8 *' extended)) as (p3 & E3 & H3).
  destruct (to_point_key (xp *' hp)) as (K & EK & HK).
  destruct (to_point_key (sc_mul c_scalar_1div8 f *' hp)) as (K1 & EK1 & HK1).
  destruct (to_point_key (sc_mul c_scalar_1div8 t *' hp)) as (K2 & EK2 & HK2).
  destruct (to_point_key (sc_mul c_scalar_1div8 x *' hp)) as (K3 & EK3 & HK3).
  destruct (to_point_key (sc_mul c_scalar_1div8 q *' hp)) as (K4 & EK4 & HK4).
  destruct (mapM_members _ _ _ (GGXXG_members_equiv a0 a1 a2 a3 a4 pseudo_amount (pt_mul8 p1) pseudo_asset (pt_mul8 p2)
    extended (pt_mul8 p3) ring ltac:(by rewrite H1, mul8_div8) ltac:(by rewrite H2, mul8_div8) ltac:(by rewrite H3, mul8_div8) Hring))
    as (ms & ms' & Ems & Ems' & Hms & Hgen).
  rewrite Ems. outcome_simp. assert (Hlen : List.length ms = List.length ring) by (symmetry; by eapply Forall2_length).
  destruct (Forall2_lookup_l _ _ _ _ _ Hgen Hr) as (mem & Hmem & Emem).
  unfold GGXXG_member in Emem. rewrite EP, EA, EQ, EC in Emem. apply Ret_inj in Emem.
  set (Kg := a0 *' (xp *' hp) + _ + _). set (Kx := a2 *' pt_mul8 _ + _). set (wg := sc_add (sc_add _ _) _). set (wx := sc_add _ _).
  assert (Hsec : ring_secret ms Kg Kx wg wx s mem).
  { assert (Hhp : l25519 • hp ≡ c_point_0) by apply order_hp.
    subst mem. split; cbn [rm_hp rm_W_pub_key_g rm_W_pub_key_x]; try done.
    - unfold wg, wx, a0, a1, a2, a3, a4. auto 6 with scalars.
    - rewrite HP, HA, HC. unfold wg. rewrite !add_value, !mul_value by (unfold a0, a1, a4; auto with scalars). curve_ring_mod.
    - rewrite HQ, HE. unfold wx. rewrite !add_value, !mul_value by (unfold a2, a3; auto with scalars). curve_ring_mod.
    - unfold Kg, wg. fold hp. rewrite !mul8_div8_secret by done.
      rewrite !add_value, !mul_value by (unfold a0, a1, a4; auto with scalars). curve_ring_mod.
    - unfold Kx, wx. fold hp. rewrite !mul8_div8_secret by done.
      rewrite !add_value, !mul_value by (unfold a2, a3; auto with scalars). curve_ring_mod. }
  destruct (ring_verified CRYPTO_HDS_CLSAG_GGXXG_CHALLENGE ih Kg (a0 *' K + a1 *' pt_mul8 K1 + a4 *' pt_mul8 K4)
    Kx (a2 *' pt_mul8 K2 + a3 *' pt_mul8 K3) ms ms' wg wx s mem alpha_g alpha_x rnd_g rnd_x Hsec Hag Hax
    ltac:(congruence) ltac:(congruence) ltac:(by rewrite HK, HK1, HK4) ltac:(by rewrite HK2, HK3) Hms)
    as (c & r_g & r_x & Egen & Lg & Lx & Hacc).
  replace (rm_hp mem) with hp in Egen by (by subst mem). rewrite Egen. eexists. split; [done|].
  unfold verify_CLSAG_GGXXG. cbn [ggxxg_c ggxxg_r_g ggxxg_r_x ggxxg_K1 ggxxg_K2 ggxxg_K3 ggxxg_K4].
  rewrite Lg, Lx, Hlen, Nat.eqb_refl, (nonempty_at _ _ _ Hr). cbn [negb orb].
  rewrite Hki, EK. outcome_simp. rewrite (image_in_main_subgroup _ _ _ HK).
  cbn [negb]. rewrite E1. outcome_simp. rewrite E2. outcome_simp. rewrite E3. outcome_simp. rewrite <- Hki.
  fold ih. fold a0 a1 a2 a3 a4. rewrite Ems'. outcome_simp. rewrite EK1. outcome_simp. rewrite EK2. outcome_simp.
  rewrite EK3. outcome_simp. rewrite EK4. outcome_simp. by rewrite Hacc.
Qed.

End complete.

(** A ring of two outputs, the second of them the signer's. *)
Module demo_ring.
#[local] Instance demo_curve : Curve := free_curve [].
Definition eighth (p : free_point) : public_key := free_encode (free_map (Z.mul (le_combine c_scalar_1div8)) p).
(** The output of 100 units with the key 7, the masks 21 and 31. *)
Definition mine : CLSAG_GGX_input_ref :=
  {| ir_stealth_address := free_encode (7, 0, 0, 0); ir_amount_commitment := eighth (21, 3100, 100, 0); ir_blinded_asset_id := eighth (0, 31, 1, 0) |}.
Definition other : CLSAG_GGX_input_ref :=
  {| ir_stealth_address := replicate 32 1; ir_amount_commitment := replicate 32 2; ir_blinded_asset_id := replicate 32 3 |}.
Definition image : key_image := @pt_to_public_key demo_curve (le_split 32 7 *' hp_key (ir_stealth_address mine)).
(** The pseudo outputs differ by 15 from the mask of the amount and by 30 from that of the asset. *)
Definition pseudo_amount : free_point := (6, 3100, 100, 0).
Definition pseudo_asset : free_point := (0, 1, 1, 0).
End demo_ring.

Example CLSAG_GGX_accepted_witness :
  exists sig, @generate_CLSAG_GGX (free_curve []) (le_split 32 101) (le_split 32 102) [le_split 32 3; le_split 32 4] [le_split 32 5; le_split 32 6]
      (replicate 32 9) [demo_ring.other; demo_ring.mine] demo_ring.pseudo_amount demo_ring.pseudo_asset demo_ring.image
      (le_split 32 7) (le_split 32 15) (le_split 32 30) 1 = Ret sig /\
    @verify_CLSAG_GGX (free_curve []) (replicate 32 9) [demo_ring.other; demo_ring.mine] (demo_ring.eighth demo_ring.pseudo_amount)
      (demo_ring.eighth demo_ring.pseudo_asset) demo_ring.image sig = Ret true.
Proof.
  refine (@CLSAG_GGX_accepted (free_curve []) (free_curve_laws []) (le_split 32 101) (le_split 32 102) _ _ (replicate 32 9)
    [demo_ring.other; demo_ring.mine] demo_ring.pseudo_amount demo_ring.pseudo_asset demo_ring.image (le_split 32 7) (le_split 32 15) (le_split 32 30)
    1 demo_ring.mine _ _ _ _ _ _ _).
  - done.
  - repeat (apply Forall_cons; split; [do 3 eexists; repeat split; vm_compute; reflexivity|]). by apply Forall_nil_2.
  - split; [split; [|split]; apply scalar_split| |done].
    intros P A Q EP EA EQ. vm_compute in EP, EA, EQ. injection EP as <-. injection EA as <-. injection EQ as <-.
    split; [|split]; by vm_compute.
  - apply scalar_split.
  - apply scalar_split.
  - done.
  - done.
Defined.
