(* ===== verification/StateM.v ===== *)
(** * Operations on the containers of the blockchain

    A member function that changes containers and reports success as a [bool]
    is a state transformer: [Fail] is the early [return false] of a failed
    check, with the changes made so far still in place, [Exn] an exception. *)

From S2P Require Import Prelude.

Inductive result (A : Type) : Type :=
| Ok (a : A)
| Fail
| Exn.
Arguments Ok {A} a.
Arguments Fail {A}.
Arguments Exn {A}.

Definition st (S A : Type) : Type := S -> result A * S.

#[export] Instance st_ret S : MRet (st S) := fun A a s => (Ok a, s).
#[export] Instance st_bind S : MBind (st S) := fun A B f m s =>
  match m s with
  | (Ok a, s) => f a s
  | (Fail, s) => (Fail, s)
  | (Exn, s) => (Exn, s)
  end.

Section operations.
Context {S : Type}.

(** [CHECK_AND_ASSERT_MES(b, false, ...)]. *)
Definition check (b : bool) : st S unit := fun s => (if b then Ok tt else Fail, s).
Definition throw_unless (b : bool) : st S unit := fun s => (if b then Ok tt else Exn, s).
Definition fail {A} : st S A := fun s => (Fail, s).

(** A pointer that must not be null. *)
Definition some {A} (x : option A) : st S A := fun s => (match x with Some a => Ok a | None => Fail end, s).

Definition read {A} (f : S -> A) : st S A := fun s => (Ok (f s), s).
Definition update (f : S -> S) : st S unit := fun s => (Ok tt, f s).

(** A call whose result is used as a value, or ignored. *)
Definition attempt (m : st S unit) : st S bool := fun s =>
  match m s with
  | (Ok _, s) => (Ok true, s)
  | (Fail, s) => (Ok false, s)
  | (Exn, s) => (Exn, s)
  end.

(** A result computed without the state. *)
Definition lift {A} (r : result A) : st S A := fun s => (r, s).
Definition lift_outcome {A} (o : outcome A) : st S A := fun s => (match o with Ret a => Ok a | Throw => Exn end, s).

(** [if (!m) { handler; return false; }]: whatever the handler returns, the
    result is [false]. *)
Definition or_else {A} (m : st S A) (handler : st S unit) : st S A := fun s =>
  match m s with
  | (Fail, s) => match handler s with (Exn, s) => (Exn, s) | (_, s) => (Fail, s) end
  | r => r
  end.

(** A [for] loop whose body may return. *)
Fixpoint for_each {A} (f : A -> st S unit) (l : list A) : st S unit :=
  match l with
  | [] => mret tt
  | a :: l => _ ← f a; for_each f l
  end.

Lemma bind_ok {A B} (m : st S A) (f : A -> st S B) s b s' :
  (m ≫= f) s = (Ok b, s') <-> exists a s1, m s = (Ok a, s1) /\ f a s1 = (Ok b, s').
Proof.
  unfold mbind, st_bind. destruct (m s) as [[a| |] s1]; split.
  - intros H. by exists a, s1.
  - by intros (a' & s1' & [= <- <-] & H).
  - done.
  - by intros (? & ? & ? & _).
  - done.
  - by intros (? & ? & ? & _).
Qed.

Lemma bind_eq {A B} (m : st S A) (f : A -> st S B) s a s1 : m s = (Ok a, s1) -> (m ≫= f) s = f a s1.
Proof. intros H. unfold mbind, st_bind. by rewrite H. Qed.

Lemma ret_ok {A} (a b : A) s s' : mret (M := st S) a s = (Ok b, s') <-> a = b /\ s = s'.
Proof. unfold mret, st_ret. split; [by intros [= <- <-]|by intros [-> ->]]. Qed.

Lemma check_ok b s u s' : check b s = (Ok u, s') <-> b = true /\ s = s'.
Proof. unfold check. destruct b, u; (split; [intros E; by simplify_eq|by intros [? ->]]). Qed.

Lemma some_ok {A} (x : option A) s a s' : some x s = (Ok a, s') <-> x = Some a /\ s = s'.
Proof. unfold some. destruct x; (split; [intros E; by simplify_eq|intros [E ->]; by simplify_eq]). Qed.

Lemma read_ok {A} (f : S -> A) s a s' : read f s = (Ok a, s') <-> f s = a /\ s = s'.
Proof. unfold read. split; [by intros [= <- <-]|by intros [<- <-]]. Qed.

Lemma update_ok f s u s' : update f s = (Ok u, s') <-> f s = s'.
Proof. unfold update. destruct u. split; [by intros [= <-]|by intros <-]. Qed.

Lemma lift_ok {A} (r : result A) s a s' : lift r s = (Ok a, s') <-> r = Ok a /\ s = s'.
Proof. unfold lift. split; [by intros [= -> <-]|by intros [-> ->]]. Qed.

Lemma lift_outcome_ok {A} (o : outcome A) s a s' : lift_outcome o s = (Ok a, s') <-> o = Ret a /\ s = s'.
Proof. unfold lift_outcome. destruct o; (split; [intros E; by simplify_eq|intros [E ->]; by simplify_eq]). Qed.

Lemma or_else_ok {A} (m : st S A) h s a s' : or_else m h s = (Ok a, s') <-> m s = (Ok a, s').
Proof. unfold or_else. destruct (m s) as [[b| |] s1]; [done| |done]. by destruct (h s1) as [[u| |] s2]. Qed.

Lemma attempt_ok (m : st S unit) s b s' : attempt m s = (Ok b, s') <-> m s = (if b then Ok tt else Fail, s').
Proof.
  unfold attempt. destruct (m s) as [[[]| |] s1]; split; intros H; by destruct b; simplify_eq.
Qed.

Lemma for_each_cons_ok {A} (f : A -> st S unit) a l s s' :
  for_each f (a :: l) s = (Ok tt, s') <-> exists s1, f a s = (Ok tt, s1) /\ for_each f l s1 = (Ok tt, s').
Proof.
  cbn [for_each]. rewrite bind_ok. split; [intros ([] & s1 & H); by exists s1|intros (s1 & H); by exists tt, s1].
Qed.

Lemma for_each_app {A} (f : A -> st S unit) l1 l2 s :
  for_each f (l1 ++ l2) s = (for_each f l1 ≫= (fun _ => for_each f l2)) s.
Proof.
  revert s. induction l1 as [|a l1 IH]; intros s; [done|]. cbn [app for_each]. unfold mbind, st_bind.
  destruct (f a s) as [[[]| |] s1]; [|done..]. specialize (IH s1). unfold mbind, st_bind in IH. exact IH.
Qed.

(** An invariant kept by every iteration. *)
Lemma for_each_inv {A} (P : S -> Prop) (f : A -> st S unit) l s r s' :
  (forall a s r s', a ∈ l -> P s -> f a s = (r, s') -> P s') -> P s -> for_each f l s = (r, s') -> P s'.
Proof.
  intros Hf. revert s. induction l as [|a l IH]; intros s HP H; cbn [for_each] in H.
  { by injection H as _ <-. }
  unfold mbind, st_bind in H. destruct (f a s) as [ra s1] eqn:E.
  assert (P s1) by (eapply Hf; [by left|exact HP|exact E]).
  destruct ra; [eapply IH; [|done|exact H]; intros; eapply Hf; [by right|done..]|by injection H as _ <-..].
Qed.

(** *** Operations that only read, and operations that change all or nothing *)

Definition read_only {A} (m : st S A) : Prop := forall s, snd (m s) = s.
Definition atomic {A} (m : st S A) : Prop := forall s, match m s with (Ok _, _) => True | (_, s') => s' = s end.

Lemma ro_bind {A B} (m : st S A) (f : A -> st S B) : read_only m -> (forall a, read_only (f a)) -> read_only (m ≫= f).
Proof.
  intros Hm Hf s. specialize (Hm s). unfold mbind, st_bind. destruct (m s) as [[a| |] s1]; cbn in *; subst; [apply Hf|done..].
Qed.
Lemma ro_ret {A} (a : A) : read_only (mret a).
Proof. done. Qed.
Lemma ro_check b : read_only (check b).
Proof. done. Qed.
Lemma ro_throw_unless b : read_only (throw_unless b).
Proof. done. Qed.
Lemma ro_fail {A} : read_only (@fail A).
Proof. done. Qed.
Lemma ro_some {A} (x : option A) : read_only (some x).
Proof. done. Qed.
Lemma ro_read {A} (f : S -> A) : read_only (read f).
Proof. done. Qed.

Lemma ro_atomic {A} (m : st S A) : read_only m -> atomic m.
Proof. intros Hm s. specialize (Hm s). by destruct (m s) as [[]]. Qed.
Lemma atomic_update f : atomic (update f).
Proof. done. Qed.
Lemma atomic_bind {A B} (m : st S A) (f : A -> st S B) : read_only m -> (forall a, atomic (f a)) -> atomic (m ≫= f).
Proof.
  intros Hm Hf s. specialize (Hm s). unfold mbind, st_bind. destruct (m s) as [[a| |] s1]; cbn in *; subst; [apply Hf|done..].
Qed.

Lemma ro_run {A} (m : st S A) s r s' : read_only m -> m s = (r, s') -> s' = s.
Proof. intros Hm E. specialize (Hm s). by rewrite E in Hm. Qed.

End operations.

(** [st_inv H] takes a successful run apart. *)
Ltac st_step H :=
  lazymatch type of H with
  | (_ ≫= _) _ = (Ok _, _) =>
      let a := fresh "a" in let s := fresh "s" in let H1 := fresh "H" in
      apply bind_ok in H as (a & s & H1 & H); st_step H1; cbv beta in H; st_step H
  | mret _ _ = (Ok _, _) => apply ret_ok in H as [? ?]; subst
  | check _ _ = (Ok _, _) => apply check_ok in H as [? ?]; subst
  | some _ _ = (Ok _, _) => apply some_ok in H as [? ?]; subst
  | read _ _ = (Ok _, _) => apply read_ok in H as [? ?]; subst
  | update _ _ = (Ok _, _) => apply update_ok in H; subst
  | lift _ _ = (Ok _, _) => apply lift_ok in H as [? ?]; subst
  | lift_outcome _ _ = (Ok _, _) => apply lift_outcome_ok in H as [? ?]; subst
  | _ => idtac
  end.
Ltac st_inv H := st_step H; cbv beta in *.

(** [ro_solve] goes through the structure of an operation. *)
Create HintDb ro.
#[export] Hint Resolve ro_ret ro_check ro_throw_unless ro_fail ro_some ro_read atomic_update : ro.
Ltac ro_solve :=
  repeat first
    [ solve [eauto with ro]
    | progress intros
    | lazymatch goal with
      | |- read_only (_ ≫= _) => apply ro_bind
      | |- atomic (_ ≫= _) => apply atomic_bind
      | |- read_only (match ?x with _ => _ end) => destruct x
      | |- atomic (match ?x with _ => _ end) => destruct x
      end
    | apply ro_atomic ].

(** A component's operation inside a larger state. *)
Definition zoom {S T A} (get : S -> T) (set : T -> S -> S) (m : st T A) : st S A := fun s =>
  let '(r, t) := m (get s) in (r, set t s).

Lemma zoom_ok {S T A} (get : S -> T) (set : T -> S -> S) (m : st T A) s a s' :
  zoom get set m s = (Ok a, s') <-> exists t, m (get s) = (Ok a, t) /\ s' = set t s.
Proof.
  unfold zoom. destruct (m (get s)) as [r t]. split.
  - intros [= -> <-]. by exists t.
  - by intros (t' & [= -> ->] & ->).
Qed.
