(* ===== verification/DbArrays.v ===== *)
(** * Arrays in the database: [src/src/common/db_abstract_accessor.h]

    A container keeps one array per key.  [basic_key_to_array_accessor] stores
    every item under the pair of the key and the index,
    [chunked_key_to_array_accessor] stores chunks of [chunk_size] items; both
    keep the number of items under a key of another length, so that items and
    counters do not mix.  [ArrayStore] is what the blockchain relies on. *)

From S2P Require Import Prelude StateM.

(** ** The interface *)

Class ArrayStore (K V T : Type) `{EqDecision K} := {
  arr_empty : T;
  arr_size : T -> K -> Z;
  arr_get : T -> K -> Z -> result (option V);
  arr_push : K -> V -> T -> result unit * T;
  arr_pop : K -> T -> result unit * T;
  arr_erase : K -> T -> result unit * T;
  (** The abstract state, for the states that [arr_wf] describes. *)
  arr_wf : T -> Prop;
  arr_contents : T -> K -> list V;
  arr_empty_ok : arr_wf arr_empty /\ (forall k, arr_contents arr_empty k = []);
  arr_size_ok s k : arr_wf s -> arr_size s k = Z.of_nat (List.length (arr_contents s k));
  arr_get_ok s k i : arr_wf s -> 0 <= i -> arr_get s k i =
    if i <? Z.of_nat (List.length (arr_contents s k)) then Ok (arr_contents s k !! Z.to_nat i) else Exn;
  arr_push_ok s k v : arr_wf s -> Z.of_nat (List.length (arr_contents s k)) + 1 < 2 ^ 64 ->
    exists s', arr_push k v s = (Ok tt, s') /\ arr_wf s' /\
      (forall k', arr_contents s' k' = if decide (k' = k) then arr_contents s k ++ [v] else arr_contents s k');
  arr_pop_ok s k : arr_wf s ->
    exists s', arr_pop k s = (Ok tt, s') /\ arr_wf s' /\
      (forall k', arr_contents s' k' = if decide (k' = k) then removelast (arr_contents s k) else arr_contents s k');
  arr_erase_ok s k : arr_wf s ->
    exists s', arr_erase k s = (Ok tt, s') /\ arr_wf s' /\
      (forall k', arr_contents s' k' = if decide (k' = k) then [] else arr_contents s k')
}.

(** ** Indexed cells

    Both layouts give every key a function from indices to items, defined
    below the counter. *)

Section cells.
Context {V : Type}.

Definition defined_below (f : Z -> option V) (n : Z) : Prop := 0 <= n /\ (forall i, is_Some (f i) <-> 0 <= i < n).
Definition indexed (f : Z -> option V) (n : Z) : list V := omap f (seqZ 0 n).

Lemma defined_outside f n i : defined_below f n -> ~ 0 <= i < n -> f i = None.
Proof. intros [_ Hi] Ho. apply eq_None_not_Some. rewrite Hi. done. Qed.

Lemma indexed_prefix f n m : defined_below f n -> Z.of_nat m <= n ->
  List.length (indexed f (Z.of_nat m)) = m /\ (forall j, (j < m)%nat -> indexed f (Z.of_nat m) !! j = f (Z.of_nat j)).
Proof.
  intros [Hn Hf]. unfold indexed. induction m as [|m IH]; intros Hm; [split; [done|lia]|].
  destruct IH as [Hl Hj]; [lia|]. assert (Hs : is_Some (f (Z.of_nat m))) by (apply Hf; lia). destruct Hs as [v Hv].
  rewrite Nat2Z.inj_succ, <- Z.add_1_r, seqZ_app, omap_app, (seqZ_cons _ 1), Z.add_0_l by lia.
  change (Z.pred 1) with 0. rewrite (seqZ_nil (Z.succ _) 0) by done. cbn [omap list_omap]. rewrite Hv.
  split; [rewrite length_app, Hl; cbn; lia|]. intros j Hj'. destruct (decide (j = m)) as [->|Hne].
  - rewrite lookup_app_r by lia. by rewrite Hl, Nat.sub_diag.
  - rewrite lookup_app_l by lia. apply Hj. lia.
Qed.

Lemma indexed_length f n : defined_below f n -> Z.of_nat (List.length (indexed f n)) = n.
Proof.
  intros Hf. pose proof Hf as [Hn _]. destruct (indexed_prefix f n (Z.to_nat n) Hf) as [H _]; [lia|].
  rewrite Z2Nat.id in H by done. lia.
Qed.

Lemma indexed_lookup f n j : defined_below f n -> indexed f n !! j = f (Z.of_nat j).
Proof.
  intros Hf. pose proof Hf as [Hn Hi]. destruct (indexed_prefix f n (Z.to_nat n) Hf) as [Hl Hj]; [lia|].
  rewrite Z2Nat.id in Hl, Hj by done. destruct (decide (j < Z.to_nat n)%nat); [by apply Hj|].
  rewrite lookup_ge_None_2 by lia. symmetry. apply eq_None_not_Some. rewrite Hi. lia.
Qed.

Lemma indexed_ext f n l : defined_below f n -> (forall j : nat, l !! j = f (Z.of_nat j)) -> indexed f n = l.
Proof. intros Hf Hl. apply list_eq. intros j. by rewrite (indexed_lookup f n), Hl. Qed.

Lemma indexed_same f f' n : defined_below f n -> (forall i, 0 <= i -> f' i = f i) ->
  (forall i, i < 0 -> f' i = None) -> defined_below f' n /\ indexed f' n = indexed f n.
Proof.
  intros Hf H H0. pose proof Hf as [Hn Hi]. assert (Hd : defined_below f' n).
  { split; [done|]. intros i. destruct (decide (0 <= i)); [by rewrite H|]. rewrite H0 by lia. split; [by intros []|lia]. }
  split; [done|]. apply indexed_ext; [done|]. intros j. rewrite (indexed_lookup f n) by done. symmetry. apply H. lia.
Qed.

Lemma indexed_push f f' n v : defined_below f n -> (forall i, f' i = if decide (i = n) then Some v else f i) ->
  defined_below f' (n + 1) /\ indexed f' (n + 1) = indexed f n ++ [v].
Proof.
  intros Hf H. pose proof Hf as [Hn Hi]. pose proof (indexed_length f n Hf) as Hl.
  assert (Hd : defined_below f' (n + 1)).
  { split; [lia|]. intros i. rewrite H. case_decide as E; [split; [lia|by eexists]|rewrite Hi; lia]. }
  split; [done|]. apply indexed_ext; [done|]. intros j. rewrite H. case_decide as E.
  - rewrite lookup_app_r by lia. by replace (j - _)%nat with 0%nat by lia.
  - rewrite <- (indexed_lookup f n) by done. destruct (decide (j < List.length (indexed f n))%nat); [by rewrite lookup_app_l|].
    rewrite !lookup_ge_None_2; [done|lia|rewrite length_app; cbn; lia].
Qed.

Lemma indexed_pop f f' n : defined_below f n -> 0 < n -> (forall i, f' i = if decide (i = n - 1) then None else f i) ->
  defined_below f' (n - 1) /\ indexed f' (n - 1) = removelast (indexed f n).
Proof.
  intros Hf Hpos H. pose proof Hf as [Hn Hi]. pose proof (indexed_length f n Hf) as Hl.
  assert (Hd : defined_below f' (n - 1)).
  { split; [lia|]. intros i. rewrite H. case_decide as E; [split; [by intros []|lia]|rewrite Hi; lia]. }
  split; [done|]. apply indexed_ext; [done|]. intros j.
  assert (Hj := indexed_lookup f n j Hf). destruct (indexed f n) as [|x l _] using rev_ind; [cbn in Hl; lia|].
  rewrite removelast_last. rewrite length_app in Hl. cbn in Hl. rewrite H. case_decide as E.
  - apply lookup_ge_None_2. lia.
  - rewrite <- Hj. destruct (decide (j < List.length l)%nat); [by rewrite lookup_app_l|].
    rewrite !lookup_ge_None_2; [done|rewrite length_app; cbn; lia|lia].
Qed.

Lemma indexed_none f : (forall i, f i = None) -> defined_below f 0 /\ indexed f 0 = [].
Proof. intros H. split; [|done]. split; [done|]. intros i. rewrite H. split; [by intros []|lia]. Qed.

End cells.

(** ** One record per item *)

Section basic.
Context {K V : Type} `{!EqDecision K, !Countable K}.

Record array_db : Type := { ad_items : gmap (K * Z) V; ad_counters : gmap K Z }.

Definition ad_empty : array_db := {| ad_items := ∅; ad_counters := ∅ |}.

(** [get_counter_accessor], read and written; a missing counter reads as 0. *)
Definition get_counter (s : array_db) (k : K) : Z := default 0 (ad_counters s !! k).
Definition set_counter (k : K) (n : Z) (s : array_db) : array_db :=
  {| ad_items := ad_items s; ad_counters := <[k := n]> (ad_counters s) |}.
Definition set_item (k : K) (i : Z) (v : V) (s : array_db) : array_db :=
  {| ad_items := <[(k, i) := v]> (ad_items s); ad_counters := ad_counters s |}.
Definition erase_item (k : K) (i : Z) (s : array_db) : array_db :=
  {| ad_items := delete (k, i) (ad_items s); ad_counters := ad_counters s |}.

Definition get_item_size (s : array_db) (k : K) : Z := get_counter s k.

Definition get_subitem (s : array_db) (k : K) (i : Z) : result (option V) :=
  if get_item_size s k <=? i then Exn else Ok (ad_items s !! (k, i)).

Definition push_back_item (k : K) (v : V) : st array_db unit :=
  new_index ← read (fun s => get_counter s k);
  _ ← update (set_counter k (u64 (new_index + 1)));
  update (set_item k new_index v).

Definition pop_back_item (k : K) : st array_db unit :=
  sz ← read (fun s => get_counter s k);
  if sz =? 0 then mret tt
  else
    _ ← update (erase_item k (sz - 1));
    update (set_counter k (sz - 1)).

(** [n] items are left to erase. *)
Fixpoint erase_items_loop (k : K) (n : nat) : st array_db unit :=
  match n with
  | O => mret tt
  | S n => _ ← update (erase_item k (Z.of_nat n)); erase_items_loop k n
  end.

Definition erase_items (k : K) : st array_db unit :=
  sz ← read (fun s => get_counter s k);
  _ ← erase_items_loop k (Z.to_nat sz);
  update (set_counter k 0).

Definition basic_cell (s : array_db) (k : K) (i : Z) : option V := ad_items s !! (k, i).

(** The items below the counter are there, and no others. *)
Definition basic_wf (s : array_db) : Prop := forall k, defined_below (basic_cell s k) (get_counter s k).
Definition basic_contents (s : array_db) (k : K) : list V := indexed (basic_cell s k) (get_counter s k).

Lemma get_set_counter (s : array_db) k n k' : get_counter (set_counter k n s) k' = if decide (k' = k) then n else get_counter s k'.
Proof. unfold get_counter. cbn. case_decide; [subst; by rewrite lookup_insert_eq|by rewrite lookup_insert_ne]. Qed.

Lemma basic_push_ok (s : array_db) k v : basic_wf s -> Z.of_nat (List.length (basic_contents s k)) + 1 < 2 ^ 64 ->
  exists s', push_back_item k v s = (Ok tt, s') /\ basic_wf s' /\
    (forall k', basic_contents s' k' = if decide (k' = k) then basic_contents s k ++ [v] else basic_contents s k').
Proof.
  intros Hw Hlen. unfold basic_contents in Hlen. rewrite indexed_length in Hlen by done.
  assert (Hu : u64 (get_counter s k + 1) = get_counter s k + 1) by (destruct (Hw k); apply wrap_small; split; lia).
  exists (set_item k (get_counter s k) v (set_counter k (get_counter s k + 1) s)).
  split; [unfold push_back_item, mbind, st_bind, read, update; by rewrite Hu|].
  assert (H : forall k', let s' := set_item k (get_counter s k) v (set_counter k (get_counter s k + 1) s) in
    defined_below (basic_cell s' k') (get_counter s' k') /\
    basic_contents s' k' = if decide (k' = k) then basic_contents s k ++ [v] else basic_contents s k').
  { intros k'. cbv zeta. unfold basic_contents. change (get_counter (set_item ?a ?b ?c ?d) k') with (get_counter d k').
    rewrite get_set_counter. case_decide as E; [subst k'; apply indexed_push; [apply Hw|]|apply indexed_same; [apply Hw|..]].
    - intros i. unfold basic_cell. cbn. case_decide; [subst; by rewrite lookup_insert_eq|]. by rewrite lookup_insert_ne by congruence.
    - intros i _. unfold basic_cell. cbn. by rewrite lookup_insert_ne by congruence.
    - intros i Hi. unfold basic_cell. cbn. rewrite lookup_insert_ne by congruence. apply (defined_outside _ _ i (Hw k')). lia. }
  split; [intros k'; apply H|intros k'; apply H].
Qed.

Lemma basic_pop_ok (s : array_db) k : basic_wf s ->
  exists s', pop_back_item k s = (Ok tt, s') /\ basic_wf s' /\
    (forall k', basic_contents s' k' = if decide (k' = k) then removelast (basic_contents s k) else basic_contents s k').
Proof.
  intros Hw. unfold pop_back_item, mbind, st_bind, read, update. destruct (get_counter s k =? 0) eqn:E; zbool.
  { exists s. split; [done|]. split; [done|]. intros k'. case_decide; [subst|done]. unfold basic_contents. by rewrite E. }
  set (s' := set_counter k _ _). exists s'. split; [done|].
  assert (H : forall k', defined_below (basic_cell s' k') (get_counter s' k') /\
    basic_contents s' k' = if decide (k' = k) then removelast (basic_contents s k) else basic_contents s k').
  { intros k'. unfold basic_contents, s'. rewrite get_set_counter. change (get_counter (erase_item ?a ?b ?d) k') with (get_counter d k').
    case_decide as Ek; [subst k'; apply indexed_pop; [apply Hw|destruct (Hw k); lia|]|apply indexed_same; [apply Hw|..]].
    - intros i. unfold basic_cell. cbn. case_decide; [subst; by rewrite lookup_delete_eq|]. by rewrite lookup_delete_ne by congruence.
    - intros i _. unfold basic_cell. cbn. by rewrite lookup_delete_ne by congruence.
    - intros i Hi. unfold basic_cell. cbn. rewrite lookup_delete_ne by congruence. apply (defined_outside _ _ i (Hw k')). lia. }
  split; [intros k'; apply H|intros k'; apply H].
Qed.

Lemma erase_items_loop_run (s : array_db) k n : exists s', erase_items_loop k n s = (Ok tt, s') /\ ad_counters s' = ad_counters s /\
  (forall k' i, ad_items s' !! (k', i) = if decide (k' = k /\ 0 <= i < Z.of_nat n) then None else ad_items s !! (k', i)).
Proof.
  revert s. induction n as [|n IH]; intros s.
  { exists s. split; [done|]. split; [done|]. intros k' i. by rewrite decide_False by lia. }
  destruct (IH (erase_item k (Z.of_nat n) s)) as (s' & E & Ec & Ei). exists s'. split; [exact E|]. split; [done|].
  intros k' i. rewrite Ei. cbn. destruct (decide ((k, Z.of_nat n) = (k', i))) as [[= <- <-]|Hne].
  - rewrite lookup_delete_eq, (decide_True (P := k = k /\ 0 <= Z.of_nat n < Z.of_nat (S n))) by (split; [done|lia]). by case_decide.
  - rewrite lookup_delete_ne by done. case_decide as HA; case_decide as HB; try done.
    + destruct HA. destruct HB. split; [done|lia].
    + destruct HB as [-> HB]. assert (i = Z.of_nat n) by (destruct (decide (i = Z.of_nat n)); [done|destruct HA; split; [done|lia]]). by subst.
Qed.

Lemma basic_erase_ok (s : array_db) k : basic_wf s ->
  exists s', erase_items k s = (Ok tt, s') /\ basic_wf s' /\
    (forall k', basic_contents s' k' = if decide (k' = k) then [] else basic_contents s k').
Proof.
  intros Hw. destruct (erase_items_loop_run s k (Z.to_nat (get_counter s k))) as (s1 & E & Ec & Ei).
  exists (set_counter k 0 s1). split; [unfold erase_items, mbind, st_bind, read, update; by rewrite E|].
  assert (H : forall k', let s' := set_counter k 0 s1 in defined_below (basic_cell s' k') (get_counter s' k') /\
    basic_contents s' k' = if decide (k' = k) then [] else basic_contents s k').
  { intros k'. cbv zeta. unfold basic_contents. rewrite get_set_counter.
    assert (Hc : get_counter s1 k' = get_counter s k') by (unfold get_counter; by rewrite Ec). rewrite Hc.
    case_decide as Ek; [subst k'; apply indexed_none|apply indexed_same; [apply Hw|..]].
    - intros i. unfold basic_cell. cbn. rewrite Ei. case_decide as Ed; [done|]. apply (defined_outside _ _ i (Hw k)).
      intros Hi. apply Ed. split; [done|]. destruct (Hw k). lia.
    - intros i _. unfold basic_cell. cbn. rewrite Ei. by rewrite decide_False by (by intros [? _]).
    - intros i Hi. unfold basic_cell. cbn. rewrite Ei, decide_False by (by intros [? _]). apply (defined_outside _ _ i (Hw k')). lia. }
  split; [intros k'; apply H|intros k'; apply H].
Qed.

#[export, program] Instance basic_key_to_array_accessor : ArrayStore K V array_db := {|
  arr_empty := ad_empty; arr_size := get_item_size; arr_get := get_subitem; arr_push := push_back_item;
  arr_pop := pop_back_item; arr_erase := erase_items; arr_wf := basic_wf; arr_contents := basic_contents;
  arr_push_ok := basic_push_ok; arr_pop_ok := basic_pop_ok; arr_erase_ok := basic_erase_ok
|}.
Next Obligation. split; intros k; apply indexed_none; intros i; apply lookup_empty. Qed.
Next Obligation. intros s k Hw. symmetry. apply indexed_length, Hw. Qed.
Next Obligation.
  intros s k i Hw Hi. unfold get_subitem, get_item_size, basic_contents. rewrite (indexed_length _ _ (Hw k)), (indexed_lookup _ _ _ (Hw k)).
  rewrite Z2Nat.id by done. by rewrite Z.leb_antisym; destruct (i <? get_counter s k).
Qed.

End basic.
Arguments array_db : clear implicits.
Arguments array_db K V {_ _}.

(** ** Chunks of items *)

Section chunked.
Context {K V : Type} `{!EqDecision K, !Countable K}.
Context (chunk_size : Z) (Hcs : 0 < chunk_size).

Abbreviation chunk_db := (array_db K (list V)).

Definition get_chunk_index (index : Z) : Z * Z := (index / chunk_size, index mod chunk_size).

Definition get_chunk (k : K) (chunk_index : Z) : st chunk_db (list V) := fun s =>
  (match ad_items s !! (k, chunk_index) with Some chunk => Ok chunk | None => Exn end, s).

Definition c_get_subitem (s : chunk_db) (k : K) (i : Z) : result (option V) :=
  if get_item_size s k <=? i then Exn
  else
    let '(chunk_index, index_inside_chunk) := get_chunk_index i in
    match get_chunk k chunk_index s with
    | (Ok chunk, _) =>
        if Z.of_nat (List.length chunk) <=? index_inside_chunk then Exn else Ok (chunk !! Z.to_nat index_inside_chunk)
    | _ => Exn
    end.

Definition c_push_back_item (k : K) (v : V) : st chunk_db unit :=
  new_index ← read (fun s => get_counter s k);
  let '(chunk_index, index_inside_chunk) := get_chunk_index new_index in
  _ ← (if index_inside_chunk =? 0 then update (set_item k chunk_index [v])
       else
         chunk ← get_chunk k chunk_index;
         let new_chunk := chunk ++ [v] in
         _ ← throw_unless (index_inside_chunk =? Z.of_nat (List.length new_chunk) - 1);
         update (set_item k chunk_index new_chunk));
  update (set_counter k (u64 (new_index + 1))).

(** The [return] of the failed check inside leaves everything as it was. *)
Definition c_pop_back_item (k : K) : st chunk_db unit :=
  sz ← read (fun s => get_counter s k);
  if sz =? 0 then mret tt
  else
    let last_index := sz - 1 in
    let '(chunk_index, index_inside_chunk) := get_chunk_index last_index in
    if index_inside_chunk =? 0 then
      _ ← update (erase_item k chunk_index);
      update (set_counter k last_index)
    else
      chunk ← get_chunk k chunk_index;
      if Z.of_nat (List.length chunk) <=? index_inside_chunk then mret tt
      else
        _ ← update (set_item k chunk_index (removelast chunk));
        update (set_counter k last_index).

Definition c_erase_items (k : K) : st chunk_db unit :=
  sz ← read (fun s => get_counter s k);
  if sz =? 0 then mret tt
  else
    let '(last_chunk_index, _) := get_chunk_index (sz - 1) in
    _ ← for_each (fun chunk_index => update (erase_item k chunk_index)) (seqZ 0 (last_chunk_index + 1));
    update (set_counter k 0).

Definition chunk_cell (s : chunk_db) (k : K) (i : Z) : option V :=
  if i <? 0 then None else chunk ← ad_items s !! (k, i / chunk_size); chunk !! Z.to_nat (i mod chunk_size).

(** A chunk holds the items of its range below the counter. *)
Definition chunk_length (n ci : Z) : Z := Z.min chunk_size (n - ci * chunk_size).
Definition chunk_wf_at (s : chunk_db) (k : K) (n : Z) : Prop :=
  0 <= n /\ (forall ci, match ad_items s !! (k, ci) with
    | Some chunk => 0 <= ci /\ ci * chunk_size < n /\ Z.of_nat (List.length chunk) = chunk_length n ci
    | None => ~ (0 <= ci /\ ci * chunk_size < n) end).
Definition chunk_wf (s : chunk_db) : Prop := forall k, chunk_wf_at s k (get_counter s k).
Definition chunk_contents (s : chunk_db) (k : K) : list V := indexed (chunk_cell s k) (get_counter s k).

Lemma chunk_index_bounds i : 0 <= i -> i = i / chunk_size * chunk_size + i mod chunk_size /\ 0 <= i mod chunk_size < chunk_size /\ 0 <= i / chunk_size.
Proof.
  intros Hi. pose proof (Z.div_mod i chunk_size). pose proof (Z.mod_pos_bound i chunk_size). pose proof (Z.div_pos i chunk_size). lia.
Qed.

Lemma chunk_defined s k n : chunk_wf_at s k n -> defined_below (chunk_cell s k) n.
Proof.
  intros [Hn Hc]. split; [done|]. intros i. unfold chunk_cell. destruct (i <? 0) eqn:E; zbool; [split; [by intros []|lia]|].
  destruct (chunk_index_bounds i) as (Ei & Em & Ed); [lia|]. specialize (Hc (i / chunk_size)).
  destruct (ad_items s !! (k, i / chunk_size)) as [chunk|]; cbn.
  - destruct Hc as (_ & Hlt & Hl). rewrite lookup_lt_is_Some. unfold chunk_length in Hl. lia.
  - split; [by intros []|]. intros Hi. exfalso. apply Hc. nia.
Qed.

Lemma chunk_other (s s' : chunk_db) (k' : K) : (forall ci, ad_items s' !! (k', ci) = ad_items s !! (k', ci)) ->
  get_counter s' k' = get_counter s k' -> chunk_wf_at s k' (get_counter s k') ->
  chunk_wf_at s' k' (get_counter s' k') /\ chunk_contents s' k' = chunk_contents s k'.
Proof.
  intros Hi Hg Hw. split.
  - destruct Hw as [Hn Hc]. rewrite Hg. split; [done|]. intros ci. rewrite Hi. apply Hc.
  - unfold chunk_contents. rewrite Hg. apply indexed_same; [by apply chunk_defined|..].
    + intros i _. unfold chunk_cell. by rewrite Hi.
    + intros i H0. unfold chunk_cell. by rewrite (proj2 (Z.ltb_lt _ _)).
Qed.

(** The last chunk with one more item. *)
Lemma chunk_grow s k n chunk v : chunk_wf_at s k n -> Z.of_nat (List.length chunk) = n mod chunk_size ->
  (n mod chunk_size <> 0 -> ad_items s !! (k, n / chunk_size) = Some chunk) ->
  let s' := set_counter k (n + 1) (set_item k (n / chunk_size) (chunk ++ [v]) s) in
  chunk_wf_at s' k (n + 1) /\ (forall i, chunk_cell s' k i = if decide (i = n) then Some v else chunk_cell s k i).
Proof.
  intros [Hn Hc] Hl Hsome. cbv zeta. destruct (chunk_index_bounds n Hn) as (En & Em & Ed).
  assert (Hitems : forall ci, ad_items (set_counter k (n + 1) (set_item k (n / chunk_size) (chunk ++ [v]) s)) !! (k, ci) =
    if decide (ci = n / chunk_size) then Some (chunk ++ [v]) else ad_items s !! (k, ci)).
  { intros ci. cbn. case_decide; [subst; by rewrite lookup_insert_eq|by rewrite lookup_insert_ne by congruence]. }
  split.
  - split; [lia|]. intros ci. rewrite Hitems. specialize (Hc ci). case_decide as E.
    + subst ci. rewrite length_app. cbn [List.length]. unfold chunk_length. lia.
    + unfold chunk_length in *. destruct (ad_items s !! (k, ci)); [|nia]. split_and!; [lia|lia|]. nia.
  - intros i. unfold chunk_cell. destruct (i <? 0) eqn:E; zbool; [rewrite decide_False by lia; done|].
    destruct (chunk_index_bounds i E) as (Ei & Em' & Ed'). rewrite Hitems. case_decide as Hci; cbn; [|rewrite decide_False; [done|by intros ->]].
    case_decide as Hin; [subst i|].
    + rewrite lookup_app_r by lia. by replace (_ - _)%nat with 0%nat by lia.
    + assert (Hne : i mod chunk_size <> n mod chunk_size) by (rewrite Hci in Ei; lia).
      rewrite Hci. destruct (decide (n mod chunk_size = 0)) as [Hz|Hz].
      * rewrite lookup_ge_None_2 by (rewrite length_app; cbn; lia). specialize (Hc (n / chunk_size)).
        destruct (ad_items s !! _); [lia|done].
      * rewrite Hsome by done. cbn. destruct (decide (i mod chunk_size < n mod chunk_size)).
        -- by rewrite lookup_app_l by lia.
        -- rewrite !lookup_ge_None_2; [done|lia|rewrite length_app; cbn; lia].
Qed.

Lemma chunk_push_ok s k v : chunk_wf s -> Z.of_nat (List.length (chunk_contents s k)) + 1 < 2 ^ 64 ->
  exists s', c_push_back_item k v s = (Ok tt, s') /\ chunk_wf s' /\
    (forall k', chunk_contents s' k' = if decide (k' = k) then chunk_contents s k ++ [v] else chunk_contents s k').
Proof.
  intros Hw Hlen. unfold chunk_contents in Hlen. rewrite indexed_length in Hlen by (by apply chunk_defined).
  destruct (Hw k) as [Hn Hc]. set (n := get_counter s k) in *.
  assert (Hu : u64 (n + 1) = n + 1) by (apply wrap_small; split; lia).
  destruct (chunk_index_bounds n Hn) as (En & Em & Ed).
  (* the chunk that is written *)
  assert (Hchunk : exists chunk, c_push_back_item k v s = (Ok tt, set_counter k (n + 1) (set_item k (n / chunk_size) (chunk ++ [v]) s)) /\
    Z.of_nat (List.length chunk) = n mod chunk_size /\
    (n mod chunk_size <> 0 -> ad_items s !! (k, n / chunk_size) = Some chunk) /\ (n mod chunk_size = 0 -> chunk = [])).
  { unfold c_push_back_item, mbind, st_bind, read, update, get_chunk_index, get_chunk, throw_unless. fold n. rewrite Hu.
    specialize (Hc (n / chunk_size)). destruct (n mod chunk_size =? 0) eqn:E; zbool; [by exists []|].
    destruct (ad_items s !! (k, n / chunk_size)) as [chunk|].
    - destruct Hc as (_ & Hlt & Hl). unfold chunk_length in Hl. exists chunk. rewrite length_app. cbn [List.length].
      replace (_ =? _) with true by (symmetry; apply Z.eqb_eq; lia). split_and!; [done|lia|done|lia].
    - exfalso. apply Hc. lia. }
  destruct Hchunk as (chunk & Erun & Hl & Hsome & Hnil). eexists. split; [exact Erun|].
  assert (H : forall k', let s' := set_counter k (n + 1) (set_item k (n / chunk_size) (chunk ++ [v]) s) in
    chunk_wf_at s' k' (get_counter s' k') /\
    chunk_contents s' k' = if decide (k' = k) then chunk_contents s k ++ [v] else chunk_contents s k').
  { intros k'. cbv zeta. destruct (decide (k' = k)) as [->|Hne].
    - destruct (chunk_grow s k n chunk v (conj Hn Hc) Hl Hsome) as [Hw' Hcell]. unfold chunk_contents.
      rewrite get_set_counter, decide_True by done. split; [done|]. apply indexed_push; [by apply chunk_defined|done].
    - apply (chunk_other s _ k'); [|unfold get_counter; cbn; by rewrite lookup_insert_ne|apply Hw].
      intros ci. cbn. by rewrite lookup_insert_ne by congruence. }
  split; [intros k'; apply H|intros k'; apply H].
Qed.

(** The last chunk with one item less. *)
Lemma chunk_shrink (s s' : chunk_db) k n : chunk_wf_at s k n -> 0 < n ->
  (forall ci, ad_items s' !! (k, ci) = if decide (ci = (n - 1) / chunk_size) then
     if (n - 1) mod chunk_size =? 0 then None else @removelast V <$> ad_items s !! (k, ci)
     else ad_items s !! (k, ci)) ->
  chunk_wf_at s' k (n - 1) /\ (forall i, chunk_cell s' k i = if decide (i = n - 1) then None else chunk_cell s k i).
Proof.
  intros [Hn Hc] Hpos Hitems. destruct (chunk_index_bounds (n - 1)) as (En & Em & Ed); [lia|].
  assert (Hlast : exists l x, ad_items s !! (k, (n - 1) / chunk_size) = Some (l ++ [x]) /\ Z.of_nat (List.length l) = (n - 1) mod chunk_size).
  { specialize (Hc ((n - 1) / chunk_size)). destruct (ad_items s !! _) as [chunk|]; [|exfalso; apply Hc; lia].
    destruct Hc as (_ & Hlt & Hl). unfold chunk_length in Hl. destruct chunk as [|x l _] using rev_ind; [cbn in Hl; lia|].
    rewrite length_app in Hl. cbn in Hl. exists l, x. split; [done|lia]. }
  destruct Hlast as (l & x & Hlast & Hll). split.
  - split; [lia|]. intros ci. rewrite Hitems. specialize (Hc ci). unfold chunk_length in *. case_decide as E.
    + subst ci. rewrite Hlast in *. destruct (_ =? 0) eqn:Ez; zbool; [lia|]. cbn. rewrite removelast_last. lia.
    + destruct (ad_items s !! (k, ci)); [|lia]. split_and!; [lia|nia|]. nia.
  - intros i. unfold chunk_cell. destruct (i <? 0) eqn:E; zbool; [rewrite decide_False by lia; done|].
    destruct (chunk_index_bounds i E) as (Ei & Em' & Ed'). rewrite Hitems. case_decide as Hci; cbn; [|rewrite decide_False; [done|by intros ->]].
    rewrite Hci, Hlast in *. destruct ((n - 1) mod chunk_size =? 0) eqn:Ez; zbool; cbn.
    + case_decide; [done|]. rewrite lookup_ge_None_2; [done|]. rewrite length_app. cbn.
      assert (i mod chunk_size <> 0) by lia. lia.
    + rewrite removelast_last. case_decide as Hin; [apply lookup_ge_None_2; lia|].
      destruct (decide (i mod chunk_size < (n - 1) mod chunk_size)); [by rewrite lookup_app_l by lia|].
      rewrite !lookup_ge_None_2; [done|rewrite length_app; cbn; lia|lia].
Qed.

Lemma chunk_pop_ok s k : chunk_wf s ->
  exists s', c_pop_back_item k s = (Ok tt, s') /\ chunk_wf s' /\
    (forall k', chunk_contents s' k' = if decide (k' = k) then removelast (chunk_contents s k) else chunk_contents s k').
Proof.
  intros Hw. set (n := get_counter s k) in *. destruct (decide (n = 0)) as [E|E].
  { exists s. split; [unfold c_pop_back_item, mbind, st_bind, read; fold n; by rewrite E|]. split; [done|].
    intros k'. case_decide; [subst k'|done]. unfold chunk_contents. fold n. by rewrite E. }
  destruct (Hw k) as [Hn Hc]. fold n in Hn, Hc. destruct (chunk_index_bounds (n - 1)) as (En & Em & Ed); [lia|].
  assert (Hrun : exists s', c_pop_back_item k s = (Ok tt, s') /\ ad_counters s' = <[k := n - 1]> (ad_counters s) /\
    (forall k' ci, ad_items s' !! (k', ci) = if decide (k' = k /\ ci = (n - 1) / chunk_size) then
       if (n - 1) mod chunk_size =? 0 then None else @removelast V <$> ad_items s !! (k', ci) else ad_items s !! (k', ci))).
  { unfold c_pop_back_item, mbind, st_bind, read, update, get_chunk_index, get_chunk. fold n. rewrite (proj2 (Z.eqb_neq n 0) E).
    specialize (Hc ((n - 1) / chunk_size)). destruct ((n - 1) mod chunk_size =? 0) eqn:Ez; zbool.
    - eexists. split; [reflexivity|]. split; [done|]. intros k' ci. cbn. case_decide as Ed'; [destruct Ed' as [-> ->]; by rewrite lookup_delete_eq|].
      rewrite lookup_delete_ne; [done|]. intros [= <- <-]. by apply Ed'.
    - destruct (ad_items s !! (k, (n - 1) / chunk_size)) as [chunk|] eqn:Ech; [|exfalso; apply Hc; lia].
      destruct Hc as (_ & Hlt & Hl). unfold chunk_length in Hl.
      rewrite (proj2 (Z.leb_gt _ _)) by lia. eexists. split; [reflexivity|]. split; [done|]. intros k' ci. cbn.
      case_decide as Ed'; [destruct Ed' as [-> ->]; by rewrite lookup_insert_eq, Ech|].
      rewrite lookup_insert_ne; [done|]. intros [= <- <-]. by apply Ed'. }
  destruct Hrun as (s' & Hrun & Hcount & Hitems). exists s'. split; [exact Hrun|].
  assert (H : forall k', chunk_wf_at s' k' (get_counter s' k') /\
    chunk_contents s' k' = if decide (k' = k) then removelast (chunk_contents s k) else chunk_contents s k').
  { intros k'. destruct (decide (k' = k)) as [->|Hne].
    - assert (Hg : get_counter s' k = n - 1) by (unfold get_counter; rewrite Hcount; by rewrite lookup_insert_eq).
      destruct (chunk_shrink s s' k n (conj Hn Hc)) as [Hw' Hcell]; [lia| |].
      { intros ci. rewrite Hitems. destruct (decide (ci = _)) as [->|]; [by rewrite decide_True|by rewrite decide_False by (by intros [_ ?])]. }
      unfold chunk_contents. rewrite Hg. split; [done|]. apply indexed_pop; [by apply chunk_defined|lia|done].
    - apply (chunk_other s _ k'); [|unfold get_counter; rewrite Hcount; by rewrite lookup_insert_ne|apply Hw].
      intros ci. rewrite Hitems. by rewrite decide_False by (by intros [? _]). }
  split; [intros k'; apply H|intros k'; apply H].
Qed.

Lemma erase_chunks_run (s : chunk_db) k l : exists s', for_each (fun ci => update (erase_item k ci)) l s = (Ok tt, s') /\
  ad_counters s' = ad_counters s /\
  (forall k' ci, ad_items s' !! (k', ci) = if decide (k' = k /\ ci ∈ l) then None else ad_items s !! (k', ci)).
Proof.
  revert s. induction l as [|c l IH]; intros s.
  { exists s. split; [done|]. split; [done|]. intros k' ci. by rewrite decide_False by (intros [_ ?]; by apply not_elem_of_nil in H). }
  destruct (IH (erase_item k c s)) as (s' & E & Ec & Ei). exists s'. split; [exact E|]. split; [done|].
  intros k' ci. rewrite Ei. cbn. case_decide as HA.
  - by rewrite decide_True by (destruct HA; split; [done|by right]).
  - destruct (decide ((k, c) = (k', ci))) as [[= <- <-]|Hne].
    + rewrite lookup_delete_eq, decide_True; [done|]. split; [done|by left].
    + rewrite lookup_delete_ne by done. rewrite decide_False; [done|]. intros [-> Hin].
      apply elem_of_cons in Hin as [->|Hin]; [done|by apply HA].
Qed.

Lemma chunk_erase_ok (s : chunk_db) k : chunk_wf s ->
  exists s', c_erase_items k s = (Ok tt, s') /\ chunk_wf s' /\
    (forall k', chunk_contents s' k' = if decide (k' = k) then [] else chunk_contents s k').
Proof.
  intros Hw. set (n := get_counter s k). destruct (decide (n = 0)) as [E|E].
  { exists s. split; [unfold c_erase_items, mbind, st_bind, read; fold n; by rewrite E|]. split; [done|].
    intros k'. case_decide; [subst k'|done]. unfold chunk_contents. fold n. by rewrite E. }
  destruct (Hw k) as [Hn Hc]. fold n in Hn, Hc.
  destruct (erase_chunks_run s k (seqZ 0 ((n - 1) / chunk_size + 1))) as (s1 & Erun & Ec & Ei).
  exists (set_counter k 0 s1). split.
  { unfold c_erase_items, mbind, st_bind, read, update, get_chunk_index. fold n. rewrite (proj2 (Z.eqb_neq n 0) E).
    change (fun ci s => (Ok tt, erase_item k ci s)) with (fun ci => update (erase_item (V := list V) k ci)). by rewrite Erun. }
  assert (H : forall k', chunk_wf_at (set_counter k 0 s1) k' (get_counter (set_counter k 0 s1) k') /\
    chunk_contents (set_counter k 0 s1) k' = if decide (k' = k) then [] else chunk_contents s k').
  { intros k'. destruct (decide (k' = k)) as [->|Hne].
    - unfold chunk_contents. rewrite get_set_counter, decide_True by done. split; [|done]. split; [done|].
      intros ci. cbn. rewrite Ei. case_decide as HA; [lia|]. specialize (Hc ci). destruct (ad_items s !! _); [|nia].
      destruct HA. split; [done|]. apply elem_of_seqZ. destruct Hc as (H0 & Hlt & _).
      assert (ci <= (n - 1) / chunk_size) by (apply Z.div_le_lower_bound; lia). lia.
    - apply (chunk_other s _ k'); [|unfold get_counter; cbn; rewrite Ec; by rewrite lookup_insert_ne|apply Hw].
      intros ci. cbn. rewrite Ei. by rewrite decide_False by (by intros [? _]). }
  split; [intros k'; apply H|intros k'; apply H].
Qed.

Lemma chunk_get_ok (s : chunk_db) k i : chunk_wf s -> 0 <= i -> c_get_subitem s k i =
  if i <? Z.of_nat (List.length (chunk_contents s k)) then Ok (chunk_contents s k !! Z.to_nat i) else Exn.
Proof.
  intros Hw Hi. pose proof (chunk_defined s k _ (Hw k)) as Hd. unfold c_get_subitem, get_item_size, chunk_contents, get_chunk_index.
  rewrite (indexed_length _ _ Hd), (indexed_lookup _ _ _ Hd), Z2Nat.id by done.
  rewrite Z.leb_antisym. destruct (i <? get_counter s k) eqn:E; zbool; [|done]. cbn [negb]. unfold get_chunk, chunk_cell.
  rewrite (proj2 (Z.ltb_ge i 0)) by done. destruct (Hw k) as [Hn Hc]. specialize (Hc (i / chunk_size)).
  destruct (chunk_index_bounds i Hi) as (Ei & Em & Ed).
  destruct (ad_items s !! _) as [chunk|]; [|exfalso; apply Hc; lia]. cbn. destruct Hc as (_ & _ & Hl). unfold chunk_length in Hl.
  by rewrite (proj2 (Z.leb_gt _ _)) by lia.
Qed.

#[export, program] Instance chunked_key_to_array_accessor : ArrayStore K V chunk_db := {|
  arr_empty := ad_empty; arr_size := get_item_size; arr_get := c_get_subitem; arr_push := c_push_back_item;
  arr_pop := c_pop_back_item; arr_erase := c_erase_items; arr_wf := chunk_wf; arr_contents := chunk_contents;
  arr_get_ok := chunk_get_ok; arr_push_ok := chunk_push_ok; arr_pop_ok := chunk_pop_ok; arr_erase_ok := chunk_erase_ok
|}.
Next Obligation.
  split; [|intros k; apply indexed_none; intros i; unfold chunk_cell; by destruct (i <? 0)].
  intros k. assert (E : get_counter (V := list V) ad_empty k = 0) by (unfold get_counter; cbn; by rewrite lookup_empty).
  rewrite E. split; [done|]. intros ci. cbn. rewrite lookup_empty. nia.
Qed.
Next Obligation. intros s k Hw. symmetry. apply indexed_length, chunk_defined, Hw. Qed.

End chunked.

(** ** Refinement

    A client sees the outcome of every operation.  Any sequence of operations
    has the outcomes of the same sequence on plain lists. *)

Inductive array_op (K V : Type) : Type :=
| OpSize (k : K)
| OpGet (k : K) (i : Z)
| OpPush (k : K) (v : V)
| OpPop (k : K)
| OpErase (k : K).
Arguments OpSize {K V} k.
Arguments OpGet {K V} k i.
Arguments OpPush {K V} k v.
Arguments OpPop {K V} k.
Arguments OpErase {K V} k.

Inductive array_answer (V : Type) : Type :=
| AnsSize (n : Z)
| AnsGet (r : result (option V))
| AnsDone (r : result unit).
Arguments AnsSize {V} n.
Arguments AnsGet {V} r.
Arguments AnsDone {V} r.

Section refinement.
Context {K V T : Type} `{!EqDecision K} {A : ArrayStore K V T}.

Definition array_step (op : array_op K V) (s : T) : array_answer V * T :=
  match op with
  | OpSize k => (AnsSize (arr_size s k), s)
  | OpGet k i => (AnsGet (arr_get s k i), s)
  | OpPush k v => let '(r, s) := arr_push k v s in (AnsDone r, s)
  | OpPop k => let '(r, s) := arr_pop k s in (AnsDone r, s)
  | OpErase k => let '(r, s) := arr_erase k s in (AnsDone r, s)
  end.

Definition list_upd (c : K -> list V) (k : K) (l : list V) : K -> list V := fun k' => if decide (k' = k) then l else c k'.

Definition list_step (op : array_op K V) (c : K -> list V) : array_answer V * (K -> list V) :=
  match op with
  | OpSize k => (AnsSize (Z.of_nat (List.length (c k))), c)
  | OpGet k i => (AnsGet (if i <? Z.of_nat (List.length (c k)) then Ok (c k !! Z.to_nat i) else Exn), c)
  | OpPush k v => (AnsDone (Ok tt), list_upd c k (c k ++ [v]))
  | OpPop k => (AnsDone (Ok tt), list_upd c k (removelast (c k)))
  | OpErase k => (AnsDone (Ok tt), list_upd c k [])
  end.

Fixpoint run_ops {S} (step : array_op K V -> S -> array_answer V * S) (ops : list (array_op K V)) (s : S)
    : list (array_answer V) * S :=
  match ops with
  | [] => ([], s)
  | op :: ops => let '(a, s) := step op s in let '(l, s) := run_ops step ops s in (a :: l, s)
  end.

(** Indices are [uint64_t]. *)
Definition op_ok (op : array_op K V) : Prop := match op with OpGet _ i => 0 <= i | _ => True end.

Definition represents (s : T) (c : K -> list V) : Prop := arr_wf s /\ (forall k, arr_contents s k = c k).

Definition short (n : nat) (c : K -> list V) : Prop := forall k, (List.length (c k) <= n)%nat.

Lemma array_step_refines op s c n : op_ok op -> represents s c -> short n c -> Z.of_nat n + 1 < 2 ^ 64 ->
  fst (array_step op s) = fst (list_step op c) /\ represents (snd (array_step op s)) (snd (list_step op c)) /\
  short (S n) (snd (list_step op c)).
Proof.
  intros Hop [Hw Hc] Hs Hn. assert (Hs' : short (S n) c) by (intros k; specialize (Hs k); lia).
  assert (Hl : forall k, Z.of_nat (List.length (arr_contents s k)) + 1 < 2 ^ 64) by (intros k; rewrite Hc; specialize (Hs k); lia).
  destruct op as [k|k i|k v|k|k]; cbn [array_step list_step fst snd op_ok] in *.
  - rewrite arr_size_ok, Hc by done. done.
  - rewrite arr_get_ok, Hc by done. done.
  - destruct (arr_push_ok s k v Hw (Hl k)) as (s' & -> & Hw' & Hc'). cbn. split; [done|]. split.
    + split; [done|]. intros k'. rewrite Hc'. unfold list_upd. by case_decide; rewrite Hc.
    + intros k'. unfold list_upd. case_decide; [rewrite length_app; cbn; specialize (Hs k); lia|apply Hs'].
  - destruct (arr_pop_ok s k Hw) as (s' & -> & Hw' & Hc'). cbn. split; [done|]. split.
    + split; [done|]. intros k'. rewrite Hc'. unfold list_upd. by case_decide; rewrite Hc.
    + intros k'. unfold list_upd. case_decide; [|apply Hs'].
      specialize (Hs k). destruct (c k) as [|x l _] using rev_ind; [cbn; lia|]. rewrite removelast_last. rewrite length_app in Hs. lia.
  - destruct (arr_erase_ok s k Hw) as (s' & -> & Hw' & Hc'). cbn. split; [done|]. split.
    + split; [done|]. intros k'. rewrite Hc'. unfold list_upd. case_decide; [done|apply Hc].
    + intros k'. unfold list_upd. case_decide; [cbn; lia|apply Hs'].
Qed.

Lemma run_ops_refines ops s c n : Forall op_ok ops -> represents s c -> short n c ->
  Z.of_nat n + Z.of_nat (List.length ops) < 2 ^ 64 ->
  fst (run_ops array_step ops s) = fst (run_ops list_step ops c) /\
  represents (snd (run_ops array_step ops s)) (snd (run_ops list_step ops c)).
Proof.
  intros Hops. revert s c n. induction Hops as [|op ops Hop _ IH]; intros s c n Hr Hs Hn; [done|].
  cbn [run_ops List.length] in *. destruct (array_step_refines op s c n Hop Hr Hs) as (Ha & Hr' & Hs'); [lia|].
  destruct (array_step op s) as [a s1], (list_step op c) as [a' c1]. cbn [fst snd] in *. subst a'.
  destruct (IH s1 c1 (S n) Hr' Hs') as [Hl Hr'']; [lia|].
  destruct (run_ops array_step ops s1), (run_ops list_step ops c1). cbn [fst snd] in *. by subst.
Qed.

End refinement.

(** C35: both array containers refine plain lists: from the empty container, any
    sequence of fewer than 2^64 operations on any keys gives the answers
    (sizes, items, exceptions for an index out of range) that the same
    sequence gives on one list per key, whatever the size of the chunks. *)
Theorem array_containers_refine_lists {K V} `{!EqDecision K, !Countable K} (chunk_size : Z) (Hcs : 0 < chunk_size)
    (ops : list (array_op K V)) : Forall op_ok ops -> Z.of_nat (List.length ops) < 2 ^ 64 ->
  fst (run_ops (array_step (A := basic_key_to_array_accessor)) ops ad_empty) = fst (run_ops list_step ops (fun _ => [])) /\
  fst (run_ops (array_step (A := chunked_key_to_array_accessor chunk_size Hcs)) ops ad_empty) =
    fst (run_ops list_step ops (fun _ => [])).
Proof.
  intros Hops Hn. assert (Hs : short (K := K) (V := V) 0 (fun _ => [])) by (intros k; cbn; lia).
  split.
  - apply (run_ops_refines ops _ _ 0 Hops); [exact (@arr_empty_ok K V _ _ basic_key_to_array_accessor)|exact Hs|exact Hn].
  - apply (run_ops_refines ops _ _ 0 Hops); [exact (@arr_empty_ok K V _ _ (chunked_key_to_array_accessor chunk_size Hcs))|exact Hs|exact Hn].
Qed.

Example array_containers_refine_lists_witness :
  let ops := [OpPush 7 1; OpPush 7 2; OpPush 8 3; OpPush 7 4; OpGet 7 2; OpPop 7; OpGet 7 2; OpErase 8; OpSize 8] in
  Forall op_ok ops /\
  fst (run_ops (array_step (A := chunked_key_to_array_accessor 2 (eq_refl : 0 < 2))) ops ad_empty) =
  [AnsDone (Ok tt); AnsDone (Ok tt); AnsDone (Ok tt); AnsDone (Ok tt); AnsGet (Ok (Some 4)); AnsDone (Ok tt);
   AnsGet Exn; AnsDone (Ok tt); AnsSize 0].
Proof.
  cbv zeta. match goal with |- Forall op_ok ?l /\ _ => assert (H : Forall op_ok l) by (repeat constructor; cbn; lia) end.
  split; [exact H|].
  destruct (array_containers_refine_lists 2 (eq_refl : 0 < 2) _ H ltac:(done)) as [_ ->]. vm_compute. reflexivity.
Defined.
