(* ===== verification/Lmdb.v ===== *)
(** * The LMDB back end: [src/src/common/db_backend_lmdb.cpp]

    What a container reads and writes when nothing is cached: the nested
    transactions of every thread, the write lock, and the reference counting
    that lets a thread open read-only transactions inside others.  The LMDB
    library itself is used as its header documents it
    ([src/contrib/db/liblmdb/lmdb.h]): a read-only transaction reads the records
    committed when it began, a write transaction the records of its parent with
    its own changes, and only a write transaction changes records.  One table is
    modelled; the calls of the library do not run out of memory, map or reader
    slots. *)

From S2P Require Import Prelude StateM.

Abbreviation thread := Z.

Section lmdb.
Context {K V : Type} `{!EqDecision K, !Countable K}.

(** ** The library *)

(** An open transaction: whether it was begun with [MDB_RDONLY], whether it has
    a parent, and the records it reads. *)
Record MDB_txn : Type := { mt_rdonly : bool; mt_nested : bool; mt_records : gmap K V }.

Definition mdb_txn_begin (committed : gmap K V) (parent : option MDB_txn) (rdonly : bool) : MDB_txn :=
  {| mt_rdonly := rdonly; mt_nested := bool_decide (is_Some parent);
     mt_records := match parent with Some p => mt_records p | None => committed end |}.

(** The handle is null when the thread has no transaction; [None] is an error. *)
Definition mdb_get (tx : option MDB_txn) (k : K) : option V := tx ≫= fun p => mt_records p !! k.
Definition mdb_put (tx : option MDB_txn) (k : K) (v : V) : option MDB_txn :=
  p ← tx; if mt_rdonly p then None
          else Some {| mt_rdonly := false; mt_nested := mt_nested p; mt_records := <[k := v]> (mt_records p) |}.
Definition mdb_del (tx : option MDB_txn) (k : K) : option MDB_txn :=
  p ← tx; if mt_rdonly p then None
          else match mt_records p !! k with
               | None => None
               | Some _ => Some {| mt_rdonly := false; mt_nested := mt_nested p; mt_records := delete k (mt_records p) |}
               end.

(** ** The back end *)

Record lmdb_txn : Type := { m_ptx : MDB_txn; m_read_only : bool; m_ref_count : nat }.

(** [m_related_tx_object] points to a transaction of the same list: its position
    from the beginning. *)
Record each_call_handler : Type := { m_related_tx_object : nat; call_read_only : bool }.

(** Both lists innermost first ([back()] is the head). *)
Record thread_transactions : Type := { m_calls : list each_call_handler; m_txs : list lmdb_txn }.
Definition no_transactions : thread_transactions := {| m_calls := []; m_txs := [] |}.

(** The committed records, the owner and depth of [m_write_exclusive_lock], and
    the transactions of each thread; a thread without any has no entry. *)
Record backend : Type := {
  committed : gmap K V;
  m_write_exclusive_lock : option (thread * nat);
  all_txs : gmap thread thread_transactions
}.

Definition txs_of (t : thread) (b : backend) : thread_transactions := default no_transactions (all_txs b !! t).
Definition set_txs (t : thread) (tt : thread_transactions) (b : backend) : backend :=
  {| committed := committed b; m_write_exclusive_lock := m_write_exclusive_lock b;
     all_txs := match m_txs tt, m_calls tt with [], [] => delete t (all_txs b) | _, _ => <[t := tt]> (all_txs b) end |}.
Definition set_lock (l : option (thread * nat)) (b : backend) : backend :=
  {| committed := committed b; m_write_exclusive_lock := l; all_txs := all_txs b |}.
Definition set_committed (m : gmap K V) (b : backend) : backend :=
  {| committed := m; m_write_exclusive_lock := m_write_exclusive_lock b; all_txs := all_txs b |}.

(** A recursive mutex: [lock_section] is only called when it does not block. *)
Definition lock_blocks (t : thread) (l : option (thread * nat)) : bool :=
  match l with Some (w, _) => negb (w =? t) | None => false end.
Definition lock_section (t : thread) (l : option (thread * nat)) : option (thread * nat) :=
  match l with Some (_, n) => Some (t, S n) | None => Some (t, 1%nat) end.
Definition unlock_section (l : option (thread * nat)) : option (thread * nat) :=
  match l with Some (w, S (S n)) => Some (w, S n) | _ => None end.

Definition get_current_tx (t : thread) (b : backend) : option MDB_txn := m_ptx <$> head (m_txs (txs_of t b)).

Definition txn_begin (committed : gmap K V) (parent : option MDB_txn) (tx : option lmdb_txn) (read_only : bool) : lmdb_txn :=
  match tx with
  | Some tx => {| m_ptx := m_ptx tx; m_read_only := m_read_only tx; m_ref_count := S (m_ref_count tx) |}
  | None => {| m_ptx := mdb_txn_begin committed parent read_only; m_read_only := read_only; m_ref_count := 1 |}
  end.

Definition db_begin (t : thread) (read_only : bool) : st backend unit := fun b =>
  let b := if read_only then b else set_lock (lock_section t (m_write_exclusive_lock b)) b in
  let '{| m_calls := calls; m_txs := txs |} := txs_of t b in
  let txs :=
    match txs with
    | [] => [txn_begin (committed b) None None read_only]
    | tx :: rest =>
        if read_only then txn_begin (committed b) None (Some tx) read_only :: rest
        else let parent := if m_read_only tx then None else Some (m_ptx tx) in
             txn_begin (committed b) parent None read_only :: txs
    end in
  (Ok tt, set_txs t {| m_calls := {| m_related_tx_object := List.length txs; call_read_only := read_only |} :: calls;
                       m_txs := txs |} b).

(** The end of the innermost transaction of the library, whose handle leaves
    the list: [mdb_txn_commit] hands its records to the parent or to the
    database, [mdb_txn_abort] drops them. *)
Definition txn_close (is_commit : bool) (tx : lmdb_txn) (rest : list lmdb_txn) (m : gmap K V) : list lmdb_txn * gmap K V :=
  if m_read_only tx || negb is_commit then (rest, m)
  else if mt_nested (m_ptx tx) then
    match rest with
    | p :: rest =>
        ({| m_ptx := {| mt_rdonly := mt_rdonly (m_ptx p); mt_nested := mt_nested (m_ptx p); mt_records := mt_records (m_ptx tx) |};
            m_read_only := m_read_only p; m_ref_count := m_ref_count p |} :: rest, m)
    | [] => ([], m)
    end
  else (rest, mt_records (m_ptx tx)).

Definition pop_the_call (t : thread) (is_commit : bool) : st backend unit := fun b =>
  match txs_of t b with
  | {| m_calls := call :: calls; m_txs := tx :: rest |} =>
      if negb (Nat.eqb (m_related_tx_object call) (List.length (tx :: rest))) then (Exn, b)
      else if Nat.eqb (m_ref_count tx) 1 && negb (Bool.eqb (call_read_only call) (m_read_only tx)) then (Exn, b)
      else
        let '(txs, m) :=
          match m_ref_count tx with
          | S (S n) => ({| m_ptx := m_ptx tx; m_read_only := m_read_only tx; m_ref_count := S n |} :: rest, committed b)
          | _ => txn_close is_commit tx rest (committed b)
          end in
        let b := set_committed m b in
        let b := if call_read_only call then b else set_lock (unlock_section (m_write_exclusive_lock b)) b in
        (Ok tt, set_txs t {| m_calls := calls; m_txs := txs |} b)
  | _ => (Exn, b)
  end.

Definition db_commit (t : thread) : st backend unit := pop_the_call t true.
Definition db_abort (t : thread) : st backend unit := pop_the_call t false.

(** [mdb_put] and [mdb_del] change the records of the current transaction. *)
Definition set_current_tx (t : thread) (p : MDB_txn) (b : backend) : backend :=
  let '{| m_calls := calls; m_txs := txs |} := txs_of t b in
  match txs with
  | tx :: rest =>
      set_txs t {| m_calls := calls;
                   m_txs := {| m_ptx := p; m_read_only := m_read_only tx; m_ref_count := m_ref_count tx |} :: rest |} b
  | [] => b
  end.

Definition db_set (t : thread) (k : K) (v : V) : st backend bool := fun b =>
  match mdb_put (get_current_tx t b) k v with
  | Some p => (Ok true, set_current_tx t p b)
  | None => (Ok false, b)
  end.

Definition db_erase (t : thread) (k : K) : st backend bool := fun b =>
  match mdb_del (get_current_tx t b) k with
  | Some p => (Ok true, set_current_tx t p b)
  | None => (Ok false, b)
  end.

(** [BEGIN_TX_LOCAL(true)], the reading, [COMMIT_TX_LOCAL()]. *)
Definition in_local_tx {A} (t : thread) (f : option MDB_txn -> A) : st backend A :=
  _ ← db_begin t true; a ← read (fun b => f (get_current_tx t b)); _ ← db_commit t; mret a.

Definition db_get (t : thread) (k : K) : st backend (option V) := in_local_tx t (fun tx => mdb_get tx k).
Definition db_size (t : thread) : st backend Z :=
  in_local_tx t (fun tx => match tx with Some p => Z.of_nat (base.size (mt_records p)) | None => 0 end).

(** ** What the transactions keep *)

(** The calls of a thread and its transactions: a read-only transaction is at
    the beginning of the list or nowhere, a write transaction is nested in the
    write transaction under it, and the other calls are references. *)
Inductive stack_ok : list each_call_handler -> list lmdb_txn -> Prop :=
| stack_empty : stack_ok [] []
| stack_begin calls txs tx :
    stack_ok calls txs -> m_ref_count tx = 1%nat -> mt_rdonly (m_ptx tx) = m_read_only tx ->
    (m_read_only tx = true -> txs = []) ->
    mt_nested (m_ptx tx) = match txs with p :: _ => negb (m_read_only p) | [] => false end ->
    stack_ok ({| m_related_tx_object := S (List.length txs); call_read_only := m_read_only tx |} :: calls) (tx :: txs)
| stack_reference calls tx txs :
    stack_ok calls (tx :: txs) ->
    stack_ok ({| m_related_tx_object := S (List.length txs); call_read_only := true |} :: calls)
      ({| m_ptx := m_ptx tx; m_read_only := m_read_only tx; m_ref_count := S (m_ref_count tx) |} :: txs).

Definition calls_of (t : thread) (b : backend) : list each_call_handler := m_calls (txs_of t b).

(** Number of write transactions begun and not ended. *)
Definition writers (calls : list each_call_handler) : nat := List.length (filter (fun c => call_read_only c = false) calls).
Definition is_writer (t : thread) (b : backend) : bool :=
  match get_current_tx t b with Some p => negb (mt_rdonly p) | None => false end.

(** The records a thread reads, and those of the thread that writes. *)
Definition view (t : thread) (b : backend) : gmap K V :=
  match get_current_tx t b with Some p => mt_records p | None => committed b end.
Definition top_view (b : backend) : gmap K V :=
  match m_write_exclusive_lock b with Some (w, _) => view w b | None => committed b end.

Record backend_wf (b : backend) : Prop := {
  wf_stacks t : stack_ok (calls_of t b) (m_txs (txs_of t b));
  wf_lock t : writers (calls_of t b) = match m_write_exclusive_lock b with Some (w, n) => if decide (w = t) then n else O | None => O end;
  wf_depth w n : m_write_exclusive_lock b = Some (w, n) -> n <> O;
  wf_entries t : all_txs b !! t <> Some no_transactions
}.

(** Transactions that differ in their records and their references only. *)
Definition same_txn (tx tx' : lmdb_txn) : Prop :=
  m_read_only tx = m_read_only tx' /\ m_ref_count tx = m_ref_count tx' /\
  mt_rdonly (m_ptx tx) = mt_rdonly (m_ptx tx') /\ mt_nested (m_ptx tx) = mt_nested (m_ptx tx').

Lemma stack_ok_nil calls : stack_ok calls [] -> calls = [].
Proof. by inversion 1. Qed.

Lemma stack_ok_same calls tx tx' txs : stack_ok calls (tx :: txs) -> same_txn tx tx' -> stack_ok calls (tx' :: txs).
Proof.
  remember (tx :: txs) as l eqn:El. intros Hs. revert tx tx' txs El.
  induction Hs as [|calls l tx0 Hs IH Hr Hm Hb Hn|calls tx0 l Hs IH]; intros tx tx' txs [= <- <-] (E1 & E2 & E3 & E4).
  - rewrite E1. apply stack_begin; [done|congruence|congruence|intros H; apply Hb; congruence|congruence].
  - destruct tx' as [p ro [|n]]; cbn in *; [done|]. injection E2 as <-. 
    apply (stack_reference calls {| m_ptx := p; m_read_only := ro; m_ref_count := m_ref_count tx0 |} l).
    by apply (IH tx0 _ l).
Qed.

Lemma stack_ok_referenced calls tx txs : stack_ok calls (tx :: txs) -> m_ref_count tx <> O.
Proof. inversion 1; cbn; lia. Qed.

Lemma stack_ok_rdonly calls tx txs : stack_ok calls (tx :: txs) -> mt_rdonly (m_ptx tx) = m_read_only tx.
Proof.
  remember (tx :: txs) as l eqn:El. intros Hs. revert tx txs El.
  induction Hs as [| |calls tx0 l Hs IH]; intros ? ? [= <- <-]; [done|]. by apply (IH tx0 l).
Qed.

(** A thread has a write transaction when its current transaction is one. *)
Lemma stack_ok_writers calls txs : stack_ok calls txs ->
  writers calls <> O <-> match txs with tx :: _ => m_read_only tx = false | [] => False end.
Proof.
  unfold writers. induction 1 as [|calls txs tx Hs IH Hr Hm Hb Hn|calls tx txs Hs IH]; [done| |by rewrite filter_cons_False].
  destruct (m_read_only tx) eqn:E; [|by rewrite filter_cons_True].
  specialize (Hb eq_refl). subst txs. apply stack_ok_nil in Hs. subst calls. rewrite filter_cons_False by done. cbn. by split.
Qed.

Lemma txs_of_set t tt b t' : txs_of t' (set_txs t tt b) = if decide (t' = t) then tt else txs_of t' b.
Proof.
  unfold txs_of, set_txs. destruct tt as [[|c cs] [|tx txs]]; cbn; case_decide as E; simplify_map_eq; done.
Qed.

Lemma no_entry_set t tt b t' : all_txs b !! t' <> Some no_transactions -> all_txs (set_txs t tt b) !! t' <> Some no_transactions.
Proof.
  intros Hne. unfold set_txs. destruct tt as [[|c cs] [|tx txs]]; cbn; destruct (decide (t' = t)) as [->|]; by simplify_map_eq.
Qed.

Lemma writer_lock t b : backend_wf b -> is_writer t b = true <-> exists n, m_write_exclusive_lock b = Some (t, n).
Proof.
  intros Hb. pose proof (stack_ok_writers _ _ (wf_stacks b Hb t)) as Hw. pose proof (wf_stacks b Hb t) as Hs.
  rewrite (wf_lock b Hb) in Hw. unfold is_writer, get_current_tx.
  destruct (m_txs (txs_of t b)) as [|tx txs]; cbn in *.
  - split; [done|]. intros [n E]. rewrite E, decide_True in Hw by done. by destruct (proj1 Hw (wf_depth b Hb t n E)).
  - rewrite (stack_ok_rdonly _ _ _ Hs), negb_true_iff, <- Hw. split.
    + destruct (m_write_exclusive_lock b) as [[w n]|]; [|done]. intros H. case_decide as E; [|done]. subst. by exists n.
    + intros [n E]. rewrite E, decide_True by done. by apply (wf_depth b Hb t).
Qed.

Lemma lock_only_writer t b w n : backend_wf b -> m_write_exclusive_lock b = Some (w, n) -> w <> t -> is_writer t b = false.
Proof.
  intros Hb Hl Hne. apply not_true_iff_false. rewrite (writer_lock t b Hb). intros [n' E]. congruence.
Qed.

Lemma view_other t t' tt b l : t' <> t -> view t' (set_txs t tt (set_lock l b)) = view t' b.
Proof. intros Hne. unfold view, get_current_tx. by rewrite txs_of_set, decide_False by done. Qed.

(** The transactions of one thread, the lock and the committed records change. *)
Lemma set_txs_wf t tt l m b : backend_wf b -> stack_ok (m_calls tt) (m_txs tt) ->
  (forall t', writers (if decide (t' = t) then m_calls tt else calls_of t' b) =
     match l with Some (w, n) => if decide (w = t') then n else O | None => O end) ->
  (forall w n, l = Some (w, n) -> n <> O) ->
  backend_wf (set_txs t tt (set_lock l (set_committed m b))).
Proof.
  intros Hb Hs Hl Hn. assert (El : forall x, m_write_exclusive_lock (set_txs t tt x) = m_write_exclusive_lock x) by done. constructor.
  - intros t'. unfold calls_of. rewrite txs_of_set. case_decide; [done|]. apply (wf_stacks b Hb t').
  - intros t'. rewrite El. cbn [set_lock m_write_exclusive_lock]. rewrite <- Hl. unfold calls_of. rewrite txs_of_set. by case_decide.
  - intros w n. rewrite El. apply Hn.
  - intros t'. apply no_entry_set. apply (wf_entries b Hb).
Qed.

Lemma set_lock_id b : set_lock (m_write_exclusive_lock b) b = b.
Proof. by destruct b. Qed.
Lemma set_committed_id b : set_committed (committed b) b = b.
Proof. by destruct b. Qed.

Lemma writers_cons c l : writers (c :: l) = if call_read_only c then writers l else S (writers l).
Proof. unfold writers. destruct (call_read_only c) eqn:E; [rewrite filter_cons_False by congruence|rewrite filter_cons_True by done]; done. Qed.

(** The number of write transactions when one more begins. *)
Lemma lock_section_writers t b : backend_wf b -> lock_blocks t (m_write_exclusive_lock b) = false ->
  lock_section t (m_write_exclusive_lock b) = Some (t, S (writers (calls_of t b))) /\
  forall t', t' <> t -> writers (calls_of t' b) = O.
Proof.
  intros Hb Hl. pose proof (wf_lock b Hb) as Hw. destruct (m_write_exclusive_lock b) as [[w n]|]; cbn in *.
  - apply negb_false_iff, Z.eqb_eq in Hl. subst w. rewrite Hw, decide_True by done. split; [done|].
    intros t' Hne. by rewrite Hw, decide_False.
  - rewrite Hw. split; [done|]. intros t' _. apply Hw.
Qed.

(** *** Beginning *)

Definition begun (t : thread) (read_only : bool) (b : backend) (t' : thread) : list bool :=
  if decide (t' = t) then read_only :: (call_read_only <$> calls_of t b) else call_read_only <$> calls_of t' b.

Lemma db_begin_spec t read_only b : backend_wf b -> read_only = true \/ lock_blocks t (m_write_exclusive_lock b) = false ->
  exists b', db_begin t read_only b = (Ok tt, b') /\ backend_wf b' /\ committed b' = committed b /\
    m_write_exclusive_lock b' = (if read_only then m_write_exclusive_lock b else lock_section t (m_write_exclusive_lock b)) /\
    (forall t', call_read_only <$> calls_of t' b' = begun t read_only b t') /\
    (forall t', t' <> t -> view t' b' = view t' b) /\
    view t b' = if read_only || is_writer t b then view t b else committed b.
Proof.
  intros Hb Hl. pose proof (wf_stacks b Hb t) as Hs. unfold db_begin.
  set (l := if read_only then m_write_exclusive_lock b else lock_section t (m_write_exclusive_lock b)).
  assert (E1 : (if read_only then b else set_lock (lock_section t (m_write_exclusive_lock b)) b) = set_lock l (set_committed (committed b) b)).
  { rewrite set_committed_id. unfold l. destruct read_only; [by rewrite set_lock_id|done]. }
  rewrite E1. change (txs_of t (set_lock _ _)) with (txs_of t b). unfold calls_of in Hs.
  destruct (txs_of t b) as [calls txs] eqn:Et. cbn [m_calls m_txs committed set_lock set_committed] in *.
  set (txs' := match txs with [] => _ | _ => _ end).
  assert (Hs' : stack_ok ({| m_related_tx_object := List.length txs'; call_read_only := read_only |} :: calls) txs').
  { subst txs'. destruct txs as [|tx rest].
    - apply stack_ok_nil in Hs. subst calls. by apply (stack_begin [] [] (txn_begin (committed b) None None read_only)); [constructor|..].
    - destruct read_only; [by apply stack_reference|].
      apply (stack_begin calls (tx :: rest) (txn_begin (committed b) (if m_read_only tx then None else Some (m_ptx tx)) None false)); try done.
      cbn. by destruct (m_read_only tx). }
  assert (Ec : calls_of t b = calls) by (unfold calls_of; by rewrite Et).
  eexists. split; [done|]. split; [|split; [done|split; [done|]]]; [|split; [|split]].
  - apply set_txs_wf; [done|done|..]; subst l.
    + intros t'. cbn [m_calls]. destruct read_only.
      * rewrite <- (wf_lock b Hb). case_decide; [subst t'|done]. by rewrite writers_cons, Ec.
      * destruct Hl as [|Hl]; [done|]. destruct (lock_section_writers t b Hb Hl) as [-> Hz]. case_decide as E.
        -- by rewrite writers_cons, Ec, decide_True.
        -- rewrite decide_False by done. by apply Hz.
    + intros w n. destruct read_only; [apply (wf_depth b Hb)|]. destruct Hl as [|Hl]; [done|].
      destruct (lock_section_writers t b Hb Hl) as [-> _]. by intros [= <- <-].
  - intros t'. unfold begun, calls_of. rewrite txs_of_set. case_decide; [by rewrite Et|done].
  - intros t' Hne. rewrite set_committed_id. by apply view_other.
  - unfold view, is_writer, get_current_tx. rewrite txs_of_set, decide_True, Et by done. cbn [m_txs]. subst txs'.
    destruct txs as [|tx rest]; cbn [head fmap option_fmap option_map]; [by destruct read_only|].
    rewrite (stack_ok_rdonly _ _ _ Hs). destruct read_only; [done|]. cbn. by destruct (m_read_only tx).
Qed.

Lemma db_begin_top_view t read_only b : backend_wf b -> read_only = true \/ lock_blocks t (m_write_exclusive_lock b) = false ->
  top_view (snd (db_begin t read_only b)) = top_view b.
Proof.
  intros Hb Hl. destruct (db_begin_spec t read_only b Hb Hl) as (b' & -> & Hb' & Em & El & _ & Ev & Et). cbn [snd].
  pose proof (writer_lock t b Hb) as Hw. unfold top_view. rewrite El, Em. destruct read_only; cbn [orb] in *.
  - destruct (m_write_exclusive_lock b) as [[w n]|]; [|done]. destruct (decide (w = t)) as [->|]; [done|by apply Ev].
  - destruct Hl as [|Hl]; [done|]. destruct (m_write_exclusive_lock b) as [[w n]|]; cbn in *.
    + apply negb_false_iff, Z.eqb_eq in Hl. subst w. by rewrite Et, (proj2 Hw) by by exists n.
    + rewrite Et. destruct (is_writer t b); [|done]. by destruct (proj1 Hw eq_refl).
Qed.

(** *** Ending *)

Lemma top_view_set t tt l m b : top_view (set_txs t tt (set_lock l (set_committed m b))) =
  match l with
  | Some (w, _) => match m_ptx <$> head (if decide (w = t) then m_txs tt else m_txs (txs_of w b)) with Some p => mt_records p | None => m end
  | None => m
  end.
Proof.
  unfold top_view. change (m_write_exclusive_lock (set_txs _ _ (set_lock l _))) with l. destruct l as [[w n]|]; [|done].
  unfold view, get_current_tx. rewrite txs_of_set. by case_decide.
Qed.

Definition popped_lock (t : thread) (c : each_call_handler) (cs : list each_call_handler) (b : backend) : option (thread * nat) :=
  if call_read_only c then m_write_exclusive_lock b else if Nat.eqb (writers cs) 0 then None else Some (t, writers cs).

Lemma writer_holds_lock t b c cs : backend_wf b -> calls_of t b = c :: cs -> call_read_only c = false ->
  m_write_exclusive_lock b = Some (t, S (writers cs)).
Proof.
  intros Hb Hc Ec. pose proof (wf_lock b Hb t) as Hw. rewrite Hc, writers_cons, Ec in Hw.
  destruct (m_write_exclusive_lock b) as [[w n]|]; [|done]. case_decide; [subst|done]. by subst.
Qed.

Lemma popped_wf t b c cs txs m : backend_wf b -> calls_of t b = c :: cs -> stack_ok cs txs ->
  backend_wf (set_txs t {| m_calls := cs; m_txs := txs |} (set_lock (popped_lock t c cs b) (set_committed m b))).
Proof.
  intros Hb Hc Hs. apply set_txs_wf; [done|done|..].
  - intros t'. pose proof (wf_lock b Hb) as Hw. unfold popped_lock. destruct (call_read_only c) eqn:Ec.
    + rewrite <- Hw. case_decide; [subst|done]. by rewrite Hc, writers_cons, Ec.
    + pose proof (writer_holds_lock t b c cs Hb Hc Ec) as El. rewrite El in Hw. cbn [m_calls].
      destruct (Nat.eqb_spec (writers cs) 0) as [E|E].
      * case_decide; [done|]. rewrite Hw. by rewrite decide_False.
      * case_decide; [subst; by rewrite decide_True|]. rewrite Hw. by rewrite !decide_False.
  - intros w n. unfold popped_lock. destruct (call_read_only c); [apply (wf_depth b Hb)|].
    destruct (Nat.eqb_spec (writers cs) 0); [done|]. by intros [= <- <-].
Qed.

(** The end of the innermost transaction of the library, with its references
    counted. *)
Definition popped_txs (is_commit : bool) (tx : lmdb_txn) (rest : list lmdb_txn) (m : gmap K V) : list lmdb_txn * gmap K V :=
  match m_ref_count tx with
  | S (S n) => ({| m_ptx := m_ptx tx; m_read_only := m_read_only tx; m_ref_count := S n |} :: rest, m)
  | _ => txn_close is_commit tx rest m
  end.

Lemma txn_close_ok is_commit cs tx rest m : stack_ok cs rest -> stack_ok cs (fst (txn_close is_commit tx rest m)).
Proof.
  intros Hs. unfold txn_close. destruct (_ || _); [done|]. destruct (mt_nested _); [|done].
  destruct rest as [|p rest]; [done|]. by apply (stack_ok_same cs p).
Qed.

Lemma pop_the_call_eq t is_commit b c cs : backend_wf b -> calls_of t b = c :: cs ->
  exists tx rest, m_txs (txs_of t b) = tx :: rest /\ stack_ok (c :: cs) (tx :: rest) /\
    stack_ok cs (fst (popped_txs is_commit tx rest (committed b))) /\
    pop_the_call t is_commit b =
      (Ok tt, set_txs t {| m_calls := cs; m_txs := fst (popped_txs is_commit tx rest (committed b)) |}
        (set_lock (popped_lock t c cs b) (set_committed (snd (popped_txs is_commit tx rest (committed b))) b))).
Proof.
  intros Hb Hc. pose proof (wf_stacks b Hb t) as Hs. pose proof (writer_holds_lock t b c cs Hb Hc) as Hw. rewrite Hc in Hs.
  unfold pop_the_call, popped_lock. unfold calls_of in Hc.
  destruct (txs_of t b) as [calls txs]. cbn [m_calls m_txs] in *. subst calls.
  assert (Hshape : exists tx rest, txs = tx :: rest /\ m_related_tx_object c = S (List.length rest) /\
    (m_ref_count tx = 1%nat -> call_read_only c = m_read_only tx) /\ stack_ok cs (fst (popped_txs is_commit tx rest (committed b)))).
  { inversion Hs as [|? rest tx Hs0 Hr|? tx rest Hs0]; subst; do 2 eexists; (split; [done|]); (split; [done|]); (split; [done || cbn|]).
    - unfold popped_txs. rewrite Hr. by apply txn_close_ok.
    - intros [= E]. by destruct (stack_ok_referenced _ _ _ Hs0).
    - unfold popped_txs. cbn. destruct (m_ref_count tx) as [|n] eqn:Er; [by destruct (stack_ok_referenced _ _ _ Hs0)|].
      cbn. rewrite <- Er. by destruct tx. }
  destruct Hshape as (tx & rest & -> & Erel & Href & Hok). exists tx, rest. split; [done|]. split; [done|]. split; [done|].
  rewrite Erel. cbn [List.length]. rewrite Nat.eqb_refl. cbn [negb].
  replace (_ && _) with false.
  2: { destruct (Nat.eqb_spec (m_ref_count tx) 1) as [E|E]; [|done]. rewrite (Href E). by rewrite Bool.eqb_reflx. }
  fold (popped_txs is_commit tx rest (committed b)). destruct (popped_txs _ _ _ _) as [txs m]. cbn [fst snd].
  destruct (call_read_only c) eqn:Ec; [by destruct b|].
  change (m_write_exclusive_lock (set_committed m b)) with (m_write_exclusive_lock b). rewrite (Hw eq_refl). cbn [unlock_section]. by destruct (writers cs).
Qed.

(** What the innermost transaction is: the outermost write transaction of its
    thread. *)
Definition outermost_writer (calls : list each_call_handler) : bool :=
  match calls with c :: cs => negb (call_read_only c) && Nat.eqb (writers cs) 0 | [] => false end.

(** What the writer sees stays, unless an outermost write transaction is
    aborted. *)
Lemma pop_the_call_spec t is_commit b c cs : backend_wf b -> calls_of t b = c :: cs ->
  exists b', pop_the_call t is_commit b = (Ok tt, b') /\ backend_wf b' /\
    m_write_exclusive_lock b' = popped_lock t c cs b /\
    (forall t', calls_of t' b' = if decide (t' = t) then cs else calls_of t' b) /\
    (call_read_only c = true \/ is_commit = true -> top_view b' = top_view b).
Proof.
  intros Hb Hc. destruct (pop_the_call_eq t is_commit b c cs Hb Hc) as (tx & rest & Et & Hs & Hok & ->).
  eexists. split; [done|]. split; [by apply popped_wf|]. split; [done|]. split.
  { intros t'. unfold calls_of. rewrite txs_of_set. by case_decide. }
  intros Hkeep. rewrite top_view_set. unfold top_view, view, get_current_tx, popped_lock.
  pose proof (wf_lock b Hb t) as Hw. rewrite Hc, writers_cons in Hw. cbn [m_txs].
  inversion Hs as [|cs' rest' tx' Hs0 Hr Hm Hbot Hnest|cs' tx0 rest' Hs0]; subst; cbn [call_read_only] in *.
  - unfold popped_txs, txn_close. rewrite Hr. destruct (m_read_only tx) eqn:Ero; cbn [orb fst snd].
    + rewrite (Hbot eq_refl) in *. apply stack_ok_nil in Hs0. subst cs.
      destruct (m_write_exclusive_lock b) as [[w n]|] eqn:El; [|done]. case_decide; [|done]. subst w. by destruct (wf_depth b Hb t n El).
    + destruct Hkeep as [ | -> ]; [done|]. cbn [negb]. rewrite (writer_holds_lock t b _ _ Hb Hc) by done. rewrite Et, Hnest. cbn [head fmap option_fmap option_map].
      pose proof (stack_ok_writers _ _ Hs0) as Hws. destruct (Nat.eqb_spec (writers cs) 0) as [E|E].
      * destruct rest as [|p rest]; [done|]. destruct (m_read_only p) eqn:Ep; [done|]. by destruct (proj2 Hws eq_refl).
      * apply Hws in E. destruct rest as [|p rest]; [done|]. rewrite E. cbn. by rewrite decide_True.
  - unfold popped_txs. cbn. destruct (m_ref_count tx0) eqn:Er; [by destruct (stack_ok_referenced _ _ _ Hs0)|]. cbn.
    destruct (m_write_exclusive_lock b) as [[w k]|]; [|done]. case_decide; [|done]. subst w. by rewrite Et.
Qed.

(** An aborted outermost write transaction leaves the committed records. *)
Lemma abort_outermost t b c cs : backend_wf b -> calls_of t b = c :: cs -> call_read_only c = false -> writers cs = O ->
  committed (snd (pop_the_call t false b)) = committed b /\ top_view (snd (pop_the_call t false b)) = committed b.
Proof.
  intros Hb Hc Ec E0. destruct (pop_the_call_eq t false b c cs Hb Hc) as (tx & rest & Et & Hs & _ & ->). cbn [snd].
  assert (Em : snd (popped_txs false tx rest (committed b)) = committed b).
  { unfold popped_txs, txn_close. rewrite orb_true_r. by destruct (m_ref_count tx) as [|[|n]]. }
  rewrite top_view_set. unfold popped_lock. rewrite Ec, E0, Em. done.
Qed.

(** *** Reading and writing *)

Lemma set_txs_back t tt b : backend_wf b -> set_txs t (txs_of t b) (set_txs t tt b) = b.
Proof.
  intros Hb. pose proof (wf_entries b Hb t) as He. unfold set_txs, txs_of. destruct b as [m l a]; cbn in *. f_equal.
  apply map_eq. intros t'. destruct (a !! t) as [[[|? ?] [|? ?]]|] eqn:E; try done; cbn;
    destruct tt as [[|? ?] [|? ?]]; cbn; destruct (decide (t' = t)) as [->|]; by simplify_map_eq.
Qed.

#[local] Ltac pops := cbn [m_ref_count txn_begin Nat.eqb m_read_only call_read_only Bool.eqb andb negb txn_close orb m_ptx].

Lemma in_local_tx_spec {A} t (f : option MDB_txn -> A) b : backend_wf b ->
  in_local_tx t f b = (Ok (f (Some (default (mdb_txn_begin (committed b) None true) (get_current_tx t b)))), b).
Proof.
  intros Hb. pose proof (wf_stacks b Hb t) as Hs. pose proof (fun tt => set_txs_back t tt b Hb) as Hback.
  unfold get_current_tx, calls_of in *. destruct (txs_of t b) as [calls txs] eqn:Et. cbn [m_calls m_txs] in *.
  set (tx' := match txs with [] => txn_begin (committed b) None None true | tx :: _ => txn_begin (committed b) None (Some tx) true end).
  set (b' := set_txs t {| m_calls := {| m_related_tx_object := S (List.length (tail txs)); call_read_only := true |} :: calls; m_txs := tx' :: tail txs |} b).
  assert (Hbegin : db_begin t true b = (Ok tt, b')) by (unfold db_begin, b', tx'; rewrite Et; by destruct txs).
  assert (Et' : txs_of t b' = {| m_calls := {| m_related_tx_object := S (List.length (tail txs)); call_read_only := true |} :: calls; m_txs := tx' :: tail txs |})
    by (unfold b'; by rewrite txs_of_set, decide_True).
  assert (Hpop : db_commit t b' = (Ok tt, b)).
  { unfold db_commit, pop_the_call. rewrite Et'. cbn [m_related_tx_object List.length]. rewrite Nat.eqb_refl. cbn [negb call_read_only].
    destruct txs as [|tx rest]; subst tx'; cbn [tail].
    - apply stack_ok_nil in Hs. subst calls. pops. rewrite set_committed_id. unfold b'. by rewrite Hback.
    - pose proof (stack_ok_referenced _ _ _ Hs) as Hr. destruct tx as [p ro [|n]]; [done|]. pops. rewrite set_committed_id. unfold b'. by rewrite Hback. }
  unfold in_local_tx. rewrite (bind_eq _ _ _ _ _ Hbegin). rewrite (bind_eq (read _) _ b' _ _ eq_refl), (bind_eq _ _ _ _ _ Hpop).
  unfold mret, st_ret, get_current_tx. rewrite Et'. subst tx'. by destruct txs.
Qed.

Lemma db_get_spec t k b : backend_wf b -> db_get t k b = (Ok (view t b !! k), b).
Proof.
  intros Hb. unfold db_get. rewrite in_local_tx_spec by done. unfold view. by destruct (get_current_tx t b).
Qed.

Lemma db_size_spec t b : backend_wf b -> db_size t b = (Ok (Z.of_nat (base.size (view t b))), b).
Proof.
  intros Hb. unfold db_size. rewrite in_local_tx_spec by done. unfold view. by destruct (get_current_tx t b).
Qed.

(** Only the records of the current transaction change. *)
Lemma set_current_tx_spec t p p' b : backend_wf b -> get_current_tx t b = Some p -> mt_rdonly p' = mt_rdonly p -> mt_nested p' = mt_nested p ->
  backend_wf (set_current_tx t p' b) /\ committed (set_current_tx t p' b) = committed b /\
  m_write_exclusive_lock (set_current_tx t p' b) = m_write_exclusive_lock b /\
  (forall t', calls_of t' (set_current_tx t p' b) = calls_of t' b) /\
  get_current_tx t (set_current_tx t p' b) = Some p'.
Proof.
  intros Hb Hp E1 E2. pose proof (wf_stacks b Hb t) as Hs. unfold set_current_tx, get_current_tx, calls_of in *.
  destruct (txs_of t b) as [calls [|tx txs]] eqn:Et; cbn [m_calls m_txs head fmap option_fmap option_map] in *; [done|]. injection Hp as <-.
  set (tt' := {| m_calls := calls; m_txs := _ |}).
  split; [|split; [done|split; [done|split]]].
  - rewrite <- (set_committed_id b), <- (set_lock_id (set_committed _ b)). apply set_txs_wf; [done|by apply (stack_ok_same calls tx)| |apply (wf_depth b Hb)].
    intros t'. change (m_write_exclusive_lock (set_committed (committed b) b)) with (m_write_exclusive_lock b). rewrite <- (wf_lock b Hb).
    case_decide; [subst|done]. unfold calls_of. by rewrite Et.
  - intros t'. rewrite txs_of_set. case_decide; [subst; by rewrite Et|done].
  - by rewrite txs_of_set, decide_True.
Qed.

Lemma writer_view t b : backend_wf b -> is_writer t b = true -> view t b = top_view b.
Proof. intros Hb Hw. apply writer_lock in Hw as [n E]; [|done]. unfold top_view. by rewrite E. Qed.

(** The writer's records are stored and erased where it reads them; a thread
    that has no write transaction, or is inside a read-only one, is refused. *)
Lemma db_set_spec t k v b : backend_wf b -> exists b', db_set t k v b = (Ok (is_writer t b), b') /\
  if is_writer t b then backend_wf b' /\ committed b' = committed b /\ m_write_exclusive_lock b' = m_write_exclusive_lock b /\
    (forall t', calls_of t' b' = calls_of t' b) /\ top_view b' = <[k := v]> (top_view b)
  else b' = b.
Proof.
  intros Hb. pose proof (writer_view t b Hb) as Hv. pose proof (writer_lock t b Hb) as Hl. unfold db_set. 
  unfold is_writer, view in *. destruct (get_current_tx t b) as [p|] eqn:Ep; cbn [mdb_put mbind option_bind]; [|by eexists].
  destruct (mt_rdonly p) eqn:Ero; cbn [negb] in *; [by eexists|]. eexists. split; [done|].
  destruct (set_current_tx_spec t p {| mt_rdonly := false; mt_nested := mt_nested p; mt_records := <[k:=v]> (mt_records p) |} b Hb Ep)
    as (H1 & H2 & H3 & H4 & H5); [done..|]. repeat (split; [done|]).
  destruct (proj1 Hl eq_refl) as [n El]. rewrite <- (Hv eq_refl). unfold top_view, view. by rewrite H3, El, H5.
Qed.

Lemma db_erase_spec t k b : backend_wf b -> exists b', db_erase t k b = (Ok (is_writer t b && bool_decide (is_Some (top_view b !! k))), b') /\
  if is_writer t b then backend_wf b' /\ committed b' = committed b /\ m_write_exclusive_lock b' = m_write_exclusive_lock b /\
    (forall t', calls_of t' b' = calls_of t' b) /\ top_view b' = delete k (top_view b)
  else b' = b.
Proof.
  intros Hb. pose proof (writer_view t b Hb) as Hv. pose proof (writer_lock t b Hb) as Hl. unfold db_erase. 
  unfold is_writer, view in *. destruct (get_current_tx t b) as [p|] eqn:Ep; cbn [mdb_del mbind option_bind]; [|by eexists].
  destruct (mt_rdonly p) eqn:Ero; cbn [negb andb] in *; [by eexists|]. rewrite <- (Hv eq_refl).
  destruct (mt_records p !! k) as [v|] eqn:Ek.
  - eexists. rewrite bool_decide_true by (by eexists). split; [done|].
    destruct (set_current_tx_spec t p {| mt_rdonly := false; mt_nested := mt_nested p; mt_records := delete k (mt_records p) |} b Hb Ep)
      as (H1 & H2 & H3 & H4 & H5); [done..|]. repeat (split; [done|]).
    destruct (proj1 Hl eq_refl) as [n El]. unfold top_view, view. by rewrite H3, El, H5.
  - eexists. rewrite bool_decide_false by (by intros []). split; [done|]. repeat (split; [done|]). by rewrite delete_id, Hv.
Qed.

Definition empty_backend (m : gmap K V) : backend := {| committed := m; m_write_exclusive_lock := None; all_txs := ∅ |}.

Lemma empty_backend_wf m : backend_wf (empty_backend m).
Proof.
  constructor.
  - intros t. unfold calls_of, txs_of. cbn. rewrite lookup_empty. constructor.
  - intros t. unfold calls_of, txs_of. cbn. by rewrite lookup_empty.
  - done.
  - intros t. cbn. by rewrite lookup_empty.
Qed.

End lmdb.
Arguments MDB_txn K V {_ _}.
Arguments lmdb_txn K V {_ _}.
Arguments thread_transactions K V {_ _}.
Arguments backend K V {_ _}.
