(* ===== verification/DbAccess.v ===== *)
(** * Cached containers: [src/src/common/db_abstract_accessor.h] and
    [src/contrib/epee/include/cache_helper.h]

    A container answers reads from a cache of the most recently used records in
    front of the back end ([Lmdb]).  One thread at a time writes, inside a
    transaction that the other threads do not see; the isolation lock keeps them
    off the cache meanwhile.  Each operation is one step: the locks that keep a
    commit from falling between the reading of a record and its storing in the
    cache are not modelled. *)

From S2P Require Import Prelude StateM Lmdb.

Section cached.
Context {K V : Type} `{!EqDecision K, !Countable K, !EqDecision V}.

(** ** The cache *)

(** [most_recent_accessed] has one node per key of [data], to which the
    iterator stored with the value points; erasing the node of [k] is removing
    [k] from the list. *)
Record cache_base : Type := { max_allowed_elements : Z; most_recent_accessed : list K; data : gmap K V }.

Definition erase_node (k : K) (l : list K) : list K := filter (fun x => x <> k) l.

Definition cache_get (k : K) (c : cache_base) : option V * cache_base :=
  match data c !! k with
  | None => (None, c)
  | Some v =>
      (Some v, {| max_allowed_elements := max_allowed_elements c;
                  most_recent_accessed := k :: erase_node k (most_recent_accessed c); data := data c |})
  end.

(** [while (size > max)]: drops the record used longest ago. *)
Fixpoint trim_loop (fuel : nat) (c : cache_base) : cache_base :=
  match fuel with
  | O => c
  | S fuel =>
      if max_allowed_elements c <? Z.of_nat (List.length (most_recent_accessed c)) then
        match last (most_recent_accessed c) with
        | None => c
        | Some k => trim_loop fuel
            {| max_allowed_elements := max_allowed_elements c;
               most_recent_accessed := removelast (most_recent_accessed c); data := delete k (data c) |}
        end
      else c
  end.
Definition trim (c : cache_base) : cache_base := trim_loop (List.length (most_recent_accessed c)) c.

Definition cache_set (k : K) (v : V) (c : cache_base) : cache_base :=
  trim {| max_allowed_elements := max_allowed_elements c;
          most_recent_accessed :=
            k :: match data c !! k with
                 | None => most_recent_accessed c
                 | Some _ => erase_node k (most_recent_accessed c)
                 end;
          data := <[k := v]> (data c) |}.

Definition cache_erase (k : K) (c : cache_base) : cache_base :=
  match data c !! k with
  | None => c
  | Some _ =>
      {| max_allowed_elements := max_allowed_elements c; most_recent_accessed := erase_node k (most_recent_accessed c);
         data := delete k (data c) |}
  end.

Definition cache_clear (c : cache_base) : cache_base :=
  {| max_allowed_elements := max_allowed_elements c; most_recent_accessed := []; data := ∅ |}.

(** ** The container *)

(** [m_transactions_stack] is the accessor's: whether each transaction a thread
    has open is read-only, innermost first ([back()] is the head). *)
Record container : Type := {
  bk : backend K V;
  m_transactions_stack : gmap thread (list bool);
  m_current_writer_thread : option thread;
  m_cache : cache_base;
  size_cache : Z; size_cache_valid : bool
}.

Definition set_bk (b : backend K V) (c : container) : container :=
  {| bk := b; m_transactions_stack := m_transactions_stack c; m_current_writer_thread := m_current_writer_thread c;
     m_cache := m_cache c; size_cache := size_cache c; size_cache_valid := size_cache_valid c |}.
Definition set_stack (t : thread) (l : list bool) (c : container) : container :=
  {| bk := bk c; m_transactions_stack := <[t := l]> (m_transactions_stack c); m_current_writer_thread := m_current_writer_thread c;
     m_cache := m_cache c; size_cache := size_cache c; size_cache_valid := size_cache_valid c |}.
Definition set_isolation (w : option thread) (c : container) : container :=
  {| bk := bk c; m_transactions_stack := m_transactions_stack c; m_current_writer_thread := w;
     m_cache := m_cache c; size_cache := size_cache c; size_cache_valid := size_cache_valid c |}.
Definition set_cache (m : cache_base) (c : container) : container :=
  {| bk := bk c; m_transactions_stack := m_transactions_stack c; m_current_writer_thread := m_current_writer_thread c;
     m_cache := m; size_cache := size_cache c; size_cache_valid := size_cache_valid c |}.
Definition set_size (n : Z) (valid : bool) (c : container) : container :=
  {| bk := bk c; m_transactions_stack := m_transactions_stack c; m_current_writer_thread := m_current_writer_thread c;
     m_cache := m_cache c; size_cache := n; size_cache_valid := valid |}.

(** A call of the back end. *)
Definition on_bk {A} (m : st (backend K V) A) : st container A := fun c =>
  let '(r, b) := m (bk c) in (r, set_bk b c).

Definition stack_of (t : thread) (c : container) : list bool := default [] (m_transactions_stack c !! t).
Definition has_writer_tx_in_stack (l : list bool) : bool := existsb negb l.

(** [isolated_access]: whether the thread may use the cache. *)
Definition allowed_cache (t : thread) (c : container) : bool :=
  match m_current_writer_thread c with Some w => w =? t | None => true end.

Definition with_cache (t : thread) (f : cache_base -> cache_base) (c : container) : container :=
  if allowed_cache t c then set_cache (f (m_cache c)) c else c.

Definition set_isolation_mode (t : thread) : st container unit := fun c =>
  match m_current_writer_thread c with Some _ => (Exn, c) | None => (Ok tt, set_isolation (Some t) c) end.
Definition reset_isolation_mode : st container unit := fun c =>
  match m_current_writer_thread c with None => (Exn, c) | Some _ => (Ok tt, set_isolation None c) end.

Definition read_through (t : thread) (k : K) : st container (option V) :=
  res ← on_bk (db_get t k);
  match res with
  | Some v => _ ← update (with_cache t (cache_set k v)); mret (Some v)
  | None => mret None
  end.

Definition get (t : thread) (k : K) : st container (option V) := fun c =>
  let hit := if allowed_cache t c then cache_get k (m_cache c) else (None, m_cache c) in
  match hit with
  | (Some v, m) => (Ok (Some v), set_cache m c)
  | (None, m) => read_through t k (set_cache m c)
  end.

(** What the back end answers is dropped: a refused record is cached too. *)
Definition set (t : thread) (k : K) (v : V) : st container unit :=
  _ ← update (fun c => set_size (size_cache c) false c);
  _ ← on_bk (db_set t k v);
  update (with_cache t (cache_set k v)).

(** Throws for a thread that may not use the cache. *)
Definition isolated_write_access (t : thread) (f : container -> container) : st container unit := fun c =>
  if allowed_cache t c then (Ok tt, f c) else (Exn, c).

Definition erase_validate (t : thread) (k : K) : st container bool :=
  existed ← on_bk (db_erase t k);
  _ ← isolated_write_access t (fun c => set_size (size_cache c) false c);
  _ ← isolated_write_access t (fun c => set_cache (cache_erase k (m_cache c)) c);
  mret existed.

Definition size_through (t : thread) : st container Z :=
  res ← on_bk (db_size t);
  _ ← update (fun c => if allowed_cache t c then set_size res true c else c);
  mret res.

Definition size (t : thread) : st container Z := fun c =>
  if allowed_cache t c && size_cache_valid c then (Ok (size_cache c), c)
  else size_through t c.

Definition begin_transaction (t : thread) (readonly : bool) : st container unit :=
  _ ← on_bk (db_begin t readonly);
  stack ← read (stack_of t);
  let need_to_broadcast := negb (has_writer_tx_in_stack stack) in
  _ ← update (set_stack t (readonly :: stack));
  if need_to_broadcast && negb readonly then set_isolation_mode t else mret tt.

Definition commit_transaction (t : thread) : st container unit :=
  stack ← read (stack_of t);
  match stack with
  | [] => throw_unless false
  | readonly :: rest =>
      _ ← on_bk (db_commit t);
      _ ← update (set_stack t rest);
      if negb readonly && negb (has_writer_tx_in_stack rest) then reset_isolation_mode else mret tt
  end.

Definition abort_transaction (t : thread) : st container unit :=
  stack ← read (stack_of t);
  match stack with
  | [] => throw_unless false
  | readonly :: rest =>
      _ ← on_bk (db_abort t);
      _ ← update (set_stack t rest);
      if negb readonly && negb (has_writer_tx_in_stack rest)
      then _ ← update (with_cache t cache_clear); reset_isolation_mode else mret tt
  end.

(** ** Runs, with and without the cache *)

Inductive db_op : Type :=
| OpBegin (t : thread) (readonly : bool)
| OpCommit (t : thread)
| OpAbort (t : thread)
| OpGet (t : thread) (k : K)
| OpSet (t : thread) (k : K) (v : V)
| OpErase (t : thread) (k : K).

Inductive db_answer : Type :=
| AnsGet (r : result (option V))
| AnsErase (r : result bool)
| AnsDone (r : result unit).

Definition answer {S A} (f : result A -> db_answer) (r : result A * S) : db_answer * S := (f (fst r), snd r).

Definition container_step (op : db_op) (c : container) : db_answer * container :=
  match op with
  | OpBegin t readonly => answer AnsDone (begin_transaction t readonly c)
  | OpCommit t => answer AnsDone (commit_transaction t c)
  | OpAbort t => answer AnsDone (abort_transaction t c)
  | OpGet t k => answer AnsGet (get t k c)
  | OpSet t k v => answer AnsDone (set t k v c)
  | OpErase t k => answer AnsErase (erase_validate t k c)
  end.

(** The same on the back end alone. *)
Definition backend_step (op : db_op) (b : backend K V) : db_answer * backend K V :=
  match op with
  | OpBegin t readonly => answer AnsDone (db_begin t readonly b)
  | OpCommit t => answer AnsDone (db_commit t b)
  | OpAbort t => answer AnsDone (db_abort t b)
  | OpGet t k => answer AnsGet (db_get t k b)
  | OpSet t k v => answer AnsDone ((_ ← db_set t k v; mret tt) b)
  | OpErase t k => answer AnsErase (db_erase t k b)
  end.

(** A read in a read-only transaction that another commit has overtaken: the
    record is no longer the one of the snapshot. *)
Definition overtaken (t : thread) (k : K) (b : backend K V) : bool :=
  match m_write_exclusive_lock b with
  | Some _ => false
  | None => negb (bool_decide (view t b !! k = committed b !! k))
  end.

(** The operations considered: those that the write lock lets through, records
    stored inside a write transaction and erased by no thread while another one
    writes, reads that are not overtaken, aborts that end no write transaction
    inside another one. *)
Definition op_ok (op : db_op) (b : backend K V) : bool :=
  match op with
  | OpBegin t readonly => readonly || negb (lock_blocks t (m_write_exclusive_lock b))
  | OpCommit _ => true
  | OpAbort t => match calls_of t b with c :: cs => call_read_only c || Nat.eqb (writers cs) 0 | [] => true end
  | OpGet t k => negb (overtaken t k b)
  | OpSet t _ _ => is_writer t b
  | OpErase t _ => negb (lock_blocks t (m_write_exclusive_lock b))
  end.

Fixpoint run_db {S} (step : db_op -> S -> db_answer * S) (ops : list db_op) (s : S) : list db_answer * S :=
  match ops with
  | [] => ([], s)
  | op :: ops => let '(a, s) := step op s in let '(l, s) := run_db step ops s in (a :: l, s)
  end.

(** The schedules considered, followed on the back end alone. *)
Fixpoint schedule_ok (ops : list db_op) (b : backend K V) : bool :=
  match ops with
  | [] => true
  | op :: ops => op_ok op b && schedule_ok ops (snd (backend_step op b))
  end.

(** ** Coherence *)

Record cache_wf (c : cache_base) : Prop := {
  nodes_once : NoDup (most_recent_accessed c);
  nodes_data k : k ∈ most_recent_accessed c <-> is_Some (data c !! k);
  nodes_bound : 0 <= max_allowed_elements c /\ Z.of_nat (List.length (most_recent_accessed c)) <= max_allowed_elements c
}.

(** Every cached record is in the database. *)
Definition cached_from (c : cache_base) (m : gmap K V) : Prop := forall k v, data c !! k = Some v -> m !! k = Some v.

Record container_wf (c : container) : Prop := {
  wf_cache : cache_wf (m_cache c);
  wf_bk : backend_wf (bk c);
  wf_stack t : stack_of t c = call_read_only <$> calls_of t (bk c);
  wf_isolation : m_current_writer_thread c = fst <$> m_write_exclusive_lock (bk c);
  wf_coherent : cached_from (m_cache c) (top_view (bk c))
}.

Lemma has_writer_count (l : list each_call_handler) : has_writer_tx_in_stack (call_read_only <$> l) = negb (Nat.eqb (writers l) 0).
Proof.
  induction l as [|c l IH]; [done|]. rewrite fmap_cons. unfold has_writer_tx_in_stack in *. cbn [existsb]. rewrite IH, writers_cons.
  by destruct (call_read_only c).
Qed.

(** *** The cache alone *)

Lemma erase_node_wf k c : cache_wf c -> is_Some (data c !! k) ->
  NoDup (k :: erase_node k (most_recent_accessed c)) /\
  (forall k', k' ∈ erase_node k (most_recent_accessed c) <-> k' <> k /\ is_Some (data c !! k')) /\
  S (List.length (erase_node k (most_recent_accessed c))) = List.length (most_recent_accessed c).
Proof.
  intros [Hn Hd _] Hk. unfold erase_node. split; [|split].
  - constructor; [|by apply NoDup_filter]. rewrite list_elem_of_filter. naive_solver.
  - intros k'. rewrite list_elem_of_filter, Hd. done.
  - apply Hd in Hk. clear Hd. induction (most_recent_accessed c) as [|x l IH]; [by apply not_elem_of_nil in Hk|].
    apply NoDup_cons in Hn as [Hx Hn]. apply elem_of_cons in Hk as [->|Hk].
    + rewrite filter_cons_False by naive_solver. cbn. f_equal. clear -Hx.
      induction l as [|y l IH]; [done|]. apply not_elem_of_cons in Hx as [Hy Hx]. rewrite filter_cons_True by done. cbn. by rewrite IH.
    + rewrite filter_cons_True by (intros ->; done). cbn. by rewrite IH.
Qed.

Lemma cache_get_spec k c : cache_wf c -> fst (cache_get k c) = data c !! k /\
  cache_wf (snd (cache_get k c)) /\ data (snd (cache_get k c)) = data c.
Proof.
  intros Hc. unfold cache_get. destruct (data c !! k) as [v|] eqn:E; [|done]. cbn. split; [done|]. split; [|done].
  destruct (erase_node_wf k c Hc) as (Hn & Hm & Hl); [by eexists|]. destruct Hc as [_ Hd Hb]. constructor; cbn.
  - done.
  - intros k'. rewrite elem_of_cons, Hm. destruct (decide (k' = k)) as [->|]; [rewrite E|]; naive_solver.
  - lia.
Qed.

(** Nodes and records, without the bound. *)
Definition nodes_ok (c : cache_base) : Prop :=
  NoDup (most_recent_accessed c) /\ (forall k, k ∈ most_recent_accessed c <-> is_Some (data c !! k)) /\ 0 <= max_allowed_elements c.

Lemma trim_loop_spec fuel c : (List.length (most_recent_accessed c) <= fuel)%nat -> nodes_ok c ->
  cache_wf (trim_loop fuel c) /\ data (trim_loop fuel c) ⊆ data c.
Proof.
  revert c. induction fuel as [|fuel IH]; intros c Hf (Hn & Hd & Hm); cbn [trim_loop].
  { split; [|done]. constructor; [done|done|lia]. }
  destruct (_ <? _) eqn:E; zbool; [|split; [constructor; [done|done|lia]|done]].
  destruct (most_recent_accessed c) as [|k l _] eqn:El using rev_ind; [cbn in E; lia|].
  rewrite last_snoc, removelast_last. set (c' := {| max_allowed_elements := _; most_recent_accessed := l; data := _ |}).
  apply NoDup_app in Hn as (Hn & Hk & _). rewrite length_app in Hf. cbn in Hf.
  destruct (IH c') as [Hw Hsub]; [cbn; lia| |].
  - split; [done|]. split; [|done]. intros k'. cbn.
    assert (Hkl : k ∉ l) by (intros Hin; apply (Hk k Hin); by left).
    destruct (decide (k' = k)) as [->|Hne].
    + rewrite lookup_delete_eq. split; [done|by intros []].
    + rewrite lookup_delete_ne, <- Hd, elem_of_app by done. split; [by left|].
      intros [?|Hin]; [done|]. apply elem_of_cons in Hin as [->|Hin]; [done|by apply not_elem_of_nil in Hin].
  - split; [done|]. etransitivity; [exact Hsub|]. apply delete_subseteq.
Qed.

Lemma cache_set_spec k v c : cache_wf c -> cache_wf (cache_set k v c) /\ data (cache_set k v c) ⊆ <[k := v]> (data c).
Proof.
  intros Hc. unfold cache_set, trim. set (c' := {| max_allowed_elements := _; most_recent_accessed := _; data := _ |}).
  apply (trim_loop_spec _ c'); [done|]. subst c'.
  destruct (data c !! k) as [v'|] eqn:E.
  - destruct (erase_node_wf k c Hc) as (Hn & Hm & _); [by eexists|]. destruct Hc as [_ _ [H0 _]].
    split; [exact Hn|]. split; [|exact H0]. intros k'. cbn. rewrite elem_of_cons, Hm. destruct (decide (k' = k)) as [->|Hne].
    + rewrite lookup_insert_eq. split; [by eexists|by left].
    + rewrite lookup_insert_ne by done. split; [by intros [?|[_ ?]]|by right].
  - destruct Hc as [Hn Hd [H0 _]]. split; [|split; [|exact H0]]; cbn.
    + constructor; [|done]. rewrite Hd, E. by intros [].
    + intros k'. rewrite elem_of_cons, Hd. destruct (decide (k' = k)) as [->|Hne].
      * rewrite lookup_insert_eq. split; [by eexists|by left].
      * rewrite lookup_insert_ne by done. split; [by intros [?|?]|by right].
Qed.

Lemma cache_erase_spec k c : cache_wf c -> cache_wf (cache_erase k c) /\ data (cache_erase k c) = delete k (data c).
Proof.
  intros Hc. unfold cache_erase. destruct (data c !! k) as [v|] eqn:E; [|by rewrite delete_id].
  split; [|done]. destruct (erase_node_wf k c Hc) as (Hn & Hm & Hl); [by eexists|]. destruct Hc as [_ Hd Hb].
  apply NoDup_cons in Hn as [_ Hn]. constructor; cbn; [done| |lia].
  intros k'. rewrite Hm. destruct (decide (k' = k)) as [->|Hne].
  - rewrite lookup_delete_eq. split; [by intros [? _]|by intros []].
  - rewrite lookup_delete_ne by done. split; [by intros [_ ?]|done].
Qed.

Lemma cache_clear_spec c : cache_wf c -> cache_wf (cache_clear c).
Proof.
  intros [_ _ Hb]. constructor; cbn; [constructor| |lia]. intros k. rewrite lookup_empty. split; [by intros ?%not_elem_of_nil|by intros []].
Qed.

(** *** The thread that may use the cache sees what the writer does *)

Lemma allowed_lock t c : container_wf c -> allowed_cache t c = negb (lock_blocks t (m_write_exclusive_lock (bk c))).
Proof.
  intros Hc. unfold allowed_cache, lock_blocks. rewrite (wf_isolation c Hc).
  destruct (m_write_exclusive_lock (bk c)) as [[w n]|]; cbn; [by rewrite negb_involutive|done].
Qed.

Lemma allowed_view t k c : container_wf c -> allowed_cache t c = true -> overtaken t k (bk c) = false ->
  view t (bk c) !! k = top_view (bk c) !! k.
Proof.
  intros Hc Ha Ho. rewrite (allowed_lock t c Hc) in Ha. unfold lock_blocks, overtaken, top_view in *.
  destruct (m_write_exclusive_lock (bk c)) as [[w n]|].
  - rewrite negb_involutive in Ha. apply Z.eqb_eq in Ha. by subst.
  - apply negb_false_iff, bool_decide_eq_true in Ho. exact Ho.
Qed.

Lemma cached_from_insert k v m (c : cache_base) : cache_wf c -> cached_from c m -> cached_from (cache_set k v c) (<[k := v]> m).
Proof.
  intros Hc Hm k' v' Hd. destruct (cache_set_spec k v c Hc) as [_ Hsub].
  pose proof (lookup_weaken _ _ _ _ Hd Hsub) as Hd'. destruct (decide (k' = k)) as [->|Hne].
  - by rewrite lookup_insert_eq in *.
  - rewrite lookup_insert_ne in * by done. by apply Hm.
Qed.

Lemma cached_from_set k v m (c : cache_base) : cache_wf c -> cached_from c m -> m !! k = Some v -> cached_from (cache_set k v c) m.
Proof. intros Hc Hm Hk. rewrite <- (insert_id m k v Hk). by apply cached_from_insert. Qed.

Lemma set_bk_id c : set_bk (bk c) c = c.
Proof. by destruct c. Qed.

Lemma on_bk_eq {A} (m : st (backend K V) A) c r b : m (bk c) = (r, b) -> on_bk m c = (r, set_bk b c).
Proof. intros H. unfold on_bk. by rewrite H. Qed.

(** A container whose cache changes stays coherent. *)
Lemma set_cache_wf m c : container_wf c -> cache_wf m -> cached_from m (top_view (bk c)) -> container_wf (set_cache m c).
Proof. intros [? ? ? ? ?] ? ?. by constructor. Qed.

Lemma get_spec t k c : container_wf c -> overtaken t k (bk c) = false ->
  exists c', get t k c = (Ok (view t (bk c) !! k), c') /\ bk c' = bk c /\ container_wf c'.
Proof.
  intros Hc Ho. pose proof (allowed_view t k c Hc) as Hv. destruct (cache_get_spec k (m_cache c) (wf_cache c Hc)) as (Ef & Hwf & Ed).
  unfold get. set (hit := if allowed_cache t c then _ else _).
  assert (Hm : container_wf (set_cache (snd hit) c)).
  { subst hit. destruct (allowed_cache t c); [|by destruct c]. apply set_cache_wf; [done|done|]. intros k' v'. rewrite Ed. apply (wf_coherent c Hc). }
  destruct hit as [[v|] m] eqn:Eh; cbn [snd] in Hm; subst hit.
  - destruct (allowed_cache t c); [|done]. rewrite Hv by done. rewrite Eh in Ef. symmetry in Ef.
    rewrite (wf_coherent c Hc _ _ Ef). by eexists.
  - unfold read_through. rewrite (bind_eq _ _ _ _ _ (on_bk_eq _ (set_cache m c) _ _ (db_get_spec t k _ (wf_bk _ Hm)))). rewrite set_bk_id.
    change (bk (set_cache m c)) with (bk c). destruct (view t (bk c) !! k) as [v|] eqn:Ev; [|by eexists].
    eexists. split; [done|]. unfold with_cache. change (allowed_cache t (set_cache m c)) with (allowed_cache t c).
    destruct (allowed_cache t c); [|done]. split; [done|]. specialize (Hv eq_refl Ho).
    apply (set_cache_wf _ _ Hm); [by apply cache_set_spec, (wf_cache _ Hm)|].
    apply cached_from_set; [apply (wf_cache _ Hm)|apply (wf_coherent _ Hm)|]. change (bk (set_cache m c)) with (bk c). congruence.
Qed.

Lemma set_spec t k v c : container_wf c -> is_writer t (bk c) = true ->
  exists c', set t k v c = (Ok tt, c') /\ bk c' = snd (db_set t k v (bk c)) /\ container_wf c'.
Proof.
  intros Hc Hw. destruct (db_set_spec t k v (bk c) (wf_bk c Hc)) as (b' & Eb & Hs). rewrite Hw in *. destruct Hs as (Hb & _ & El & Ec & Et).
  destruct (proj1 (writer_lock t _ (wf_bk c Hc)) Hw) as [n Hl]. rewrite Eb. unfold set.
  rewrite (bind_eq (update _) _ c tt _ eq_refl), (bind_eq _ _ _ _ _ (on_bk_eq _ (set_size (size_cache c) false c) _ _ Eb)).
  eexists. split; [done|]. unfold with_cache.
  assert (Ha : allowed_cache t (set_bk b' (set_size (size_cache c) false c)) = true).
  { change (allowed_cache t c = true). rewrite allowed_lock, Hl by done. cbn. by rewrite Z.eqb_refl. }
  rewrite Ha. split; [done|]. destruct Hc as [Hca _ Hst Hi Hco]. constructor; cbn.
  - by apply cache_set_spec.
  - done.
  - intros t'. rewrite Ec. apply Hst.
  - by rewrite El.
  - rewrite Et. by apply cached_from_insert.
Qed.

Lemma erase_spec t k c : container_wf c -> lock_blocks t (m_write_exclusive_lock (bk c)) = false ->
  exists c', erase_validate t k c = (fst (db_erase t k (bk c)), c') /\ bk c' = snd (db_erase t k (bk c)) /\ container_wf c'.
Proof.
  intros Hc Hl. destruct (db_erase_spec t k (bk c) (wf_bk c Hc)) as (b' & Eb & Hs). pose proof (allowed_lock t c Hc) as Ha. rewrite Hl in Ha.
  unfold erase_validate. rewrite (bind_eq _ _ _ _ _ (on_bk_eq _ _ _ _ Eb)). rewrite Eb.
  set (c1 := set_size (size_cache c) false (set_bk b' c)).
  assert (E1 : isolated_write_access t (fun c => set_size (size_cache c) false c) (set_bk b' c) = (Ok tt, c1))
    by (unfold isolated_write_access; change (allowed_cache t (set_bk b' c)) with (allowed_cache t c); by rewrite Ha).
  assert (E2 : isolated_write_access t (fun c => set_cache (cache_erase k (m_cache c)) c) c1 = (Ok tt, set_cache (cache_erase k (m_cache c)) c1))
    by (unfold isolated_write_access; change (allowed_cache t c1) with (allowed_cache t c); by rewrite Ha).
  rewrite (bind_eq _ _ _ _ _ E1), (bind_eq _ _ _ _ _ E2). eexists. split; [done|]. split; [done|].
  destruct Hc as [Hca Hb Hst Hi Hco]. destruct (cache_erase_spec k (m_cache c) Hca) as [Hwf Ed]. destruct (is_writer t (bk c)).
  - destruct Hs as (Hb' & _ & El & Ec & Et). constructor; cbn; [done|done|intros t'; rewrite Ec; apply Hst|by rewrite El|].
    rewrite Et. intros k' v'. rewrite Ed, !lookup_delete_Some. intros [? ?]. split; [done|by apply Hco].
  - subst b'. constructor; cbn; [done|done|apply Hst|done|]. intros k' v'. rewrite Ed, lookup_delete_Some. intros [_ ?]. by apply Hco.
Qed.

(** *** Transactions *)

Lemma stack_of_set t l c t' : stack_of t' (set_stack t l c) = if decide (t' = t) then l else stack_of t' c.
Proof. unfold stack_of. cbn. case_decide; [subst; by rewrite lookup_insert_eq|by rewrite lookup_insert_ne]. Qed.

(** The stack of the accessor after a transaction has begun or ended. *)
Lemma set_stack_wf t l (b' : backend K V) w (f : cache_base -> cache_base) c : container_wf c -> backend_wf b' ->
  (forall t', call_read_only <$> calls_of t' b' = if decide (t' = t) then l else call_read_only <$> calls_of t' (bk c)) ->
  w = fst <$> m_write_exclusive_lock b' -> cache_wf (f (m_cache c)) -> cached_from (f (m_cache c)) (top_view b') ->
  container_wf (set_isolation w (set_cache (f (m_cache c)) (set_stack t l (set_bk b' c)))).
Proof.
  intros Hc Hb' Hs Hw Hf Hco. constructor; [done|done| |done|done].
  intros t'. change (stack_of t' (set_stack t l c) = call_read_only <$> calls_of t' b'). rewrite stack_of_set, Hs.
  case_decide; [done|]. apply (wf_stack c Hc).
Qed.

Lemma begin_spec t readonly c : container_wf c -> readonly = true \/ lock_blocks t (m_write_exclusive_lock (bk c)) = false ->
  exists c', begin_transaction t readonly c = (fst (db_begin t readonly (bk c)), c') /\ bk c' = snd (db_begin t readonly (bk c)) /\ container_wf c'.
Proof.
  intros Hc Hl. pose proof (db_begin_top_view t readonly (bk c) (wf_bk c Hc) Hl) as Ht.
  destruct (db_begin_spec t readonly (bk c) (wf_bk c Hc) Hl) as (b' & Eb & Hb' & _ & El & Ec & _). rewrite Eb in *. cbn [fst snd] in *.
  unfold begin_transaction. rewrite (bind_eq _ _ _ _ _ (on_bk_eq _ _ _ _ Eb)), (bind_eq (read _) _ (set_bk b' c) _ _ eq_refl).
  change (stack_of t (set_bk b' c)) with (stack_of t c). set (c2 := set_stack t (readonly :: stack_of t c) (set_bk b' c)).
  rewrite (bind_eq (update _) _ _ tt c2 eq_refl), (wf_stack c Hc), has_writer_count, negb_involutive.
  assert (Hwf : forall w, w = fst <$> m_write_exclusive_lock b' -> container_wf (set_isolation w c2)).
  { intros w Ew. replace c2 with (set_cache (m_cache c) c2) by done. apply (set_stack_wf t _ b' w id); try done.
    - intros t'. rewrite Ec. unfold begun. by rewrite (wf_stack c Hc).
    - apply (wf_cache c Hc).
    - unfold id. rewrite Ht. apply (wf_coherent c Hc). }
  pose proof (wf_isolation c Hc) as Hi. destruct readonly; cbn [negb].
  - rewrite andb_false_r. exists c2. split; [done|]. split; [done|]. specialize (Hwf (m_current_writer_thread c)). apply Hwf. by rewrite El.
  - destruct Hl as [|Hl]; [done|]. destruct (lock_section_writers t (bk c) (wf_bk c Hc) Hl) as [El' _]. rewrite El' in El. rewrite andb_true_r.
    pose proof (wf_lock (bk c) (wf_bk c Hc) t) as Hw. pose proof (wf_depth (bk c) (wf_bk c Hc)) as Hd.
    destruct (m_write_exclusive_lock (bk c)) as [[w n]|]; cbn in Hl, Hi, Hw.
    + apply negb_false_iff, Z.eqb_eq in Hl. subst w. rewrite decide_True in Hw by done. specialize (Hd _ _ eq_refl). rewrite Hw.
      destruct (Nat.eqb_spec n 0); [done|]. exists c2. split; [done|]. split; [done|].
      specialize (Hwf (m_current_writer_thread c)). apply Hwf. rewrite El. exact Hi.
    + rewrite Hw. cbn [Nat.eqb]. unfold set_isolation_mode.
      change (m_current_writer_thread c2) with (m_current_writer_thread c). rewrite Hi. eexists. split; [done|]. split; [done|]. apply Hwf. by rewrite El.
Qed.

(** The isolation after the innermost transaction has ended. *)
Lemma popped_isolation t (b : backend K V) c cs : backend_wf b -> calls_of t b = c :: cs ->
  negb (call_read_only c) && negb (has_writer_tx_in_stack (call_read_only <$> cs)) = outermost_writer (c :: cs) /\
  (if outermost_writer (c :: cs) then fst <$> m_write_exclusive_lock b = Some t /\ popped_lock t c cs b = None
   else fst <$> popped_lock t c cs b = fst <$> m_write_exclusive_lock b).
Proof.
  intros Hb Hc. rewrite has_writer_count, negb_involutive. cbn [outermost_writer]. split; [done|].
  pose proof (writer_holds_lock t b c cs Hb Hc) as Hw. unfold popped_lock. destruct (call_read_only c); cbn [negb andb]; [done|].
  rewrite (Hw eq_refl). by destruct (Nat.eqb (writers cs) 0).
Qed.

Lemma no_calls_pop t is_commit (b : backend K V) : calls_of t b = [] -> pop_the_call t is_commit b = (Exn, b).
Proof. intros Hc. unfold pop_the_call, calls_of in *. destruct (txs_of t b) as [calls txs]. cbn in Hc. by subst. Qed.

Lemma commit_spec t c : container_wf c ->
  exists c', commit_transaction t c = (fst (db_commit t (bk c)), c') /\ bk c' = snd (db_commit t (bk c)) /\ container_wf c'.
Proof.
  intros Hc. unfold commit_transaction, db_commit. rewrite (bind_eq (read _) _ c _ _ eq_refl), (wf_stack c Hc).
  destruct (calls_of t (bk c)) as [|call cs] eqn:Ecs; [rewrite no_calls_pop by done; by exists c|].
  destruct (pop_the_call_spec t true (bk c) call cs (wf_bk c Hc) Ecs) as (b' & Eb & Hb' & El & Ec & Ht). rewrite Eb, fmap_cons. cbn [fst snd].
  destruct (popped_isolation t (bk c) call cs (wf_bk c Hc) Ecs) as [-> Hi].
  rewrite (bind_eq _ _ _ _ _ (on_bk_eq _ _ _ _ Eb)). set (c2 := set_stack t (call_read_only <$> cs) (set_bk b' c)).
  rewrite (bind_eq (update _) _ _ tt c2 eq_refl).
  assert (Hwf : forall w, w = fst <$> m_write_exclusive_lock b' -> container_wf (set_isolation w c2)).
  { intros w Ew. replace c2 with (set_cache (m_cache c) c2) by done. apply (set_stack_wf t _ b' w id); try done.
    - intros t'. rewrite Ec. by case_decide.
    - apply (wf_cache c Hc).
    - unfold id. rewrite Ht by by right. apply (wf_coherent c Hc). }
  rewrite El in Hwf. destruct (outermost_writer (call :: cs)).
  - destruct Hi as [Hi Hn]. unfold reset_isolation_mode. change (m_current_writer_thread c2) with (m_current_writer_thread c).
    rewrite (wf_isolation c Hc), Hi. eexists. split; [done|]. split; [done|]. apply Hwf. by rewrite Hn.
  - exists c2. split; [done|]. split; [done|]. specialize (Hwf (m_current_writer_thread c)). apply Hwf. by rewrite Hi, (wf_isolation c Hc).
Qed.

Lemma abort_spec t c : container_wf c -> op_ok (OpAbort t) (bk c) = true ->
  exists c', abort_transaction t c = (fst (db_abort t (bk c)), c') /\ bk c' = snd (db_abort t (bk c)) /\ container_wf c'.
Proof.
  intros Hc Ho. unfold abort_transaction, db_abort. rewrite (bind_eq (read _) _ c _ _ eq_refl), (wf_stack c Hc). cbn [op_ok] in Ho.
  destruct (calls_of t (bk c)) as [|call cs] eqn:Ecs; [rewrite no_calls_pop by done; by exists c|].
  destruct (pop_the_call_spec t false (bk c) call cs (wf_bk c Hc) Ecs) as (b' & Eb & Hb' & El & Ec & Ht). rewrite Eb, fmap_cons. cbn [fst snd].
  destruct (popped_isolation t (bk c) call cs (wf_bk c Hc) Ecs) as [-> Hi].
  rewrite (bind_eq _ _ _ _ _ (on_bk_eq _ _ _ _ Eb)). set (c2 := set_stack t (call_read_only <$> cs) (set_bk b' c)).
  rewrite (bind_eq (update _) _ _ tt c2 eq_refl).
  assert (Hwf : forall w f, w = fst <$> m_write_exclusive_lock b' -> cache_wf (f (m_cache c)) -> cached_from (f (m_cache c)) (top_view b') ->
    container_wf (set_isolation w (set_cache (f (m_cache c)) c2))).
  { intros w f Ew Hf Hco. apply (set_stack_wf t _ b' w f); try done. intros t'. rewrite Ec. by case_decide. }
  rewrite El in Hwf. cbn [outermost_writer] in *. destruct (call_read_only call) eqn:Ero; cbn [negb andb orb] in *.
  - exists c2. split; [done|]. split; [done|]. specialize (Hwf (m_current_writer_thread c) id). apply Hwf.
    + by rewrite Hi, (wf_isolation c Hc).
    + apply (wf_cache c Hc).
    + rewrite Ht by by left. apply (wf_coherent c Hc).
  - rewrite Ho in *. destruct Hi as [Hi Hn].
    assert (Ha : with_cache t cache_clear c2 = set_cache (cache_clear (m_cache c)) c2).
    { unfold with_cache, allowed_cache. change (m_current_writer_thread c2) with (m_current_writer_thread c).
      by rewrite (wf_isolation c Hc), Hi, Z.eqb_refl. }
    rewrite (bind_eq (update _) _ _ tt _ eq_refl), Ha. unfold reset_isolation_mode.
    change (m_current_writer_thread (set_cache _ c2)) with (m_current_writer_thread c). rewrite (wf_isolation c Hc), Hi.
    eexists. split; [done|]. split; [done|]. apply Hwf; [by rewrite Hn|apply cache_clear_spec, (wf_cache c Hc)|]. by intros k v Hd.
Qed.

(** One operation, with the cache and without it. *)
Lemma container_step_spec op c : container_wf c -> op_ok op (bk c) = true ->
  exists c', container_step op c = (fst (backend_step op (bk c)), c') /\ bk c' = snd (backend_step op (bk c)) /\ container_wf c'.
Proof.
  intros Hc Ho. destruct op as [t readonly|t|t|t k|t k v|t k]; cbn [container_step backend_step op_ok answer fst snd] in *.
  - apply orb_true_iff in Ho. rewrite negb_true_iff in Ho. destruct (begin_spec t readonly c Hc Ho) as (c' & -> & Hbk & Hwf). by exists c'.
  - destruct (commit_spec t c Hc) as (c' & -> & Hbk & Hwf). by exists c'.
  - destruct (abort_spec t c Hc Ho) as (c' & -> & Hbk & Hwf). by exists c'.
  - apply negb_true_iff in Ho. destruct (get_spec t k c Hc Ho) as (c' & -> & Hbk & Hwf). exists c'.
    by rewrite db_get_spec by apply (wf_bk c Hc).
  - destruct (set_spec t k v c Hc Ho) as (c' & -> & Hbk & Hwf). exists c'.
    destruct (db_set_spec t k v (bk c) (wf_bk c Hc)) as (b' & Eb & _). rewrite (bind_eq _ _ _ _ _ Eb). rewrite Eb in Hbk. done.
  - apply negb_true_iff in Ho. destruct (erase_spec t k c Hc Ho) as (c' & -> & Hbk & Hwf). by exists c'.
Qed.

Lemma run_db_spec ops c : container_wf c -> schedule_ok ops (bk c) = true ->
  exists c', run_db container_step ops c = (fst (run_db backend_step ops (bk c)), c') /\
    bk c' = snd (run_db backend_step ops (bk c)) /\ container_wf c'.
Proof.
  revert c. induction ops as [|op ops IH]; intros c Hc Hs; [by exists c|]. cbn [schedule_ok run_db] in *.
  apply andb_true_iff in Hs as [Ho Hs]. destruct (container_step_spec op c Hc Ho) as (c1 & -> & Hbk & Hc1). rewrite <- Hbk in Hs.
  destruct (IH c1 Hc1 Hs) as (c2 & -> & Hbk2 & Hc2). rewrite Hbk in *. exists c2.
  destruct (backend_step op (bk c)) as [a b1]. cbn [fst snd] in *. destruct (run_db backend_step ops b1) as [l b2]. done.
Qed.

Definition empty_container (max_elements : Z) (m : gmap K V) : container :=
  {| bk := empty_backend m; m_transactions_stack := ∅; m_current_writer_thread := None;
     m_cache := {| max_allowed_elements := max_elements; most_recent_accessed := []; data := ∅ |};
     size_cache := 0; size_cache_valid := false |}.

Lemma empty_container_wf max_elements m : 0 <= max_elements -> container_wf (empty_container max_elements m).
Proof.
  intros H. constructor; [|apply empty_backend_wf| |done|by intros k v Hd].
  - constructor; cbn; [constructor| |lia]. intros k. rewrite lookup_empty. split; [by intros ?%not_elem_of_nil|by intros []].
  - intros t. unfold stack_of, calls_of, txs_of. cbn. by rewrite !lookup_empty.
Qed.

Lemma cache_size c : cache_wf c -> base.size (data c) = List.length (most_recent_accessed c).
Proof.
  intros [Hn Hd _]. rewrite <- size_dom, <- (size_list_to_set (C := gset K)) by done. f_equal.
  apply set_eq. intros k. by rewrite elem_of_dom, elem_of_list_to_set, Hd.
Qed.

(** The limit of the cache never changes. *)
#[local] Abbreviation limit c := (max_allowed_elements (m_cache c)).

Lemma trim_limit fuel c : max_allowed_elements (trim_loop fuel c) = max_allowed_elements c.
Proof.
  revert c. induction fuel as [|fuel IH]; intros c; [done|]. cbn [trim_loop].
  destruct (_ <? _); [|done]. destruct (last _); [|done]. by rewrite IH.
Qed.

Lemma cache_get_limit k c : max_allowed_elements (snd (cache_get k c)) = max_allowed_elements c.
Proof. unfold cache_get. by destruct (data c !! k). Qed.

Lemma cache_set_limit k v c : max_allowed_elements (cache_set k v c) = max_allowed_elements c.
Proof. unfold cache_set, trim. by rewrite trim_limit. Qed.

Lemma cache_erase_limit k c : max_allowed_elements (cache_erase k c) = max_allowed_elements c.
Proof. unfold cache_erase. by destruct (data c !! k). Qed.

Lemma with_cache_limit t f c : (forall m, max_allowed_elements (f m) = max_allowed_elements m) -> limit (with_cache t f c) = limit c.
Proof. intros Hf. unfold with_cache. destruct (allowed_cache t c); [apply Hf|done]. Qed.

Definition keeps_limit {A} (m : st container A) : Prop := forall c, limit (snd (m c)) = limit c.

Lemma preserves_bind {A B} (m : st container A) (f : A -> st container B) : keeps_limit m -> (forall a, keeps_limit (f a)) -> keeps_limit (m ≫= f).
Proof.
  intros Hm Hf c. specialize (Hm c). unfold mbind, st_bind. destruct (m c) as [[a| |] c1]; [|done|done]. rewrite Hf. exact Hm.
Qed.
Lemma keeps_on_bk {A} (m : st (backend K V) A) : keeps_limit (on_bk m).
Proof. intros c. unfold on_bk. by destruct (m (bk c)). Qed.
Lemma keeps_update f : (forall c, limit (f c) = limit c) -> keeps_limit (update f).
Proof. intros Hf c. apply Hf. Qed.
Lemma keeps_write_access t f : (forall c, limit (f c) = limit c) -> keeps_limit (isolated_write_access t f).
Proof. intros Hf c. unfold isolated_write_access. destruct (allowed_cache t c); [apply Hf|done]. Qed.
Lemma keeps_isolation t : keeps_limit (set_isolation_mode t) /\ keeps_limit reset_isolation_mode.
Proof. split; intros c; [unfold set_isolation_mode|unfold reset_isolation_mode]; by destruct (m_current_writer_thread c). Qed.

#[local] Ltac keeps := repeat first
  [ apply preserves_bind; [|intros ?] | apply keeps_on_bk | apply (keeps_isolation 0) | apply keeps_isolation
  | apply keeps_update; intros ?; try done; apply with_cache_limit; intros ? | apply keeps_write_access; intros ?
  | case_match | done ].

Lemma container_step_limit op c : limit (snd (container_step op c)) = limit c.
Proof.
  destruct op as [t readonly|t|t|t k|t k v|t k]; cbn [container_step answer snd].
  - revert c. change (keeps_limit (begin_transaction t readonly)). unfold begin_transaction. keeps.
  - revert c. change (keeps_limit (commit_transaction t)). unfold commit_transaction. keeps.
  - revert c. change (keeps_limit (abort_transaction t)). unfold abort_transaction. keeps.
  - assert (Hr : keeps_limit (read_through t k)) by (unfold read_through; keeps; apply cache_set_limit).
    unfold get. destruct (allowed_cache t c); [|exact (Hr (set_cache (m_cache c) c))].
    pose proof (cache_get_limit k (m_cache c)) as Hl. destruct (cache_get k (m_cache c)) as [[v|] m]; [done|].
    transitivity (limit (set_cache m c)); [exact (Hr _)|exact Hl].
  - revert c. change (keeps_limit (set t k v)). unfold set. keeps. apply cache_set_limit.
  - revert c. change (keeps_limit (erase_validate t k)). unfold erase_validate. keeps. apply cache_erase_limit.
Qed.

Lemma run_db_limit ops c : limit (snd (run_db container_step ops c)) = limit c.
Proof.
  revert c. induction ops as [|op ops IH]; intros c; [done|]. cbn [run_db].
  pose proof (container_step_limit op c) as Hl. destruct (container_step op c) as [a c1]. specialize (IH c1).
  destruct (run_db container_step ops c1) as [l c2]. cbn [snd] in *. congruence.
Qed.

(** *** The cached size *)

Lemma size_spec t c : container_wf c ->
  size t c = (Ok (if allowed_cache t c && size_cache_valid c then size_cache c else Z.of_nat (base.size (view t (bk c)))),
              if allowed_cache t c && negb (size_cache_valid c) then set_size (Z.of_nat (base.size (view t (bk c)))) true c else c).
Proof.
  intros Hc. unfold size, size_through.
  pose proof (on_bk_eq _ c _ _ (db_size_spec t (bk c) (wf_bk c Hc))) as E. rewrite set_bk_id in E.
  assert (E' : (res ← on_bk (db_size t); _ ← update (fun c => if allowed_cache t c then set_size res true c else c); mret res) c =
    (Ok (Z.of_nat (base.size (view t (bk c)))), if allowed_cache t c then set_size (Z.of_nat (base.size (view t (bk c)))) true c else c)).
  { rewrite (bind_eq _ _ _ _ _ E). by rewrite (bind_eq (update _) _ c tt _ eq_refl). }
  rewrite E'. by destruct (allowed_cache t c), (size_cache_valid c).
Qed.

Lemma set_invalidates t k v c : size_cache_valid (snd (set t k v c)) = false.
Proof.
  unfold set, mbind, st_bind, on_bk, update, with_cache. cbn. repeat case_match; simplify_eq; cbn; try done.
Qed.

Lemma abort_keeps_size t c : size_cache (snd (abort_transaction t c)) = size_cache c /\
  size_cache_valid (snd (abort_transaction t c)) = size_cache_valid c.
Proof.
  unfold abort_transaction, mbind, st_bind, read, on_bk, update, with_cache, reset_isolation_mode, throw_unless, mret, st_ret.
  repeat case_match; simplify_eq; done.
Qed.

(** [on_write_transaction_abort] does not reset the cached number of
    records: when a write transaction stores a record under a new key, asks for
    the size and aborts, the database is the one before the transaction, and the
    container answers one record more than it has, to every thread, until the
    next write. *)
Theorem size_after_abort_is_stale (c : container) t t' k v :
  container_wf c -> m_current_writer_thread c = None -> calls_of t (bk c) = [] -> committed (bk c) !! k = None ->
  exists c', (_ ← begin_transaction t false; _ ← set t k v; _ ← size t; abort_transaction t) c = (Ok tt, c') /\
    committed (bk c') = committed (bk c) /\ m_write_exclusive_lock (bk c') = None /\
    size t' c' = (Ok (Z.of_nat (base.size (committed (bk c))) + 1), c').
Proof.
  intros Hc Hw Ecs Ek. pose proof (wf_isolation c Hc) as Hi. rewrite Hw in Hi.
  destruct (m_write_exclusive_lock (bk c)) as [[? ?]|] eqn:El; [done|].
  assert (Hl : false = true \/ lock_blocks t (m_write_exclusive_lock (bk c)) = false) by (right; by rewrite El).
  destruct (begin_spec t false c Hc Hl) as (c1 & E1 & B1 & H1).
  pose proof (db_begin_top_view t false (bk c) (wf_bk c Hc) Hl) as T1.
  destruct (db_begin_spec t false (bk c) (wf_bk c Hc) Hl) as (b1 & Eb1 & Hb1 & Em1 & El1 & Ec1 & _). rewrite Eb1 in *. cbn [fst snd] in *.
  subst b1. rewrite El in El1. cbn in El1.
  assert (W1 : is_writer t (bk c1) = true) by (apply writer_lock; [done|by exists 1%nat]).
  destruct (set_spec t k v c1 H1 W1) as (c2 & E2 & B2 & H2).
  destruct (db_set_spec t k v (bk c1) Hb1) as (b2 & Eb2 & Hs). rewrite W1, Eb2 in *. cbn [snd] in B2. subst b2.
  destruct Hs as (Hb2 & Em2 & El2 & Ec2 & T2).
  pose proof (set_invalidates t k v c1) as V2. rewrite E2 in V2. cbn [snd] in V2.
  set (n := Z.of_nat (base.size (committed (bk c))) + 1). set (c3 := set_size n true c2).
  assert (En : Z.of_nat (base.size (view t (bk c2))) = n).
  { rewrite writer_view, T2, T1; [|done|apply writer_lock; [done|exists 1%nat; by rewrite El2]].
    unfold top_view. rewrite El. rewrite map_size_insert_None by done. unfold n. lia. }
  assert (E3 : size t c2 = (Ok n, c3)).
  { rewrite size_spec, V2, andb_false_r, andb_true_r, En, allowed_lock, El2, El1 by done. cbn. by rewrite Z.eqb_refl. }
  assert (H3 : container_wf c3) by (destruct H2; by constructor).
  assert (Ecs3 : exists call, calls_of t (bk c3) = [call] /\ call_read_only call = false).
  { change (calls_of t (bk c3)) with (calls_of t (bk c2)). rewrite Ec2. specialize (Ec1 t). unfold begun in Ec1.
    rewrite decide_True, Ecs in Ec1 by done. destruct (calls_of t (bk c1)) as [|call [|? ?]]; try done. exists call. by injection Ec1 as ?. }
  destruct Ecs3 as (call & Ecs3 & Ero).
  destruct (abort_spec t c3 H3) as (c4 & E4 & B4 & H4); [cbn [op_ok]; rewrite Ecs3; apply orb_true_r|].
  destruct (pop_the_call_spec t false (bk c3) call [] (wf_bk _ H3) Ecs3) as (b4 & Eb4 & _ & El4 & _).
  destruct (abort_outermost t (bk c3) call [] (wf_bk _ H3) Ecs3 Ero eq_refl) as [Em4 _]. unfold db_abort in *.
  rewrite Eb4 in *. cbn [fst snd] in *. subst b4. unfold popped_lock in El4. rewrite Ero in El4. cbn in El4.
  destruct (abort_keeps_size t c3) as [S4 V4]. rewrite E4 in S4, V4. cbn in S4, V4.
  exists c4. rewrite (bind_eq _ _ _ _ _ E1), (bind_eq _ _ _ _ _ E2), (bind_eq _ _ _ _ _ E3). split; [exact E4|].
  split; [rewrite Em4; change (committed (bk c3)) with (committed (bk c2)); congruence|]. split; [done|].
  rewrite size_spec, allowed_lock, El4, V4 by done. cbn. by rewrite S4.
Qed.

End cached.
Arguments cache_base K V {_ _}.
Arguments container K V {_ _}.

(** C34: A container that caches its records answers every schedule of
    operations of any number of threads - reads, writes, erasures, begun,
    committed and aborted transactions, nested and read-only ones - as the LMDB
    back end alone does, exceptions included, and leaves the same database; the
    cache never holds more than its limit, and every record it holds is the one
    of the innermost write transaction, or the committed one when nobody writes.
    The schedules are those in which no thread has to wait for the write lock,
    records are stored inside a write transaction, no thread erases while another
    one writes, no write transaction inside another one is aborted, and no
    thread reads, in a read-only transaction, a record that a commit has changed
    since that transaction began (the read would come from the older snapshot);
    [overtaken_read_is_shared], [refused_write_is_cached] and
    [nested_abort_leaves_stale_records] are what happens otherwise. *)
Theorem cached_container_refines_database {K V} `{!EqDecision K, !Countable K, !EqDecision V} max_elements (m : gmap K V) ops :
  0 <= max_elements -> schedule_ok ops (empty_backend m) = true ->
  exists c, run_db container_step ops (empty_container max_elements m) = (fst (run_db backend_step ops (empty_backend m)), c) /\
    bk c = snd (run_db backend_step ops (empty_backend m)) /\
    Z.of_nat (base.size (data (m_cache c))) <= max_elements /\
    forall k v, data (m_cache c) !! k = Some v -> top_view (bk c) !! k = Some v.
Proof.
  intros Hm Hs. destruct (run_db_spec ops _ (empty_container_wf max_elements m Hm) Hs) as (c & Hrun & Hbk & Hc).
  exists c. split; [done|]. split; [done|].
  pose proof (run_db_limit ops (empty_container max_elements m)) as Hl.
  rewrite (surjective_pairing (run_db _ _ _)) in Hrun. injection Hrun as _ Ec. rewrite Ec in Hl. cbn in Hl.
  split; [|apply Hc]. rewrite cache_size, <- Hl by apply Hc. apply Hc.
Qed.

(** Thread 1 replaces a record that the cache of two records holds and aborts,
    while thread 2 reads inside a read-only transaction, in which it goes on
    reading the records that did not change after thread 1 has committed. *)
Example cached_container_refines_database_witness :
  let ops := [OpBegin 2 true; OpGet 2 5; OpBegin 1 false; OpSet 1 5 8; OpGet 1 5; OpGet 2 5; OpErase 1 6; OpAbort 1; OpGet 2 5; OpGet 1 6;
              OpBegin 1 false; OpBegin 1 true; OpBegin 1 false; OpSet 1 7 70; OpCommit 1; OpGet 1 7; OpCommit 1; OpGet 2 7; OpCommit 1;
              OpGet 2 5; OpCommit 2; OpGet 2 7; OpCommit 2] in
  let m : gmap Z Z := {[5 := 50; 6 := 60]} in
  fst (run_db container_step ops (empty_container 2 m)) =
    [AnsDone (Ok tt); AnsGet (Ok (Some 50)); AnsDone (Ok tt); AnsDone (Ok tt); AnsGet (Ok (Some 8)); AnsGet (Ok (Some 50)); AnsErase (Ok true);
     AnsDone (Ok tt); AnsGet (Ok (Some 50)); AnsGet (Ok (Some 60)); AnsDone (Ok tt); AnsDone (Ok tt); AnsDone (Ok tt); AnsDone (Ok tt);
     AnsDone (Ok tt); AnsGet (Ok (Some 70)); AnsDone (Ok tt); AnsGet (Ok None); AnsDone (Ok tt);
     AnsGet (Ok (Some 50)); AnsDone (Ok tt); AnsGet (Ok (Some 70)); AnsDone Exn].
Proof.
  cbn zeta. match goal with |- fst (run_db _ ?ops (empty_container ?n ?m)) = _ =>
    destruct (cached_container_refines_database n m ops) as (c & -> & _); [lia|reflexivity|reflexivity] end.
Defined.

(** ** Schedules outside the theorem *)

(** A nested write transaction that aborts leaves its records in the cache. *)
Example nested_abort_leaves_stale_records :
  let ops := [OpBegin 1 false; OpBegin 1 false; OpSet 1 5 8; OpAbort 1; OpGet 1 5] in
  let m : gmap Z Z := {[5 := 50]} in
  last (fst (run_db container_step ops (empty_container 2 m))) = Some (AnsGet (Ok (Some 8))) /\
  last (fst (run_db backend_step ops (empty_backend m))) = Some (AnsGet (Ok (Some 50))).
Proof. split; reflexivity. Qed.

(** Thread 2 reads in a read-only transaction a record that thread 1 has erased
    and committed since: the snapshot still has it, and [get] puts it into the
    cache, from which thread 3 reads it although the database no longer has it. *)
Example overtaken_read_is_shared :
  let ops := [OpBegin 2 true; OpBegin 1 false; OpErase 1 5; OpCommit 1; OpGet 2 5; OpGet 3 5] in
  let m : gmap Z Z := {[5 := 50]} in
  last (fst (run_db container_step ops (empty_container 2 m))) = Some (AnsGet (Ok (Some 50))) /\
  last (fst (run_db backend_step ops (empty_backend m))) = Some (AnsGet (Ok None)).
Proof. split; reflexivity. Qed.

(** A record stored outside a write transaction is refused by the back end, and
    the container caches it all the same. *)
Example refused_write_is_cached :
  let ops := [OpSet 1 5 8; OpGet 1 5] in
  let m : gmap Z Z := {[5 := 50]} in
  last (fst (run_db container_step ops (empty_container 2 m))) = Some (AnsGet (Ok (Some 8))) /\
  last (fst (run_db backend_step ops (empty_backend m))) = Some (AnsGet (Ok (Some 50))).
Proof. split; reflexivity. Qed.

Example size_after_abort_is_stale_witness :
  let c : container Z Z := empty_container 10 {[5 := 50]} in
  (exists c', (_ ← begin_transaction 1 false; _ ← set 1 6 60; _ ← size 1; abort_transaction 1) c = (Ok tt, c') /\
    committed (bk c') = committed (bk c) /\ m_write_exclusive_lock (bk c') = None /\
    size 2 c' = (Ok (Z.of_nat (base.size (committed (bk c))) + 1), c')) /\
  base.size (committed (bk c)) = 1%nat.
Proof.
  cbn zeta. split; [|reflexivity].
  apply (size_after_abort_is_stale (empty_container 10 {[5 := 50]}) 1 2 6 60); [by apply empty_container_wf|reflexivity..].
Defined.
