(* ===== verification/OrdMap.v ===== *)
(** * Ordered maps keyed by height: the [std::map<uint64_t, T>] of the code

    A map is the list of its pairs in increasing order of key, which is the
    order of its iterators: [begin()] is the head, [--end()] the last pair and
    an iterator is the suffix it starts. *)

From stdpp Require Import sorting.
From S2P Require Import Prelude.

Section OrdMap.
Context {V : Type}.

Definition omap : Type := list (Z * V).

(** Strictly increasing keys. *)
Definition sorted (m : omap) : Prop := StronglySorted Z.lt (map fst m).

Fixpoint mfind (k : Z) (m : omap) : option V :=
  match m with
  | [] => None
  | (k', v) :: m => if k =? k' then Some v else mfind k m
  end.

Definition mcount (k : Z) (m : omap) : Z := match mfind k m with Some _ => 1 | None => 0 end.

(** [m[k] = v] *)
Fixpoint minsert (k : Z) (v : V) (m : omap) : omap :=
  match m with
  | [] => [(k, v)]
  | (k', v') :: m' =>
      if k <? k' then (k, v) :: m
      else if k =? k' then (k, v) :: m'
      else (k', v') :: minsert k v m'
  end.

(** [erase(k)] *)
Fixpoint merase (k : Z) (m : omap) : omap :=
  match m with
  | [] => []
  | (k', v') :: m' => if k =? k' then m' else (k', v') :: merase k m'
  end.

Definition mbegin (m : omap) : option (Z * V) := head m.
Definition mlast (m : omap) : option (Z * V) := last m.
Definition erase_begin (m : omap) : omap := tail m.
Definition erase_last (m : omap) : omap := removelast m.

(** The first pair whose key is not below [k]. *)
Fixpoint lower_bound (k : Z) (m : omap) : omap :=
  match m with
  | [] => []
  | (k', v') :: m' => if k' <? k then lower_bound k m' else m
  end.

(** [--it] for the iterator [lower_bound k m]: the last pair below [k]. *)
Definition before_lower_bound (k : Z) (m : omap) : option (Z * V) :=
  last (take (List.length m - List.length (lower_bound k m)) m).

(** ** Laws *)

Lemma sorted_nil : sorted [].
Proof. constructor. Qed.

Lemma sorted_cons k v m : sorted ((k, v) :: m) <-> sorted m /\ Forall (fun p => k < fst p) m.
Proof.
  unfold sorted. cbn [map fst]. split.
  - intros H. apply StronglySorted_inv in H as [H1 H2]. split; [done|].
    rewrite Forall_map in H2. exact H2.
  - intros [H1 H2]. constructor; [done|]. by rewrite Forall_map.
Qed.

Lemma mfind_none_lt k m : Forall (fun p => k < fst p) m -> mfind k m = None.
Proof.
  induction 1 as [|[k' v'] m Hk _ IH]; [done|]. cbn in *. by rewrite (proj2 (Z.eqb_neq _ _)) by lia.
Qed.

Lemma mfind_elem k v m : sorted m -> mfind k m = Some v <-> (k, v) ∈ m.
Proof.
  induction m as [|[k' v'] m IH]; intros Hs; cbn; [split; [done|by intros ?%elem_of_nil]|].
  apply sorted_cons in Hs as [Hs Hk]. rewrite elem_of_cons. destruct (k =? k') eqn:E; zbool.
  - subst. split; [intros [= ->]; by left|]. intros [[= ->]|H]; [done|].
    rewrite Forall_forall in Hk. specialize (Hk _ H). cbn in Hk. lia.
  - rewrite IH by done. split; [by right|]. intros [[= -> ->]|H]; [lia|done].
Qed.

Lemma minsert_forall (P : Z * V -> Prop) k v m : P (k, v) -> Forall P m -> Forall P (minsert k v m).
Proof.
  intros H0 H. induction H as [|[k' v'] m Hp H IH]; cbn; [by repeat constructor|].
  repeat case_match; by repeat constructor.
Qed.

Lemma minsert_sorted k v m : sorted m -> sorted (minsert k v m).
Proof.
  induction m as [|[k' v'] m IH]; intros Hs; cbn; [repeat constructor|].
  pose proof Hs as Hs'. apply sorted_cons in Hs as [Hs Hk].
  destruct (k <? k') eqn:E; zbool.
  - apply sorted_cons. split; [done|]. constructor; [done|].
    eapply Forall_impl; [exact Hk|]. cbn. intros; lia.
  - destruct (k =? k') eqn:E2; zbool.
    + subst. by apply sorted_cons.
    + apply sorted_cons. split; [by apply IH|]. apply minsert_forall; [cbn; lia|done].
Qed.

Lemma mfind_insert k v m j : sorted m -> mfind j (minsert k v m) = if j =? k then Some v else mfind j m.
Proof.
  induction m as [|[k' v'] m IH]; intros Hs; cbn; [done|].
  apply sorted_cons in Hs as [Hs Hk]. destruct (k <? k') eqn:E; zbool; cbn; [done|].
  destruct (k =? k') eqn:E2; zbool; cbn.
  - subst. by destruct (j =? k').
  - rewrite IH by done. destruct (j =? k') eqn:E3; zbool; [|done].
    subst. by rewrite (proj2 (Z.eqb_neq _ _)) by lia.
Qed.

(** Appending a key above all others. *)
Lemma minsert_top k v m : Forall (fun p => fst p < k) m -> minsert k v m = m ++ [(k, v)].
Proof.
  induction 1 as [|[k' v'] m Hk H IH]; cbn; [done|]. cbn in Hk.
  rewrite (proj2 (Z.ltb_ge _ _)), (proj2 (Z.eqb_neq _ _)), IH by lia. done.
Qed.

Lemma lower_bound_suffix k m : exists l, m = l ++ lower_bound k m /\
  Forall (fun p => fst p < k) l.
Proof.
  induction m as [|[k' v'] m (l & E & H)]; cbn; [by exists []|].
  destruct (k' <? k) eqn:E1; zbool.
  - exists ((k', v') :: l). split; [cbn; congruence|by constructor].
  - by exists [].
Qed.

Lemma lower_bound_ge k m : sorted m -> Forall (fun p => k <= fst p) (lower_bound k m).
Proof.
  induction m as [|[k' v'] m IH]; intros Hs; cbn; [constructor|].
  apply sorted_cons in Hs as [Hs Hk]. destruct (k' <? k) eqn:E; zbool; [by apply IH|].
  constructor; [done|]. eapply Forall_impl; [exact Hk|]. cbn. intros; lia.
Qed.

Lemma before_lower_bound_spec k m : exists l, m = l ++ lower_bound k m /\
  Forall (fun p => fst p < k) l /\ before_lower_bound k m = last l.
Proof.
  destruct (lower_bound_suffix k m) as (l & E & H). exists l. split; [done|]. split; [done|].
  unfold before_lower_bound. f_equal. rewrite E at 1 3. rewrite length_app.
  replace (_ + _ - _)%nat with (List.length l) by lia. apply take_app_length.
Qed.

Lemma sorted_app l1 l2 : sorted (l1 ++ l2) <->
  sorted l1 /\ sorted l2 /\ forall p q, p ∈ l1 -> q ∈ l2 -> fst p < fst q.
Proof.
  induction l1 as [|[k v] l1 IH]; cbn [app].
  - split; [|tauto]. intros H. split; [apply sorted_nil|]. split; [done|]. by intros p q ?%elem_of_nil.
  - rewrite !sorted_cons, IH, Forall_app, !Forall_forall. split.
    + intros [(H1 & H2 & H3) [H4 H5]]. split; [done|]. split; [done|].
      intros p q [->|Hp]%elem_of_cons Hq; [by apply H5|by apply H3].
    + intros ([H1 H4] & H2 & H3). split; [split; [done|split; [done|]]|split].
      * intros p q Hp Hq. apply H3; [by right|done].
      * done.
      * intros q Hq. apply (H3 (k, v) q); [by left|done].
Qed.

(** The last pair has the largest key. *)
Lemma sorted_last m k v p : sorted m -> last m = Some (k, v) -> p ∈ m -> fst p <= k.
Proof.
  intros Hs [l ->]%last_Some Hp. apply sorted_app in Hs as (_ & _ & H).
  apply elem_of_app in Hp as [Hp| ->%list_elem_of_singleton]; [|done].
  specialize (H p (k, v) Hp ltac:(by apply list_elem_of_singleton)). cbn in H. lia.
Qed.

End OrdMap.
Arguments omap : clear implicits.
