(* ===== verification/Checkpoints.v ===== *)
(** * Checkpoints: [src/src/currency_core/checkpoints.cpp]

    The hard-coded pairs of a height and a block hash, and the queries the
    block chain makes of them. *)

From S2P Require Import Prelude Pod OrdMap.

Record checkpoints : Type := { m_points : omap hash }.

Definition checkpoints_new : checkpoints := {| m_points := [] |}.

(** The new state and the result. *)
Definition add_checkpoint (cp : checkpoints) (height : Z) (hash_str : list Z) : checkpoints * bool :=
  match parse_tpod_from_hex_string 32 hash_str with
  | None => (cp, false)
  | Some h =>
      if 0 =? mcount height (m_points cp)
      then ({| m_points := minsert height h (m_points cp) |}, true)
      else (cp, false)
  end.

Definition is_in_checkpoint_zone (cp : checkpoints) (height : Z) : bool :=
  match mlast (m_points cp) with
  | None => false
  | Some (k, _) => height <=? k
  end.

Definition is_height_passed_zone (cp : checkpoints) (height blockchain_last_block_height : Z) : bool :=
  if blockchain_last_block_height <? height then false
  else
    match lower_bound height (m_points cp) with
    | [] => false
    | (k, _) :: _ => k <=? blockchain_last_block_height
    end.

Definition get_top_checkpoint_height (cp : checkpoints) : Z :=
  match mlast (m_points cp) with None => 0 | Some (k, _) => k end.

Definition check_block (cp : checkpoints) (height : Z) (h : hash) : bool :=
  match mfind height (m_points cp) with
  | None => true
  | Some h' => bool_decide (h' = h)
  end.

(** [before_lower_bound] is [None] when the iterator is [begin()]. *)
Definition get_checkpoint_before_height (cp : checkpoints) (height : Z) : Z :=
  let top_cp := get_top_checkpoint_height cp in
  if top_cp <? height then top_cp
  else
    match lower_bound height (m_points cp) with
    | [] => 0
    | _ => match before_lower_bound height (m_points cp) with None => 0 | Some (k, _) => k end
    end.

(** ** Correctness *)

(** The heights of the checkpoints. *)
Definition is_checkpoint (cp : checkpoints) (c : Z) : Prop := exists h, (c, h) ∈ m_points cp.

Definition wf (cp : checkpoints) : Prop :=
  sorted (m_points cp) /\ Forall (fun p => 0 <= fst p) (m_points cp).

Lemma wf_new : wf checkpoints_new.
Proof. split; [apply sorted_nil|constructor]. Qed.

Lemma add_checkpoint_wf cp height s : wf cp -> 0 <= height -> wf (fst (add_checkpoint cp height s)).
Proof.
  intros [Hs Hp] Hh. unfold add_checkpoint. repeat case_match; try done.
  split; cbn; [by apply minsert_sorted|by apply minsert_forall].
Qed.

Lemma in_zone_spec cp height : wf cp ->
  is_in_checkpoint_zone cp height = true <-> exists c, is_checkpoint cp c /\ height <= c.
Proof.
  intros [Hs _]. unfold is_in_checkpoint_zone, is_checkpoint, mlast.
  destruct (last (m_points cp)) as [[k v]|] eqn:E.
  - rewrite Z.leb_le. split.
    + intros Hle. exists k. split; [|done]. exists v.
      apply last_Some in E as [l ->]. apply elem_of_app. right. by left.
    + intros (c & [h Hin] & Hle). pose proof (sorted_last _ _ _ _ Hs E Hin). cbn in *. lia.
  - apply last_None in E. rewrite E. split; [done|]. intros (c & [h Hin%elem_of_nil] & _). done.
Qed.

Lemma passed_zone_spec cp height top : wf cp ->
  is_height_passed_zone cp height top = true <-> exists c, is_checkpoint cp c /\ height <= c <= top.
Proof.
  intros [Hs _]. unfold is_height_passed_zone, is_checkpoint.
  destruct (lower_bound_suffix height (m_points cp)) as (l & E & Hl). rewrite Forall_forall in Hl.
  pose proof (lower_bound_ge height _ Hs) as Hge.
  destruct (top <? height) eqn:Et; zbool.
  { split; [done|]. intros (c & _ & Hc). lia. }
  destruct (lower_bound height (m_points cp)) as [|[k v] r] eqn:Er; rewrite E in Hs |- *.
  - split; [done|]. intros (c & [h Hin] & Hc). rewrite app_nil_r in Hin.
    specialize (Hl _ Hin). cbn in Hl. lia.
  - rewrite Z.leb_le. inversion Hge as [|? ? Hk _]. cbn in Hk. split.
    + intros Hle. exists k. split; [|lia]. exists v. apply elem_of_app. right. by left.
    + intros (c & [h Hin] & Hc). apply elem_of_app in Hin as [Hin|Hin].
      * specialize (Hl _ Hin). cbn in Hl. lia.
      * apply sorted_app in Hs as (_ & [_ Hr]%sorted_cons & _). rewrite Forall_forall in Hr.
        apply elem_of_cons in Hin as [[= -> _]|Hin]; [lia|]. specialize (Hr _ Hin). cbn in Hr. lia.
Qed.

(** The largest checkpoint below [height], 0 when there is none. *)
Definition largest_below (cp : checkpoints) (height r : Z) : Prop :=
  (is_checkpoint cp r /\ r < height /\ forall c, is_checkpoint cp c -> c < height -> c <= r) \/
  (r = 0 /\ forall c, is_checkpoint cp c -> height <= c).

Lemma before_height_spec cp height : wf cp -> 0 <= height ->
  largest_below cp height (get_checkpoint_before_height cp height).
Proof.
  intros [Hs Hp] Hh. unfold get_checkpoint_before_height, get_top_checkpoint_height, largest_below, mlast.
  destruct (last (m_points cp)) as [[k v]|] eqn:El.
  - destruct (k <? height) eqn:Ek; zbool.
    + left. apply last_Some in El as El'. destruct El' as [l El'].
      split; [exists v; rewrite El'; apply elem_of_app; right; by left|]. split; [done|].
      intros c [h Hin] _. apply (sorted_last _ _ _ _ Hs El Hin).
    + destruct (before_lower_bound_spec height (m_points cp)) as (l & E & Hl & Eb).
      assert (Hnn : lower_bound height (m_points cp) <> []).
      { intros E0. rewrite E0, app_nil_r in E. rewrite Forall_forall in Hl.
        apply last_Some in El as [l' El]. specialize (Hl (k, v)). rewrite <- E, El in Hl.
        specialize (Hl ltac:(apply elem_of_app; right; by left)). cbn in Hl. lia. }
      pose proof (lower_bound_ge height _ Hs) as Hge. rewrite Forall_forall in Hge, Hl.
      destruct (lower_bound height (m_points cp)) as [|p r] eqn:Er; [done|]. rewrite Eb.
      destruct (last l) as [[j w]|] eqn:Ell.
      * left. rewrite E in Hs. apply sorted_app in Hs as (Hsl & _ & _).
        apply last_Some in Ell as Ell'. destruct Ell' as [l' Ell'].
        assert (Hj : (j, w) ∈ l) by (rewrite Ell'; apply elem_of_app; right; by left).
        split; [exists w; rewrite E; apply elem_of_app; by left|]. split; [apply (Hl _ Hj)|].
        intros c [h Hin] Hc. rewrite E in Hin. apply elem_of_app in Hin as [Hin|Hin].
        { apply (sorted_last _ _ _ _ Hsl Ell Hin). }
        specialize (Hge _ Hin). cbn in Hge. lia.
      * right. split; [done|]. apply last_None in Ell. subst l. intros c [h Hin].
        rewrite E in Hin. specialize (Hge _ Hin). done.
  - apply last_None in El.
    assert (Hno : forall c, is_checkpoint cp c -> height <= c).
    { intros c [h Hin]. rewrite El in Hin. by apply elem_of_nil in Hin. }
    rewrite El. destruct (0 <? height); right; done.
Qed.

(** on every set of checkpoints built by [add_checkpoint] the height queries
    mean what their names say: being in the zone is having a checkpoint at or
    above the height, having passed it is having one between the height and
    the top block, and [get_checkpoint_before_height] returns the largest
    checkpoint strictly below, or 0. *)
Theorem checkpoint_queries cp height top : wf cp -> 0 <= height ->
  (is_in_checkpoint_zone cp height = true <-> exists c, is_checkpoint cp c /\ height <= c) /\
  (is_height_passed_zone cp height top = true <-> exists c, is_checkpoint cp c /\ height <= c <= top) /\
  largest_below cp height (get_checkpoint_before_height cp height).
Proof.
  intros Hw Hh. split; [by apply in_zone_spec|]. split; [by apply passed_zone_spec|by apply before_height_spec].
Qed.

(** The example of the comment in the source: checkpoints at 11 and 15. *)
Definition cp_11_15 : checkpoints := {| m_points := [(11, null_hash); (15, null_hash)] |}.

Lemma cp_11_15_wf : wf cp_11_15.
Proof. split; repeat constructor; cbn; lia. Qed.

Example checkpoint_queries_witness :
  wf cp_11_15 /\ map (get_checkpoint_before_height cp_11_15) [10; 11; 12; 13; 14; 15; 16] = [0; 0; 11; 11; 11; 11; 15] /\
  (is_height_passed_zone cp_11_15 12 15 = true <-> exists c, is_checkpoint cp_11_15 c /\ 12 <= c <= 15).
Proof.
  split; [exact cp_11_15_wf|]. split; [by vm_compute|].
  apply (checkpoint_queries cp_11_15 12 15 cp_11_15_wf). lia.
Defined.

(** adding a checkpoint.  The call succeeds exactly when the string is the
    hexadecimal form of a hash and the height has no checkpoint yet; from then
    on [check_block] at that height accepts that hash alone, and the answers at
    the other heights do not change.  A refused call changes nothing. *)
Theorem add_checkpoint_spec cp height s cp' : wf cp -> 0 <= height ->
  add_checkpoint cp height s = (cp', true) ->
  wf cp' /\ (exists h, parse_tpod_from_hex_string 32 s = Some h /\
    (forall h', check_block cp' height h' = true <-> h' = h)) /\
  (forall k h', k <> height -> check_block cp' k h' = check_block cp k h') /\
  (forall s', add_checkpoint cp' height s' = (cp', false)).
Proof.
  intros Hw Hh E. split.
  { pose proof (add_checkpoint_wf cp height s Hw Hh) as H. by rewrite E in H. }
  revert E. unfold add_checkpoint at 1. destruct (parse_tpod_from_hex_string 32 s) as [h|]; [|done].
  destruct (0 =? _) eqn:Ec; [|done]. intros [= <-]. destruct Hw as [Hs _].
  unfold check_block, add_checkpoint, mcount. cbn.
  assert (F : forall k, mfind k (minsert height h (m_points cp)) = if k =? height then Some h else mfind k (m_points cp))
    by (intros k; by apply mfind_insert).
  setoid_rewrite F.
  split; [|split].
  - exists h. split; [done|]. intros h'. rewrite Z.eqb_refl, bool_decide_eq_true. naive_solver.
  - intros k h' Hk. by rewrite (proj2 (Z.eqb_neq _ _)) by done.
  - intros s'. rewrite F, Z.eqb_refl. by case_match.
Qed.

Example add_checkpoint_spec_witness :
  let cp := fst (add_checkpoint cp_11_15 20 (pod_to_hex (replicate 32 0xab))) in
  wf cp /\ check_block cp 20 (replicate 32 0xab) = true /\ check_block cp 20 null_hash = false /\
  (forall s, add_checkpoint cp 20 s = (cp, false)).
Proof.
  cbv zeta.
  destruct (add_checkpoint_spec cp_11_15 20 (pod_to_hex (replicate 32 0xab))
    (fst (add_checkpoint cp_11_15 20 (pod_to_hex (replicate 32 0xab))))) as (H1 & _ & _ & H2).
  - exact cp_11_15_wf.
  - lia.
  - vm_compute. reflexivity.
  - split; [exact H1|]. split; [vm_compute; reflexivity|]. split; [vm_compute; reflexivity|exact H2].
Defined.
