(* ===== verification/Shortener.v ===== *)
(** * The short chain history: [src/src/currency_core/block_chain_shortener.cpp]

    The wallet keeps block ids at four resolutions (the last 20 blocks, and
    144 blocks at every multiple of 10, 100 and 1000) and from them builds the
    sparse list of ids by which a node finds the common part of two chains. *)

From S2P Require Import Prelude Pod OrdMap.

Definition SHORTENER_EVERYBLOCK_SIZE : nat := 20.
Definition SHORTENER_EVERY_10_BLOCKS_SIZE : nat := 144.
Definition SHORTENER_EVERY_100_BLOCKS_SIZE : nat := 144.
Definition SHORTENER_EVERY_1000_BLOCKS_SIZE : nat := 144.

Record block_chain_shortener : Type := {
  m_local_bc_size : Z;
  m_genesis : hash;
  m_last_20_blocks : omap hash;
  m_last_144_blocks_every_10 : omap hash;
  m_last_144_blocks_every_100 : omap hash;
  m_last_144_blocks_every_1000 : omap hash;
}.

Definition shortener_new (gdefault_genesis : hash) : block_chain_shortener :=
  {| m_local_bc_size := 1; m_genesis := gdefault_genesis; m_last_20_blocks := [];
     m_last_144_blocks_every_10 := []; m_last_144_blocks_every_100 := [];
     m_last_144_blocks_every_1000 := [] |}.

Definition clear (s : block_chain_shortener) : block_chain_shortener :=
  {| m_local_bc_size := 1; m_genesis := m_genesis s; m_last_20_blocks := [];
     m_last_144_blocks_every_10 := []; m_last_144_blocks_every_100 := [];
     m_last_144_blocks_every_1000 := [] |}.

Definition get_blockchain_current_size (s : block_chain_shortener) : Z := m_local_bc_size s.
Definition get_top_block_height (s : block_chain_shortener) : Z := u64 (m_local_bc_size s - 1).

Definition get_top_block_id (s : block_chain_shortener) : hash :=
  match mlast (m_last_20_blocks s) with Some (_, h) => h | None => null_hash end.

Definition set_genesis (id : hash) (s : block_chain_shortener) : block_chain_shortener :=
  {| m_local_bc_size := 1; m_genesis := id; m_last_20_blocks := m_last_20_blocks s;
     m_last_144_blocks_every_10 := m_last_144_blocks_every_10 s;
     m_last_144_blocks_every_100 := m_last_144_blocks_every_100 s;
     m_last_144_blocks_every_1000 := m_last_144_blocks_every_1000 s |}.

Definition get_genesis (s : block_chain_shortener) : hash := m_genesis s.

(** The [while] loop erases at most every entry: the length is enough fuel. *)
Fixpoint clean_loop (fuel : nat) (container : omap hash) (height : Z) : omap hash :=
  match fuel with
  | O => container
  | S fuel =>
      match mlast container with
      | Some (k, _) => if height <=? k then clean_loop fuel (erase_last container) height else container
      | None => container
      end
  end.

Definition clean_map_from_items_above (container : omap hash) (height : Z) : omap hash :=
  clean_loop (List.length container) container height.

Definition detach (including_height : Z) (s : block_chain_shortener) : block_chain_shortener :=
  {| m_local_bc_size := including_height; m_genesis := m_genesis s;
     m_last_20_blocks := clean_map_from_items_above (m_last_20_blocks s) including_height;
     m_last_144_blocks_every_10 := clean_map_from_items_above (m_last_144_blocks_every_10 s) including_height;
     m_last_144_blocks_every_100 := clean_map_from_items_above (m_last_144_blocks_every_100 s) including_height;
     m_last_144_blocks_every_1000 := clean_map_from_items_above (m_last_144_blocks_every_1000 s) including_height |}.

(** [m[height] = id; if (m.size() > cap) m.erase(m.begin());] *)
Definition push_entry (cap : nat) (height : Z) (id : hash) (m : omap hash) : omap hash :=
  let m := minsert height id m in
  if (cap <? List.length m)%nat then erase_begin m else m.

(** The block for every [d]-th height; the self check throws. *)
Definition push_every (d : Z) (cap : nat) (height : Z) (id : hash) (m : omap hash) : outcome (omap hash) :=
  if height mod d =? 0 then
    match mlast m with
    | Some (k, _) => if k + d =? height then Ret (push_entry cap height id m) else Throw
    | None => Ret (push_entry cap height id m)
    end
  else Ret m.

Definition push_new_block_id (id : hash) (height : Z) (s : block_chain_shortener) : outcome block_chain_shortener :=
  let s := if height <? m_local_bc_size s then detach height s else s in
  if height =? 0 then
    Ret {| m_local_bc_size := 1; m_genesis := id; m_last_20_blocks := m_last_20_blocks s;
           m_last_144_blocks_every_10 := m_last_144_blocks_every_10 s;
           m_last_144_blocks_every_100 := m_last_144_blocks_every_100 s;
           m_last_144_blocks_every_1000 := m_last_144_blocks_every_1000 s |}
  else if negb (m_local_bc_size s =? 1) && negb (get_blockchain_current_size s =? height) then Throw
  else
    m10 ← push_every 10 SHORTENER_EVERY_10_BLOCKS_SIZE height id (m_last_144_blocks_every_10 s);
    m100 ← push_every 100 SHORTENER_EVERY_100_BLOCKS_SIZE height id (m_last_144_blocks_every_100 s);
    m1000 ← push_every 1000 SHORTENER_EVERY_1000_BLOCKS_SIZE height id (m_last_144_blocks_every_1000 s);
    Ret {| m_local_bc_size := u64 (height + 1); m_genesis := m_genesis s;
           m_last_20_blocks := push_entry SHORTENER_EVERYBLOCK_SIZE height id (m_last_20_blocks s);
           m_last_144_blocks_every_10 := m10; m_last_144_blocks_every_100 := m100;
           m_last_144_blocks_every_1000 := m1000 |}.

(** [m.size() && i >= m.begin()->first] *)
Definition starts_at_or_below (m : omap hash) (i : Z) : bool :=
  match mbegin m with Some (k, _) => k <=? i | None => false end.

Definition lookup_item_around (i : Z) (s : block_chain_shortener) : outcome (option (Z * hash)) :=
  let lookup := fun (devider : Z) (container : omap hash) =>
    let i := i - i mod devider in
    match mfind i container with Some h => Ret (Some (i, h)) | None => Throw end in
  if starts_at_or_below (m_last_20_blocks s) i then lookup 1 (m_last_20_blocks s)
  else if starts_at_or_below (m_last_144_blocks_every_10 s) i then lookup 10 (m_last_144_blocks_every_10 s)
  else if starts_at_or_below (m_last_144_blocks_every_100 s) i then lookup 100 (m_last_144_blocks_every_100 s)
  else if starts_at_or_below (m_last_144_blocks_every_1000 s) i then lookup 1000 (m_last_144_blocks_every_1000 s)
  else Ret None.

(** The [while] loop of the history: [None] of the lookup is the [break].  The
    distance doubles at each iteration, so 64 iterations are enough. *)
Fixpoint history_loop (fuel : nat) (s : block_chain_shortener) (sz offset distance : Z) (ids : list hash)
    : outcome (list hash) :=
  match fuel with
  | O => Throw
  | S fuel =>
      if offset <? sz then
        item ← lookup_item_around (u64 (sz - offset)) s;
        match item with
        | None => Ret ids
        | Some (k, h) =>
            let offset := u64 (sz - k) in
            let distance := u64 (distance * 2) in
            history_loop fuel s sz (u64 (offset + distance)) distance (ids ++ [h])
        end
      else Ret ids
  end.

Definition get_short_chain_history (s : block_chain_shortener) : outcome (list hash) :=
  let sz := get_blockchain_current_size s in
  if sz =? 0 then Ret []
  else
    let first := take 10 (rev (m_last_20_blocks s)) in
    let ids := map snd first in
    let i := match last first with Some (k, _) => k | None => 0 end in
    let count := Z.of_nat (List.length first) in
    let current_back_offset := Z.of_nat (List.length ids) + 1 in
    if (current_back_offset =? u64 (sz - i + 1)) || (count =? 0) then
      ids ← history_loop 64 s sz current_back_offset 1 ids;
      Ret (ids ++ [m_genesis s])
    else Throw.

(** The result is [(block_found, block_matched, full_reset_needed)]; the last
    keeps the value it is called with unless it is set. *)
Definition check_if_block_matched (i : Z) (id : hash) (full_reset_needed : bool) (s : block_chain_shortener)
    : outcome (bool * bool * bool) :=
  if i =? 0 then
    if 0 <? m_local_bc_size s then
      let block_matched := bool_decide (id = m_genesis s) in
      Ret (true, block_matched, if negb block_matched then true else full_reset_needed)
    else Ret (false, false, true)
  else if starts_at_or_below (m_last_20_blocks s) i then
    match mlast (m_last_20_blocks s) with
    | Some (k, _) =>
        if i <=? k then
          match mfind i (m_last_20_blocks s) with
          | Some h => Ret (true, bool_decide (id = h), full_reset_needed)
          | None => Throw
          end
        else Throw
    | None => Throw
    end
  else
    result ← lookup_item_around i s;
    match result with
    | None => Ret (false, false, true)
    | Some (k, h) =>
        if k =? i then Ret (true, bool_decide (h = id), full_reset_needed)
        else Ret (false, false, full_reset_needed)
    end.

(** ** The shape of a container

    A container of step [d] holds the blocks of a chain at [cnt] consecutive
    multiples of [d], from [d * lo] on. *)

Fixpoint run (d : Z) (f : Z -> hash) (lo : Z) (cnt : nat) : omap hash :=
  match cnt with
  | O => []
  | S cnt => (d * lo, f (d * lo)) :: run d f (lo + 1) cnt
  end.

Lemma run_length d f lo cnt : List.length (run d f lo cnt) = cnt.
Proof. revert lo. induction cnt as [|c IH]; intros lo; cbn; [done|]. by rewrite IH. Qed.

Lemma run_snoc d f lo cnt :
  run d f lo (S cnt) = run d f lo cnt ++ [(d * (lo + Z.of_nat cnt), f (d * (lo + Z.of_nat cnt)))].
Proof.
  revert lo. induction cnt as [|c IH]; intros lo; [cbn; by rewrite Z.add_0_r|].
  change (run d f lo (S (S c))) with ((d * lo, f (d * lo)) :: run d f (lo + 1) (S c)).
  rewrite IH. cbn. replace (lo + 1 + Z.of_nat c) with (lo + Z.of_nat (S c)) by lia. done.
Qed.

Lemma run_last d f lo cnt : last (run d f lo (S cnt)) = Some (d * (lo + Z.of_nat cnt), f (d * (lo + Z.of_nat cnt))).
Proof. rewrite run_snoc. apply last_snoc. Qed.

Lemma run_elem d f lo cnt k v : (k, v) ∈ run d f lo cnt <->
  exists j, k = d * j /\ v = f k /\ lo <= j < lo + Z.of_nat cnt.
Proof.
  revert lo. induction cnt as [|c IH]; intros lo; cbn [run].
  - split; [by intros ?%elem_of_nil|]. intros (j & _ & _ & H). lia.
  - rewrite elem_of_cons, IH. split.
    + intros [[= -> ->]|(j & -> & -> & H)]; [exists lo|exists j]; (split; [done|split; [done|lia]]).
    + intros (j & -> & -> & H). destruct (decide (j = lo)) as [->|]; [by left|right].
      exists j. split; [done|split; [done|lia]].
Qed.

Lemma run_forall (P : Z -> Prop) d f lo cnt :
  (forall j, lo <= j < lo + Z.of_nat cnt -> P (d * j)) -> Forall (fun p => P (fst p)) (run d f lo cnt).
Proof.
  intros H. apply Forall_forall. intros [k v] Hin. apply run_elem in Hin as (j & -> & -> & Hj). by apply H.
Qed.

Lemma run_sorted d f lo cnt : 0 < d -> sorted (run d f lo cnt).
Proof.
  intros Hd. revert lo. induction cnt as [|c IH]; intros lo; cbn [run]; [apply sorted_nil|].
  apply sorted_cons. split; [apply IH|]. apply (run_forall (fun k => d * lo < k)). intros j Hj. nia.
Qed.

Lemma run_find d f lo cnt j : 0 < d -> lo <= j < lo + Z.of_nat cnt -> mfind (d * j) (run d f lo cnt) = Some (f (d * j)).
Proof. intros Hd Hj. apply mfind_elem; [by apply run_sorted|]. apply run_elem. by exists j. Qed.

Lemma run_ext d f g lo cnt : (forall j, lo <= j < lo + Z.of_nat cnt -> f (d * j) = g (d * j)) ->
  run d f lo cnt = run d g lo cnt.
Proof.
  revert lo. induction cnt as [|c IH]; intros lo H; cbn [run]; [done|].
  rewrite (H lo), IH by (intros; try apply H; lia). done.
Qed.

Definition upd (f : Z -> hash) (h : Z) (id : hash) : Z -> hash := fun k => if k =? h then id else f k.

(** Below the size [n] nothing is missing after the last entry. *)
Definition container_ok (d : Z) (cap : nat) (n : Z) (f : Z -> hash) (m : omap hash) : Prop :=
  exists lo cnt, m = run d f lo cnt /\ (cnt <= cap)%nat /\ 1 <= lo /\
    (cnt <> O -> d * (lo + Z.of_nat cnt - 1) < n <= d * (lo + Z.of_nat cnt)).

Lemma container_nil d cap n f : container_ok d cap n f [].
Proof. exists 1, O. split; [done|]. split; [lia|]. split; [lia|done]. Qed.

Lemma container_small d cap n f m : 0 < d -> n <= 1 -> container_ok d cap n f m -> m = [].
Proof.
  intros Hd Hn (lo & [|cnt] & -> & _ & Hlo & H); [done|]. specialize (H ltac:(lia)). nia.
Qed.

Lemma erase_last_run d f lo cnt : erase_last (run d f lo (S cnt)) = run d f lo cnt.
Proof. unfold erase_last. rewrite run_snoc. apply removelast_last. Qed.

Lemma clean_container d cap n f m h : 0 < d -> 0 <= h <= n -> container_ok d cap n f m ->
  container_ok d cap h f (clean_map_from_items_above m h).
Proof.
  intros Hd Hh (lo & cnt & -> & Hc & Hlo & H).
  unfold clean_map_from_items_above. rewrite run_length.
  assert (Hn : cnt <> O -> h <= d * (lo + Z.of_nat cnt)) by (intros Hx; specialize (H Hx); lia).
  clear H. induction cnt as [|cnt IH]; [apply container_nil|].
  cbn [clean_loop]. unfold mlast. rewrite run_last. destruct (h <=? _) eqn:E; zbool.
  - rewrite erase_last_run. apply IH; [lia|]. intros _. nia.
  - exists lo, (S cnt). split; [done|]. split; [done|]. split; [done|]. intros _. specialize (Hn ltac:(lia)).
    split; [|done]. replace (lo + Z.of_nat (S cnt) - 1) with (lo + Z.of_nat cnt) by lia. done.
Qed.

Lemma push_entry_run d cap f lo cnt h id : 0 < d -> (cnt <= cap)%nat -> (1 <= cap)%nat -> 1 <= lo ->
  h = d * (lo + Z.of_nat cnt) ->
  container_ok d cap (h + 1) (upd f h id) (push_entry cap h id (run d f lo cnt)).
Proof.
  intros Hd Hc Hcap Hlo ->. unfold push_entry.
  rewrite minsert_top.
  2:{ apply (run_forall (fun k => k < d * (lo + Z.of_nat cnt))). intros j Hj. nia. }
  rewrite (run_ext d f (upd f (d * (lo + Z.of_nat cnt)) id)).
  2:{ intros j Hj. unfold upd. by rewrite (proj2 (Z.eqb_neq _ _)) by nia. }
  set (g := upd f _ id).
  assert (E : run d g lo cnt ++ [(d * (lo + Z.of_nat cnt), id)] = run d g lo (S cnt)).
  { rewrite run_snoc. do 3 f_equal. unfold g, upd. by rewrite Z.eqb_refl. }
  rewrite E, run_length.
  destruct (Nat.ltb_spec cap (S cnt)).
  - exists (lo + 1), cnt. split; [done|]. split; [lia|]. split; [lia|]. intros _. nia.
  - exists lo, (S cnt). split; [done|]. split; [lia|]. split; [lia|]. intros _. nia.
Qed.

Lemma push_entry_not_nil cap h id m : push_entry (S cap) h id m <> [].
Proof.
  unfold push_entry. destruct (Nat.ltb_spec (S cap) (List.length (minsert h id m))) as [H|_].
  - destruct (minsert h id m) as [|a [|b l]]; cbn in *; [lia..|done].
  - destruct m as [|[k v] m]; cbn; repeat case_match; done.
Qed.

(** Pushing the block at [n]: the self check passes and the shape is kept.  An
    empty container accepts any height. *)
Lemma push_every_ok d cap n f m h id : 0 < d -> (1 <= cap)%nat -> 0 < h ->
  (h = n \/ m = []) -> container_ok d cap n f m ->
  exists m', push_every d cap h id m = Ret m' /\ container_ok d cap (h + 1) (upd f h id) m'.
Proof.
  intros Hd Hcap Hh Hn (lo & cnt & -> & Hc & Hlo & H). unfold push_every.
  pose proof (Z.div_mod h d ltac:(lia)) as Eh. pose proof (Z.mod_pos_bound h d Hd) as Eb.
  destruct (h mod d =? 0) eqn:Em; zbool.
  - rewrite Em, Z.add_0_r in Eh. destruct cnt as [|cnt].
    + eexists. split; [done|]. change (run d f lo 0) with (run d f (h / d) 0).
      assert (1 <= h / d) by nia.
      apply push_entry_run; try done. rewrite Z.add_0_r. done.
    + destruct Hn as [->|]; [|done]. specialize (H ltac:(lia)). unfold mlast. rewrite run_last.
      assert (n = d * (lo + Z.of_nat (S cnt))) as En.
      { assert (n / d <= lo + Z.of_nat (S cnt)) by nia. assert (lo + Z.of_nat (S cnt) - 1 < n / d) by nia. nia. }
      rewrite (proj2 (Z.eqb_eq _ _)) by nia. eexists. split; [done|]. by apply push_entry_run.
  - eexists. split; [done|]. exists lo, cnt. split; [|split; [done|split; [done|]]].
    + apply run_ext. intros j Hj. unfold upd. destruct (d * j =? h) eqn:E; zbool; [|done].
      exfalso. apply Em. rewrite <- E, Z.mul_comm. apply Z_mod_mult.
    + intros Hx. destruct Hn as [->|Hm]; [|by destruct cnt].
      specialize (H Hx). assert (n <> d * (lo + Z.of_nat cnt)); [|lia].
      intros E. apply Em. rewrite E, Z.mul_comm. apply Z_mod_mult.
Qed.

Lemma push_entry_ok cap n f m h id : (1 <= cap)%nat -> 0 < h ->
  (h = n \/ m = []) -> container_ok 1 cap n f m ->
  container_ok 1 cap (h + 1) (upd f h id) (push_entry cap h id m).
Proof.
  intros Hcap Hh Hn Hok. destruct (push_every_ok 1 cap n f m h id) as (m' & E & Hm'); try done; try lia.
  unfold push_every in E. rewrite Z.mod_1_r in E. cbn [Z.eqb] in E.
  destruct (mlast m) as [[k v]|]; [|by injection E as ->]. destruct (_ =? _); [|done]. by injection E as ->.
Qed.

(** ** Reachable states *)

(** The largest height a chain can have here; it keeps every sum of the
    history loop below [2^64]. *)
Definition MAX_HEIGHT : Z := 2 ^ 62.

(** [inv s f]: the state [s] describes the chain [f], a function from heights
    to ids, up to its size. *)
Record inv (s : block_chain_shortener) (f : Z -> hash) : Prop := {
  inv_size : 0 <= m_local_bc_size s <= MAX_HEIGHT;
  inv_genesis : m_genesis s = f 0;
  inv_20 : container_ok 1 20 (m_local_bc_size s) f (m_last_20_blocks s);
  inv_10 : container_ok 10 144 (m_local_bc_size s) f (m_last_144_blocks_every_10 s);
  inv_100 : container_ok 100 144 (m_local_bc_size s) f (m_last_144_blocks_every_100 s);
  inv_1000 : container_ok 1000 144 (m_local_bc_size s) f (m_last_144_blocks_every_1000 s);
}.

(** The states the wallet can reach, with the chain of the ids last pushed at
    each height. *)
Inductive reach : block_chain_shortener -> (Z -> hash) -> Prop :=
| reach_new g : reach (shortener_new g) (fun _ => g)
| reach_clear s f : reach s f -> reach (clear s) f
| reach_set_genesis s f id : reach s f -> get_blockchain_current_size s <= 1 ->
    reach (set_genesis id s) (upd f 0 id)
| reach_detach s f h : reach s f -> 0 <= h <= get_blockchain_current_size s -> reach (detach h s) f
| reach_push s f s' id h : reach s f -> 0 <= h < MAX_HEIGHT -> push_new_block_id id h s = Ret s' ->
    reach s' (upd f h id).

Lemma detach_inv s f h : inv s f -> 0 <= h <= m_local_bc_size s -> inv (detach h s) f.
Proof.
  intros [] Hh. split; cbn; try done; try lia; eapply clean_container; try done; lia.
Qed.

(** With one block or none every container is empty. *)
Lemma small_empty s f : inv s f -> m_local_bc_size s <= 1 ->
  m_last_20_blocks s = [] /\ m_last_144_blocks_every_10 s = [] /\
  m_last_144_blocks_every_100 s = [] /\ m_last_144_blocks_every_1000 s = [].
Proof. intros [] Hn. repeat split; eapply container_small; try done; lia. Qed.

Lemma push_detached s f h : inv s f -> 0 <= h ->
  inv (if h <? m_local_bc_size s then detach h s else s) f /\
  m_local_bc_size (if h <? m_local_bc_size s then detach h s else s) = Z.min h (m_local_bc_size s).
Proof.
  intros Hi Hh. pose proof (inv_size _ _ Hi). zcase; [|split; [done|lia]].
  split; [apply detach_inv; [done|lia]|cbn; lia].
Qed.

(** What [push_new_block_id] does: it returns exactly when the block extends
    the chain, replaces a known block or is the first one. *)
Lemma push_spec s f id h : inv s f -> 0 <= h < MAX_HEIGHT ->
  if (h <=? m_local_bc_size s) || (m_local_bc_size s =? 1) then
    exists s', push_new_block_id id h s = Ret s' /\ inv s' (upd f h id) /\
      m_local_bc_size s' = h + 1 /\ (0 < h -> get_top_block_id s' = id)
  else push_new_block_id id h s = Throw.
Proof.
  intros Hi Hh. destruct (push_detached s f h Hi ltac:(lia)) as [Hi' Hsz].
  pose proof (inv_size _ _ Hi) as Hs.
  unfold push_new_block_id, get_blockchain_current_size. revert Hi' Hsz.
  generalize (if h <? m_local_bc_size s then detach h s else s). intros t Hi' Hsz. unfold MAX_HEIGHT in *.
  destruct (h =? 0) eqn:E0; zbool.
  { subst h. rewrite (proj2 (Z.leb_le _ _)) by lia. eexists. split; [done|]. split; [|split; [done|lia]].
    destruct (small_empty t f Hi' ltac:(lia)) as (-> & -> & -> & ->).
    split; cbn; try apply container_nil; [unfold MAX_HEIGHT; lia|done]. }
  rewrite Hsz. destruct ((h <=? m_local_bc_size s) || (m_local_bc_size s =? 1)) eqn:E.
  2:{ apply orb_false_elim in E as [E1 E2]; zbool.
      rewrite (proj2 (Z.eqb_neq _ 1)), (proj2 (Z.eqb_neq _ h)) by lia. done. }
  replace (_ && _) with false.
  2:{ symmetry. apply andb_false_iff. rewrite !negb_false_iff, !Z.eqb_eq.
      apply orb_true_iff in E as [E|E]; zbool; lia. }
  assert (Hn : forall d cap m, 0 < d -> container_ok d cap (m_local_bc_size t) f m -> h = m_local_bc_size t \/ m = []).
  { intros d cap m Hd Hm. destruct (decide (h <= m_local_bc_size s)); [left; lia|right].
    apply (container_small d cap (m_local_bc_size t) f); [done| |done].
    apply orb_true_iff in E as [E|E]; zbool; lia. }
  destruct Hi' as [_ Hg H20 H10 H100 H1000].
  assert (H0h : 0 < h) by lia. assert (Hcap : (1 <= 144)%nat) by lia.
  destruct (push_every_ok 10 144 _ f _ h id eq_refl Hcap H0h (Hn 10 144%nat _ eq_refl H10) H10) as (m10 & E10 & K10).
  destruct (push_every_ok 100 144 _ f _ h id eq_refl Hcap H0h (Hn 100 144%nat _ eq_refl H100) H100) as (m100 & E100 & K100).
  destruct (push_every_ok 1000 144 _ f _ h id eq_refl Hcap H0h (Hn 1000 144%nat _ eq_refl H1000) H1000) as (m1000 & E1000 & K1000).
  pose proof (push_entry_ok 20 _ f _ h id ltac:(lia) H0h (Hn 1 20%nat _ eq_refl H20) H20) as K20.
  unfold SHORTENER_EVERY_10_BLOCKS_SIZE, SHORTENER_EVERY_100_BLOCKS_SIZE, SHORTENER_EVERY_1000_BLOCKS_SIZE, SHORTENER_EVERYBLOCK_SIZE.
  rewrite E10. outcome_simp. rewrite E100. outcome_simp. rewrite E1000. outcome_simp.
  rewrite (wrap_small 64 (h + 1)) by (split; lia).
  eexists. split; [done|]. split; [|split; [done|]].
  - split; cbn; try done; [unfold MAX_HEIGHT; lia|].
    rewrite Hg. unfold upd. by rewrite (proj2 (Z.eqb_neq _ _)) by lia.
  - intros _. unfold get_top_block_id, mlast. cbn.
    destruct K20 as (lo & cnt & Ec & _ & Hlo & Hc). rewrite Ec. destruct cnt as [|cnt].
    + by apply push_entry_not_nil in Ec.
    + rewrite run_last. specialize (Hc ltac:(lia)). replace (1 * (lo + Z.of_nat cnt)) with h by lia.
      unfold upd. by rewrite Z.eqb_refl.
Qed.

Lemma reach_inv s f : reach s f -> inv s f.
Proof.
  induction 1 as [g|s f _ IH|s f id _ IH Hs|s f h _ IH Hh|s f s' id h _ IH Hh E].
  - split; cbn; try apply container_nil; [unfold MAX_HEIGHT; lia|done].
  - destruct IH. split; cbn; try apply container_nil; [unfold MAX_HEIGHT; lia|done].
  - destruct (small_empty s f IH Hs) as (E1 & E2 & E3 & E4). unfold set_genesis. rewrite E1, E2, E3, E4.
    split; cbn; try apply container_nil; [unfold MAX_HEIGHT; lia|done].
  - by apply detach_inv.
  - pose proof (push_spec s f id h IH Hh) as H. case_match.
    + destruct H as (s2 & E2 & H2 & _). congruence.
    + congruence.
Qed.

(** ** Lookups *)

Lemma starts_run d f lo cnt i : starts_at_or_below (run d f lo cnt) i = (match cnt with O => false | S _ => d * lo <=? i end).
Proof. by destruct cnt. Qed.

(** The entry of the container at the multiple of [d] at or below [i] is
    there. *)
Lemma container_find d cap n f m i : 0 < d -> container_ok d cap n f m -> i < n ->
  starts_at_or_below m i = true ->
  mfind (i - i mod d) m = Some (f (i - i mod d)) /\ 1 <= i - i mod d <= i.
Proof.
  intros Hd (lo & cnt & -> & _ & Hlo & H) Hi. rewrite starts_run.
  destruct cnt as [|cnt]; [done|]. intros E. zbool. specialize (H ltac:(lia)).
  pose proof (Z.div_mod i d ltac:(lia)) as Ei. pose proof (Z.mod_pos_bound i d Hd).
  assert (lo <= i / d) by (apply Z.div_le_lower_bound; lia).
  assert (i / d < lo + Z.of_nat (S cnt)) by (apply Z.div_lt_upper_bound; lia).
  replace (i - i mod d) with (d * (i / d)) by lia. split; [apply run_find; lia|nia].
Qed.

(** Looking around a height of the chain never trips the self check; what it
    returns is a block of the chain at or below the height. *)
Lemma lookup_spec s f i : inv s f -> 1 <= i < m_local_bc_size s ->
  exists r, lookup_item_around i s = Ret r /\
    (forall k h, r = Some (k, h) -> 1 <= k <= i /\ h = f k).
Proof.
  intros [] Hi. unfold lookup_item_around.
  repeat match goal with
  | H : container_ok ?d _ _ f ?m |- context [if starts_at_or_below ?m i then _ else _] =>
      let E := fresh "E" in destruct (starts_at_or_below m i) eqn:E;
      [destruct (container_find d _ _ f m i ltac:(done) H ltac:(lia) E) as [-> ?];
       eexists; split; [done|]; intros k h [= <- <-]; split; [lia|done]|]
  end.
  exists None. by split.
Qed.

(** The ids of strictly decreasing heights below [top]. *)
Inductive descending (f : Z -> hash) : Z -> list hash -> Prop :=
| desc_nil top : descending f top []
| desc_cons top k l : 1 <= k < top -> descending f k l -> descending f top (f k :: l).

Lemma descending_mono f top top' l : top <= top' -> descending f top l -> descending f top' l.
Proof. intros Ht H. destruct H; constructor; [lia|done]. Qed.

(** The loop adds ids of decreasing heights, and no more than one per doubling
    of the distance. *)
Lemma history_loop_spec s f j offset ids : inv s f ->
  (j <= 62)%nat -> 2 ^ Z.of_nat j <= offset <= m_local_bc_size s + 2 ^ Z.of_nat j ->
  exists l, history_loop (64 - j) s (m_local_bc_size s) offset (2 ^ Z.of_nat j) ids = Ret (ids ++ l) /\
    descending f (m_local_bc_size s - offset + 1) l /\
    (l = [] \/ 2 ^ (Z.of_nat j + Z.of_nat (List.length l) - 1) < m_local_bc_size s).
Proof.
  intros Hi. remember (62 - j)%nat as r eqn:Er. revert j Er offset ids.
  induction r as [|r IH]; intros j Er offset ids Hj Ho;
    pose proof (inv_size _ _ Hi) as Hsz; unfold MAX_HEIGHT in Hsz;
    (assert (H64 : (64 - j = S (63 - j))%nat) by lia); rewrite H64; cbn [history_loop];
    (destruct (offset <? m_local_bc_size s) eqn:E; zbool;
     [|exists []; rewrite app_nil_r; split; [done|split; [constructor|by left]]]).
  - assert (j = 62%nat) by lia. subst j. change (Z.of_nat 62) with 62 in *. lia.
  - assert (Hpow : 2 ^ Z.of_nat (S j) = 2 * 2 ^ Z.of_nat j) by (rewrite Nat2Z.inj_succ, Z.pow_succ_r by lia; done).
    assert (0 < 2 ^ Z.of_nat j) by (apply Z.pow_pos_nonneg; lia).
    rewrite (wrap_small 64 (_ - offset)) by (split; lia).
    destruct (lookup_spec s f (m_local_bc_size s - offset) Hi ltac:(lia)) as (q & -> & Hq). outcome_simp.
    destruct q as [[k h]|].
    2:{ exists []. rewrite app_nil_r. split; [done|]. split; [constructor|by left]. }
    destruct (Hq k h eq_refl) as [Hk ->].
    rewrite (wrap_small 64 (_ - k)), (wrap_small 64 (_ * 2)) by (split; lia).
    rewrite (Z.mul_comm _ 2), <- Hpow.
    rewrite wrap_small by (split; lia).
    destruct (IH (S j) ltac:(lia) (m_local_bc_size s - k + 2 ^ Z.of_nat (S j)) (ids ++ [f k])) as (l & El & Hd & Hl);
      [lia|lia|].
    replace (64 - S j)%nat with (63 - j)%nat in El by lia. rewrite El.
    exists (f k :: l). rewrite <- app_assoc. split; [done|]. split.
    + constructor; [lia|]. eapply descending_mono; [|exact Hd]. lia.
    + right. destruct Hl as [->|Hl]; cbn [List.length].
      * replace (_ + _ - 1) with (Z.of_nat j) by lia. lia.
      * replace (_ + _ - 1) with (Z.of_nat (S j) + Z.of_nat (List.length l) - 1) by lia. done.
Qed.

Lemma run_app d f lo a b : run d f lo (a + b) = run d f lo a ++ run d f (lo + Z.of_nat a) b.
Proof.
  revert lo. induction a as [|a IH]; intros lo; cbn [run Nat.add app]; [by rewrite Z.add_0_r|].
  rewrite IH. by replace (lo + 1 + Z.of_nat a) with (lo + Z.of_nat (S a)) by lia.
Qed.

Lemma take_rev_run d f lo cnt c : (c <= cnt)%nat ->
  take c (rev (run d f lo cnt)) = rev (run d f (lo + Z.of_nat (cnt - c)) c).
Proof.
  intros Hc. replace cnt with ((cnt - c) + c)%nat at 1 by lia.
  rewrite run_app, rev_app_distr. apply take_app_length'. by rewrite length_rev, run_length.
Qed.

Lemma last_rev_run d f lo c : last (rev (run d f lo (S c))) = Some (d * lo, f (d * lo)).
Proof. cbn [run rev]. apply last_snoc. Qed.

Lemma descending_run f lo c l : 1 <= lo -> descending f lo l ->
  descending f (lo + Z.of_nat c) (map snd (rev (run 1 f lo c)) ++ l).
Proof.
  intros Hlo Hl. induction c as [|c IH]; [by rewrite Z.add_0_r|].
  rewrite run_snoc, rev_app_distr. cbn [rev app map snd].
  rewrite Z.mul_1_l. constructor; [lia|done].
Qed.

Lemma history_spec s f : inv s f -> 1 <= m_local_bc_size s ->
  exists ids, get_short_chain_history s = Ret (ids ++ [m_genesis s]) /\
    descending f (m_local_bc_size s) ids /\
    (m_last_20_blocks s <> [] -> head ids = Some (f (m_local_bc_size s - 1))) /\
    Z.of_nat (List.length ids) <= 11 + Z.log2 (m_local_bc_size s).
Proof.
  intros Hi Hs. pose proof (inv_size _ _ Hi) as Hm. unfold MAX_HEIGHT in Hm.
  destruct (inv_20 _ _ Hi) as (lo & cnt & E20 & Hcap & Hlo & Hc).
  unfold get_short_chain_history, get_blockchain_current_size. rewrite (proj2 (Z.eqb_neq _ 0)) by lia.
  rewrite E20. cbv zeta.
  assert (Ec : exists c, (c <= 10)%nat /\ (c <= cnt)%nat /\ (cnt <> O -> (0 < c)%nat) /\
    take 10 (rev (run 1 f lo cnt)) = take c (rev (run 1 f lo cnt))).
  { destruct (decide (10 <= cnt)%nat); [exists 10%nat; repeat split; lia|].
    exists cnt. repeat split; try lia. rewrite !firstn_all2; [done|rewrite length_rev, run_length; lia..]. }
  destruct Ec as (c & Hc10 & Hcc & Hc0 & ->). rewrite take_rev_run by done.
  rewrite length_map, length_rev, run_length.
  assert (Hlen : Z.of_nat c + 1 <= m_local_bc_size s /\ (cnt <> O -> m_local_bc_size s = lo + Z.of_nat cnt)).
  { destruct cnt; [split; [lia|done]|]. specialize (Hc ltac:(lia)). lia. }
  destruct Hlen as [Hlen Hn]. clear Hc.
  assert (Hcheck : ((Z.of_nat c + 1 =? u64 (m_local_bc_size s -
     match last (rev (run 1 f (lo + Z.of_nat (cnt - c)) c)) with Some (k, _) => k | None => 0 end + 1)) ||
     (Z.of_nat c =? 0)) = true).
  { apply orb_true_iff. destruct c as [|c]; [by right|left]. rewrite last_rev_run.
    specialize (Hn ltac:(lia)). rewrite wrap_small by (split; lia). apply Z.eqb_eq. lia. }
  rewrite Hcheck. clear Hcheck.
  destruct (history_loop_spec s f 0 (Z.of_nat c + 1) (map snd (rev (run 1 f (lo + Z.of_nat (cnt - c)) c))) Hi)
    as (l & El & Hd & Hl); [lia|change (2 ^ Z.of_nat 0) with 1; lia|].
  change (64 - 0)%nat with 64%nat in El. change (2 ^ Z.of_nat 0) with 1 in El. rewrite El. outcome_simp.
  eexists. split; [done|].
  assert (Hdesc : descending f (m_local_bc_size s) (map snd (rev (run 1 f (lo + Z.of_nat (cnt - c)) c)) ++ l)).
  { replace (_ + 1) with (m_local_bc_size s - Z.of_nat c) in Hd by lia.
    destruct cnt as [|cnt].
    - assert (c = 0%nat) by lia. subst c. cbn. eapply descending_mono; [|exact Hd]. lia.
    - specialize (Hn ltac:(lia)). replace (m_local_bc_size s) with (lo + Z.of_nat (S cnt - c) + Z.of_nat c) by lia.
      apply descending_run; [lia|]. eapply descending_mono; [|exact Hd]. lia. }
  split; [done|]. split.
  - intros Hne. destruct cnt as [|cnt]; [done|]. specialize (Hc0 ltac:(lia)). specialize (Hn ltac:(lia)).
    destruct c as [|c]; [lia|]. rewrite run_snoc, rev_app_distr. cbn. do 2 f_equal. lia.
  - rewrite length_app, length_map, length_rev, run_length.
    destruct Hl as [->|Hl]; [cbn; pose proof (Z.log2_nonneg (m_local_bc_size s)); lia|].
    apply Z.lt_le_incl, Z.log2_le_mono in Hl. change (Z.of_nat 0) with 0 in Hl.
    destruct l as [|x l]; [cbn; pose proof (Z.log2_nonneg (m_local_bc_size s)); lia|].
    rewrite Z.log2_pow2 in Hl by (cbn [List.length]; lia). lia.
Qed.

(** on every reachable state pushing a block never trips the self checks of
    the containers: it succeeds exactly for a block that extends the chain,
    replaces a known height or comes first, the new size is its height plus
    one and it is the top block; otherwise the size check throws. *)
Theorem push_new_block_id_total s f id h : reach s f -> 0 <= h < MAX_HEIGHT ->
  if (h <=? get_blockchain_current_size s) || (get_blockchain_current_size s =? 1) then
    exists s', push_new_block_id id h s = Ret s' /\ reach s' (upd f h id) /\
      get_blockchain_current_size s' = h + 1 /\ (0 < h -> get_top_block_id s' = id)
  else push_new_block_id id h s = Throw.
Proof.
  intros Hr Hh. pose proof (push_spec s f id h (reach_inv _ _ Hr) Hh) as H.
  unfold get_blockchain_current_size in *. case_match; [|done].
  destruct H as (s' & E & Hi & H). exists s'. split; [done|]. split; [by eapply reach_push|done].
Qed.

(** the short chain history.  For every reachable state the self checks
    pass and the loop ends; the answer lists ids of the chain at strictly
    decreasing heights, from the top block when it is known, closed by the
    genesis, and its length is logarithmic in the size of the chain. *)
Theorem short_chain_history_sparse s f : reach s f -> 1 <= get_blockchain_current_size s ->
  exists ids, get_short_chain_history s = Ret (ids ++ [get_genesis s]) /\
    descending f (get_blockchain_current_size s) ids /\
    (m_last_20_blocks s <> [] -> head ids = Some (f (get_blockchain_current_size s - 1))) /\
    Z.of_nat (List.length ids) <= 11 + Z.log2 (get_blockchain_current_size s).
Proof. intros Hr Hs. apply history_spec; [by apply reach_inv|done]. Qed.

(** matching a block of the node against the wallet's history.  Below the
    chain size the check never throws; when it finds the height its verdict is
    the comparison with the chain's id, the genesis is always found, and a
    height that is not kept is reported as not found and not matched. *)
Theorem check_if_block_matched_sound s f i id reset : reach s f -> 0 <= i < get_blockchain_current_size s ->
  exists found matched reset', check_if_block_matched i id reset s = Ret (found, matched, reset') /\
    (found = true -> matched = bool_decide (id = f i)) /\ (found = false -> matched = false) /\
    (i = 0 -> found = true) /\ (starts_at_or_below (m_last_20_blocks s) i = true -> found = true).
Proof.
  intros Hr Hi0. pose proof (reach_inv _ _ Hr) as Hi. unfold get_blockchain_current_size in Hi0.
  unfold check_if_block_matched. destruct (i =? 0) eqn:E0; zbool.
  { subst i. rewrite (proj2 (Z.ltb_lt 0 _)) by lia. rewrite (inv_genesis _ _ Hi).
    eexists _, _, _. split; [done|]. done. }
  destruct (starts_at_or_below (m_last_20_blocks s) i) eqn:E.
  - pose proof (inv_20 _ _ Hi) as Hc.
    destruct (container_find 1 _ _ f _ i ltac:(done) Hc ltac:(lia) E) as [F _].
    rewrite Z.mod_1_r, Z.sub_0_r in F. rewrite F.
    destruct Hc as (lo & cnt & Em & _ & _ & Hn). rewrite Em in E |- *. rewrite starts_run in E.
    destruct cnt as [|cnt]; [done|]. specialize (Hn ltac:(lia)). unfold mlast. rewrite run_last.
    rewrite (proj2 (Z.leb_le i _)) by lia. eexists _, _, _. split; [done|]. done.
  - destruct (lookup_spec s f i Hi ltac:(lia)) as (r & -> & Hq). outcome_simp.
    destruct r as [[k h]|]; [|eexists _, _, _; split; [done|]; by repeat split].
    destruct (Hq k h eq_refl) as [_ ->]. destruct (k =? i) eqn:Ek; zbool.
    + subst k. eexists _, _, _. split; [done|]. split; [|by repeat split].
      intros _. apply bool_decide_ext. done.
    + eexists _, _, _. split; [done|]. by repeat split.
Qed.

(** ** A concrete chain of 31 blocks *)

Definition push_all (l : list (Z * hash)) (s : block_chain_shortener) : outcome block_chain_shortener :=
  fold_left (fun s p => s ← s; push_new_block_id (snd p) (fst p) s) l (Ret s).

Definition chain_of (l : list (Z * hash)) (f : Z -> hash) : Z -> hash :=
  fold_left (fun f p => upd f (fst p) (snd p)) l f.

Lemma push_all_reach l s f s' : reach s f -> Forall (fun p => 0 <= fst p < MAX_HEIGHT) l ->
  push_all l s = Ret s' -> reach s' (chain_of l f).
Proof.
  intros Hr Hl. revert s f Hr. induction Hl as [|[k v] l Hk Hl IH]; intros s f Hr E.
  - injection E as <-. done.
  - unfold push_all in *. cbn in *. destruct (push_new_block_id v k s) as [t|] eqn:Et.
    + eapply IH; [by eapply reach_push|done].
    + exfalso. revert E. clear. induction l as [|p l IH]; done.
Qed.

Definition demo_blocks : list (Z * hash) := map (fun k => (Z.of_nat k, [Z.of_nat k])) (seq 1 30).
Definition demo : block_chain_shortener :=
  Eval vm_compute in match push_all demo_blocks (shortener_new [0]) with Ret s => s | Throw => shortener_new [0] end.

Lemma demo_reach : reach demo (chain_of demo_blocks (fun _ => [0])).
Proof.
  apply (push_all_reach demo_blocks (shortener_new [0])); [constructor| |by vm_compute].
  unfold demo_blocks, MAX_HEIGHT. apply Forall_map, Forall_forall. intros k Hk%elem_of_seq. cbn. lia.
Qed.

(** Known answer: the last ten blocks, the next ones at distances 2, 4, and the
    genesis when the kept heights end. *)
Example demo_history : get_short_chain_history demo = Ret (map (fun k => [k]) [30; 29; 28; 27; 26; 25; 24; 23; 22; 21; 20; 18; 14; 0]).
Proof. vm_compute. reflexivity. Qed.

Example push_new_block_id_total_witness :
  reach demo (chain_of demo_blocks (fun _ => [0])) /\ 0 <= 25 < MAX_HEIGHT /\
  exists s', push_new_block_id [77] 25 demo = Ret s' /\ get_blockchain_current_size s' = 26 /\ get_top_block_id s' = [77].
Proof.
  split; [exact demo_reach|]. split; [unfold MAX_HEIGHT; lia|].
  destruct (push_new_block_id_total demo _ [77] 25 demo_reach ltac:(unfold MAX_HEIGHT; lia)) as (s' & E & _ & Hs & Ht).
  exists s'. split; [exact E|]. split; [exact Hs|]. apply Ht. lia.
Defined.

Example short_chain_history_sparse_witness :
  reach demo (chain_of demo_blocks (fun _ => [0])) /\ 1 <= get_blockchain_current_size demo /\
  exists ids, get_short_chain_history demo = Ret (ids ++ [[0]]) /\ head ids = Some [30].
Proof.
  split; [exact demo_reach|]. split; [vm_compute; discriminate|].
  destruct (short_chain_history_sparse demo _ demo_reach ltac:(vm_compute; discriminate)) as (ids & E & _ & H & _).
  exists ids. split; [exact E|]. etransitivity; [apply H; discriminate|]. vm_compute. reflexivity.
Defined.

Example check_if_block_matched_sound_witness :
  reach demo (chain_of demo_blocks (fun _ => [0])) /\ 0 <= 20 < get_blockchain_current_size demo /\
  exists f m r, check_if_block_matched 20 [20] false demo = Ret (f, m, r) /\ (f = false -> m = false).
Proof.
  split; [exact demo_reach|]. split; [vm_compute; split; [discriminate|reflexivity]|].
  destruct (check_if_block_matched_sound demo _ 20 [20] false demo_reach) as (f & m & r & E & _ & H & _).
  - vm_compute. split; [discriminate|reflexivity].
  - exists f, m, r. split; [exact E|exact H].
Defined.
