(* ===== verification/Gateway.v ===== *)
(** * Gateway addresses: [src/src/currency_core/blockchain_storage.cpp]

    A gateway address is registered, and its description updated by its owner,
    with an operation in the extra field of a transaction; it keeps an open
    balance per asset, from which gateway inputs take and to which gateway
    outputs add.  The operations on points and the verification of signatures are
    the interface [GatewayCrypto]. *)

From S2P Require Import Prelude Config Keccak Pod CryptoTypes Basic Transactions HfTerms TxSemantic StateM.

Class GatewayCrypto := {
  point_is_in_main_subgroup : public_key -> bool;
  pub_key_mul8 : public_key -> option public_key;
  verify_schnorr_sig : hash -> public_key -> generic_schnorr_sig_s -> bool;
  verify_eth_signature : hash -> eth_public_key -> eth_signature -> bool;
  verify_eddsa_signature : hash -> eddsa_public_key -> eddsa_signature -> bool
}.

(** ** Data *)

Record gateway_address_balance : Type := { gab_version : Z; gab_amount : Z }.

Record gateway_address_data : Type := {
  gad_version : Z;
  gad_info_history : list gateway_address_descriptor_base;
  gad_balances : gmap public_key gateway_address_balance
}.

(** [m_db_gateway_addresses]. *)
Abbreviation gateway_addresses := (gmap gateway_address_id_type gateway_address_data).

Definition CURRENCY_GATEWAY_ADDRESS_REGISTRATION_FEE : Z := 100000000000000.
Definition UINT64_MAX : Z := 2 ^ 64 - 1.

(** ["ZANO_HDS_GW_CHANGE_OWNER_SIG___"] and its terminating zero. *)
Definition CRYPTO_HDS_GW_CHANGE_OWNER_SIGNATURE : list Z :=
  map (fun c => Z.of_nat (Ascii.nat_of_ascii c)) (list_ascii_of_string "ZANO_HDS_GW_CHANGE_OWNER_SIG___"%string) ++ [0].

(** The one-argument [get_tx_fee]. *)
Definition tx_fee (tx : transaction) : Z := default 0 (get_tx_fee tx).

Section gateway.
Context `{GatewayCrypto}.

(** ** Registration and update *)

Definition put_gw_address_operation_register (tx : transaction) (gao : gateway_address_descriptor_operation_register)
    : st gateway_addresses unit :=
  _ ← check (point_is_in_main_subgroup (gar_view_pub_key gao));
  add_entry_ptr ← read (fun s : gateway_addresses => s !! gar_view_pub_key gao);
  _ ← check (match add_entry_ptr with None => true | Some _ => false end);
  _ ← check (CURRENCY_GATEWAY_ADDRESS_REGISTRATION_FEE <=? tx_fee tx);
  update (<[gar_view_pub_key gao :=
             {| gad_version := 0; gad_info_history := [gar_descriptor gao]; gad_balances := ∅ |}]>).

Definition ownership_proof (tx : transaction) : option gateway_address_ownership_proof :=
  head (omap (fun p => match p with proof_gateway_address_ownership x => Some x | _ => None end) (tx_proofs tx)).

Definition validate_gw_address_ownership (tx : transaction) (tx_id : hash) (gad : gateway_address_data) : bool :=
  match ownership_proof tx, last (gad_info_history gad) with
  | Some gaoop, Some address_desciptor =>
      let hash_to_verify_ownership := cn_fast_hash (CRYPTO_HDS_GW_CHANGE_OWNER_SIGNATURE ++ tx_id) in
      match gadb_owner_key address_desciptor, gaop_sign gaoop with
      | gok_public_key o, gos_generic_schnorr_sig_s sign => verify_schnorr_sig hash_to_verify_ownership o sign
      | gok_eth_public_key u, gos_eth_signature sign => verify_eth_signature hash_to_verify_ownership u sign
      | gok_eddsa_public_key u, gos_eddsa_signature sign => verify_eddsa_signature hash_to_verify_ownership u sign
      | _, _ => false
      end
  | _, _ => false
  end.

Definition set_info_history (h : list gateway_address_descriptor_base) (gad : gateway_address_data) : gateway_address_data :=
  {| gad_version := gad_version gad; gad_info_history := h; gad_balances := gad_balances gad |}.

Definition put_gw_address_operation_update (tx : transaction) (tx_id : hash)
    (gao : gateway_address_descriptor_operation_update) : st gateway_addresses unit :=
  upd_entry_ptr ← read (fun s : gateway_addresses => s !! gau_address_id gao);
  gad ← some upd_entry_ptr;
  _ ← check (validate_gw_address_ownership tx tx_id gad);
  update (<[gau_address_id gao := set_info_history (gad_info_history gad ++ [gau_descriptor gao]) gad]>).

Definition put_gw_address_operation (tx : transaction) (tx_id : hash) (gao : gateway_address_descriptor_operation)
    : st gateway_addresses unit :=
  match gado_operation gao with
  | ga_register o => put_gw_address_operation_register tx o
  | ga_update u => put_gw_address_operation_update tx tx_id u
  end.

Definition operation_address (gao : gateway_address_descriptor_operation) : gateway_address_id_type :=
  match gado_operation gao with ga_register o => gar_view_pub_key o | ga_update u => gau_address_id u end.

Definition pop_gw_address_operation (gao : gateway_address_descriptor_operation) : st gateway_addresses unit :=
  upd_entry_ptr ← read (fun s : gateway_addresses => s !! operation_address gao);
  local_gad ← some upd_entry_ptr;
  _ ← check (negb (bool_decide (gad_info_history local_gad = [])));
  let history := removelast (gad_info_history local_gad) in
  if negb (bool_decide (history = [])) then update (<[operation_address gao := set_info_history history local_gad]>)
  else update (delete (operation_address gao)).

(** ** Balances *)

Definition amount_of (balances : gmap public_key gateway_address_balance) (asset_id : public_key) : Z :=
  match balances !! asset_id with Some b => gab_amount b | None => 0 end.

(** [balances[asset_id]] creates an entry in the local copy, which is written
    back only when the amount changes. *)
Definition set_amount (asset_id : public_key) (amount : Z) (gad : gateway_address_data) : gateway_address_data :=
  let version := match gad_balances gad !! asset_id with Some b => gab_version b | None => 0 end in
  {| gad_version := gad_version gad; gad_info_history := gad_info_history gad;
     gad_balances := <[asset_id := {| gab_version := version; gab_amount := amount |}]> (gad_balances gad) |}.

Definition change_gateway_balance (gw_addr : gateway_address_id_type) (asset_id : public_key) (amount : Z) (increase : bool)
    : st gateway_addresses unit :=
  gw_addr_entry_ptr ← read (fun s : gateway_addresses => s !! gw_addr);
  gw_addr_entry ← some gw_addr_entry_ptr;
  let balance_before := amount_of (gad_balances gw_addr_entry) asset_id in
  balance_after ←
    (if increase then
       _ ← check (balance_before <=? u64 (UINT64_MAX - amount));
       mret (u64 (balance_before + amount))
     else
       _ ← check (amount <=? balance_before);
       mret (u64 (balance_before - amount)));
  if balance_before =? balance_after then mret tt
  else update (<[gw_addr := set_amount asset_id balance_after gw_addr_entry]>).

Definition process_gateway_input (in_gw : txin_gateway) : st gateway_addresses unit :=
  asset_id ← some (pub_key_mul8 (tgw_asset_id in_gw));
  change_gateway_balance (tgw_gateway_addr in_gw) asset_id (tgw_amount in_gw) false.
Definition unprocess_gateway_input (in_gw : txin_gateway) : st gateway_addresses unit :=
  asset_id ← some (pub_key_mul8 (tgw_asset_id in_gw));
  change_gateway_balance (tgw_gateway_addr in_gw) asset_id (tgw_amount in_gw) true.
Definition process_gateway_output (out_gw : tx_out_gateway) : st gateway_addresses unit :=
  asset_id ← some (pub_key_mul8 (ogw_asset_id out_gw));
  change_gateway_balance (ogw_gateway_addr out_gw) asset_id (ogw_amount out_gw) true.
Definition unprocess_gateway_output (out_gw : tx_out_gateway) : st gateway_addresses unit :=
  asset_id ← some (pub_key_mul8 (ogw_asset_id out_gw));
  change_gateway_balance (ogw_gateway_addr out_gw) asset_id (ogw_amount out_gw) false.

(** ** Well-formed databases *)

(** A registered address has a description, and its balances are 64-bit. *)
Record gad_wf (gad : gateway_address_data) : Prop := {
  history_not_empty : gad_info_history gad <> [];
  balances_in_range a : is_u64 (amount_of (gad_balances gad) a)
}.
Definition gw_wf (s : gateway_addresses) : Prop := map_Forall (fun _ => gad_wf) s.

(** ** Movements of balances *)

(** A gateway input or output, processed or taken back. *)
Inductive gw_op : Type :=
| GwInput (in_gw : txin_gateway)
| GwOutput (out_gw : tx_out_gateway)
| GwUndoInput (in_gw : txin_gateway)
| GwUndoOutput (out_gw : tx_out_gateway).

Definition gw_step (op : gw_op) : st gateway_addresses unit :=
  match op with
  | GwInput in_gw => process_gateway_input in_gw
  | GwOutput out_gw => process_gateway_output out_gw
  | GwUndoInput in_gw => unprocess_gateway_input in_gw
  | GwUndoOutput out_gw => unprocess_gateway_output out_gw
  end.

Record movement : Type := { mv_addr : gateway_address_id_type; mv_asset : public_key; mv_change : Z }.

Definition gw_movement (op : gw_op) : option movement :=
  match op with
  | GwInput i => (fun a => {| mv_addr := tgw_gateway_addr i; mv_asset := a; mv_change := - tgw_amount i |}) <$> pub_key_mul8 (tgw_asset_id i)
  | GwUndoInput i => (fun a => {| mv_addr := tgw_gateway_addr i; mv_asset := a; mv_change := tgw_amount i |}) <$> pub_key_mul8 (tgw_asset_id i)
  | GwOutput o => (fun a => {| mv_addr := ogw_gateway_addr o; mv_asset := a; mv_change := ogw_amount o |}) <$> pub_key_mul8 (ogw_asset_id o)
  | GwUndoOutput o => (fun a => {| mv_addr := ogw_gateway_addr o; mv_asset := a; mv_change := - ogw_amount o |}) <$> pub_key_mul8 (ogw_asset_id o)
  end.

Definition gw_amount (op : gw_op) : Z :=
  match op with GwInput i | GwUndoInput i => tgw_amount i | GwOutput o | GwUndoOutput o => ogw_amount o end.

(** The specification: integers, per address and asset, [None] for an address
    that is not registered. *)
Definition ledger : Type := gateway_address_id_type -> public_key -> option Z.

Definition ledger_of (s : gateway_addresses) : ledger := fun gw a =>
  (fun gad => amount_of (gad_balances gad) a) <$> s !! gw.

Definition ledger_move (m : movement) (L : ledger) : option ledger :=
  match L (mv_addr m) (mv_asset m) with
  | None => None
  | Some b =>
      if (0 <=? b + mv_change m) && (b + mv_change m <=? UINT64_MAX) then
        Some (fun gw a => if decide (gw = mv_addr m /\ a = mv_asset m) then Some (b + mv_change m) else L gw a)
      else None
  end.

Definition ledger_step (op : gw_op) (L : ledger) : option ledger :=
  match gw_movement op with Some m => ledger_move m L | None => None end.

Fixpoint ledger_run (ops : list gw_op) (L : ledger) : option ledger :=
  match ops with
  | [] => Some L
  | op :: ops => match ledger_step op L with Some L => ledger_run ops L | None => None end
  end.

(** What the operations move at an address and asset, in all. *)
Definition net1 (op : gw_op) (gw : gateway_address_id_type) (a : public_key) : Z :=
  match gw_movement op with
  | Some m => if decide (gw = mv_addr m /\ a = mv_asset m) then mv_change m else 0
  | None => 0
  end.
Definition net (ops : list gw_op) (gw : gateway_address_id_type) (a : public_key) : Z :=
  fold_right (fun op n => net1 op gw a + n) 0 ops.

(** The same addresses with the same descriptions. *)
Definition same_info (s s' : gateway_addresses) : Prop :=
  forall gw, gad_info_history <$> s !! gw = gad_info_history <$> s' !! gw.

(** Equal up to entries of balance zero. *)
Definition gw_equiv (s s' : gateway_addresses) : Prop :=
  same_info s s' /\ forall gw a, ledger_of s gw a = ledger_of s' gw a.

#[export] Instance gw_equiv_equivalence : Equivalence gw_equiv.
Proof.
  split.
  - by intros s.
  - intros s s' [Hi Hl]. split; [intros gw; symmetry; apply Hi|intros gw a; symmetry; apply Hl].
  - intros s1 s2 s3 [Hi Hl] [Hi' Hl']. split; [intros gw; by rewrite Hi|intros gw a; by rewrite Hl].
Qed.

(** *** One change of a balance *)

Definition moved (a : public_key) (b : Z) (gad : gateway_address_data) : gateway_address_data :=
  if amount_of (gad_balances gad) a =? b then gad else set_amount a b gad.

Lemma amount_of_moved a b gad a' :
  amount_of (gad_balances (moved a b gad)) a' = if decide (a' = a) then b else amount_of (gad_balances gad) a'.
Proof.
  unfold moved. destruct (_ =? b) eqn:E; zbool.
  - case_decide; by subst.
  - unfold set_amount, amount_of. cbn. case_decide; subst; [by rewrite lookup_insert_eq|by rewrite lookup_insert_ne].
Qed.

Lemma moved_history a b gad : gad_info_history (moved a b gad) = gad_info_history gad.
Proof. unfold moved. by destruct (_ =? b). Qed.

Lemma moved_wf a b gad : is_u64 b -> gad_wf gad -> gad_wf (moved a b gad).
Proof.
  intros Hb [Hh Hr]. split; [by rewrite moved_history|]. intros a'. rewrite amount_of_moved. by case_decide.
Qed.

Lemma change_spec gw a amount (increase : bool) s : gw_wf s -> is_u64 amount ->
  change_gateway_balance gw a amount increase s =
    match s !! gw with
    | None => (Fail, s)
    | Some gad =>
        let b := amount_of (gad_balances gad) a + (if increase then amount else - amount) in
        if (0 <=? b) && (b <=? UINT64_MAX) then (Ok tt, <[gw := moved a b gad]> s) else (Fail, s)
    end.
Proof.
  intros Hs Ha. unfold change_gateway_balance. unfold mbind, st_bind, read, some, check, mret, st_ret.
  destruct (s !! gw) as [gad|] eqn:E; [|done]. pose proof (balances_in_range _ (Hs _ _ E) a) as Hr.
  unfold moved. set (b := amount_of (gad_balances gad) a) in *. unfold in_u, UINT64_MAX in *.
  assert (Hup : forall b', (if b =? b' then (Ok tt, s) else update (<[gw := set_amount a b' gad]>) s) =
    (Ok tt, <[gw := if b =? b' then gad else set_amount a b' gad]> s)).
  { intros b'. destruct (b =? b'); [by rewrite insert_id|done]. }
  destruct increase.
  - rewrite (wrap_small 64 (2 ^ 64 - 1 - amount)) by (unfold in_u; lia).
    destruct (b <=? 2 ^ 64 - 1 - amount) eqn:E1; zbool.
    + rewrite (wrap_small 64) by (unfold in_u; lia).
      rewrite (proj2 (Z.leb_le 0 _)), (proj2 (Z.leb_le _ (2 ^ 64 - 1))) by lia. cbn [andb]. rewrite <- Hup. by destruct (b =? _).
    + rewrite (proj2 (Z.leb_gt _ (2 ^ 64 - 1))) by lia. by rewrite andb_false_r.
  - destruct (amount <=? b) eqn:E1; zbool.
    + rewrite (wrap_small 64) by (unfold in_u; lia).
      rewrite (proj2 (Z.leb_le 0 _)), (proj2 (Z.leb_le _ (2 ^ 64 - 1))) by lia. cbn [andb].
      replace (b + - amount) with (b - amount) by lia. rewrite <- Hup. by destruct (b =? _).
    + rewrite (proj2 (Z.leb_gt 0 _)) by lia. done.
Qed.

Lemma gw_step_change op : exists (increase : bool) amount gw asset,
  gw_amount op = amount /\
  gw_movement op = (fun a => {| mv_addr := gw; mv_asset := a; mv_change := if increase then amount else - amount |}) <$> pub_key_mul8 asset /\
  forall s, gw_step op s = match pub_key_mul8 asset with Some a => change_gateway_balance gw a amount increase s | None => (Fail, s) end.
Proof.
  destruct op as [x|x|x|x]; [exists false, (tgw_amount x), (tgw_gateway_addr x), (tgw_asset_id x)
    |exists true, (ogw_amount x), (ogw_gateway_addr x), (ogw_asset_id x)|exists true, (tgw_amount x), (tgw_gateway_addr x), (tgw_asset_id x)
    |exists false, (ogw_amount x), (ogw_gateway_addr x), (ogw_asset_id x)];
  (split; [done|]; split; [done|]); intros s; cbn [gw_step];
  unfold process_gateway_input, process_gateway_output, unprocess_gateway_input, unprocess_gateway_output, mbind, st_bind, some;
  by destruct (pub_key_mul8 _).
Qed.

Lemma insert_moved_spec gw a b gad s : s !! gw = Some gad -> is_u64 b -> gw_wf s ->
  let s' := <[gw := moved a b gad]> s in
  gw_wf s' /\ same_info s s' /\
  forall gw' a', ledger_of s' gw' a' = if decide (gw' = gw /\ a' = a) then Some b else ledger_of s gw' a'.
Proof.
  intros E Hb Hs. split; [|split].
  - apply map_Forall_insert_2; [|done]. apply moved_wf; [done|]. by apply (Hs gw).
  - intros gw'. destruct (decide (gw' = gw)) as [->|Hne].
    + rewrite lookup_insert_eq, E. cbn. by rewrite moved_history.
    + by rewrite lookup_insert_ne.
  - intros gw' a'. unfold ledger_of. destruct (decide (gw' = gw)) as [->|Hne].
    + rewrite lookup_insert_eq, E. cbn. rewrite amount_of_moved. repeat case_decide; naive_solver.
    + rewrite lookup_insert_ne by done. case_decide; naive_solver.
Qed.

Lemma gw_step_spec op s : gw_wf s -> is_u64 (gw_amount op) ->
  exists r s', gw_step op s = (r, s') /\ gw_wf s' /\ same_info s s' /\
    match ledger_step op (ledger_of s) with
    | Some L => r = Ok tt /\ forall gw a, ledger_of s' gw a = L gw a
    | None => r = Fail /\ s' = s
    end.
Proof.
  intros Hs Ha. destruct (gw_step_change op) as (inc & amount & gw & asset & Eam & Em & Est).
  rewrite Est. unfold ledger_step. rewrite Em. rewrite Eam in Ha. destruct (pub_key_mul8 asset) as [a|]; cbn.
  2: { by exists Fail, s. }
  rewrite change_spec by done. unfold ledger_move, ledger_of at 1. cbn. destruct (s !! gw) as [gad|] eqn:E; cbn.
  2: { by exists Fail, s. }
  destruct (_ && _) eqn:Hr; [|by exists Fail, s]. zbool.
  assert (Hb : is_u64 (amount_of (gad_balances gad) a + (if inc then amount else - amount))) by (unfold in_u, UINT64_MAX in *; lia).
  destruct (insert_moved_spec gw a _ gad s E Hb Hs) as (Hwf & Hi & Hl).
  eexists _, _. split; [done|]. split; [done|]. split; [done|]. split; [done|]. exact Hl.
Qed.

(** *** Runs *)

Definition ledger_eq (L L' : ledger) : Prop := forall gw a, L gw a = L' gw a.
Definition ledger_in_range (L : ledger) : Prop := forall gw a b, L gw a = Some b -> is_u64 b.

Lemma ledger_of_in_range s : gw_wf s -> ledger_in_range (ledger_of s).
Proof.
  intros Hs gw a b E. unfold ledger_of in E. apply fmap_Some in E as (gad & Eg & ->). apply (Hs _ _ Eg).
Qed.

Lemma ledger_step_some op L L' : ledger_step op L = Some L' <-> exists m b, gw_movement op = Some m /\
  L (mv_addr m) (mv_asset m) = Some b /\ is_u64 (b + mv_change m) /\
  L' = fun gw a => if decide (gw = mv_addr m /\ a = mv_asset m) then Some (b + mv_change m) else L gw a.
Proof.
  unfold ledger_step, ledger_move, in_u, UINT64_MAX. split.
  - intros E. destruct (gw_movement op) as [m|]; [|done]. exists m.
    destruct (L (mv_addr m) (mv_asset m)) as [b|]; [|done]. exists b. destruct (_ && _) eqn:Er; [|done]. zbool.
    injection E as <-. split; [done|]. split; [done|]. split; [lia|done].
  - intros (m & b & -> & -> & Hr & ->). rewrite (proj2 (Z.leb_le 0 _)), (proj2 (Z.leb_le _ (2 ^ 64 - 1))) by lia. done.
Qed.

Lemma ledger_step_range op L L' : ledger_in_range L -> ledger_step op L = Some L' -> ledger_in_range L'.
Proof.
  intros HL (m & b & _ & _ & Hb & ->)%ledger_step_some gw a b' E. cbn in E. case_decide; [by injection E as <-|by eapply HL].
Qed.

Lemma ledger_step_net op L L' gw a : ledger_step op L = Some L' -> L' gw a = (fun b => b + net1 op gw a) <$> L gw a.
Proof.
  intros (m & b & Em & Eb & _ & ->)%ledger_step_some. unfold net1. rewrite Em. case_decide as Hd.
  - destruct Hd as [-> ->]. by rewrite Eb.
  - destruct (L gw a); cbn; f_equal; lia.
Qed.

Lemma ledger_step_ext op L1 L2 L1' : ledger_eq L1 L2 -> ledger_step op L1 = Some L1' ->
  exists L2', ledger_step op L2 = Some L2' /\ ledger_eq L1' L2'.
Proof.
  intros Heq (m & b & Em & Eb & Hb & ->)%ledger_step_some. eexists. split.
  - apply ledger_step_some. exists m, b. by rewrite <- Heq.
  - intros gw a. cbn. by rewrite Heq.
Qed.

Lemma ledger_run_ext ops L1 L2 L1' : ledger_eq L1 L2 -> ledger_run ops L1 = Some L1' ->
  exists L2', ledger_run ops L2 = Some L2' /\ ledger_eq L1' L2'.
Proof.
  revert L1 L2. induction ops as [|op ops IH]; intros L1 L2 Heq E; cbn in *.
  { injection E as <-. by exists L2. }
  destruct (ledger_step op L1) as [L|] eqn:Es; [|done]. destruct (ledger_step_ext op L1 L2 L Heq Es) as (L' & -> & Heq'). by eapply IH.
Qed.

Lemma ledger_run_net ops L L' gw a : ledger_run ops L = Some L' -> L' gw a = (fun b => b + net ops gw a) <$> L gw a.
Proof.
  revert L. induction ops as [|op ops IH]; intros L E; cbn [ledger_run] in E.
  - injection E as <-. change (net [] gw a) with 0. destruct (L gw a); cbn; f_equal; lia.
  - destruct (ledger_step op L) as [L1|] eqn:Es; [|done]. rewrite (IH _ E), (ledger_step_net _ _ _ _ _ Es).
    change (net (op :: ops) gw a) with (net1 op gw a + net ops gw a). destruct (L gw a); cbn; f_equal; lia.
Qed.

Lemma ledger_run_app ops1 ops2 L : ledger_run (ops1 ++ ops2) L = match ledger_run ops1 L with Some L => ledger_run ops2 L | None => None end.
Proof. revert L. induction ops1 as [|op ops IH]; intros L; [done|]. cbn. by destruct (ledger_step op L). Qed.

(** The run of the code against the run of the specification. *)
Lemma gw_run_spec ops s : gw_wf s -> Forall (fun op => is_u64 (gw_amount op)) ops ->
  exists r s', for_each gw_step ops s = (r, s') /\ gw_wf s' /\ same_info s s' /\
    match ledger_run ops (ledger_of s) with
    | Some L => r = Ok tt /\ ledger_eq (ledger_of s') L
    | None => r = Fail
    end.
Proof.
  revert s. induction ops as [|op ops IH]; intros s Hs Ha.
  { exists (Ok tt), s. done. }
  apply Forall_cons in Ha as [Ha1 Ha]. destruct (gw_step_spec op s Hs Ha1) as (r & s1 & E & Hs1 & Hi & Hr).
  cbn [for_each ledger_run]. unfold mbind, st_bind. rewrite E. destruct (ledger_step op (ledger_of s)) as [L|] eqn:El.
  - destruct Hr as [-> HL]. destruct (IH s1 Hs1 Ha) as (r2 & s2 & -> & Hs2 & Hi2 & Hr2). exists r2, s2.
    split; [done|]. split; [done|]. split; [intros gw; by rewrite Hi|].
    destruct (ledger_run ops L) as [L2|] eqn:E2.
    + destruct (ledger_run_ext _ _ (ledger_of s1) _ (fun gw a => eq_sym (HL gw a)) E2) as (L3 & E3 & Heq). rewrite E3 in Hr2.
      destruct Hr2 as [-> Hr2]. split; [done|]. intros gw a. by rewrite Hr2, Heq.
    + destruct (ledger_run ops (ledger_of s1)) as [L3|] eqn:E3; [|done].
      destruct (ledger_run_ext _ _ L _ HL E3) as (L4 & E4 & _). congruence.
  - destruct Hr as [-> ->]. by exists Fail, s.
Qed.

(** *** Taking movements back *)

Definition gw_undo (op : gw_op) : gw_op :=
  match op with GwInput i => GwUndoInput i | GwOutput o => GwUndoOutput o | GwUndoInput i => GwInput i | GwUndoOutput o => GwOutput o end.

Lemma gw_undo_movement op :
  gw_movement (gw_undo op) = (fun m => {| mv_addr := mv_addr m; mv_asset := mv_asset m; mv_change := - mv_change m |}) <$> gw_movement op.
Proof.
  destruct op as [x|x|x|x]; cbn;
    (match goal with |- context [pub_key_mul8 ?a] => destruct (pub_key_mul8 a) end); cbn; by rewrite ?Z.opp_involutive.
Qed.

Lemma net1_undo op gw a : net1 (gw_undo op) gw a = - net1 op gw a.
Proof. unfold net1. rewrite gw_undo_movement. destruct (gw_movement op) as [m|]; cbn; [|done]. by case_decide. Qed.

Lemma net_undo ops gw a : net (gw_undo <$> ops) gw a = - net ops gw a.
Proof. unfold net. induction ops as [|op ops IH]; cbn in *; [done|]. rewrite IH, net1_undo. lia. Qed.

Lemma net_perm ops ops' gw a : ops ≡ₚ ops' -> net ops gw a = net ops' gw a.
Proof. unfold net. induction 1; cbn in *; lia. Qed.

Lemma ledger_step_undo op L L' : ledger_in_range L -> ledger_step op L = Some L' ->
  exists L2, ledger_step (gw_undo op) L' = Some L2 /\ ledger_eq L2 L.
Proof.
  intros HL (m & b & Em & Eb & Hb & ->)%ledger_step_some. eexists. split.
  - apply ledger_step_some. exists {| mv_addr := mv_addr m; mv_asset := mv_asset m; mv_change := - mv_change m |}, (b + mv_change m).
    rewrite gw_undo_movement, Em. cbn. rewrite decide_True by done. split; [done|]. split; [done|]. split; [|done].
    replace (b + mv_change m + - mv_change m) with b by lia. by apply (HL _ _ _ Eb).
  - intros gw a. cbn. case_decide as Hd; [|done]. destruct Hd as [-> ->]. rewrite Eb. f_equal. lia.
Qed.

Lemma ledger_run_undo ops L L' : ledger_in_range L -> ledger_run ops L = Some L' ->
  exists L2, ledger_run (reverse (gw_undo <$> ops)) L' = Some L2 /\ ledger_eq L2 L.
Proof.
  revert L. induction ops as [|op ops IH]; intros L HL E; cbn [ledger_run fmap list_fmap] in *.
  { injection E as <-. by exists L. }
  destruct (ledger_step op L) as [L1|] eqn:Es; [|done].
  destruct (IH L1 (ledger_step_range _ _ _ HL Es) E) as (L2 & E2 & Heq2). rewrite reverse_cons, ledger_run_app, E2.
  destruct (ledger_step_undo _ _ _ HL Es) as (L3 & E3 & Heq3).
  destruct (ledger_step_ext _ _ L2 _ (fun gw a => eq_sym (Heq2 gw a)) E3) as (L4 & E4 & Heq4).
  exists L4. cbn. rewrite E4. split; [done|]. intros gw a. by rewrite <- Heq4, Heq3.
Qed.

(** *** Registration and update *)

(** The transaction carries a signature of its identifier by the owner [d]
    names. *)
Definition signed_by_owner (d : gateway_address_descriptor_base) (tx : transaction) (tx_id : hash) : Prop :=
  let h := cn_fast_hash (CRYPTO_HDS_GW_CHANGE_OWNER_SIGNATURE ++ tx_id) in
  exists proof, ownership_proof tx = Some proof /\
    ((exists o sign, gadb_owner_key d = gok_public_key o /\ gaop_sign proof = gos_generic_schnorr_sig_s sign /\ verify_schnorr_sig h o sign = true) \/
     (exists u sign, gadb_owner_key d = gok_eth_public_key u /\ gaop_sign proof = gos_eth_signature sign /\ verify_eth_signature h u sign = true) \/
     (exists u sign, gadb_owner_key d = gok_eddsa_public_key u /\ gaop_sign proof = gos_eddsa_signature sign /\ verify_eddsa_signature h u sign = true)).

Lemma validate_gw_address_ownership_spec tx tx_id gad :
  validate_gw_address_ownership tx tx_id gad = true <-> exists d, last (gad_info_history gad) = Some d /\ signed_by_owner d tx tx_id.
Proof.
  unfold validate_gw_address_ownership, signed_by_owner. split.
  - intros E. destruct (ownership_proof tx) as [proof|]; [|done]. destruct (last (gad_info_history gad)) as [d|]; [|done].
    exists d. split; [done|]. exists proof. split; [done|]. destruct (gadb_owner_key d), (gaop_sign proof); naive_solver.
  - intros (d & -> & proof & -> & [(o & sg & -> & -> & E)|[(o & sg & -> & -> & E)|(o & sg & -> & -> & E)]]); exact E.
Qed.

(** What an operation needs to be accepted, and the record it writes. *)
Definition gw_operation_allowed (tx : transaction) (tx_id : hash) (gao : gateway_address_descriptor_operation)
    (s : gateway_addresses) (gad' : gateway_address_data) : Prop :=
  match gado_operation gao with
  | ga_register o =>
      point_is_in_main_subgroup (gar_view_pub_key o) = true /\ s !! gar_view_pub_key o = None /\
      CURRENCY_GATEWAY_ADDRESS_REGISTRATION_FEE <= tx_fee tx /\
      gad' = {| gad_version := 0; gad_info_history := [gar_descriptor o]; gad_balances := ∅ |}
  | ga_update u => exists gad d, s !! gau_address_id u = Some gad /\ last (gad_info_history gad) = Some d /\
      signed_by_owner d tx tx_id /\ gad' = set_info_history (gad_info_history gad ++ [gau_descriptor u]) gad
  end.

Lemma put_operation_spec tx tx_id gao s :
  match put_gw_address_operation tx tx_id gao s with
  | (Ok _, s') => exists gad', gw_operation_allowed tx tx_id gao s gad' /\ s' = <[operation_address gao := gad']> s
  | (Fail, s') => s' = s /\ forall gad', ~ gw_operation_allowed tx tx_id gao s gad'
  | (Exn, _) => False
  end.
Proof.
  unfold put_gw_address_operation, gw_operation_allowed, operation_address. destruct (gado_operation gao) as [o|u].
  - unfold put_gw_address_operation_register, mbind, st_bind, check, read, update.
    destruct (point_is_in_main_subgroup _); [|naive_solver]. destruct (s !! gar_view_pub_key o) as [|]; [naive_solver|].
    destruct (_ <=? tx_fee tx) eqn:Ef; zbool; [naive_solver|]. split; [done|]. intros gad' (_ & _ & Hf & _). lia.
  - unfold put_gw_address_operation_update, mbind, st_bind, check, read, update, some.
    destruct (s !! gau_address_id u) as [gad|] eqn:E; [|naive_solver].
    pose proof (validate_gw_address_ownership_spec tx tx_id gad) as Hv. destruct (validate_gw_address_ownership tx tx_id gad).
    + destruct Hv as [(d & Hd & Hsg) _]; [done|]. eexists. split; [|done]. exists gad, d. done.
    + split; [done|]. intros gad' (gad2 & d & [= <-] & Hd & Hsg & _). destruct Hv as [_ Hv]. by discriminate Hv; eauto.
Qed.

Lemma allowed_wf tx tx_id gao s gad' : gw_wf s -> gw_operation_allowed tx tx_id gao s gad' -> gad_wf gad'.
Proof.
  unfold gw_operation_allowed. intros Hs. destruct (gado_operation gao) as [o|u].
  - intros (_ & _ & _ & ->). split; [done|]. intros a. unfold amount_of, in_u. cbn. rewrite lookup_empty. lia.
  - intros (gad & d & E & Hd & _ & ->). split; cbn; [by destruct (gad_info_history gad)|]. apply (Hs _ _ E).
Qed.

Lemma removelast_snoc {A} (l : list A) x : removelast (l ++ [x]) = l.
Proof. apply removelast_last. Qed.

Lemma pop_operation_spec tx tx_id gao s gad' : gw_operation_allowed tx tx_id gao s gad' ->
  pop_gw_address_operation gao (<[operation_address gao := gad']> s) = (Ok tt, s).
Proof.
  intros Ha. unfold pop_gw_address_operation, mbind, st_bind, check, read, update, some. rewrite lookup_insert_eq.
  unfold gw_operation_allowed, operation_address in *. destruct (gado_operation gao) as [o|u].
  - destruct Ha as (_ & En & _ & ->). cbn. f_equal. by apply delete_insert_id.
  - destruct Ha as (gad & d & E & Hd & _ & ->). cbn [set_info_history gad_info_history].
    rewrite removelast_snoc, bool_decide_false by (by destruct (gad_info_history gad)). cbn.
    rewrite bool_decide_false by (intros E0; by rewrite E0 in Hd). cbn. f_equal. rewrite insert_insert_eq. apply insert_id. rewrite E.
    by destruct gad.
Qed.

End gateway.

(** C23: A gateway address operation is accepted exactly when it registers a
    point of the main subgroup that is not registered yet, for a fee of at least
    the registration fee, or updates a registered address with a signature of the
    transaction's identifier by the owner that the latest description names; it
    then writes the new address with no balance, or appends the new description,
    and undoing it restores the database.  A refused operation changes nothing. *)
Theorem gateway_operation_correct `{GatewayCrypto} tx tx_id gao s : gw_wf s ->
  match put_gw_address_operation tx tx_id gao s with
  | (Ok _, s') => (exists gad', gw_operation_allowed tx tx_id gao s gad' /\ s' = <[operation_address gao := gad']> s) /\
      gw_wf s' /\ pop_gw_address_operation gao s' = (Ok tt, s)
  | (Fail, s') => s' = s /\ forall gad', ~ gw_operation_allowed tx tx_id gao s gad'
  | (Exn, _) => False
  end.
Proof.
  intros Hs. pose proof (put_operation_spec tx tx_id gao s) as Hp.
  destruct (put_gw_address_operation tx tx_id gao s) as [[[]| |] s']; [|done|done].
  destruct Hp as (gad' & Ha & ->). split; [by exists gad'|]. split.
  - apply map_Forall_insert_2; [by eapply allowed_wf|done].
  - by eapply pop_operation_spec.
Qed.

(** C24: Processing and taking back gateway inputs and outputs is arithmetic on
    a ledger of integers per address and asset: a run succeeds exactly when every
    address is registered, every asset identifier is a point and no balance
    leaves the 64-bit range on the way, it ends in the ledger's balances, which are
    the initial ones plus all that was moved there, and it never touches the
    descriptions or creates an address. *)
Theorem gateway_balances_refine_ledger `{GatewayCrypto} ops s : gw_wf s -> Forall (fun op => is_u64 (gw_amount op)) ops ->
  exists r s', for_each gw_step ops s = (r, s') /\ gw_wf s' /\ same_info s s' /\
    match ledger_run ops (ledger_of s) with
    | Some L => r = Ok tt /\ forall gw a, ledger_of s' gw a = L gw a /\ L gw a = (fun b => b + net ops gw a) <$> ledger_of s gw a
    | None => r = Fail
    end.
Proof.
  intros Hs Ha. destruct (gw_run_spec ops s Hs Ha) as (r & s' & E & Hs' & Hi & Hr). exists r, s'.
  split; [done|]. split; [done|]. split; [done|]. destruct (ledger_run ops (ledger_of s)) as [L|] eqn:El; [|done].
  destruct Hr as [-> Hr]. split; [done|]. intros gw a. split; [apply Hr|]. by apply ledger_run_net.
Qed.

(** Undoing in any order against the specification: if it succeeds, the balances
    are restored. *)
Lemma gw_undo_any_order `{GatewayCrypto} ops s s' : gw_wf s -> Forall (fun op => is_u64 (gw_amount op)) ops ->
  for_each gw_step ops s = (Ok tt, s') -> forall undos, undos ≡ₚ gw_undo <$> ops ->
  exists r s'', for_each gw_step undos s' = (r, s'') /\
    match ledger_run undos (ledger_of s') with Some _ => r = Ok tt /\ gw_equiv s'' s | None => r = Fail end.
Proof.
  intros Hs Ha E undos Hp. destruct (gw_run_spec ops s Hs Ha) as (r1 & s1 & E1 & Hs' & Hi & Hr). rewrite E in E1. injection E1 as <- <-.
  destruct (ledger_run ops (ledger_of s)) as [L|] eqn:El; [|done]. destruct Hr as [_ Hr].
  assert (Hu : Forall (fun op => is_u64 (gw_amount op)) (gw_undo <$> ops)).
  { apply Forall_fmap. eapply Forall_impl; [exact Ha|]. by intros []. }
  destruct (gw_run_spec undos s' Hs') as (r & s'' & E2 & _ & Hi2 & Hr2); [by rewrite Hp|].
  exists r, s''. split; [done|]. destruct (ledger_run undos (ledger_of s')) as [L2|] eqn:E3; [|done].
  destruct Hr2 as [-> Hr2]. split; [done|]. split; [intros gw; by rewrite Hi|]. intros gw a.
  rewrite Hr2, (ledger_run_net _ _ _ _ _ E3), (net_perm _ _ _ _ Hp), net_undo, Hr, (ledger_run_net _ _ _ _ _ El).
  destruct (ledger_of s gw a); cbn; f_equal; lia.
Qed.

(** *** Inputs undone first

    Amounts only come back while the inputs are undone and only leave while the
    outputs are, so the balances in between stay below the first sum and above
    the last: the order works when the sums fit. *)

Definition moves_ok `{GatewayCrypto} (sign : Z) (L : ledger) (op : gw_op) : Prop :=
  exists m, gw_movement op = Some m /\ 0 <= sign * mv_change m /\ is_Some (L (mv_addr m) (mv_asset m)).

Lemma moves_ok_step `{GatewayCrypto} sign op L L' op' : ledger_step op L = Some L' -> moves_ok sign L op' <-> moves_ok sign L' op'.
Proof.
  intros E. unfold moves_ok. split; intros (m & Em & Hs & Hl); exists m; (split; [done|split; [done|]]);
    specialize (ledger_step_net op L L' (mv_addr m) (mv_asset m) E) as En; (rewrite En || rewrite En in Hl);
    destruct (L (mv_addr m) (mv_asset m)); (eauto || by destruct Hl).
Qed.

Lemma net_sign `{GatewayCrypto} sign L ops gw a : Forall (moves_ok sign L) ops -> 0 <= sign * net ops gw a.
Proof.
  induction 1 as [|op ops (m & Em & Hs & _) _ IH]; [cbn; lia|]. change (net (op :: ops) gw a) with (net1 op gw a + net ops gw a).
  unfold net1. rewrite Em. case_decide; lia.
Qed.

(** A run in one direction succeeds when the balances it ends with are in range. *)
Lemma ledger_run_one_way `{GatewayCrypto} sign ops L : Forall (moves_ok sign L) ops -> sign = 1 \/ sign = -1 -> ledger_in_range L ->
  (forall gw a b, L gw a = Some b -> is_u64 (b + net ops gw a)) -> exists L', ledger_run ops L = Some L'.
Proof.
  intros Hf Hsign. revert L Hf. induction ops as [|op ops IH]; intros L Hf HL Hfin; [by eexists|].
  apply Forall_cons in Hf as [(m & Em & Hm & [b Hb]) Hf].
  assert (Hnet : forall gw a, net (op :: ops) gw a = net1 op gw a + net ops gw a) by done.
  assert (E : exists L1, ledger_step op L = Some L1).
  { eexists. apply ledger_step_some. exists m, b. split; [done|]. split; [done|]. split; [|reflexivity].
    pose proof (net_sign sign L ops (mv_addr m) (mv_asset m) Hf) as Hn. pose proof (Hfin _ _ _ Hb) as Hu. pose proof (HL _ _ _ Hb) as Hlo.
    rewrite Hnet in Hu. unfold net1 in Hu. rewrite Em, decide_True in Hu by done. unfold in_u in *. destruct Hsign as [-> | ->]; lia. }
  destruct E as [L1 E1]. cbn [ledger_run]. rewrite E1. apply IH.
  - eapply Forall_impl; [exact Hf|]. intros x Hx. by apply (moves_ok_step sign op L L1 x E1).
  - by eapply ledger_step_range.
  - intros gw a b' Hb'. rewrite (ledger_step_net op L L1 gw a E1) in Hb'. apply fmap_Some in Hb' as (b0 & Hb0 & ->).
    specialize (Hfin _ _ _ Hb0). rewrite Hnet in Hfin. by rewrite Z.add_assoc in Hfin.
Qed.

Definition is_input_op (op : gw_op) : Prop := match op with GwInput _ => True | _ => False end.
Definition is_output_op (op : gw_op) : Prop := match op with GwOutput _ => True | _ => False end.

Lemma ledger_run_moves `{GatewayCrypto} ops L L' : ledger_run ops L = Some L' ->
  Forall (fun op => exists m, gw_movement op = Some m /\ is_Some (L' (mv_addr m) (mv_asset m))) ops.
Proof.
  revert L. induction ops as [|op ops IH]; intros L E; [constructor|]. cbn in E. destruct (ledger_step op L) as [L1|] eqn:E1; [|done].
  constructor; [|by eapply IH]. pose proof E1 as E1'. apply ledger_step_some in E1' as (m & b & Em & Eb & _). exists m. split; [done|].
  rewrite (ledger_run_net _ _ _ _ _ E), (ledger_step_net _ _ _ _ _ E1), Eb. by eexists.
Qed.

Lemma undo_inputs_first `{GatewayCrypto} ins outs s s' : gw_wf s -> Forall is_input_op ins -> Forall is_output_op outs ->
  Forall (fun op => is_u64 (gw_amount op)) (ins ++ outs) -> for_each gw_step (ins ++ outs) s = (Ok tt, s') ->
  (forall gw a b, ledger_of s' gw a = Some b -> b + net (gw_undo <$> ins) gw a <= UINT64_MAX) ->
  exists s'', for_each gw_step ((gw_undo <$> ins) ++ rev (gw_undo <$> outs)) s' = (Ok tt, s'') /\ gw_equiv s'' s.
Proof.
  intros Hs Hin Hout Ha E Hroom.
  assert (Hp : (gw_undo <$> ins) ++ rev (gw_undo <$> outs) ≡ₚ gw_undo <$> ins ++ outs).
  { rewrite fmap_app. f_equiv. symmetry. apply Permutation_rev. }
  destruct (gw_undo_any_order _ _ _ Hs Ha E _ Hp) as (r & s'' & E2 & Hm). exists s''.
  destruct (gw_run_spec _ s Hs Ha) as (r1 & s1 & E1 & Hs' & _ & Hr). rewrite E in E1. injection E1 as <- <-.
  destruct (ledger_run (ins ++ outs) (ledger_of s)) as [L|] eqn:El; [|done]. destruct Hr as [_ Hr].
  pose proof (ledger_of_in_range s' Hs') as HL'. pose proof (ledger_of_in_range s Hs) as HL.
  apply ledger_run_moves in El as Hmov. apply Forall_app in Hmov as [Hmi Hmo]. apply Forall_app in Ha as [Hai Hao].
  assert (Hsign : forall sign (ops : list gw_op), Forall (fun op => is_u64 (gw_amount op)) ops ->
    Forall (fun op => exists m, gw_movement op = Some m /\ is_Some (L (mv_addr m) (mv_asset m))) ops ->
    (forall op, op ∈ ops -> sign = 1 /\ is_input_op op \/ sign = -1 /\ is_output_op op) ->
    Forall (moves_ok sign (ledger_of s')) (gw_undo <$> ops)).
  { intros sign ops Hua Hms Hk. apply Forall_fmap, list.Forall_forall. intros op Hop. rewrite list.Forall_forall in Hua, Hms.
    destruct (Hms op Hop) as (m & Em & Hl). unfold moves_ok, compose. rewrite gw_undo_movement, Em. cbn. eexists. split; [reflexivity|].
    cbn. split; [|by rewrite Hr]. specialize (Hua op Hop). unfold in_u in Hua. specialize (Hk op Hop).
    destruct op as [x|x|x|x]; cbn in *; try (by destruct Hk as [[_ []]|[_ []]]);
      (match type of Em with context [pub_key_mul8 ?a] => destruct (pub_key_mul8 a) end; [|done]); injection Em as <-; cbn;
      (destruct Hk as [[-> ?]|[-> ?]]; [try done; lia|try done; lia]). }
  assert (Hup : Forall (moves_ok 1 (ledger_of s')) (gw_undo <$> ins)).
  { apply Hsign; [done..|]. intros op Hop. rewrite list.Forall_forall in Hin. left. split; [done|by apply Hin]. }
  assert (Hdown : Forall (moves_ok (-1) (ledger_of s')) (gw_undo <$> outs)).
  { apply Hsign; [done..|]. intros op Hop. rewrite list.Forall_forall in Hout. right. split; [done|by apply Hout]. }
  destruct (ledger_run_one_way 1 (gw_undo <$> ins) (ledger_of s') Hup ltac:(by left) HL') as [L1 E3].
  { intros gw a b Hb. specialize (Hroom _ _ _ Hb). specialize (HL' _ _ _ Hb). pose proof (net_sign _ _ _ gw a Hup).
    unfold in_u, UINT64_MAX in *. lia. }
  assert (HL1 : ledger_in_range L1).
  { clear -E3 HL'. revert E3 HL'. generalize (ledger_of s'). induction (gw_undo <$> ins) as [|op ops IH]; intros L0 E HL; cbn in E; [by simplify_eq|].
    destruct (ledger_step op L0) as [L2|] eqn:E2; [|done]. eapply IH; [done|]. by eapply ledger_step_range. }
  assert (Hnet : forall gw a, net (rev (gw_undo <$> outs)) gw a = net (gw_undo <$> outs) gw a) by (intros; apply net_perm; symmetry; apply Permutation_rev).
  destruct (ledger_run_one_way (-1) (rev (gw_undo <$> outs)) L1) as [L2 E4].
  - rewrite <- Permutation_rev. eapply Forall_impl; [exact Hdown|]. intros op (m & Em & Hm' & Hl). exists m. split; [done|]. split; [done|].
    rewrite (ledger_run_net _ _ _ _ _ E3). destruct Hl as [x ->]. by eexists.
  - by right.
  - done.
  - intros gw a b Hb. rewrite Hnet. rewrite (ledger_run_net _ _ _ _ _ E3) in Hb. apply fmap_Some in Hb as (b0 & Hb0 & ->).
    rewrite Hr, (ledger_run_net _ _ _ _ _ El) in Hb0. apply fmap_Some in Hb0 as (b1 & Hb1 & ->).
    replace (net (ins ++ outs) gw a) with (net ins gw a + net outs gw a).
    + rewrite !net_undo. specialize (HL _ _ _ Hb1). replace (_ + _) with b1 by lia. done.
    + clear. induction ins as [|op ins IH]; [done|]. cbn [app].
      change (net (op :: ins) gw a) with (net1 op gw a + net ins gw a).
      change (net (op :: ins ++ outs) gw a) with (net1 op gw a + net (ins ++ outs) gw a). lia.
  - rewrite ledger_run_app, E3, E4 in Hm. by destruct Hm as [-> Hm].
Qed.

(** Runs on equivalent states. *)
Lemma gw_equiv_wf s t : gw_equiv t s -> gw_wf s -> gw_wf t.
Proof.
  intros [Hi Hl] Hs gw gad E. specialize (Hi gw). rewrite E in Hi. destruct (s !! gw) as [g|] eqn:Es; [|done]. injection Hi as Hi.
  destruct (Hs _ _ Es) as [Hh Hr]. split; [by rewrite Hi|]. intros a. specialize (Hl gw a). unfold ledger_of in Hl. rewrite E, Es in Hl.
  injection Hl as ->. apply Hr.
Qed.

Lemma gw_run_equiv `{GatewayCrypto} ops s t s' : gw_wf s -> gw_equiv t s -> Forall (fun op => is_u64 (gw_amount op)) ops ->
  for_each gw_step ops s = (Ok tt, s') -> exists t', for_each gw_step ops t = (Ok tt, t') /\ gw_equiv t' s'.
Proof.
  intros Hs Ht Ha E. destruct (gw_run_spec ops s Hs Ha) as (r & s1 & E1 & _ & Hi & Hr). rewrite E in E1. injection E1 as <- <-.
  destruct (gw_run_spec ops t (gw_equiv_wf _ _ Ht Hs) Ha) as (r & t' & E2 & _ & Hi2 & Hr2). destruct Ht as [Hti Htl].
  destruct (ledger_run ops (ledger_of s)) as [L|] eqn:El; [|done]. destruct Hr as [_ Hr].
  destruct (ledger_run_ext ops _ (ledger_of t) _ (fun gw a => eq_sym (Htl gw a)) El) as (L' & El' & Heq). rewrite El' in Hr2.
  destruct Hr2 as [-> Hr2]. exists t'. split; [done|]. split.
  - intros gw. by rewrite <- Hi2, Hti, Hi.
  - intros gw a. by rewrite Hr2, Hr, Heq.
Qed.

(** An operation is undone on any equivalent state. *)
Lemma pop_operation_equiv `{GatewayCrypto} tx tx_id gao s gad' t : gw_operation_allowed tx tx_id gao s gad' ->
  gw_equiv t (<[operation_address gao := gad']> s) -> exists t', pop_gw_address_operation gao t = (Ok tt, t') /\ gw_equiv t' s.
Proof.
  intros Ha [Hi Hl]. pose proof (Hi (operation_address gao)) as Hh. rewrite lookup_insert_eq in Hh. cbn in Hh.
  apply fmap_Some in Hh as (g & Eg & Hg). unfold pop_gw_address_operation. erewrite bind_eq by reflexivity. rewrite Eg.
  erewrite bind_eq by reflexivity. rewrite <- Hg.
  assert (Hoi : forall gw, gw <> operation_address gao -> gad_info_history <$> t !! gw = gad_info_history <$> s !! gw).
  { intros gw Hne. by rewrite Hi, lookup_insert_ne. }
  assert (Hol : forall gw a, gw <> operation_address gao -> ledger_of t gw a = ledger_of s gw a).
  { intros gw a Hne. rewrite Hl. unfold ledger_of. by rewrite lookup_insert_ne. }
  unfold gw_operation_allowed, operation_address in *. destruct (gado_operation gao) as [o|u].
  - destruct Ha as (_ & En & _ & ->). cbn. eexists. split; [reflexivity|]. split.
    + intros gw. destruct (decide (gw = gar_view_pub_key o)) as [->|]; [by rewrite lookup_delete_eq, En|].
      rewrite lookup_delete_ne by done. by apply Hoi.
    + intros gw a. unfold ledger_of. destruct (decide (gw = gar_view_pub_key o)) as [->|]; [by rewrite lookup_delete_eq, En|].
      rewrite lookup_delete_ne by done. by apply Hol.
  - destruct Ha as (gad & d & E & Hd & _ & ->). cbn [set_info_history gad_info_history] in *. rewrite removelast_snoc.
    rewrite (bool_decide_false (gad_info_history gad ++ _ = [])) by (by destruct (gad_info_history gad)).
    erewrite bind_eq by reflexivity. rewrite (bool_decide_false (gad_info_history gad = [])) by (by intros E0; rewrite E0 in Hd).
    cbn [negb]. eexists. split; [reflexivity|]. split.
    + intros gw. destruct (decide (gw = gau_address_id u)) as [->|]; [by rewrite lookup_insert_eq, E|].
      rewrite lookup_insert_ne by done. by apply Hoi.
    + intros gw a. unfold ledger_of. destruct (decide (gw = gau_address_id u)) as [->|].
      * rewrite lookup_insert_eq, E. cbn. specialize (Hl (gau_address_id u) a). unfold ledger_of in Hl.
        rewrite Eg, lookup_insert_eq in Hl. exact Hl.
      * rewrite lookup_insert_ne by done. by apply Hol.
Qed.

(** Inputs and outputs that were processed are taken back by undoing them
    in the reverse order, which always succeeds, and any other order that succeeds
    restores the same balances. *)
Theorem gateway_undo_restores `{GatewayCrypto} ops s s' : gw_wf s -> Forall (fun op => is_u64 (gw_amount op)) ops ->
  for_each gw_step ops s = (Ok tt, s') ->
  (exists s'', for_each gw_step (reverse (gw_undo <$> ops)) s' = (Ok tt, s'') /\ gw_equiv s'' s) /\
  (forall undos s'', undos ≡ₚ gw_undo <$> ops -> for_each gw_step undos s' = (Ok tt, s'') -> gw_equiv s'' s).
Proof.
  intros Hs Ha E. pose proof (gw_undo_any_order ops s s' Hs Ha E) as Hrun. split.
  - destruct (Hrun (reverse (gw_undo <$> ops))) as (r & s'' & E2 & Hm); [apply reverse_Permutation|].
    destruct (gw_run_spec ops s Hs Ha) as (r1 & s1 & E1 & _ & _ & Hr). rewrite E in E1. injection E1 as <- <-.
    destruct (ledger_run ops (ledger_of s)) as [L|] eqn:El; [|done]. destruct Hr as [_ Hr].
    destruct (ledger_run_undo ops _ _ (ledger_of_in_range s Hs) El) as (L2 & E3 & _).
    destruct (ledger_run_ext _ _ (ledger_of s') _ (fun gw a => eq_sym (Hr gw a)) E3) as (L4 & E4 & _).
    rewrite E4 in Hm. destruct Hm as [-> Hm]. by exists s''.
  - intros undos s'' Hp E2. destruct (Hrun undos Hp) as (r & s3 & E3 & Hm). rewrite E2 in E3. injection E3 as <- <-.
    by destruct (ledger_run undos (ledger_of s')) as [|]; [apply Hm|].
Qed.

(** ** Examples *)

(** Every 32 bytes are a point, and a signature is good when its response is
    the key. *)
Definition demo_crypto : GatewayCrypto := {|
  point_is_in_main_subgroup := fun k => (List.length k =? 32)%nat;
  pub_key_mul8 := fun k => if (List.length k =? 32)%nat then Some k else None;
  verify_schnorr_sig := fun _ o sign => bool_decide (gss_y sign = o);
  verify_eth_signature := fun _ _ _ => false;
  verify_eddsa_signature := fun _ _ _ => false
|}.

Definition demo_key (n : Z) : public_key := replicate 32 n.
Definition demo_description (n : Z) : gateway_address_descriptor_base :=
  {| gadb_version := 0; gadb_owner_key := gok_public_key (demo_key n); gadb_etc := []; gadb_meta_info := [] |}.
Definition demo_tx (signer : Z) : transaction := {|
  tx_prefix := {| tp_version := 4; tp_hardfork_id := 6; tp_vin := []; tp_extra := [P_zarcanum_tx_data_v1 100000000000000]; tp_vout := [] |};
  tx_attachment := []; tx_signatures := [];
  tx_proofs := [proof_gateway_address_ownership {| gaop_version := 0;
                  gaop_sign := gos_generic_schnorr_sig_s {| gss_c := demo_key 0; gss_y := demo_key signer |} |}] |}.
Definition demo_register : gateway_address_descriptor_operation := {|
  gado_version := 0;
  gado_operation := ga_register {| gar_version := 0; gar_view_pub_key := demo_key 1; gar_descriptor := demo_description 2 |} |}.
Definition demo_update : gateway_address_descriptor_operation := {|
  gado_version := 0;
  gado_operation := ga_update {| gau_version := 0; gau_address_id := demo_key 1; gau_descriptor := demo_description 3 |} |}.
Definition demo_addresses (amount : Z) : gateway_addresses :=
  {[demo_key 1 := {| gad_version := 0; gad_info_history := [demo_description 2];
                     gad_balances := {[demo_key 9 := {| gab_version := 0; gab_amount := amount |}]} |}]}.

Lemma demo_addresses_wf amount : is_u64 amount -> gw_wf (demo_addresses amount).
Proof.
  intros Ha. apply map_Forall_singleton. split; [done|]. intros a. unfold amount_of. cbn [gad_balances].
  destruct (decide (a = demo_key 9)) as [->|Hne]; [by rewrite lookup_singleton_eq|]. rewrite lookup_singleton_ne by done.
  unfold in_u. lia.
Qed.

(** The address is registered, its owner replaces the description, and a
    stranger cannot. *)
Example gateway_operation_correct_witness :
  (exists s1, @put_gw_address_operation demo_crypto (demo_tx 0) (demo_key 7) demo_register ∅ = (Ok tt, s1) /\
     pop_gw_address_operation demo_register s1 = (Ok tt, ∅)) /\
  (exists s2, @put_gw_address_operation demo_crypto (demo_tx 2) (demo_key 7) demo_update (demo_addresses 5) = (Ok tt, s2) /\
     pop_gw_address_operation demo_update s2 = (Ok tt, demo_addresses 5)) /\
  @put_gw_address_operation demo_crypto (demo_tx 3) (demo_key 7) demo_update (demo_addresses 5) = (Fail, demo_addresses 5).
Proof.
  assert (E1 : fst (@put_gw_address_operation demo_crypto (demo_tx 0) (demo_key 7) demo_register ∅) = Ok tt) by reflexivity.
  assert (E2 : fst (@put_gw_address_operation demo_crypto (demo_tx 2) (demo_key 7) demo_update (demo_addresses 5)) = Ok tt) by reflexivity.
  assert (E3 : fst (@put_gw_address_operation demo_crypto (demo_tx 3) (demo_key 7) demo_update (demo_addresses 5)) = Fail) by reflexivity.
  assert (Hw : gw_wf (demo_addresses 5)) by (apply demo_addresses_wf; unfold in_u; lia).
  pose proof (@gateway_operation_correct demo_crypto (demo_tx 0) (demo_key 7) demo_register ∅ (map_Forall_empty _)) as H1.
  pose proof (@gateway_operation_correct demo_crypto (demo_tx 2) (demo_key 7) demo_update _ Hw) as H2.
  pose proof (@gateway_operation_correct demo_crypto (demo_tx 3) (demo_key 7) demo_update _ Hw) as H3.
  revert E1 E2 E3 H1 H2 H3.
  destruct (@put_gw_address_operation demo_crypto (demo_tx 0) _ _ _) as [r1 s1],
    (@put_gw_address_operation demo_crypto (demo_tx 2) _ _ _) as [r2 s2],
    (@put_gw_address_operation demo_crypto (demo_tx 3) _ _ _) as [r3 s3].
  cbn [fst]. intros -> -> -> (_ & _ & H1) (_ & _ & H2) (-> & _). split; [by exists s1|]. split; [by exists s2|done].
Defined.

Definition demo_in (amount : Z) : gw_op :=
  GwInput {| tgw_version := 0; tgw_gateway_addr := demo_key 1; tgw_asset_id := demo_key 9; tgw_amount := amount |}.
Definition demo_out (amount : Z) : gw_op :=
  GwOutput {| ogw_version := 0; ogw_gateway_addr := demo_key 1; ogw_asset_id := demo_key 9; ogw_amount := amount; ogw_payment_id := 0 |}.

Example gateway_balances_refine_ledger_witness :
  exists s', for_each (@gw_step demo_crypto) [demo_in 30; demo_out 50; demo_in 20] (demo_addresses 40) = (Ok tt, s') /\
    ledger_of s' (demo_key 1) (demo_key 9) = Some 40.
Proof.
  destruct (@gateway_balances_refine_ledger demo_crypto [demo_in 30; demo_out 50; demo_in 20] (demo_addresses 40))
    as (r & s' & E & _ & _ & Hr); [apply demo_addresses_wf; unfold in_u; lia|repeat constructor; cbn; lia|].
  exists s'. assert (El : exists L, @ledger_run demo_crypto [demo_in 30; demo_out 50; demo_in 20] (ledger_of (demo_addresses 40)) = Some L
    /\ L (demo_key 1) (demo_key 9) = Some 40).
  { eexists. split; reflexivity. }
  destruct El as (L & EL & Hb). rewrite EL in Hr. destruct Hr as [-> Hr]. split; [done|]. by rewrite (proj1 (Hr _ _)).
Defined.

Example gateway_undo_restores_witness :
  exists s' s'', for_each (@gw_step demo_crypto) [demo_in 30; demo_out 50] (demo_addresses 40) = (Ok tt, s') /\
    for_each (@gw_step demo_crypto) [gw_undo (demo_out 50); gw_undo (demo_in 30)] s' = (Ok tt, s'') /\ gw_equiv s'' (demo_addresses 40).
Proof.
  assert (E1 : fst (for_each (@gw_step demo_crypto) [demo_in 30; demo_out 50] (demo_addresses 40)) = Ok tt) by reflexivity.
  destruct (for_each (@gw_step demo_crypto) [demo_in 30; demo_out 50] (demo_addresses 40)) as [r s'] eqn:E. cbn [fst] in E1. subst r.
  destruct (@gateway_undo_restores demo_crypto [demo_in 30; demo_out 50] (demo_addresses 40) s') as [(s'' & E2 & Heq) _];
    [apply demo_addresses_wf; unfold in_u; lia|repeat constructor; cbn; lia|done|].
  exists s', s''. done.
Defined.

(** The core takes back the inputs of a transaction before its outputs: with a
    balance near the limit, this order fails where the reverse order works. *)
Example undo_inputs_first_can_fail :
  let ops := [demo_in 10; demo_out 10] in
  let s := demo_addresses UINT64_MAX in
  fst (for_each (@gw_step demo_crypto) ops s) = Ok tt /\
  fst (for_each (@gw_step demo_crypto) [gw_undo (demo_in 10); gw_undo (demo_out 10)] (snd (for_each (@gw_step demo_crypto) ops s))) = Fail.
Proof. split; reflexivity. Qed.
