(* ===== verification/Assets.v ===== *)
(** * Assets: [src/src/currency_core/blockchain_storage.cpp] and the asset part of
    [currency_format_utils.cpp]

    An asset is registered, emitted, burnt and updated by operations in the extra
    field of transactions.  The chain keeps the history of its descriptors; up to
    hard fork 5 each operation adds one, from then on an emission or a burn
    changes the supply in the latest.  The operations on points and the check of
    the signatures are the interfaces [GatewayCrypto] and [AssetCrypto]. *)

From S2P Require Import Prelude Config HardForks Keccak Pod CryptoTypes Basic Transactions HfTerms TxSemantic StateM Gateway.

Class AssetCrypto := {
  point : Type;
  hp : hash -> point;
  to_public_key : point -> public_key;
  from_public_key : public_key -> option point;
  modify_mul8 : point -> point;
  point_sub : point -> point -> point;
  point_scale : Z -> point -> point;
  point_add : point -> point -> point;
  point_0 : point;
  point_eqb : point -> point -> bool;
  native_coin_asset_id_pt : point;
  check_signature : hash -> public_key -> signature -> bool
}.

Definition ZANO_HARDFORK_05 : nat := 5.

Definition ASSET_DESCRIPTOR_OPERATION_REGISTER : Z := 1.
Definition ASSET_DESCRIPTOR_OPERATION_EMIT : Z := 2.
Definition ASSET_DESCRIPTOR_OPERATION_UPDATE : Z := 3.
Definition ASSET_DESCRIPTOR_OPERATION_PUBLIC_BURN : Z := 4.

(** ["ZANO_HDS_ASSET_ID______________"] and its terminating zero. *)
Definition CRYPTO_HDS_ASSET_ID : list Z := chars "ZANO_HDS_ASSET_ID______________" ++ [0].
Definition CRYPTO_HASH_ASSET_ID_ITERATIONS : nat := 1024.

(** ** Descriptors *)

Definition is_alnum (c : Z) : bool :=
  ((65 <=? c) && (c <=? 90)) || ((97 <=? c) && (c <=? 122)) || ((48 <=? c) && (c <=? 57)).

(** [[A-Za-z0-9]{1,14}]. *)
Definition validate_asset_ticker (ticker : list Z) : bool :=
  (1 <=? List.length ticker)%nat && (List.length ticker <=? 14)%nat && forallb is_alnum ticker.

(** [[A-Za-z0-9.,:!?\-() ]{0,400}]. *)
Definition validate_asset_full_name (full_name : list Z) : bool :=
  (List.length full_name <=? 400)%nat && forallb (fun c => is_alnum c || bool_decide (c ∈ chars ".,:!?-() ")) full_name.

Definition ASSET_META_INFO_MAX_SIZE : nat := 4000.
Definition validate_asset_meta_info (meta_info : list Z) : bool := (List.length meta_info <=? ASSET_META_INFO_MAX_SIZE)%nat.

Definition validate_asset_ticker_full_name_and_meta_info (adb : asset_descriptor_base) : bool :=
  validate_asset_ticker (adb_ticker adb) && validate_asset_full_name (adb_full_name adb) && validate_asset_meta_info (adb_meta_info adb).

Definition validate_ado_update_allowed (new_ado prev_ado : asset_descriptor_base) (hf6_active : bool) : bool :=
  (adb_total_max_supply new_ado =? adb_total_max_supply prev_ado) &&
  (adb_current_supply new_ado <=? adb_total_max_supply prev_ado) &&
  (adb_decimal_point new_ado =? adb_decimal_point prev_ado) &&
  bool_decide (adb_ticker new_ado = adb_ticker prev_ado) &&
  bool_decide (adb_full_name new_ado = adb_full_name prev_ado) &&
  Bool.eqb (adb_hidden_supply new_ado) (adb_hidden_supply prev_ado) &&
  (negb hf6_active || validate_asset_meta_info (adb_meta_info new_ado)).

Definition validate_ado_initial (new_ado : asset_descriptor_base) (hf6_active : bool) : bool :=
  (adb_current_supply new_ado <=? adb_total_max_supply new_ado) &&
  (negb hf6_active || validate_asset_ticker_full_name_and_meta_info new_ado).

Definition set_current_supply (n : Z) (adb : asset_descriptor_base) : asset_descriptor_base :=
  {| adb_version := adb_version adb; adb_total_max_supply := adb_total_max_supply adb; adb_current_supply := n;
     adb_decimal_point := adb_decimal_point adb; adb_ticker := adb_ticker adb; adb_full_name := adb_full_name adb;
     adb_meta_info := adb_meta_info adb; adb_owner := adb_owner adb; adb_hidden_supply := adb_hidden_supply adb;
     adb_owner_eth_pub_key := adb_owner_eth_pub_key adb; adb_etc := adb_etc adb |}.

Definition set_descriptor (adb : asset_descriptor_base) (ado : asset_descriptor_operation) : asset_descriptor_operation :=
  {| ado_operation_type := ado_operation_type ado; ado_version := ado_version ado;
     ado_opt_amount_commitment := ado_opt_amount_commitment ado; ado_opt_asset_id := ado_opt_asset_id ado;
     ado_opt_descriptor := Some adb; ado_opt_amount := ado_opt_amount ado;
     ado_opt_asset_id_salt := ado_opt_asset_id_salt ado; ado_etc := ado_etc ado |}.

(** [m_db_assets]: the history of each asset, oldest first. *)
Abbreviation assets_db := (gmap public_key (list asset_descriptor_operation)).

Section assets.
Context `{GatewayCrypto, AssetCrypto} (hard_forks : hard_forks_descriptor).

Definition active (hardfork_id : nat) (height : Z) : st assets_db bool := fun s =>
  match is_hardfork_active_for_height hardfork_id height hard_forks with Ret b => (Ok b, s) | Throw => (Exn, s) end.

(** ** The identifier of an asset *)

Definition asset_id_buffer (ado : asset_descriptor_operation) (adb : asset_descriptor_base) : list Z :=
  CRYPTO_HDS_ASSET_ID ++ cn_fast_hash (adb_ticker adb) ++ cn_fast_hash (adb_full_name adb) ++ cn_fast_hash (adb_meta_info adb) ++
  le_split 32 (adb_total_max_supply adb) ++ le_split 32 (adb_decimal_point adb) ++ adb_owner adb ++
  (match adb_owner_eth_pub_key adb with Some k => k ++ replicate 31 0 | None => [] end) ++
  (match ado_opt_asset_id_salt ado with Some salt => le_split 32 salt | None => [] end).

Fixpoint asset_id_hash_loop (n : nat) (i : Z) (h : hash) : hash :=
  match n with
  | O => h
  | S n => asset_id_hash_loop n (i + 1) (cn_fast_hash (CRYPTO_HDS_ASSET_ID ++ h ++ le_split 8 i))
  end.

Definition calculate_asset_id (ado : asset_descriptor_operation) (adb : asset_descriptor_base) : point :=
  hp (asset_id_hash_loop CRYPTO_HASH_ASSET_ID_ITERATIONS 0 (cn_fast_hash (asset_id_buffer ado adb))).

(** [with_point]: the caller asks for the point too, whose construction throws
    for a key that is not one. *)
Definition get_or_calculate_asset_id (ado : asset_descriptor_operation) (with_point : bool)
    : st assets_db (public_key * option point) :=
  if (ado_operation_type ado =? ASSET_DESCRIPTOR_OPERATION_EMIT) || (ado_operation_type ado =? ASSET_DESCRIPTOR_OPERATION_UPDATE) ||
     (ado_operation_type ado =? ASSET_DESCRIPTOR_OPERATION_PUBLIC_BURN) then
    asset_id ← some (ado_opt_asset_id ado);
    if with_point then
      _ ← throw_unless (bool_decide (is_Some (from_public_key asset_id)));
      mret (asset_id, from_public_key asset_id)
    else mret (asset_id, None)
  else
    _ ← check (ado_operation_type ado =? ASSET_DESCRIPTOR_OPERATION_REGISTER);
    adb ← some (ado_opt_descriptor ado);
    let result := calculate_asset_id ado adb in
    mret (to_public_key result, Some result).

(** ** Validation *)

Definition proofs_of {A} (f : proof_v -> option A) (tx : transaction) : list A := omap f (tx_proofs tx).
Definition as_asset_operation_proof (p : proof_v) := match p with proof_asset_operation x => Some x | _ => None end.
Definition as_ownership_proof (p : proof_v) := match p with proof_asset_operation_ownership x => Some x | _ => None end.
Definition as_ownership_proof_eth (p : proof_v) := match p with proof_asset_operation_ownership_eth x => Some x | _ => None end.

Definition validate_asset_operation_amount_commitment (tx : transaction) (tx_id : hash) (ado : asset_descriptor_operation)
    (asset_id_pt : point) (amount_to_validate : Z) : st assets_db unit :=
  match proofs_of as_asset_operation_proof tx with
  | [aop] =>
      if match ado_opt_descriptor ado with Some adb => adb_hidden_supply adb | None => false end then fail
      else
        sig ← some (aop_opt_amount_commitment_g_proof aop);
        amount_commitment ← some (ado_opt_amount_commitment ado);
        _ ← throw_unless (bool_decide (is_Some (from_public_key amount_commitment)));
        C ← some (from_public_key amount_commitment);
        let A := point_sub (modify_mul8 C) (point_scale amount_to_validate asset_id_pt) in
        check (check_signature tx_id (to_public_key A) sig)
  | _ => fail
  end.

Definition validate_ado_ownership (tx : transaction) (tx_id : hash) (height : Z)
    (asset_op_history : list asset_descriptor_operation) : st assets_db unit :=
  last_ado ← some (last asset_op_history);
  last_adb ← some (ado_opt_descriptor last_ado);
  hf5 ← active ZANO_HARDFORK_05 height;
  match (if hf5 : bool then adb_owner_eth_pub_key last_adb else None) with
  | Some owner_eth_pub_key =>
      _ ← check (bool_decide (adb_owner last_adb = null_pkey));
      aoop_eth ← some (head (proofs_of as_ownership_proof_eth tx));
      check (verify_eth_signature tx_id owner_eth_pub_key (aoope_eth_sig aoop_eth))
  | None =>
      aoop ← some (head (proofs_of as_ownership_proof tx));
      check (verify_schnorr_sig tx_id (adb_owner last_adb) (aoop_gss aoop))
  end.

(** [avc.asset_id] and [avc.asset_op_history]. *)
Abbreviation validated := (public_key * option (list asset_descriptor_operation))%type.

(** The end both validations share. *)
Definition validate_amount (tx : transaction) (tx_id : hash) (ado : asset_descriptor_operation) (asset_id_pt : option point)
    (amount_to_validate : option Z) : st assets_db unit :=
  match amount_to_validate with
  | None => mret tt
  | Some amount =>
      pt ← some asset_id_pt;
      validate_asset_operation_amount_commitment tx tx_id ado pt amount
  end.

Definition needs_owner (ado : asset_descriptor_operation) : bool :=
  (ado_operation_type ado =? ASSET_DESCRIPTOR_OPERATION_EMIT) || (ado_operation_type ado =? ASSET_DESCRIPTOR_OPERATION_UPDATE).

(** The checks of each operation on the current descriptor and the new one;
    the result is the amount its commitment must open to, [None] when there is
    none to check. *)
Definition hf4_checks (ado : asset_descriptor_operation) (last_adb adb : asset_descriptor_base) : st assets_db (option Z) :=
  if ado_operation_type ado =? ASSET_DESCRIPTOR_OPERATION_UPDATE then
    _ ← check (adb_current_supply adb =? adb_current_supply last_adb);
    _ ← check (validate_ado_update_allowed adb last_adb false);
    mret None
  else if ado_operation_type ado =? ASSET_DESCRIPTOR_OPERATION_EMIT then
    _ ← check (adb_current_supply last_adb <? adb_current_supply adb);
    _ ← check (validate_ado_update_allowed adb last_adb false);
    _ ← check (bool_decide (adb_meta_info adb = adb_meta_info last_adb));
    mret (Some (u64 (adb_current_supply adb - adb_current_supply last_adb)))
  else if ado_operation_type ado =? ASSET_DESCRIPTOR_OPERATION_PUBLIC_BURN then
    _ ← check (adb_current_supply adb <? adb_current_supply last_adb);
    _ ← check (validate_ado_update_allowed adb last_adb false);
    _ ← check (bool_decide (adb_meta_info adb = adb_meta_info last_adb));
    mret (Some (u64 (adb_current_supply last_adb - adb_current_supply adb)))
  else fail.

Definition validate_asset_operation_hf4 (tx : transaction) (tx_id : hash) (ado : asset_descriptor_operation) (height : Z)
    : st assets_db validated :=
  hf5 ← active ZANO_HARDFORK_05 height;
  _ ← check (negb hf5);
  '(asset_id, asset_id_pt) ← get_or_calculate_asset_id ado true;
  asset_op_history ← read (fun s : assets_db => s !! asset_id);
  amount_to_validate ←
    (if ado_operation_type ado =? ASSET_DESCRIPTOR_OPERATION_REGISTER then
       _ ← check (match asset_op_history with None => true | Some _ => false end);
       adb ← some (ado_opt_descriptor ado);
       _ ← check (match adb_owner_eth_pub_key adb with None => true | Some _ => false end);
       _ ← check (match ado_opt_asset_id_salt ado with None => true | Some _ => false end);
       mret (Some (adb_current_supply adb))
     else
       history ← some asset_op_history;
       last_ado ← some (last history);
       last_adb ← some (ado_opt_descriptor last_ado);
       adb ← some (ado_opt_descriptor ado);
       _ ← (if needs_owner ado then validate_ado_ownership tx tx_id height history else mret tt);
       hf4_checks ado last_adb adb);
  _ ← validate_amount tx tx_id ado asset_id_pt amount_to_validate;
  mret (asset_id, asset_op_history).

Definition hf5_checks (ado : asset_descriptor_operation) (last_adb : asset_descriptor_base) (hf6 : bool) : st assets_db (option Z) :=
  if ado_operation_type ado =? ASSET_DESCRIPTOR_OPERATION_UPDATE then
    adb ← some (ado_opt_descriptor ado);
    _ ← check (adb_current_supply adb =? adb_current_supply last_adb);
    _ ← check (validate_ado_update_allowed adb last_adb hf6);
    mret None
  else if ado_operation_type ado =? ASSET_DESCRIPTOR_OPERATION_EMIT then
    if adb_hidden_supply last_adb then mret (Some 0)
    else
      amount ← some (ado_opt_amount ado);
      _ ← check (adb_current_supply last_adb <=? u64 (adb_current_supply last_adb + amount));
      _ ← check (u64 (adb_current_supply last_adb + amount) <=? adb_total_max_supply last_adb);
      mret (Some amount)
  else if ado_operation_type ado =? ASSET_DESCRIPTOR_OPERATION_PUBLIC_BURN then
    if adb_hidden_supply last_adb then mret (Some 0)
    else
      amount ← some (ado_opt_amount ado);
      _ ← check (u64 (adb_current_supply last_adb - amount) <=? adb_current_supply last_adb);
      mret (Some amount)
  else fail.

Definition validate_asset_operation_hf5 (tx : transaction) (tx_id : hash) (ado : asset_descriptor_operation) (height : Z)
    : st assets_db validated :=
  hf5 ← active ZANO_HARDFORK_05 height;
  hf6 ← active (Z.to_nat ZANO_HARDFORK_06) height;
  _ ← check hf5;
  '(asset_id, asset_id_pt) ← get_or_calculate_asset_id ado true;
  asset_op_history ← read (fun s : assets_db => s !! asset_id);
  amount_to_validate ←
    (if ado_operation_type ado =? ASSET_DESCRIPTOR_OPERATION_REGISTER then
       _ ← check (match asset_op_history with None => true | Some _ => false end);
       adb ← some (ado_opt_descriptor ado);
       _ ← check (validate_ado_initial adb hf6);
       amount ← some (ado_opt_amount ado);
       _ ← check (adb_current_supply adb =? amount);
       mret (Some (adb_current_supply adb))
     else
       history ← some asset_op_history;
       last_ado ← some (last history);
       last_adb ← some (ado_opt_descriptor last_ado);
       _ ← (if needs_owner ado then validate_ado_ownership tx tx_id height history else mret tt);
       hf5_checks ado last_adb hf6);
  _ ← validate_amount tx tx_id ado asset_id_pt amount_to_validate;
  mret (asset_id, asset_op_history).

Definition validate_asset_operation (tx : transaction) (tx_id : hash) (ado : asset_descriptor_operation) (height : Z)
    : st assets_db validated :=
  hf5 ← active ZANO_HARDFORK_05 height;
  if hf5 : bool then validate_asset_operation_hf5 tx tx_id ado height else validate_asset_operation_hf4 tx tx_id ado height.

(** ** Applying and undoing an operation *)

(** [last_adb.current_supply] changed in place, in the last record. *)
Definition change_last_supply (f : Z -> Z) (history : list asset_descriptor_operation) : list asset_descriptor_operation :=
  match last history with
  | Some last_ado =>
      match ado_opt_descriptor last_ado with
      | Some last_adb =>
          removelast history ++ [set_descriptor (set_current_supply (f (adb_current_supply last_adb)) last_adb) last_ado]
      | None => history
      end
  | None => history
  end.

Definition put_asset_info (tx : transaction) (tx_id : hash) (ado : asset_descriptor_operation) (height : Z) : st assets_db unit :=
  '(asset_id, asset_op_history) ← validate_asset_operation tx tx_id ado height;
  hf5 ← active ZANO_HARDFORK_05 height;
  let local_asset_history := default [] asset_op_history in
  if hf5 : bool then
    history ←
      (if ado_operation_type ado =? ASSET_DESCRIPTOR_OPERATION_REGISTER then
         adb ← some (ado_opt_descriptor ado);
         mret (local_asset_history ++ [ado])
       else
         last_ado ← some (last local_asset_history);
         last_adb ← some (ado_opt_descriptor last_ado);
         if ado_operation_type ado =? ASSET_DESCRIPTOR_OPERATION_UPDATE then mret (local_asset_history ++ [ado])
         else if ado_operation_type ado =? ASSET_DESCRIPTOR_OPERATION_EMIT then
           if adb_hidden_supply last_adb then fail
           else
             amount ← some (ado_opt_amount ado);
             mret (change_last_supply (fun n => u64 (n + amount)) local_asset_history)
         else if ado_operation_type ado =? ASSET_DESCRIPTOR_OPERATION_PUBLIC_BURN then
           if adb_hidden_supply last_adb then fail
           else
             amount ← some (ado_opt_amount ado);
             mret (change_last_supply (fun n => u64 (n - amount)) local_asset_history)
         else fail);
    update (<[asset_id := history]>)
  else
    update (<[asset_id := local_asset_history ++ [ado]]>).

Definition pop_asset_info (ado : asset_descriptor_operation) (height : Z) : st assets_db unit :=
  '(asset_id, _) ← get_or_calculate_asset_id ado false;
  asset_history_ptr ← read (fun s : assets_db => s !! asset_id);
  local_asset_hist ← some asset_history_ptr;
  last_ado ← some (last local_asset_hist);
  hf5 ← active ZANO_HARDFORK_05 height;
  history ←
    (if hf5 : bool then
       last_adb ← some (ado_opt_descriptor last_ado);
       if ado_operation_type ado =? ASSET_DESCRIPTOR_OPERATION_EMIT then
         if adb_hidden_supply last_adb then fail
         else
           amount ← some (ado_opt_amount ado);
           mret (change_last_supply (fun n => u64 (n - amount)) local_asset_hist)
       else if ado_operation_type ado =? ASSET_DESCRIPTOR_OPERATION_PUBLIC_BURN then
         if adb_hidden_supply last_adb then fail
         else
           amount ← some (ado_opt_amount ado);
           mret (change_last_supply (fun n => u64 (n + amount)) local_asset_hist)
       else if (ado_operation_type ado =? ASSET_DESCRIPTOR_OPERATION_REGISTER) ||
               (ado_operation_type ado =? ASSET_DESCRIPTOR_OPERATION_UPDATE) then mret (removelast local_asset_hist)
       else fail
     else mret (removelast local_asset_hist));
  update (fun s : assets_db => match history with [] => delete asset_id s | _ => <[asset_id := history]> s end).

(** ** Failed operations change nothing *)

Lemma active_ro n height : read_only (active n height).
Proof. intros s. unfold active. by destruct (is_hardfork_active_for_height n height hard_forks). Qed.
#[local] Hint Resolve active_ro : ro.

Lemma get_or_calculate_asset_id_ro ado b : read_only (get_or_calculate_asset_id ado b).
Proof. unfold get_or_calculate_asset_id. ro_solve. Qed.
Lemma validate_ado_ownership_ro tx tx_id height h : read_only (validate_ado_ownership tx tx_id height h).
Proof. unfold validate_ado_ownership. ro_solve. Qed.
Lemma validate_amount_ro tx tx_id ado pt amount : read_only (validate_amount tx tx_id ado pt amount).
Proof. unfold validate_amount, validate_asset_operation_amount_commitment. ro_solve. Qed.
Lemma hf4_checks_ro ado last_adb adb : read_only (hf4_checks ado last_adb adb).
Proof. unfold hf4_checks. ro_solve. Qed.
Lemma hf5_checks_ro ado last_adb hf6 : read_only (hf5_checks ado last_adb hf6).
Proof. unfold hf5_checks. ro_solve. Qed.
#[local] Hint Resolve get_or_calculate_asset_id_ro validate_ado_ownership_ro validate_amount_ro hf4_checks_ro hf5_checks_ro : ro.

Lemma validate_asset_operation_ro tx tx_id ado height : read_only (validate_asset_operation tx tx_id ado height).
Proof. unfold validate_asset_operation, validate_asset_operation_hf4, validate_asset_operation_hf5. ro_solve. Qed.
#[local] Hint Resolve validate_asset_operation_ro : ro.

Lemma put_asset_info_atomic tx tx_id ado height : atomic (put_asset_info tx tx_id ado height).
Proof. unfold put_asset_info. ro_solve. Qed.

Lemma pop_asset_info_atomic ado height : atomic (pop_asset_info ado height).
Proof. unfold pop_asset_info. ro_solve. Qed.

(** ** What an accepted operation does *)

Definition hf5_at (height : Z) : bool := ld hard_forks 5 <? height.

Lemma active_hf5 height s : active ZANO_HARDFORK_05 height s = (Ok (hf5_at height), s).
Proof. reflexivity. Qed.

Definition asset_id_of (ado : asset_descriptor_operation) : option public_key :=
  if (ado_operation_type ado =? ASSET_DESCRIPTOR_OPERATION_EMIT) || (ado_operation_type ado =? ASSET_DESCRIPTOR_OPERATION_UPDATE) ||
     (ado_operation_type ado =? ASSET_DESCRIPTOR_OPERATION_PUBLIC_BURN) then ado_opt_asset_id ado
  else if ado_operation_type ado =? ASSET_DESCRIPTOR_OPERATION_REGISTER then
    (fun adb => to_public_key (calculate_asset_id ado adb)) <$> ado_opt_descriptor ado
  else None.

Definition latest (history : option (list asset_descriptor_operation)) : option asset_descriptor_base :=
  h ← history; last_ado ← last h; ado_opt_descriptor last_ado.

(** The transaction carries a proof by the owner of [d]. *)
Definition owner_approved (hf5 : bool) (tx : transaction) (tx_id : hash) (d : asset_descriptor_base) : Prop :=
  match (if hf5 then adb_owner_eth_pub_key d else None) with
  | Some k => adb_owner d = null_pkey /\ exists p, head (proofs_of as_ownership_proof_eth tx) = Some p /\ verify_eth_signature tx_id k (aoope_eth_sig p) = true
  | None => exists p, head (proofs_of as_ownership_proof tx) = Some p /\ verify_schnorr_sig tx_id (adb_owner d) (aoop_gss p) = true
  end.

(** The parts of a descriptor nothing changes. *)
Definition same_asset (d d' : asset_descriptor_base) : Prop :=
  adb_total_max_supply d' = adb_total_max_supply d /\ adb_decimal_point d' = adb_decimal_point d /\
  adb_ticker d' = adb_ticker d /\ adb_full_name d' = adb_full_name d /\ adb_hidden_supply d' = adb_hidden_supply d.

(** The rules of the supply: the latest descriptor of an asset before and after
    an operation. *)
Inductive asset_transition (hf5 : bool) (tx : transaction) (tx_id : hash) (ado : asset_descriptor_operation) :
    option asset_descriptor_base -> asset_descriptor_base -> Prop :=
| AtRegister d : ado_operation_type ado = ASSET_DESCRIPTOR_OPERATION_REGISTER -> ado_opt_descriptor ado = Some d ->
    (hf5 = true -> adb_current_supply d <= adb_total_max_supply d) -> asset_transition hf5 tx tx_id ado None d
| AtUpdate d d' : ado_operation_type ado = ASSET_DESCRIPTOR_OPERATION_UPDATE -> owner_approved hf5 tx tx_id d ->
    ado_opt_descriptor ado = Some d' -> adb_current_supply d' = adb_current_supply d -> same_asset d d' ->
    asset_transition hf5 tx tx_id ado (Some d) d'
| AtEmit d amount : hf5 = true -> ado_operation_type ado = ASSET_DESCRIPTOR_OPERATION_EMIT -> owner_approved hf5 tx tx_id d ->
    ado_opt_amount ado = Some amount -> adb_hidden_supply d = false ->
    adb_current_supply d + amount <= adb_total_max_supply d ->
    asset_transition hf5 tx tx_id ado (Some d) (set_current_supply (adb_current_supply d + amount) d)
| AtBurn d amount : hf5 = true -> ado_operation_type ado = ASSET_DESCRIPTOR_OPERATION_PUBLIC_BURN ->
    ado_opt_amount ado = Some amount -> adb_hidden_supply d = false -> amount <= adb_current_supply d ->
    asset_transition hf5 tx tx_id ado (Some d) (set_current_supply (adb_current_supply d - amount) d)
| AtEmit4 d d' : hf5 = false -> ado_operation_type ado = ASSET_DESCRIPTOR_OPERATION_EMIT -> owner_approved hf5 tx tx_id d ->
    ado_opt_descriptor ado = Some d' -> same_asset d d' ->
    adb_current_supply d < adb_current_supply d' <= adb_total_max_supply d -> asset_transition hf5 tx tx_id ado (Some d) d'
| AtBurn4 d d' : hf5 = false -> ado_operation_type ado = ASSET_DESCRIPTOR_OPERATION_PUBLIC_BURN ->
    ado_opt_descriptor ado = Some d' -> same_asset d d' ->
    adb_current_supply d' < adb_current_supply d -> asset_transition hf5 tx tx_id ado (Some d) d'.

(** The types of the amounts. *)
Definition adb_ok (d : asset_descriptor_base) : Prop := is_u64 (adb_current_supply d) /\ is_u64 (adb_total_max_supply d).
Definition ado_ok (ado : asset_descriptor_operation) : Prop :=
  (forall d, ado_opt_descriptor ado = Some d -> adb_ok d) /\ (forall a, ado_opt_amount ado = Some a -> is_u64 a).

(** Every asset has a descriptor. *)
Definition history_wf (h : list asset_descriptor_operation) : Prop :=
  h <> [] /\ Forall (fun ado => exists d, ado_opt_descriptor ado = Some d /\ adb_ok d) h.
Definition assets_wf (s : assets_db) : Prop := map_Forall (fun _ => history_wf) s.

Lemma get_id_spec ado b s id pt s' : get_or_calculate_asset_id ado b s = (Ok (id, pt), s') ->
  s' = s /\ asset_id_of ado = Some id.
Proof.
  intros E. split; [by eapply ro_run; [apply get_or_calculate_asset_id_ro|]|]. revert E.
  unfold get_or_calculate_asset_id, asset_id_of. destruct (_ || _ || _).
  - intros E. st_inv E. destruct b; st_inv E; by simplify_eq.
  - destruct (_ =? _); [|by intros E; st_inv E]. intros E. st_inv E. simplify_eq/=.
    by match goal with Hd : ado_opt_descriptor ado = _ |- _ => rewrite Hd end.
Qed.

Lemma get_id_false ado s id : asset_id_of ado = Some id -> exists pt, get_or_calculate_asset_id ado false s = (Ok (id, pt), s).
Proof.
  unfold get_or_calculate_asset_id, asset_id_of. destruct (_ || _ || _).
  - intros ->. by eexists.
  - destruct (_ =? _); [|done]. destruct (ado_opt_descriptor ado); [|done]. intros [= <-]. by eexists.
Qed.

Lemma validate_ado_ownership_ok tx tx_id height h s u s' last_ado d :
  validate_ado_ownership tx tx_id height h s = (Ok u, s') -> last h = Some last_ado -> ado_opt_descriptor last_ado = Some d ->
  owner_approved (hf5_at height) tx tx_id d.
Proof.
  intros E Hl Hd. unfold validate_ado_ownership in E. rewrite Hl in E. erewrite bind_eq in E by reflexivity.
  rewrite Hd in E. erewrite bind_eq in E by reflexivity. rewrite (bind_eq _ _ _ _ _ (active_hf5 height s)) in E. unfold owner_approved.
  destruct (if hf5_at height then adb_owner_eth_pub_key d else None) as [k|]; st_inv E.
  - split; [by apply bool_decide_eq_true in H1|]. eauto.
  - eauto.
Qed.

(** What both validations establish: a registration of a new asset, or an
    operation, approved by the owner where one is needed, on a registered one. *)
Definition checked (hf5 : bool) (tx : transaction) (tx_id : hash) (ado : asset_descriptor_operation)
    (hist : option (list asset_descriptor_operation)) (P : asset_descriptor_base -> Prop) : Prop :=
  (ado_operation_type ado = ASSET_DESCRIPTOR_OPERATION_REGISTER /\ hist = None /\
    exists d, ado_opt_descriptor ado = Some d /\ (hf5 = true -> adb_current_supply d <= adb_total_max_supply d)) \/
  (ado_operation_type ado <> ASSET_DESCRIPTOR_OPERATION_REGISTER /\
    exists h last_ado d, hist = Some h /\ last h = Some last_ado /\ ado_opt_descriptor last_ado = Some d /\
      (needs_owner ado = true -> owner_approved hf5 tx tx_id d) /\ P d).

Lemma validate_hf5_ok tx tx_id ado height s id hist s' :
  validate_asset_operation_hf5 tx tx_id ado height s = (Ok (id, hist), s') ->
  hf5_at height = true /\ asset_id_of ado = Some id /\ hist = s !! id /\
  checked true tx tx_id ado hist (fun d => exists hf6 m, hf5_checks ado d hf6 s = (Ok m, s)).
Proof.
  intros E. unfold validate_asset_operation_hf5 in E. rewrite (bind_eq _ _ _ _ _ (active_hf5 height s)) in E.
  destruct (hf5_at height) eqn:E5.
  2: { erewrite bind_eq in E by reflexivity. by st_inv E. }
  erewrite bind_eq in E by reflexivity. erewrite bind_eq in E by reflexivity.
  apply bind_ok in E as ([id' pt] & s1 & Eid & E). apply get_id_spec in Eid as [-> Eid]. erewrite bind_eq in E by reflexivity.
  apply bind_ok in E as (amount & s2 & Ec & E). st_inv E. simplify_eq/=. split; [done|]. split; [done|]. split; [done|].
  destruct (_ =? ASSET_DESCRIPTOR_OPERATION_REGISTER) eqn:Er; zbool.
  - left. split; [done|]. destruct (s !! id); [by st_inv Ec|]. st_inv Ec. split; [done|]. simplify_eq/=. eexists. split; [done|]. intros _.
    match goal with Hv : validate_ado_initial _ _ = true |- _ => unfold validate_ado_initial in Hv; apply andb_true_iff in Hv as [Hv _] end.
    by zbool.
  - right. split; [done|]. apply bind_ok in Ec as (h & ? & [Eh <-]%some_ok & Ec).
    apply bind_ok in Ec as (last_ado & ? & [El <-]%some_ok & Ec). apply bind_ok in Ec as (d & ? & [Ed <-]%some_ok & Ec).
    apply bind_ok in Ec as (u & s3 & Eo & Ec). exists h, last_ado, d. split; [done|]. split; [done|]. split; [done|].
    assert (s3 = s) as ->.
    { destruct (needs_owner ado); [by eapply ro_run; [apply validate_ado_ownership_ro|]|by st_inv Eo]. }
    split.
    + intros Hn. rewrite Hn in Eo. rewrite <- E5. by eapply validate_ado_ownership_ok.
    + assert (s2 = s) as -> by (eapply ro_run; [apply hf5_checks_ro|exact Ec]). eauto.
Qed.

Lemma validate_hf4_ok tx tx_id ado height s id hist s' :
  validate_asset_operation_hf4 tx tx_id ado height s = (Ok (id, hist), s') ->
  hf5_at height = false /\ asset_id_of ado = Some id /\ hist = s !! id /\
  checked false tx tx_id ado hist (fun d => exists d' m, ado_opt_descriptor ado = Some d' /\ hf4_checks ado d d' s = (Ok m, s)).
Proof.
  intros E. unfold validate_asset_operation_hf4 in E. rewrite (bind_eq _ _ _ _ _ (active_hf5 height s)) in E.
  destruct (hf5_at height) eqn:E5; [by st_inv E|].
  erewrite bind_eq in E by reflexivity.
  apply bind_ok in E as ([id' pt] & s1 & Eid & E). apply get_id_spec in Eid as [-> Eid]. erewrite bind_eq in E by reflexivity.
  apply bind_ok in E as (amount & s2 & Ec & E). st_inv E. simplify_eq/=. split; [done|]. split; [done|]. split; [done|].
  destruct (_ =? ASSET_DESCRIPTOR_OPERATION_REGISTER) eqn:Er; zbool.
  - left. split; [done|]. destruct (s !! id); [by st_inv Ec|]. st_inv Ec. split; [done|]. simplify_eq/=. by eexists.
  - right. split; [done|]. apply bind_ok in Ec as (h & ? & [Eh <-]%some_ok & Ec).
    apply bind_ok in Ec as (last_ado & ? & [El <-]%some_ok & Ec). apply bind_ok in Ec as (d & ? & [Ed <-]%some_ok & Ec).
    apply bind_ok in Ec as (d' & ? & [Ed' <-]%some_ok & Ec).
    apply bind_ok in Ec as (u & s3 & Eo & Ec). exists h, last_ado, d. split; [done|]. split; [done|]. split; [done|].
    assert (s3 = s) as ->.
    { destruct (needs_owner ado); [by eapply ro_run; [apply validate_ado_ownership_ro|]|by st_inv Eo]. }
    split.
    + intros Hn. rewrite Hn in Eo. rewrite <- E5. by eapply validate_ado_ownership_ok.
    + assert (s2 = s) as -> by (eapply ro_run; [apply hf4_checks_ro|exact Ec]). eauto.
Qed.

(** *** Histories *)

Lemma history_snoc (h : list asset_descriptor_operation) a : last h = Some a -> h = removelast h ++ [a].
Proof.
  intros Hl. destruct h as [|x h _] using rev_ind; [done|]. rewrite last_snoc in Hl. injection Hl as ->. by rewrite removelast_snoc.
Qed.

Lemma change_last_supply_eq f h last_ado d : last h = Some last_ado -> ado_opt_descriptor last_ado = Some d ->
  change_last_supply f h = removelast h ++ [set_descriptor (set_current_supply (f (adb_current_supply d)) d) last_ado].
Proof. intros Hl Hd. unfold change_last_supply. by rewrite Hl, Hd. Qed.

Lemma change_last_supply_undo f g h last_ado d : last h = Some last_ado -> ado_opt_descriptor last_ado = Some d ->
  g (f (adb_current_supply d)) = adb_current_supply d -> change_last_supply g (change_last_supply f h) = h.
Proof.
  intros Hl Hd Hg. rewrite (change_last_supply_eq f h last_ado d) by done. erewrite change_last_supply_eq; [|apply last_snoc|reflexivity].
  rewrite removelast_snoc. cbn. rewrite Hg. transitivity (removelast h ++ [last_ado]); [|by rewrite <- history_snoc]. do 2 f_equal.
  destruct last_ado, d. cbn in *. by subst.
Qed.

Lemma latest_snoc h a : latest (Some (h ++ [a])) = ado_opt_descriptor a.
Proof. unfold latest. cbn. by rewrite last_snoc. Qed.

Lemma latest_of h last_ado d : last h = Some last_ado -> ado_opt_descriptor last_ado = Some d -> latest (Some h) = Some d.
Proof. intros Hl Hd. unfold latest. cbn. rewrite Hl. exact Hd. Qed.

Lemma latest_wf s id d : assets_wf s -> latest (s !! id) = Some d -> adb_ok d.
Proof.
  unfold latest. intros Hs E. destruct (s !! id) as [h|] eqn:Eh; [|done]. cbn in E. destruct (Hs _ _ Eh) as [_ Hf].
  destruct (last h) as [a|] eqn:El; [|done]. cbn in E. apply last_Some_elem_of in El. rewrite Forall_forall in Hf.
  destruct (Hf a El) as (d' & E' & Hd). rewrite E in E'. by injection E' as ->.
Qed.

Lemma snoc_wf s id ado d : assets_wf s -> ado_opt_descriptor ado = Some d -> adb_ok d -> history_wf (default [] (s !! id) ++ [ado]).
Proof.
  intros Hs Hd Hok. split; [by destruct (default [] (s !! id))|]. apply Forall_app. split; [|repeat constructor; eauto].
  destruct (s !! id) as [h|] eqn:E; [apply (Hs _ _ E)|constructor].
Qed.

Lemma change_wf f h last_ado d : history_wf h -> last h = Some last_ado -> ado_opt_descriptor last_ado = Some d ->
  is_u64 (f (adb_current_supply d)) -> history_wf (change_last_supply f h).
Proof.
  intros [Hn Hf] Hl Hd Hr. erewrite change_last_supply_eq by done. split; [by destruct (removelast h)|].
  rewrite (history_snoc h last_ado Hl) in Hf. apply Forall_app in Hf as [Hf Hf1]. apply Forall_app. split; [done|].
  repeat constructor. eexists. split; [reflexivity|]. apply Forall_inv in Hf1 as (d' & Hd' & Hok). rewrite Hd in Hd'.
  injection Hd' as <-. split; [done|apply Hok].
Qed.

(** *** Undoing *)

Lemma pop_run ado height id h last_ado s : asset_id_of ado = Some id -> s !! id = Some h -> last h = Some last_ado ->
  forall history,
  (if hf5_at height then
     last_adb ← some (ado_opt_descriptor last_ado);
     if ado_operation_type ado =? ASSET_DESCRIPTOR_OPERATION_EMIT then
       if adb_hidden_supply last_adb then fail
       else
         amount ← some (ado_opt_amount ado);
         mret (change_last_supply (fun n => u64 (n - amount)) h)
     else if ado_operation_type ado =? ASSET_DESCRIPTOR_OPERATION_PUBLIC_BURN then
       if adb_hidden_supply last_adb then fail
       else
         amount ← some (ado_opt_amount ado);
         mret (change_last_supply (fun n => u64 (n + amount)) h)
     else if (ado_operation_type ado =? ASSET_DESCRIPTOR_OPERATION_REGISTER) ||
             (ado_operation_type ado =? ASSET_DESCRIPTOR_OPERATION_UPDATE) then mret (removelast h)
     else fail
   else mret (removelast h)) s = (Ok history, s) ->
  pop_asset_info ado height s = (Ok tt, match history with [] => delete id s | _ => <[id := history]> s end).
Proof.
  intros Eid Eh El history Hrun. unfold pop_asset_info. destruct (get_id_false ado s id Eid) as (pt & Eg).
  rewrite (bind_eq _ _ _ _ _ Eg). erewrite bind_eq by reflexivity. rewrite Eh. erewrite bind_eq by reflexivity.
  rewrite El. erewrite bind_eq by reflexivity. rewrite (bind_eq _ _ _ _ _ (active_hf5 height s)).
  erewrite bind_eq by exact Hrun. reflexivity.
Qed.

Lemma insert_back (id : public_key) (s : assets_db) (h : list asset_descriptor_operation) : s !! id <> Some [] ->
  match default [] (s !! id) with [] => delete id (<[id := h]> s) | _ => <[id := default [] (s !! id)]> (<[id := h]> s) end = s.
Proof.
  intros Hne. destruct (s !! id) as [[|x l]|] eqn:E; cbn; [done| |].
  - rewrite insert_insert_eq. by apply insert_id.
  - by apply delete_insert_id.
Qed.

Lemma pop_appended ado height id d s : asset_id_of ado = Some id -> assets_wf s -> ado_opt_descriptor ado = Some d ->
  (hf5_at height = true -> ado_operation_type ado = ASSET_DESCRIPTOR_OPERATION_REGISTER \/ ado_operation_type ado = ASSET_DESCRIPTOR_OPERATION_UPDATE) ->
  pop_asset_info ado height (<[id := default [] (s !! id) ++ [ado]]> s) = (Ok tt, s).
Proof.
  intros Eid Hs Hd Ht. rewrite (pop_run ado height id (default [] (s !! id) ++ [ado]) ado) with (history := default [] (s !! id));
    [|done|apply lookup_insert_eq|apply last_snoc|].
  - f_equal. apply insert_back. intros E. by destruct (Hs _ _ E).
  - rewrite removelast_snoc, Hd. destruct (hf5_at height); [|done]. erewrite bind_eq by reflexivity. by destruct Ht as [->| ->].
Qed.

(** *** The checks give the transitions *)

Lemma update_allowed_same new_ado prev_ado hf6 : validate_ado_update_allowed new_ado prev_ado hf6 = true ->
  same_asset prev_ado new_ado /\ adb_current_supply new_ado <= adb_total_max_supply prev_ado.
Proof.
  unfold validate_ado_update_allowed, same_asset. intros E. zbool. repeat match goal with
  | Hd : bool_decide _ = true |- _ => apply bool_decide_eq_true in Hd
  | He : Bool.eqb _ _ = true |- _ => apply Bool.eqb_prop in He
  end. done.
Qed.

Lemma u64_add_checked c a : is_u64 c -> is_u64 a -> c <= u64 (c + a) -> u64 (c + a) = c + a.
Proof.
  intros Hc Ha Hle. apply wrap_small. unfold in_u in *. destruct (Z.lt_ge_cases (c + a) (2 ^ 64)); [lia|].
  unfold wrap in Hle. rewrite <- (Z.mod_add (c + a) (-1)), Z.mod_small in Hle; lia.
Qed.

Lemma u64_sub_checked c a : is_u64 c -> is_u64 a -> u64 (c - a) <= c -> u64 (c - a) = c - a /\ a <= c.
Proof.
  intros Hc Ha Hle. destruct (Z.lt_ge_cases c a).
  - unfold in_u, wrap in *. rewrite <- (Z.mod_add (c - a) 1), Z.mod_small in Hle; lia.
  - split; [|lia]. apply wrap_small. unfold in_u in *. lia.
Qed.

Lemma hf5_checks_ok ado d hf6 s m s' : hf5_checks ado d hf6 s = (Ok m, s') ->
  (ado_operation_type ado = ASSET_DESCRIPTOR_OPERATION_UPDATE /\
     exists d', ado_opt_descriptor ado = Some d' /\ adb_current_supply d' = adb_current_supply d /\ same_asset d d') \/
  (ado_operation_type ado = ASSET_DESCRIPTOR_OPERATION_EMIT /\ (adb_hidden_supply d = false -> exists a, ado_opt_amount ado = Some a /\
     adb_current_supply d <= u64 (adb_current_supply d + a) <= adb_total_max_supply d)) \/
  (ado_operation_type ado = ASSET_DESCRIPTOR_OPERATION_PUBLIC_BURN /\ (adb_hidden_supply d = false -> exists a, ado_opt_amount ado = Some a /\
     u64 (adb_current_supply d - a) <= adb_current_supply d)).
Proof.
  unfold hf5_checks. intros E. destruct (_ =? ASSET_DESCRIPTOR_OPERATION_UPDATE) eqn:E1.
  { zbool. left. split; [done|]. st_inv E. zbool. eexists. split; [done|]. split; [done|]. by eapply update_allowed_same. }
  destruct (_ =? ASSET_DESCRIPTOR_OPERATION_EMIT) eqn:E2.
  { zbool. right; left. split; [done|]. intros Hh. rewrite Hh in E. st_inv E. zbool. by eexists. }
  destruct (_ =? ASSET_DESCRIPTOR_OPERATION_PUBLIC_BURN) eqn:E3; [|done].
  zbool. right; right. split; [done|]. intros Hh. rewrite Hh in E. st_inv E. zbool. by eexists.
Qed.

Lemma hf4_checks_ok tx tx_id ado d d' s m s' : hf4_checks ado d d' s = (Ok m, s') -> ado_opt_descriptor ado = Some d' ->
  (needs_owner ado = true -> owner_approved false tx tx_id d) -> asset_transition false tx tx_id ado (Some d) d'.
Proof.
  unfold hf4_checks, needs_owner. intros E Hd Ho. destruct (_ =? ASSET_DESCRIPTOR_OPERATION_UPDATE) eqn:E1.
  { rewrite orb_true_r in Ho. specialize (Ho eq_refl). zbool. st_inv E. zbool. apply AtUpdate; try done. by eapply update_allowed_same. }
  destruct (_ =? ASSET_DESCRIPTOR_OPERATION_EMIT) eqn:E2.
  { specialize (Ho eq_refl). zbool. st_inv E. zbool.
    match goal with Hu : validate_ado_update_allowed _ _ _ = true |- _ => apply update_allowed_same in Hu as [Hs Hle] end.
    by apply AtEmit4. }
  destruct (_ =? ASSET_DESCRIPTOR_OPERATION_PUBLIC_BURN) eqn:E3; [|done]. zbool. st_inv E. zbool.
  match goal with Hu : validate_ado_update_allowed _ _ _ = true |- _ => apply update_allowed_same in Hu as [Hs Hle] end.
  by apply AtBurn4.
Qed.

(** What putting an operation comes to, at the asset [id]. *)
Definition put_result (tx : transaction) (tx_id : hash) (ado : asset_descriptor_operation) (height : Z) (s s' : assets_db) : Prop :=
  exists id h' d', asset_id_of ado = Some id /\ s' = <[id := h']> s /\ history_wf h' /\ latest (Some h') = Some d' /\
    asset_transition (hf5_at height) tx tx_id ado (latest (s !! id)) d' /\ pop_asset_info ado height s' = (Ok tt, s).

(** A descriptor is appended. *)
Lemma put_appends tx tx_id ado height s id d' : assets_wf s -> ado_ok ado -> asset_id_of ado = Some id ->
  ado_opt_descriptor ado = Some d' -> asset_transition (hf5_at height) tx tx_id ado (latest (s !! id)) d' ->
  (hf5_at height = true -> ado_operation_type ado = ASSET_DESCRIPTOR_OPERATION_REGISTER \/ ado_operation_type ado = ASSET_DESCRIPTOR_OPERATION_UPDATE) ->
  put_result tx tx_id ado height s (<[id := default [] (s !! id) ++ [ado]]> s).
Proof.
  intros Hs [Hok _] Eid Hd Ht Hc. exists id, (default [] (s !! id) ++ [ado]), d'. split; [done|]. split; [done|].
  split; [eapply snoc_wf; eauto|]. split; [by rewrite latest_snoc|]. split; [done|]. by eapply pop_appended.
Qed.

(** The supply in the latest descriptor is changed. *)
Lemma put_changes tx tx_id ado height s id h last_ado d f g : assets_wf s -> hf5_at height = true -> asset_id_of ado = Some id ->
  s !! id = Some h -> last h = Some last_ado -> ado_opt_descriptor last_ado = Some d ->
  is_u64 (f (adb_current_supply d)) -> g (f (adb_current_supply d)) = adb_current_supply d ->
  asset_transition true tx tx_id ado (Some d) (set_current_supply (f (adb_current_supply d)) d) ->
  (forall s2 : assets_db, (if ado_operation_type ado =? ASSET_DESCRIPTOR_OPERATION_EMIT then
     if adb_hidden_supply d then fail
     else
       amount ← some (ado_opt_amount ado);
       mret (change_last_supply (fun n => u64 (n - amount)) (change_last_supply f h))
   else if ado_operation_type ado =? ASSET_DESCRIPTOR_OPERATION_PUBLIC_BURN then
     if adb_hidden_supply d then fail
     else
       amount ← some (ado_opt_amount ado);
       mret (change_last_supply (fun n => u64 (n + amount)) (change_last_supply f h))
   else fail : st assets_db _) s2 = (Ok (change_last_supply g (change_last_supply f h)), s2)) ->
  put_result tx tx_id ado height s (<[id := change_last_supply f h]> s).
Proof.
  intros Hs E5 Eid Eh El Ed Hr Hg Ht Hpop. destruct (Hs _ _ Eh) as [Hne Hf].
  pose proof (change_last_supply_eq f h last_ado d El Ed) as Ec.
  exists id, (change_last_supply f h), (set_current_supply (f (adb_current_supply d)) d). split; [done|]. split; [done|].
  split; [by eapply change_wf|]. split; [by rewrite Ec, latest_snoc|]. rewrite E5, Eh. split; [by erewrite latest_of|].
  rewrite (pop_run ado height id (change_last_supply f h) (set_descriptor (set_current_supply (f (adb_current_supply d)) d) last_ado))
    with (history := h).
  - f_equal. destruct h as [|x l]; [done|]. rewrite insert_insert_eq. by apply insert_id.
  - done.
  - apply lookup_insert_eq.
  - rewrite Ec. apply last_snoc.
  - rewrite E5. erewrite bind_eq by reflexivity. specialize (Hpop (<[id := change_last_supply f h]> s)).
    rewrite (change_last_supply_undo f g h last_ado d) in Hpop by done. cbn [adb_hidden_supply set_current_supply].
    destruct (_ =? ASSET_DESCRIPTOR_OPERATION_EMIT); [exact Hpop|].
    destruct (_ =? ASSET_DESCRIPTOR_OPERATION_PUBLIC_BURN); [exact Hpop|done].
Qed.

Lemma put_asset_info_ok tx tx_id ado height s u s' : assets_wf s -> ado_ok ado ->
  put_asset_info tx tx_id ado height s = (Ok u, s') -> put_result tx tx_id ado height s s'.
Proof.
  intros Hs Hok E. unfold put_asset_info in E. apply bind_ok in E as ([id hist] & s1 & Ev & E).
  pose proof (ro_run _ _ _ _ (validate_asset_operation_ro tx tx_id ado height) Ev) as ->.
  rewrite (bind_eq _ _ _ _ _ (active_hf5 height s)) in E. unfold validate_asset_operation in Ev.
  rewrite (bind_eq _ _ _ _ _ (active_hf5 height s)) in Ev. destruct (hf5_at height) eqn:E5.
  - apply validate_hf5_ok in Ev as (_ & Eid & -> & [(Et & En & d & Hd & Hle)|(Et & h & last_ado & d & Eh & El & Ed & Ho & hf6 & m & Hc)]).
    + rewrite Et, Hd in E. cbn in E. erewrite bind_eq in E by reflexivity. st_inv E. eapply put_appends; eauto.
      rewrite En, E5. by apply AtRegister.
    + rewrite Eh in E. cbn [default from_option] in E. unfold Datatypes.id in E. rewrite (proj2 (Z.eqb_neq _ _) Et), El in E.
      apply bind_ok in E as (h' & s2 & E & Eu). apply update_ok in Eu as <-.
      erewrite bind_eq in E by reflexivity. rewrite Ed in E. erewrite bind_eq in E by reflexivity.
      assert (Hd : adb_ok d) by (eapply latest_wf; [done|]; rewrite Eh; by eapply latest_of). destruct Hd as [Hcur Hmax].
      assert (Hlat : latest (s !! id) = Some d) by (rewrite Eh; by eapply latest_of). unfold needs_owner in Ho.
      destruct (hf5_checks_ok _ _ _ _ _ _ Hc) as [(Et' & d' & Hd' & Hcs & Hsame)|[(Et' & Ha)|(Et' & Ha)]]; rewrite Et' in E, Ho; cbn in E, Ho.
      * apply ret_ok in E as [<- <-]. replace h with (default [] (s !! id)) by (by rewrite Eh). eapply put_appends; eauto.
        rewrite Hlat, E5. apply AtUpdate; try done. by apply Ho.
      * destruct (adb_hidden_supply d) eqn:Ehid; [done|]. destruct (Ha eq_refl) as (a & Ea & Hle).
        rewrite Ea in E. erewrite bind_eq in E by reflexivity. apply ret_ok in E as [<- <-].
        pose proof (proj2 Hok _ Ea) as Hau. destruct Hle as [Hle1 Hle2]. pose proof (u64_add_checked _ _ Hcur Hau Hle1) as Hadd.
        eapply (put_changes _ _ _ _ _ _ _ _ _ _ (fun n => u64 (n - a))); eauto.
        -- apply wrap_range. lia.
        -- rewrite Hadd. replace (adb_current_supply d + a - a) with (adb_current_supply d) by lia. by apply wrap_small.
        -- rewrite Hadd in *. by apply AtEmit; [..|lia]; try done; apply Ho.
        -- intros s2. by rewrite Et', Ehid, Ea.
      * destruct (adb_hidden_supply d) eqn:Ehid; [done|]. destruct (Ha eq_refl) as (a & Ea & Hle).
        rewrite Ea in E. erewrite bind_eq in E by reflexivity. apply ret_ok in E as [<- <-].
        pose proof (proj2 Hok _ Ea) as Hau. destruct (u64_sub_checked _ _ Hcur Hau Hle) as [Hsub Hle'].
        eapply (put_changes _ _ _ _ _ _ _ _ _ _ (fun n => u64 (n + a))); eauto.
        -- apply wrap_range. lia.
        -- rewrite Hsub. replace (adb_current_supply d - a + a) with (adb_current_supply d) by lia. by apply wrap_small.
        -- rewrite Hsub. by apply AtBurn.
        -- intros s2. by rewrite Et', Ehid, Ea.
  - apply validate_hf4_ok in Ev as (_ & Eid & -> & [(Et & En & d & Hd & Hle)|(Et & h & last_ado & d & Eh & El & Ed & Ho & d' & m & Hd' & Hc)]);
      st_inv E; eapply put_appends; eauto; rewrite ?E5.
    + rewrite En. by apply AtRegister.
    + rewrite Eh, (latest_of h last_ado d El Ed). by eapply hf4_checks_ok.
    + by intros.
Qed.

End assets.

(** C25: Putting an asset operation follows the rules of the supply: it is
    accepted only for a new asset whose supply, from hard fork 5 on, does not
    exceed the maximum; for an update or an emission that the owner named by the
    latest descriptor approved, which keeps the supply or raises it within the
    maximum; or for a burn of no more than the supply.  It changes one asset, never
    its maximum, ticker, name or decimal point.  A refused operation changes nothing. *)
Theorem asset_operation_follows_rules `{GatewayCrypto, AssetCrypto} hard_forks tx tx_id ado height s :
  assets_wf s -> ado_ok ado ->
  match put_asset_info hard_forks tx tx_id ado height s with
  | (Ok _, s') => assets_wf s' /\ exists id h' d', asset_id_of ado = Some id /\ s' = <[id := h']> s /\ latest (Some h') = Some d' /\
      asset_transition (hf5_at hard_forks height) tx tx_id ado (latest (s !! id)) d'
  | (_, s') => s' = s
  end.
Proof.
  intros Hs Hok. pose proof (put_asset_info_atomic hard_forks tx tx_id ado height s) as Ha.
  pose proof (put_asset_info_ok hard_forks tx tx_id ado height s) as Hp.
  destruct (put_asset_info hard_forks tx tx_id ado height s) as [[u| |] s']; [|exact Ha..].
  destruct (Hp u s' Hs Hok eq_refl) as (id & h' & d' & Eid & -> & Hwf & Hl & Ht & _).
  split; [by apply map_Forall_insert_2|]. by exists id, h', d'.
Qed.

(** Undoing an accepted asset operation at the height it was accepted at
    restores the database exactly. *)
Theorem asset_operation_undone `{GatewayCrypto, AssetCrypto} hard_forks tx tx_id ado height s u s' :
  assets_wf s -> ado_ok ado -> put_asset_info hard_forks tx tx_id ado height s = (Ok u, s') ->
  pop_asset_info hard_forks ado height s' = (Ok tt, s).
Proof. intros Hs Hok E. by destruct (put_asset_info_ok hard_forks tx tx_id ado height s u s' Hs Hok E) as (id & h' & d' & _ & _ & _ & _ & _ & Hp). Qed.

(** ** The supply over time *)

Record asset_event : Type := { ev_tx : transaction; ev_tx_id : hash; ev_ado : asset_descriptor_operation; ev_height : Z }.

Definition supply_bounded (s : assets_db) : Prop :=
  forall id d, latest (s !! id) = Some d -> 0 <= adb_current_supply d <= adb_total_max_supply d.

(** Accepted or refused, one after the other. *)
Definition put_events `{GatewayCrypto, AssetCrypto} (hard_forks : hard_forks_descriptor) (l : list asset_event) : st assets_db unit :=
  for_each (fun ev => _ ← attempt (put_asset_info hard_forks (ev_tx ev) (ev_tx_id ev) (ev_ado ev) (ev_height ev)); mret tt) l.

Lemma transition_bounded `{GatewayCrypto, AssetCrypto} tx tx_id ado od d' : asset_transition true tx tx_id ado od d' -> ado_ok ado ->
  (forall d, od = Some d -> 0 <= adb_current_supply d <= adb_total_max_supply d) -> 0 <= adb_current_supply d' <= adb_total_max_supply d'.
Proof.
  intros Ht [Hd Ha] Hb. destruct Ht as [d _ Ed Hle|d d' _ _ Ed Hc Hs|d a _ _ _ Ea _ Hle|d a _ _ Ea _ Hle|d d' H5 _ _ _ _ _|d d' H5 _ _ _ _]; [..|done|done].
  - specialize (Hle eq_refl). destruct (Hd _ Ed) as [Hr _]. unfold in_u in Hr. lia.
  - specialize (Hb d eq_refl). destruct Hs as (Hm & _). lia.
  - specialize (Hb d eq_refl). specialize (Ha _ Ea). unfold in_u in Ha. cbn. lia.
  - specialize (Hb d eq_refl). specialize (Ha _ Ea). unfold in_u in Ha. cbn. lia.
Qed.

(** C26: From hard fork 5 on, whatever operations are tried in whatever order,
    the supply of every asset stays between zero and its maximum. *)
Theorem asset_supply_bounded `{GatewayCrypto, AssetCrypto} hard_forks l s r s' :
  assets_wf s -> supply_bounded s -> Forall (fun ev => ado_ok (ev_ado ev) /\ hf5_at hard_forks (ev_height ev) = true) l ->
  put_events hard_forks l s = (r, s') -> assets_wf s' /\ supply_bounded s'.
Proof.
  intros Hs Hb Hl E. eapply (for_each_inv (fun s => assets_wf s /\ supply_bounded s)); [|split; [exact Hs|exact Hb]|exact E].
  intros ev s1 r1 s2 Hin [Hs1 Hb1] E1. rewrite Forall_forall in Hl. destruct (Hl ev Hin) as [Hok H5].
  pose proof (put_asset_info_atomic hard_forks (ev_tx ev) (ev_tx_id ev) (ev_ado ev) (ev_height ev) s1) as Ha.
  pose proof (put_asset_info_ok hard_forks (ev_tx ev) (ev_tx_id ev) (ev_ado ev) (ev_height ev) s1) as Hp.
  unfold mbind, st_bind, attempt in E1. destruct (put_asset_info _ _ _ _ _ s1) as [[u| |] s3]; injection E1 as <- <-; [|by subst..].
  destruct (Hp u s3 Hs1 Hok eq_refl) as (id & h' & d' & _ & -> & Hwf & Hl' & Ht & _). rewrite H5 in Ht.
  split; [by apply map_Forall_insert_2|]. intros id' d Ed. destruct (decide (id' = id)) as [->|Hne].
  - rewrite lookup_insert_eq, Hl' in Ed. injection Ed as <-. by eapply transition_bounded; [done|done|]; eauto.
  - rewrite lookup_insert_ne in Ed by done. by eapply Hb1.
Qed.

(** ** Examples *)

(** Keys are points, every registered asset gets the same identifier, and every
    commitment proof is good. *)
Definition demo_asset_crypto : AssetCrypto := {|
  point := public_key; hp := fun _ => demo_key 5; to_public_key := fun p => p; from_public_key := Some;
  modify_mul8 := fun p => p; point_sub := fun p _ => p; point_scale := fun _ p => p; point_add := fun p q => q;
  point_0 := []; point_eqb := fun p q => bool_decide (p = q); native_coin_asset_id_pt := demo_key 6; check_signature := fun _ _ _ => true
|}.
#[local] Existing Instance demo_crypto.
#[local] Existing Instance demo_asset_crypto.

(** Hard fork 5 is active after height 100. *)
Definition demo_forks : hard_forks_descriptor := [0; 0; 0; 0; 0; 100; 200; 300].

Definition demo_adb (supply max owner : Z) : asset_descriptor_base := {|
  adb_version := 0; adb_total_max_supply := max; adb_current_supply := supply; adb_decimal_point := 2; adb_ticker := chars "ABC";
  adb_full_name := chars "Example"; adb_meta_info := []; adb_owner := demo_key owner; adb_hidden_supply := false;
  adb_owner_eth_pub_key := None; adb_etc := [] |}.
Definition demo_ado (type : Z) (adb : option asset_descriptor_base) (amount : option Z) : asset_descriptor_operation := {|
  ado_operation_type := type; ado_version := 2; ado_opt_amount_commitment := Some (demo_key 8);
  ado_opt_asset_id := if type =? 1 then None else Some (demo_key 5); ado_opt_descriptor := adb; ado_opt_amount := amount;
  ado_opt_asset_id_salt := None; ado_etc := [] |}.
Definition demo_asset_tx (signer : Z) : transaction := {|
  tx_prefix := {| tp_version := 4; tp_hardfork_id := 6; tp_vin := []; tp_extra := []; tp_vout := [] |};
  tx_attachment := []; tx_signatures := [];
  tx_proofs := [proof_asset_operation {| aop_version := 0; aop_opt_amount_commitment_composition_proof := None;
                                         aop_opt_amount_commitment_g_proof := Some [] |};
                proof_asset_operation_ownership {| aoop_version := 0; aoop_gss := {| gss_c := demo_key 0; gss_y := demo_key signer |} |}] |}.

Definition demo_put (signer : Z) (ado : asset_descriptor_operation) (height : Z) : st assets_db unit :=
  put_asset_info demo_forks (demo_asset_tx signer) (demo_key 7) ado height.

Definition demo_assets (supply : Z) : assets_db := {[demo_key 5 := [demo_ado 1 (Some (demo_adb supply 100 2)) (Some 60)]]}.

Lemma demo_assets_wf supply : is_u64 supply -> assets_wf (demo_assets supply).
Proof.
  intros Hs. apply map_Forall_singleton. split; [done|]. repeat constructor. eexists. split; [reflexivity|].
  split; [done|]. cbn. unfold in_u. lia.
Qed.

Lemma demo_ado_ok type adb amount : (forall d, adb = Some d -> adb_ok d) -> (forall a, amount = Some a -> is_u64 a) -> ado_ok (demo_ado type adb amount).
Proof. by split. Qed.

(** The owner emits 30 and the supply is 90; nobody emits 50 more. *)
Example asset_operation_follows_rules_witness :
  (exists s', demo_put 2 (demo_ado 2 None (Some 30)) 150 (demo_assets 60) = (Ok tt, s') /\
     latest (s' !! demo_key 5) = Some (demo_adb 90 100 2)) /\
  demo_put 2 (demo_ado 2 None (Some 50)) 150 (demo_assets 60) = (Fail, demo_assets 60).
Proof.
  assert (Hok : forall n, is_u64 n -> ado_ok (demo_ado 2 None (Some n))) by (intros n Hn; apply demo_ado_ok; [done|by intros a [= <-]]).
  assert (E1 : fst (demo_put 2 (demo_ado 2 None (Some 30)) 150 (demo_assets 60)) = Ok tt) by reflexivity.
  assert (E2 : fst (demo_put 2 (demo_ado 2 None (Some 50)) 150 (demo_assets 60)) = Fail) by reflexivity.
  assert (E3 : latest (snd (demo_put 2 (demo_ado 2 None (Some 30)) 150 (demo_assets 60)) !! demo_key 5) = Some (demo_adb 90 100 2)) by reflexivity.
  pose proof (asset_operation_follows_rules demo_forks (demo_asset_tx 2) (demo_key 7) (demo_ado 2 None (Some 50)) 150 (demo_assets 60)) as H.
  change (put_asset_info demo_forks (demo_asset_tx 2) (demo_key 7) (demo_ado 2 None (Some 50)) 150) with (demo_put 2 (demo_ado 2 None (Some 50)) 150) in H.
  revert E1 E2 E3 H. destruct (demo_put 2 (demo_ado 2 None (Some 30)) 150 (demo_assets 60)) as [r s'].
  destruct (demo_put 2 (demo_ado 2 None (Some 50)) 150 (demo_assets 60)) as [r2 s2]. cbn [fst snd]. intros -> -> E3 H.
  split; [by exists s'|]. f_equal. apply H; [apply demo_assets_wf; unfold in_u; lia|apply Hok; unfold in_u; lia].
Defined.

Example asset_operation_undone_witness :
  exists s', demo_put 9 (demo_ado 4 None (Some 25)) 150 (demo_assets 60) = (Ok tt, s') /\
    pop_asset_info demo_forks (demo_ado 4 None (Some 25)) 150 s' = (Ok tt, demo_assets 60).
Proof.
  assert (E1 : fst (demo_put 9 (demo_ado 4 None (Some 25)) 150 (demo_assets 60)) = Ok tt) by reflexivity.
  destruct (demo_put 9 (demo_ado 4 None (Some 25)) 150 (demo_assets 60)) as [r s'] eqn:E. cbn in E1. subst r. exists s'.
  split; [done|]. apply (asset_operation_undone demo_forks (demo_asset_tx 9) (demo_key 7) _ 150 (demo_assets 60) tt s').
  - apply demo_assets_wf. unfold in_u. lia.
  - apply demo_ado_ok; [done|]. intros a [= <-]. unfold in_u. lia.
  - exact E.
Defined.

(** A registration of 40 of 100, an emission of 70 that is refused, a burn of 30. *)
Example asset_supply_bounded_witness :
  let ev := fun ado => {| ev_tx := demo_asset_tx 2; ev_tx_id := demo_key 7; ev_ado := ado; ev_height := 150 |} in
  let l := [ev (demo_ado 1 (Some (demo_adb 40 100 2)) (Some 40)); ev (demo_ado 2 None (Some 70)); ev (demo_ado 4 None (Some 30))] in
  exists s', put_events demo_forks l ∅ = (Ok tt, s') /\ supply_bounded s' /\ latest (s' !! demo_key 5) = Some (demo_adb 10 100 2).
Proof.
  cbn zeta. match goal with |- exists s', put_events _ ?l _ = _ /\ _ => set (evs := l) end.
  assert (E1 : fst (put_events demo_forks evs ∅) = Ok tt) by reflexivity.
  assert (E2 : latest (snd (put_events demo_forks evs ∅) !! demo_key 5) = Some (demo_adb 10 100 2)) by reflexivity.
  destruct (put_events demo_forks evs ∅) as [r s'] eqn:E. cbn [fst snd] in *. subst r. exists s'. split; [done|]. split; [|done].
  apply (asset_supply_bounded demo_forks evs ∅ (Ok tt) s').
  - apply map_Forall_empty.
  - intros id d Ed. unfold latest in Ed. by rewrite lookup_empty in Ed.
  - unfold evs. repeat (apply Forall_cons_2; [split; [|reflexivity]; apply demo_ado_ok; intros ? E0; try discriminate;
      injection E0 as <-; unfold adb_ok, in_u; cbn; lia|]). apply Forall_nil_2.
  - exact E.
Defined.

(** Before hard fork 5 a burn carries a whole descriptor, which becomes the
    latest one, and needs no owner: whoever burns one unit owns the asset. *)
Example hf4_burn_takes_ownership :
  let s' := snd (demo_put 9 (demo_ado 4 (Some (demo_adb 59 100 9)) None) 50 (demo_assets 60)) in
  fst (demo_put 9 (demo_ado 4 (Some (demo_adb 59 100 9)) None) 50 (demo_assets 60)) = Ok tt /\
  adb_owner <$> latest (demo_assets 60 !! demo_key 5) = Some (demo_key 2) /\ adb_owner <$> latest (s' !! demo_key 5) = Some (demo_key 9) /\
  fst (demo_put 9 (demo_ado 2 (Some (demo_adb 100 100 9)) None) 50 s') = Ok tt.
Proof. repeat split; reflexivity. Qed.

(** Before hard fork 5 an asset can be registered with more than its maximum. *)
Example hf4_register_above_maximum :
  fst (demo_put 2 (demo_ado 1 (Some (demo_adb 200 100 2)) None) 50 ∅) = Ok tt.
Proof. reflexivity. Qed.
