(* ===== verification/Aliases.v ===== *)
(** * Aliases: [src/src/currency_core/blockchain_storage.cpp]

    An alias is a name for an address.  The chain keeps the history of each alias,
    the set of aliases of each address, and for each address a stack of default
    aliases, whose entries remember the transaction that pushed them. *)

From S2P Require Import Prelude Config Archive Keccak Pod CryptoTypes Basic Transactions HfTerms TxSemantic StateM Gateway Assets.

Abbreviation alias_name := (list Z).

#[export] Instance account_public_address_eq_dec : EqDecision account_public_address.
Proof. solve_decision. Defined.
#[export] Instance account_public_address_countable : Countable account_public_address.
Proof.
  by refine (inj_countable' (fun a => (apa_spend_public_key a, apa_view_public_key a, apa_flags a))
    (fun '(s, v, f) => Build_account_public_address s v f) _); intros [].
Defined.

(** ** Data *)

Record extra_alias_entry_base : Type := {
  aeb_m_address : account_public_address; aeb_m_text_comment : list Z; aeb_m_view_key : list secret_key;
  aeb_m_sign : list signature
}.
Definition entry_base (ai : extra_alias_entry) : extra_alias_entry_base :=
  {| aeb_m_address := ae_m_address ai; aeb_m_text_comment := ae_m_text_comment ai; aeb_m_view_key := ae_m_view_key ai;
     aeb_m_sign := ae_m_sign ai |}.

Record default_alias_entry : Type := { dae_alias : alias_name; dae_tx_id : hash }.

(** [m_db_aliases], [m_db_addr_to_alias], [m_db_addr_to_default_alias]. *)
Record alias_db : Type := {
  m_db_aliases : gmap alias_name (list extra_alias_entry_base);
  m_db_addr_to_alias : gmap account_public_address (gset alias_name);
  m_db_addr_to_default_alias : gmap account_public_address (list default_alias_entry)
}.

Definition set_aliases (f : gmap alias_name (list extra_alias_entry_base) -> gmap alias_name (list extra_alias_entry_base)) (d : alias_db) : alias_db :=
  {| m_db_aliases := f (m_db_aliases d); m_db_addr_to_alias := m_db_addr_to_alias d;
     m_db_addr_to_default_alias := m_db_addr_to_default_alias d |}.
Definition set_addr_to_alias (f : gmap account_public_address (gset alias_name) -> gmap account_public_address (gset alias_name)) (d : alias_db) : alias_db :=
  {| m_db_aliases := m_db_aliases d; m_db_addr_to_alias := f (m_db_addr_to_alias d);
     m_db_addr_to_default_alias := m_db_addr_to_default_alias d |}.
Definition set_defaults (addr : account_public_address) (l : list default_alias_entry) (d : alias_db) : alias_db :=
  {| m_db_aliases := m_db_aliases d; m_db_addr_to_alias := m_db_addr_to_alias d;
     m_db_addr_to_default_alias := <[addr := l]> (m_db_addr_to_default_alias d) |}.

(** [*set.begin()]: the least string. *)
Fixpoint lex_leb (a b : alias_name) : bool :=
  match a, b with
  | [], _ => true
  | _, [] => false
  | x :: a, y :: b => if x <? y then true else if x =? y then lex_leb a b else false
  end.
Definition set_begin (s : gset alias_name) : option alias_name :=
  fold_right (fun x m => match m with None => Some x | Some y => Some (if lex_leb x y then x else y) end) None (elements s).

(** ** Default aliases *)

(** A missing entry or another transaction's entry on top is logged, and
    nothing is popped. *)
Definition pop_default_alias (addr : account_public_address) (tx_id : hash) (d : alias_db) : alias_db :=
  match m_db_addr_to_default_alias d !! addr with
  | None => d
  | Some list_local =>
      match last list_local with
      | None => d
      | Some e => if decide (dae_tx_id e = tx_id) then set_defaults addr (removelast list_local) d else d
      end
  end.

Definition push_default_alias (addr : account_public_address) (default_alias : alias_name) (tx_id : hash) (d : alias_db) : alias_db :=
  set_defaults addr (default [] (m_db_addr_to_default_alias d !! addr) ++ [{| dae_alias := default_alias; dae_tx_id := tx_id |}]) d.

(** The last of the earlier defaults that the address still owns, else its
    least alias, else the empty name. *)
Definition replacement_alias (stack : list default_alias_entry) (owned : gset alias_name) : alias_name :=
  match List.find (fun e => bool_decide (dae_alias e ∈ owned)) (rev (removelast stack)) with
  | Some e => dae_alias e
  | None => default [] (set_begin owned)
  end.

Definition remove_alias_from_address (addr : account_public_address) (alias : alias_name) (is_during_put_process : bool)
    (tx_id : hash) (d : alias_db) : alias_db :=
  let '(addr_to_alias_local, d) :=
    match m_db_addr_to_alias d !! addr with
    | Some s =>
        let s := s ∖ {[alias]} in
        (s, set_addr_to_alias (fun m => if decide (s = ∅) then delete addr m else <[addr := s]> m) d)
    | None => (∅, d)
    end in
  match m_db_addr_to_default_alias d !! addr with
  | None => d
  | Some stack =>
      match last stack with
      | None => d
      | Some e =>
          if is_during_put_process then
            if decide (dae_alias e = alias) then push_default_alias addr (replacement_alias stack addr_to_alias_local) tx_id d else d
          else if decide (dae_tx_id e = tx_id) then pop_default_alias addr tx_id d else d
      end
  end.

Definition add_alias_to_address (addr : account_public_address) (alias : alias_name) (is_during_put_process : bool)
    (tx_id : hash) (d : alias_db) : alias_db :=
  let addr_to_alias_local := default ∅ (m_db_addr_to_alias d !! addr) in
  let d := set_addr_to_alias (<[addr := addr_to_alias_local ∪ {[alias]}]>) d in
  if negb is_during_put_process then
    match m_db_addr_to_default_alias d !! addr with
    | None => d
    | Some stack =>
        match last stack with
        | None => d
        | Some e => if decide (dae_tx_id e = tx_id) then pop_default_alias addr tx_id d else d
        end
    end
  else if decide (addr_to_alias_local = ∅) then push_default_alias addr alias tx_id d else d.

(** ** Histories *)

(** [*std::prev(end, 2)]. *)
Definition before_last (h : list extra_alias_entry_base) : option extra_alias_entry_base := last (removelast h).

Definition pop_alias_info (ai : extra_alias_entry) (tx_id : hash) : st alias_db unit :=
  _ ← check (negb (bool_decide (ae_m_alias ai = [])));
  alias_history_ptr ← read (fun d => m_db_aliases d !! ae_m_alias ai);
  local_alias_hist ← some alias_history_ptr;
  back ← some (last local_alias_hist);
  _ ← update (match before_last local_alias_hist with
              | Some prev =>
                  if decide (aeb_m_address back = aeb_m_address prev) then
                    if decide (aeb_m_text_comment back = aeb_m_text_comment prev /\ aeb_m_view_key back = aeb_m_view_key prev)
                    then pop_default_alias (aeb_m_address back) tx_id else id
                  else remove_alias_from_address (aeb_m_address back) (ae_m_alias ai) false tx_id
              | None => remove_alias_from_address (aeb_m_address back) (ae_m_alias ai) false tx_id
              end);
  let local_alias_hist := removelast local_alias_hist in
  match last local_alias_hist with
  | Some prev =>
      _ ← update (set_aliases (<[ae_m_alias ai := local_alias_hist]>));
      update (add_alias_to_address (aeb_m_address prev) (ae_m_alias ai) false tx_id)
  | None => update (set_aliases (delete (ae_m_alias ai)))
  end.

Definition alias_to_old (ai : extra_alias_entry) : extra_alias_entry_old :=
  {| aeo_m_alias := ae_m_alias ai;
     aeo_m_address := {| apao_spend_public_key := apa_spend_public_key (ae_m_address ai);
                         apao_view_public_key := apa_view_public_key (ae_m_address ai) |};
     aeo_m_text_comment := ae_m_text_comment ai; aeo_m_view_key := ae_m_view_key ai; aeo_m_sign := ae_m_sign ai |}.

Definition get_sign_buff_hash_for_alias_update (ai : extra_alias_entry) : hash :=
  let ai_old := alias_to_old ai in
  cn_fast_hash (default [] (t_serializable_object_to_blob c_extra_alias_entry_old
    {| aeo_m_alias := aeo_m_alias ai_old; aeo_m_address := aeo_m_address ai_old; aeo_m_text_comment := aeo_m_text_comment ai_old;
       aeo_m_view_key := aeo_m_view_key ai_old; aeo_m_sign := [] |})).

Section aliases.
Context `{AssetCrypto}.

Definition put_alias_info (ai : extra_alias_entry) (tx_id : hash) : st alias_db unit :=
  _ ← check (negb (bool_decide (ae_m_alias ai = [])));
  alias_history_ptr ← read (fun d => m_db_aliases d !! ae_m_alias ai);
  let local_alias_history := default [] alias_history_ptr in
  match last local_alias_history with
  | None =>
      _ ← update (set_aliases (<[ae_m_alias ai := local_alias_history ++ [entry_base ai]]>));
      update (add_alias_to_address (ae_m_address ai) (ae_m_alias ai) true tx_id)
  | Some back =>
      match ae_m_sign ai with
      | [sign] =>
          _ ← check (check_signature (get_sign_buff_hash_for_alias_update ai) (apa_spend_public_key (aeb_m_address back)) sign);
          _ ← (if decide (aeb_m_address back = ae_m_address ai) then
                 if decide (aeb_m_text_comment back = ae_m_text_comment ai /\ aeb_m_view_key back = ae_m_view_key ai)
                 then update (push_default_alias (ae_m_address ai) (ae_m_alias ai) tx_id) else mret tt
               else
                 _ ← update (remove_alias_from_address (aeb_m_address back) (ae_m_alias ai) true tx_id);
                 update (add_alias_to_address (ae_m_address ai) (ae_m_alias ai) true tx_id));
          update (set_aliases (<[ae_m_alias ai := local_alias_history ++ [entry_base ai]]>))
      | _ => fail
      end
  end.

(** ** What a registration costs *)

Definition ALIAS_NAME_MAX_LEN : nat := 255.
Definition ALIAS_MINIMUM_PUBLIC_SHORT_NAME_ALLOWED : nat := 6.

(** The alphabet ["-", ".", "0-9", "a-z"]. *)
Definition alias_alphabet (ch : Z) : bool :=
  (ch =? 45) || (ch =? 46) || ((48 <=? ch) && (ch <=? 57)) || ((97 <=? ch) && (ch <=? 122)).
Definition validate_alias_name (al : alias_name) : bool :=
  (List.length al <=? ALIAS_NAME_MAX_LEN)%nat && forallb alias_alphabet al.

Definition get_alias_coast_from_fee (median_fee : Z) : Z := u64 (median_fee * 10).

Fixpoint sum_of_commitments (outs : list tx_out_v) (acc : point) : st alias_db point :=
  match outs with
  | [] => mret acc
  | out_zarcanum o :: outs =>
      if decide (oz_stealth_address o = null_pkey /\ oz_blinded_asset_id o = native_coin_asset_id_1div8) then
        _ ← throw_unless (bool_decide (is_Some (from_public_key (oz_amount_commitment o))));
        C ← some (from_public_key (oz_amount_commitment o));
        sum_of_commitments outs (point_add acc (modify_mul8 C))
      else sum_of_commitments outs acc
  | _ :: outs => sum_of_commitments outs acc
  end.

Definition check_native_coins_amount_burnt_in_outs (tx : transaction) (amount : Z) : st alias_db unit :=
  if version tx <=? TRANSACTION_VERSION_PRE_HF4 then
    let sum_of_bare_outs_burnt := fold_left (fun sum o =>
      match o with
      | out_bare b =>
          match ob_target b with
          | target_to_key t => if decide (tok_key t = null_pkey) then u64 (sum + ob_amount b) else sum
          | target_multisig _ => sum
          end
      | _ => sum
      end) (vout tx) 0 in
    check (amount <=? sum_of_bare_outs_burnt)
  else
    sum_of_amount_commitments ← sum_of_commitments (vout tx) point_0;
    check (point_eqb sum_of_amount_commitments (point_scale amount native_coin_asset_id_pt)).

Definition prevalidate_alias_info (alias_validation_pubkey : public_key) (tx_fee_median : Z) (tx : transaction)
    (eae : extra_alias_entry) : st alias_db unit :=
  _ ← check (validate_alias_name (ae_m_alias eae));
  existing_ptr ← read (fun d => m_db_aliases d !! ae_m_alias eae);
  match default [] existing_ptr with
  | _ :: _ => mret tt
  | [] =>
      _ ← check_native_coins_amount_burnt_in_outs tx (get_alias_coast_from_fee tx_fee_median);
      if (List.length (ae_m_alias eae) <? ALIAS_MINIMUM_PUBLIC_SHORT_NAME_ALLOWED)%nat then
        match ae_m_sign eae with
        | [sign] => check (check_signature (get_sign_buff_hash_for_alias_update eae) alias_validation_pubkey sign)
        | _ => fail
        end
      else mret tt
  end.

End aliases.

(** ** Queries *)

Definition get_alias_info (alias : alias_name) (d : alias_db) : option extra_alias_entry_base :=
  h ← m_db_aliases d !! alias; last h.

(** The empty name when the address has none. *)
Definition get_alias_by_address (addr : account_public_address) (d : alias_db) : alias_name :=
  match m_db_addr_to_alias d !! addr with
  | None => []
  | Some aliases =>
      if decide (aliases = ∅) then []
      else
        match (l ← m_db_addr_to_default_alias d !! addr; last l) with
        | Some e => if decide (dae_alias e ∈ aliases) then dae_alias e else default [] (set_begin aliases)
        | None => default [] (set_begin aliases)
        end
  end.

(** ** The invariant *)

Definition aliases_of (d : alias_db) (addr : account_public_address) : gset alias_name := default ∅ (m_db_addr_to_alias d !! addr).
Definition stack_of (d : alias_db) (addr : account_public_address) : list default_alias_entry :=
  default [] (m_db_addr_to_default_alias d !! addr).
Definition owner_of (d : alias_db) (alias : alias_name) : option account_public_address :=
  aeb_m_address <$> get_alias_info alias d.

(** The two containers say the same: an address has the aliases whose latest
    entry names it.  Histories and sets are not empty. *)
Record alias_wf (d : alias_db) : Prop := {
  histories_not_empty : map_Forall (fun _ h => h <> []) (m_db_aliases d);
  sets_not_empty : map_Forall (fun _ s => s <> ∅) (m_db_addr_to_alias d);
  sets_by_owner addr alias : alias ∈ aliases_of d addr <-> owner_of d alias = Some addr
}.

(** Equal up to empty stacks of default aliases. *)
Definition alias_equiv (d d' : alias_db) : Prop :=
  m_db_aliases d = m_db_aliases d' /\ m_db_addr_to_alias d = m_db_addr_to_alias d' /\ (forall addr, stack_of d addr = stack_of d' addr).

(** The identifier of the transaction is not in the stacks yet. *)
Definition fresh_tx (tx_id : hash) (d : alias_db) : Prop := forall addr, Forall (fun e => dae_tx_id e <> tx_id) (stack_of d addr).

(** *** The stacks of default aliases *)

Lemma stack_set_defaults addr l d addr' : stack_of (set_defaults addr l d) addr' = if decide (addr' = addr) then l else stack_of d addr'.
Proof. unfold stack_of. cbn. case_decide; subst; [by rewrite lookup_insert_eq|by rewrite lookup_insert_ne]. Qed.

Definition pop_tx_id (tx_id : hash) (l : list default_alias_entry) : list default_alias_entry :=
  match last l with Some e => if decide (dae_tx_id e = tx_id) then removelast l else l | None => l end.

Lemma pop_default_spec addr tx_id d addr' :
  stack_of (pop_default_alias addr tx_id d) addr' = if decide (addr' = addr) then pop_tx_id tx_id (stack_of d addr) else stack_of d addr'.
Proof.
  unfold pop_default_alias, pop_tx_id. destruct (m_db_addr_to_default_alias d !! addr) as [l|] eqn:E.
  - assert (Es : stack_of d addr = l) by (unfold stack_of; by rewrite E). rewrite Es. destruct (last l) as [e|].
    + destruct (decide (dae_tx_id e = tx_id)); [apply stack_set_defaults|]. case_decide; by subst.
    + case_decide; by subst.
  - assert (Es : stack_of d addr = []) by (unfold stack_of; by rewrite E). rewrite Es. cbn. case_decide; by subst.
Qed.

Lemma pop_tx_id_fresh tx_id l : Forall (fun e => dae_tx_id e <> tx_id) l -> pop_tx_id tx_id l = l.
Proof.
  intros Hf. unfold pop_tx_id. destruct (last l) as [e|] eqn:E; [|done]. rewrite decide_False; [done|].
  apply last_Some_elem_of in E. rewrite Forall_forall in Hf. by apply Hf.
Qed.

Lemma pop_tx_id_snoc tx_id l a : pop_tx_id tx_id (l ++ [{| dae_alias := a; dae_tx_id := tx_id |}]) = l.
Proof. unfold pop_tx_id. by rewrite last_snoc, decide_True, removelast_snoc. Qed.

Lemma push_default_spec addr a tx_id d addr' :
  stack_of (push_default_alias addr a tx_id d) addr' =
    if decide (addr' = addr) then stack_of d addr ++ [{| dae_alias := a; dae_tx_id := tx_id |}] else stack_of d addr'.
Proof. apply stack_set_defaults. Qed.

(** Nothing but the stacks changes. *)
Definition same_index (d d' : alias_db) : Prop := m_db_aliases d = m_db_aliases d' /\ m_db_addr_to_alias d = m_db_addr_to_alias d'.

Lemma pop_default_index addr tx_id d : same_index (pop_default_alias addr tx_id d) d.
Proof.
  unfold pop_default_alias. destruct (m_db_addr_to_default_alias d !! addr) as [l|]; [|done]. destruct (last l) as [e|]; [|done].
  by destruct (decide _).
Qed.

(** *** The sets of aliases *)

(** Removing and adding, on the container of sets. *)
Definition remove_from (addr : account_public_address) (alias : alias_name) (m : gmap account_public_address (gset alias_name)) :=
  match m !! addr with
  | Some s => let s := s ∖ {[alias]} in if decide (s = ∅) then delete addr m else <[addr := s]> m
  | None => m
  end.
Definition add_to (addr : account_public_address) (alias : alias_name) (m : gmap account_public_address (gset alias_name)) :=
  <[addr := default ∅ (m !! addr) ∪ {[alias]}]> m.

Lemma remove_index addr alias b tx_id d :
  m_db_aliases (remove_alias_from_address addr alias b tx_id d) = m_db_aliases d /\
  m_db_addr_to_alias (remove_alias_from_address addr alias b tx_id d) = remove_from addr alias (m_db_addr_to_alias d).
Proof.
  unfold remove_alias_from_address, remove_from. destruct (m_db_addr_to_alias d !! addr) as [s|]; cbn;
    (destruct (m_db_addr_to_default_alias d !! addr) as [l|]; [|done]); (destruct (last l) as [e|]; [|done]); destruct b;
    (destruct (decide _); [|done]); try done; (edestruct (pop_default_index addr tx_id) as [-> ->]); done.
Qed.

Lemma add_index addr alias b tx_id d :
  m_db_aliases (add_alias_to_address addr alias b tx_id d) = m_db_aliases d /\
  m_db_addr_to_alias (add_alias_to_address addr alias b tx_id d) = add_to addr alias (m_db_addr_to_alias d).
Proof.
  unfold add_alias_to_address, add_to. destruct b; cbn.
  - by destruct (decide _).
  - destruct (m_db_addr_to_default_alias d !! addr) as [l|]; [|done]. destruct (last l) as [e|]; [|done].
    destruct (decide _); [|done]. edestruct (pop_default_index addr tx_id) as [-> ->]; done.
Qed.

(** *** The stacks after removing and adding *)

Lemma stack_index_indep f addr d : stack_of (set_addr_to_alias f d) addr = stack_of d addr.
Proof. done. Qed.

Lemma add_pop_stack addr alias tx_id d addr' :
  stack_of (add_alias_to_address addr alias false tx_id d) addr' =
    if decide (addr' = addr) then pop_tx_id tx_id (stack_of d addr) else stack_of d addr'.
Proof.
  unfold add_alias_to_address. cbn. destruct (m_db_addr_to_default_alias d !! addr) as [l|] eqn:E.
  - assert (Es : stack_of d addr = l) by (unfold stack_of; by rewrite E). unfold pop_tx_id. rewrite Es.
    destruct (last l) as [e|] eqn:El; [|case_decide; by subst].
    destruct (decide (dae_tx_id e = tx_id)) as [Ht|Ht]; [|case_decide; by subst].
    rewrite pop_default_spec, !stack_index_indep, Es. unfold pop_tx_id. rewrite El. case_decide; [by rewrite decide_True|done].
  - assert (Es : stack_of d addr = []) by (unfold stack_of; by rewrite E). rewrite Es. cbn. case_decide; by subst.
Qed.

Lemma add_put_stack addr alias tx_id d addr' :
  stack_of (add_alias_to_address addr alias true tx_id d) addr' =
    if decide (addr' = addr) then
      if decide (aliases_of d addr = ∅) then stack_of d addr ++ [{| dae_alias := alias; dae_tx_id := tx_id |}] else stack_of d addr
    else stack_of d addr'.
Proof.
  unfold add_alias_to_address, aliases_of. cbn. destruct (decide (default ∅ (m_db_addr_to_alias d !! addr) = ∅)).
  - rewrite push_default_spec. by case_decide.
  - unfold stack_of. cbn. case_decide; by subst.
Qed.

Lemma remove_pop_stack addr alias tx_id d addr' :
  stack_of (remove_alias_from_address addr alias false tx_id d) addr' =
    if decide (addr' = addr) then pop_tx_id tx_id (stack_of d addr) else stack_of d addr'.
Proof.
  assert (Hgen : forall d', m_db_addr_to_default_alias d' = m_db_addr_to_default_alias d ->
    stack_of (match m_db_addr_to_default_alias d' !! addr with
       | None => d'
       | Some stack => match last stack with None => d' | Some e => if decide (dae_tx_id e = tx_id) then pop_default_alias addr tx_id d' else d' end
       end) addr' = if decide (addr' = addr) then pop_tx_id tx_id (stack_of d addr) else stack_of d addr').
  { intros d' Ed. assert (Hst : forall a, stack_of d' a = stack_of d a) by (intros a; unfold stack_of; by rewrite Ed).
    destruct (m_db_addr_to_default_alias d' !! addr) as [l|] eqn:E.
    - assert (Es : stack_of d addr = l) by (unfold stack_of; by rewrite <- Ed, E). unfold pop_tx_id. rewrite Es.
      destruct (last l) as [e|] eqn:El; [|rewrite Hst; case_decide; by subst].
      destruct (decide (dae_tx_id e = tx_id)) as [Ht|Ht]; [|rewrite Hst; case_decide; by subst].
      rewrite pop_default_spec, !Hst, Es. unfold pop_tx_id. rewrite El. case_decide; [by rewrite decide_True|done].
    - assert (Es : stack_of d addr = []) by (unfold stack_of; by rewrite <- Ed, E). rewrite Es, Hst. cbn. case_decide; by subst. }
  unfold remove_alias_from_address. destruct (m_db_addr_to_alias d !! addr) as [s|]; by apply Hgen.
Qed.

(** What a put pushes on the stack of the former owner, if anything. *)
Lemma remove_put_stack addr alias tx_id d : exists pushed,
  (pushed = [] \/ exists a, pushed = [{| dae_alias := a; dae_tx_id := tx_id |}]) /\
  forall addr', stack_of (remove_alias_from_address addr alias true tx_id d) addr' =
    if decide (addr' = addr) then stack_of d addr ++ pushed else stack_of d addr'.
Proof.
  assert (Hgen : forall d' a, m_db_addr_to_default_alias d' = m_db_addr_to_default_alias d ->
    exists pushed, (pushed = [] \/ exists a, pushed = [{| dae_alias := a; dae_tx_id := tx_id |}]) /\
    forall addr', stack_of (match m_db_addr_to_default_alias d' !! addr with
       | None => d'
       | Some stack => match last stack with None => d' | Some e => if decide (dae_alias e = alias) then push_default_alias addr (replacement_alias stack a) tx_id d' else d' end
       end) addr' = if decide (addr' = addr) then stack_of d addr ++ pushed else stack_of d addr').
  { intros d' a Ed.
    assert (Hsame : exists pushed, (pushed = [] \/ exists a, pushed = [{| dae_alias := a; dae_tx_id := tx_id |}]) /\
       forall addr', stack_of d' addr' = if decide (addr' = addr) then stack_of d addr ++ pushed else stack_of d addr').
    { exists []. split; [by left|]. intros addr'. unfold stack_of. rewrite Ed, app_nil_r. case_decide; by subst. }
    destruct (m_db_addr_to_default_alias d' !! addr) as [l|]; [|done]. destruct (last l) as [e|]; [|done].
    destruct (decide (dae_alias e = alias)); [|done]. eexists. split; [right; by eexists|]. intros addr'.
    rewrite push_default_spec. unfold stack_of. by rewrite Ed. }
  unfold remove_alias_from_address. destruct (m_db_addr_to_alias d !! addr) as [s|]; by apply Hgen.
Qed.

(** *** Removing and adding are inverse *)

Definition no_empty_set (m : gmap account_public_address (gset alias_name)) : Prop := map_Forall (fun _ s => s <> ∅) m.

Lemma remove_from_lookup addr alias m addr' :
  default ∅ (remove_from addr alias m !! addr') = if decide (addr' = addr) then default ∅ (m !! addr) ∖ {[alias]} else default ∅ (m !! addr').
Proof.
  unfold remove_from. destruct (m !! addr) as [s|] eqn:E; cbn.
  - destruct (decide (s ∖ {[alias]} = ∅)) as [He|He]; case_decide; subst.
    + by rewrite lookup_delete_eq, He.
    + by rewrite lookup_delete_ne.
    + by rewrite lookup_insert_eq.
    + by rewrite lookup_insert_ne.
  - case_decide; [subst; rewrite E; set_solver|done].
Qed.

Lemma add_to_lookup addr alias m addr' :
  default ∅ (add_to addr alias m !! addr') = if decide (addr' = addr) then default ∅ (m !! addr) ∪ {[alias]} else default ∅ (m !! addr').
Proof. unfold add_to. case_decide; subst; [by rewrite lookup_insert_eq|by rewrite lookup_insert_ne]. Qed.

Lemma remove_from_no_empty addr alias m : no_empty_set m -> no_empty_set (remove_from addr alias m).
Proof.
  intros Hm. unfold remove_from. destruct (m !! addr) as [s|]; [|done]. destruct (decide _); [by apply map_Forall_delete|by apply map_Forall_insert_2].
Qed.

Lemma add_to_no_empty addr alias m : no_empty_set m -> no_empty_set (add_to addr alias m).
Proof. intros Hm. unfold add_to. apply map_Forall_insert_2; [set_solver|done]. Qed.

(** Without empty sets, a container is its sets. *)
Lemma sets_eq m m' : no_empty_set m -> no_empty_set m' -> (forall addr, default ∅ (m !! addr) = default ∅ (m' !! addr)) -> m = m'.
Proof.
  intros Hm Hm' He. apply map_eq. intros addr. specialize (He addr).
  destruct (m !! addr) as [s|] eqn:E, (m' !! addr) as [s'|] eqn:E'; cbn in He; subst; try done.
  - by destruct (Hm _ _ E).
  - by destruct (Hm' _ _ E').
Qed.

Lemma remove_add addr alias m : no_empty_set m -> alias ∉ default ∅ (m !! addr) -> remove_from addr alias (add_to addr alias m) = m.
Proof.
  intros Hm Hn. apply sets_eq; [by apply remove_from_no_empty, add_to_no_empty|done|]. intros a.
  rewrite remove_from_lookup, !add_to_lookup. repeat case_decide; subst; try done. set_solver.
Qed.

Lemma add_remove addr alias m : no_empty_set m -> alias ∈ default ∅ (m !! addr) -> add_to addr alias (remove_from addr alias m) = m.
Proof.
  intros Hm Hn. apply sets_eq; [by apply add_to_no_empty, remove_from_no_empty|done|]. intros a.
  rewrite add_to_lookup, !remove_from_lookup. repeat case_decide; subst; try done. apply set_eq. intros x.
  destruct (decide (x = alias)) as [->|]; set_solver.
Qed.

Lemma add_present addr alias m : no_empty_set m -> alias ∈ default ∅ (m !! addr) -> add_to addr alias m = m.
Proof.
  intros Hm Hn. apply sets_eq; [by apply add_to_no_empty|done|]. intros a. rewrite add_to_lookup. case_decide; subst; set_solver.
Qed.

Lemma pop_pushed tx_id l pushed : Forall (fun e => dae_tx_id e <> tx_id) l ->
  (pushed = [] \/ exists a, pushed = [{| dae_alias := a; dae_tx_id := tx_id |}]) -> pop_tx_id tx_id (l ++ pushed) = l.
Proof.
  intros Hf [->|(a & ->)]; [rewrite app_nil_r; by apply pop_tx_id_fresh|apply pop_tx_id_snoc].
Qed.

(** *** Putting *)

(** An entry signed by the owner named in the latest one. *)
Definition signed_by_alias_owner `{AssetCrypto} (back : extra_alias_entry_base) (ai : extra_alias_entry) : Prop :=
  exists sign, ae_m_sign ai = [sign] /\
    check_signature (get_sign_buff_hash_for_alias_update ai) (apa_spend_public_key (aeb_m_address back)) sign = true.

Definition same_info_entry (back : extra_alias_entry_base) (ai : extra_alias_entry) : Prop :=
  aeb_m_text_comment back = ae_m_text_comment ai /\ aeb_m_view_key back = ae_m_view_key ai.

(** The state after each kind of put. *)
Definition put_outcome (ai : extra_alias_entry) (tx_id : hash) (back : option extra_alias_entry_base) (d : alias_db) : alias_db :=
  match back with
  | None => add_alias_to_address (ae_m_address ai) (ae_m_alias ai) true tx_id d
  | Some back =>
      if decide (aeb_m_address back = ae_m_address ai) then
        if decide (same_info_entry back ai) then push_default_alias (ae_m_address ai) (ae_m_alias ai) tx_id d else d
      else add_alias_to_address (ae_m_address ai) (ae_m_alias ai) true tx_id
             (remove_alias_from_address (aeb_m_address back) (ae_m_alias ai) true tx_id d)
  end.

Lemma put_alias_info_spec `{AssetCrypto} ai tx_id d :
  let h := default [] (m_db_aliases d !! ae_m_alias ai) in
  match put_alias_info ai tx_id d with
  | (Ok _, d') => ae_m_alias ai <> [] /\ (forall back, last h = Some back -> signed_by_alias_owner back ai) /\
      m_db_aliases d' = <[ae_m_alias ai := h ++ [entry_base ai]]> (m_db_aliases d) /\
      m_db_addr_to_alias d' = m_db_addr_to_alias (put_outcome ai tx_id (last h) d) /\
      (forall addr, stack_of d' addr = stack_of (put_outcome ai tx_id (last h) d) addr)
  | (Fail, d') => d' = d /\ (ae_m_alias ai = [] \/ exists back, last h = Some back /\ ~ signed_by_alias_owner back ai)
  | (Exn, _) => False
  end.
Proof.
  cbn zeta. unfold put_alias_info. unfold mbind, st_bind, check, read, update, mret, st_ret, fail.
  destruct (bool_decide (ae_m_alias ai = [])) eqn:E0; cbn [negb]; [apply bool_decide_eq_true in E0; split; [done|by left]|].
  apply bool_decide_eq_false in E0. set (h := default [] (m_db_aliases d !! ae_m_alias ai)).
  destruct (last h) as [back|]; cbn [put_outcome].
  - unfold signed_by_alias_owner. destruct (ae_m_sign ai) as [|sign [|? ?]] eqn:Es.
    + split; [done|right]. exists back. split; [done|]. by intros (s & [=] & _).
    + destruct (check_signature _ _ sign) eqn:Ec.
      * assert (Hsig : forall b, Some back = Some b -> exists s, [sign] = [s] /\
          check_signature (get_sign_buff_hash_for_alias_update ai) (apa_spend_public_key (aeb_m_address b)) s = true).
        { intros b [= <-]. by exists sign. }
        unfold same_info_entry. destruct (decide (aeb_m_address back = ae_m_address ai)).
        -- destruct (decide (_ /\ _)); done.
        -- split; [done|]. split; [done|]. unfold set_aliases at 1. cbn [m_db_aliases].
           rewrite (proj1 (add_index _ _ _ _ _)), (proj1 (remove_index _ _ _ _ _)). done.
      * split; [done|right]. exists back. split; [done|]. intros (s & [= <-] & Hc). congruence.
    + split; [done|right]. exists back. split; [done|]. by intros (s & [=] & _).
  - split; [done|]. split; [done|]. rewrite (proj1 (add_index _ _ _ _ _)), (proj2 (add_index _ _ _ _ _)), (proj2 (add_index _ _ _ _ d)).
    split; [done|]. split; [done|]. intros addr. by rewrite !add_put_stack.
Qed.

(** *** Popping *)

Definition pop_outcome (ai : extra_alias_entry) (tx_id : hash) (back : extra_alias_entry_base) (prev : option extra_alias_entry_base)
    (d : alias_db) : alias_db :=
  match prev with
  | Some prev =>
      add_alias_to_address (aeb_m_address prev) (ae_m_alias ai) false tx_id
        (if decide (aeb_m_address back = aeb_m_address prev) then
           if decide (aeb_m_text_comment back = aeb_m_text_comment prev /\ aeb_m_view_key back = aeb_m_view_key prev)
           then pop_default_alias (aeb_m_address back) tx_id d else d
         else remove_alias_from_address (aeb_m_address back) (ae_m_alias ai) false tx_id d)
  | None => remove_alias_from_address (aeb_m_address back) (ae_m_alias ai) false tx_id d
  end.

Lemma pop_alias_info_spec ai tx_id d h e : ae_m_alias ai <> [] -> m_db_aliases d !! ae_m_alias ai = Some (h ++ [e]) ->
  exists d', pop_alias_info ai tx_id d = (Ok tt, d') /\
    m_db_aliases d' = (match last h with Some _ => <[ae_m_alias ai := h]> (m_db_aliases d) | None => delete (ae_m_alias ai) (m_db_aliases d) end) /\
    m_db_addr_to_alias d' = m_db_addr_to_alias (pop_outcome ai tx_id e (last h) d) /\
    (forall addr, stack_of d' addr = stack_of (pop_outcome ai tx_id e (last h) d) addr).
Proof.
  intros Hne El. unfold pop_alias_info, mbind, st_bind, check, read, some, update.
  rewrite bool_decide_false by done. cbn [negb]. rewrite El, last_snoc. unfold before_last. rewrite removelast_snoc.
  destruct (last h) as [prev|]; cbn [pop_outcome].
  - eexists. split; [done|].
    assert (Hgen : forall f, (forall d, m_db_aliases (f d) = m_db_aliases d) ->
      m_db_aliases (add_alias_to_address (aeb_m_address prev) (ae_m_alias ai) false tx_id (set_aliases (<[ae_m_alias ai := h]>) (f d))) =
        <[ae_m_alias ai := h]> (m_db_aliases d) /\
      m_db_addr_to_alias (add_alias_to_address (aeb_m_address prev) (ae_m_alias ai) false tx_id (set_aliases (<[ae_m_alias ai := h]>) (f d))) =
        m_db_addr_to_alias (add_alias_to_address (aeb_m_address prev) (ae_m_alias ai) false tx_id (f d)) /\
      (forall addr, stack_of (add_alias_to_address (aeb_m_address prev) (ae_m_alias ai) false tx_id (set_aliases (<[ae_m_alias ai := h]>) (f d))) addr =
        stack_of (add_alias_to_address (aeb_m_address prev) (ae_m_alias ai) false tx_id (f d)) addr)).
    { intros f Hf. rewrite (proj1 (add_index _ _ _ _ _)), (proj2 (add_index _ _ _ _ _)), (proj2 (add_index _ _ _ _ (f d))).
      split; [unfold set_aliases; cbn [m_db_aliases]; by rewrite Hf|]. split; [done|]. intros addr. by rewrite !add_pop_stack. }
    destruct (decide (aeb_m_address e = aeb_m_address prev)).
    + destruct (decide (_ /\ _)); [|by apply (Hgen id)]. apply (Hgen (pop_default_alias (aeb_m_address e) tx_id)).
      intros d'. apply pop_default_index.
    + apply (Hgen (remove_alias_from_address (aeb_m_address e) (ae_m_alias ai) false tx_id)). intros d'. apply remove_index.
  - eexists. split; [done|]. unfold set_aliases. cbn [m_db_aliases m_db_addr_to_alias]. by rewrite (proj1 (remove_index _ _ _ _ _)).
Qed.

(** *** Undoing a put *)

Lemma history_of d alias : alias_wf d -> (default [] (m_db_aliases d !! alias) = [] <-> m_db_aliases d !! alias = None).
Proof.
  intros [Hh _ _]. split; [|by intros ->]. destruct (m_db_aliases d !! alias) as [h|] eqn:E; cbn; [|done].
  intros ->. by destruct (Hh _ _ E).
Qed.

Lemma owner_of_history d alias : owner_of d alias = aeb_m_address <$> last (default [] (m_db_aliases d !! alias)).
Proof. unfold owner_of, get_alias_info. by destruct (m_db_aliases d !! alias). Qed.

(** Popping undoes the sets and the stacks of each kind of put. *)
Lemma outcome_undo ai tx_id back d d' : alias_wf d -> fresh_tx tx_id d -> owner_of d (ae_m_alias ai) = aeb_m_address <$> back ->
  m_db_addr_to_alias d' = m_db_addr_to_alias (put_outcome ai tx_id back d) ->
  (forall addr, stack_of d' addr = stack_of (put_outcome ai tx_id back d) addr) ->
  m_db_addr_to_alias (pop_outcome ai tx_id (entry_base ai) back d') = m_db_addr_to_alias d /\
  forall addr, stack_of (pop_outcome ai tx_id (entry_base ai) back d') addr = stack_of d addr.
Proof.
  intros Hwf Hf Ho Em Est. pose proof (sets_not_empty d Hwf) as Hne. pose proof (fun a => sets_by_owner d Hwf a (ae_m_alias ai)) as Hs.
  unfold aliases_of in Hs. rewrite Ho in Hs. destruct back as [back|]; cbn [put_outcome pop_outcome fmap option_fmap option_map] in *.
  - cbn [entry_base aeb_m_address aeb_m_text_comment aeb_m_view_key].
    assert (Hin : ae_m_alias ai ∈ default ∅ (m_db_addr_to_alias d !! aeb_m_address back)) by (by apply Hs).
    destruct (decide (aeb_m_address back = ae_m_address ai)) as [Ea|Ea].
    + rewrite Ea in *. rewrite decide_True by done. rewrite (proj2 (add_index _ _ _ _ _)).
      unfold same_info_entry in *. destruct (decide (aeb_m_text_comment back = ae_m_text_comment ai /\ aeb_m_view_key back = ae_m_view_key ai)) as [[Hc Hv]|Hd].
      * rewrite decide_True by (by rewrite Hc, Hv). rewrite (proj2 (pop_default_index _ _ _)), Em. split; [by apply add_present|].
        intros addr. rewrite add_pop_stack, !pop_default_spec, !Est, !push_default_spec.
        rewrite !(decide_True (P := ae_m_address ai = ae_m_address ai)) by done.
        rewrite pop_tx_id_snoc, pop_tx_id_fresh by apply Hf. case_decide; by subst.
      * rewrite decide_False by naive_solver. rewrite Em. split; [by apply add_present|].
        intros addr. rewrite add_pop_stack, !Est, pop_tx_id_fresh by apply Hf. case_decide; by subst.
    + rewrite decide_False by done. rewrite (proj2 (add_index _ _ _ _ _)), (proj2 (remove_index _ _ _ _ _)), Em, (proj2 (add_index _ _ _ _ _)), (proj2 (remove_index _ _ _ _ _)).
      split.
      * rewrite remove_add; [by apply add_remove|by apply remove_from_no_empty|]. rewrite remove_from_lookup.
        rewrite decide_False by (intros E; by rewrite E in Ea). rewrite Hs. naive_solver.
      * destruct (remove_put_stack (aeb_m_address back) (ae_m_alias ai) tx_id d) as (pushed & Hp & Hst).
        intros addr. rewrite add_pop_stack, !remove_pop_stack, !Est, !add_put_stack, !Hst.
        rewrite (decide_True (P := ae_m_address ai = ae_m_address ai)) by done.
        rewrite (decide_True (P := aeb_m_address back = aeb_m_address back)) by done.
        rewrite (decide_False (P := aeb_m_address back = ae_m_address ai)) by done.
        rewrite (decide_False (P := ae_m_address ai = aeb_m_address back)) by (intros E; by rewrite E in Ea).
        destruct (decide (addr = aeb_m_address back)) as [->|E1].
        { rewrite ?(decide_False (P := aeb_m_address back = ae_m_address ai)) by done. apply pop_pushed; [apply Hf|done]. }
        destruct (decide (addr = ae_m_address ai)) as [->|E2]; [|done]. case_decide; [apply pop_tx_id_snoc|apply pop_tx_id_fresh, Hf].
  - rewrite (proj2 (remove_index _ _ _ _ _)), Em, (proj2 (add_index _ _ _ _ _)). split.
    + apply remove_add; [done|]. cbn. rewrite Hs. by intros [=].
    + intros addr. cbn [entry_base aeb_m_address]. rewrite remove_pop_stack, !Est, !add_put_stack.
      rewrite (decide_True (P := ae_m_address ai = ae_m_address ai)) by done.
      destruct (decide (addr = ae_m_address ai)) as [->|E1]; [|done]. case_decide; [apply pop_tx_id_snoc|apply pop_tx_id_fresh, Hf].
Qed.

Lemma alias_put_pop `{AssetCrypto} ai tx_id d u d' t : alias_wf d -> fresh_tx tx_id d -> put_alias_info ai tx_id d = (Ok u, d') ->
  alias_equiv t d' -> exists d'', pop_alias_info ai tx_id t = (Ok tt, d'') /\ alias_equiv d'' d.
Proof.
  intros Hwf Hf E (Hta & Htm & Htst). pose proof (put_alias_info_spec ai tx_id d) as Hp. cbn zeta in Hp. rewrite E in Hp.
  destruct Hp as (Hne & _ & Ea & Em & Est). set (h := default [] (m_db_aliases d !! ae_m_alias ai)) in *.
  destruct (pop_alias_info_spec ai tx_id t h (entry_base ai) Hne) as (d'' & E2 & Ea2 & Em2 & Est2).
  { by rewrite Hta, Ea, lookup_insert_eq. }
  destruct (outcome_undo ai tx_id (last h) d t Hwf Hf) as [Hm Hst]; [apply owner_of_history|by rewrite Htm|intros; by rewrite Htst|].
  exists d''. split; [done|]. split; [|split; [by rewrite Em2|intros addr; by rewrite Est2]].
  rewrite Ea2, Hta, Ea. destruct (last h) as [prev|] eqn:El.
  - rewrite insert_insert_eq. apply insert_id. unfold h in El |- *. by destruct (m_db_aliases d !! ae_m_alias ai).
  - apply delete_insert_id. apply (history_of d (ae_m_alias ai) Hwf). by apply last_None.
Qed.

(** *** The index follows the owners *)

Lemma put_outcome_sets ai tx_id d addr a : alias_wf d ->
  let h := default [] (m_db_aliases d !! ae_m_alias ai) in
  a ∈ default ∅ (m_db_addr_to_alias (put_outcome ai tx_id (last h) d) !! addr) <->
    (if decide (a = ae_m_alias ai) then addr = ae_m_address ai else a ∈ aliases_of d addr).
Proof.
  intros Hwf h. pose proof (sets_by_owner d Hwf) as Hs. unfold aliases_of in *.
  assert (Ho : owner_of d (ae_m_alias ai) = aeb_m_address <$> last h) by apply owner_of_history.
  pose proof (fun x => Hs x (ae_m_alias ai)) as Hsa. rewrite Ho in Hsa. destruct (last h) as [back|]; cbn [put_outcome fmap option_fmap option_map] in *.
  - destruct (decide (aeb_m_address back = ae_m_address ai)) as [Ea|Ea].
    + assert (Hsame : m_db_addr_to_alias (if decide (same_info_entry back ai) then push_default_alias (ae_m_address ai) (ae_m_alias ai) tx_id d else d) =
        m_db_addr_to_alias d) by (by destruct (decide _)).
      rewrite Hsame. destruct (decide (a = ae_m_alias ai)) as [->|]; [|done]. rewrite Hsa, Ea. naive_solver.
    + rewrite (proj2 (add_index _ _ _ _ _)), (proj2 (remove_index _ _ _ _ _)), add_to_lookup, !remove_from_lookup.
      destruct (decide (a = ae_m_alias ai)) as [->|Hne].
      * repeat case_decide; subst; try set_solver.
      * repeat case_decide; subst; set_solver.
  - rewrite (proj2 (add_index _ _ _ _ _)), add_to_lookup.
    destruct (decide (a = ae_m_alias ai)) as [->|Hne]; case_decide; subst; try set_solver.
Qed.

Lemma put_outcome_no_empty ai tx_id back d : no_empty_set (m_db_addr_to_alias d) -> no_empty_set (m_db_addr_to_alias (put_outcome ai tx_id back d)).
Proof.
  intros Hm. destruct back as [back|]; cbn [put_outcome].
  - destruct (decide _); [by destruct (decide _)|]. rewrite (proj2 (add_index _ _ _ _ _)), (proj2 (remove_index _ _ _ _ _)).
    by apply add_to_no_empty, remove_from_no_empty.
  - rewrite (proj2 (add_index _ _ _ _ _)). by apply add_to_no_empty.
Qed.

Lemma put_wf ai tx_id d d' : alias_wf d ->
  let h := default [] (m_db_aliases d !! ae_m_alias ai) in
  m_db_aliases d' = <[ae_m_alias ai := h ++ [entry_base ai]]> (m_db_aliases d) ->
  m_db_addr_to_alias d' = m_db_addr_to_alias (put_outcome ai tx_id (last h) d) ->
  alias_wf d' /\ owner_of d' (ae_m_alias ai) = Some (ae_m_address ai) /\
  (forall a, a <> ae_m_alias ai -> owner_of d' a = owner_of d a).
Proof.
  intros Hwf h Ea Em.
  assert (Hown : owner_of d' (ae_m_alias ai) = Some (ae_m_address ai)) by (rewrite owner_of_history, Ea, lookup_insert_eq; cbn; by rewrite last_snoc).
  assert (Hoth : forall a, a <> ae_m_alias ai -> owner_of d' a = owner_of d a).
  { intros a Hne. by rewrite !owner_of_history, Ea, lookup_insert_ne. }
  split; [|done]. constructor.
  - rewrite Ea. apply map_Forall_insert_2; [by destruct h|apply Hwf].
  - rewrite Em. apply put_outcome_no_empty, Hwf.
  - intros addr a. unfold aliases_of. rewrite Em. etransitivity; [exact (put_outcome_sets ai tx_id d addr a Hwf)|]. case_decide as Hd.
    + subst a. rewrite Hown. naive_solver.
    + rewrite Hoth by done. apply Hwf.
Qed.

(** Validating an alias only reads. *)
Lemma sum_of_commitments_ro `{AssetCrypto} outs acc : read_only (sum_of_commitments outs acc).
Proof.
  revert acc. induction outs as [|[b|o|g] outs IH]; intros acc; cbn [sum_of_commitments]; [done|apply IH| |apply IH].
  destruct (decide _); [|apply IH]. ro_solve.
Qed.
Lemma prevalidate_ro `{AssetCrypto} key tx_fee_median tx eae : read_only (prevalidate_alias_info key tx_fee_median tx eae).
Proof.
  unfold prevalidate_alias_info, check_native_coins_amount_burnt_in_outs.
  repeat (ro_solve; try apply sum_of_commitments_ro).
Qed.

(** C27: An alias is given to an address when nobody has it, or changed when the
    entry is signed by the spend key of its present owner; then the entry's
    address owns it, no other alias changes, and the set of the aliases of each
    address is the set of the aliases it owns.  A refused entry changes nothing. *)
Theorem alias_put_correct `{AssetCrypto} ai tx_id d : alias_wf d ->
  match put_alias_info ai tx_id d with
  | (Ok _, d') => alias_wf d' /\ owner_of d' (ae_m_alias ai) = Some (ae_m_address ai) /\
      (forall a, a <> ae_m_alias ai -> owner_of d' a = owner_of d a) /\
      (forall back, get_alias_info (ae_m_alias ai) d = Some back -> signed_by_alias_owner back ai)
  | (Fail, d') => d' = d /\
      (ae_m_alias ai = [] \/ exists back, get_alias_info (ae_m_alias ai) d = Some back /\ ~ signed_by_alias_owner back ai)
  | (Exn, _) => False
  end.
Proof.
  intros Hwf. pose proof (put_alias_info_spec ai tx_id d) as Hp. cbn zeta in Hp.
  assert (Hl : get_alias_info (ae_m_alias ai) d = last (default [] (m_db_aliases d !! ae_m_alias ai))).
  { unfold get_alias_info. by destruct (m_db_aliases d !! ae_m_alias ai). }
  rewrite Hl. destruct (put_alias_info ai tx_id d) as [[u| |] d']; [|done|done].
  destruct Hp as (_ & Hsig & Ea & Em & _). destruct (put_wf ai tx_id d d' Hwf Ea Em) as (Hwf' & Ho & Hoth). done.
Qed.

(** Undoing an alias entry restores the histories and the sets of aliases
    exactly, and the stacks of default aliases of every address. *)
Theorem alias_pop_undoes_put `{AssetCrypto} ai tx_id d u d' : alias_wf d -> fresh_tx tx_id d ->
  put_alias_info ai tx_id d = (Ok u, d') -> exists d'', pop_alias_info ai tx_id d' = (Ok tt, d'') /\ alias_equiv d'' d.
Proof. intros Hwf Hf E. by eapply alias_put_pop. Qed.

(** ** Examples *)

#[local] Existing Instance demo_asset_crypto.

Definition demo_addr (n : Z) : account_public_address :=
  {| apa_spend_public_key := demo_key n; apa_view_public_key := demo_key n; apa_flags := 0 |}.
Definition demo_alias (name : string) (owner : Z) (signs : list signature) : extra_alias_entry :=
  {| ae_m_alias := chars name; ae_m_address := demo_addr owner; ae_m_text_comment := []; ae_m_view_key := []; ae_m_sign := signs |}.
Definition no_aliases : alias_db := {| m_db_aliases := ∅; m_db_addr_to_alias := ∅; m_db_addr_to_default_alias := ∅ |}.

Lemma no_aliases_wf : alias_wf no_aliases.
Proof.
  constructor; [apply map_Forall_empty..|]. intros addr a. unfold aliases_of, owner_of, get_alias_info. cbn.
  rewrite !lookup_empty. cbn. set_solver.
Qed.

(** Two aliases of one address; the default one moves to another address, and
    the other alias becomes the default. *)
Definition demo_alias_run : st alias_db unit :=
  _ ← put_alias_info (demo_alias "alice" 1 []) (demo_key 11);
  _ ← put_alias_info (demo_alias "carol" 1 []) (demo_key 12);
  put_alias_info (demo_alias "alice" 2 [[]]) (demo_key 13).

Example demo_alias_run_defaults :
  let d := snd (demo_alias_run no_aliases) in
  fst (demo_alias_run no_aliases) = Ok tt /\ get_alias_by_address (demo_addr 1) d = chars "carol" /\
  get_alias_by_address (demo_addr 2) d = chars "alice".
Proof. repeat split; reflexivity. Qed.

Example alias_put_correct_witness :
  exists d', put_alias_info (demo_alias "alice" 1 []) (demo_key 11) no_aliases = (Ok tt, d') /\ alias_wf d' /\
    owner_of d' (chars "alice") = Some (demo_addr 1).
Proof.
  pose proof (alias_put_correct (demo_alias "alice" 1 []) (demo_key 11) no_aliases no_aliases_wf) as H.
  assert (E : fst (put_alias_info (demo_alias "alice" 1 []) (demo_key 11) no_aliases) = Ok tt) by reflexivity.
  destruct (put_alias_info (demo_alias "alice" 1 []) (demo_key 11) no_aliases) as [r d']. cbn [fst] in E. subst r.
  destruct H as (Hwf & Ho & _). by exists d'.
Defined.

Example alias_pop_undoes_put_witness :
  exists d' d'', put_alias_info (demo_alias "alice" 1 []) (demo_key 11) no_aliases = (Ok tt, d') /\
    pop_alias_info (demo_alias "alice" 1 []) (demo_key 11) d' = (Ok tt, d'') /\ alias_equiv d'' no_aliases.
Proof.
  assert (E : fst (put_alias_info (demo_alias "alice" 1 []) (demo_key 11) no_aliases) = Ok tt) by reflexivity.
  destruct (put_alias_info (demo_alias "alice" 1 []) (demo_key 11) no_aliases) as [r d'] eqn:Ep. cbn [fst] in E. subst r.
  destruct (alias_pop_undoes_put (demo_alias "alice" 1 []) (demo_key 11) no_aliases tt d' no_aliases_wf) as (d'' & E2 & Heq); [|done|].
  - intros addr. unfold stack_of. cbn. rewrite lookup_empty. constructor.
  - by exists d', d''.
Defined.
