(* ===== verification/TxHardforks.v ===== *)
(** * The rules of the hard forks for a transaction:
    [blockchain_storage::validate_tx_for_hardfork_specific_terms] of
    [src/src/currency_core/blockchain_storage.cpp], and the details of a
    transaction it reads, of [currency_format_utils_transactions.cpp]

    From hard fork 6 on the table of the terms decides the types a transaction may
    contain; before it, a list of exclusions.  Then come the rules each fork adds
    on versions, numbers of inputs and outputs, and the order of the inputs. *)

From Stdlib Require Import Sorted.
From S2P Require Import Prelude Config HardForks Archive Pod CryptoTypes Basic Transactions HfTerms TxSemantic.

(** ** Details kept in the extra field *)

(** [get_type_in_variant_container]: the first element of a type. *)
Definition get_type_in_variant_container {A B} (get : A -> option B) (av : list A) : option B := head (omap get av).

Definition as_flags (p : payload_items_v) : option Z := match p with P_etc_tx_details_flags v => Some v | _ => None end.
Definition as_expiration_time (p : payload_items_v) : option Z :=
  match p with P_etc_tx_details_expiration_time v => Some v | _ => None end.
Definition as_unlock_time (p : payload_items_v) : option Z :=
  match p with P_etc_tx_details_unlock_time v => Some v | _ => None end.
Definition as_unlock_time2 (p : payload_items_v) : option (list Z) :=
  match p with P_etc_tx_details_unlock_time2 v => Some v | _ => None end.
Definition as_gateway_operation (p : payload_items_v) : option gateway_address_descriptor_operation :=
  match p with P_gateway_address_descriptor_operation v => Some v | _ => None end.

Definition get_tx_x_detail (as_extra : payload_items_v -> option Z) (tx : transaction) : Z :=
  default 0 (get_type_in_variant_container as_extra (tp_extra (tx_prefix tx))).
Definition get_tx_flags (tx : transaction) : Z := get_tx_x_detail as_flags tx.
Definition get_tx_expiration_time (tx : transaction) : Z := get_tx_x_detail as_expiration_time tx.

Definition TX_EXPIRATION_TIMESTAMP_CHECK_WINDOW : Z := 20.
Definition TX_EXPIRATION_MEDIAN_SHIFT : Z := TX_EXPIRATION_TIMESTAMP_CHECK_WINDOW / 2 * DIFFICULTY_TOTAL_TARGET.

Definition is_tx_expired (tx : transaction) (expiration_ts_median : Z) : bool :=
  if expiration_ts_median =? 0 then false
  else
    let expiration_time := get_tx_expiration_time tx in
    if expiration_time =? 0 then false
    else expiration_time <=? u64 (expiration_ts_median + TX_EXPIRATION_MEDIAN_SHIFT).

Definition unlock_time_array (tx : transaction) : list Z :=
  default [] (get_type_in_variant_container as_unlock_time2 (tp_extra (tx_prefix tx))).

Definition get_tx_max_unlock_time (tx : transaction) : outcome Z :=
  let v := get_tx_x_detail as_unlock_time tx in
  if negb (v =? 0) then Ret v
  else
    match unlock_time_array tx with
    | [] => Ret 0
    | ut2 =>
        if (List.length ut2 =? List.length (vout tx))%nat then Ret (fold_left (fun m t => if m <? t then t else m) ut2 0)
        else Throw
    end.

Definition get_tx_unlock_time (tx : transaction) (o_i : nat) : outcome Z :=
  let v := get_tx_x_detail as_unlock_time tx in
  if negb (v =? 0) then Ret v
  else if negb (o_i <? List.length (vout tx))%nat then Throw
  else
    match unlock_time_array tx with
    | [] => Ret 0
    | ut2 => match ut2 !! o_i with Some t => Ret t | None => Throw end
    end.

(** The maximum and the minimum. *)
Definition get_tx_max_min_unlock_time (tx : transaction) : outcome (Z * Z) :=
  let v := get_tx_x_detail as_unlock_time tx in
  if negb (v =? 0) then Ret (v, v)
  else
    match unlock_time_array tx with
    | [] => Ret (0, 0)
    | t :: ts as ut2 =>
        if (List.length ut2 =? List.length (vout tx))%nat then
          Ret (fold_left (fun '(mx, mn) t => (if mx <? t then t else mx, if t <? mn then t else mn)) ts (t, t))
        else Throw
    end.

Definition is_pos_miner_tx (tx : transaction) : bool :=
  match vin tx with
  | [in_gen _; in_to_key _] | [in_gen _; in_zc _] => true
  | _ => false
  end.

(** ** The order of the inputs *)

(** [memcmp(a, b, size) < 0]. *)
Fixpoint memcmp_lt (a b : list Z) : bool :=
  match a, b with
  | x :: a, y :: b => if x <? y then true else if y <? x then false else memcmp_lt a b
  | [], _ :: _ => true
  | _, [] => false
  end.

(** The tags of the serialization. *)
Definition txin_tag (v : txin_v) : Z :=
  match v with in_gen _ => 0 | in_to_key _ => 1 | in_multisig _ => 2 | in_zc _ => 37 | in_gateway _ => 65 end.

Definition less_txin_v (left right : txin_v) : bool :=
  match left, right with
  | in_gen l, in_gen r => l <? r
  | in_to_key l, in_to_key r => memcmp_lt (ttk_k_image l) (ttk_k_image r)
  | in_multisig l, in_multisig r => memcmp_lt (tms_multisig_out_id l) (tms_multisig_out_id r)
  | in_gateway l, in_gateway r => memcmp_lt (tgw_gateway_addr l) (tgw_gateway_addr r)
  | in_zc l, in_zc r => memcmp_lt (tzc_k_image l) (tzc_k_image r)
  | _, _ => txin_tag left <? txin_tag right
  end.

Definition TX_FLAG_SIGNATURE_MODE_SEPARATE : Z := 1.
Definition mode_separate (tx : transaction) : bool :=
  negb (Z.land (get_tx_flags tx) TX_FLAG_SIGNATURE_MODE_SEPARATE =? 0).

Fixpoint sorted_loop (l : list txin_v) : bool :=
  match l with
  | [] => true
  | x :: l => match l with [] => true | y :: _ => if less_txin_v y x then false else sorted_loop l end
  end.

Definition validate_inputs_sorting (tx : transaction) : bool :=
  if mode_separate tx then true else sorted_loop (vin tx).

(** ** Other checks of hard fork 6 *)

(** ["P"]. *)
Definition BC_PAYMENT_ID_SERVICE_ID : list Z := [80].

Definition has_service_attachment_with_given_id (tx_items : list payload_items_v) (id : list Z) : bool :=
  existsb (fun item => match item with P_tx_service_attachment tsa => bool_decide (tsa_service_id tsa = id) | _ => false end) tx_items.
Definition has_tx_wide_payment_id (tx : transaction) : bool :=
  has_service_attachment_with_given_id (tp_extra (tx_prefix tx)) BC_PAYMENT_ID_SERVICE_ID ||
  has_service_attachment_with_given_id (tx_attachment tx) BC_PAYMENT_ID_SERVICE_ID.

Definition GATEWAY_ADDRESS_META_INFO_MAX_SIZE : nat := 4000.
Definition validate_gateway_descriptor_base_limits (gadb : gateway_address_descriptor_base) : bool :=
  (List.length (gadb_meta_info gadb) <=? GATEWAY_ADDRESS_META_INFO_MAX_SIZE)%nat && match gadb_etc gadb with [] => true | _ => false end.
Definition validate_gateway_descriptor_operation_limits (gado : gateway_address_descriptor_operation) : bool :=
  match gado_operation gado with
  | ga_register o => validate_gateway_descriptor_base_limits (gar_descriptor o)
  | ga_update u => validate_gateway_descriptor_base_limits (gau_descriptor u)
  end.

(** ** The rules *)

Section rules.
Context (hard_forks : hard_forks_descriptor).

(** *** The exclusions before hard fork 6 *)

Definition is_allowed_before_hardfork1 (T : term_type) : bool := bool_decide (T <> T_etc_tx_details_unlock_time2).
Definition is_allowed_before_hardfork2 (T : term_type) : bool :=
  bool_decide (T <> T_tx_payer) && bool_decide (T <> T_tx_receiver) && bool_decide (T <> T_extra_alias_entry).
Definition is_allowed_before_hardfork3 (T : term_type) : bool := true.
Definition is_allowed_before_hardfork4 (T : term_type) : bool :=
  bool_decide (T <> T_zarcanum_tx_data_v1) && bool_decide (T <> T_txin_zc_input) && bool_decide (T <> T_tx_out_zarcanum).
Definition is_allowed_after_hardfork4 (T : term_type) : bool := bool_decide (T <> T_tx_out_bare).
Definition is_allowed_after_hardfork6 (T : term_type) : bool :=
  bool_decide (T <> T_tx_payer) && bool_decide (T <> T_tx_payer_old) && bool_decide (T <> T_tx_receiver) &&
  bool_decide (T <> T_tx_receiver_old).
Definition is_allowed_atfer_hardfork6_attachment (T : term_type) : bool :=
  bool_decide (T <> T_tx_comment) && is_allowed_after_hardfork6 T.

Definition validate_tx_for_hardfork_specific_terms_types_HF4 (tx : transaction) (block_height : Z) : outcome bool :=
  after_1 ← is_hardfork_active_for_height 1 block_height hard_forks;
  after_2 ← is_hardfork_active_for_height 2 block_height hard_forks;
  after_3 ← is_hardfork_active_for_height 3 block_height hard_forks;
  after_4 ← is_hardfork_active_for_height 4 block_height hard_forks;
  after_5 ← is_hardfork_active_for_height 5 block_height hard_forks;
  after_6 ← is_hardfork_active_for_height 6 block_height hard_forks;
  let in_or_out_ok T :=
    (after_1 || is_allowed_before_hardfork1 T) && (after_2 || is_allowed_before_hardfork2 T) &&
    (after_3 || is_allowed_before_hardfork3 T) && (after_4 || is_allowed_before_hardfork4 T) &&
    (negb after_4 || is_allowed_after_hardfork4 T) in
  let extra_ok T :=
    (after_1 || is_allowed_before_hardfork1 T) && (after_2 || is_allowed_before_hardfork2 T) &&
    (after_4 || is_allowed_before_hardfork4 T) && (negb after_4 || is_allowed_after_hardfork4 T) &&
    (negb after_6 || is_allowed_after_hardfork6 T) in
  let attachment_ok T :=
    (after_2 || is_allowed_before_hardfork2 T) && (after_4 || is_allowed_before_hardfork4 T) &&
    (negb after_4 || is_allowed_after_hardfork4 T) && (negb after_6 || is_allowed_atfer_hardfork6_attachment T) in
  Ret (forallb (fun i => in_or_out_ok (in_type i)) (vin tx) && forallb (fun o => in_or_out_ok (out_type o)) (vout tx) &&
       forallb (fun e => extra_ok (payload_type e)) (tp_extra (tx_prefix tx)) &&
       forallb (fun e => attachment_ok (payload_type e)) (tx_attachment tx)).

(** *** All the rules *)

Definition is_gw_out (o : tx_out_v) : bool := match o with out_gateway _ => true | _ => false end.
Definition is_gw_in (i : txin_v) : bool := match i with in_gateway _ => true | _ => false end.
Definition count {A} (f : A -> bool) (l : list A) : nat := List.length (List.filter f l).
Definition is_ado (p : payload_items_v) : bool := match p with P_asset_descriptor_operation _ => true | _ => false end.
Definition is_cumulative_size (p : payload_items_v) : bool :=
  match p with P_etc_coinbase_block_cumulative_size _ => true | _ => false end.
Definition is_eth_proof (p : proof_v) : bool :=
  match p with proof_asset_operation_ownership_eth _ => true | _ => false end.

Definition hf4_rules (tx : transaction) : bool :=
  let outs := Z.of_nat (List.length (vout tx)) in
  let gw_outs_only := forallb is_gw_out (vout tx) in
  let count_ado := count is_ado (tp_extra (tx_prefix tx)) in
  let count_etc_coinbase_block_cumulative_size := count is_cumulative_size (tp_extra (tx_prefix tx)) in
  if version tx <=? TRANSACTION_VERSION_PRE_HF4 then false
  else if negb (if is_pos_miner_tx tx then (outs =? 1) || (CURRENCY_TX_MIN_ALLOWED_OUTS <=? outs)
                else if gw_outs_only then true
                else CURRENCY_TX_MIN_ALLOWED_OUTS <=? outs) then false
  else if negb (validate_inputs_sorting tx) then false
  else if is_coinbase tx && mode_separate tx then false
  else if (1 <? count_ado)%nat then false
  else if mode_separate tx && (0 <? count_ado)%nat then false
  else if (0 <? count_etc_coinbase_block_cumulative_size)%nat && negb (is_coinbase tx) then false
  else true.

Definition hf6_rules (tx : transaction) : bool :=
  let has_gw_outs := existsb is_gw_out (vout tx) in
  let has_gw_ins := existsb is_gw_in (vin tx) in
  if version tx <? TRANSACTION_VERSION_POST_HF6 then false
  else if CURRENCY_TX_MAX_ALLOWED_INPUTS <? Z.of_nat (List.length (vin tx)) then false
  else if CURRENCY_TX_MAX_ALLOWED_OUTS <? Z.of_nat (List.length (vout tx)) then false
  else if mode_separate tx && negb (negb has_gw_ins && negb has_gw_outs) then false
  else if has_gw_outs && has_tx_wide_payment_id tx then false
  else
    match get_type_in_variant_container as_gateway_operation (tp_extra (tx_prefix tx)) with
    | Some gado => validate_gateway_descriptor_operation_limits gado
    | None => true
    end.

Definition validate_tx_for_hardfork_specific_terms (tx : transaction) (block_height : Z) : outcome bool :=
  after_6 ← is_hardfork_active_for_height 6 block_height hard_forks;
  r ← (if after_6 : bool then
         hf ← get_the_most_recent_hardfork_id_for_height block_height hard_forks;
         validate_tx_for_hardfork_specific_terms_types_HF6 tx hf
       else validate_tx_for_hardfork_specific_terms_types_HF4 tx block_height);
  if negb r then Ret false
  else
    after_4 ← is_hardfork_active_for_height 4 block_height hard_forks;
    if after_4 && negb (hf4_rules tx) then Ret false
    else
      after_5 ← is_hardfork_active_for_height 5 block_height hard_forks;
      r ← (if after_5 : bool then
             if version tx <? TRANSACTION_VERSION_POST_HF5 then Ret false
             else
               hf ← get_the_most_recent_hardfork_id_for_height block_height hard_forks;
               Ret (hardfork_id tx =? Z.of_nat hf)
           else Ret ((count is_eth_proof (tx_proofs tx) =? 0)%nat));
      if negb r then Ret false
      else
        after_6 ← is_hardfork_active_for_height 6 block_height hard_forks;
        Ret (if after_6 : bool then hf6_rules tx else true).

End rules.

(** ** The rules of a fork *)

(** *** The order of the inputs is an order on tags and keys *)

Definition input_key (v : txin_v) : list Z :=
  match v with
  | in_gen h => [h]
  | in_to_key i => ttk_k_image i
  | in_multisig i => tms_multisig_out_id i
  | in_gateway i => tgw_gateway_addr i
  | in_zc i => tzc_k_image i
  end.

(** [y] may stand after [x]. *)
Definition input_le (x y : txin_v) : Prop :=
  txin_tag x < txin_tag y \/ txin_tag x = txin_tag y /\ memcmp_lt (input_key y) (input_key x) = false.

Lemma memcmp_lt_irrefl a : memcmp_lt a a = false.
Proof. induction a as [|x a IH]; cbn; [done|]. by rewrite Z.ltb_irrefl. Qed.

Lemma memcmp_le_trans a b c : memcmp_lt b a = false -> memcmp_lt c b = false -> memcmp_lt c a = false.
Proof.
  revert b c. induction a as [|x a IH]; intros [|y b] [|z c]; cbn; try done.
  destruct (Z.ltb_spec y x); [done|]. destruct (Z.ltb_spec z y); [done|].
  destruct (Z.ltb_spec x y), (Z.ltb_spec y z), (Z.ltb_spec z x), (Z.ltb_spec x z); try lia; try done.
  apply IH.
Qed.

Lemma less_txin_v_spec x y : less_txin_v y x = false <-> input_le x y.
Proof.
  unfold input_le. destruct x, y; cbn; rewrite ?Z.ltb_ge; try lia;
    try (split; [intros ?; right; split; [done|done]|intros [?|[_ ?]]; [lia|done]]).
  repeat case_match; zbool; split; intros; try lia; try done; intuition lia.
Qed.

#[export] Instance input_le_trans : Transitive input_le.
Proof.
  intros x y z [H|[E H]] [H'|[E' H']]; unfold input_le; rewrite ?E, <- ?E'; [left; lia|left; lia|left; lia|].
  right. split; [done|]. by eapply memcmp_le_trans.
Qed.

Lemma sorted_loop_spec l : sorted_loop l = true <-> StronglySorted input_le l.
Proof.
  transitivity (Sorted input_le l).
  - induction l as [|x l IH]; cbn; [split; [constructor|done]|]. destruct l as [|y l].
    + split; [by repeat constructor|done].
    + destruct (less_txin_v y x) eqn:E.
      * split; [done|]. intros [_ Hh]%Sorted_inv. apply HdRel_inv in Hh. apply less_txin_v_spec in Hh. congruence.
      * rewrite IH. split; [|by intros [? _]%Sorted_inv]. intros Hs. constructor; [done|]. constructor. by apply less_txin_v_spec.
  - split; [apply Sorted_StronglySorted; exact input_le_trans|apply StronglySorted_Sorted].
Qed.

(** *** The types before hard fork 6 *)

(** The fork a type comes with, by the exclusions. *)
Definition introduced (T : term_type) : nat :=
  match T with
  | T_etc_tx_details_unlock_time2 => 1
  | T_tx_payer | T_tx_receiver | T_extra_alias_entry => 2
  | T_zarcanum_tx_data_v1 | T_txin_zc_input | T_tx_out_zarcanum => 4
  | _ => 0
  end.

(** The exclusion of the unlock times of outputs before hard fork 1 does not
    reach the attachments. *)
Definition old_term (z : nat) (e : Z * term_type) : Prop :=
  ((introduced e.2 <= z)%nat \/ e.1 = attach /\ introduced e.2 = 1%nat) /\ ((4 <= z)%nat -> e.2 <> T_tx_out_bare).

(** *** The rules *)

Definition min_version (z : nat) : Z := Z.min 4 (Z.of_nat z - 2).

Record fork_rules (z : nat) (tx : transaction) : Prop := {
  fr_types : if (z <? 6)%nat then Forall (old_term z) (contents tx) else terms_ok z (fun _ => 0) (contents tx);
  fr_version : (4 <= z)%nat -> min_version z <= version tx;
  fr_outs : (4 <= z)%nat -> 2 <= Z.of_nat (List.length (vout tx)) \/
    (if is_pos_miner_tx tx then List.length (vout tx) = 1%nat else Forall (fun o => is_gw_out o = true) (vout tx));
  fr_order : (4 <= z)%nat -> mode_separate tx = false -> StronglySorted input_le (vin tx);
  fr_separate : (4 <= z)%nat -> mode_separate tx = true ->
    is_coinbase tx = false /\ Forall (fun p => is_ado p = false) (tp_extra (tx_prefix tx));
  fr_separate_gateway : (6 <= z)%nat -> mode_separate tx = true ->
    Forall (fun i => is_gw_in i = false) (vin tx) /\ Forall (fun o => is_gw_out o = false) (vout tx);
  fr_one_ado : (4 <= z)%nat -> (count is_ado (tp_extra (tx_prefix tx)) <= 1)%nat;
  fr_cumulative_size : (4 <= z)%nat -> is_coinbase tx = false ->
    Forall (fun p => is_cumulative_size p = false) (tp_extra (tx_prefix tx));
  fr_hardfork_id : (5 <= z)%nat -> hardfork_id tx = Z.of_nat z;
  fr_eth : (z < 5)%nat -> Forall (fun p => is_eth_proof p = false) (tx_proofs tx);
  fr_sizes : (6 <= z)%nat -> Z.of_nat (List.length (vin tx)) <= 256 /\ Z.of_nat (List.length (vout tx)) <= 32;
  fr_payment_id : (6 <= z)%nat -> has_tx_wide_payment_id tx = true -> Forall (fun o => is_gw_out o = false) (vout tx);
  fr_gateway : (6 <= z)%nat -> forall gado, P_gateway_address_descriptor_operation gado ∈ tp_extra (tx_prefix tx) ->
    validate_gateway_descriptor_operation_limits gado = true
}.

Lemma before_1_spec T : is_allowed_before_hardfork1 T = negb (introduced T =? 1)%nat.
Proof. by destruct T. Qed.
Lemma before_2_spec T : is_allowed_before_hardfork2 T = negb (introduced T =? 2)%nat.
Proof. by destruct T. Qed.
Lemma before_4_spec T : is_allowed_before_hardfork4 T = negb (introduced T =? 4)%nat.
Proof. by destruct T. Qed.
Lemma introduced_values T : introduced T = 0%nat \/ introduced T = 1%nat \/ introduced T = 2%nat \/ introduced T = 4%nat.
Proof. destruct T; cbn; auto. Qed.

(** The exclusions of one container against [old_term]; only the attachments
    skip the first. *)
Lemma exclusions_spec z T (container : Z) : (z < 6)%nat ->
  (bool_decide (1 <= z)%nat || bool_decide (container = attach) || is_allowed_before_hardfork1 T) &&
  (bool_decide (2 <= z)%nat || is_allowed_before_hardfork2 T) &&
  (bool_decide (4 <= z)%nat || is_allowed_before_hardfork4 T) &&
  (negb (bool_decide (4 <= z)%nat) || is_allowed_after_hardfork4 T) = true <-> old_term z (container, T).
Proof.
  intros Hz. unfold old_term, is_allowed_after_hardfork4. cbn [fst snd]. rewrite before_1_spec, before_2_spec, before_4_spec.
  rewrite !andb_true_iff, !orb_true_iff, !negb_true_iff, !bool_decide_eq_true, bool_decide_eq_false, !Nat.eqb_neq.
  pose proof (introduced_values T). destruct (decide (T = T_tx_out_bare)) as [->|]; cbn [introduced] in *; intuition lia.
Qed.

Lemma forallb_container {A} (f : A -> bool) (type : A -> term_type) (P : Z * term_type -> Prop) (c : Z) l :
  (forall x, f x = true <-> P (c, type x)) -> forallb f l = true <-> Forall P (map (pair c) (map type l)).
Proof.
  intros Hf. rewrite map_map, Forall_map. by apply forallb_iff.
Qed.

(** *** Counting *)

Lemma count_zero {A} (f : A -> bool) l : count f l = 0%nat <-> Forall (fun x => f x = false) l.
Proof.
  unfold count. induction l as [|x l IH]; cbn; [by split|]. rewrite Forall_cons. destruct (f x) eqn:E; cbn; [|tauto].
  split; [done|]. intros [? _]. congruence.
Qed.

(** An entry the table allows once is the first of its type. *)
Lemma first_is_only {A B} (get : A -> option B) (l : list A) x b : get x = Some b -> x ∈ l ->
  (List.length (omap get l) <= 1)%nat -> get_type_in_variant_container get l = Some b.
Proof.
  intros Hx Hin Hl. unfold get_type_in_variant_container.
  assert (Hb : b ∈ omap get l) by (apply list_elem_of_omap; by exists x).
  destruct (omap get l) as [|c [|]]; cbn in *; [by apply elem_of_nil in Hb|apply list_elem_of_singleton in Hb; by subst|lia].
Qed.

Lemma occ_map_payload T c (l : list payload_items_v) : occ T (map (pair c) (map payload_type l)) = Z.of_nat (count (fun p => bool_decide (T = payload_type p)) l).
Proof.
  unfold count. induction l as [|p l IH]; cbn; [done|]. rewrite IH. case_bool_decide as E; rewrite ?decide_True, ?decide_False by done; cbn [List.length]; lia.
Qed.

(** *** The rules of each fork *)

Lemma outs_rule_spec tx :
  (if is_pos_miner_tx tx then (Z.of_nat (List.length (vout tx)) =? 1) || (2 <=? Z.of_nat (List.length (vout tx)))
   else if forallb is_gw_out (vout tx) then true else 2 <=? Z.of_nat (List.length (vout tx))) = true <->
  2 <= Z.of_nat (List.length (vout tx)) \/
    (if is_pos_miner_tx tx then List.length (vout tx) = 1%nat else Forall (fun o => is_gw_out o = true) (vout tx)).
Proof.
  pose proof (forallb_iff is_gw_out (fun o => is_gw_out o = true) (vout tx) ltac:(done)) as Hg.
  destruct (is_pos_miner_tx tx); [rewrite orb_true_iff, Z.eqb_eq, Z.leb_le; lia|].
  destruct (forallb is_gw_out (vout tx)); rewrite ?Z.leb_le; intuition done.
Qed.

Lemma hf4_rules_spec tx : hf4_rules tx = true <->
  2 <= version tx /\
  (2 <= Z.of_nat (List.length (vout tx)) \/
    (if is_pos_miner_tx tx then List.length (vout tx) = 1%nat else Forall (fun o => is_gw_out o = true) (vout tx))) /\
  (mode_separate tx = false -> StronglySorted input_le (vin tx)) /\
  (mode_separate tx = true -> is_coinbase tx = false /\ Forall (fun p => is_ado p = false) (tp_extra (tx_prefix tx))) /\
  (count is_ado (tp_extra (tx_prefix tx)) <= 1)%nat /\
  (is_coinbase tx = false -> Forall (fun p => is_cumulative_size p = false) (tp_extra (tx_prefix tx))).
Proof.
  unfold hf4_rules, validate_inputs_sorting, CURRENCY_TX_MIN_ALLOWED_OUTS, TRANSACTION_VERSION_PRE_HF4. cbv zeta.
  rewrite <- (outs_rule_spec tx), <- !count_zero, <- sorted_loop_spec.
  destruct (Z.leb_spec (version tx) 1); [split; [done|lia]|].
  match goal with |- context [if negb ?b then false else _] => destruct b; cbn [negb] end; [|split; [done|intuition done]].
  destruct (mode_separate tx), (sorted_loop (vin tx)), (is_coinbase tx); cbn [negb andb];
    rewrite ?andb_true_r, ?andb_false_r; repeat case_match; rewrite ?Nat.ltb_lt, ?Nat.ltb_ge in *;
    split; try done; intuition (try lia; try done).
Qed.

Lemma hf6_rules_spec tx : hf6_rules tx = true <->
  4 <= version tx /\ Z.of_nat (List.length (vin tx)) <= 256 /\ Z.of_nat (List.length (vout tx)) <= 32 /\
  (mode_separate tx = true -> Forall (fun i => is_gw_in i = false) (vin tx) /\ Forall (fun o => is_gw_out o = false) (vout tx)) /\
  (has_tx_wide_payment_id tx = true -> Forall (fun o => is_gw_out o = false) (vout tx)) /\
  (forall gado, get_type_in_variant_container as_gateway_operation (tp_extra (tx_prefix tx)) = Some gado ->
    validate_gateway_descriptor_operation_limits gado = true).
Proof.
  unfold hf6_rules, TRANSACTION_VERSION_POST_HF6, CURRENCY_TX_MAX_ALLOWED_INPUTS, CURRENCY_TX_MAX_ALLOWED_OUTS. cbv zeta.
  rewrite <- !existsb_false_iff.
  destruct (Z.ltb_spec (version tx) 4); [split; [done|lia]|].
  destruct (Z.ltb_spec 256 (Z.of_nat (List.length (vin tx)))); [split; [done|lia]|].
  destruct (Z.ltb_spec 32 (Z.of_nat (List.length (vout tx)))); [split; [done|lia]|].
  destruct (mode_separate tx), (existsb is_gw_in (vin tx)), (existsb is_gw_out (vout tx)), (has_tx_wide_payment_id tx);
    cbn [negb andb]; try (split; [done|intuition done]);
    (destruct (get_type_in_variant_container as_gateway_operation (tp_extra (tx_prefix tx))) as [gado|];
      (split; [intros E; repeat split; try done; try lia; intros ? [= <-]; exact E|intros (_ & _ & _ & _ & _ & Hg); by try apply Hg])).
Qed.

Lemma old_types_spec hard_forks z tx h : (z < 6)%nat ->
  (forall j, (j < ZANO_HARDFORKS_TOTAL)%nat -> is_hardfork_active_for_height j h hard_forks = Ret (bool_decide (j <= z)%nat)) ->
  exists b, validate_tx_for_hardfork_specific_terms_types_HF4 hard_forks tx h = Ret b /\
    (b = true <-> Forall (old_term z) (contents tx)).
Proof.
  intros Hz Hact. unfold validate_tx_for_hardfork_specific_terms_types_HF4.
  rewrite !Hact by (unfold ZANO_HARDFORKS_TOTAL; lia). outcome_simp. eexists. split; [reflexivity|].
  rewrite (bool_decide_false (6 <= z)%nat) by lia. cbn [negb orb].
  unfold contents. rewrite !Forall_app, !andb_true_iff.
  assert (Hfree : forall (c : Z) (l : list term_type), Forall (fun T => introduced T = 0%nat /\ T <> T_tx_out_bare) l -> Forall (old_term z) (map (pair c) l)).
  { intros c l Hl. rewrite Forall_map. eapply Forall_impl; [exact Hl|]. intros T [HT HT']. split; cbn; [left; lia|done]. }
  assert (Hp : Forall (old_term z) (map (pair proofs) (map proof_type (tx_proofs tx)))).
  { apply Hfree. rewrite Forall_map. apply Forall_true. by intros []. }
  assert (Hs : Forall (old_term z) (map (pair signtr) (map sig_type (tx_signatures tx)))).
  { apply Hfree. rewrite Forall_map. apply Forall_true. by intros []. }
  rewrite (forallb_container _ in_type (old_term z) input), (forallb_container _ out_type (old_term z) output),
    (forallb_container _ payload_type (old_term z) extra), (forallb_container _ payload_type (old_term z) attach); [tauto|..];
    intros x; rewrite <- exclusions_spec by done;
    [change (bool_decide (attach = attach)) with true|change (bool_decide (extra = attach)) with false
    |change (bool_decide (output = attach)) with false|change (bool_decide (input = attach)) with false];
    unfold is_allowed_before_hardfork3; rewrite ?orb_true_r, ?orb_false_r, ?andb_true_r; cbn [andb orb]; done.
Qed.

(** The gateway operation of a transaction the table allows is the one found. *)
Lemma gateway_operation_found z tx gado : (6 <= z < 9)%nat -> terms_ok z (fun _ => 0) (contents tx) ->
  P_gateway_address_descriptor_operation gado ∈ tp_extra (tx_prefix tx) ->
  get_type_in_variant_container as_gateway_operation (tp_extra (tx_prefix tx)) = Some gado.
Proof.
  intros Hz [Hp Ho] Hin. eapply first_is_only; [|exact Hin|]; [done|].
  assert (Hc : (extra, T_gateway_address_descriptor_operation) ∈ map (pair extra) (map payload_type (tp_extra (tx_prefix tx)))).
  { rewrite map_map. apply list_elem_of_In, in_map_iff. eexists. split; [|by apply list_elem_of_In]. done. }
  assert (Hc' : (extra, T_gateway_address_descriptor_operation) ∈ contents tx) by (unfold contents; set_solver).
  rewrite List.Forall_forall in Hp. destruct (Hp _ (proj1 (list_elem_of_In _ _) Hc')) as [_ Hno]. cbn [snd] in Hno.
  assert (z = 6)%nat as -> by (destruct (decide (z = 6)%nat); [done|]; assert (z = 7 \/ z = 8)%nat as [-> | ->] by lia; by destruct Hno).
  assert (Hone := Ho T_gateway_address_descriptor_operation). ospecialize (Hone _ _).
  { apply list_elem_of_In, in_map_iff. eexists. split; [|by apply list_elem_of_In]. done. }
  { done. }
  rename Hone into Ho'.
  unfold contents in Ho'. rewrite occ_app, occ_map_payload in Ho'.
  pose proof (occ_nonneg T_gateway_address_descriptor_operation (map (pair attach) (map payload_type (tx_attachment tx)) ++
    map (pair input) (map in_type (vin tx)) ++ map (pair output) (map out_type (vout tx)) ++
    map (pair proofs) (map proof_type (tx_proofs tx)) ++ map (pair signtr) (map sig_type (tx_signatures tx)))).
  assert (Hlen : List.length (omap as_gateway_operation (tp_extra (tx_prefix tx))) =
    count (fun p => bool_decide (T_gateway_address_descriptor_operation = payload_type p)) (tp_extra (tx_prefix tx))); [|lia].
  unfold count. clear. induction (tp_extra (tx_prefix tx)) as [|p l IH]; [done|]. destruct p; cbn in *; try exact IH. by rewrite IH.
Qed.

Lemma fork_rules_spec hard_forks z tx h : (z < ZANO_HARDFORKS_TOTAL)%nat ->
  get_the_most_recent_hardfork_id_for_height h hard_forks = Ret z ->
  (forall j, (j < ZANO_HARDFORKS_TOTAL)%nat -> is_hardfork_active_for_height j h hard_forks = Ret (bool_decide (j <= z)%nat)) ->
  exists b, validate_tx_for_hardfork_specific_terms hard_forks tx h = Ret b /\ (b = true <-> fork_rules z tx).
Proof.
  intros Hz Ez Hact. unfold validate_tx_for_hardfork_specific_terms. unfold ZANO_HARDFORKS_TOTAL in *.
  rewrite !Hact by lia. outcome_simp. rewrite Ez. outcome_simp.
  assert (Ht : exists t, (if bool_decide (6 <= z)%nat then validate_tx_for_hardfork_specific_terms_types_HF6 tx z
             else validate_tx_for_hardfork_specific_terms_types_HF4 hard_forks tx h) = Ret t /\
            (t = true <-> if (z <? 6)%nat then Forall (old_term z) (contents tx) else terms_ok z (fun _ => 0) (contents tx))).
  { case_bool_decide.
    - rewrite (proj2 (Nat.ltb_ge z 6)) by lia. apply validate_terms_spec. lia.
    - rewrite (proj2 (Nat.ltb_lt z 6)) by lia. apply old_types_spec; [lia|done]. }
  destruct Ht as (t & -> & Ht). outcome_simp.
  assert (Hv : (bool_decide (4 <= z)%nat && negb (hf4_rules tx)) = false <-> ((4 <= z)%nat -> hf4_rules tx = true)).
  { case_bool_decide; cbn [andb]; rewrite ?negb_false_iff; tauto. }
  pose proof (hf4_rules_spec tx) as H4. pose proof (hf6_rules_spec tx) as H6.
  pose proof (count_zero is_eth_proof (tx_proofs tx)) as He.
  destruct t; cbn [negb]; [|eexists; split; [reflexivity|]; split; [done|]; intros Hr; by apply Ht, Hr].
  destruct (bool_decide (4 <= z)%nat && negb (hf4_rules tx)) eqn:E4.
  { eexists. split; [reflexivity|]. split; [done|]. intros Hr. apply andb_prop in E4 as [Hz4%bool_decide_eq_true E4].
    apply negb_true_iff in E4. rewrite (proj2 H4) in E4; [done|]. destruct Hr.
    specialize (fr_version0 Hz4). unfold min_version in *. repeat split; auto; try lia. all: by apply fr_separate0. }
  assert (H4' := proj1 Hv eq_refl).
  match goal with |- context [mbind _ (if bool_decide (5 <= z)%nat then ?a else ?b)] =>
    assert (H5 : exists r, (if bool_decide (5 <= z)%nat then a else b) = Ret r /\
      (r = true <-> ((5 <= z)%nat -> 3 <= version tx /\ hardfork_id tx = Z.of_nat z) /\
                    ((z < 5)%nat -> Forall (fun p => is_eth_proof p = false) (tx_proofs tx)))) end.
  { unfold TRANSACTION_VERSION_POST_HF5. destruct (decide (5 <= z)%nat); [rewrite bool_decide_true by done|rewrite bool_decide_false by done].
    - destruct (Z.ltb_spec (version tx) 3); (eexists; split; [reflexivity|]).
      + split; [done|]. intros [H3 _]. specialize (H3 ltac:(lia)). lia.
      + rewrite Z.eqb_eq. split; [intros; split; [done|lia]|]. intros [H3 _]. by apply H3.
    - eexists. split; [reflexivity|]. rewrite Nat.eqb_eq, He. split; [intros; split; [lia|done]|]. intros [_ H3]. apply H3. lia. }
  destruct H5 as (r & -> & H5). outcome_simp. destruct r; cbn [negb].
  2: { eexists. split; [reflexivity|]. split; [done|]. intros []. apply H5. unfold min_version in *.
       split; [|done]. intros H. specialize (fr_version0 ltac:(lia)). split; [lia|auto]. }
  destruct (proj1 H5 eq_refl) as [H5a H5b].
  eexists. split; [reflexivity|]. split.
  - intros E6. assert (H6' : (6 <= z)%nat -> hf6_rules tx = true) by (intros ?; by rewrite bool_decide_true in E6).
    rewrite H6 in H6'. rewrite H4 in H4'. clear H4 H6 Hv H5 He Hact.
    constructor.
    + by apply Ht.
    + intros Hz4. unfold min_version. destruct (decide (6 <= z)%nat) as [Hz6|]; [destruct (H6' Hz6); lia|].
      destruct (decide (5 <= z)%nat) as [Hz5|]; [destruct (H5a Hz5); lia|]. destruct (H4' Hz4). lia.
    + intros Hz4. apply (H4' Hz4).
    + intros Hz4. apply (H4' Hz4).
    + intros Hz4. apply (H4' Hz4).
    + intros Hz6. apply (H6' Hz6).
    + intros Hz4. apply (H4' Hz4).
    + intros Hz4. apply (H4' Hz4).
    + intros Hz5. apply (H5a Hz5).
    + done.
    + intros Hz6. destruct (H6' Hz6) as (_ & ? & ? & _). done.
    + intros Hz6. apply (H6' Hz6).
    + intros Hz6 gado Hin. apply (H6' Hz6). eapply gateway_operation_found; [|
        rewrite (proj2 (Nat.ltb_ge z 6)) in Ht by lia; by apply Ht|done]. lia.
  - intros []. destruct (decide (6 <= z)%nat); [rewrite bool_decide_true by done|by rewrite bool_decide_false]. apply H6. specialize (fr_version0 ltac:(lia)). unfold min_version in *.
    repeat split; auto; try lia; try (apply fr_sizes0; lia). all: try (by apply fr_separate_gateway0).
    intros gado Hg. apply fr_gateway0; [done|]. unfold get_type_in_variant_container in Hg.
    assert (Hg' : gado ∈ omap as_gateway_operation (tp_extra (tx_prefix tx))).
    { destruct (omap as_gateway_operation _); [done|]. cbn in Hg. injection Hg as ->. by left. }
    apply list_elem_of_omap in Hg' as (p & Hp & Eg). by destruct p; try done; injection Eg as ->.
Qed.

(** What the table allows at a fork before 6 passes the exclusions. *)
Lemma table_within_exclusions z tx : (z < 6)%nat -> terms_ok z (fun _ => 0) (contents tx) -> Forall (old_term z) (contents tx).
Proof.
  intros Hz [Hp _]. eapply Forall_impl; [exact Hp|]. intros [c T] [_ Ht]. unfold term, old_term in *. cbn [fst snd] in *.
  do 6 (destruct z as [|z]; [destruct T; cbn in *; (split; [left; lia|intros; try lia; done]) || done|]). lia.
Qed.

(** C28: At every height of a well-formed schedule the validation decides the
    rules of the most recent hard fork: the types (the table from fork 6 on, the
    exclusions before), the version, the numbers of inputs and outputs, the order
    of the inputs, which is an order on tags and keys over the whole list, the
    signature mode, and what goes with gateway outputs; it never throws. *)
Theorem hardfork_rules_decided hard_forks tx h : wf hard_forks ->
  exists z b, get_the_most_recent_hardfork_id_for_height h hard_forks = Ret z /\
    validate_tx_for_hardfork_specific_terms hard_forks tx h = Ret b /\ (b = true <-> fork_rules z tx).
Proof.
  intros Hw. destruct (most_recent_spec h hard_forks Hw) as (z & Ez & Hz & Hact).
  destruct (fork_rules_spec hard_forks z tx h Hz Ez Hact) as (b & E & Hb). by exists z, b.
Qed.

Definition no_gateways (tx : transaction) : Prop :=
  Forall (fun i => is_gw_in i = false) (vin tx) /\ Forall (fun o => is_gw_out o = false) (vout tx) /\
  forall gado, P_gateway_address_descriptor_operation gado ∉ tp_extra (tx_prefix tx).

Lemma permitted_contents z tx (c : Z) T : terms_ok z (fun _ => 0) (contents tx) -> (c, T) ∈ contents tx -> term z T <> no.
Proof.
  intros [Hp _] Hin. rewrite List.Forall_forall in Hp. apply (Hp (c, T)). by apply list_elem_of_In.
Qed.

Lemma elem_of_tagged {A} (x : A) (type : A -> term_type) (c : Z) l : x ∈ l -> (c, type x) ∈ map (pair c) (map type l).
Proof. intros Hx. apply list_elem_of_In. do 2 apply in_map. by apply list_elem_of_In. Qed.

Lemma no_gateways_at_7 tx : terms_ok 7 (fun _ => 0) (contents tx) -> no_gateways tx.
Proof.
  intros Ht. assert (Hno : forall c T, term 7 T = no -> (c, T) ∉ contents tx) by (intros c T HT Hin; by apply (permitted_contents _ _ _ _ Ht Hin)).
  unfold contents in Hno. repeat split.
  - apply list.Forall_forall. intros i Hi. destruct i as [| | |g|]; try done. destruct (Hno input T_txin_gateway eq_refl).
    rewrite !elem_of_app. right; right; left. by apply (elem_of_tagged (in_gateway g) in_type).
  - apply list.Forall_forall. intros o Hi. destruct o as [| |g]; try done. destruct (Hno output T_tx_out_gateway eq_refl).
    rewrite !elem_of_app. right; right; right; left. by apply (elem_of_tagged (out_gateway g) out_type).
  - intros gado Hi. destruct (Hno extra T_gateway_address_descriptor_operation eq_refl).
    rewrite !elem_of_app. left. by apply (elem_of_tagged _ payload_type extra _ Hi).
Qed.

(** On the main network hard forks 6 and 7 start at the same height, so fork 6,
    the only one whose terms have gateway addresses, is never the most recent one:
    above that height no transaction with a gateway input, output or operation is
    accepted. *)
Theorem mainnet_gateways_disabled tx h : 3833000 < h ->
  validate_tx_for_hardfork_specific_terms (HardForks.hard_forks mainnet_config) tx h = Ret true -> no_gateways tx.
Proof.
  intros Hh E. destruct (most_recent_spec h _ mainnet_wf) as (z & Ez & Hz & Hact).
  assert (z = 7)%nat as ->.
  { assert (H7 := Hact 7%nat ltac:(unfold ZANO_HARDFORKS_TOTAL; lia)). rewrite active_spec in H7 by (unfold ZANO_HARDFORKS_TOTAL; lia).
    change (ld (HardForks.hard_forks mainnet_config) 7) with 3833000 in H7. rewrite (proj2 (Z.ltb_lt _ _) Hh) in H7.
    cbn in H7. injection H7 as H7. symmetry in H7. apply bool_decide_eq_true in H7. unfold ZANO_HARDFORKS_TOTAL in *. lia. }
  destruct (fork_rules_spec _ _ tx h Hz Ez Hact) as (b & E' & Hb). rewrite E in E'. injection E' as <-.
  apply no_gateways_at_7. by apply Hb.
Qed.

(** ** Transactions with open amounts *)

Definition open_input (i : txin_v) : Prop := match i with in_to_key _ | in_multisig _ | in_gateway _ => True | in_gen _ | in_zc _ => False end.
Definition open_output (o : tx_out_v) : Prop := match o with out_bare _ | out_gateway _ => True | out_zarcanum _ => False end.

(** What the gateway outputs take of the native coin. *)
Definition gateway_output (o : tx_out_v) : Z := if is_gw_out o then native_output o else 0.

Lemma native_split l : sum_Z (map native_output l) = sum_Z (map bare_output l) + sum_Z (map gateway_output l).
Proof.
  induction l as [|o l IH]; [done|]. cbn [map]. rewrite !sum_Z_cons, IH.
  assert (native_output o = bare_output o + gateway_output o); [|lia].
  destruct o as [b|z|g]; cbn; unfold native_output; cbn; lia.
Qed.

Lemma no_gateway_outputs l : Forall (fun o => is_gw_out o = false) l -> sum_Z (map gateway_output l) = 0.
Proof. induction 1 as [|o l Ho _ IH]; [done|]. cbn [map]. rewrite sum_Z_cons, IH. unfold gateway_output. by rewrite Ho. Qed.

(** A transaction of the first versions is accepted below hard fork 4 only, and
    hides no amount. *)
Lemma first_versions_open hard_forks tx h : wf hard_forks -> version tx <= 1 -> Forall (fun i => is_gen i = false) (vin tx) ->
  validate_tx_for_hardfork_specific_terms hard_forks tx h = Ret true -> Forall open_input (vin tx) /\ Forall open_output (vout tx).
Proof.
  intros Hw Hv Hg E. destruct (most_recent_spec h hard_forks Hw) as (z & Ez & Hz & Hact).
  destruct (fork_rules_spec hard_forks z tx h Hz Ez Hact) as (b & E' & Hb). rewrite E in E'. injection E' as <-.
  destruct (proj1 Hb eq_refl) as [Ht Hver _ _ _ _ _ _ _ _ _ _ _].
  assert (Hz4 : (z < 4)%nat) by (destruct (decide (4 <= z)%nat) as [H4|]; [specialize (Hver H4); unfold min_version in Hver; lia|lia]).
  rewrite (proj2 (Nat.ltb_lt z 6)) in Ht by lia. rewrite list.Forall_forall in Ht.
  assert (Hno : forall c T, introduced T = 4%nat -> (c, T) ∉ contents tx).
  { intros c T HT Hin. destruct (Ht (c, T) Hin) as [[H|[_ H]] _]; cbn in H; lia. }
  unfold contents in Hno. rewrite list.Forall_forall in Hg. split; apply list.Forall_forall.
  - intros i Hi. specialize (Hg i Hi). destruct i as [| | | |zc]; try done. destruct (Hno input T_txin_zc_input eq_refl).
    rewrite !elem_of_app. right; right; left. by apply (elem_of_tagged (in_zc zc) in_type).
  - intros o Ho. destruct o as [|oz|]; try done. destruct (Hno output T_tx_out_zarcanum eq_refl).
    rewrite !elem_of_app. right; right; right; left. by apply (elem_of_tagged (out_zarcanum oz) out_type).
Qed.

(** C8: a transaction of the first versions that passes the semantic validation
    and the rules of the hard forks at a height hides no amount, and when its
    gateway inputs are of the native coin it creates no coins, but for its gateway
    outputs, which neither the balance check nor the fee counts: over the
    integers, all its outputs of the native coin and the fee the daemon computes
    are exactly its inputs and its gateway outputs; so without gateway
    outputs, the outputs and the fee are exactly the inputs.  Both conditions are
    needed: [TxSemantic.foreign_gateway_input_counts] and
    [gateway_output_uncounted]. *)
Theorem bare_transaction_conserves_coins hard_forks check_key tx tx_blob_size h :
  wf hard_forks -> amounts_u64 tx -> 0 <= hardfork_id tx < 9 -> version tx <= 1 ->
  (forall g, in_gateway g ∈ vin tx -> tgw_asset_id g = native_coin_asset_id_1div8) ->
  validate_tx_semantic check_key tx tx_blob_size = Ret true ->
  validate_tx_for_hardfork_specific_terms hard_forks tx h = Ret true ->
  Forall open_input (vin tx) /\ Forall open_output (vout tx) /\
  exists fee, get_tx_fee tx = Some fee /\ 0 <= fee /\
    sum_Z (map native_output (vout tx)) + fee = sum_Z (map native_input (vin tx)) + sum_Z (map gateway_output (vout tx)) /\
    (Forall (fun o => is_gw_out o = false) (vout tx) ->
     sum_Z (map native_output (vout tx)) + fee = sum_Z (map native_input (vin tx))).
Proof.
  intros Hw Ha Hh Hv Hg Es Ef. destruct (bare_fee_exact check_key tx tx_blob_size Ha Hh Hv Hg Es) as [Hle Hfee].
  assert (Hgen : Forall (fun i => is_gen i = false) (vin tx)).
  { destruct (validate_tx_semantic_spec check_key tx tx_blob_size Ha Hh) as (b & E & Hb). rewrite Es in E. injection E as <-.
    destruct (proj1 Hb eq_refl) as [_ _ _ _ Hc _ _ _ _ _ _ _ _ _]. exact Hc. }
  destruct (first_versions_open hard_forks tx h Hw Hv Hgen Ef) as [Hi Ho]. split; [done|]. split; [done|].
  eexists. split; [exact Hfee|]. split; [lia|]. pose proof (native_split (vout tx)) as Hs.
  split; [lia|]. intros Hno. apply no_gateway_outputs in Hno. lia.
Qed.

(** ** Examples *)

(** 700 and 400 and 20 from a gateway address pay 1000, 50 and the fee. *)
Example bare_transaction_conserves_coins_witness :
  get_tx_fee demo_spend = Some 70 /\ sum_Z (map native_output (vout demo_spend)) + 70 = sum_Z (map native_input (vin demo_spend)).
Proof.
  destruct (bare_transaction_conserves_coins (HardForks.hard_forks mainnet_config) demo_check_key demo_spend 2000 10 mainnet_wf demo_spend_amounts)
    as (_ & _ & fee & Hfee & _ & _ & E); [cbn; lia|cbn; lia| |vm_compute; reflexivity|vm_compute; reflexivity|].
  - intros g Hg. apply list_elem_of_In in Hg. cbn in Hg. destruct Hg as [Eg|[Eg|[Eg|[]]]]; [discriminate..|].
    injection Eg as <-. reflexivity.
  - assert (fee = 70) as -> by (vm_compute in Hfee; congruence). split; [exact Hfee|]. apply E. repeat constructor.
Defined.

(** A gateway output of an old transaction is counted by no check: 700 coins go
    in, 100 and 5000 come out, and the fee is 600. *)
Example gateway_output_uncounted :
  let gateway := out_gateway {| ogw_version := 0; ogw_gateway_addr := key_of 2; ogw_asset_id := native_coin_asset_id_1div8;
                                ogw_amount := 5000; ogw_payment_id := 0 |} in
  let tx := demo_bare 1 0 [demo_in 700 1] [demo_out 100; gateway] in
  validate_tx_semantic demo_check_key tx 2000 = Ret true /\
  validate_tx_for_hardfork_specific_terms (HardForks.hard_forks mainnet_config) tx 10 = Ret true /\
  get_tx_fee tx = Some 600 /\ sum_Z (map native_input (vin tx)) = 700 /\ sum_Z (map native_output (vout tx)) = 5100.
Proof. vm_compute. split; [done|]. split; [done|]. split; done. Qed.

Definition demo_zarcanum_out (n : Z) : tx_out_v := out_zarcanum {|
  oz_version := 0; oz_stealth_address := key_of n; oz_concealing_point := key_of 12; oz_amount_commitment := key_of 13;
  oz_blinded_asset_id := key_of 14; oz_encrypted_amount := 5; oz_encrypted_payment_id := 6; oz_mix_attr := 0 |}.
Definition demo_old_tx (ver hf : Z) (ins : list txin_v) (ex : list payload_items_v) : transaction := {|
  tx_prefix := {| tp_version := ver; tp_hardfork_id := hf; tp_vin := ins; tp_extra := ex;
                  tp_vout := [demo_zarcanum_out 11; demo_zarcanum_out 12] |};
  tx_attachment := []; tx_signatures := []; tx_proofs := [] |}.
Definition demo_zc (n : Z) : txin_v := in_zc {| tzc_key_offsets := [ref_global_index 1]; tzc_k_image := key_of n; tzc_etc_details := [] |}.

(** Inputs in order and out of order, at hard fork 5. *)
Example hardfork_rules_decided_witness :
  validate_tx_for_hardfork_specific_terms (HardForks.hard_forks mainnet_config) (demo_old_tx 3 5 [demo_zc 1; demo_zc 2] []) 3500000 = Ret true /\
  fork_rules 5 (demo_old_tx 3 5 [demo_zc 1; demo_zc 2] []) /\ ~ fork_rules 5 (demo_old_tx 3 5 [demo_zc 2; demo_zc 1] []).
Proof.
  assert (E1 : validate_tx_for_hardfork_specific_terms (HardForks.hard_forks mainnet_config) (demo_old_tx 3 5 [demo_zc 1; demo_zc 2] []) 3500000 = Ret true) by reflexivity.
  assert (E2 : validate_tx_for_hardfork_specific_terms (HardForks.hard_forks mainnet_config) (demo_old_tx 3 5 [demo_zc 2; demo_zc 1] []) 3500000 = Ret false) by reflexivity.
  assert (E3 : get_the_most_recent_hardfork_id_for_height 3500000 (HardForks.hard_forks mainnet_config) = Ret 5%nat) by reflexivity.
  destruct (hardfork_rules_decided _ (demo_old_tx 3 5 [demo_zc 1; demo_zc 2] []) 3500000 mainnet_wf) as (z & b & Ez & E & H).
  destruct (hardfork_rules_decided _ (demo_old_tx 3 5 [demo_zc 2; demo_zc 1] []) 3500000 mainnet_wf) as (z' & b' & Ez' & E' & H').
  assert (z = 5%nat) as -> by congruence. assert (z' = 5%nat) as -> by congruence.
  assert (b = true) as -> by congruence. assert (b' = false) as -> by congruence.
  split; [exact E1|]. split; [by apply H|]. intros Hr. by apply H' in Hr.
Defined.

Definition demo_tx_hf7 : transaction := demo_old_tx 4 7 [demo_zc 1] [].
Example mainnet_gateways_disabled_witness : 3833000 < 4000000 /\ no_gateways demo_tx_hf7.
Proof. split; [lia|]. by apply (mainnet_gateways_disabled demo_tx_hf7 4000000). Defined.

(** The exclusions before hard fork 6 do not name the types that come with it: a
    registration of a gateway address, which the table forbids at fork 5, is
    accepted there. *)
Example registration_before_fork_6 :
  let register := P_gateway_address_descriptor_operation {| gado_version := 0;
    gado_operation := ga_register {| gar_version := 0; gar_view_pub_key := key_of 1;
      gar_descriptor := {| gadb_version := 0; gadb_owner_key := gok_public_key (key_of 2); gadb_etc := []; gadb_meta_info := [] |} |} |} in
  let tx := demo_old_tx 3 5 [demo_zc 1; demo_zc 2] [register] in
  validate_tx_for_hardfork_specific_terms (HardForks.hard_forks mainnet_config) tx 3500000 = Ret true /\
  validate_tx_for_hardfork_specific_terms_types_HF6 tx 5 = Ret false.
Proof. split; reflexivity. Qed.
