(* ===== verification/Chain.v ===== *)
(** * Transactions in the blockchain: [src/src/currency_core/blockchain_storage.cpp]

    Adding a transaction of a block to the containers of the blockchain, and
    taking it back when the block is removed: the index of the transactions, the
    spent key images, the index of the outputs of each amount, the multisignature
    outputs, the gateway addresses with their history, the assets, the aliases and
    the services.  The memory pool, the locks and the performance counters are left
    out. *)

From S2P Require Import Prelude Config HardForks Archive Keccak Pod CryptoTypes Basic Transactions HfTerms TxSemantic StateM DbArrays Gateway Assets Aliases TxHardforks.

(** ** Data *)

Record transaction_chain_entry : Type := {
  tce_tx : transaction;
  m_keeper_block_height : Z;
  m_global_output_indexes : list Z;
  m_spent_flags : list bool
}.

Record global_output_entry : Type := { goe_tx_id : hash; goe_out_no : Z }.
Definition construct_output_entry (tx_id : hash) (out_no : Z) : global_output_entry :=
  {| goe_tx_id := tx_id; goe_out_no := u32 out_no |}.

Record ms_output_entry : Type := { moe_tx_id : hash; moe_out_no : Z; moe_spent_height : Z }.
Definition construct_ms_entry (tx_id : hash) (out_no : Z) : ms_output_entry :=
  {| moe_tx_id := tx_id; moe_out_no := u32 out_no; moe_spent_height := 0 |}.

(** ** Services: [bc_attachments_service_manager.cpp]

    A registered service is an object behind the interface [i_bc_service]; the
    manager finds it by its identifier. *)

Class i_bc_service := {
  service : Type;
  service_entry_push : tx_service_attachment -> Z -> transaction -> Z -> hash -> Z -> service -> service;
  service_entry_pop : tx_service_attachment -> Z -> transaction -> Z -> Z -> service -> service
}.

Section services.
Context `{i_bc_service}.

Abbreviation services_manager := (gmap (list Z) service).

Definition handle_entry_push (a : tx_service_attachment) (i : Z) (tx : transaction) (h : Z) (bl_id : hash) (timestamp : Z)
    (m_services : services_manager) : services_manager :=
  match m_services !! tsa_service_id a with
  | Some srv => <[tsa_service_id a := service_entry_push a i tx h bl_id timestamp srv]> m_services
  | None => m_services
  end.

Definition handle_entry_pop (a : tx_service_attachment) (i : Z) (tx : transaction) (h : Z) (timestamp : Z)
    (m_services : services_manager) : services_manager :=
  match m_services !! tsa_service_id a with
  | Some srv => <[tsa_service_id a := service_entry_pop a i tx h timestamp srv]> m_services
  | None => m_services
  end.

Definition is_service_attachment (at_ : payload_items_v) : bool :=
  match at_ with P_tx_service_attachment _ => true | _ => false end.
Definition get_service_attachments_count_in_tx (tx : transaction) : nat := count is_service_attachment (tx_attachment tx).

(** The loop, counting the service attachments. *)
Fixpoint process_attachments_loop (l : list payload_items_v) (cnt : Z) (tx : transaction) (h : Z) (bl_id : hash)
    (timestamp : Z) (s : services_manager) : services_manager :=
  match l with
  | [] => s
  | P_tx_service_attachment a :: l =>
      process_attachments_loop l (cnt + 1) tx h bl_id timestamp (handle_entry_push a cnt tx h bl_id timestamp s)
  | _ :: l => process_attachments_loop l cnt tx h bl_id timestamp s
  end.
Definition process_blockchain_tx_attachments (tx : transaction) (h : Z) (bl_id : hash) (timestamp : Z)
    (s : services_manager) : services_manager :=
  process_attachments_loop (tx_attachment tx) 0 tx h bl_id timestamp s.

(** Over the reversed attachments, counting down. *)
Fixpoint unprocess_attachments_loop (l : list payload_items_v) (cnt_serv_attach : Z) (tx : transaction) (h : Z)
    (timestamp : Z) (s : services_manager) : services_manager :=
  match l with
  | [] => s
  | P_tx_service_attachment a :: l =>
      unprocess_attachments_loop l (cnt_serv_attach - 1) tx h timestamp (handle_entry_pop a cnt_serv_attach tx h timestamp s)
  | _ :: l => unprocess_attachments_loop l cnt_serv_attach tx h timestamp s
  end.
Definition unprocess_blockchain_tx_attachments (tx : transaction) (h : Z) (timestamp : Z) (s : services_manager) : services_manager :=
  let cnt_serv_attach := get_service_attachments_count_in_tx tx in
  if (cnt_serv_attach =? 0)%nat then s
  else unprocess_attachments_loop (rev (tx_attachment tx)) (Z.of_nat cnt_serv_attach - 1) tx h timestamp s.

End services.

(** ** The containers *)

Record chain {TO TG SV : Type} : Type := {
  m_db_transactions : gmap hash transaction_chain_entry;
  m_db_spent_keys : gmap key_image Z;
  m_db_outputs : TO;
  m_db_multisig_outs : gmap hash ms_output_entry;
  m_db_gateway_addresses : gateway_addresses;
  m_db_gateway_transactions : TG;
  m_db_assets : assets_db;
  m_aliases : alias_db;
  m_services_mgr : gmap (list Z) SV
}.
Arguments chain : clear implicits.

Section setters.
Context {TO TG SV : Type}.
Implicit Types s : chain TO TG SV.

Definition set_transactions (x : gmap hash transaction_chain_entry) s : chain TO TG SV :=
  {| m_db_transactions := x; m_db_spent_keys := m_db_spent_keys s; m_db_outputs := m_db_outputs s;
     m_db_multisig_outs := m_db_multisig_outs s; m_db_gateway_addresses := m_db_gateway_addresses s;
     m_db_gateway_transactions := m_db_gateway_transactions s; m_db_assets := m_db_assets s; m_aliases := m_aliases s;
     m_services_mgr := m_services_mgr s |}.
Definition set_spent_keys (x : gmap key_image Z) s : chain TO TG SV :=
  {| m_db_transactions := m_db_transactions s; m_db_spent_keys := x; m_db_outputs := m_db_outputs s;
     m_db_multisig_outs := m_db_multisig_outs s; m_db_gateway_addresses := m_db_gateway_addresses s;
     m_db_gateway_transactions := m_db_gateway_transactions s; m_db_assets := m_db_assets s; m_aliases := m_aliases s;
     m_services_mgr := m_services_mgr s |}.
Definition set_outputs (x : TO) s : chain TO TG SV :=
  {| m_db_transactions := m_db_transactions s; m_db_spent_keys := m_db_spent_keys s; m_db_outputs := x;
     m_db_multisig_outs := m_db_multisig_outs s; m_db_gateway_addresses := m_db_gateway_addresses s;
     m_db_gateway_transactions := m_db_gateway_transactions s; m_db_assets := m_db_assets s; m_aliases := m_aliases s;
     m_services_mgr := m_services_mgr s |}.
Definition set_multisig_outs (x : gmap hash ms_output_entry) s : chain TO TG SV :=
  {| m_db_transactions := m_db_transactions s; m_db_spent_keys := m_db_spent_keys s; m_db_outputs := m_db_outputs s;
     m_db_multisig_outs := x; m_db_gateway_addresses := m_db_gateway_addresses s;
     m_db_gateway_transactions := m_db_gateway_transactions s; m_db_assets := m_db_assets s; m_aliases := m_aliases s;
     m_services_mgr := m_services_mgr s |}.
Definition set_gateway_addresses (x : gateway_addresses) s : chain TO TG SV :=
  {| m_db_transactions := m_db_transactions s; m_db_spent_keys := m_db_spent_keys s; m_db_outputs := m_db_outputs s;
     m_db_multisig_outs := m_db_multisig_outs s; m_db_gateway_addresses := x;
     m_db_gateway_transactions := m_db_gateway_transactions s; m_db_assets := m_db_assets s; m_aliases := m_aliases s;
     m_services_mgr := m_services_mgr s |}.
Definition set_gateway_transactions (x : TG) s : chain TO TG SV :=
  {| m_db_transactions := m_db_transactions s; m_db_spent_keys := m_db_spent_keys s; m_db_outputs := m_db_outputs s;
     m_db_multisig_outs := m_db_multisig_outs s; m_db_gateway_addresses := m_db_gateway_addresses s;
     m_db_gateway_transactions := x; m_db_assets := m_db_assets s; m_aliases := m_aliases s;
     m_services_mgr := m_services_mgr s |}.
Definition set_assets (x : assets_db) s : chain TO TG SV :=
  {| m_db_transactions := m_db_transactions s; m_db_spent_keys := m_db_spent_keys s; m_db_outputs := m_db_outputs s;
     m_db_multisig_outs := m_db_multisig_outs s; m_db_gateway_addresses := m_db_gateway_addresses s;
     m_db_gateway_transactions := m_db_gateway_transactions s; m_db_assets := x; m_aliases := m_aliases s;
     m_services_mgr := m_services_mgr s |}.
Definition set_alias_db (x : alias_db) s : chain TO TG SV :=
  {| m_db_transactions := m_db_transactions s; m_db_spent_keys := m_db_spent_keys s; m_db_outputs := m_db_outputs s;
     m_db_multisig_outs := m_db_multisig_outs s; m_db_gateway_addresses := m_db_gateway_addresses s;
     m_db_gateway_transactions := m_db_gateway_transactions s; m_db_assets := m_db_assets s; m_aliases := x;
     m_services_mgr := m_services_mgr s |}.
Definition set_services (x : gmap (list Z) SV) s : chain TO TG SV :=
  {| m_db_transactions := m_db_transactions s; m_db_spent_keys := m_db_spent_keys s; m_db_outputs := m_db_outputs s;
     m_db_multisig_outs := m_db_multisig_outs s; m_db_gateway_addresses := m_db_gateway_addresses s;
     m_db_gateway_transactions := m_db_gateway_transactions s; m_db_assets := m_db_assets s; m_aliases := m_aliases s;
     m_services_mgr := x |}.

End setters.

(** The identifier of a multisignature output hashes the output with the key of
    its transaction. *)
Definition c_multisig_id_generator : codec (public_key * list tx_out_bare) := c_public_key ⊗ c_vector c_tx_out_bare.

Definition as_public_key (p : payload_items_v) : option public_key := match p with P_public_key k => Some k | _ => None end.
Definition get_tx_pub_key_from_extra (tx : transaction) : public_key :=
  default null_pkey (get_type_in_variant_container as_public_key (tp_extra (tx_prefix tx))).

Definition get_multisig_out_id (tx : transaction) (n : nat) : hash :=
  match vout tx !! n with
  | Some (out_bare o) =>
      match ob_target o with
      | target_multisig _ =>
          cn_fast_hash (default [] (t_serializable_object_to_blob c_multisig_id_generator (get_tx_pub_key_from_extra tx, [o])))
      | target_to_key _ => null_hash
      end
  | _ => null_hash
  end.

Section blockchain.
Context `{GatewayCrypto, AssetCrypto, i_bc_service}.
Context {TO TG : Type} {AO : ArrayStore Z global_output_entry TO} {AG : ArrayStore gateway_address_id_type hash TG}.
Abbreviation storage := (chain TO TG service).

(** The configuration of the network. *)
Context (hard_forks : hard_forks_descriptor) (alias_validation_pubkey : public_key).

(** The parts of the state the components work on. *)
Definition on_outputs {A} : st TO A -> st storage A := zoom m_db_outputs set_outputs.
Definition on_gateways {A} : st gateway_addresses A -> st storage A := zoom m_db_gateway_addresses set_gateway_addresses.
Definition on_gateway_transactions {A} : st TG A -> st storage A := zoom m_db_gateway_transactions set_gateway_transactions.
Definition on_assets {A} : st assets_db A -> st storage A := zoom m_db_assets set_assets.
Definition on_aliases {A} : st alias_db A -> st storage A := zoom m_aliases set_alias_db.

(** [get_subitem(key, i)] dereferenced: a null pointer crashes. *)
Definition deref {A} (r : result (option A)) : result A :=
  match r with Ok (Some a) => Ok a | Ok None | Exn => Exn | Fail => Fail end.

(** ** Marking outputs as spent *)

Definition with_flags (flags : list bool) (e : transaction_chain_entry) : transaction_chain_entry :=
  {| tce_tx := tce_tx e; m_keeper_block_height := m_keeper_block_height e;
     m_global_output_indexes := m_global_output_indexes e; m_spent_flags := flags |}.

Definition update_spent_tx_flags_by_id (tx_id : hash) (n : Z) (spent : bool) : st storage unit :=
  tx_ptr ← read (fun s => m_db_transactions s !! tx_id);
  tce_local ← some tx_ptr;
  _ ← check (n <? Z.of_nat (List.length (m_spent_flags tce_local)));
  update (fun s => set_transactions
    (<[tx_id := with_flags (<[Z.to_nat n := spent]> (m_spent_flags tce_local)) tce_local]> (m_db_transactions s)) s).

Definition update_spent_tx_flags_by_index (amount global_index : Z) (spent : bool) : st storage unit :=
  if amount =? 0 then mret tt
  else
    outs_count ← read (fun s => arr_size (m_db_outputs s) amount);
    _ ← check (negb (outs_count =? 0));
    _ ← check (global_index <? outs_count);
    r ← read (fun s => deref (arr_get (m_db_outputs s) amount global_index));
    out_ptr ← lift r;
    update_spent_tx_flags_by_id (goe_tx_id out_ptr) (goe_out_no out_ptr) spent.

Definition update_spent_tx_flags_for_input (amount : Z) (o : txout_ref_v) (spent : bool) : st storage unit :=
  match o with
  | ref_id r => update_spent_tx_flags_by_id (rbi_tx_id r) (rbi_n r) spent
  | ref_global_index i => update_spent_tx_flags_by_index amount i spent
  end.

Definition set_spent_height (h : Z) (e : ms_output_entry) : ms_output_entry :=
  {| moe_tx_id := moe_tx_id e; moe_out_no := moe_out_no e; moe_spent_height := h |}.

(** A second spending is only logged. *)
Definition update_spent_tx_flags_for_multisig (multisig_id : hash) (spent_height : Z) : st storage unit :=
  ms_ptr ← read (fun s => m_db_multisig_outs s !! multisig_id);
  msoe ← some ms_ptr;
  _ ← update (fun s => set_multisig_outs (<[multisig_id := set_spent_height (u32 spent_height) msoe]> (m_db_multisig_outs s)) s);
  update_spent_tx_flags_by_id (moe_tx_id msoe) (moe_out_no msoe) (negb (spent_height =? 0)).

(** ** The index of the outputs *)

Definition push_output (amount : Z) (e : global_output_entry) : st storage Z :=
  _ ← on_outputs (arr_push amount e);
  read (fun s => u64 (arr_size (m_db_outputs s) amount - 1)).

(** The global index of one output. *)
Definition push_out (tx : transaction) (tx_id : hash) (output_index : nat) (otv : tx_out_v) : st storage Z :=
  match otv with
  | out_bare ot =>
      match ob_target ot with
      | target_to_key _ => push_output (ob_amount ot) (construct_output_entry tx_id (Z.of_nat output_index))
      | target_multisig _ =>
          let multisig_out_id := get_multisig_out_id tx output_index in
          _ ← check (bool_decide (multisig_out_id <> null_hash));
          found ← read (fun s => m_db_multisig_outs s !! multisig_out_id);
          _ ← check (match found with Some _ => false | None => true end);
          _ ← update (fun s => set_multisig_outs
                (<[multisig_out_id := construct_ms_entry tx_id (Z.of_nat output_index)]> (m_db_multisig_outs s)) s);
          mret 0
      end
  | out_zarcanum _ => push_output 0 (construct_output_entry tx_id (Z.of_nat output_index))
  | out_gateway togw => _ ← on_gateways (process_gateway_output togw); mret 0
  end.

Fixpoint push_outs_loop (outs : list tx_out_v) (output_index : nat) (global_indexes : list Z) (tx : transaction) (tx_id : hash)
    : st storage (list Z) :=
  match outs with
  | [] => mret global_indexes
  | otv :: outs =>
      gi ← push_out tx tx_id output_index otv;
      push_outs_loop outs (S output_index) (global_indexes ++ [gi]) tx tx_id
  end.
Definition push_transaction_to_global_outs_index (tx : transaction) (tx_id : hash) : st storage (list Z) :=
  push_outs_loop (vout tx) 0 [] tx tx_id.

Definition do_pop_output (tx_id : hash) (i : nat) (amount : Z) : st storage unit :=
  sz ← read (fun s => arr_size (m_db_outputs s) amount);
  _ ← check (negb (sz =? 0));
  r ← read (fun s => deref (arr_get (m_db_outputs s) amount (sz - 1)));
  back_item ← lift r;
  _ ← check (bool_decide (goe_tx_id back_item = tx_id));
  _ ← check (goe_out_no back_item =? Z.of_nat i);
  on_outputs (arr_pop amount).

Definition pop_out (tx : transaction) (tx_id : hash) (i : nat) (otv : tx_out_v) : st storage unit :=
  match otv with
  | out_bare ot =>
      match ob_target ot with
      | target_to_key _ => do_pop_output tx_id i (ob_amount ot)
      | target_multisig _ =>
          let multisig_out_id := get_multisig_out_id tx i in
          _ ← check (bool_decide (multisig_out_id <> null_hash));
          found ← read (fun s => m_db_multisig_outs s !! multisig_out_id);
          _ ← update (fun s => set_multisig_outs (delete multisig_out_id (m_db_multisig_outs s)) s);
          check (match found with Some _ => true | None => false end)
      end
  | out_zarcanum _ => do_pop_output tx_id i 0
  | out_gateway togw => on_gateways (unprocess_gateway_output togw)
  end.

(** From the last output to the first. *)
Definition pop_transaction_from_global_index (tx : transaction) (tx_id : hash) : st storage unit :=
  for_each (fun '(i, otv) => pop_out tx tx_id i otv) (rev (imap pair (vout tx))).

(** ** What the extra field asks for *)

Definition ASSET_DESCRIPTOR_OPERATION_UNDEFINED : Z := 0.

Definition process_blockchain_tx_extra (tx_fee_median : Z) (tx : transaction) (tx_id : hash) (height : Z) : st storage unit :=
  let '(r, ei) := parse_and_validate_tx_extra tx tx_extra_info_init in
  _ ← check r;
  _ ← (if negb (bool_decide (ae_m_alias (m_alias ei) = [])) then
         _ ← on_aliases (prevalidate_alias_info alias_validation_pubkey tx_fee_median tx (m_alias ei));
         on_aliases (put_alias_info (m_alias ei) tx_id)
       else mret tt);
  _ ← (if negb (ado_operation_type (m_asset_operation ei) =? ASSET_DESCRIPTOR_OPERATION_UNDEFINED) then
         on_assets (put_asset_info hard_forks tx tx_id (m_asset_operation ei) height)
       else mret tt);
  match m_opt_gateway_address_operation ei with
  | Some gao => on_gateways (put_gw_address_operation tx tx_id gao)
  | None => mret tt
  end.

Definition unprocess_blockchain_tx_extra (tx : transaction) (height : Z) (tx_id : hash) : st storage unit :=
  let '(r, ei) := parse_and_validate_tx_extra tx tx_extra_info_init in
  _ ← check r;
  _ ← (if negb (bool_decide (ae_m_alias (m_alias ei) = [])) then on_aliases (pop_alias_info (m_alias ei) tx_id) else mret tt);
  _ ← (if negb (ado_operation_type (m_asset_operation ei) =? ASSET_DESCRIPTOR_OPERATION_UNDEFINED) then on_assets (pop_asset_info hard_forks (m_asset_operation ei) height)
       else mret tt);
  match m_opt_gateway_address_operation ei with
  | Some gao => on_gateways (pop_gw_address_operation gao)
  | None => mret tt
  end.

(** ** The history of the gateway addresses *)

Definition get_gateway_addresses_involved_in_tx (tx : transaction) : gset gateway_address_id_type :=
  list_to_set (omap (fun i => match i with in_gateway g => Some (tgw_gateway_addr g) | _ => None end) (vin tx)) ∪
  list_to_set (omap (fun o => match o with out_gateway g => Some (ogw_gateway_addr g) | _ => None end) (vout tx)).

(** Every address is another key of the container, so the order of the set does
    not matter. *)
Definition process_tx_gateway_history (tx_id : hash) (tx : transaction) : st storage unit :=
  for_each (fun gw_addr => on_gateway_transactions (arr_push gw_addr tx_id)) (elements (get_gateway_addresses_involved_in_tx tx)).

Definition unprocess_tx_gateway_history (tx_id : hash) (tx : transaction) : st storage unit :=
  for_each (fun gw_addr =>
    r ← read (fun s => arr_get (m_db_gateway_transactions s) gw_addr (u64 (arr_size (m_db_gateway_transactions s) gw_addr - 1)));
    ptr ← lift r;
    if bool_decide (ptr = Some tx_id) then on_gateway_transactions (arr_pop gw_addr) else mret tt)
    (elements (get_gateway_addresses_involved_in_tx tx)).

(** ** Inputs *)

(** [add_transaction_input_visitor::visit]. *)
Definition add_key_input (bl_height : Z) (amount : Z) (ki : key_image) (key_offsets : list txout_ref_v) : st storage unit :=
  ki_ptr ← read (fun s => m_db_spent_keys s !! ki);
  _ ← check (match ki_ptr with Some _ => false | None => true end);
  _ ← update (fun s => set_spent_keys (<[ki := bl_height]> (m_db_spent_keys s)) s);
  match key_offsets with
  | [o] => update_spent_tx_flags_for_input amount o true
  | _ => mret tt
  end.

Definition add_transaction_input_visitor (bl_height : Z) (in_v : txin_v) : st storage unit :=
  match in_v with
  | in_to_key i => add_key_input bl_height (ttk_amount i) (ttk_k_image i) (ttk_key_offsets i)
  | in_gateway in_gw => on_gateways (process_gateway_input in_gw)
  | in_gen _ => mret tt
  | in_multisig i => update_spent_tx_flags_for_multisig (tms_multisig_out_id i) bl_height
  | in_zc i => add_key_input bl_height 0 (tzc_k_image i) (tzc_key_offsets i)
  end.

(** [purge_transaction_visitor::process_input]. *)
Definition purge_key_input (strict_check : bool) (amount : Z) (k_image : key_image) (key_offsets : list txout_ref_v) : st storage unit :=
  found ← read (fun s => m_db_spent_keys s !! k_image);
  _ ← update (fun s => set_spent_keys (delete k_image (m_db_spent_keys s)) s);
  _ ← check (match found with Some _ => true | None => negb strict_check end);
  match key_offsets with
  | [o] => update_spent_tx_flags_for_input amount o false
  | _ => mret tt
  end.

Definition purge_transaction_visitor (strict_check : bool) (in_v : txin_v) : st storage unit :=
  match in_v with
  | in_to_key i => purge_key_input strict_check (ttk_amount i) (ttk_k_image i) (ttk_key_offsets i)
  | in_gen _ => mret tt
  | in_multisig i => update_spent_tx_flags_for_multisig (tms_multisig_out_id i) 0
  | in_gateway in_gw => on_gateways (unprocess_gateway_input in_gw)
  | in_zc i => purge_key_input strict_check 0 (tzc_k_image i) (tzc_key_offsets i)
  end.

Definition purge_transaction_keyimages_from_blockchain (tx : transaction) (strict_check : bool) : st storage unit :=
  for_each (fun in_v =>
    r ← attempt (purge_transaction_visitor strict_check in_v);
    check (negb strict_check || r)) (vin tx).

(** ** Adding a transaction *)

(** What both failures after the extra field do. *)
Definition undo_failed_transaction (strict_check : bool) (tx : transaction) (tx_id : hash) (bl_height timestamp : Z) : st storage unit :=
  _ ← attempt (purge_transaction_keyimages_from_blockchain tx strict_check);
  _ ← unprocess_blockchain_tx_extra tx bl_height tx_id;
  update (fun s => set_services (unprocess_blockchain_tx_attachments tx bl_height timestamp (m_services_mgr s)) s).

(** The medians are those of the blocks, which this does not change. *)
Definition add_transaction_from_block (tx_expiration_median tx_fee_median : Z) (tx : transaction) (tx_id bl_id : hash)
    (bl_height timestamp : Z) : st storage unit :=
  _ ← check (negb (is_tx_expired tx tx_expiration_median));
  r ← lift_outcome (validate_tx_for_hardfork_specific_terms hard_forks tx bl_height);
  _ ← check r;
  _ ← process_blockchain_tx_extra tx_fee_median tx tx_id bl_height;
  _ ← process_tx_gateway_history tx_id tx;
  _ ← update (fun s => set_services (process_blockchain_tx_attachments tx bl_height bl_id timestamp (m_services_mgr s)) s);
  _ ← or_else (for_each (add_transaction_input_visitor bl_height) (vin tx))
              (undo_failed_transaction false tx tx_id bl_height timestamp);
  tx_entry_ptr ← read (fun s => m_db_transactions s !! tx_id);
  _ ← or_else (check (match tx_entry_ptr with Some _ => false | None => true end))
              (undo_failed_transaction true tx tx_id bl_height timestamp);
  global_output_indexes ← push_transaction_to_global_outs_index tx tx_id;
  update (fun s => set_transactions (<[tx_id := {|
    tce_tx := tx; m_keeper_block_height := bl_height; m_global_output_indexes := global_output_indexes;
    m_spent_flags := replicate (List.length (vout tx)) false |}]> (m_db_transactions s)) s).

(** ** Taking a transaction back *)

(** The fee and the transaction; [blocks_size] is the number of blocks.  The
    results of the first two steps are logged, or not looked at. *)
Definition purge_transaction_from_blockchain (blocks_size : Z) (tx_id : hash) : st storage (Z * transaction) :=
  tx_res_ptr ← read (fun s => m_db_transactions s !! tx_id);
  tce ← some tx_res_ptr;
  let tx := tce_tx tce in
  let fee := tx_fee tx in
  _ ← attempt (purge_transaction_keyimages_from_blockchain tx true);
  res_pop_gi ← attempt (pop_transaction_from_global_index tx tx_id);
  _ ← update (fun s => set_services (unprocess_blockchain_tx_attachments tx blocks_size 0 (m_services_mgr s)) s);
  _ ← unprocess_tx_gateway_history tx_id tx;
  _ ← unprocess_blockchain_tx_extra tx (m_keeper_block_height tce) tx_id;
  found ← read (fun s => m_db_transactions s !! tx_id);
  _ ← update (fun s => set_transactions (delete tx_id (m_db_transactions s)) s);
  let res_erase := match found with Some _ => true | None => false end in
  _ ← check (res_pop_gi && res_erase);
  mret (fee, tx).

(** The transactions of a block from the last to the first, then the miner
    transaction; every one is purged, whatever the others give.  The result is
    the sum of the fees. *)
Definition purge_one (blocks_size : Z) (tx_id : hash) (res : bool) (fee_total : Z) : st storage (bool * Z) := fun s =>
  match purge_transaction_from_blockchain blocks_size tx_id s with
  | (Ok (fee, _), s) => (Ok (res, u64 (fee_total + fee)), s)
  | (Fail, s') => (Ok (false, u64 (fee_total + match m_db_transactions s !! tx_id with Some e => tx_fee (tce_tx e) | None => 0 end)), s')
  | (Exn, s) => (Exn, s)
  end.

Fixpoint purge_loop (blocks_size : Z) (tx_ids : list hash) (res : bool) (fee_total : Z) : st storage (bool * Z) :=
  match tx_ids with
  | [] => mret (res, fee_total)
  | tx_id :: tx_ids =>
      '(res, fee_total) ← purge_one blocks_size tx_id res fee_total;
      purge_loop blocks_size tx_ids res fee_total
  end.

(** [miner_tx_id] is the hash of the miner transaction. *)
Definition purge_block_data_from_blockchain (blocks_size : Z) (tx_hashes : list hash) (miner_tx_id : hash) (processed_tx_count : nat)
    : st storage Z :=
  _ ← check (processed_tx_count <=? List.length tx_hashes)%nat;
  '(res, fee_total) ← purge_loop blocks_size (rev (take processed_tx_count tx_hashes)) true 0;
  '(res, _) ← purge_one blocks_size miner_tx_id res 0;
  _ ← check res;
  mret fee_total.

End blockchain.
