(* ===== verification/ChainSpec.v ===== *)
(** * What adding and taking back a transaction do to the blockchain

    Every operation of [Chain] works on several containers at once; here its effect
    is described container by container, and the effects are put together. *)

From S2P Require Import Prelude Config HardForks Archive Keccak Pod CryptoTypes Basic Transactions HfTerms TxSemantic StateM DbArrays Gateway Assets Aliases TxHardforks Chain.

(** ** Flags of spent outputs *)

Definition set_flag (r : hash * Z) (b : bool) (txs : gmap hash transaction_chain_entry) : gmap hash transaction_chain_entry :=
  match txs !! r.1 with
  | Some e => <[r.1 := with_flags (<[Z.to_nat r.2 := b]> (m_spent_flags e)) e]> txs
  | None => txs
  end.
Definition ref_ok (txs : gmap hash transaction_chain_entry) (r : hash * Z) : Prop :=
  exists e, txs !! r.1 = Some e /\ r.2 < Z.of_nat (List.length (m_spent_flags e)).

(** The same transactions, with as many flags. *)
Definition same_shape (txs txs' : gmap hash transaction_chain_entry) : Prop := forall id,
  (fun e => (tce_tx e, m_keeper_block_height e, m_global_output_indexes e, List.length (m_spent_flags e))) <$> txs !! id =
  (fun e => (tce_tx e, m_keeper_block_height e, m_global_output_indexes e, List.length (m_spent_flags e))) <$> txs' !! id.

#[export] Instance same_shape_equivalence : Equivalence same_shape.
Proof.
  split; [by intros x id|intros x y H id; by rewrite H|intros x y z H H' id; by rewrite H, H'].
Qed.

Lemma set_flag_shape r b txs : same_shape (set_flag r b txs) txs.
Proof.
  intros id. unfold set_flag. destruct (txs !! r.1) as [e|] eqn:E; [|done].
  destruct (decide (id = r.1)) as [->|]; [|by rewrite lookup_insert_ne by done].
  rewrite lookup_insert_eq, E. cbn. by rewrite length_insert.
Qed.

#[export] Instance ref_ok_proper : Proper (same_shape ==> eq ==> iff) ref_ok.
Proof.
  assert (H : forall txs txs' r, same_shape txs txs' -> ref_ok txs r -> ref_ok txs' r).
  { intros txs txs' r Hs (e & E & Hl). specialize (Hs r.1). rewrite E in Hs. cbn in Hs. destruct (txs' !! r.1) as [e'|] eqn:E'; [|done].
    injection Hs as _ _ _ Hlen. exists e'. split; [done|]. lia. }
  intros txs txs' Hs r ? <-. split; apply H; [done|by symmetry].
Qed.

(** A list of references, each set to its own value. *)
Definition set_flags (rs : list ((hash * Z) * bool)) (txs : gmap hash transaction_chain_entry) : gmap hash transaction_chain_entry :=
  fold_left (fun txs r => set_flag r.1 r.2 txs) rs txs.

Lemma set_flags_shape rs txs : same_shape (set_flags rs txs) txs.
Proof.
  revert txs. induction rs as [|r rs IH]; intros txs; cbn; [done|]. etransitivity; [apply IH|apply set_flag_shape].
Qed.

Lemma set_flags_app rs rs' txs : set_flags (rs ++ rs') txs = set_flags rs' (set_flags rs txs).
Proof. apply fold_left_app. Qed.

Definition touches (id : hash) (j : nat) (r : (hash * Z) * bool) : Prop := r.1.1 = id /\ Z.to_nat r.1.2 = j.
#[export] Instance touches_dec id j r : Decision (touches id j r).
Proof. unfold touches. apply _. Defined.

(** What happens to one flag. *)
Definition flag_of (txs : gmap hash transaction_chain_entry) (id : hash) (j : nat) : option bool :=
  e ← txs !! id; m_spent_flags e !! j.

Lemma flag_of_set r b txs id j :
  flag_of (set_flag r b txs) id j = if decide (touches id j (r, b)) then (fun _ => b) <$> flag_of txs id j else flag_of txs id j.
Proof.
  unfold flag_of, set_flag, touches. cbn [fst snd]. destruct (txs !! r.1) as [e|] eqn:E.
  - destruct (decide (id = r.1)) as [->|Hne].
    + rewrite lookup_insert_eq, E. cbn. case_decide as Hd.
      * destruct Hd as [_ <-]. destruct (m_spent_flags e !! Z.to_nat r.2) as [x|] eqn:El; cbn.
        -- apply list_lookup_insert_eq. by eapply lookup_lt_Some.
        -- by rewrite list_insert_ge by (by apply lookup_ge_None).
      * apply list_lookup_insert_ne. tauto.
    + rewrite lookup_insert_ne by done. rewrite decide_False by naive_solver. done.
  - case_decide as Hd; [|done]. destruct Hd as [<- _]. by rewrite E.
Qed.

Lemma flag_of_untouched rs txs id j : Forall (fun r => ~ touches id j r) rs -> flag_of (set_flags rs txs) id j = flag_of txs id j.
Proof.
  revert txs. induction rs as [|[r b] rs IH]; intros txs Hf; cbn; [done|]. apply Forall_cons in Hf as [Hr Hf].
  rewrite IH, flag_of_set by done. by rewrite decide_False.
Qed.

Lemma flag_of_cleared rs txs id j : Forall (fun r => r.2 = false) rs -> Exists (touches id j) rs ->
  flag_of (set_flags rs txs) id j = (fun _ => false) <$> flag_of txs id j.
Proof.
  revert txs. induction rs as [|[r b] rs IH]; intros txs Hb He; [by apply Exists_nil in He|].
  apply Forall_cons in Hb as [Hb Hbs]. cbn in Hb. subst b. cbn.
  destruct (decide (Exists (touches id j) rs)) as [Hd|Hd].
  - rewrite IH, flag_of_set by done. case_decide; [|done]. by destruct (flag_of txs id j).
  - apply Exists_cons in He as [He|]; [|done]. rewrite flag_of_untouched by (by apply not_Exists_Forall; [apply _|]).
    rewrite flag_of_set. by rewrite decide_True.
Qed.

(** Entries with the same shape and the same flags are equal. *)
Lemma entries_eq txs txs' : same_shape txs txs' -> (forall id j, flag_of txs id j = flag_of txs' id j) -> txs = txs'.
Proof.
  intros Hs Hf. apply map_eq. intros id. specialize (Hs id). pose proof (fun j => Hf id j) as Hid. unfold flag_of in Hid.
  destruct (txs !! id) as [[tx h gi fl]|], (txs' !! id) as [[tx' h' gi' fl']|]; try done. cbn in Hs. injection Hs as -> -> -> _.
  do 2 f_equal. apply list_eq. exact Hid.
Qed.

(** ** Multisignature outputs and key images *)

Definition mark (h : Z) (ids : list hash) (ms : gmap hash ms_output_entry) : gmap hash ms_output_entry :=
  fold_left (fun ms id => alter (set_spent_height (u32 h)) id ms) ids ms.
Definition insert_keys (h : Z) (ks : list key_image) (sk : gmap key_image Z) : gmap key_image Z :=
  fold_left (fun sk k => <[k := h]> sk) ks sk.
Definition delete_all {A} (ks : list hash) (m : gmap hash A) : gmap hash A := fold_left (fun m k => delete k m) ks m.

Lemma lookup_mark h (ids : list hash) ms (id : hash) : mark h ids ms !! id = if decide (id ∈ ids) then set_spent_height (u32 h) <$> ms !! id else ms !! id.
Proof.
  revert ms. induction ids as [|i ids IH]; intros ms; unfold mark in *; cbn [fold_left]; [by rewrite decide_False by set_solver|]. rewrite IH.
  destruct (decide (i = id)) as [->|Hne].
  - rewrite lookup_alter_eq, (decide_True (P := id ∈ id :: ids)) by set_solver. case_decide; [|done]. by destruct (ms !! id).
  - rewrite lookup_alter_ne by done. repeat case_decide; set_solver.
Qed.

Lemma lookup_insert_keys h (ks : list key_image) sk (k : key_image) : insert_keys h ks sk !! k = if decide (k ∈ ks) then Some h else sk !! k.
Proof.
  revert sk. induction ks as [|i ks IH]; intros sk; unfold insert_keys in *; cbn [fold_left]; [by rewrite decide_False by set_solver|]. rewrite IH.
  destruct (decide (i = k)) as [->|Hne].
  - rewrite lookup_insert_eq, (decide_True (P := k ∈ k :: ks)) by set_solver. by case_decide.
  - rewrite lookup_insert_ne by done. repeat case_decide; set_solver.
Qed.

Lemma lookup_delete_all {A} (ks : list hash) (m : gmap hash A) (k : hash) : delete_all ks m !! k = if decide (k ∈ ks) then None else m !! k.
Proof.
  revert m. induction ks as [|i ks IH]; intros m; unfold delete_all in *; cbn [fold_left]; [by rewrite decide_False by set_solver|]. rewrite IH.
  destruct (decide (i = k)) as [->|Hne].
  - rewrite lookup_delete_eq, (decide_True (P := k ∈ k :: ks)) by set_solver. by case_decide.
  - rewrite lookup_delete_ne by done. repeat case_decide; set_solver.
Qed.

(** ** Inputs *)

Section spec.
Context `{GatewayCrypto, AssetCrypto, i_bc_service}.
Context {TO TG : Type} {AO : ArrayStore Z global_output_entry TO} {AG : ArrayStore gateway_address_id_type hash TG}.
Abbreviation storage := (chain TO TG service).
Implicit Types s t : storage.

Definition outputs_of s : Z -> list global_output_entry := arr_contents (m_db_outputs s).

Definition set_inputs (txs : gmap hash transaction_chain_entry) (sk : gmap key_image Z) (ms : gmap hash ms_output_entry)
    (gw : gateway_addresses) s : storage :=
  set_transactions txs (set_spent_keys sk (set_multisig_outs ms (set_gateway_addresses gw s))).

Definition offset_ok (o : txout_ref_v) : Prop := match o with ref_global_index i => 0 <= i | ref_id _ => True end.

Definition resolvable (c : Z -> list global_output_entry) (amount : Z) (o : txout_ref_v) : Prop :=
  match o with ref_id _ => True | ref_global_index i => amount = 0 \/ i < Z.of_nat (List.length (c amount)) end.
Definition resolve (c : Z -> list global_output_entry) (amount : Z) (o : txout_ref_v) : list (hash * Z) :=
  match o with
  | ref_id r => [(rbi_tx_id r, rbi_n r)]
  | ref_global_index i =>
      if amount =? 0 then []
      else match c amount !! Z.to_nat i with Some e => [(goe_tx_id e, goe_out_no e)] | None => [] end
  end.

(** What an input spends directly: it names one output. *)
Definition direct (in_v : txin_v) : option (Z * txout_ref_v) :=
  match in_v with
  | in_to_key i => match ttk_key_offsets i with [o] => Some (ttk_amount i, o) | _ => None end
  | in_zc i => match tzc_key_offsets i with [o] => Some (0, o) | _ => None end
  | _ => None
  end.
Definition in_keys (in_v : txin_v) : list key_image :=
  match get_key_image_from_txin_v in_v with Some k => [k] | None => [] end.
Definition in_ms (in_v : txin_v) : list hash := match in_v with in_multisig i => [tms_multisig_out_id i] | _ => [] end.
Definition in_gw (in_v : txin_v) : list gw_op := match in_v with in_gateway i => [GwInput i] | _ => [] end.
Definition in_refs (c : Z -> list global_output_entry) (ms : gmap hash ms_output_entry) (in_v : txin_v) : list (hash * Z) :=
  match in_v with
  | in_multisig i => match ms !! tms_multisig_out_id i with Some e => [(moe_tx_id e, moe_out_no e)] | None => [] end
  | _ => match direct in_v with Some (amount, o) => resolve c amount o | None => [] end
  end.
Definition in_resolvable (c : Z -> list global_output_entry) (ms : gmap hash ms_output_entry) (in_v : txin_v) : Prop :=
  (forall amount o, direct in_v = Some (amount, o) -> resolvable c amount o) /\ Forall (fun id => is_Some (ms !! id)) (in_ms in_v).
Definition in_ok (in_v : txin_v) : Prop := forall amount o, direct in_v = Some (amount, o) -> offset_ok o.

Lemma set_transactions_id s : set_transactions (m_db_transactions s) s = s.
Proof. by destruct s. Qed.

Lemma update_by_id_ok id n b s s' : update_spent_tx_flags_by_id id n b s = (Ok tt, s') <->
  ref_ok (m_db_transactions s) (id, n) /\ s' = set_transactions (set_flag (id, n) b (m_db_transactions s)) s.
Proof.
  unfold update_spent_tx_flags_by_id, ref_ok, set_flag. cbn [fst snd]. unfold mbind, st_bind, read, some, check, update.
  destruct (m_db_transactions s !! id) as [e|] eqn:E; cbn.
  - destruct (Z.ltb_spec n (Z.of_nat (List.length (m_spent_flags e)))).
    + split; [intros [= <-]; split; [by exists e|done]|by intros [_ ->]].
    + split; [done|]. intros [(e' & [= <-] & Hl) _]. cbn in *. lia.
  - split; [done|]. by intros [(e' & ? & _) _].
Qed.

Lemma update_flags_ok amount o b s s' : arr_wf (m_db_outputs s) -> offset_ok o ->
  update_spent_tx_flags_for_input amount o b s = (Ok tt, s') <->
  resolvable (outputs_of s) amount o /\ Forall (ref_ok (m_db_transactions s)) (resolve (outputs_of s) amount o) /\
  s' = set_transactions (set_flags (map (fun r => (r, b)) (resolve (outputs_of s) amount o)) (m_db_transactions s)) s.
Proof.
  intros Hw Ho. destruct o as [i|r]; cbn [update_spent_tx_flags_for_input resolvable resolve].
  - unfold update_spent_tx_flags_by_index. destruct (Z.eqb_spec amount 0) as [->|Hne].
    { cbn. rewrite set_transactions_id. split; [intros [_ <-]%ret_ok; auto|intros (_ & _ & ->); done]. }
    unfold mbind at 1, st_bind at 1, read at 1. unfold mbind at 1, st_bind at 1, check at 1.
    unfold mbind at 1, st_bind at 1, check at 1. cbn in Ho. unfold outputs_of. rewrite arr_size_ok by done.
    destruct (Z.eqb_spec (Z.of_nat (List.length (arr_contents (m_db_outputs s) amount))) 0) as [E0|E0]; cbn [negb].
    { split; [done|]. intros [[?|?] _]; [done|lia]. }
    destruct (Z.ltb_spec i (Z.of_nat (List.length (arr_contents (m_db_outputs s) amount)))) as [Hi|Hi].
    2: { split; [done|]. intros [[?|?] _]; [done|lia]. }
    unfold mbind, st_bind, read, lift. rewrite arr_get_ok by done. rewrite (proj2 (Z.ltb_lt _ _) Hi).
    destruct (arr_contents (m_db_outputs s) amount !! Z.to_nat i) as [e|] eqn:El.
    + cbn [deref]. rewrite update_by_id_ok. cbn. rewrite Forall_singleton. split; [intros [? ->]; auto|intros (_ & ? & ->); auto].
    + apply lookup_ge_None in El. lia.
  - rewrite update_by_id_ok. cbn. rewrite Forall_singleton. split; [intros [? ->]; auto|intros (_ & ? & ->); auto].
Qed.

(** *** One input *)

Definition add_flag (h : Z) (in_v : txin_v) : bool := match in_v with in_multisig _ => negb (h =? 0) | _ => true end.
Definition flagged (b : bool) (rs : list (hash * Z)) : list ((hash * Z) * bool) := map (fun r => (r, b)) rs.

Lemma zoom_gw_ok (m : st gateway_addresses unit) s s' : on_gateways m s = (Ok tt, s') <->
  exists gw', m (m_db_gateway_addresses s) = (Ok tt, gw') /\
    s' = set_inputs (m_db_transactions s) (m_db_spent_keys s) (m_db_multisig_outs s) gw' s.
Proof. unfold on_gateways. rewrite zoom_ok. by destruct s. Qed.

Lemma single_ok (op : gw_op) gw gw' : for_each gw_step [op] gw = (Ok tt, gw') <-> gw_step op gw = (Ok tt, gw').
Proof.
  rewrite for_each_cons_ok. split; [intros (g & E & E')|intros E; exists gw'; split; [done|done]].
  apply ret_ok in E' as [_ <-]. done.
Qed.
Lemma none_ok gw gw' : for_each gw_step ([] : list gw_op) gw = (Ok tt, gw') <-> gw' = gw.
Proof. cbn. rewrite ret_ok. naive_solver. Qed.

Lemma direct_ok (offs : list txout_ref_v) amount b s s' :
  arr_wf (m_db_outputs s) -> (forall o, offs = [o] -> offset_ok o) ->
  (match offs with [o] => update_spent_tx_flags_for_input amount o b | _ => mret tt end) s = (Ok tt, s') <->
  (forall o, offs = [o] -> resolvable (outputs_of s) amount o) /\
  let rs := match offs with [o] => resolve (outputs_of s) amount o | _ => [] end in
  Forall (ref_ok (m_db_transactions s)) rs /\ s' = set_transactions (set_flags (flagged b rs) (m_db_transactions s)) s.
Proof.
  intros Hw Ho. destruct offs as [|o [|o' offs]]; cbn zeta.
  - cbn. rewrite ret_ok, set_transactions_id. split; [intros [_ <-]; split; [by intros|by split]|by intros (_ & _ & ->)].
  - rewrite update_flags_ok by auto. split; [intros (? & ? & ->); split; [by intros ? [= <-]|by split]|intros (Hr & ? & ->); auto].
  - cbn. rewrite ret_ok, set_transactions_id. split; [intros [_ <-]; split; [by intros|by split]|by intros (_ & _ & ->)].
Qed.

Lemma multisig_ok id h s s' : update_spent_tx_flags_for_multisig id h s = (Ok tt, s') <->
  is_Some (m_db_multisig_outs s !! id) /\
  let rs := match m_db_multisig_outs s !! id with Some e => [(moe_tx_id e, moe_out_no e)] | None => [] end in
  Forall (ref_ok (m_db_transactions s)) rs /\
  s' = set_transactions (set_flags (flagged (negb (h =? 0)) rs) (m_db_transactions s)) (set_multisig_outs (mark h [id] (m_db_multisig_outs s)) s).
Proof.
  unfold update_spent_tx_flags_for_multisig. unfold mbind at 1, st_bind at 1, read. unfold mbind at 1, st_bind at 1, some.
  destruct (m_db_multisig_outs s !! id) as [e|] eqn:E; [|split; [done|by intros [[? ?] _]]].
  unfold mbind, st_bind, update. rewrite update_by_id_ok. cbn zeta. rewrite Forall_singleton.
  assert (mark h [id] (m_db_multisig_outs s) = <[id := set_spent_height (u32 h) e]> (m_db_multisig_outs s)) as ->.
  { apply map_eq. intros i. rewrite lookup_mark. destruct (decide (i = id)) as [->|].
    - rewrite decide_True, lookup_insert_eq, E by set_solver. done.
    - rewrite decide_False, lookup_insert_ne by set_solver. done. }
  cbn. split; [intros [? ->]; split; [by eexists|by split]|intros (_ & ? & ->); by split].
Qed.

(** The two directions for an input with a key image, once its offsets are known. *)
Ltac key_cases :=
  (split; [intros (Hr & ? & ? & ->)|intros ((Hr & _) & ? & ? & gw' & -> & ->)]);
  repeat split; try done;
  try (intros; simplify_eq; match goal with H : context [resolvable] |- resolvable _ _ _ => by apply H end); by eexists.

Lemma add_visitor_ok h in_v s s' : arr_wf (m_db_outputs s) -> in_ok in_v ->
  add_transaction_input_visitor h in_v s = (Ok tt, s') <->
  let rs := in_refs (outputs_of s) (m_db_multisig_outs s) in_v in
  in_resolvable (outputs_of s) (m_db_multisig_outs s) in_v /\ Forall (ref_ok (m_db_transactions s)) rs /\
  Forall (fun k => m_db_spent_keys s !! k = None) (in_keys in_v) /\
  exists gw', for_each gw_step (in_gw in_v) (m_db_gateway_addresses s) = (Ok tt, gw') /\
    s' = set_inputs (set_flags (flagged (add_flag h in_v) rs) (m_db_transactions s)) (insert_keys h (in_keys in_v) (m_db_spent_keys s))
           (mark h (in_ms in_v) (m_db_multisig_outs s)) gw' s.
Proof.
  intros Hw Hok.
  assert (Hkey : forall amount ki offs, (forall o, offs = [o] -> offset_ok o) ->
    add_key_input h amount ki offs s = (Ok tt, s') <->
    (forall o, offs = [o] -> resolvable (outputs_of s) amount o) /\
    let rs := match offs with [o] => resolve (outputs_of s) amount o | _ => [] end in
    Forall (ref_ok (m_db_transactions s)) rs /\ m_db_spent_keys s !! ki = None /\
    s' = set_inputs (set_flags (flagged true rs) (m_db_transactions s)) (insert_keys h [ki] (m_db_spent_keys s))
           (m_db_multisig_outs s) (m_db_gateway_addresses s) s).
  { intros amount ki offs Ho. unfold add_key_input. unfold mbind at 1, st_bind at 1, read. unfold mbind at 1, st_bind at 1, check.
    destruct (m_db_spent_keys s !! ki) as [x|] eqn:E; [split; [done|by intros (_ & _ & ? & _)]|].
    unfold mbind at 1, st_bind at 1, update. rewrite direct_ok by done. cbn zeta.
    change (outputs_of (set_spent_keys (<[ki:=h]> (m_db_spent_keys s)) s)) with (outputs_of s). cbn [m_db_transactions set_spent_keys].
    split; [intros (? & ? & ->)|intros (? & ? & ? & ->)]; repeat split; try done; by destruct s. }
  unfold in_resolvable. destruct in_v as [x|x|x|x|x]; cbn [add_transaction_input_visitor in_refs direct in_keys in_ms in_gw
    get_key_image_from_txin_v add_flag] in *.
  - rewrite ret_ok. cbn zeta. setoid_rewrite none_ok. split; [intros [_ <-]; repeat split; try done; eexists; split; [done|by destruct s]|].
    intros (_ & _ & _ & gw' & -> & ->). by destruct s.
  - rewrite Hkey by (intros o E; specialize (Hok (ttk_amount x) o); cbn in Hok; rewrite E in Hok; by apply Hok).
    cbn zeta. setoid_rewrite none_ok. rewrite Forall_singleton, Forall_nil.
    destruct (ttk_key_offsets x) as [|o [|]]; key_cases.
  - rewrite multisig_ok. cbn zeta. setoid_rewrite none_ok. rewrite Forall_singleton.
    split; [intros (? & ? & ->)|intros ((_ & ?) & ? & _ & gw' & -> & ->)]; repeat split; try done; try (eexists; split; [done|]); by destruct s.
  - rewrite zoom_gw_ok. cbn zeta. setoid_rewrite single_ok. cbn [gw_step].
    split; [intros (gw' & ? & ->)|intros (_ & _ & _ & gw' & ? & ->)]; [repeat split; try done|]; by exists gw'.
  - rewrite Hkey by (intros o E; specialize (Hok 0 o); cbn in Hok; rewrite E in Hok; by apply Hok).
    cbn zeta. setoid_rewrite none_ok. rewrite Forall_singleton, Forall_nil.
    destruct (tzc_key_offsets x) as [|o [|]]; key_cases.
Qed.

Lemma purge_visitor_ok in_v s s' : arr_wf (m_db_outputs s) -> in_ok in_v ->
  purge_transaction_visitor true in_v s = (Ok tt, s') <->
  let rs := in_refs (outputs_of s) (m_db_multisig_outs s) in_v in
  in_resolvable (outputs_of s) (m_db_multisig_outs s) in_v /\ Forall (ref_ok (m_db_transactions s)) rs /\
  Forall (fun k => is_Some (m_db_spent_keys s !! k)) (in_keys in_v) /\
  exists gw', for_each gw_step (gw_undo <$> in_gw in_v) (m_db_gateway_addresses s) = (Ok tt, gw') /\
    s' = set_inputs (set_flags (flagged false rs) (m_db_transactions s)) (delete_all (in_keys in_v) (m_db_spent_keys s))
           (mark 0 (in_ms in_v) (m_db_multisig_outs s)) gw' s.
Proof.
  intros Hw Hok.
  assert (Hkey : forall amount ki offs, (forall o, offs = [o] -> offset_ok o) ->
    purge_key_input true amount ki offs s = (Ok tt, s') <->
    (forall o, offs = [o] -> resolvable (outputs_of s) amount o) /\
    let rs := match offs with [o] => resolve (outputs_of s) amount o | _ => [] end in
    Forall (ref_ok (m_db_transactions s)) rs /\ is_Some (m_db_spent_keys s !! ki) /\
    s' = set_inputs (set_flags (flagged false rs) (m_db_transactions s)) (delete_all [ki] (m_db_spent_keys s))
           (m_db_multisig_outs s) (m_db_gateway_addresses s) s).
  { intros amount ki offs Ho. unfold purge_key_input. unfold mbind at 1, st_bind at 1, read. unfold mbind at 1, st_bind at 1, update.
    unfold mbind at 1, st_bind at 1, check.
    destruct (m_db_spent_keys s !! ki) as [x|] eqn:E; [|split; [done|by intros (_ & _ & [? ?] & _)]].
    rewrite direct_ok by done. cbn zeta.
    change (outputs_of (set_spent_keys (delete ki (m_db_spent_keys s)) s)) with (outputs_of s). cbn [m_db_transactions set_spent_keys].
    split; [intros (? & ? & ->)|intros (? & ? & ? & ->)]; repeat split; try done; by destruct s. }
  unfold in_resolvable. destruct in_v as [x|x|x|x|x]; cbn [purge_transaction_visitor in_refs direct in_keys in_ms in_gw
    get_key_image_from_txin_v fmap list_fmap gw_undo] in *.
  - rewrite ret_ok. cbn zeta. setoid_rewrite none_ok. split; [intros [_ <-]; repeat split; try done; eexists; split; [done|by destruct s]|].
    intros (_ & _ & _ & gw' & -> & ->). by destruct s.
  - rewrite Hkey by (intros o E; specialize (Hok (ttk_amount x) o); cbn in Hok; rewrite E in Hok; by apply Hok).
    cbn zeta. setoid_rewrite none_ok. rewrite Forall_singleton, Forall_nil. destruct (ttk_key_offsets x) as [|o [|]]; key_cases.
  - rewrite multisig_ok. cbn zeta. setoid_rewrite none_ok. rewrite Forall_singleton.
    split; [intros (? & ? & ->)|intros ((_ & ?) & ? & _ & gw' & -> & ->)]; repeat split; try done; try (eexists; split; [done|]); by destruct s.
  - rewrite zoom_gw_ok. cbn zeta. setoid_rewrite single_ok. cbn [gw_step].
    split; [intros (gw' & ? & ->)|intros (_ & _ & _ & gw' & ? & ->)]; [repeat split; try done|]; by exists gw'.
  - rewrite Hkey by (intros o E; specialize (Hok 0 o); cbn in Hok; rewrite E in Hok; by apply Hok).
    cbn zeta. setoid_rewrite none_ok. rewrite Forall_singleton, Forall_nil. destruct (tzc_key_offsets x) as [|o [|]]; key_cases.
Qed.

(** *** All the inputs *)

Lemma in_refs_mark c h ids ms in_v : in_refs c (mark h ids ms) in_v = in_refs c ms in_v.
Proof.
  destruct in_v as [x|x|x|x|x]; try done. cbn. rewrite lookup_mark. case_decide; [|done].
  by destruct (ms !! tms_multisig_out_id x).
Qed.
Lemma in_resolvable_mark c h ids ms in_v : in_resolvable c (mark h ids ms) in_v <-> in_resolvable c ms in_v.
Proof.
  unfold in_resolvable. f_equiv. apply Forall_iff. intros id. rewrite lookup_mark. case_decide; [|done].
  by rewrite fmap_is_Some.
Qed.

Lemma refs_mark c h ids ms (ins : list txin_v) : (ins ≫= in_refs c (mark h ids ms)) = (ins ≫= in_refs c ms).
Proof. induction ins as [|x ins IH]; cbn; [done|]. by rewrite in_refs_mark, IH. Qed.
Lemma flags_mark c h ids ms (f : txin_v -> bool) (ins : list txin_v) :
  (ins ≫= fun x => flagged (f x) (in_refs c (mark h ids ms) x)) = (ins ≫= fun x => flagged (f x) (in_refs c ms x)).
Proof. induction ins as [|x ins IH]; cbn; [done|]. by rewrite in_refs_mark, IH. Qed.

Definition refs_of (s : storage) (ins : list txin_v) : list (hash * Z) := ins ≫= in_refs (outputs_of s) (m_db_multisig_outs s).
Definition add_flags (h : Z) (s : storage) (ins : list txin_v) : list ((hash * Z) * bool) :=
  ins ≫= (fun in_v => flagged (add_flag h in_v) (in_refs (outputs_of s) (m_db_multisig_outs s) in_v)).

Lemma outputs_set_inputs txs sk ms gw s : outputs_of (set_inputs txs sk ms gw s) = outputs_of s.
Proof. done. Qed.

Lemma set_inputs_twice txs sk ms gw txs' sk' ms' gw' s :
  set_inputs txs sk ms gw (set_inputs txs' sk' ms' gw' s) = set_inputs txs sk ms gw s.
Proof. done. Qed.

Lemma mark_app h ids ids' ms : mark h (ids ++ ids') ms = mark h ids' (mark h ids ms).
Proof. apply fold_left_app. Qed.
Lemma insert_keys_app h ks ks' sk : insert_keys h (ks ++ ks') sk = insert_keys h ks' (insert_keys h ks sk).
Proof. apply fold_left_app. Qed.
Lemma delete_all_app {A} (ks ks' : list hash) (m : gmap hash A) : delete_all (ks ++ ks') m = delete_all ks' (delete_all ks m).
Proof. apply fold_left_app. Qed.

Lemma gw_run_app ops ops' gw gw' : for_each gw_step (ops ++ ops') gw = (Ok tt, gw') <->
  exists gw1, for_each gw_step ops gw = (Ok tt, gw1) /\ for_each gw_step ops' gw1 = (Ok tt, gw').
Proof.
  rewrite for_each_app, bind_ok. split; [intros ([] & gw1 & ?); by exists gw1|intros (gw1 & ?); by exists tt, gw1].
Qed.

Lemma add_inputs_ok h ins s s' : arr_wf (m_db_outputs s) -> Forall in_ok ins ->
  for_each (add_transaction_input_visitor h) ins s = (Ok tt, s') ->
  Forall (in_resolvable (outputs_of s) (m_db_multisig_outs s)) ins /\ Forall (ref_ok (m_db_transactions s)) (refs_of s ins) /\
  NoDup (ins ≫= in_keys) /\ Forall (fun k => m_db_spent_keys s !! k = None) (ins ≫= in_keys) /\
  exists gw', for_each gw_step (ins ≫= in_gw) (m_db_gateway_addresses s) = (Ok tt, gw') /\
    s' = set_inputs (set_flags (add_flags h s ins) (m_db_transactions s)) (insert_keys h (ins ≫= in_keys) (m_db_spent_keys s))
           (mark h (ins ≫= in_ms) (m_db_multisig_outs s)) gw' s.
Proof.
  unfold refs_of, add_flags. revert s. induction ins as [|i ins IH]; intros s Hw Hok E.
  { cbn in E. injection E as <-. cbn. repeat split; try constructor. exists (m_db_gateway_addresses s). by destruct s. }
  apply Forall_cons in Hok as [Hi Hok]. apply for_each_cons_ok in E as (s1 & E1 & E).
  apply add_visitor_ok in E1 as (Hr & Hrefs & Hk & gw1 & Eg & ->); [|done|done].
  apply IH in E as (Hr' & Hrefs' & Hnd & Hk' & gw' & Eg' & ->); [|done|done]. clear IH.
  rewrite outputs_set_inputs in *. cbn [m_db_multisig_outs m_db_transactions m_db_spent_keys m_db_gateway_addresses set_inputs
    set_transactions set_spent_keys set_multisig_outs set_gateway_addresses] in *.
  cbn [mbind list_bind]. rewrite !Forall_app, Forall_cons, insert_keys_app, mark_app, set_flags_app, set_inputs_twice.
  split; [split; [done|]|].
  { eapply Forall_impl; [exact Hr'|]. intros x. apply in_resolvable_mark. }
  split; [split; [done|]|].
  { rewrite refs_mark in Hrefs'. eapply Forall_impl; [exact Hrefs'|]. intros r. by rewrite set_flags_shape. }
  assert (Hfresh : Forall (fun k => m_db_spent_keys s !! k = None /\ k ∉ in_keys i) (ins ≫= in_keys)).
  { eapply Forall_impl; [exact Hk'|]. intros k. cbn beta. rewrite lookup_insert_keys. by case_decide. }
  split; [|split; [split; [done|]; eapply Forall_impl; [exact Hfresh|]; by intros k [? _]|]].
  { apply NoDup_app. split; [unfold in_keys; destruct (get_key_image_from_txin_v i); [apply NoDup_singleton|constructor]|].
    split; [|done]. intros k Hin Hin'. rewrite list.Forall_forall in Hfresh. by destruct (Hfresh k Hin'). }
  exists gw'. split; [apply gw_run_app; by exists gw1|]. f_equal; [|done..].
  by rewrite flags_mark.
Qed.

Lemma purge_inputs_run ins s gw' : arr_wf (m_db_outputs s) -> Forall in_ok ins ->
  Forall (in_resolvable (outputs_of s) (m_db_multisig_outs s)) ins -> Forall (ref_ok (m_db_transactions s)) (refs_of s ins) ->
  NoDup (ins ≫= in_keys) -> Forall (fun k => is_Some (m_db_spent_keys s !! k)) (ins ≫= in_keys) ->
  for_each gw_step (ins ≫= fun x => gw_undo <$> in_gw x) (m_db_gateway_addresses s) = (Ok tt, gw') ->
  for_each (purge_transaction_visitor true) ins s =
    (Ok tt, set_inputs (set_flags (flagged false (refs_of s ins)) (m_db_transactions s)) (delete_all (ins ≫= in_keys) (m_db_spent_keys s))
           (mark 0 (ins ≫= in_ms) (m_db_multisig_outs s)) gw' s).
Proof.
  unfold refs_of. revert s. induction ins as [|i ins IH]; intros s Hw Hok Hr Hrefs Hnd Hk Eg.
  { cbn in *. injection Eg as <-. by destruct s. }
  apply Forall_cons in Hok as [Hi Hok]. apply Forall_cons in Hr as [Hri Hr]. cbn [mbind list_bind] in *.
  apply Forall_app in Hrefs as [Hrefi Hrefs]. apply NoDup_app in Hnd as (_ & Hdis & Hnd). apply Forall_app in Hk as [Hki Hk].
  apply gw_run_app in Eg as (gw1 & Eg1 & Eg).
  apply for_each_cons_ok. eexists. split.
  { apply purge_visitor_ok; [done|done|]. split; [done|]. split; [done|]. split; [done|]. exists gw1. split; [done|]. reflexivity. }
  erewrite IH; try done; try exact Eg; clear IH; rewrite ?outputs_set_inputs;
    cbn [m_db_multisig_outs m_db_transactions m_db_spent_keys m_db_gateway_addresses set_inputs
      set_transactions set_spent_keys set_multisig_outs set_gateway_addresses];
    [rewrite delete_all_app, mark_app, set_inputs_twice; unfold flagged; rewrite map_app, set_flags_app| | |].
  - by rewrite refs_mark.
  - eapply Forall_impl; [exact Hr|]. intros x. by rewrite in_resolvable_mark.
  - rewrite refs_mark. eapply Forall_impl; [exact Hrefs|]. intros r. by rewrite set_flags_shape.
  - apply list.Forall_forall. intros k Hin. rewrite lookup_delete_all, decide_False.
    + rewrite list.Forall_forall in Hk. by apply Hk.
    + intros Hin'. by apply (Hdis k).
Qed.

Lemma purge_keyimages_run tx s s' : for_each (purge_transaction_visitor true) (vin tx) s = (Ok tt, s') ->
  purge_transaction_keyimages_from_blockchain tx true s = (Ok tt, s').
Proof.
  unfold purge_transaction_keyimages_from_blockchain. revert s. induction (vin tx) as [|i ins IH]; intros s E; [done|].
  apply for_each_cons_ok in E as (s1 & E1 & E). apply for_each_cons_ok. exists s1. split; [|by apply IH].
  rewrite bind_ok. exists true, s1. split; [by apply attempt_ok|done].
Qed.

(** ** Outputs *)

Definition set_outs (outs : TO) (ms : gmap hash ms_output_entry) (gw : gateway_addresses) s : storage :=
  set_outputs outs (set_multisig_outs ms (set_gateway_addresses gw s)).

(** What an output adds: an entry to the index of its amount, a
    multisignature output, a movement of a gateway balance. *)
Definition out_entry (tx_id : hash) (i : nat) (o : tx_out_v) : option (Z * global_output_entry) :=
  match o with
  | out_bare b => match ob_target b with
                  | target_to_key _ => Some (ob_amount b, construct_output_entry tx_id (Z.of_nat i))
                  | target_multisig _ => None
                  end
  | out_zarcanum _ => Some (0, construct_output_entry tx_id (Z.of_nat i))
  | out_gateway _ => None
  end.
Definition out_ms (tx : transaction) (i : nat) (o : tx_out_v) : list hash :=
  match o with
  | out_bare b => match ob_target b with target_multisig _ => [get_multisig_out_id tx i] | target_to_key _ => [] end
  | _ => []
  end.
Definition out_gw (o : tx_out_v) : list gw_op := match o with out_gateway g => [GwOutput g] | _ => [] end.

Definition entry_at (tx_id : hash) (i : nat) (o : tx_out_v) (k : Z) : list global_output_entry :=
  match out_entry tx_id i o with Some (a, e) => if decide (a = k) then [e] else [] | None => [] end.
Fixpoint new_entries (tx_id : hash) (i : nat) (outs : list tx_out_v) (k : Z) : list global_output_entry :=
  match outs with [] => [] | o :: outs => entry_at tx_id i o k ++ new_entries tx_id (S i) outs k end.
Fixpoint new_ms (tx : transaction) (i : nat) (outs : list tx_out_v) : list hash :=
  match outs with [] => [] | o :: outs => out_ms tx i o ++ new_ms tx (S i) outs end.
Fixpoint insert_ms (tx : transaction) (tx_id : hash) (i : nat) (outs : list tx_out_v) (ms : gmap hash ms_output_entry)
    : gmap hash ms_output_entry :=
  match outs with
  | [] => ms
  | o :: outs => insert_ms tx tx_id (S i) outs
                   (match out_ms tx i o with [id] => <[id := construct_ms_entry tx_id (Z.of_nat i)]> ms | _ => ms end)
  end.
(** The global indexes; 0 stands for the outputs without one. *)
Fixpoint out_indexes (tx_id : hash) (i : nat) (outs : list tx_out_v) (n : Z -> nat) : list Z :=
  match outs with
  | [] => []
  | o :: outs =>
      (match out_entry tx_id i o with Some (a, _) => Z.of_nat (n a) | None => 0 end) ::
      out_indexes tx_id (S i) outs (fun k => (n k + List.length (entry_at tx_id i o k))%nat)
  end.

Lemma out_indexes_ext tx_id i outs n n' : (forall k, n k = n' k) -> out_indexes tx_id i outs n = out_indexes tx_id i outs n'.
Proof.
  revert i n n'. induction outs as [|o outs IH]; intros i n n' Hn; cbn; [done|]. f_equal.
  - destruct (out_entry tx_id i o) as [[a e]|]; by rewrite ?Hn.
  - apply IH. intros k. by rewrite Hn.
Qed.

Lemma entry_at_length tx_id i o k : (List.length (entry_at tx_id i o k) <= 1)%nat.
Proof. unfold entry_at. destruct (out_entry tx_id i o) as [[a e]|]; [case_decide|]; cbn; lia. Qed.

Lemma push_output_ok amount e s gi s' : arr_wf (m_db_outputs s) ->
  Z.of_nat (List.length (outputs_of s amount)) + 1 < 2 ^ 64 -> push_output amount e s = (Ok gi, s') ->
  gi = Z.of_nat (List.length (outputs_of s amount)) /\ exists outs, s' = set_outputs outs s /\ arr_wf outs /\
    forall k, arr_contents outs k = outputs_of s k ++ (if decide (amount = k) then [e] else []).
Proof.
  intros Hw Hl E. unfold push_output, on_outputs in E. apply bind_ok in E as (u & s1 & E1 & E).
  apply zoom_ok in E1 as (outs & E1 & ->). apply read_ok in E as [<- <-].
  destruct (arr_push_ok (m_db_outputs s) amount e Hw Hl) as (outs' & E2 & Hw' & Hc). rewrite E2 in E1. injection E1 as <- <-.
  assert (Hc' : forall k, arr_contents outs' k = outputs_of s k ++ (if decide (amount = k) then [e] else [])).
  { intros k. rewrite Hc. unfold outputs_of. repeat case_decide; subst; try done. by rewrite app_nil_r. }
  split; [|exists outs'; split; [done|]; split; [done|exact Hc']]. cbn [m_db_outputs set_outputs]. rewrite arr_size_ok by done. rewrite Hc', decide_True by done.
  rewrite length_app. cbn [List.length]. unfold wrap. rewrite Z.mod_small; lia.
Qed.

(** One output. *)
Lemma push_out_ok tx tx_id i o s gi s' : arr_wf (m_db_outputs s) ->
  (forall k, Z.of_nat (List.length (outputs_of s k)) + 1 < 2 ^ 64) -> push_out tx tx_id i o s = (Ok gi, s') ->
  gi = match out_entry tx_id i o with Some (a, _) => Z.of_nat (List.length (outputs_of s a)) | None => 0 end /\
  Forall (fun id => id <> null_hash /\ m_db_multisig_outs s !! id = None) (out_ms tx i o) /\
  exists outs gw, arr_wf outs /\ (forall k, arr_contents outs k = outputs_of s k ++ entry_at tx_id i o k) /\
    for_each gw_step (out_gw o) (m_db_gateway_addresses s) = (Ok tt, gw) /\
    s' = set_outs outs (match out_ms tx i o with [id] => <[id := construct_ms_entry tx_id (Z.of_nat i)]> (m_db_multisig_outs s)
                        | _ => m_db_multisig_outs s end) gw s.
Proof.
  intros Hw Hl E. unfold push_out, entry_at, out_entry, out_ms, out_gw in *. destruct o as [b|z|g].
  - destruct (ob_target b) as [k|m].
    + apply push_output_ok in E as (-> & outs & -> & Hw' & Hc); [|done|done]. split; [done|]. split; [constructor|].
      exists outs, (m_db_gateway_addresses s). split; [done|]. split; [done|]. split; [done|]. by destruct s.
    + st_inv E. split; [done|]. rewrite Forall_singleton. match goal with H : match m_db_multisig_outs ?s0 !! _ with _ => _ end = true |- _ => destruct (m_db_multisig_outs s0 !! get_multisig_out_id tx i) eqn:Em; [done|] end.
      split; [split; [by eapply bool_decide_eq_true|done]|].
      match goal with |- context [m_db_multisig_outs ?s0] => exists (m_db_outputs s0), (m_db_gateway_addresses s0);
        split; [done|]; split; [intros k; by rewrite app_nil_r|]; split; [done|]; by destruct s0 end.
  - apply push_output_ok in E as (-> & outs & -> & Hw' & Hc); [|done|done]. split; [done|]. split; [constructor|].
    exists outs, (m_db_gateway_addresses s). split; [done|]. split; [done|]. split; [done|]. by destruct s.
  - apply bind_ok in E as ([] & s1 & E1 & E). apply ret_ok in E as [<- <-]. unfold on_gateways in E1.
    apply zoom_ok in E1 as (gw & E1 & ->). split; [done|]. split; [constructor|]. exists (m_db_outputs s), gw.
    split; [done|]. split; [intros k; by rewrite app_nil_r|]. split; [by apply single_ok|]. by destruct s.
Qed.

Lemma out_ms_single tx i o : out_ms tx i o = [] \/ out_ms tx i o = [get_multisig_out_id tx i].
Proof. unfold out_ms. destruct o as [b| |]; [destruct (ob_target b)|..]; auto. Qed.

Lemma lookup_insert_ms tx tx_id i outs ms id : id ∉ new_ms tx i outs -> insert_ms tx tx_id i outs ms !! id = ms !! id.
Proof.
  revert i ms. induction outs as [|o outs IH]; intros i ms Hn; cbn in *; [done|]. apply not_elem_of_app in Hn as [Hn Hn'].
  rewrite IH by done. destruct (out_ms_single tx i o) as [-> | Eo]; [done|]. rewrite Eo in *. apply lookup_insert_ne. set_solver.
Qed.

Lemma insert_ms_present tx tx_id i outs ms id : NoDup (new_ms tx i outs) -> id ∈ new_ms tx i outs ->
  is_Some (insert_ms tx tx_id i outs ms !! id).
Proof.
  revert i ms. induction outs as [|o outs IH]; intros i ms Hnd Hin; cbn in *; [by apply elem_of_nil in Hin|].
  apply NoDup_app in Hnd as (_ & Hd & Hnd). apply elem_of_app in Hin as [Hin|Hin]; [|by apply IH].
  rewrite lookup_insert_ms by (by apply Hd). destruct (out_ms_single tx i o) as [Eo|Eo]; rewrite Eo in *; [by apply elem_of_nil in Hin|].
  apply list_elem_of_singleton in Hin as ->. rewrite lookup_insert_eq. by eexists.
Qed.

Lemma push_outs_ok tx tx_id outs i gis s gis' s' : arr_wf (m_db_outputs s) ->
  (forall k, Z.of_nat (List.length (outputs_of s k)) + Z.of_nat (List.length outs) < 2 ^ 64) ->
  push_outs_loop outs i gis tx tx_id s = (Ok gis', s') ->
  gis' = gis ++ out_indexes tx_id i outs (fun k => List.length (outputs_of s k)) /\
  NoDup (new_ms tx i outs) /\ Forall (fun id => id <> null_hash /\ m_db_multisig_outs s !! id = None) (new_ms tx i outs) /\
  exists os gw, arr_wf os /\ (forall k, arr_contents os k = outputs_of s k ++ new_entries tx_id i outs k) /\
    for_each gw_step (outs ≫= out_gw) (m_db_gateway_addresses s) = (Ok tt, gw) /\
    s' = set_outs os (insert_ms tx tx_id i outs (m_db_multisig_outs s)) gw s.
Proof.
  revert i gis s. induction outs as [|o outs IH]; intros i gis s Hw Hl E.
  { cbn in *. injection E as <- <-. rewrite app_nil_r. split; [done|]. split; [constructor|]. split; [constructor|].
    exists (m_db_outputs s), (m_db_gateway_addresses s). split; [done|]. split; [intros k; by rewrite app_nil_r|]. split; [done|]. by destruct s. }
  cbn [push_outs_loop] in E. apply bind_ok in E as (gi & s1 & E1 & E).
  apply push_out_ok in E1 as (Egi & Hms & os1 & gw1 & Hw1 & Hc1 & Eg1 & ->); [|done|intros k; specialize (Hl k); cbn [List.length] in Hl; lia].
  apply IH in E as (-> & Hnd & Hms' & os & gw & Hw2 & Hc & Eg & ->); clear IH; [|done|].
  2: { intros k. unfold outputs_of. cbn [m_db_outputs set_outs set_outputs]. rewrite Hc1, length_app.
       pose proof (entry_at_length tx_id i o k). specialize (Hl k). cbn [List.length] in Hl. lia. }
  unfold outputs_of in Hc. cbn [m_db_outputs m_db_multisig_outs m_db_gateway_addresses set_outs set_outputs set_multisig_outs set_gateway_addresses] in *.
  assert (Hfresh : Forall (fun id => id <> null_hash /\ m_db_multisig_outs s !! id = None /\ id ∉ out_ms tx i o) (new_ms tx (S i) outs)).
  { eapply Forall_impl; [exact Hms'|]. cbn beta. intros id [Hne Hid]. split; [done|].
    destruct (out_ms_single tx i o) as [Eo|Eo]; rewrite Eo in *; [split; [done|set_solver]|].
    destruct (decide (id = get_multisig_out_id tx i)) as [->|Hne']; [by rewrite lookup_insert_eq in Hid|].
    rewrite lookup_insert_ne in Hid by done. split; [done|set_solver]. }
  cbn [out_indexes new_ms new_entries insert_ms mbind list_bind]. split; [|split; [|split]].
  - rewrite <- app_assoc. cbn [app]. f_equal. f_equal; [done|]. apply out_indexes_ext. intros k.
    unfold outputs_of. cbn [m_db_outputs set_outs set_outputs]. by rewrite Hc1, length_app.
  - apply NoDup_app. split; [destruct (out_ms_single tx i o) as [-> | ->]; [constructor|apply NoDup_singleton]|]. split; [|done].
    intros id Hin Hin'. rewrite list.Forall_forall in Hfresh. by destruct (Hfresh id Hin') as (_ & _ & ?).
  - apply Forall_app. split; [done|]. eapply Forall_impl; [exact Hfresh|]. naive_solver.
  - exists os, gw. split; [done|]. split; [intros k; by rewrite Hc, Hc1, app_assoc|]. split; [apply gw_run_app; by exists gw1|done].
Qed.

(** Taking one output back. *)
Lemma pop_out_run tx tx_id i o s (base : Z -> list global_output_entry) gw' : arr_wf (m_db_outputs s) -> Z.of_nat i < 2 ^ 32 ->
  (forall k, outputs_of s k = base k ++ entry_at tx_id i o k) ->
  Forall (fun id => id <> null_hash /\ is_Some (m_db_multisig_outs s !! id)) (out_ms tx i o) ->
  for_each gw_step (gw_undo <$> out_gw o) (m_db_gateway_addresses s) = (Ok tt, gw') ->
  exists os, arr_wf os /\ (forall k, arr_contents os k = base k) /\
    pop_out tx tx_id i o s = (Ok tt, set_outs os (delete_all (out_ms tx i o) (m_db_multisig_outs s)) gw' s).
Proof.
  intros Hw Hi Hc Hms Eg.
  assert (Hpop : forall a, (forall k, outputs_of s k = base k ++ (if decide (a = k) then [construct_output_entry tx_id (Z.of_nat i)] else [])) ->
    exists os, arr_wf os /\ (forall k, arr_contents os k = base k) /\ do_pop_output tx_id i a s = (Ok tt, set_outputs os s)).
  { intros a Ha. destruct (arr_pop_ok (m_db_outputs s) a Hw) as (os & Ep & Hw' & Hc'). exists os. split; [done|].
    pose proof (Ha a) as Haa. rewrite decide_True in Haa by done. unfold outputs_of in *.
    split.
    - intros k. rewrite Hc'. case_decide; subst; [rewrite Haa; apply removelast_snoc|]. rewrite Ha, decide_False by congruence. apply app_nil_r.
    - assert (Hlen : Z.of_nat (List.length (arr_contents (m_db_outputs s) a)) = Z.of_nat (List.length (base a)) + 1).
      { rewrite Haa, length_app. cbn [List.length]. lia. }
      unfold do_pop_output. erewrite bind_eq by reflexivity. rewrite arr_size_ok, Hlen by done.
      rewrite (proj2 (Z.eqb_neq _ 0)) by lia. cbn [negb]. erewrite bind_eq by reflexivity. erewrite bind_eq by reflexivity.
      rewrite arr_get_ok, Hlen by (try done; lia). rewrite (proj2 (Z.ltb_lt _ _)) by lia. rewrite Haa.
      replace (Z.to_nat (Z.of_nat (List.length (base a)) + 1 - 1)) with (List.length (base a)) by lia.
      rewrite list_lookup_middle by done. cbn [deref]. erewrite bind_eq by reflexivity. cbn [goe_tx_id goe_out_no construct_output_entry].
      rewrite bool_decide_true by done. erewrite bind_eq by reflexivity. unfold wrap. rewrite Z.mod_small, Z.eqb_refl by lia.
      erewrite bind_eq by reflexivity. unfold on_outputs, zoom. by rewrite Ep. }
  unfold entry_at, out_entry, out_ms, out_gw, pop_out in *. destruct o as [b|z|g].
  - destruct (ob_target b) as [k|m].
    + apply none_ok in Eg as ->. destruct (Hpop _ Hc) as (os & ? & ? & ->). exists os. split; [done|]. split; [done|]. by destruct s.
    + apply none_ok in Eg as ->. apply Forall_singleton in Hms as [Hne [e He]]. exists (m_db_outputs s). split; [done|].
      split; [intros k; specialize (Hc k); rewrite app_nil_r in Hc; done|]. rewrite bool_decide_true by done.
      erewrite bind_eq by reflexivity. erewrite bind_eq by reflexivity. erewrite bind_eq by reflexivity. rewrite He. by destruct s.
  - apply none_ok in Eg as ->. destruct (Hpop _ Hc) as (os & ? & ? & ->). exists os. split; [done|]. split; [done|]. by destruct s.
  - cbn [fmap list_fmap gw_undo] in Eg. apply single_ok in Eg. cbn [gw_step] in Eg. exists (m_db_outputs s). split; [done|].
    split; [intros k; specialize (Hc k); rewrite app_nil_r in Hc; done|]. unfold on_gateways, zoom. rewrite Eg. by destruct s.
Qed.

Lemma pop_outs_run tx tx_id outs i s (base : Z -> list global_output_entry) gw' : arr_wf (m_db_outputs s) ->
  Z.of_nat i + Z.of_nat (List.length outs) <= 2 ^ 32 -> (forall k, outputs_of s k = base k ++ new_entries tx_id i outs k) ->
  NoDup (new_ms tx i outs) -> Forall (fun id => id <> null_hash /\ is_Some (m_db_multisig_outs s !! id)) (new_ms tx i outs) ->
  for_each gw_step (rev (gw_undo <$> (outs ≫= out_gw))) (m_db_gateway_addresses s) = (Ok tt, gw') ->
  exists os ms, arr_wf os /\ (forall k, arr_contents os k = base k) /\
    (forall id, ms !! id = if decide (id ∈ new_ms tx i outs) then None else m_db_multisig_outs s !! id) /\
    for_each (fun '(i, o) => pop_out tx tx_id i o) (rev (imap (fun j o => ((i + j)%nat, o)) outs)) s = (Ok tt, set_outs os ms gw' s).
Proof.
  revert i s base gw'. induction outs as [|o outs IH]; intros i s base gw' Hw Hl Hc Hnd Hms Eg.
  { cbn in *. injection Eg as <-. exists (m_db_outputs s), (m_db_multisig_outs s). split; [done|].
    split; [intros k; specialize (Hc k); by rewrite app_nil_r in Hc|]. split; [intros id; by rewrite decide_False by set_solver|]. by destruct s. }
  cbn [new_ms new_entries List.length mbind list_bind] in *. apply NoDup_app in Hnd as (_ & Hd & Hnd). apply Forall_app in Hms as [Hmo Hms].
  rewrite fmap_app, rev_app_distr in Eg. apply gw_run_app in Eg as (gw1 & Eg1 & Eg2).
  assert (Hrev : rev (gw_undo <$> out_gw o) = gw_undo <$> out_gw o) by (by destruct o). rewrite Hrev in Eg2.
  destruct (IH (S i) s (fun k => base k ++ entry_at tx_id i o k) gw1) as (os1 & ms1 & Hw1 & Hc1 & Hm1 & E1);
    [done|lia|intros k; by rewrite Hc, app_assoc|done|done|done|].
  set (s1 := set_outs os1 ms1 gw1 s) in *.
  destruct (pop_out_run tx tx_id i o s1 base gw') as (os & Hw2 & Hc2 & E2); [done|lia|done| |done|].
  { apply list.Forall_forall. intros id Hin. rewrite list.Forall_forall in Hmo. destruct (Hmo id Hin) as [? Hs]. split; [done|].
    cbn. rewrite Hm1, decide_False; [done|]. by apply Hd. }
  exists os, (delete_all (out_ms tx i o) ms1). split; [done|]. split; [done|]. split.
  { intros id. rewrite lookup_delete_all, Hm1. repeat case_decide; set_solver. }
  cbn [imap]. rewrite Nat.add_0_r. cbn [rev]. rewrite for_each_app.
  replace (imap ((λ (j : nat) (o0 : tx_out_v), ((i + j)%nat, o0)) ∘ S) outs) with (imap (fun j o => ((S i + j)%nat, o)) outs).
  2: { apply imap_ext. intros j x _. cbn. f_equal. lia. }
  rewrite (bind_eq _ _ _ _ _ E1). apply for_each_cons_ok. eexists. split; [exact E2|done].
Qed.

(** ** The history of the gateway addresses *)

Definition history_of_gw s : gateway_address_id_type -> list hash := arr_contents (m_db_gateway_transactions s).

Lemma push_history_ok tx_id (gws : list gateway_address_id_type) s s' : arr_wf (m_db_gateway_transactions s) -> NoDup gws ->
  (forall k, k ∈ gws -> Z.of_nat (List.length (history_of_gw s k)) + 1 < 2 ^ 64) ->
  for_each (fun gw_addr => on_gateway_transactions (arr_push gw_addr tx_id)) gws s = (Ok tt, s') ->
  exists tg, s' = set_gateway_transactions tg s /\ arr_wf tg /\
    forall k, arr_contents tg k = history_of_gw s k ++ (if decide (k ∈ gws) then [tx_id] else []).
Proof.
  intros Hw Hnd. revert s Hw. induction gws as [|g gws IH]; intros s Hw Hl E.
  { cbn in E. injection E as <-. exists (m_db_gateway_transactions s). split; [by destruct s|]. split; [done|].
    intros k. rewrite decide_False by set_solver. by rewrite app_nil_r. }
  apply NoDup_cons in Hnd as [Hg Hnd]. apply for_each_cons_ok in E as (s1 & E1 & E).
  unfold on_gateway_transactions in E1. apply zoom_ok in E1 as (tg1 & E1 & ->).
  destruct (arr_push_ok (m_db_gateway_transactions s) g tx_id Hw (Hl g ltac:(by left))) as (tg & E2 & Hw1 & Hc1).
  rewrite E2 in E1. injection E1 as <-. apply IH in E as (tg2 & -> & Hw2 & Hc2); [|done|done|].
  2: { intros k Hk. unfold history_of_gw. cbn. rewrite Hc1, decide_False by (intros ->; done). apply Hl. by right. }
  exists tg2. split; [done|]. split; [done|]. intros k. rewrite Hc2. unfold history_of_gw. cbn. rewrite Hc1.
  destruct (decide (k = g)) as [->|Hne].
  - rewrite (decide_False (P := g ∈ gws)), (decide_True (P := g ∈ g :: gws)) by set_solver. by rewrite app_nil_r.
  - f_equal. repeat case_decide; set_solver.
Qed.

Definition unprocess_one (tx_id : hash) (gw_addr : gateway_address_id_type) : st storage unit :=
  r ← read (fun s => arr_get (m_db_gateway_transactions s) gw_addr (u64 (arr_size (m_db_gateway_transactions s) gw_addr - 1)));
  ptr ← lift r;
  if bool_decide (ptr = Some tx_id) then on_gateway_transactions (arr_pop gw_addr) else mret tt.

Lemma pop_history_run tx_id (gws : list gateway_address_id_type) s (base : gateway_address_id_type -> list hash) :
  arr_wf (m_db_gateway_transactions s) -> NoDup gws -> (forall k, k ∈ gws -> Z.of_nat (List.length (base k)) + 1 < 2 ^ 64) ->
  (forall k, history_of_gw s k = base k ++ (if decide (k ∈ gws) then [tx_id] else [])) ->
  exists tg, arr_wf tg /\ (forall k, arr_contents tg k = base k) /\
    for_each (unprocess_one tx_id) gws s = (Ok tt, set_gateway_transactions tg s).
Proof.
  intros Hw Hnd. revert s Hw. induction gws as [|g gws IH]; intros s Hw Hl Hc.
  { exists (m_db_gateway_transactions s). split; [done|]. split; [|by destruct s]. intros k. specialize (Hc k).
    rewrite decide_False in Hc by set_solver. by rewrite app_nil_r in Hc. }
  apply NoDup_cons in Hnd as [Hg Hnd]. destruct (arr_pop_ok (m_db_gateway_transactions s) g Hw) as (tg & Ep & Hw1 & Hc1).
  pose proof (Hc g) as Hcg. rewrite decide_True in Hcg by (by left). specialize (Hl g ltac:(by left)) as Hlg.
  assert (E1 : unprocess_one tx_id g s = (Ok tt, set_gateway_transactions tg s)).
  { unfold unprocess_one. erewrite bind_eq by reflexivity. unfold history_of_gw in Hcg.
    assert (Hlen : Z.of_nat (List.length (arr_contents (m_db_gateway_transactions s) g)) = Z.of_nat (List.length (base g)) + 1).
    { rewrite Hcg, length_app. cbn [List.length]. lia. }
    rewrite arr_size_ok, Hlen by done. rewrite (wrap_small 64) by (unfold in_u; lia). rewrite arr_get_ok, Hlen by (try done; lia).
    rewrite (proj2 (Z.ltb_lt _ _)) by lia. rewrite Hcg. replace (Z.to_nat _) with (List.length (base g)) by lia.
    rewrite list_lookup_middle by done. erewrite bind_eq by reflexivity. rewrite bool_decide_true by done.
    unfold on_gateway_transactions, zoom. by rewrite Ep. }
  destruct (IH Hnd (set_gateway_transactions tg s)) as (tg2 & Hw2 & Hc2 & E2); [done|intros; apply Hl; by right| |].
  { intros k. unfold history_of_gw. cbn. rewrite Hc1. destruct (decide (k = g)) as [->|Hne].
    - unfold history_of_gw in Hcg. rewrite Hcg, decide_False, app_nil_r by done. apply removelast_snoc.
    - specialize (Hc k). unfold history_of_gw in Hc. rewrite Hc. f_equal. repeat case_decide; set_solver. }
  exists tg2. split; [done|]. split; [done|]. apply for_each_cons_ok. exists (set_gateway_transactions tg s). split; [exact E1|exact E2].
Qed.

(** ** Services *)

(** A service forgets an entry that is taken back. *)
Definition service_law : Prop := forall a i tx h h' bl_id ts ts' srv,
  service_entry_pop a i tx h' ts' (service_entry_push a i tx h bl_id ts srv) = srv.

Lemma handle_pop_push (a : tx_service_attachment) (i : Z) (tx : transaction) (h h' : Z) (bl_id : hash) (ts ts' : Z) (m : gmap (list Z) service) : service_law ->
  handle_entry_pop a i tx h' ts' (handle_entry_push a i tx h bl_id ts m) = m.
Proof.
  intros Hlaw. unfold handle_entry_pop, handle_entry_push. destruct (m !! tsa_service_id a) as [srv|] eqn:E; [|by rewrite E].
  rewrite lookup_insert_eq, Hlaw, insert_insert_eq. by apply insert_id.
Qed.

Lemma count_rev {A} (p : A -> bool) (l : list A) : count p (rev l) = count p l.
Proof. unfold count. by rewrite List.filter_rev, List.length_rev. Qed.

Lemma count_cons {A} (p : A -> bool) a (l : list A) : count p (a :: l) = (if p a then S (count p l) else count p l).
Proof. unfold count. cbn. by destruct (p a). Qed.

Lemma unprocess_loop_app (l l' : list payload_items_v) (cnt : Z) (tx : transaction) (h ts : Z) (m : gmap (list Z) service) :
  unprocess_attachments_loop (l ++ l') cnt tx h ts m =
  unprocess_attachments_loop l' (cnt - Z.of_nat (count is_service_attachment l)) tx h ts (unprocess_attachments_loop l cnt tx h ts m).
Proof.
  revert cnt m. induction l as [|a l IH]; intros cnt m; cbn [app].
  { cbn. f_equal. lia. }
  rewrite count_cons. destruct a; cbn [unprocess_attachments_loop is_service_attachment]; rewrite IH; f_equal; lia.
Qed.

Lemma services_undone_loop (l : list payload_items_v) (cnt : Z) (tx : transaction) (h h' : Z) (bl_id : hash) (ts ts' : Z) (m : gmap (list Z) service) : service_law ->
  unprocess_attachments_loop (rev l) (cnt + Z.of_nat (count is_service_attachment l) - 1) tx h' ts'
    (process_attachments_loop l cnt tx h bl_id ts m) = m.
Proof.
  intros Hlaw. revert cnt m. induction l as [|a l IH]; intros cnt m; [done|]. cbn [rev]. rewrite unprocess_loop_app, count_rev, count_cons.
  destruct a; cbn [process_attachments_loop is_service_attachment]; try (rewrite IH; done).
  replace (cnt + Z.of_nat (S (count is_service_attachment l)) - 1) with (cnt + 1 + Z.of_nat (count is_service_attachment l) - 1) by lia. rewrite IH.
  cbn [unprocess_attachments_loop]. replace (cnt + 1 + _ - 1 - _) with cnt by lia. by apply handle_pop_push.
Qed.

Lemma services_undone (tx : transaction) (h h' : Z) (bl_id : hash) (ts ts' : Z) (m : gmap (list Z) service) : service_law ->
  unprocess_blockchain_tx_attachments tx h' ts' (process_blockchain_tx_attachments tx h bl_id ts m) = m.
Proof.
  intros Hlaw. unfold unprocess_blockchain_tx_attachments, process_blockchain_tx_attachments, get_service_attachments_count_in_tx.
  destruct (Nat.eqb_spec (count is_service_attachment (tx_attachment tx)) 0) as [E|E].
  - revert E. generalize 0 as cnt. revert m. induction (tx_attachment tx) as [|a l IH]; intros m cnt E; [done|].
    rewrite count_cons in E. destruct a; cbn [is_service_attachment process_attachments_loop] in *; by try apply IH.
  - rewrite <- (services_undone_loop (tx_attachment tx) 0 tx h h' bl_id ts ts' m Hlaw) at 2. f_equal.
Qed.

End spec.
