(* ===== verification/ChainUndo.v ===== *)
(** * Adding a transaction to the blockchain, and taking it back

    The theorems about [add_transaction_from_block] and
    [purge_transaction_from_blockchain]: what a transaction that is accepted
    leaves behind, that no key image is spent twice on a chain, that the index of
    the outputs is exact, and that taking the last transaction back restores the
    containers. *)

From S2P Require Import Prelude Config HardForks Archive Keccak Pod CryptoTypes Basic Transactions HfTerms TxSemantic StateM DbArrays Gateway Assets Aliases TxHardforks Chain ChainSpec.

Section undo.
Context `{GatewayCrypto, AssetCrypto, i_bc_service}.
Context {TO TG : Type} {AO : ArrayStore Z global_output_entry TO} {AG : ArrayStore gateway_address_id_type hash TG}.
Abbreviation storage := (chain TO TG service).
Implicit Types s t : storage.
Context (hard_forks : hard_forks_descriptor) (alias_validation_pubkey : public_key).

(** ** The extra field *)

Definition extra_of (tx : transaction) : tx_extra_info := snd (parse_and_validate_tx_extra tx tx_extra_info_init).

(** Well-formed containers. *)
Record chain_wf s : Prop := {
  outputs_wf : arr_wf (m_db_outputs s);
  gateway_history_wf : arr_wf (m_db_gateway_transactions s);
  gateways_wf : gw_wf (m_db_gateway_addresses s);
  assets_are_wf : assets_wf (m_db_assets s);
  aliases_are_wf : alias_wf (m_aliases s)
}.

Definition set_extra (al : alias_db) (as_ : assets_db) (gw : gateway_addresses) s : storage :=
  set_alias_db al (set_assets as_ (set_gateway_addresses gw s)).

(** What the extra field does to the three databases, and that it can be undone
    on an equivalent state. *)
Record extra_done (tx : transaction) (tx_id : hash) (height : Z) (al : alias_db) (as_ : assets_db) (gw : gateway_addresses)
    (al' : alias_db) (as' : assets_db) (gw' : gateway_addresses) : Prop := {
  done_alias_wf : alias_wf al';
  done_assets_wf : assets_wf as';
  done_gateways_wf : gw_wf gw';
  done_undone t : alias_equiv (m_aliases t) al' -> m_db_assets t = as' -> gw_equiv (m_db_gateway_addresses t) gw' ->
    exists al2 gw2, unprocess_blockchain_tx_extra hard_forks tx height tx_id t = (Ok tt, set_extra al2 as_ gw2 t) /\
      alias_equiv al2 al /\ gw_equiv gw2 gw
}.

Lemma alias_equiv_refl d : alias_equiv d d.
Proof. done. Qed.

Lemma process_extra_ok tx_fee_median tx tx_id height s s' : chain_wf s -> fresh_tx tx_id (m_aliases s) ->
  ado_ok (m_asset_operation (extra_of tx)) ->
  process_blockchain_tx_extra hard_forks alias_validation_pubkey tx_fee_median tx tx_id height s = (Ok tt, s') ->
  exists al as_ gw, s' = set_extra al as_ gw s /\
    extra_done tx tx_id height (m_aliases s) (m_db_assets s) (m_db_gateway_addresses s) al as_ gw.
Proof.
  intros Hwf Hf Hado E. unfold process_blockchain_tx_extra, extra_of in *.
  destruct (parse_and_validate_tx_extra tx tx_extra_info_init) as [r ei] eqn:Ep. cbn [snd] in *.
  apply bind_ok in E as (u & s0 & E0 & E). apply check_ok in E0 as [-> <-].
  apply bind_ok in E as (u1 & s1 & E1 & E). apply bind_ok in E as (u2 & s2 & E2 & E).
  (* aliases *)
  assert (Hal : exists al, s1 = set_alias_db al s /\ alias_wf al /\
    forall t, alias_equiv (m_aliases t) al -> exists al2, (if negb (bool_decide (ae_m_alias (m_alias ei) = [])) then on_aliases (pop_alias_info (m_alias ei) tx_id) else mret tt) t =
      (Ok tt, set_alias_db al2 t) /\ alias_equiv al2 (m_aliases s)).
  { destruct (negb (bool_decide (ae_m_alias (m_alias ei) = []))).
    - apply bind_ok in E1 as (u3 & s3 & E3 & E1). unfold on_aliases in E3, E1. apply zoom_ok in E3 as (d & E3 & ->).
      apply ro_run in E3; [|apply prevalidate_ro]. subst d. apply zoom_ok in E1 as (d & E1 & ->). cbn in E1.
      exists d. split; [by destruct s|].
      pose proof (put_alias_info_spec (m_alias ei) tx_id (m_aliases s)) as Hps. cbn zeta in Hps. rewrite E1 in Hps.
      destruct Hps as (_ & _ & Ha & Hm & _). split; [by eapply put_wf; [apply Hwf|..]|].
      intros t Ht.
      destruct (alias_put_pop _ _ _ _ _ _ (aliases_are_wf s Hwf) Hf E1 Ht) as (d2 & E4 & Heq). exists d2. split; [|done].
      unfold on_aliases, zoom. by rewrite E4.
    - apply ret_ok in E1 as [_ <-]. exists (m_aliases s). split; [by destruct s|]. split; [apply Hwf|]. intros t Ht.
      exists (m_aliases t). split; [by destruct t|done]. }
  destruct Hal as (al & -> & Hwal & Hundo1).
  (* assets *)
  assert (Has : exists as_, s2 = set_assets as_ (set_alias_db al s) /\ assets_wf as_ /\
    forall t, m_db_assets t = as_ -> (if negb (ado_operation_type (m_asset_operation ei) =? ASSET_DESCRIPTOR_OPERATION_UNDEFINED)
        then on_assets (pop_asset_info hard_forks (m_asset_operation ei) height) else mret tt) t = (Ok tt, set_assets (m_db_assets s) t)).
  { destruct (negb (ado_operation_type (m_asset_operation ei) =? _)).
    - unfold on_assets in E2. apply zoom_ok in E2 as (d & E2 & ->). cbn in E2.
      destruct (put_asset_info_ok _ _ _ _ _ _ _ _ (assets_are_wf s Hwf) Hado E2) as (id & h' & d' & _ & -> & Hh & _ & _ & Hpop).
      eexists. split; [done|]. split; [apply map_Forall_insert_2; [done|apply Hwf]|]. intros t Ht. unfold on_assets, zoom. by rewrite Ht, Hpop.
    - apply ret_ok in E2 as [_ <-]. exists (m_db_assets s). split; [by destruct s|]. split; [apply Hwf|]. intros t Ht.
      rewrite <- Ht. by destruct t. }
  destruct Has as (as_ & -> & Hwas & Hundo2).
  (* gateways *)
  assert (Hgw : exists gw, s' = set_gateway_addresses gw (set_assets as_ (set_alias_db al s)) /\ gw_wf gw /\
    forall t, gw_equiv (m_db_gateway_addresses t) gw -> exists gw2,
      match m_opt_gateway_address_operation ei with Some gao => on_gateways (pop_gw_address_operation gao) | None => mret tt end t =
        (Ok tt, set_gateway_addresses gw2 t) /\ gw_equiv gw2 (m_db_gateway_addresses s)).
  { destruct (m_opt_gateway_address_operation ei) as [gao|].
    - unfold on_gateways in E. apply zoom_ok in E as (d & E & ->). cbn in E. exists d. split; [done|].
      pose proof (put_operation_spec tx tx_id gao (m_db_gateway_addresses s)) as Hps. rewrite E in Hps. destruct Hps as (gad & Hall & ->).
      split; [apply map_Forall_insert_2; [eapply allowed_wf; [apply Hwf|done]|apply Hwf]|].
      intros t Ht. destruct (pop_operation_equiv _ _ _ _ _ _ Hall Ht) as (gw2 & Eg & Heq). exists gw2. split; [|done].
      unfold on_gateways, zoom. by rewrite Eg.
    - apply ret_ok in E as [_ <-]. exists (m_db_gateway_addresses s). split; [by destruct s|]. split; [apply Hwf|]. intros t Ht.
      exists (m_db_gateway_addresses t). split; [by destruct t|done]. }
  destruct Hgw as (gw & -> & Hwgw & Hundo3).
  exists al, as_, gw. split; [done|]. constructor; [done..|].
  intros t Hta Hts Htg. unfold unprocess_blockchain_tx_extra. rewrite Ep. erewrite bind_eq by reflexivity.
  destruct (Hundo1 t Hta) as (al2 & E1' & Heq1). rewrite (bind_eq _ _ _ _ _ E1').
  rewrite (bind_eq _ _ _ _ _ (Hundo2 (set_alias_db al2 t) Hts)).
  destruct (Hundo3 (set_assets (m_db_assets s) (set_alias_db al2 t)) Htg) as (gw2 & E3' & Heq3).
  exists al2, gw2. split; [exact E3'|done].
Qed.

(** ** What an accepted transaction leaves *)

Definition keys_of (tx : transaction) : list key_image := vin tx ≫= in_keys.
Definition gw_ops (tx : transaction) : list gw_op := (vin tx ≫= in_gw) ++ (vout tx ≫= out_gw).

(** The offsets, amounts and descriptors of a transaction that was parsed. *)
Record tx_wf (tx : transaction) : Prop := {
  offsets_ok : Forall in_ok (vin tx);
  amounts_ok : Forall (fun op => is_u64 (gw_amount op)) (gw_ops tx);
  operation_ok : ado_ok (m_asset_operation (extra_of tx));
  outputs_count_ok : Z.of_nat (List.length (vout tx)) <= 2 ^ 32
}.

(** The counters of the arrays do not wrap around. *)
Record room_for (tx : transaction) s : Prop := {
  room_outputs k : Z.of_nat (List.length (outputs_of s k)) + Z.of_nat (List.length (vout tx)) < 2 ^ 64;
  room_history k : Z.of_nat (List.length (history_of_gw s k)) + 1 < 2 ^ 64
}.

Definition new_entry (tx : transaction) (tx_id : hash) (bl_height : Z) s : transaction_chain_entry := {|
  tce_tx := tx; m_keeper_block_height := bl_height;
  m_global_output_indexes := out_indexes tx_id 0 (vout tx) (fun k => List.length (outputs_of s k));
  m_spent_flags := replicate (List.length (vout tx)) false |}.

Record added (tx_expiration_median : Z) (tx : transaction) (tx_id bl_id : hash) (bl_height timestamp : Z) s s' : Prop := {
  added_not_expired : is_tx_expired tx tx_expiration_median = false;
  added_hardfork : validate_tx_for_hardfork_specific_terms hard_forks tx bl_height = Ret true;
  added_new : m_db_transactions s !! tx_id = None;
  added_resolvable : Forall (in_resolvable (outputs_of s) (m_db_multisig_outs s)) (vin tx);
  added_refs : Forall (ref_ok (m_db_transactions s)) (refs_of s (vin tx));
  added_transactions : m_db_transactions s' =
    <[tx_id := new_entry tx tx_id bl_height s]> (set_flags (add_flags bl_height s (vin tx)) (m_db_transactions s));
  added_keys_distinct : NoDup (keys_of tx);
  added_keys_fresh : Forall (fun k => m_db_spent_keys s !! k = None) (keys_of tx);
  added_keys : m_db_spent_keys s' = insert_keys bl_height (keys_of tx) (m_db_spent_keys s);
  added_outputs k : outputs_of s' k = outputs_of s k ++ new_entries tx_id 0 (vout tx) k;
  added_ms_distinct : NoDup (new_ms tx 0 (vout tx));
  added_ms_fresh : Forall (fun id => id <> null_hash /\ m_db_multisig_outs s !! id = None) (new_ms tx 0 (vout tx));
  added_ms : m_db_multisig_outs s' = insert_ms tx tx_id 0 (vout tx) (mark bl_height (vin tx ≫= in_ms) (m_db_multisig_outs s));
  added_history k : history_of_gw s' k =
    history_of_gw s k ++ (if decide (k ∈ elements (get_gateway_addresses_involved_in_tx tx)) then [tx_id] else []);
  added_services : m_services_mgr s' = process_blockchain_tx_attachments tx bl_height bl_id timestamp (m_services_mgr s);
  added_databases : exists gw1, extra_done tx tx_id bl_height (m_aliases s) (m_db_assets s) (m_db_gateway_addresses s)
      (m_aliases s') (m_db_assets s') gw1 /\ for_each gw_step (gw_ops tx) gw1 = (Ok tt, m_db_gateway_addresses s');
  added_wf : chain_wf s'
}.

Lemma add_transaction_ok tx_expiration_median tx_fee_median tx tx_id bl_id bl_height timestamp s s' :
  chain_wf s -> tx_wf tx -> room_for tx s -> fresh_tx tx_id (m_aliases s) ->
  add_transaction_from_block hard_forks alias_validation_pubkey tx_expiration_median tx_fee_median tx tx_id bl_id bl_height timestamp s = (Ok tt, s') ->
  added tx_expiration_median tx tx_id bl_id bl_height timestamp s s'.
Proof.
  intros Hwf Htx Hroom Hf E. unfold add_transaction_from_block in E.
  apply bind_ok in E as (u & s0 & E0 & E). apply check_ok in E0 as [Hexp <-].
  apply bind_ok in E as (b & s0 & E0 & E). apply lift_outcome_ok in E0 as [Hhf <-].
  apply bind_ok in E as (u1 & s0 & E0 & E). apply check_ok in E0 as [-> <-].
  apply bind_ok in E as ([] & s1 & E1 & E).
  apply process_extra_ok in E1 as (al & as_ & gw1 & -> & Hx); [|done|done|apply Htx].
  apply bind_ok in E as ([] & s2 & E2 & E). unfold process_tx_gateway_history in E2.
  apply push_history_ok in E2 as (tg & -> & Hwg & Hcg); [|apply Hwf|apply NoDup_elements|intros k _; apply (room_history _ _ Hroom k)].
  apply bind_ok in E as (u3 & s3 & E3 & E). apply update_ok in E3 as <-.
  apply bind_ok in E as ([] & s4 & E4 & E). apply or_else_ok in E4.
  apply add_inputs_ok in E4 as (Hres & Hrefs & Hnd & Hfresh & gw2 & Egw & ->); [|apply Hwf|apply Htx].
  apply bind_ok in E as (p & s5 & E5 & E). apply read_ok in E5 as [<- <-].
  apply bind_ok in E as (u5 & s5 & E5 & E). apply or_else_ok, check_ok in E5 as [Hnew <-].
  apply bind_ok in E as (gis & s6 & E6 & E). apply update_ok in E as <-. unfold push_transaction_to_global_outs_index in E6.
  apply push_outs_ok in E6 as (-> & Hms & Hmsf & os & gw3 & Hwo & Hco & Egw' & ->); [|apply Hwf|apply (room_outputs _ _ Hroom)].
  assert (Hgr : for_each gw_step (gw_ops tx) gw1 = (Ok tt, gw3)) by (apply gw_run_app; by exists gw2).
  constructor; try done.
  - by destruct (is_tx_expired _ _).
  - change (match set_flags (add_flags bl_height s (vin tx)) (m_db_transactions s) !! tx_id with Some _ => false | None => true end = true) in Hnew.
    pose proof (set_flags_shape (add_flags bl_height s (vin tx)) (m_db_transactions s) tx_id) as Hsh.
    destruct (set_flags _ _ !! tx_id); [done|]. by destruct (m_db_transactions s !! tx_id).
  - eapply Forall_impl; [exact Hmsf|]. intros id [Hne Hid]. split; [done|]. cbn in Hid. rewrite lookup_mark in Hid.
    case_decide; [by apply fmap_None in Hid|done].
  - exists gw1. split; [exact Hx|exact Hgr].
  - destruct Hx as [Hw1 Hw2 Hw3 _]. constructor; try done. cbn.
    destruct (gw_run_spec _ gw1 Hw3 (amounts_ok _ Htx)) as (r & g & Eg & Hwg' & _). rewrite Hgr in Eg. by injection Eg as _ <-.
Qed.

(** ** Equivalent blockchains *)

(** Equal, up to the layout of the arrays, empty stacks of default aliases and
    gateway balances of zero. *)
Record chain_equiv s s' : Prop := {
  equiv_transactions : m_db_transactions s = m_db_transactions s';
  equiv_spent_keys : m_db_spent_keys s = m_db_spent_keys s';
  equiv_outputs k : outputs_of s k = outputs_of s' k;
  equiv_multisig : m_db_multisig_outs s = m_db_multisig_outs s';
  equiv_gateways : gw_equiv (m_db_gateway_addresses s) (m_db_gateway_addresses s');
  equiv_history k : history_of_gw s k = history_of_gw s' k;
  equiv_assets : m_db_assets s = m_db_assets s';
  equiv_aliases : alias_equiv (m_aliases s) (m_aliases s');
  equiv_services : m_services_mgr s = m_services_mgr s'
}.

#[export] Instance chain_equiv_equivalence : Equivalence chain_equiv.
Proof.
  split.
  - by constructor.
  - intros s s' [H2 H3 H4 H5 H6 H7 H8 (Ha & Hb & Hc) H10]. by constructor.
  - intros s1 s2 s3 H12 H23. destruct H12, H23. constructor; try (intros; congruence); [by etransitivity|].
    unfold alias_equiv in *. destruct equiv_aliases0 as (-> & -> & Hc), equiv_aliases1 as (-> & -> & Hc').
    split; [done|]. split; [done|]. intros addr. by rewrite Hc.
Qed.

(** ** Taking the last transaction back *)

(** References resolve the same on a longer chain. *)
Lemma refs_extend (c c' : Z -> list global_output_entry) ms ms' in_v :
  (forall k, exists l, c' k = c k ++ l) ->
  (forall (id : hash) e, ms !! id = Some e -> exists e', ms' !! id = Some e' /\ moe_tx_id e' = moe_tx_id e /\ moe_out_no e' = moe_out_no e) ->
  in_ok in_v -> in_resolvable c ms in_v -> in_resolvable c' ms' in_v /\ in_refs c' ms' in_v = in_refs c ms in_v.
Proof.
  intros Hc Hms Hok [Hd Hm].
  assert (Hdir : forall amount o, direct in_v = Some (amount, o) -> resolvable c' amount o /\ resolve c' amount o = resolve c amount o).
  { intros amount o E. specialize (Hd _ _ E). specialize (Hok _ _ E). destruct o as [i|r]; cbn in *; [|done].
    destruct (Z.eqb_spec amount 0) as [->|Hne]; [auto|]. destruct Hd as [|Hi]; [done|]. destruct (Hc amount) as [l ->].
    rewrite length_app, lookup_app_l by lia. split; [right; lia|done]. }
  split.
  - split; [intros a o E; by apply Hdir|]. eapply Forall_impl; [exact Hm|]. intros id [e He]. destruct (Hms id e He) as (e' & ? & _). by eexists.
  - destruct in_v as [x|x|x|x|x]; cbn [in_refs in_ms] in *; try done.
    + destruct (direct (in_to_key x)) as [[a o]|] eqn:E; [by apply Hdir|done].
    + apply Forall_singleton in Hm as [e He]. destruct (Hms _ _ He) as (e' & -> & -> & ->). by rewrite He.
    + destruct (direct (in_zc x)) as [[a o]|] eqn:E; [by apply Hdir|done].
Qed.

Lemma refs_extend_all (c c' : Z -> list global_output_entry) ms ms' ins :
  (forall k, exists l, c' k = c k ++ l) ->
  (forall (id : hash) e, ms !! id = Some e -> exists e', ms' !! id = Some e' /\ moe_tx_id e' = moe_tx_id e /\ moe_out_no e' = moe_out_no e) ->
  Forall in_ok ins -> Forall (in_resolvable c ms) ins ->
  Forall (in_resolvable c' ms') ins /\ (ins ≫= in_refs c' ms') = (ins ≫= in_refs c ms).
Proof.
  intros Hc Hms Hok Hr. induction ins as [|i ins IH]; [by split|].
  apply Forall_cons in Hok as [Hi Hok]. apply Forall_cons in Hr as [Hri Hr]. destruct (IH Hok Hr) as [IH1 IH2].
  destruct (refs_extend c c' ms ms' i Hc Hms Hi Hri) as [E1 E2]. split; [by constructor|]. cbn. by rewrite E2, IH2.
Qed.

Lemma undo_ins (ins : list txin_v) : (ins ≫= fun x => gw_undo <$> in_gw x) = gw_undo <$> (ins ≫= in_gw).
Proof. induction ins as [|i ins IH]; cbn; [done|]. by rewrite IH, fmap_app. Qed.

(** The flags that an addition sets are those a purge clears. *)
Lemma add_flags_refs h s ins : map fst (add_flags h s ins) = refs_of s ins.
Proof.
  unfold add_flags, refs_of. induction ins as [|i ins IH]; [done|]. cbn [mbind list_bind]. rewrite map_app, IH. f_equal.
  unfold flagged. rewrite map_map. apply map_id.
Qed.

Lemma touches_forall id j (l l' : list ((hash * Z) * bool)) : map fst l = map fst l' ->
  Forall (fun r => ~ touches id j r) l -> Forall (fun r => ~ touches id j r) l'.
Proof.
  revert l'. induction l as [|[r b] l IH]; intros [|[r' b'] l'] E Hf; try done. cbn in E. injection E as -> E.
  apply Forall_cons in Hf as [Hr Hf]. constructor; [exact Hr|by apply IH].
Qed.

Lemma flag_of_shape txs txs' id j : same_shape txs txs' -> is_Some (flag_of txs id j) -> is_Some (flag_of txs' id j).
Proof.
  intros Hs. specialize (Hs id). unfold flag_of. destruct (txs !! id) as [e|], (txs' !! id) as [e'|]; try done.
  cbn in *. injection Hs as _ _ _ Hl. rewrite !lookup_lt_is_Some. lia.
Qed.

(** Clearing the flags that were set restores the transactions. *)
Lemma flags_restored (tx_id : hash) e h s ins : m_db_transactions s !! tx_id = None -> Forall (ref_ok (m_db_transactions s)) (refs_of s ins) ->
  Forall (fun r => flag_of (m_db_transactions s) r.1 (Z.to_nat r.2) = Some false) (refs_of s ins) ->
  delete tx_id (set_flags (flagged false (refs_of s ins)) (<[tx_id := e]> (set_flags (add_flags h s ins) (m_db_transactions s)))) =
    m_db_transactions s.
Proof.
  intros Hnew Hrefs Hclear. set (txs := m_db_transactions s) in *. set (rs := refs_of s ins) in *.
  assert (Hflag : forall m id j, flag_of (delete tx_id m) id j = if decide (id = tx_id) then None else flag_of m id j).
  { intros m id j. unfold flag_of. case_decide as Hd; [subst; by rewrite lookup_delete_eq|by rewrite lookup_delete_ne]. }
  apply entries_eq.
  - intros id. destruct (decide (id = tx_id)) as [->|Hne]; [by rewrite lookup_delete_eq, Hnew|].
    rewrite lookup_delete_ne, (set_flags_shape _ _ id), lookup_insert_ne by done. apply set_flags_shape.
  - intros id j. rewrite Hflag. case_decide as Hd; [subst; unfold flag_of; by rewrite Hnew|].
    assert (Hins : forall m, flag_of (<[tx_id := e]> m) id j = flag_of m id j) by (intros m; unfold flag_of; by rewrite lookup_insert_ne).
    destruct (decide (Exists (touches id j) (flagged false rs))) as [He|He].
    + rewrite flag_of_cleared, Hins; [|by apply Forall_fmap, Forall_true|done].
      assert (Hf : flag_of txs id j = Some false).
      { apply Exists_exists in He as ([r b] & Hin & Ht). apply list_elem_of_In, in_map_iff in Hin as (r' & [= -> <-] & Hin).
        rewrite list.Forall_forall in Hclear. specialize (Hclear r (proj2 (list_elem_of_In _ _) Hin)). destruct Ht as [<- <-]. exact Hclear. }
      rewrite Hf. destruct (flag_of_shape txs (set_flags (add_flags h s ins) txs) id j) as [b ->]; [symmetry; apply set_flags_shape|by eexists|done].
    + apply not_Exists_Forall in He; [|apply _]. rewrite flag_of_untouched, Hins by done. apply flag_of_untouched.
      eapply touches_forall; [|exact He]. rewrite add_flags_refs. unfold flagged. rewrite map_map. apply map_id.
Qed.

(** Multisignature outputs are not spent before the transaction. *)
Definition ms_unspent s (ids : list hash) : Prop :=
  Forall (fun id => forall e, m_db_multisig_outs s !! id = Some e -> moe_spent_height e = 0) ids.

Lemma ms_restored (tx : transaction) (tx_id : hash) (h : Z) s (ms : gmap hash ms_output_entry) (ids : list hash) (outs : list tx_out_v) : ms_unspent s ids ->
  Forall (fun id => id <> null_hash /\ m_db_multisig_outs s !! id = None) (new_ms tx 0 outs) ->
  (forall id, ms !! id = if decide (id ∈ new_ms tx 0 outs) then None
     else mark 0 ids (insert_ms tx tx_id 0 outs (mark h ids (m_db_multisig_outs s))) !! id) -> ms = m_db_multisig_outs s.
Proof.
  unfold ms_unspent. rewrite !list.Forall_forall. intros Hu Hf Hms. apply map_eq. intros id. rewrite Hms. case_decide as Hd.
  - destruct (Hf id Hd) as [_ ?]. by symmetry.
  - rewrite lookup_mark, lookup_insert_ms, lookup_mark by done. case_decide as Hin; [|done].
    destruct (m_db_multisig_outs s !! id) as [e|] eqn:E; [|done]. specialize (Hu id Hin e E). destruct e as [t n sh]. cbn in *. by subst.
Qed.

Lemma keys_restored (h : Z) (ks : list key_image) (sk : gmap key_image Z) : Forall (fun k => sk !! k = None) ks -> delete_all ks (insert_keys h ks sk) = sk.
Proof.
  rewrite list.Forall_forall. intros Hf. apply map_eq. intros k. rewrite lookup_delete_all, lookup_insert_keys.
  repeat case_decide; [by symmetry; apply Hf|done].
Qed.

(** What the transaction takes from gateway addresses fits into their balances
    when it comes back before the outputs are gone. *)
Definition gateway_room (tx : transaction) s' : Prop := forall gw a b,
  ledger_of (m_db_gateway_addresses s') gw a = Some b -> b + net (gw_undo <$> (vin tx ≫= in_gw)) gw a <= UINT64_MAX.

Definition nothing_spent (tx : transaction) s : Prop :=
  Forall (fun r => flag_of (m_db_transactions s) r.1 (Z.to_nat r.2) = Some false) (refs_of s (vin tx)) /\ ms_unspent s (vin tx ≫= in_ms).

(** A state that stands for the one after the transaction. *)
Record like s t : Prop := {
  like_equiv : chain_equiv t s;
  like_outputs : arr_wf (m_db_outputs t);
  like_history : arr_wf (m_db_gateway_transactions t)
}.

(** The inputs. *)
Lemma purge_inputs_added expm tx tx_id bl_id h ts s s' t gw : added expm tx tx_id bl_id h ts s s' -> like s' t -> tx_wf tx ->
  for_each gw_step (gw_undo <$> (vin tx ≫= in_gw)) (m_db_gateway_addresses t) = (Ok tt, gw) ->
  purge_transaction_keyimages_from_blockchain tx true t = (Ok tt,
    set_inputs (set_flags (flagged false (refs_of s (vin tx))) (m_db_transactions s')) (m_db_spent_keys s)
      (mark 0 (vin tx ≫= in_ms) (m_db_multisig_outs s')) gw t).
Proof.
  intros Ha [Heq Hwo _] Htx Eg. destruct Heq as [Et Ek Eo Em _ _ _ _ _].
  destruct (refs_extend_all (outputs_of s) (outputs_of t) (m_db_multisig_outs s) (m_db_multisig_outs t) (vin tx)) as [Hr Er].
  { intros k. rewrite Eo, (added_outputs _ _ _ _ _ _ _ _ Ha). by eexists. }
  { intros id e He. rewrite Em, (added_ms _ _ _ _ _ _ _ _ Ha), lookup_insert_ms, lookup_mark.
    - rewrite He. case_decide; by eexists.
    - intros Hin. pose proof (added_ms_fresh _ _ _ _ _ _ _ _ Ha) as Hf. rewrite list.Forall_forall in Hf. destruct (Hf id Hin). congruence. }
  { apply Htx. } { apply Ha. }
  apply purge_keyimages_run. rewrite (purge_inputs_run (vin tx) t gw); try done; try apply Ha.
  - unfold refs_of. rewrite Er, Et, Em, Ek. do 2 f_equal. fold (keys_of tx). rewrite (added_keys _ _ _ _ _ _ _ _ Ha). apply keys_restored, Ha.
  - apply Htx.
  - unfold refs_of. rewrite Er, Et. eapply Forall_impl; [apply Ha|]. intros r (e & Ee & Hl). rewrite (added_transactions _ _ _ _ _ _ _ _ Ha).
    assert (Hr0 : ref_ok (set_flags (add_flags h s (vin tx)) (m_db_transactions s)) r) by (rewrite set_flags_shape; by exists e).
    destruct Hr0 as (e0 & He0 & Hl0). exists e0. split; [|done]. rewrite lookup_insert_ne; [done|]. intros ->.
    rewrite (added_new _ _ _ _ _ _ _ _ Ha) in Ee. done.
  - rewrite Ek. fold (keys_of tx). rewrite (added_keys _ _ _ _ _ _ _ _ Ha). apply list.Forall_forall. intros k Hin.
    rewrite lookup_insert_keys, decide_True by done. by eexists.
  - by rewrite undo_ins.
Qed.

(** The outputs. *)
Lemma pop_outputs_added expm tx tx_id bl_id h ts s s' t txs sk gw gw' : added expm tx tx_id bl_id h ts s s' -> like s' t -> tx_wf tx ->
  ms_unspent s (vin tx ≫= in_ms) ->
  for_each gw_step (rev (gw_undo <$> (vout tx ≫= out_gw))) gw = (Ok tt, gw') ->
  exists os, arr_wf os /\ (forall k, arr_contents os k = outputs_of s k) /\
    pop_transaction_from_global_index tx tx_id (set_inputs txs sk (mark 0 (vin tx ≫= in_ms) (m_db_multisig_outs s')) gw t) =
      (Ok tt, set_outs os (m_db_multisig_outs s) gw' (set_inputs txs sk (mark 0 (vin tx ≫= in_ms) (m_db_multisig_outs s')) gw t)).
Proof.
  intros Ha [Heq Hwo _] Htx Hms Eg. destruct Heq as [_ _ Eo Em _ _ _ _ _]. set (t1 := set_inputs _ _ _ _ _).
  destruct (pop_outs_run tx tx_id (vout tx) 0 t1 (outputs_of s) gw') as (os & ms & Hw & Hc & Hm & E).
  - exact Hwo.
  - pose proof (outputs_count_ok _ Htx). lia.
  - intros k. unfold t1. rewrite outputs_set_inputs, Eo. apply Ha.
  - apply Ha.
  - pose proof (added_ms_fresh _ _ _ _ _ _ _ _ Ha) as Hf. pose proof (added_ms_distinct _ _ _ _ _ _ _ _ Ha) as Hd. rewrite list.Forall_forall in Hf |- *.
    intros id Hin. split; [by apply Hf|]. cbn. rewrite lookup_mark, (added_ms _ _ _ _ _ _ _ _ Ha).
    pose proof (insert_ms_present tx tx_id 0 (vout tx) (mark h (vin tx ≫= in_ms) (m_db_multisig_outs s)) id Hd Hin) as Hp.
    case_decide; [by rewrite fmap_is_Some|done].
  - exact Eg.
  - exists os. split; [done|]. split; [done|]. unfold pop_transaction_from_global_index.
    replace ms with (m_db_multisig_outs s) in E; [exact E|]. symmetry. eapply (ms_restored tx tx_id h s ms); [exact Hms|apply Ha|].
    intros id. rewrite Hm. cbn. by rewrite (added_ms _ _ _ _ _ _ _ _ Ha).
Qed.

(** The gateway balances. *)
Lemma purge_gateways_added expm tx tx_id bl_id h ts s s' t : added expm tx tx_id bl_id h ts s s' -> like s' t -> tx_wf tx -> gateway_room tx s' ->
  exists gw1 gw2 gw3, extra_done tx tx_id h (m_aliases s) (m_db_assets s) (m_db_gateway_addresses s) (m_aliases s') (m_db_assets s') gw1 /\
    for_each gw_step (gw_undo <$> (vin tx ≫= in_gw)) (m_db_gateway_addresses t) = (Ok tt, gw2) /\
    for_each gw_step (rev (gw_undo <$> (vout tx ≫= out_gw))) gw2 = (Ok tt, gw3) /\ gw_equiv gw3 gw1.
Proof.
  intros Ha [Heq _ _] Htx Hgr. destruct (added_databases _ _ _ _ _ _ _ _ Ha) as (gw1 & Hx & Eg).
  assert (Hin : Forall is_input_op (vin tx ≫= in_gw)) by (clear; induction (vin tx) as [|[] ins IH]; cbn; try done; by constructor).
  assert (Hout : Forall is_output_op (vout tx ≫= out_gw)) by (clear; induction (vout tx) as [|[] outs IH]; cbn; try done; by constructor).
  destruct (undo_inputs_first _ _ gw1 _ (done_gateways_wf _ _ _ _ _ _ _ _ _ Hx) Hin Hout (amounts_ok _ Htx) Eg Hgr) as (gw3 & E3 & Heq3).
  assert (Hu : Forall (fun op => is_u64 (gw_amount op)) ((gw_undo <$> (vin tx ≫= in_gw)) ++ rev (gw_undo <$> (vout tx ≫= out_gw)))).
  { pose proof (amounts_ok _ Htx) as Hu. unfold gw_ops in Hu. apply Forall_app in Hu as [Hu1 Hu2]. apply Forall_app. split.
    - apply Forall_fmap. eapply Forall_impl; [exact Hu1|]. by intros [].
    - rewrite <- Permutation_rev. apply Forall_fmap. eapply Forall_impl; [exact Hu2|]. by intros []. }
  destruct (gw_run_equiv _ _ _ _ (gateways_wf _ (added_wf _ _ _ _ _ _ _ _ Ha)) (equiv_gateways _ _ Heq) Hu E3) as (gw4 & E4 & Heq4).
  apply gw_run_app in E4 as (gw2 & E1 & E2). exists gw1, gw2, gw4. split; [done|]. split; [done|]. split; [done|]. by rewrite Heq4.
Qed.

Lemma purge_added blocks_size expm tx tx_id bl_id h ts s s' t : service_law -> tx_wf tx -> room_for tx s ->
  added expm tx tx_id bl_id h ts s s' -> nothing_spent tx s -> gateway_room tx s' -> like s' t ->
  exists t', purge_transaction_from_blockchain hard_forks blocks_size tx_id t = (Ok (tx_fee tx, tx), t') /\ like s t'.
Proof.
  intros Hlaw Htx Hroom Ha [Hfl Hms] Hgr Hlike. pose proof Hlike as [Heq _ Hwh].
  destruct (purge_gateways_added _ _ _ _ _ _ _ _ _ Ha Hlike Htx Hgr) as (gw1 & gw2 & gw3 & Hx & Eg1 & Eg2 & Heq3).
  unfold purge_transaction_from_blockchain. erewrite bind_eq by reflexivity.
  assert (Hl : m_db_transactions s' !! tx_id = Some (new_entry tx tx_id h s)) by (rewrite (added_transactions _ _ _ _ _ _ _ _ Ha); apply lookup_insert_eq).
  rewrite (equiv_transactions _ _ Heq), Hl. erewrite bind_eq by reflexivity. cbn zeta. cbn [tce_tx new_entry].
  erewrite bind_eq by (apply (attempt_ok _ _ true); exact (purge_inputs_added _ _ _ _ _ _ _ _ _ _ Ha Hlike Htx Eg1)).
  destruct (pop_outputs_added _ _ _ _ _ _ _ _ _ (set_flags (flagged false (refs_of s (vin tx))) (m_db_transactions s')) (m_db_spent_keys s) gw2 gw3 Ha Hlike Htx Hms Eg2) as (os & Hwos & Hos & Ep).
  erewrite bind_eq by (apply (attempt_ok _ _ true); exact Ep). erewrite bind_eq by reflexivity.
  cbn [m_services_mgr set_outs set_inputs set_outputs set_multisig_outs set_gateway_addresses set_transactions set_spent_keys].
  rewrite (equiv_services _ _ Heq), (added_services _ _ _ _ _ _ _ _ Ha), services_undone by done.
  match goal with |- context [mbind _ (unprocess_tx_gateway_history tx_id tx) ?t] => set (s4 := t) end.
  destruct (pop_history_run tx_id (elements (get_gateway_addresses_involved_in_tx tx)) s4 (history_of_gw s)) as (tg & Hwtg & Htg & Eh).
  { exact Hwh. } { apply NoDup_elements. } { intros k _. apply (room_history _ _ Hroom). }
  { intros k. etransitivity; [apply (equiv_history _ _ Heq)|apply Ha]. }
  erewrite bind_eq by exact Eh.
  destruct (done_undone _ _ _ _ _ _ _ _ _ Hx (set_gateway_transactions tg s4) (equiv_aliases _ _ Heq) (equiv_assets _ _ Heq) Heq3) as (al2 & gw4 & Eu & Hal & Hgw).
  cbn [m_keeper_block_height new_entry]. erewrite bind_eq by exact Eu.
  erewrite bind_eq by reflexivity. erewrite bind_eq by reflexivity.
  cbn [m_db_transactions set_outs set_inputs set_outputs set_multisig_outs set_gateway_addresses set_transactions set_spent_keys set_gateway_transactions
    set_extra set_alias_db set_assets set_services s4].
  pose proof (set_flags_shape (flagged false (refs_of s (vin tx))) (m_db_transactions s') tx_id) as Hsh. rewrite Hl in Hsh.
  destruct (set_flags _ _ !! tx_id); [|done]. erewrite bind_eq by reflexivity. eexists. split; [reflexivity|].
  constructor; [|exact Hwos|exact Hwtg]. constructor; try done.
  cbn [m_db_transactions set_outs set_inputs set_outputs set_multisig_outs set_gateway_addresses set_transactions set_spent_keys set_gateway_transactions
    set_extra set_alias_db set_assets set_services s4].
  rewrite (added_transactions _ _ _ _ _ _ _ _ Ha). by apply flags_restored; [apply Ha..|].
Qed.

(** ** The indexes are exact *)

(** Every transaction's key images are spent at its height, no key image occurs
    twice, every spent key image is one of a transaction; the index of each amount
    lists the outputs of the transactions, each at the global index that its
    transaction records. *)
Record index_inv s : Prop := {
  keys_spent id e k : m_db_transactions s !! id = Some e -> k ∈ keys_of (tce_tx e) -> m_db_spent_keys s !! k = Some (m_keeper_block_height e);
  keys_once id id' e e' k : m_db_transactions s !! id = Some e -> m_db_transactions s !! id' = Some e' ->
    k ∈ keys_of (tce_tx e) -> k ∈ keys_of (tce_tx e') -> id = id';
  keys_distinct id e : m_db_transactions s !! id = Some e -> NoDup (keys_of (tce_tx e));
  spent_by k h : m_db_spent_keys s !! k = Some h ->
    exists id e, m_db_transactions s !! id = Some e /\ k ∈ keys_of (tce_tx e) /\ m_keeper_block_height e = h;
  outputs_indexed (id : hash) e j o a ent : m_db_transactions s !! id = Some e -> vout (tce_tx e) !! j = Some o -> out_entry id j o = Some (a, ent) ->
    exists gi, m_global_output_indexes e !! j = Some (Z.of_nat gi) /\ outputs_of s a !! gi = Some ent;
  outputs_owned a gi ent : outputs_of s a !! gi = Some ent ->
    exists e j o, m_db_transactions s !! goe_tx_id ent = Some e /\ vout (tce_tx e) !! j = Some o /\
      out_entry (goe_tx_id ent) j o = Some (a, ent) /\ m_global_output_indexes e !! j = Some (Z.of_nat gi);
  flags_per_output id e : m_db_transactions s !! id = Some e -> List.length (m_spent_flags e) = List.length (vout (tce_tx e))
}.

Lemma index_inv_equiv s t : chain_equiv t s -> index_inv s -> index_inv t.
Proof.
  intros [Et Ek Eo _ _ _ _ _ _] [H1' H2' H3' H4' H5' H6' H7']. constructor; rewrite Et.
  - rewrite Ek. exact H1'.
  - exact H2'.
  - exact H3'.
  - rewrite Ek. exact H4'.
  - intros id e j o a ent E1 E2 E3. destruct (H5' id e j o a ent E1 E2 E3) as (gi & ? & ?). exists gi. by rewrite Eo.
  - intros a gi ent. rewrite Eo. apply H6'.
  - exact H7'.
Qed.

Lemma out_index_entry (tx_id : hash) i outs n j o a ent : outs !! j = Some o -> out_entry tx_id (i + j) o = Some (a, ent) ->
  exists m, out_indexes tx_id i outs n !! j = Some (Z.of_nat (n a + m)) /\ new_entries tx_id i outs a !! m = Some ent.
Proof.
  revert i j n. induction outs as [|x outs IH]; intros i j n E1 E2; [done|]. destruct j as [|j]; cbn in E1.
  - injection E1 as ->. rewrite Nat.add_0_r in E2. exists 0%nat. cbn [out_indexes new_entries]. unfold entry_at. rewrite E2, decide_True by done.
    rewrite Nat.add_0_r. done.
  - replace (i + S j)%nat with (S i + j)%nat in E2 by lia.
    destruct (IH (S i) j (fun k => (n k + List.length (entry_at tx_id i x k))%nat) E1 E2) as (m & Em1 & Em2).
    exists (List.length (entry_at tx_id i x a) + m)%nat. cbn [out_indexes new_entries]. split.
    + etransitivity; [exact Em1|]. do 2 f_equal. lia.
    + rewrite lookup_app_r by lia. by replace (_ + m - _)%nat with m by lia.
Qed.

Lemma new_entry_owner (tx_id : hash) i outs n a m ent : new_entries tx_id i outs a !! m = Some ent ->
  exists j o, outs !! j = Some o /\ out_entry tx_id (i + j) o = Some (a, ent) /\ out_indexes tx_id i outs n !! j = Some (Z.of_nat (n a + m)).
Proof.
  revert i m n. induction outs as [|x outs IH]; intros i m n E; [done|]. cbn [new_entries] in E. apply lookup_app_Some in E as [E|[Hl E]].
  - unfold entry_at in E. destruct (out_entry tx_id i x) as [[a' e]|] eqn:Eo; [|done]. case_decide as Hd; [subst a'|done].
    destruct m as [|[|m]]; try done. injection E as ->. exists 0%nat, x. rewrite !Nat.add_0_r. split; [done|]. split; [done|]. cbn. by rewrite Eo.
  - destruct (IH (S i) _ (fun k => (n k + List.length (entry_at tx_id i x k))%nat) E) as (j & o & E1 & E2 & E3).
    exists (S j), o. split; [done|]. split; [by replace (i + S j)%nat with (S i + j)%nat by lia|]. etransitivity; [exact E3|]. do 2 f_equal. lia.
Qed.

Lemma out_entry_tx (tx_id : hash) i o a ent : out_entry tx_id i o = Some (a, ent) -> goe_tx_id ent = tx_id.
Proof.
  unfold out_entry. destruct o as [b| |]; [|by intros [= _ <-]|done]. destruct (ob_target b); [by intros [= _ <-]|done].
Qed.

(** What a lookup after an addition finds: the new entry, or an old one with
    other flags. *)
Lemma added_lookup expm tx tx_id bl_id h ts s s' (id : hash) e' : added expm tx tx_id bl_id h ts s s' -> m_db_transactions s' !! id = Some e' ->
  id = tx_id /\ e' = new_entry tx tx_id h s \/
  id <> tx_id /\ exists e, m_db_transactions s !! id = Some e /\ tce_tx e' = tce_tx e /\ m_keeper_block_height e' = m_keeper_block_height e /\
    m_global_output_indexes e' = m_global_output_indexes e /\ List.length (m_spent_flags e') = List.length (m_spent_flags e).
Proof.
  intros Ha E. rewrite (added_transactions _ _ _ _ _ _ _ _ Ha) in E. destruct (decide (id = tx_id)) as [->|Hne].
  - rewrite lookup_insert_eq in E. injection E as <-. by left.
  - rewrite lookup_insert_ne in E by done. right. split; [done|].
    pose proof (set_flags_shape (add_flags h s (vin tx)) (m_db_transactions s) id) as Hs. rewrite E in Hs.
    destruct (m_db_transactions s !! id) as [e|]; [|done]. cbn in Hs. injection Hs as -> -> -> ->. by exists e.
Qed.

Lemma added_keeps expm tx tx_id bl_id h ts s s' (id : hash) e : added expm tx tx_id bl_id h ts s s' -> m_db_transactions s !! id = Some e ->
  exists e', m_db_transactions s' !! id = Some e' /\ tce_tx e' = tce_tx e /\ m_keeper_block_height e' = m_keeper_block_height e /\
    m_global_output_indexes e' = m_global_output_indexes e.
Proof.
  intros Ha E. rewrite (added_transactions _ _ _ _ _ _ _ _ Ha). assert (Hne : id <> tx_id).
  { intros ->. rewrite (added_new _ _ _ _ _ _ _ _ Ha) in E. done. }
  rewrite lookup_insert_ne by done.
  pose proof (set_flags_shape (add_flags h s (vin tx)) (m_db_transactions s) id) as Hs. rewrite E in Hs.
  destruct (set_flags _ _ !! id) as [e'|]; [|done]. cbn in Hs. injection Hs as Hs1 Hs2 Hs3 _. by exists e'.
Qed.

Lemma added_spent expm tx tx_id bl_id h ts s s' k : added expm tx tx_id bl_id h ts s s' ->
  m_db_spent_keys s' !! k = if decide (k ∈ keys_of tx) then Some h else m_db_spent_keys s !! k.
Proof. intros Ha. rewrite (added_keys _ _ _ _ _ _ _ _ Ha). apply lookup_insert_keys. Qed.

Lemma added_index_inv expm tx tx_id bl_id h ts s s' : added expm tx tx_id bl_id h ts s s' -> index_inv s -> index_inv s'.
Proof.
  intros Ha Hi. pose proof (fun k => added_spent expm tx tx_id bl_id h ts s s' k Ha) as Hsp.
  assert (Hfresh : forall id e k, m_db_transactions s !! id = Some e -> k ∈ keys_of (tce_tx e) -> k ∉ keys_of tx).
  { intros id e k E Hk Hin. pose proof (added_keys_fresh _ _ _ _ _ _ _ _ Ha) as Hf. rewrite list.Forall_forall in Hf.
    specialize (Hf k Hin). rewrite (keys_spent _ Hi id e k E Hk) in Hf. done. }
  constructor.
  - intros id e k E Hk. rewrite Hsp. destruct (added_lookup _ _ _ _ _ _ _ _ _ _ Ha E) as [[-> ->]|(Hne & e0 & E0 & Et & Eh & _ & _)].
    + by rewrite decide_True.
    + rewrite Et in Hk. rewrite decide_False, Eh by (by eapply Hfresh). by eapply keys_spent.
  - intros id id' e e' k E E' Hk Hk'.
    destruct (added_lookup _ _ _ _ _ _ _ _ _ _ Ha E) as [[-> ->]|(Hne & e0 & E0 & Et & _)];
      destruct (added_lookup _ _ _ _ _ _ _ _ _ _ Ha E') as [[-> ->]|(Hne' & e0' & E0' & Et' & _)]; [done|..]; rewrite ?Et, ?Et' in *.
    + by destruct (Hfresh _ _ _ E0' Hk').
    + by destruct (Hfresh _ _ _ E0 Hk).
    + by eapply (keys_once _ Hi).
  - intros id e E. destruct (added_lookup _ _ _ _ _ _ _ _ _ _ Ha E) as [[-> ->]|(Hne & e0 & E0 & Et & _)]; [apply Ha|].
    rewrite Et. by eapply (keys_distinct _ Hi).
  - intros k hh. rewrite Hsp. case_decide as Hd.
    + intros [= <-]. exists tx_id, (new_entry tx tx_id h s). rewrite (added_transactions _ _ _ _ _ _ _ _ Ha), lookup_insert_eq. done.
    + intros E. destruct (spent_by _ Hi k hh E) as (id & e & Ee & Hk & Hh).
      destruct (added_keeps _ _ _ _ _ _ _ _ _ _ Ha Ee) as (e' & Ee' & Et & Eh & _). exists id, e'. by rewrite Et, Eh.
  - intros id e j o a ent E Ev Eo. rewrite (added_outputs _ _ _ _ _ _ _ _ Ha).
    destruct (added_lookup _ _ _ _ _ _ _ _ _ _ Ha E) as [[-> ->]|(Hne & e0 & E0 & Et & _ & Eg & _)].
    + destruct (out_index_entry tx_id 0 (vout tx) (fun k => List.length (outputs_of s k)) j o a ent Ev Eo) as (m & Em1 & Em2).
      exists (List.length (outputs_of s a) + m)%nat. split; [exact Em1|]. rewrite lookup_app_r by lia. by replace (_ + m - _)%nat with m by lia.
    + rewrite Et in Ev. destruct (outputs_indexed _ Hi id e0 j o a ent E0 Ev Eo) as (gi & Egi & El). exists gi. rewrite Eg. split; [done|].
      rewrite lookup_app_l; [done|by eapply lookup_lt_Some].
  - intros a gi ent. rewrite (added_outputs _ _ _ _ _ _ _ _ Ha). intros [El|[Hge El]]%lookup_app_Some.
    + destruct (outputs_owned _ Hi a gi ent El) as (e & j & o & E & Ev & Eo & Eg).
      destruct (added_keeps _ _ _ _ _ _ _ _ _ _ Ha E) as (e' & E' & Et & _ & Eg'). exists e', j, o. by rewrite Et, Eg'.
    + destruct (new_entry_owner tx_id 0 (vout tx) (fun k => List.length (outputs_of s k)) a _ ent El) as (j & o & Ev & Eo & Eg).
      exists (new_entry tx tx_id h s), j, o. rewrite (out_entry_tx _ _ _ _ _ Eo). rewrite (added_transactions _ _ _ _ _ _ _ _ Ha), lookup_insert_eq.
      split; [done|]. split; [done|]. split; [done|]. cbn. rewrite Eg. do 2 f_equal. lia.
  - intros id e E. destruct (added_lookup _ _ _ _ _ _ _ _ _ _ Ha E) as [[-> ->]|(Hne & e0 & E0 & Et & _ & _ & El)]; [apply length_replicate|].
    rewrite Et, El. by eapply (flags_per_output _ Hi).
Qed.

(** ** Runs of additions and removals *)

(** A transaction that is accepted, when what it refers to is not spent. *)
Record accepts (tx_expiration_median tx_fee_median : Z) (tx : transaction) (tx_id bl_id : hash) (bl_height timestamp : Z) s s' : Prop := {
  acc_tx : tx_wf tx;
  acc_room : room_for tx s;
  acc_fresh : fresh_tx tx_id (m_aliases s);
  acc_unspent : nothing_spent tx s;
  acc_gateways : gateway_room tx s';
  acc_run : add_transaction_from_block hard_forks alias_validation_pubkey tx_expiration_median tx_fee_median tx tx_id bl_id bl_height timestamp s = (Ok tt, s')
}.

(** The states of the blockchain, with those it went through and the
    transactions that led from each to the next. *)
Inductive reaches s0 : list (storage * hash) -> storage -> Prop :=
| reach_start : reaches s0 [] s0
| reach_add st s expm feem tx tx_id bl_id h ts s' : reaches s0 st s -> accepts expm feem tx tx_id bl_id h ts s s' -> reaches s0 ((s, tx_id) :: st) s'
| reach_purge st s tx_id t blocks_size r t' : reaches s0 ((s, tx_id) :: st) t ->
    purge_transaction_from_blockchain hard_forks blocks_size tx_id t = (r, t') -> reaches s0 st t'.

Lemma like_trans s t u : like s t -> like t u -> like s u.
Proof. intros [H1' _ _] [H2' Ho Hh]. constructor; [by rewrite H2'|done|done]. Qed.
Lemma like_refl s : chain_wf s -> like s s.
Proof. intros Hwf. by constructor; [|apply Hwf..]. Qed.

Lemma like_wf s t : chain_wf s -> like s t -> chain_wf t.
Proof.
  intros Hwf [[_ _ _ _ Eg _ Ea El _] Ho Hh]. constructor; [done|done| | |].
  - eapply gw_equiv_wf; [exact Eg|apply Hwf].
  - rewrite Ea. apply Hwf.
  - destruct (aliases_are_wf s Hwf) as [Hn1 Hn2 Hs], El as (E1 & E2 & _). constructor.
    + by rewrite E1.
    + by rewrite E2.
    + intros addr a. unfold aliases_of, owner_of, get_alias_info. rewrite E1, E2. apply Hs.
Qed.

(** The last transaction can be taken back. *)
Definition step_back s (tx_id : hash) t : Prop := exists expm tx bl_id h ts s1,
  added expm tx tx_id bl_id h ts s s1 /\ tx_wf tx /\ room_for tx s /\ nothing_spent tx s /\ gateway_room tx s1 /\ like s1 t.

Fixpoint stacked s0 (st : list (storage * hash)) t : Prop :=
  match st with
  | [] => like s0 t
  | (s, tx_id) :: st => stacked s0 st s /\ step_back s tx_id t
  end.

Lemma stacked_like s0 st s t : stacked s0 st s -> like s t -> stacked s0 st t.
Proof.
  intros Hs Hl. destruct st as [|[s1 id] st]; cbn in *; [by eapply like_trans|]. destruct Hs as [Hs (e & tx & b & h & ts & s2 & ? & ? & ? & ? & ? & Hl2)].
  split; [done|]. exists e, tx, b, h, ts, s2. repeat (split; [done|]). by eapply like_trans.
Qed.

Lemma stacked_wf s0 st t : chain_wf s0 -> stacked s0 st t -> chain_wf t.
Proof.
  intros Hwf Hs. destruct st as [|[s1 id] st]; cbn in Hs; [by eapply like_wf|].
  destruct Hs as [_ (e & tx & b & h & ts & s2 & Ha & _ & _ & _ & _ & Hl)]. eapply like_wf; [apply Ha|done].
Qed.

Lemma stacked_inv s0 st t : index_inv s0 -> stacked s0 st t -> index_inv t.
Proof.
  intros Hi. revert t. induction st as [|[s id] st IH]; intros t Hs; cbn in Hs.
  - eapply index_inv_equiv; [apply Hs|done].
  - destruct Hs as [Hs (e & tx & b & h & ts & s2 & Ha & _ & _ & _ & _ & Hl)].
    eapply index_inv_equiv; [apply Hl|]. eapply added_index_inv; [exact Ha|by apply IH].
Qed.

Lemma step_back_purge blocks_size s tx_id t : service_law -> step_back s tx_id t ->
  exists r t', purge_transaction_from_blockchain hard_forks blocks_size tx_id t = (Ok r, t') /\ like s t'.
Proof.
  intros Hlaw (e & tx & b & h & ts & s1 & Ha & Htx & Hroom & Hn & Hg & Hl).
  destruct (purge_added blocks_size e tx tx_id b h ts s s1 t Hlaw Htx Hroom Ha Hn Hg Hl) as (t' & E & Hl'). by eexists _, t'.
Qed.

Lemma reaches_stacked s0 st t : service_law -> chain_wf s0 -> reaches s0 st t -> stacked s0 st t.
Proof.
  intros Hlaw Hwf. induction 1 as [|st s expm feem tx tx_id bl_id h ts s' _ IH Hacc|st s tx_id t bs r t' _ IH E].
  - by apply like_refl.
  - cbn. split; [done|]. pose proof (stacked_wf _ _ _ Hwf IH) as Hwfs. destruct Hacc as [Htx Hroom Hf Hn Hg Hrun].
    apply add_transaction_ok in Hrun as Ha; [|done..]. exists expm, tx, bl_id, h, ts, s'. repeat (split; [done|]). apply like_refl, Ha.
  - cbn in IH. destruct IH as [IH Hb]. destruct (step_back_purge bs s tx_id t Hlaw Hb) as (r' & t2 & E2 & Hl). rewrite E in E2.
    injection E2 as -> ->. by eapply stacked_like.
Qed.

(** ** A block *)

(** The transactions of a block, one after the other. *)
Inductive accepts_all : list (transaction * hash) -> storage -> storage -> Prop :=
| accepts_none s : accepts_all [] s s
| accepts_next expm feem tx tx_id bl_id h ts l s s1 s' : accepts expm feem tx tx_id bl_id h ts s s1 -> accepts_all l s1 s' ->
    accepts_all ((tx, tx_id) :: l) s s'.

Definition fees_of (l : list (transaction * hash)) : Z := fold_right (fun p n => tx_fee p.1 + n) 0 l.

Lemma purge_loop_app blocks_size ids ids' res fee t :
  purge_loop hard_forks blocks_size (ids ++ ids') res fee t =
  (purge_loop hard_forks blocks_size ids res fee ≫= (fun '(res, fee) => purge_loop hard_forks blocks_size ids' res fee)) t.
Proof.
  revert res fee t. induction ids as [|id ids IH]; intros res fee t; [done|]. cbn [app purge_loop]. unfold mbind, st_bind.
  destruct (purge_one hard_forks blocks_size id res fee t) as [[[res1 fee1]| |] t1]; [|done..].
  specialize (IH res1 fee1 t1). unfold mbind, st_bind in IH. exact IH.
Qed.

Lemma purge_loop_restores blocks_size l s s' t fee : service_law -> chain_wf s -> accepts_all l s s' -> like s' t ->
  exists t' fee', purge_loop hard_forks blocks_size (rev (map snd l)) true (u64 fee) t = (Ok (true, fee'), t') /\ like s t' /\ fee' = u64 (fee + fees_of l).
Proof.
  intros Hlaw Hwf Hacc. revert t fee Hwf. induction Hacc as [s|expm feem tx tx_id bl_id h ts l s s1 s' Hacc Hall IH]; intros t fee Hwf Hl.
  - exists t, (u64 fee). split; [done|]. split; [done|]. cbn. by rewrite Z.add_0_r.
  - destruct Hacc as [Htx Hroom Hf Hn Hg Hrun]. apply add_transaction_ok in Hrun as Ha; [|done..].
    destruct (IH t fee (added_wf _ _ _ _ _ _ _ _ Ha) Hl) as (t1 & fee1 & E1 & Hl1 & ->).
    destruct (purge_added blocks_size _ _ _ _ _ _ _ _ t1 Hlaw Htx Hroom Ha Hn Hg Hl1) as (t2 & E2 & Hl2).
    exists t2. eexists. cbn [map rev snd]. rewrite purge_loop_app, (bind_eq _ _ _ _ _ E1). cbn [purge_loop]. unfold purge_one, mbind, st_bind. rewrite E2.
    split; [reflexivity|]. split; [done|]. cbn [fees_of fold_right fst]. fold (fees_of l). unfold wrap. rewrite Zplus_mod_idemp_l. f_equal. lia.
Qed.

Lemma accepts_all_wf l s s' : chain_wf s -> accepts_all l s s' -> chain_wf s'.
Proof.
  intros Hwf Hall. induction Hall as [|expm feem tx tx_id bl_id h ts l s s1 s' [Htx Hroom Hf _ _ Hrun] _ IH]; [done|].
  apply IH. apply add_transaction_ok in Hrun as Ha; [apply Ha|done..].
Qed.

(** The last block, miner transaction first, is taken back. *)
Lemma purge_block_restores blocks_size (miner : transaction * hash) l s s' t : service_law -> chain_wf s ->
  accepts_all (miner :: l) s s' -> like s' t ->
  exists t', purge_block_data_from_blockchain hard_forks blocks_size (map snd l) (snd miner) (List.length l) t = (Ok (u64 (fees_of l)), t') /\
    like s t'.
Proof.
  intros Hlaw Hwf Hacc Hl. inversion Hacc as [|expm feem tx tx_id bl_id h ts l' s1 s2 s3 [Htx Hroom Hf Hn Hg Hrun] Hall]; subst.
  apply add_transaction_ok in Hrun as Ha; [|done..].
  destruct (purge_loop_restores blocks_size l s2 s' t 0 Hlaw (added_wf _ _ _ _ _ _ _ _ Ha) Hall Hl) as (t1 & fee & E1 & Hl1 & ->).
  destruct (purge_added blocks_size _ _ _ _ _ _ _ _ t1 Hlaw Htx Hroom Ha Hn Hg Hl1) as (t2 & E2 & Hl2).
  exists t2. split; [|exact Hl2]. unfold purge_block_data_from_blockchain. rewrite length_map, Nat.leb_refl. erewrite bind_eq by reflexivity.
  rewrite firstn_all2 by (by rewrite length_map). rewrite (bind_eq _ _ _ _ _ E1). cbn [snd].
  unfold purge_one at 1. unfold mbind at 1, st_bind at 1. rewrite E2. reflexivity.
Qed.

End undo.
Arguments reaches {_ _ _ _ _ _ _} _ _ _ _ _.
Arguments accepts {_ _ _ _ _ _ _} _ _ _ _ _ _ _ _ _ _ _.
Arguments accepts_all {_ _ _ _ _ _ _} _ _ _ _ _.
Arguments added {_ _ _ _ _ _ _} _ _ _ _ _ _ _ _ _.

(** ** Properties *)

Section properties.
Context `{GatewayCrypto, AssetCrypto, i_bc_service}.
Context {TO TG : Type} {AO : ArrayStore Z global_output_entry TO} {AG : ArrayStore gateway_address_id_type hash TG}.
Context (hard_forks : hard_forks_descriptor) (alias_validation_pubkey : public_key).

(** C13: A transaction that is accepted is not expired, follows the rules of the
    active hard fork, is not in the chain yet, and spends distinct key images that
    no transaction of the chain spends; it leaves its key images spent at the
    height of the block, its outputs at the end of the indexes of their amounts and
    those global indexes in its entry with no output spent, marks the outputs
    its inputs name, registers its multisignature outputs, appends its identifier
    to the history of every gateway address involved once, and passes its
    attachments to the services; every container stays well-formed. *)
Theorem accepted_transaction_recorded tx_expiration_median tx_fee_median tx tx_id bl_id bl_height timestamp (s s' : chain TO TG service) :
  chain_wf s -> tx_wf tx -> room_for tx s -> fresh_tx tx_id (m_aliases s) ->
  add_transaction_from_block hard_forks alias_validation_pubkey tx_expiration_median tx_fee_median tx tx_id bl_id bl_height timestamp s = (Ok tt, s') ->
  added hard_forks tx_expiration_median tx tx_id bl_id bl_height timestamp s s'.
Proof. apply add_transaction_ok. Qed.

(** C4: A transaction that spends a key image twice, or one that the chain has
    spent, or that the chain has already, is never accepted. *)
Theorem double_spend_refused tx_expiration_median tx_fee_median tx tx_id bl_id bl_height timestamp (s : chain TO TG service) :
  chain_wf s -> tx_wf tx -> room_for tx s -> fresh_tx tx_id (m_aliases s) ->
  is_Some (m_db_transactions s !! tx_id) \/ ~ NoDup (keys_of tx) \/ Exists (fun k => is_Some (m_db_spent_keys s !! k)) (keys_of tx) ->
  fst (add_transaction_from_block hard_forks alias_validation_pubkey tx_expiration_median tx_fee_median tx tx_id bl_id bl_height timestamp s) <> Ok tt.
Proof.
  intros Hwf Htx Hroom Hf Hbad E. destruct (add_transaction_from_block _ _ _ _ _ _ _ _ _ s) as [r s'] eqn:Er. cbn in E. subst r.
  apply add_transaction_ok in Er as Ha; [|done..]. destruct Hbad as [[e He]|[Hnd|Hex]].
  - rewrite (added_new _ _ _ _ _ _ _ _ _ Ha) in He. done.
  - by apply Hnd, Ha.
  - apply Exists_exists in Hex as (k & Hk & [h Hh]). pose proof (added_keys_fresh _ _ _ _ _ _ _ _ _ Ha) as Hfr.
    rewrite list.Forall_forall in Hfr. rewrite (Hfr k Hk) in Hh. done.
Qed.

(** C5: However transactions are added and the last ones taken back, the indexes
    of the blockchain are exact: every key image of a transaction is recorded as
    spent at its height and belongs to no other transaction, nothing else is
    recorded as spent, and the outputs of each amount are those of the
    transactions, each at the global index its transaction records. *)
Theorem chain_indexes_exact (s0 : chain TO TG service) st t : service_law -> chain_wf s0 -> index_inv s0 ->
  reaches hard_forks alias_validation_pubkey s0 st t -> chain_wf t /\ index_inv t.
Proof.
  intros Hlaw Hwf Hi Hr. apply reaches_stacked in Hr; [|done..]. split; [by eapply stacked_wf|by eapply stacked_inv].
Qed.

(** In every such state the last transaction can be taken back, which
    restores what the chain was before it was added: transactions with their spent
    flags, key images, outputs, multisignature outputs, gateway addresses, assets,
    aliases and services. *)
Theorem last_transaction_undone (s0 : chain TO TG service) st s tx_id t blocks_size : service_law -> chain_wf s0 ->
  reaches hard_forks alias_validation_pubkey s0 ((s, tx_id) :: st) t ->
  exists r t', purge_transaction_from_blockchain hard_forks blocks_size tx_id t = (Ok r, t') /\ chain_equiv t' s.
Proof.
  intros Hlaw Hwf Hr. apply reaches_stacked in Hr; [|done..]. destruct Hr as [_ Hb].
  destruct (step_back_purge hard_forks blocks_size s tx_id t Hlaw Hb) as (r & t' & E & Hl). exists r, t'. split; [done|apply Hl].
Qed.


End properties.

(** ** Examples *)

(** A service that keeps its attachments. *)
Definition demo_service : i_bc_service := {|
  service := list tx_service_attachment;
  service_entry_push := fun a _ _ _ _ _ srv => a :: srv;
  service_entry_pop := fun _ _ _ _ _ srv => tail srv
|}.
#[local] Existing Instance demo_crypto.
#[local] Existing Instance demo_asset_crypto.
#[local] Existing Instance demo_service.

Lemma demo_service_law : service_law.
Proof. done. Qed.

Abbreviation demo_chain := (chain (array_db Z global_output_entry) (array_db gateway_address_id_type hash) service).

Definition genesis : demo_chain := {|
  m_db_transactions := ∅; m_db_spent_keys := ∅; m_db_outputs := arr_empty; m_db_multisig_outs := ∅; m_db_gateway_addresses := ∅;
  m_db_gateway_transactions := arr_empty; m_db_assets := ∅; m_aliases := no_aliases; m_services_mgr := ∅ |}.

Lemma genesis_wf : chain_wf genesis.
Proof. constructor; [apply arr_empty_ok|apply arr_empty_ok|apply map_Forall_empty|apply map_Forall_empty|apply no_aliases_wf]. Qed.

Lemma genesis_inv : index_inv genesis.
Proof.
  constructor; cbn; intros until 1; intros; done.
Qed.

Definition demo_bare (amount : Z) : tx_out_v :=
  out_bare {| ob_amount := amount; ob_target := target_to_key {| tok_key := key_of 8; tok_mix_attr := 0 |} |}.
Definition demo_bare_tx (ins : list txin_v) (outs : list tx_out_v) : transaction := {|
  tx_prefix := {| tp_version := 1; tp_hardfork_id := 0; tp_vin := ins; tp_extra := [P_public_key (key_of 9)]; tp_vout := outs |};
  tx_attachment := []; tx_signatures := []; tx_proofs := [] |}.

(** A miner transaction with two outputs of 10, and one that spends the second. *)
Definition demo_coinbase : transaction := demo_bare_tx [in_gen 5] [demo_bare 10; demo_bare 10].
Definition demo_spend (ki : Z) : transaction :=
  demo_bare_tx [in_to_key {| ttk_amount := 10; ttk_key_offsets := [ref_global_index 1]; ttk_k_image := key_of ki; ttk_etc_details := [] |}] [demo_bare 4; demo_bare 5].

Definition demo_add (tx : transaction) (tx_id : hash) : st demo_chain unit :=
  add_transaction_from_block (HardForks.hard_forks mainnet_config) (key_of 1) 0 0 tx tx_id (key_of 30) 5 1700000000.

Definition demo_s1 : demo_chain := snd (demo_add demo_coinbase (key_of 21) genesis).
Definition demo_s2 : demo_chain := snd (demo_add (demo_spend 3) (key_of 22) demo_s1).

Lemma demo_add_1 : demo_add demo_coinbase (key_of 21) genesis = (Ok tt, demo_s1).
Proof.
  assert (E : fst (demo_add demo_coinbase (key_of 21) genesis) = Ok tt) by (vm_compute; reflexivity).
  unfold demo_s1. revert E. destruct (demo_add demo_coinbase (key_of 21) genesis). cbn. by intros ->.
Qed.
Lemma demo_add_2 : demo_add (demo_spend 3) (key_of 22) demo_s1 = (Ok tt, demo_s2).
Proof.
  assert (E : fst (demo_add (demo_spend 3) (key_of 22) demo_s1) = Ok tt) by (vm_compute; reflexivity).
  unfold demo_s2. revert E. destruct (demo_add (demo_spend 3) (key_of 22) demo_s1). cbn. by intros ->.
Qed.

Lemma demo_tx_wf ins outs : Forall in_ok ins -> ins ≫= in_gw = [] -> outs ≫= out_gw = [] -> (List.length outs < 100)%nat -> tx_wf (demo_bare_tx ins outs).
Proof.
  intros Hi Ei Eo Hl. constructor; [done| |by split; intros ? [=]|cbn; lia]. unfold gw_ops. cbn. rewrite Ei, Eo. constructor.
Qed.
Lemma demo_coinbase_wf : tx_wf demo_coinbase.
Proof. apply demo_tx_wf; [by repeat constructor; intros ? ? [=]|done..|cbn; lia]. Qed.
Lemma demo_spend_wf ki : tx_wf (demo_spend ki).
Proof. apply demo_tx_wf; [constructor; [|constructor]; intros ? ? [= <- <-]; cbn; lia|done..|cbn; lia]. Qed.

Lemma new_entries_short (tx_id : hash) i outs k : (List.length (new_entries tx_id i outs k) <= List.length outs)%nat.
Proof.
  revert i. induction outs as [|o outs IH]; intros i; [done|]. cbn [new_entries List.length]. rewrite length_app.
  pose proof (entry_at_length tx_id i o k). specialize (IH (S i)). lia.
Qed.

Lemma genesis_room tx : Z.of_nat (List.length (vout tx)) < 2 ^ 64 -> room_for tx genesis.
Proof.
  intros Hl. constructor; intros k; unfold outputs_of, history_of_gw; cbn [m_db_outputs m_db_gateway_transactions genesis];
    rewrite (proj2 arr_empty_ok); cbn [List.length]; lia.
Qed.

Lemma demo_fresh (s : demo_chain) (tx_id : hash) : m_aliases s = no_aliases -> fresh_tx tx_id (m_aliases s).
Proof. intros ->. intros addr. unfold stack_of. cbn. rewrite lookup_empty. constructor. Qed.

Lemma demo_gateway_room (tx : transaction) (s : demo_chain) : m_db_gateway_addresses s = ∅ -> gateway_room tx s.
Proof. intros E gw a b. unfold ledger_of. rewrite E, lookup_empty. done. Qed.

Lemma demo_accepts_1 : accepts (HardForks.hard_forks mainnet_config) (key_of 1) 0 0 demo_coinbase (key_of 21) (key_of 30) 5 1700000000 genesis demo_s1.
Proof.
  constructor; [apply demo_coinbase_wf|apply genesis_room; cbn; lia|by apply demo_fresh|split; constructor| |exact demo_add_1].
  apply demo_gateway_room. vm_compute. reflexivity.
Qed.

Lemma demo_s1_room tx : Z.of_nat (List.length (vout tx)) < 2 ^ 32 -> room_for tx demo_s1.
Proof.
  intros Hl. destruct demo_accepts_1 as [Htx Hroom Hf _ _ Hrun]. apply add_transaction_ok in Hrun as Ha; [|apply genesis_wf|done..].
  constructor; intros k.
  - rewrite (added_outputs _ _ _ _ _ _ _ _ _ Ha), length_app. unfold outputs_of at 1. cbn [m_db_outputs genesis]. rewrite (proj2 arr_empty_ok).
    pose proof (new_entries_short (key_of 21) 0 (vout demo_coinbase) k) as Hs. cbn [List.length vout tx_prefix tp_vout demo_coinbase demo_bare_tx] in Hs |- *. lia.
  - rewrite (added_history _ _ _ _ _ _ _ _ _ Ha), length_app. unfold history_of_gw at 1. cbn [m_db_gateway_transactions genesis].
    rewrite (proj2 arr_empty_ok). case_decide; cbn [List.length]; lia.
Qed.

Lemma demo_accepts_2 : accepts (HardForks.hard_forks mainnet_config) (key_of 1) 0 0 (demo_spend 3) (key_of 22) (key_of 30) 5 1700000000 demo_s1 demo_s2.
Proof.
  constructor; [apply demo_spend_wf|apply demo_s1_room; cbn; lia|apply demo_fresh; vm_compute; reflexivity| | |exact demo_add_2].
  - split; [|constructor].
    assert (E : refs_of demo_s1 (vin (demo_spend 3)) = [(key_of 21, 1)]) by (vm_compute; reflexivity). rewrite E.
    constructor; [vm_compute; reflexivity|constructor].
  - apply demo_gateway_room. vm_compute. reflexivity.
Qed.

Lemma demo_s1_wf : chain_wf demo_s1.
Proof.
  destruct demo_accepts_1 as [Htx Hroom Hf _ _ Hrun]. apply add_transaction_ok in Hrun as Ha; [apply Ha|apply genesis_wf|done..].
Qed.

Lemma demo_reaches : reaches (HardForks.hard_forks mainnet_config) (key_of 1) genesis [(demo_s1, key_of 22); (genesis, key_of 21)] demo_s2.
Proof. eapply reach_add; [eapply reach_add; [apply reach_start|exact demo_accepts_1]|exact demo_accepts_2]. Qed.

Example accepted_transaction_recorded_witness :
  m_db_spent_keys demo_s2 !! key_of 3 = Some 5 /\ m_db_spent_keys demo_s1 !! key_of 3 = None /\ flag_of (m_db_transactions demo_s2) (key_of 21) 1 = Some true /\
  outputs_of demo_s2 10 = outputs_of demo_s1 10 /\ m_db_transactions demo_s1 !! key_of 22 = None.
Proof.
  pose proof (accepted_transaction_recorded (HardForks.hard_forks mainnet_config) (key_of 1) 0 0 (demo_spend 3) (key_of 22) (key_of 30) 5 1700000000
    demo_s1 demo_s2 demo_s1_wf (demo_spend_wf 3) (acc_room _ _ _ _ _ _ _ _ _ _ _ demo_accepts_2) (acc_fresh _ _ _ _ _ _ _ _ _ _ _ demo_accepts_2) demo_add_2) as Ha.
  split; [|split; [|split; [|split]]].
  - rewrite (added_keys _ _ _ _ _ _ _ _ _ Ha), lookup_insert_keys. by rewrite decide_True by (vm_compute; left).
  - pose proof (added_keys_fresh _ _ _ _ _ _ _ _ _ Ha) as Hf. by apply Forall_inv in Hf.
  - vm_compute. reflexivity.
  - rewrite (added_outputs _ _ _ _ _ _ _ _ _ Ha). cbn. by rewrite app_nil_r.
  - apply Ha.
Defined.

(** The key image of the second transaction is not spent a second time. *)
Example double_spend_refused_witness :
  is_Some (m_db_spent_keys demo_s1 !! key_of 3) \/ fst (demo_add (demo_spend 3) (key_of 21) demo_s1) <> Ok tt.
Proof.
  right. apply (double_spend_refused (HardForks.hard_forks mainnet_config) (key_of 1) 0 0 (demo_spend 3) (key_of 21) (key_of 30) 5 1700000000 demo_s1).
  - exact demo_s1_wf.
  - apply demo_spend_wf.
  - apply demo_s1_room. cbn. lia.
  - apply demo_fresh. vm_compute. reflexivity.
  - left. vm_compute. by eexists.
Defined.

Example chain_indexes_exact_witness : index_inv demo_s2 /\ m_db_spent_keys demo_s2 !! key_of 3 = Some 5.
Proof.
  split; [|vm_compute; reflexivity].
  exact (proj2 (chain_indexes_exact (HardForks.hard_forks mainnet_config) (key_of 1) genesis _ demo_s2 demo_service_law genesis_wf genesis_inv demo_reaches)).
Defined.

Example last_transaction_undone_witness : exists r t,
  purge_transaction_from_blockchain (HardForks.hard_forks mainnet_config) 6 (key_of 22) demo_s2 = (Ok r, t) /\ chain_equiv t demo_s1.
Proof.
  exact (last_transaction_undone (HardForks.hard_forks mainnet_config) (key_of 1) genesis _ demo_s1 (key_of 22) demo_s2 6 demo_service_law genesis_wf demo_reaches).
Defined.


(** The inputs are taken back before the outputs, and the result of that is not
    looked at: when a balance does not fit with both, taking a transaction back
    succeeds and the balance is lost. *)
Definition demo_gateway_tx : transaction := {|
  tx_prefix := {| tp_version := 4; tp_hardfork_id := 6;
    tp_vin := [in_zc {| tzc_key_offsets := []; tzc_k_image := demo_key 3; tzc_etc_details := [] |};
               in_gateway {| tgw_version := 0; tgw_gateway_addr := demo_key 1; tgw_asset_id := demo_key 9; tgw_amount := UINT64_MAX |}];
    tp_extra := [P_public_key (key_of 9); P_zarcanum_tx_data_v1 100];
    tp_vout := [out_gateway {| ogw_version := 0; ogw_gateway_addr := demo_key 1; ogw_asset_id := demo_key 9; ogw_amount := UINT64_MAX; ogw_payment_id := 0 |}] |};
  tx_attachment := []; tx_signatures := []; tx_proofs := [] |}.
Definition hf6_forks : hard_forks_descriptor := [0; 0; 0; 0; 0; 0; 0; 1000000].

Example purge_loses_gateway_balance :
  let s := set_gateway_addresses (demo_addresses UINT64_MAX) genesis in
  let balance := fun t : demo_chain => ledger_of (m_db_gateway_addresses t) (demo_key 1) (demo_key 9) in
  let added := add_transaction_from_block hf6_forks (key_of 1) 0 0 demo_gateway_tx (key_of 22) (key_of 30) 100 1700000000 s in
  let removed := purge_transaction_from_blockchain hf6_forks 101 (key_of 22) (snd added) in
  fst added = Ok tt /\ balance (snd added) = Some UINT64_MAX /\
  fst removed = Ok (100, demo_gateway_tx) /\ balance s = Some UINT64_MAX /\ balance (snd removed) = Some 0.
Proof. vm_compute. repeat split. Qed.
