(* ===== verification/Blocks.v ===== *)
(** * Block records and difficulties of the chain: [src/src/currency_core/blockchain_storage.cpp]

    The extended information kept with every block, the caches derived from
    it, the difficulty of the next block, the cumulative difficulties a new
    block is recorded with, in the main chain and in an alternative chain, and
    the checks of its timestamp. *)

From stdpp Require Import sorting.
From S2P Require Import Prelude Config Pod Basic Transactions BlockId HfTerms TxSemantic TxHardforks Difficulty HardForks StateM.

(** ** Constants *)

Definition TARGETDATA_CACHE_SIZE : Z := DIFFICULTY_WINDOW + 10.
Definition DIFFICULTY_POW_STARTER : Z := 1.
Definition DIFFICULTY_POS_STARTER : Z := 1.
Definition BLOCKCHAIN_HEIGHT_FOR_POS_STRICT_SEQUENCE_LIMITATION : Z := 57000.
Definition BLOCK_POS_STRICT_SEQUENCE_LIMIT : Z := 20.
Definition BLOCKCHAIN_TIMESTAMP_CHECK_WINDOW : Z := 60.
Definition CURRENCY_BLOCK_FUTURE_TIME_LIMIT : Z := 60 * 60 * 2.
Definition CURRENCY_POS_BLOCK_FUTURE_TIME_LIMIT : Z := 60 * 20.
Definition CURRENCY_REWARD_BLOCKS_WINDOW : Z := 400.
Definition CURRENCY_BLOCKS_PER_DAY : Z := 60 * 60 * 24 / DIFFICULTY_TOTAL_TARGET.
Definition ALIAS_COAST_PERIOD : Z := CURRENCY_BLOCKS_PER_DAY * 7.
Definition ALIAS_MEDIAN_RECALC_INTERWAL : Z := CURRENCY_BLOCKS_PER_DAY.

(** ** The median of a vector

    [nth_element] leaves the element of that rank in its place and the smaller
    ones before it. *)

#[export] Instance Zle_total : Total Z.le.
Proof. intros x y. lia. Qed.

Definition median (v : list Z) : Z :=
  match v with
  | [] => 0
  | [x] => x
  | _ =>
      let sorted := merge_sort Z.le v in
      let half := (List.length v / 2)%nat in
      let median := ld sorted half in
      if Nat.even (List.length v) then u64 (median + ld sorted (half - 1)) / 2 else median
  end.

(** ** The records *)

Definition is_pos_block (b : block) : bool :=
  if Z.land (bh_flags (bl_header b)) 1 =? 0 then false else is_pos_miner_tx (bl_miner_tx b).

(** [alt_chain_type] lists the records of an alternative chain, from the
    block on top of the main chain to the latest. *)
Record block_extended_info : Type := {
  bei_bl : block;
  bei_height : Z;
  bei_block_cumulative_size : Z;
  bei_cumulative_diff_adjusted : Z;
  bei_cumulative_diff_precise : Z;
  bei_cumulative_diff_precise_adjusted : Z;
  bei_difficulty : Z;
  bei_already_generated_coins : Z;
  bei_stake_hash : hash;
  bei_version : Z;
  bei_this_block_tx_fee_median : Z;
  bei_effective_tx_fee_median : Z;
}.

Definition bei_is_pos (b : block_extended_info) : bool := is_pos_block (bei_bl b).
Definition bei_timestamp (b : block_extended_info) : Z := bh_timestamp (bl_header (bei_bl b)).
Abbreviation alt_chain_type := (list block_extended_info).

(** [m_db_blocks[i]], which throws outside the chain. *)
Definition block_at (m_db_blocks : list block_extended_info) (i : nat) : outcome block_extended_info :=
  match m_db_blocks !! i with Some b => Ret b | None => Throw end.

(** The two parameters of the network the records depend on. *)
Record network_config : Type := { nc_hard_forks : hard_forks_descriptor; nc_pos_minimum_heigh : Z }.

(** ** Walking the chain

    The alternative chain from its latest block, then the main chain from the
    block under it, down to the block on top of the genesis, as long as the
    visitor asks for more. *)

Section enum.
Context {S : Type} (v : block_extended_info -> S -> bool * S).

Fixpoint enum_alt (l : list block_extended_info) (s : S) : bool * S :=
  match l with
  | [] => (true, s)
  | b :: l => let '(keep_going, s) := v b s in if keep_going then enum_alt l s else (false, s)
  end.

Fixpoint enum_main (m_db_blocks : list block_extended_info) (i : nat) (s : S) : outcome (bool * S) :=
  match i with
  | O => Ret (true, s)
  | Datatypes.S i' =>
      b ← block_at m_db_blocks i;
      let '(keep_going, s) := v b s in
      if keep_going then enum_main m_db_blocks i' s else Ret (false, s)
  end.

Definition enum_blockchain (m_db_blocks : list block_extended_info) (alt_chain : alt_chain_type) (split_height : Z)
    (s : S) : outcome (bool * S) :=
  let '(keep_going, s) := enum_alt (rev alt_chain) s in
  if negb keep_going || (List.length m_db_blocks =? 0)%nat then Ret (negb keep_going, s)
  else
    let main_chain_start_offset :=
      if negb (split_height =? 0) then split_height - 1
      else u64 (match alt_chain with b :: _ => bei_height b | [] => Z.of_nat (List.length m_db_blocks) end - 1) in
    r ← enum_main m_db_blocks (Z.to_nat main_chain_start_offset) s;
    let '(keep_going, s) := r in Ret (negb keep_going, s).
End enum.

(** ** Difficulty of the next block *)

(** From the latest block down to the block on top of the genesis. *)
Fixpoint load_loop (is_pos : bool) (m_db_blocks : list block_extended_info) (cur_ind : nat) (count : Z)
    (cache : list (Z * Z)) : outcome (list (Z * Z)) :=
  match cur_ind with
  | O => Ret cache
  | S cur_ind' =>
      if count <? DIFFICULTY_WINDOW + 5 then
        b ← block_at m_db_blocks cur_ind;
        if eqb is_pos (bei_is_pos b)
        then load_loop is_pos m_db_blocks cur_ind' (count + 1) ((bei_cumulative_diff_precise b, bei_timestamp b) :: cache)
        else load_loop is_pos m_db_blocks cur_ind' count cache
      else Ret cache
  end.

(** On an empty chain the first index wraps to [2^64 - 1], outside it. *)
Definition load_targetdata_cache (is_pos : bool) (m_db_blocks : list block_extended_info) : outcome (list (Z * Z)) :=
  match m_db_blocks with
  | [] => Throw
  | _ => load_loop is_pos m_db_blocks (List.length m_db_blocks - 1) 0 []
  end.

(** The latest [DIFFICULTY_WINDOW] entries of the cache, latest first. *)
Definition collect_timestamps_and_c_difficulties_main (targetdata_cache : list (Z * Z)) : list Z * list Z :=
  let recent := take (Z.to_nat DIFFICULTY_WINDOW) (rev targetdata_cache) in (map snd recent, map fst recent).

Definition calc_diff_at_h_from_timestamps (cfg : network_config) (timestamps commulative_difficulties : list Z)
    (h : Z) (pos : bool) : outcome Z :=
  let target := if pos then DIFFICULTY_POS_TARGET else DIFFICULTY_POW_TARGET in
  let starter := if pos then DIFFICULTY_POS_STARTER else DIFFICULTY_POW_STARTER in
  hf1 ← is_hardfork_active_for_height 1 h (nc_hard_forks cfg);
  r ← (if hf1 : bool then next_difficulty_2 else next_difficulty_1) timestamps commulative_difficulties target starter;
  let '(dif, _, _) := r in Ret dif.

Definition collect_visitor (pos : bool) (bei : block_extended_info) (s : list Z * list Z) : bool * (list Z * list Z) :=
  if bei_height bei =? 0 then (false, s)
  else if negb (eqb pos (bei_is_pos bei)) then (true, s)
  else
    let timestamps := fst s ++ [bei_timestamp bei] in
    let commulative_difficulties := snd s ++ [bei_cumulative_diff_precise bei] in
    (negb (DIFFICULTY_WINDOW <=? Z.of_nat (List.length timestamps)), (timestamps, commulative_difficulties)).

Definition collect_timestamps_and_c_difficulties_alt (pos : bool) (m_db_blocks : list block_extended_info)
    (alt_chain : alt_chain_type) (split_height : Z) : outcome (list Z * list Z) :=
  r ← enum_blockchain (collect_visitor pos) m_db_blocks alt_chain split_height ([], []); Ret (snd r).

Definition get_next_diff_conditional_alt (cfg : network_config) (pos : bool) (m_db_blocks : list block_extended_info)
    (alt_chain : alt_chain_type) (split_height abei_height : Z) : outcome Z :=
  match m_db_blocks with
  | [] => Ret DIFFICULTY_POW_STARTER
  | _ =>
      c ← collect_timestamps_and_c_difficulties_alt pos m_db_blocks alt_chain split_height;
      calc_diff_at_h_from_timestamps cfg (fst c) (snd c) abei_height pos
  end.

Definition last_of_type_visitor (looking_for_pos : bool) (bei : block_extended_info)
    (s : option block_extended_info) : bool * option block_extended_info :=
  if eqb looking_for_pos (bei_is_pos bei) then (false, Some bei) else (true, s).

Definition get_last_block_of_type (looking_for_pos : bool) (m_db_blocks : list block_extended_info)
    (alt_chain : alt_chain_type) (split_height : Z) : outcome (option block_extended_info) :=
  r ← enum_blockchain (last_of_type_visitor looking_for_pos) m_db_blocks alt_chain split_height None; Ret (snd r).

(** ** How long the run of blocks of a type is *)

Fixpoint sequence_main (pos : bool) (m_db_blocks : list block_extended_info) (i : nat) (n : Z) : outcome Z :=
  match i with
  | O => Ret n
  | S i' =>
      b ← block_at m_db_blocks i;
      if eqb pos (bei_is_pos b) then sequence_main pos m_db_blocks i' (n + 1) else Ret n
  end.

Definition get_current_sequence_factor (pos : bool) (m_db_blocks : list block_extended_info) : outcome Z :=
  match m_db_blocks with [] => Ret 0 | _ => sequence_main pos m_db_blocks (List.length m_db_blocks - 1) 0 end.

(** The count, and whether the whole alternative chain is of the type. *)
Fixpoint sequence_alt (pos : bool) (l : list block_extended_info) (n : Z) : bool * Z :=
  match l with
  | [] => (true, n)
  | b :: l => if eqb pos (bei_is_pos b) then sequence_alt pos l (n + 1) else (false, n)
  end.

Definition get_current_sequence_factor_for_alt (m_db_blocks : list block_extended_info) (alt_chain : alt_chain_type)
    (pos : bool) (connection_height : Z) : outcome Z :=
  let '(go, n) := sequence_alt pos (rev alt_chain) 0 in
  if go then sequence_main pos m_db_blocks (Z.to_nat (u64 (connection_height - 1))) n else Ret n.

(** [delta * (0.75^n)], rounded up at each step. *)
Definition correct_difficulty_with_sequence_factor (sequence_factor : nat) (diff : Z) : Z :=
  for_loop 0 sequence_factor (fun _ diff => diff - diff / 4) diff.

(** ** The latest difficulty of each type *)

(** One step of the loops: the latest non-zero difficulties met so far. *)
Definition last_diffs_step (b : block_extended_info) (last : Z * Z) : Z * Z :=
  let '(last_pow_diff, last_pos_diff) := last in
  if bei_is_pos b then (last_pow_diff, if last_pos_diff =? 0 then bei_difficulty b else last_pos_diff)
  else (if last_pow_diff =? 0 then bei_difficulty b else last_pow_diff, last_pos_diff).

Definition both_met (last : Z * Z) : bool := negb (fst last =? 0) && negb (snd last =? 0).

(** [for (; i < sz && !(...); i--)]: the loop visits the genesis and ends when
    the index wraps. [fuel] bounds the number of steps; running out of it is
    [Throw], which the size of the chain plus one excludes. *)
Fixpoint last_diffs_loop (fuel : nat) (m_db_blocks : list block_extended_info) (i : Z) (last : Z * Z)
    : outcome (Z * Z) :=
  match fuel with
  | O => Throw
  | S fuel =>
      if (i <? Z.of_nat (List.length m_db_blocks)) && negb (both_met last) then
        b ← block_at m_db_blocks (Z.to_nat i);
        last_diffs_loop fuel m_db_blocks (u64 (i - 1)) (last_diffs_step b last)
      else Ret last
  end.

Definition adjust_by_last (last : Z * Z) (next_diff : Z) : Z :=
  let '(last_pow_diff, last_pos_diff) := last in
  if last_pos_diff =? 0 then next_diff else u128 (next_diff * last_pow_diff) / last_pos_diff.

Definition get_adjusted_cumulative_difficulty_for_next_pos (m_db_blocks : list block_extended_info) (next_diff : Z)
    : outcome Z :=
  match m_db_blocks with
  | [] => Ret next_diff
  | _ =>
      let sz := List.length m_db_blocks in
      last ← last_diffs_loop (S sz) m_db_blocks (Z.of_nat sz - 1) (0, 0);
      Ret (adjust_by_last last next_diff)
  end.

(** The alternative chain first, then the main chain without the genesis. *)
Fixpoint last_diffs_alt (l : list block_extended_info) (last : Z * Z) : Z * Z :=
  match l with
  | [] => last
  | b :: l => if both_met last then last else last_diffs_alt l (last_diffs_step b last)
  end.

Fixpoint last_diffs_main (m_db_blocks : list block_extended_info) (h : nat) (last : Z * Z) : outcome (Z * Z) :=
  match h with
  | O => Ret last
  | S h' =>
      if both_met last then Ret last
      else b ← block_at m_db_blocks h; last_diffs_main m_db_blocks h' (last_diffs_step b last)
  end.

Definition get_adjusted_cumulative_difficulty_for_next_alt_pos (m_db_blocks : list block_extended_info)
    (alt_chain : alt_chain_type) (next_diff connection_height : Z) : outcome Z :=
  let last := last_diffs_alt (rev alt_chain) (0, 0) in
  last ← last_diffs_main m_db_blocks (Z.to_nat (u64 (connection_height - 1))) last;
  Ret (adjust_by_last last next_diff).

(** ** The latest block of a type *)

Fixpoint last_x_loop (fuel : nat) (pos : bool) (m_db_blocks : list block_extended_info) (i : Z) : outcome Z :=
  match fuel with
  | O => Throw
  | S fuel =>
      if i <? Z.of_nat (List.length m_db_blocks) then
        b ← block_at m_db_blocks (Z.to_nat i);
        if eqb (bei_is_pos b) pos then Ret i else last_x_loop fuel pos m_db_blocks (u64 (i - 1))
      else Ret 0
  end.

Definition get_last_x_block_height (pos : bool) (m_db_blocks : list block_extended_info) : outcome Z :=
  match m_db_blocks with
  | [] => Ret 0
  | _ =>
      let sz := List.length m_db_blocks in
      last_x_loop (S sz) pos m_db_blocks (Z.of_nat sz - 1)
  end.

(** The record found in the alternative chain, or the height to go on from. *)
Fixpoint last_alt_x (l : list block_extended_info) (pos : bool) (main_chain_start_block_height : Z)
    : block_extended_info + Z :=
  match l with
  | [] => inr main_chain_start_block_height
  | b :: l => if eqb (bei_is_pos b) pos then inl b else last_alt_x l pos (u64 (bei_height b - 1))
  end.

Fixpoint last_main_x (m_db_blocks : list block_extended_info) (i : nat) (pos : bool) : outcome (Z * Z) :=
  match i with
  | O => Ret (0, 0)
  | S i' =>
      b ← block_at m_db_blocks i;
      if eqb (bei_is_pos b) pos
      then Ret (bei_cumulative_diff_precise b, bei_cumulative_diff_precise_adjusted b)
      else last_main_x m_db_blocks i' pos
  end.

(** The result and the out parameter [cumulative_diff_precise_adj], which the
    failed check leaves as the caller set it, zero. *)
Definition get_last_alt_x_block_cumulative_precise_difficulty (m_db_blocks : list block_extended_info)
    (alt_chain : alt_chain_type) (main_chain_start_block_height : Z) (pos : bool) : outcome (Z * Z) :=
  match last_alt_x (rev alt_chain) pos main_chain_start_block_height with
  | inl b => Ret (bei_cumulative_diff_precise b, bei_cumulative_diff_precise_adjusted b)
  | inr h =>
      if h <? Z.of_nat (List.length m_db_blocks) then last_main_x m_db_blocks (Z.to_nat h) pos else Ret (0, 0)
  end.

Definition get_last_alt_x_block_cumulative_precise_adj_difficulty (m_db_blocks : list block_extended_info)
    (alt_chain : alt_chain_type) (block_height : Z) (pos : bool) : outcome Z :=
  r ← get_last_alt_x_block_cumulative_precise_difficulty m_db_blocks alt_chain block_height pos; Ret (snd r).

(** ** The difficulties a block is recorded with

    [cumulative_diff_adjusted], [cumulative_diff_precise] and
    [cumulative_diff_precise_adjusted]; [None] is a block rejected for the
    length of its run of proof-of-stake blocks. *)

Definition main_difficulties (cfg : network_config) (m_db_blocks : list block_extended_info) (is_pos_bl : bool)
    (current_diffic : Z) : outcome (option (Z * Z * Z)) :=
  let height := Z.of_nat (List.length m_db_blocks) in
  last_x_h ← get_last_x_block_height is_pos_bl m_db_blocks;
  cumulative_diff_precise ←
    (if last_x_h =? 0 then Ret current_diffic
     else b ← block_at m_db_blocks (Z.to_nat last_x_h); Ret (u128 (bei_cumulative_diff_precise b + current_diffic)));
  let cumulative_diff_adjusted :=
    match last m_db_blocks with Some b => bei_cumulative_diff_adjusted b | None => 0 end in
  cumulative_diff_delta ←
    (if is_pos_bl then get_adjusted_cumulative_difficulty_for_next_pos m_db_blocks current_diffic
     else Ret current_diffic);
  sequence_factor ← get_current_sequence_factor is_pos_bl m_db_blocks;
  let cumulative_diff_delta :=
    if nc_pos_minimum_heigh cfg <=? height
    then correct_difficulty_with_sequence_factor (Z.to_nat sequence_factor) cumulative_diff_delta
    else cumulative_diff_delta in
  if (BLOCKCHAIN_HEIGHT_FOR_POS_STRICT_SEQUENCE_LIMITATION <? height) && is_pos_bl
     && (BLOCK_POS_STRICT_SEQUENCE_LIMIT <? sequence_factor) then Ret None
  else
    let diff_precise_adj := correct_difficulty_with_sequence_factor (Z.to_nat sequence_factor) current_diffic in
    cumulative_diff_precise_adjusted ←
      (if last_x_h =? 0 then Ret diff_precise_adj
       else b ← block_at m_db_blocks (Z.to_nat last_x_h);
            Ret (u128 (bei_cumulative_diff_precise_adjusted b + diff_precise_adj)));
    Ret (Some (u128 (cumulative_diff_adjusted + cumulative_diff_delta), cumulative_diff_precise,
               cumulative_diff_precise_adjusted)).

(** [height] is the height of the block, [connection_height] that of the
    first block of the alternative chain it belongs to. *)
Definition alt_difficulties (cfg : network_config) (m_db_blocks : list block_extended_info)
    (alt_chain : alt_chain_type) (height connection_height : Z) (pos_block : bool) (current_diff : Z)
    : outcome (option (Z * Z * Z)) :=
  prev ← (match last alt_chain with
          | Some b => Ret b
          | None => block_at m_db_blocks (Z.to_nat (height - 1))
          end);
  cumulative_diff_delta ←
    (if pos_block
     then get_adjusted_cumulative_difficulty_for_next_alt_pos m_db_blocks alt_chain current_diff connection_height
     else Ret current_diff);
  sequence_factor ← get_current_sequence_factor_for_alt m_db_blocks alt_chain pos_block connection_height;
  let cumulative_diff_delta :=
    if nc_pos_minimum_heigh cfg <=? height
    then correct_difficulty_with_sequence_factor (Z.to_nat sequence_factor) cumulative_diff_delta
    else cumulative_diff_delta in
  if (BLOCKCHAIN_HEIGHT_FOR_POS_STRICT_SEQUENCE_LIMITATION <? height) && pos_block
     && (BLOCK_POS_STRICT_SEQUENCE_LIMIT <? sequence_factor) then Ret None
  else
    r ← get_last_alt_x_block_cumulative_precise_difficulty m_db_blocks alt_chain (u64 (height - 1)) pos_block;
    let '(precise, last_x_cumul_dif_precise_adj) := r in
    let diff_precise_adj := correct_difficulty_with_sequence_factor (Z.to_nat sequence_factor) current_diff in
    Ret (Some (u128 (bei_cumulative_diff_adjusted prev + cumulative_diff_delta), u128 (precise + current_diff),
               u128 (last_x_cumul_dif_precise_adj + diff_precise_adj))).

(** ** The chain seen from its latest block *)

(** The blocks [n], ..., 1. *)
Definition backwards (bs : list block_extended_info) (n : nat) : list block_extended_info := rev (take n (drop 1 bs)).

(** All the blocks but the genesis, latest first. *)
Definition view (bs : list block_extended_info) : list block_extended_info := backwards bs (List.length bs - 1).

Lemma backwards_S bs n : (S n < List.length bs)%nat ->
  exists b, block_at bs (S n) = Ret b /\ backwards bs (S n) = b :: backwards bs n.
Proof.
  intros Hn. destruct (lookup_lt_is_Some_2 bs (S n) Hn) as [b Hb]. exists b. unfold block_at. rewrite Hb.
  split; [done|]. unfold backwards. rewrite (take_S_r _ _ b) by by rewrite lookup_drop.
  by rewrite rev_app_distr.
Qed.

Lemma backwards_prefix P rest n : (n < List.length P)%nat -> backwards (P ++ rest) n = backwards P n.
Proof.
  intros Hn. destruct P as [|g P]; [cbn in Hn; lia|]. unfold backwards. cbn [app drop]. rewrite !drop_0. f_equal.
  apply take_app_le. cbn in Hn. lia.
Qed.

Lemma view_cons g l : view (g :: l) = rev l.
Proof.
  unfold view, backwards. cbn [drop]. rewrite drop_0. f_equal. apply take_ge. cbn. lia.
Qed.

Lemma view_app P alt : P <> [] -> view (P ++ alt) = rev alt ++ view P.
Proof. destruct P as [|g P]; [done|]. intros _. cbn [app]. by rewrite !view_cons, rev_app_distr. Qed.

(** What an alternative chain on top of [P] is built on, whatever the main
    chain goes on with. *)
Lemma backwards_split P rest : P <> [] -> backwards (P ++ rest) (List.length P - 1) = view P.
Proof. destruct P as [|g P]; [done|]. intros _. apply backwards_prefix. cbn. lia. Qed.

(** The height of a record is its index. *)
Definition heights_ok (bs : list block_extended_info) : Prop :=
  forall i b, bs !! i = Some b -> bei_height b = Z.of_nat i.

Lemma heights_ok_prefix P rest : heights_ok (P ++ rest) -> heights_ok P.
Proof. intros H i b Hi. apply H. by apply lookup_app_l_Some. Qed.

Definition same_type (pos : bool) (b : block_extended_info) : bool := eqb pos (bei_is_pos b).

(** ** The loops as functions of the view *)

Section loops.
Variables (bs : list block_extended_info).

(** [loop_ind]: induction on the index, reading the block at each step. *)
Ltac loop_ind :=
  match goal with |- forall n : nat, _ =>
    let n := fresh "n" in let IH := fresh "IH" in intros n; induction n as [|n IH]; intros; [done|];
    let b := fresh "b" in let Hb := fresh "Hb" in
    destruct (backwards_S bs n) as (b & Hb & ->); [lia|]; cbn -[eqb]; rewrite Hb; outcome_simp
  end.

Lemma enum_main_view {S} (v : block_extended_info -> S -> bool * S) n s : (n < List.length bs)%nat ->
  enum_main v bs n s = Ret (enum_alt v (backwards bs n) s).
Proof.
  revert n s. loop_ind. destruct (v b s) as [[|] s1]; [apply IH; lia|done].
Qed.

Lemma sequence_main_view pos n k : (n < List.length bs)%nat ->
  sequence_main pos bs n k = Ret (snd (sequence_alt pos (backwards bs n) k)).
Proof. revert n k. loop_ind. case_match; [apply IH; lia|done]. Qed.

Lemma last_diffs_main_view n last : (n < List.length bs)%nat ->
  last_diffs_main bs n last = Ret (last_diffs_alt (backwards bs n) last).
Proof. revert n last. loop_ind. case_match; [done|]. outcome_simp. apply IH. lia. Qed.

Lemma last_main_x_view pos n : (n < List.length bs)%nat ->
  last_main_x bs n pos = Ret (match List.find (fun b => eqb (bei_is_pos b) pos) (backwards bs n) with
                              | Some b => (bei_cumulative_diff_precise b, bei_cumulative_diff_precise_adjusted b)
                              | None => (0, 0)
                              end).
Proof.
  revert n. loop_ind. destruct (eqb (bei_is_pos b) pos); [done|]. apply IH. lia.
Qed.

Lemma load_loop_view pos n count cache : (n < List.length bs)%nat -> 0 <= count <= DIFFICULTY_WINDOW + 5 ->
  load_loop pos bs n count cache =
    Ret (rev (map (fun b => (bei_cumulative_diff_precise b, bei_timestamp b))
                  (take (Z.to_nat (DIFFICULTY_WINDOW + 5 - count)) (List.filter (same_type pos) (backwards bs n)))) ++ cache).
Proof.
  revert count cache. induction n as [|m IH]; intros count cache Hm Hc.
  { change (backwards bs 0) with (@nil block_extended_info). cbn. by rewrite take_nil. }
  cbn [load_loop]. destruct (backwards_S bs m) as (b & Hb & ->); [lia|]. rewrite Hb.
  destruct (count <? DIFFICULTY_WINDOW + 5) eqn:E; zbool.
  - outcome_simp. cbn [List.filter]. unfold same_type at 1. destruct (eqb pos (bei_is_pos b)).
    + rewrite IH by lia. f_equal.
      replace (Z.to_nat (DIFFICULTY_WINDOW + 5 - count)) with (S (Z.to_nat (DIFFICULTY_WINDOW + 5 - (count + 1)))) by lia.
      cbn [take map rev]. by rewrite <- app_assoc.
    + apply IH; lia.
  - replace (Z.to_nat _) with 0%nat by lia. done.
Qed.

(** The loops whose index wraps: [n + 2] steps from the index [n]. *)
Lemma last_diffs_loop_view fuel n last : Z.of_nat (List.length bs) < 2 ^ 64 ->
  (n < List.length bs)%nat -> (n + 2 <= fuel)%nat ->
  last_diffs_loop fuel bs (Z.of_nat n) last = Ret (last_diffs_alt (backwards bs n ++ take 1 bs) last).
Proof.
  intros Hw. revert n last. induction fuel as [|fuel IH]; intros n last Hn Hf; [lia|].
  cbn [last_diffs_loop]. replace (Z.of_nat n <? Z.of_nat (List.length bs)) with true by lia. cbn [andb].
  rewrite Nat2Z.id. destruct n as [|n].
  - destruct bs as [|g l]; [cbn in Hn; lia|]. unfold block_at. cbn [lookup list_lookup take]. outcome_simp.
    destruct fuel as [|fuel]; [lia|]. cbn [last_diffs_loop]. change (backwards (g :: l) 0) with (@nil block_extended_info).
    cbn [app last_diffs_alt]. destruct (both_met last); [done|]. cbn [negb].
    replace (u64 (Z.of_nat 0 - 1)) with (2 ^ 64 - 1) by done.
    by replace (2 ^ 64 - 1 <? Z.of_nat (List.length (g :: l))) with false by lia.
  - destruct (backwards_S bs n) as (b & -> & ->); [lia|]. outcome_simp. cbn [app last_diffs_alt].
    destruct (both_met last); [done|]. cbn [negb].
    rewrite wrap_small by (split; lia). replace (Z.of_nat (S n) - 1) with (Z.of_nat n) by lia. apply IH; lia.
Qed.

Lemma last_x_loop_view fuel n pos : Z.of_nat (List.length bs) < 2 ^ 64 ->
  (n < List.length bs)%nat -> (n + 2 <= fuel)%nat ->
  exists h, last_x_loop fuel pos bs (Z.of_nat n) = Ret h /\
    match List.find (fun b => eqb (bei_is_pos b) pos) (backwards bs n) with
    | Some b => 0 < h /\ bs !! Z.to_nat h = Some b
    | None => h = 0
    end.
Proof.
  intros Hw. revert n. induction fuel as [|fuel IH]; intros n Hn Hf; [lia|].
  cbn [last_x_loop]. replace (Z.of_nat n <? Z.of_nat (List.length bs)) with true by lia.
  rewrite Nat2Z.id. destruct n as [|n].
  - exists 0. split; [|done]. destruct bs as [|g l]; [cbn in Hn; lia|]. unfold block_at. cbn [lookup list_lookup].
    outcome_simp. destruct (eqb (bei_is_pos g) pos); [done|]. destruct fuel as [|fuel]; [lia|]. cbn [last_x_loop].
    replace (u64 (Z.of_nat 0 - 1)) with (2 ^ 64 - 1) by done.
    by replace (2 ^ 64 - 1 <? Z.of_nat (List.length (g :: l))) with false by lia.
  - destruct (backwards_S bs n) as (b & Hb & ->); [lia|]. rewrite Hb. outcome_simp. cbn [List.find].
    destruct (eqb (bei_is_pos b) pos).
    + exists (Z.of_nat (S n)). split; [done|]. split; [lia|]. rewrite Nat2Z.id. unfold block_at in Hb.
      destruct (bs !! S n); by simplify_eq.
    + rewrite wrap_small by (split; lia). replace (Z.of_nat (S n) - 1) with (Z.of_nat n) by lia. apply IH; lia.
Qed.
End loops.

(** ** Difficulty as a function of the view *)

Lemma enum_alt_app {S} (v : block_extended_info -> S -> bool * S) l1 l2 s :
  enum_alt v (l1 ++ l2) s = let r := enum_alt v l1 s in if fst r then enum_alt v l2 (snd r) else r.
Proof.
  revert s. induction l1 as [|b l1 IH]; intros s; [done|]. cbn. destruct (v b s) as [[|] s1]; [apply IH|done].
Qed.

Lemma enum_blockchain_view {S} (v : block_extended_info -> S -> bool * S) P rest alt s : P <> [] ->
  enum_blockchain v (P ++ rest) alt (Z.of_nat (List.length P)) s =
    let r := enum_alt v (rev alt ++ view P) s in Ret (negb (fst r), snd r).
Proof.
  intros HP. unfold enum_blockchain. rewrite enum_alt_app. cbv zeta.
  destruct (enum_alt v (rev alt) s) as [k s1]. cbn [fst snd]. destruct k; [|done]. cbn [negb orb].
  assert (HlP : (0 < List.length P)%nat) by (destruct P; [done|cbn; lia]).
  replace (List.length (P ++ rest) =? 0)%nat with false by (rewrite length_app; symmetry; apply Nat.eqb_neq; lia).
  replace (Z.of_nat (List.length P) =? 0) with false by lia. cbn [negb].
  replace (Z.to_nat (Z.of_nat (List.length P) - 1)) with (List.length P - 1)%nat by lia.
  rewrite enum_main_view by (rewrite length_app; lia). outcome_simp.
  rewrite backwards_split by done. by destruct (enum_alt v (view P) s1).
Qed.

Definition recent_of_type (pos : bool) (V : list block_extended_info) : list block_extended_info :=
  take (Z.to_nat DIFFICULTY_WINDOW) (List.filter (same_type pos) V).

Lemma enum_collect pos l ts cds :
  Forall (fun b => bei_height b <> 0) l -> List.length ts = List.length cds -> Z.of_nat (List.length ts) < DIFFICULTY_WINDOW ->
  let new := take (Z.to_nat DIFFICULTY_WINDOW - List.length ts) (List.filter (same_type pos) l) in
  snd (enum_alt (collect_visitor pos) l (ts, cds)) = (ts ++ map bei_timestamp new, cds ++ map bei_cumulative_diff_precise new).
Proof.
  intros Hl. revert ts cds. induction Hl as [|b l Hb Hl IH]; intros ts cds Hlen Hw; cbv zeta.
  { cbn. by rewrite take_nil, !app_nil_r. }
  cbn [enum_alt List.filter]. unfold collect_visitor at 1. apply Z.eqb_neq in Hb. rewrite Hb.
  change (same_type pos b) with (eqb pos (bei_is_pos b)). destruct (eqb pos (bei_is_pos b)); cbn [negb]; [|by apply IH].
  cbn [fst snd]. unfold DIFFICULTY_WINDOW in *. change (Z.to_nat 720) with 720%nat in *.
  destruct (720 <=? Z.of_nat (List.length (ts ++ [bei_timestamp b]))) eqn:E; zbool;
    rewrite length_app in E; cbn [List.length] in E; cbn [negb snd].
  - by replace (720 - List.length ts)%nat with 1%nat by lia.
  - rewrite IH by (rewrite ?length_app; cbn [List.length]; lia). rewrite length_app. cbn [List.length].
    replace (720 - List.length ts)%nat with (S (720 - (List.length ts + 1))) by lia. cbn [take map].
    by rewrite <- !app_assoc.
Qed.

(** The difficulty at the height [h] over the blocks [V], latest first. *)
Definition difficulty_over (cfg : network_config) (pos : bool) (V : list block_extended_info) (h : Z) : outcome Z :=
  calc_diff_at_h_from_timestamps cfg (map bei_timestamp (recent_of_type pos V))
    (map bei_cumulative_diff_precise (recent_of_type pos V)) h pos.

Lemma heights_nonzero bs n : heights_ok bs -> Forall (fun b => bei_height b <> 0) (backwards bs n).
Proof.
  intros H. unfold backwards. apply Forall_rev, Forall_take, Forall_lookup. intros i b Hi.
  rewrite lookup_drop in Hi. rewrite (H _ _ Hi). lia.
Qed.

Lemma get_next_diff_alt_view cfg pos P rest alt h : P <> [] -> heights_ok (P ++ alt) ->
  get_next_diff_conditional_alt cfg pos (P ++ rest) alt (Z.of_nat (List.length P)) h =
    difficulty_over cfg pos (view (P ++ alt)) h.
Proof.
  intros HP Hh. unfold get_next_diff_conditional_alt, collect_timestamps_and_c_difficulties_alt.
  rewrite enum_blockchain_view by done. cbv zeta. outcome_simp. cbn [snd].
  rewrite view_app by done. rewrite enum_collect; [|rewrite <- view_app by done; by apply heights_nonzero|done|done].
  cbn [fst snd app List.length]. rewrite Nat.sub_0_r. unfold difficulty_over, recent_of_type.
  by destruct P.
Qed.

Lemma collect_main_view pos bs : bs <> [] ->
  exists cache, load_targetdata_cache pos bs = Ret cache /\
    collect_timestamps_and_c_difficulties_main cache =
      (map bei_timestamp (recent_of_type pos (view bs)), map bei_cumulative_diff_precise (recent_of_type pos (view bs))).
Proof.
  intros Hbs. unfold load_targetdata_cache.
  assert (Hl : (0 < List.length bs)%nat) by (destruct bs; [done|cbn; lia]).
  eexists. split.
  { destruct bs; [done|]. apply load_loop_view; [cbn; lia|]. unfold DIFFICULTY_WINDOW; lia. }
  fold (view bs). unfold collect_timestamps_and_c_difficulties_main. rewrite app_nil_r, rev_involutive.
  change (List.rev ?x) with (rev x). unfold recent_of_type.
  rewrite <- !firstn_map, !take_take, !firstn_map, !map_map. by change (_ `min` _)%nat with 720%nat.
Qed.

(** ** The recorded difficulties as a function of the view *)

Lemma sequence_alt_app pos l1 l2 n :
  sequence_alt pos (l1 ++ l2) n =
    let r := sequence_alt pos l1 n in if fst r then sequence_alt pos l2 (snd r) else r.
Proof. revert n. induction l1 as [|b l1 IH]; intros n; [done|]. cbn -[eqb]. case_match; [apply IH|done]. Qed.

Lemma sequence_alt_nonneg pos l n : 0 <= n -> n <= snd (sequence_alt pos l n).
Proof.
  revert n. induction l as [|b l IH]; intros n Hn; cbn -[eqb]; [lia|]. case_match; cbn; [|lia].
  specialize (IH (n + 1)). lia.
Qed.

Lemma last_diffs_met l last : both_met last = true -> last_diffs_alt l last = last.
Proof. destruct l; [done|]. cbn. by intros ->. Qed.

Lemma last_diffs_alt_app l1 l2 last :
  last_diffs_alt (l1 ++ l2) last = last_diffs_alt l2 (last_diffs_alt l1 last).
Proof.
  revert last. induction l1 as [|b l1 IH]; intros last; [done|]. cbn. case_match; [|apply IH].
  by rewrite last_diffs_met.
Qed.

(** A proof-of-work block of non-zero difficulty is met. *)
Lemma last_diffs_pow l last : Exists (fun b => bei_is_pos b = false /\ bei_difficulty b <> 0) l \/ fst last <> 0 ->
  fst (last_diffs_alt l last) <> 0.
Proof.
  revert last. induction l as [|b l IH]; intros last H; cbn.
  { destruct H as [H|H]; [by apply Exists_nil in H|done]. }
  destruct (both_met last) eqn:E; [unfold both_met in E; zbool; done|]. apply IH.
  rewrite Exists_cons in H. destruct last as [p s]. unfold last_diffs_step. cbn [fst] in *.
  destruct H as [[[Hb Hd]|H]|H].
  - rewrite Hb. right. cbn [fst]. case_match; zbool; done.
  - by left.
  - right. destruct (bei_is_pos b); cbn [fst]; [done|]. case_match; zbool; done.
Qed.

(** The genesis does not matter once a proof-of-work block was met. *)
Lemma adjust_without_genesis g V next_diff : bei_is_pos g = false ->
  Exists (fun b => bei_is_pos b = false /\ bei_difficulty b <> 0) V ->
  adjust_by_last (last_diffs_alt (V ++ [g]) (0, 0)) next_diff = adjust_by_last (last_diffs_alt V (0, 0)) next_diff.
Proof.
  intros Hg HV. rewrite last_diffs_alt_app. pose proof (last_diffs_pow V (0, 0) (or_introl HV)) as Hp.
  destruct (last_diffs_alt V (0, 0)) as [p s]. cbn [fst] in Hp. cbn [last_diffs_alt].
  destruct (both_met (p, s)); [done|]. unfold last_diffs_step. rewrite Hg. by apply Z.eqb_neq in Hp as ->.
Qed.

Lemma last_alt_x_spec l pos h :
  last_alt_x l pos h =
    match List.find (fun b => eqb (bei_is_pos b) pos) l with
    | Some b => inl b
    | None => inr (match last l with Some b => u64 (bei_height b - 1) | None => h end)
    end.
Proof.
  revert h. induction l as [|b l IH]; intros h; [done|]. cbn [last_alt_x List.find].
  destruct (eqb (bei_is_pos b) pos); [done|]. rewrite IH.
  destruct (List.find _ l); [done|]. rewrite last_cons. by destruct (last l).
Qed.

Lemma find_app_ {A} (f : A -> bool) l1 l2 :
  List.find f (l1 ++ l2) = match List.find f l1 with Some x => Some x | None => List.find f l2 end.
Proof. induction l1 as [|a l1 IH]; [done|]. cbn. by destruct (f a). Qed.

(** The latest block of the type, genesis excluded, and what it carries. *)
Definition latest_of_type (pos : bool) (V : list block_extended_info) : option block_extended_info :=
  List.find (fun b => eqb (bei_is_pos b) pos) V.

Definition precise_of (o : option block_extended_info) : Z * Z :=
  match o with
  | Some b => (bei_cumulative_diff_precise b, bei_cumulative_diff_precise_adjusted b)
  | None => (0, 0)
  end.

Lemma nonempty_length {A} (l : list A) : l <> [] -> (0 < List.length l)%nat.
Proof. destruct l; [done|cbn; lia]. Qed.

Section merged.
Variables (P rest alt : list block_extended_info).
Hypothesis HP : P <> [].
Hypothesis Hheights : heights_ok (P ++ alt).
Hypothesis Hsize : Z.of_nat (List.length P) + Z.of_nat (List.length alt) < 2 ^ 64.

Lemma first_alt_height b : last (rev alt) = Some b -> bei_height b = Z.of_nat (List.length P).
Proof.
  intros E. destruct alt as [|a alt']; [done|]. cbn [rev] in E. rewrite last_snoc in E. injection E as <-.
  apply Hheights. by rewrite lookup_app_r, Nat.sub_diag by lia.
Qed.

(** The record an alternative block builds on, starting at the height of the
    chain it belongs to. *)
Lemma get_last_alt_x_view pos h : alt = [] -> h = Z.of_nat (List.length P) - 1 ->
  get_last_alt_x_block_cumulative_precise_difficulty (P ++ rest) alt h pos =
    Ret (precise_of (latest_of_type pos (view (P ++ alt)))).
Proof.
  intros -> ->. rewrite app_nil_r. unfold get_last_alt_x_block_cumulative_precise_difficulty.
  cbn [rev last_alt_x]. pose proof (nonempty_length P HP). rewrite length_app.
  destruct (_ <? _) eqn:E; zbool; [|lia]. replace (Z.to_nat _) with (List.length P - 1)%nat by lia.
  rewrite last_main_x_view by (rewrite length_app; lia). by rewrite backwards_split.
Qed.

Lemma get_last_alt_x_view_alt pos h : alt <> [] ->
  get_last_alt_x_block_cumulative_precise_difficulty (P ++ rest) alt h pos =
    Ret (precise_of (latest_of_type pos (view (P ++ alt)))).
Proof.
  intros Ha. unfold get_last_alt_x_block_cumulative_precise_difficulty. rewrite last_alt_x_spec.
  unfold latest_of_type. rewrite view_app, find_app_ by done.
  destruct (List.find _ (rev alt)); [done|].
  destruct (last (rev alt)) as [b|] eqn:E.
  - apply first_alt_height in E. rewrite E. pose proof (nonempty_length P HP).
    rewrite wrap_small by (split; lia). rewrite length_app. destruct (_ <? _) eqn:E'; zbool; [|lia].
    replace (Z.to_nat _) with (List.length P - 1)%nat by lia.
    rewrite last_main_x_view by (rewrite length_app; lia). by rewrite backwards_split.
  - exfalso. apply last_None in E. apply Ha. rewrite <- (rev_involutive alt), E. done.
Qed.

Lemma get_last_alt_x_block_view pos :
  get_last_alt_x_block_cumulative_precise_difficulty (P ++ rest) alt
    (u64 (Z.of_nat (List.length P) + Z.of_nat (List.length alt) - 1)) pos =
    Ret (precise_of (latest_of_type pos (view (P ++ alt)))).
Proof.
  destruct (decide (alt = [])) as [Ha|Ha]; [|by apply get_last_alt_x_view_alt].
  apply get_last_alt_x_view; [done|]. assert (List.length alt = 0%nat) by by rewrite Ha. pose proof (nonempty_length P HP). 
  rewrite wrap_small by (split; lia). lia.
Qed.

Lemma sequence_alt_view pos :
  get_current_sequence_factor_for_alt (P ++ rest) alt pos (Z.of_nat (List.length P)) =
    Ret (snd (sequence_alt pos (view (P ++ alt)) 0)).
Proof.
  unfold get_current_sequence_factor_for_alt. rewrite view_app, sequence_alt_app by done. cbv zeta.
  destruct (sequence_alt pos (rev alt) 0) as [[|] n]; [|done]. cbn [fst snd]. pose proof (nonempty_length P HP).
  rewrite wrap_small by (split; lia). replace (Z.to_nat _) with (List.length P - 1)%nat by lia.
  rewrite sequence_main_view by (rewrite length_app; lia). by rewrite backwards_split.
Qed.

Lemma adjusted_alt_view next_diff :
  get_adjusted_cumulative_difficulty_for_next_alt_pos (P ++ rest) alt next_diff (Z.of_nat (List.length P)) =
    Ret (adjust_by_last (last_diffs_alt (view (P ++ alt)) (0, 0)) next_diff).
Proof.
  unfold get_adjusted_cumulative_difficulty_for_next_alt_pos. pose proof (nonempty_length P HP). cbv zeta.
  rewrite wrap_small by (split; lia). replace (Z.to_nat _) with (List.length P - 1)%nat by lia.
  rewrite last_diffs_main_view by (rewrite length_app; lia). outcome_simp.
  by rewrite backwards_split, view_app, last_diffs_alt_app.
Qed.
End merged.

(** ** The main chain *)

Lemma sequence_main_of_chain pos bs :
  get_current_sequence_factor pos bs = Ret (snd (sequence_alt pos (view bs) 0)).
Proof.
  destruct bs as [|g l]; [done|]. unfold get_current_sequence_factor. rewrite sequence_main_view by (cbn; lia). done.
Qed.

Lemma adjusted_main_view g l next_diff : Z.of_nat (List.length (g :: l)) < 2 ^ 64 ->
  get_adjusted_cumulative_difficulty_for_next_pos (g :: l) next_diff =
    Ret (adjust_by_last (last_diffs_alt (view (g :: l) ++ [g]) (0, 0)) next_diff).
Proof.
  intros Hw. unfold get_adjusted_cumulative_difficulty_for_next_pos.
  replace (Z.of_nat (List.length (g :: l)) - 1) with (Z.of_nat (List.length (g :: l) - 1)) by (cbn; lia).
  rewrite last_diffs_loop_view by (try done; cbn; lia). done.
Qed.

Lemma last_x_main_view pos bs : bs <> [] -> Z.of_nat (List.length bs) < 2 ^ 64 ->
  exists h, get_last_x_block_height pos bs = Ret h /\
    match latest_of_type pos (view bs) with Some b => 0 < h /\ bs !! Z.to_nat h = Some b | None => h = 0 end.
Proof.
  intros Hbs Hw. unfold get_last_x_block_height. destruct bs as [|g l]; [done|].
  replace (Z.of_nat (List.length (g :: l)) - 1) with (Z.of_nat (List.length (g :: l) - 1)) by (cbn; lia).
  apply last_x_loop_view; [done|cbn; lia..].
Qed.

Lemma main_difficulties_view cfg bs g pos d : head bs = Some g -> is_u128 d -> Z.of_nat (List.length bs) < 2 ^ 64 ->
  let V := view bs in
  let n := snd (sequence_alt pos V 0) in
  let corrected := correct_difficulty_with_sequence_factor (Z.to_nat n) in
  let delta := if pos then adjust_by_last (last_diffs_alt (V ++ [g]) (0, 0)) d else d in
  let height := Z.of_nat (List.length bs) in
  main_difficulties cfg bs pos d =
    if (BLOCKCHAIN_HEIGHT_FOR_POS_STRICT_SEQUENCE_LIMITATION <? height) && pos && (BLOCK_POS_STRICT_SEQUENCE_LIMIT <? n)
    then Ret None
    else
      Ret (Some (u128 (match last bs with Some b => bei_cumulative_diff_adjusted b | None => 0 end +
                       (if nc_pos_minimum_heigh cfg <=? height then corrected delta else delta)),
                 u128 (fst (precise_of (latest_of_type pos V)) + d),
                 match latest_of_type pos V with
                 | Some b => u128 (bei_cumulative_diff_precise_adjusted b + corrected d)
                 | None => corrected d
                 end)).
Proof.
  destruct bs as [|g' l]; [done|]. intros [= ->] Hd Hw. cbv zeta. unfold main_difficulties.
  destruct (last_x_main_view pos (g :: l)) as (h & -> & Hh); [done..|]. outcome_simp.
  rewrite sequence_main_of_chain.
  assert (Hdelta : (if pos then get_adjusted_cumulative_difficulty_for_next_pos (g :: l) d else Ret d) =
    Ret (if pos then adjust_by_last (last_diffs_alt (view (g :: l) ++ [g]) (0, 0)) d else d)).
  { destruct pos; [by apply adjusted_main_view|done]. }
  destruct (latest_of_type pos (view (g :: l))) as [b|].
  - destruct Hh as [Hh Hb]. replace (h =? 0) with false by lia. unfold block_at. rewrite Hb, Hdelta. outcome_simp.
    case_match; [done|]. outcome_simp. done.
  - subst h. change (0 =? 0) with true. cbv iota. outcome_simp. rewrite Hdelta. outcome_simp.
    match goal with |- (if ?c then _ else _) = _ => destruct c; [done|] end. outcome_simp. cbn [precise_of fst].
    do 4 f_equal. rewrite wrap_small; [done|]. by rewrite Z.add_0_l.
Qed.

(** The sequence factor only lowers a difficulty. *)
Lemma corrected_range n d : 0 <= d -> 0 <= correct_difficulty_with_sequence_factor n d <= d.
Proof.
  intros Hd. unfold correct_difficulty_with_sequence_factor.
  apply (for_loop_inv (fun x => 0 <= x <= d)); [lia|]. intros _ x _ Hx.
  pose proof (Z.div_pos x 4). pose proof (Z.div_le_upper_bound x 4 x). lia.
Qed.

Lemma alt_difficulties_as_main cfg P rest alt pos d : P <> [] -> heights_ok (P ++ alt) ->
  Z.of_nat (List.length (P ++ alt)) < 2 ^ 64 -> is_u128 d ->
  option_map bei_is_pos (head P) = Some false ->
  (pos = true -> Exists (fun b => bei_is_pos b = false /\ bei_difficulty b <> 0) (view (P ++ alt))) ->
  alt_difficulties cfg (P ++ rest) alt (Z.of_nat (List.length (P ++ alt))) (Z.of_nat (List.length P)) pos d =
    main_difficulties cfg (P ++ alt) pos d.
Proof.
  intros HP Hh Hw Hd Hg Hpow. pose proof (nonempty_length P HP) as HlP. rewrite length_app, Nat2Z.inj_add in *.
  unfold alt_difficulties. rewrite get_last_alt_x_block_view, sequence_alt_view by done.
  assert (Hprev : (match last alt with Some b => Ret b
      | None => block_at (P ++ rest) (Z.to_nat (Z.of_nat (List.length P) + Z.of_nat (List.length alt) - 1)) end) =
    match last (P ++ alt) with Some b => Ret b | None => Throw end).
  { rewrite last_app. destruct (last alt) as [b|] eqn:E; [done|]. apply last_None in E as ->.
    replace (Z.to_nat _) with (pred (List.length P)) by (cbn; lia). unfold block_at.
    rewrite lookup_app_l by lia. rewrite <- last_lookup. by destruct (last P). }
  rewrite Hprev. assert (Hg' : exists g, head (P ++ alt) = Some g /\ bei_is_pos g = false).
  { destruct P as [|g P']; [done|]. exists g. by injection Hg. }
  destruct Hg' as (g & Hhead & Hgp).
  rewrite (main_difficulties_view _ _ g) by (rewrite ?length_app, ?Nat2Z.inj_add; done).
  rewrite length_app, Nat2Z.inj_add.
  destruct (last (P ++ alt)) as [prev|] eqn:Hlast; [|by apply last_None, app_eq_nil in Hlast as [? _]].
  outcome_simp.
  assert (Hdelta : (if pos then get_adjusted_cumulative_difficulty_for_next_alt_pos (P ++ rest) alt d (Z.of_nat (List.length P)) else Ret d) =
    Ret (if pos then adjust_by_last (last_diffs_alt (view (P ++ alt) ++ [g]) (0, 0)) d else d)).
  { destruct pos; [|done]. rewrite adjusted_alt_view by done. by rewrite adjust_without_genesis by auto. }
  rewrite Hdelta. outcome_simp.
  match goal with |- (if ?c then _ else _) = _ => destruct c; [done|] end.
  destruct (latest_of_type pos (view (P ++ alt))) as [b|]; [done|]. cbn [precise_of fst]. do 3 f_equal.
  rewrite Z.add_0_l, wrap_small; [done|]. unfold in_u in *. 
  match goal with |- 0 <= correct_difficulty_with_sequence_factor ?n _ < _ => pose proof (corrected_range n d) end. lia.
Qed.

(** ** The container of blocks and what is cached about it

    [m_db_per_block_gindex_incs] counts, for each height, the outputs of each
    amount; the order in which the code stores the counts is that of an
    unordered map, so a finite map stands for it. *)
Record storage : Type := {
  m_db_blocks : list block_extended_info;
  m_db_blocks_index : gmap hash Z;
  m_db_per_block_gindex_incs : gmap Z (gmap Z Z);
  m_db_current_block_cumul_sz_limit : Z;
  m_pos_targetdata_cache : list (Z * Z);
  m_pow_targetdata_cache : list (Z * Z);
  m_cached_next_pos_difficulty : Z;
  m_cached_next_pow_difficulty : Z;
  m_timestamps_median_cache : gmap Z Z;
  m_current_fee_median : Z;
  m_current_fee_median_effective_index : Z;
}.

Definition with_blocks (bs : list block_extended_info) (index : gmap hash Z) (incs : gmap Z (gmap Z Z)) (s : storage)
    : storage := {|
  m_db_blocks := bs; m_db_blocks_index := index; m_db_per_block_gindex_incs := incs;
  m_db_current_block_cumul_sz_limit := m_db_current_block_cumul_sz_limit s;
  m_pos_targetdata_cache := m_pos_targetdata_cache s; m_pow_targetdata_cache := m_pow_targetdata_cache s;
  m_cached_next_pos_difficulty := m_cached_next_pos_difficulty s;
  m_cached_next_pow_difficulty := m_cached_next_pow_difficulty s;
  m_timestamps_median_cache := m_timestamps_median_cache s;
  m_current_fee_median := m_current_fee_median s;
  m_current_fee_median_effective_index := m_current_fee_median_effective_index s |}.

Definition set_size_limit (l : Z) (s : storage) : storage := {|
  m_db_blocks := m_db_blocks s; m_db_blocks_index := m_db_blocks_index s;
  m_db_per_block_gindex_incs := m_db_per_block_gindex_incs s;
  m_db_current_block_cumul_sz_limit := l;
  m_pos_targetdata_cache := m_pos_targetdata_cache s; m_pow_targetdata_cache := m_pow_targetdata_cache s;
  m_cached_next_pos_difficulty := m_cached_next_pos_difficulty s;
  m_cached_next_pow_difficulty := m_cached_next_pow_difficulty s;
  m_timestamps_median_cache := m_timestamps_median_cache s;
  m_current_fee_median := m_current_fee_median s;
  m_current_fee_median_effective_index := m_current_fee_median_effective_index s |}.

Definition set_targetdata_cache (pos : bool) (c : list (Z * Z)) (s : storage) : storage := {|
  m_db_blocks := m_db_blocks s; m_db_blocks_index := m_db_blocks_index s;
  m_db_per_block_gindex_incs := m_db_per_block_gindex_incs s;
  m_db_current_block_cumul_sz_limit := m_db_current_block_cumul_sz_limit s;
  m_pos_targetdata_cache := if pos then c else m_pos_targetdata_cache s;
  m_pow_targetdata_cache := if pos then m_pow_targetdata_cache s else c;
  m_cached_next_pos_difficulty := m_cached_next_pos_difficulty s;
  m_cached_next_pow_difficulty := m_cached_next_pow_difficulty s;
  m_timestamps_median_cache := m_timestamps_median_cache s;
  m_current_fee_median := m_current_fee_median s;
  m_current_fee_median_effective_index := m_current_fee_median_effective_index s |}.

Definition set_cached_next_difficulty (pos : bool) (d : Z) (s : storage) : storage := {|
  m_db_blocks := m_db_blocks s; m_db_blocks_index := m_db_blocks_index s;
  m_db_per_block_gindex_incs := m_db_per_block_gindex_incs s;
  m_db_current_block_cumul_sz_limit := m_db_current_block_cumul_sz_limit s;
  m_pos_targetdata_cache := m_pos_targetdata_cache s; m_pow_targetdata_cache := m_pow_targetdata_cache s;
  m_cached_next_pos_difficulty := if pos then d else m_cached_next_pos_difficulty s;
  m_cached_next_pow_difficulty := if pos then m_cached_next_pow_difficulty s else d;
  m_timestamps_median_cache := m_timestamps_median_cache s;
  m_current_fee_median := m_current_fee_median s;
  m_current_fee_median_effective_index := m_current_fee_median_effective_index s |}.

Definition set_timestamps_median_cache (c : gmap Z Z) (s : storage) : storage := {|
  m_db_blocks := m_db_blocks s; m_db_blocks_index := m_db_blocks_index s;
  m_db_per_block_gindex_incs := m_db_per_block_gindex_incs s;
  m_db_current_block_cumul_sz_limit := m_db_current_block_cumul_sz_limit s;
  m_pos_targetdata_cache := m_pos_targetdata_cache s; m_pow_targetdata_cache := m_pow_targetdata_cache s;
  m_cached_next_pos_difficulty := m_cached_next_pos_difficulty s;
  m_cached_next_pow_difficulty := m_cached_next_pow_difficulty s;
  m_timestamps_median_cache := c;
  m_current_fee_median := m_current_fee_median s;
  m_current_fee_median_effective_index := m_current_fee_median_effective_index s |}.

Definition set_current_fee_median (median index : Z) (s : storage) : storage := {|
  m_db_blocks := m_db_blocks s; m_db_blocks_index := m_db_blocks_index s;
  m_db_per_block_gindex_incs := m_db_per_block_gindex_incs s;
  m_db_current_block_cumul_sz_limit := m_db_current_block_cumul_sz_limit s;
  m_pos_targetdata_cache := m_pos_targetdata_cache s; m_pow_targetdata_cache := m_pow_targetdata_cache s;
  m_cached_next_pos_difficulty := m_cached_next_pos_difficulty s;
  m_cached_next_pow_difficulty := m_cached_next_pow_difficulty s;
  m_timestamps_median_cache := m_timestamps_median_cache s;
  m_current_fee_median := median;
  m_current_fee_median_effective_index := index |}.

Definition targetdata_cache (pos : bool) (s : storage) : list (Z * Z) :=
  if pos then m_pos_targetdata_cache s else m_pow_targetdata_cache s.
Definition cached_next_difficulty (pos : bool) (s : storage) : Z :=
  if pos then m_cached_next_pos_difficulty s else m_cached_next_pow_difficulty s.

Definition get_next_diff_conditional (cfg : network_config) (pos : bool) : st storage Z :=
  bs ← read m_db_blocks;
  match bs with
  | [] => mret DIFFICULTY_POW_STARTER
  | _ =>
      cache ← lift_outcome (load_targetdata_cache pos bs);
      _ ← update (set_targetdata_cache pos cache);
      let '(timestamps, commulative_difficulties) := collect_timestamps_and_c_difficulties_main cache in
      dif ← lift_outcome (calc_diff_at_h_from_timestamps cfg timestamps commulative_difficulties
                            (Z.of_nat (List.length bs)) pos);
      _ ← update (set_cached_next_difficulty pos dif);
      mret dif
  end.

Definition get_cached_next_difficulty (cfg : network_config) (pos : bool) : st storage Z :=
  res ← read (cached_next_difficulty pos);
  if negb (res =? 0) then mret res
  else _ ← get_next_diff_conditional cfg pos; read (cached_next_difficulty pos).

(** ** The median fee *)

Definition ALIAS_VERY_INITAL_COAST : Z := 10000.

Definition get_tx_fee_median_effective_index (h : Z) : Z :=
  if h <=? ALIAS_MEDIAN_RECALC_INTERWAL + 1 then 0
  else let h := h - 1 in h - h mod ALIAS_MEDIAN_RECALC_INTERWAL.

Definition tx_fee_median_for_height (m_db_blocks : list block_extended_info) (h : Z) : outcome Z :=
  b ← block_at m_db_blocks (Z.to_nat (get_tx_fee_median_effective_index h)); Ret (bei_effective_tx_fee_median b).

(** The median in force is remembered by the index it comes from. *)
Definition get_tx_fee_median : st storage Z :=
  bs ← read m_db_blocks;
  let h := Z.of_nat (List.length bs) in
  index ← read m_current_fee_median_effective_index;
  _ ← (if negb (index =? get_tx_fee_median_effective_index h) then
         m ← lift_outcome (tx_fee_median_for_height bs h);
         update (set_current_fee_median m (get_tx_fee_median_effective_index h))
       else mret tt);
  m ← read m_current_fee_median;
  index ← read m_current_fee_median_effective_index;
  _ ← (if m =? 0 then update (set_current_fee_median ALIAS_VERY_INITAL_COAST index) else mret tt);
  read m_current_fee_median.

(** The non-zero medians of the blocks of the last week, latest first. *)
Fixpoint week_medians (m_db_blocks : list block_extended_info) (height : Z) (i : nat) : outcome (list Z) :=
  match i with
  | O => Ret []
  | S i' =>
      if height - Z.of_nat i <=? ALIAS_COAST_PERIOD then
        b ← block_at m_db_blocks i;
        rest ← week_medians m_db_blocks height i';
        let i_median := bei_this_block_tx_fee_median b in
        Ret (if negb (i_median =? 0) then i_median :: rest else rest)
      else Ret []
  end.

Definition effective_tx_fee_median (height : Z) : st storage Z :=
  if negb (height mod ALIAS_MEDIAN_RECALC_INTERWAL =? 0) then get_tx_fee_median
  else if height =? 0 then mret 0
  else
    bs ← read m_db_blocks;
    blocks_medians ← lift_outcome (week_medians bs height (Z.to_nat (height - 1)));
    mret (median blocks_medians).

(** ** The records of new blocks *)

(** [handle_block_to_main_chain] once the transactions are in: a [Fail]
    removes them again. *)
Definition main_chain_entry (cfg : network_config) (bl : block) (id : hash) (current_diffic : Z) (proof_hash : hash)
    (cumulative_block_size burned_coins block_reward_without_fee fee_summary : Z) (block_fees : list Z)
    : st storage block_extended_info :=
  bs ← read m_db_blocks;
  let is_pos_bl := is_pos_block bl in
  let height := Z.of_nat (List.length bs) in
  d ← lift_outcome (main_difficulties cfg bs is_pos_bl current_diffic);
  d ← some d;
  let '(adjusted, precise, precise_adjusted) := d in
  let already_generated_coins := match last bs with Some b => bei_already_generated_coins b | None => 0 end in
  _ ← check (negb (already_generated_coins <? burned_coins));
  let coins := u128 (already_generated_coins - burned_coins + block_reward_without_fee) in
  let coins := if TRANSACTION_VERSION_POST_HF4 <=? tp_version (tx_prefix (bl_miner_tx bl))
               then u128 (coins - fee_summary) else coins in
  index ← read m_db_blocks_index;
  _ ← check (negb (bool_decide (is_Some (index !! id))));
  effective ← effective_tx_fee_median height;
  mret {|
    bei_bl := bl; bei_height := height; bei_block_cumulative_size := cumulative_block_size;
    bei_cumulative_diff_adjusted := adjusted; bei_cumulative_diff_precise := precise;
    bei_cumulative_diff_precise_adjusted := precise_adjusted; bei_difficulty := current_diffic;
    bei_already_generated_coins := coins;
    bei_stake_hash := if is_pos_bl then proof_hash else null_hash; bei_version := 0;
    bei_this_block_tx_fee_median := median block_fees; bei_effective_tx_fee_median := effective |}.

(** [handle_alternative_block]: what the record of an alternative block holds;
    [fees] are those of all its transactions. *)
Definition alt_chain_entry (cfg : network_config) (m_db_blocks : list block_extended_info) (alt_chain : alt_chain_type)
    (bl : block) (height connection_height current_diff : Z) (stake_hash : hash) (fees : list Z)
    : outcome (option block_extended_info) :=
  let pos_block := is_pos_block bl in
  d ← alt_difficulties cfg m_db_blocks alt_chain height connection_height pos_block current_diff;
  Ret (option_map (fun '(adjusted, precise, precise_adjusted) => {|
    bei_bl := bl; bei_height := height; bei_block_cumulative_size := 0;
    bei_cumulative_diff_adjusted := adjusted; bei_cumulative_diff_precise := precise;
    bei_cumulative_diff_precise_adjusted := precise_adjusted; bei_difficulty := current_diff;
    bei_already_generated_coins := 0;
    bei_stake_hash := if pos_block then stake_hash else null_hash; bei_version := 0;
    bei_this_block_tx_fee_median := median fees; bei_effective_tx_fee_median := 0 |}) d).

(** ** Adding and removing a record *)

Definition update_targetdata_cache_on_block_added (bei : block_extended_info) (s : storage) : storage :=
  if bei_height bei =? 0 then s
  else
    let pos := bei_is_pos bei in
    let cache := targetdata_cache pos s ++ [(bei_cumulative_diff_precise bei, bei_timestamp bei)] in
    set_targetdata_cache pos (drop (List.length cache - Z.to_nat TARGETDATA_CACHE_SIZE) cache) s.

Definition update_targetdata_cache_on_block_removed (bei : block_extended_info) (s : storage) : storage :=
  let pos := bei_is_pos bei in
  let cache := targetdata_cache pos s in
  let cache := take (List.length cache - 1) cache in
  set_targetdata_cache pos (if Z.of_nat (List.length cache) <? DIFFICULTY_WINDOW then [] else cache) s.

Definition get_last_n_blocks_sizes (m_db_blocks : list block_extended_info) (count : nat) : list Z :=
  map bei_block_cumulative_size (drop (List.length m_db_blocks - Nat.min (List.length m_db_blocks) count) m_db_blocks).

Definition update_next_comulative_size_limit (s : storage) : storage :=
  let median := median (get_last_n_blocks_sizes (m_db_blocks s) (Z.to_nat CURRENCY_REWARD_BLOCKS_WINDOW)) in
  let median := if median <=? CURRENCY_BLOCK_GRANTED_FULL_REWARD_ZONE then CURRENCY_BLOCK_GRANTED_FULL_REWARD_ZONE
                else median in
  set_size_limit (u64 (median * 2)) s.

(** The pool and the listeners of the events are told in between. *)
Definition on_block_added (bei : block_extended_info) (s : storage) : storage :=
  update_targetdata_cache_on_block_added bei
    (set_timestamps_median_cache ∅ (update_next_comulative_size_limit s)).

Definition on_block_removed (bei : block_extended_info) (s : storage) : storage :=
  update_targetdata_cache_on_block_removed bei (set_timestamps_median_cache ∅ s).

Definition append_per_block_increments_for_tx (tx : transaction) (gindices : gmap Z Z) : gmap Z Z :=
  let increment amount (gindices : gmap Z Z) := <[amount := u32 (default 0 (gindices !! amount) + 1)]> gindices in
  fold_left (fun (gindices : gmap Z Z) v =>
    match v with
    | out_bare o => match ob_target o with target_to_key _ => increment (ob_amount o) gindices | _ => gindices end
    | out_zarcanum _ => increment 0 gindices
    | _ => gindices
    end) (vout tx) gindices.

(** [height] is cut to 32 bits; what was there is replaced. *)
Definition push_block_to_per_block_increments (height_ : Z) (gindices : gmap Z Z) (incs : gmap Z (gmap Z Z))
    : gmap Z (gmap Z Z) := <[u32 height_ := gindices]> incs.
Definition pop_block_from_per_block_increments (height_ : Z) (incs : gmap Z (gmap Z Z)) : gmap Z (gmap Z Z) :=
  delete (u32 height_) incs.

(** The last steps of [handle_block_to_main_chain]. *)
Definition push_block_record (id : hash) (bei : block_extended_info) (gindices : gmap Z Z) (s : storage) : storage :=
  on_block_added bei
    (with_blocks (m_db_blocks s ++ [bei]) (<[id := bei_height bei]> (m_db_blocks_index s))
       (push_block_to_per_block_increments (bei_height bei) gindices (m_db_per_block_gindex_incs s)) s).

(** [pop_block_from_blockchain] once the transactions are purged. *)
Definition pop_block_record : st storage unit :=
  bs ← read m_db_blocks;
  _ ← check (1 <? List.length bs)%nat;
  bei ← lift_outcome (block_at bs (List.length bs - 1));
  update (fun s =>
    on_block_removed bei
      (with_blocks (take (List.length bs - 1) bs) (delete (get_block_hash (bei_bl bei)) (m_db_blocks_index s))
         (pop_block_from_per_block_increments (bei_height bei) (m_db_per_block_gindex_incs s)) s)).

(** ** The difficulty of the next block *)

Lemma get_next_diff_view cfg pos s : m_db_blocks s <> [] ->
  exists cache, get_next_diff_conditional cfg pos s =
    match difficulty_over cfg pos (view (m_db_blocks s)) (Z.of_nat (List.length (m_db_blocks s))) with
    | Ret d => (Ok d, set_cached_next_difficulty pos d (set_targetdata_cache pos cache s))
    | Throw => (Exn, set_targetdata_cache pos cache s)
    end.
Proof.
  intros Hbs. destruct (collect_main_view pos _ Hbs) as (cache & El & Ec). exists cache.
  unfold get_next_diff_conditional. rewrite (bind_eq _ _ s (m_db_blocks s) s) by done.
  destruct (m_db_blocks s) as [|g l] eqn:E; [done|]. rewrite <- E in *.
  rewrite El. rewrite (bind_eq _ _ s cache s) by done.
  rewrite (bind_eq _ _ s tt (set_targetdata_cache pos cache s)) by done. rewrite Ec.
  unfold difficulty_over. destruct (calc_diff_at_h_from_timestamps _ _ _ _ _); done.
Qed.

(** What is remembered is the difficulty of the next block, or nothing. *)
Definition cache_fresh (cfg : network_config) (s : storage) : Prop :=
  forall pos, cached_next_difficulty pos s = 0 \/
    difficulty_over cfg pos (view (m_db_blocks s)) (Z.of_nat (List.length (m_db_blocks s))) =
      Ret (cached_next_difficulty pos s).

Lemma get_cached_fresh cfg pos s d : m_db_blocks s <> [] -> cache_fresh cfg s ->
  difficulty_over cfg pos (view (m_db_blocks s)) (Z.of_nat (List.length (m_db_blocks s))) = Ret d ->
  exists s', get_cached_next_difficulty cfg pos s = (Ok d, s') /\ m_db_blocks s' = m_db_blocks s /\ cache_fresh cfg s'.
Proof.
  intros Hbs Hf Hd. unfold get_cached_next_difficulty. rewrite (bind_eq _ _ s (cached_next_difficulty pos s) s) by done.
  destruct (cached_next_difficulty pos s =? 0) eqn:E; zbool; cbn [negb].
  - destruct (get_next_diff_view cfg pos s Hbs) as (cache & Eg). rewrite Hd in Eg.
    rewrite (bind_eq _ _ _ _ _ Eg). eexists. split; [unfold read; by destruct pos|]. split; [done|].
    intros pos'. destruct (Hf pos') as [H|H]; destruct pos, pos'; cbn in *; auto.
  - exists s. split; [|done]. destruct (Hf pos) as [H|H]; [done|]. rewrite Hd in H. injection H as <-. done.
Qed.

(** ** Chains whose records are right *)

Record chain_valid (cfg : network_config) (bs : list block_extended_info) : Prop := {
  cv_heights : heights_ok bs;
  cv_size : Z.of_nat (List.length bs) < 2 ^ 64;
  cv_ranges : Forall (fun b => is_u128 (bei_cumulative_diff_precise b) /\
                               is_u128 (bei_cumulative_diff_precise_adjusted b)) bs;
  cv_difficulty : forall i b, (0 < i)%nat -> bs !! i = Some b ->
    0 < bei_difficulty b /\
    difficulty_over cfg (bei_is_pos b) (view (take i bs)) (Z.of_nat i) = Ret (bei_difficulty b);
}.

(** Two heights on the same side of hard fork 1. *)
Lemma difficulty_over_same_rule cfg pos V h h' :
  (ld (nc_hard_forks cfg) 1 <? h) = (ld (nc_hard_forks cfg) 1 <? h') ->
  difficulty_over cfg pos V h = difficulty_over cfg pos V h'.
Proof.
  intros E. unfold difficulty_over, calc_diff_at_h_from_timestamps, is_hardfork_active_for_height.
  cbn [Nat.eqb Nat.ltb Nat.leb ZANO_HARDFORKS_TOTAL]. outcome_simp. by rewrite E.
Qed.

(** Blocks of the other type do not matter. *)
Lemma difficulty_over_skip cfg pos l V h : Forall (fun b => same_type pos b = false) l ->
  difficulty_over cfg pos (l ++ V) h = difficulty_over cfg pos V h.
Proof.
  intros Hl. unfold difficulty_over, recent_of_type. rewrite List.filter_app.
  replace (List.filter (same_type pos) l) with (@nil block_extended_info); [done|].
  induction Hl as [|b l Hb _ IH]; [done|]. cbn. by rewrite Hb.
Qed.

(** ** The timestamp of a block *)

Definition get_last_n_blocks_timestamps (m_db_blocks : list block_extended_info) (n : nat) : list Z :=
  let sz := List.length m_db_blocks in
  let offset := (if sz <=? n then 0 else sz - n)%nat in map bei_timestamp (drop offset m_db_blocks).

Definition get_last_n_blocks_timestamps_median (n : nat) : st storage Z :=
  cache ← read m_timestamps_median_cache;
  match cache !! Z.of_nat n with
  | Some cached_median => mret cached_median
  | None =>
      bs ← read m_db_blocks;
      let timestamps := get_last_n_blocks_timestamps bs n in
      let median_res := median timestamps in
      _ ← (if (List.length timestamps =? n)%nat
           then update (fun s => set_timestamps_median_cache (<[Z.of_nat n := median_res]> (m_timestamps_median_cache s)) s)
           else mret tt);
      mret median_res
  end.

(** [adjusted_time] is [get_adjusted_time()], the clock of the node. *)
Definition check_block_timestamp (adjusted_time : Z) (timestamps : list Z) (b : block) : bool :=
  let timestamp := bh_timestamp (bl_header b) in
  if Z.of_nat (List.length timestamps) <? BLOCKCHAIN_TIMESTAMP_CHECK_WINDOW then true
  else if u64 (adjusted_time + CURRENCY_BLOCK_FUTURE_TIME_LIMIT) <? timestamp then false
  else if is_pos_block b && (u64 (adjusted_time + CURRENCY_POS_BLOCK_FUTURE_TIME_LIMIT) <? timestamp) then false
  else negb (timestamp <? median timestamps).

Definition check_block_timestamp_main (adjusted_time : Z) (m_db_blocks : list block_extended_info) (b : block) : bool :=
  let timestamp := bh_timestamp (bl_header b) in
  if u64 (adjusted_time + CURRENCY_BLOCK_FUTURE_TIME_LIMIT) <? timestamp then false
  else if is_pos_block b && (u64 (adjusted_time + CURRENCY_POS_BLOCK_FUTURE_TIME_LIMIT) <? timestamp) then false
  else check_block_timestamp adjusted_time
         (get_last_n_blocks_timestamps m_db_blocks (Z.to_nat BLOCKCHAIN_TIMESTAMP_CHECK_WINDOW)) b.

(** [do { push; if (height == 0) break; --height; } while (height != stop_offset)] *)
Fixpoint complete_loop (m_db_blocks : list block_extended_info) (start_top_height stop_offset : nat)
    (timestamps : list Z) : outcome (list Z) :=
  b ← block_at m_db_blocks start_top_height;
  let timestamps := timestamps ++ [bei_timestamp b] in
  match start_top_height with
  | O => Ret timestamps
  | S h => if (h =? stop_offset)%nat then Ret timestamps else complete_loop m_db_blocks h stop_offset timestamps
  end.

(** Whether the check holds, and the vector. *)
Definition complete_timestamps_vector (m_db_blocks : list block_extended_info) (start_top_height : nat)
    (timestamps : list Z) : outcome (bool * list Z) :=
  let window := Z.to_nat BLOCKCHAIN_TIMESTAMP_CHECK_WINDOW in
  if (window <=? List.length timestamps)%nat then Ret (true, timestamps)
  else
    let need_elements := (window - List.length timestamps)%nat in
    if (start_top_height <? List.length m_db_blocks)%nat then
      let stop_offset := if (need_elements <? start_top_height)%nat then (start_top_height - need_elements)%nat else 0%nat in
      timestamps ← complete_loop m_db_blocks start_top_height stop_offset timestamps; Ret (true, timestamps)
    else Ret (false, timestamps).

(** [handle_alternative_block]: the timestamps of the alternative chain, from
    its latest block, completed from the main chain. *)
Definition check_alt_block_timestamp (adjusted_time : Z) (m_db_blocks : list block_extended_info)
    (alt_chain : alt_chain_type) (main_prev : nat) (b : block) : outcome bool :=
  let start := match alt_chain with c :: _ => Z.to_nat (bei_height c - 1) | [] => main_prev end in
  r ← complete_timestamps_vector m_db_blocks start (map bei_timestamp (rev alt_chain));
  Ret (check_block_timestamp adjusted_time (snd r) b).

Lemma median_perm v v' : v ≡ₚ v' -> median v = median v'.
Proof.
  intros Hp. pose proof (Permutation_length Hp) as Hl.
  assert (Hs : merge_sort Z.le v = merge_sort Z.le v').
  { apply (StronglySorted_unique Z.le); [apply (StronglySorted_merge_sort _)..|].
    by rewrite (merge_sort_Permutation Z.le v), (merge_sort_Permutation Z.le v'). }
  unfold median. rewrite Hs, Hl.
  destruct v as [|x [|? ?]], v' as [|x' [|? ?]]; try done. by apply Permutation_singleton_inj in Hp as ->.
Qed.

Lemma complete_loop_view bs h stop ts : (stop < h < List.length bs)%nat ->
  complete_loop bs h stop ts = Ret (ts ++ map bei_timestamp (take (h - stop) (backwards bs h))).
Proof.
  revert ts. induction h as [|h IH]; intros ts Hh; [lia|]. cbn [complete_loop].
  destruct (backwards_S bs h) as (b & -> & ->); [lia|]. outcome_simp.
  destruct (h =? stop)%nat eqn:E.
  - apply Nat.eqb_eq in E as ->. by replace (S stop - stop)%nat with 1%nat by lia.
  - apply Nat.eqb_neq in E. rewrite IH by lia. replace (S h - stop)%nat with (S (h - stop)) by lia.
    cbn [take map]. by rewrite <- app_assoc.
Qed.

Lemma last_n_timestamps bs n : (n <= List.length bs)%nat ->
  get_last_n_blocks_timestamps bs n = rev (map bei_timestamp (take n (rev bs))).
Proof.
  intros Hn. unfold get_last_n_blocks_timestamps. cbv zeta.
  assert (E : drop (List.length bs - n) bs = rev (take n (rev bs))).
  { rewrite <- (rev_involutive bs) at 2. rewrite <- (length_rev bs). 
    rewrite skipn_rev, length_rev. f_equal. f_equal. lia. }
  destruct (List.length bs <=? n)%nat eqn:E'.
  - apply Nat.leb_le in E'. replace (List.length bs - n)%nat with 0%nat in E by lia. by rewrite E, map_rev.
  - by rewrite E, map_rev.
Qed.

(** On a chain of more than the window, an alternative chain within it. *)
Lemma alt_timestamps_view P rest alt k : (60 < List.length P)%nat -> (List.length alt <= 60)%nat ->
  (k = List.length P - 1)%nat ->
  complete_timestamps_vector (P ++ rest) k (map bei_timestamp (rev alt)) =
    Ret (true, map bei_timestamp (take 60 (rev (P ++ alt)))).
Proof.
  intros HlP Hla ->. unfold complete_timestamps_vector. change (Z.to_nat BLOCKCHAIN_TIMESTAMP_CHECK_WINDOW) with 60%nat.
  cbv zeta. rewrite length_map, length_rev, rev_app_distr.
  destruct (60 <=? List.length alt)%nat eqn:E; [apply Nat.leb_le in E|apply Nat.leb_gt in E].
  { do 2 f_equal. assert (Hl : List.length (rev alt) = 60%nat) by (rewrite length_rev; lia).
    by rewrite <- Hl, take_app_length. }
  rewrite length_app. replace (List.length P - 1 <? _)%nat with true by (symmetry; apply Nat.ltb_lt; lia).
  set (need := (60 - List.length alt)%nat).
  set (stop := if (need <? List.length P - 1)%nat then (List.length P - 1 - need)%nat else 0%nat).
  assert (Hstop : (List.length P - 1 - stop = need)%nat).
  { unfold stop. destruct (need <? _)%nat eqn:E2; [apply Nat.ltb_lt in E2; lia|apply Nat.ltb_ge in E2; unfold need in *; lia]. }
  rewrite complete_loop_view by (rewrite length_app; unfold need in *; lia). outcome_simp. do 2 f_equal.
  rewrite Hstop, backwards_prefix by lia.
  destruct P as [|g P']; [cbn in HlP; lia|]. fold (view (g :: P')). rewrite view_cons. cbn [rev].
  rewrite take_app, length_rev. fold need. rewrite (take_ge (rev alt)) by (rewrite length_rev; lia).
  rewrite map_app. do 2 f_equal. rewrite take_app_le; [done|]. rewrite length_rev. cbn in HlP. unfold need. lia.
Qed.

Lemma check_alt_block_timestamp_as_main adjusted_time P rest alt b : heights_ok (P ++ alt) ->
  (60 < List.length P)%nat -> (List.length alt <= 60)%nat ->
  check_alt_block_timestamp adjusted_time (P ++ rest) alt (List.length P - 1) b =
    Ret (check_block_timestamp_main adjusted_time (P ++ alt) b).
Proof.
  intros Hh HlP Hla. unfold check_alt_block_timestamp.
  rewrite alt_timestamps_view; [|done|done|].
  2: { destruct alt as [|c alt']; [done|]. rewrite (Hh (List.length P) c) by (by rewrite lookup_app_r, Nat.sub_diag by lia). lia. }
  outcome_simp. cbn [snd]. f_equal. unfold check_block_timestamp_main, check_block_timestamp.
  change (Z.to_nat BLOCKCHAIN_TIMESTAMP_CHECK_WINDOW) with 60%nat.
  assert (Hl : (60 <= List.length (P ++ alt))%nat) by (rewrite length_app; lia).
  rewrite last_n_timestamps by done.
  rewrite !length_rev, !length_map, length_take, length_rev. replace (60 `min` _)%nat with 60%nat by lia.
  rewrite (median_perm (rev _) _ (symmetry (Permutation_rev _))).
  change (Z.of_nat 60 <? BLOCKCHAIN_TIMESTAMP_CHECK_WINDOW) with false. cbv iota.
  destruct (u64 (_ + CURRENCY_BLOCK_FUTURE_TIME_LIMIT) <? _); [done|]. destruct (is_pos_block b && _); done.
Qed.


(** ** The loops whose index wraps end *)

Lemma last_x_loop_more fuel fuel' pos bs i h : (fuel <= fuel')%nat ->
  last_x_loop fuel pos bs i = Ret h -> last_x_loop fuel' pos bs i = Ret h.
Proof.
  revert fuel' i. induction fuel as [|fuel IH]; intros [|fuel'] i Hf; [done|done|lia|]. cbn [last_x_loop].
  destruct (i <? _); [|done]. destruct (block_at bs (Z.to_nat i)); [|done]. outcome_simp.
  destruct (eqb _ _); [done|]. apply IH. lia.
Qed.

(** C32: the two walks that count an unsigned index down past zero,
    [get_last_x_block_height] and
    [get_adjusted_cumulative_difficulty_for_next_pos], end on every chain: a
    step for each block and one to see that the index wrapped are enough, more
    steps do not change the result, and no block outside the chain is read. *)
Theorem downward_walks_terminate bs pos next_diff : Z.of_nat (List.length bs) < 2 ^ 64 ->
  (exists h, get_last_x_block_height pos bs = Ret h /\ 0 <= h /\
     forall fuel, (List.length bs < fuel)%nat -> bs <> [] ->
       last_x_loop fuel pos bs (Z.of_nat (List.length bs) - 1) = Ret h) /\
  (exists w, get_adjusted_cumulative_difficulty_for_next_pos bs next_diff = Ret (adjust_by_last w next_diff) /\
     forall fuel, (List.length bs < fuel)%nat -> bs <> [] ->
       last_diffs_loop fuel bs (Z.of_nat (List.length bs) - 1) (0, 0) = Ret w).
Proof.
  intros Hw. destruct (decide (bs = [])) as [->|Hbs].
  { split; [exists 0|exists (0, 0)]; repeat split; (done || lia). }
  pose proof (nonempty_length bs Hbs) as Hl. split.
  - destruct (last_x_main_view pos bs Hbs Hw) as (h & E & Hh). exists h. split; [done|]. split.
    { destruct (latest_of_type pos (view bs)); lia. }
    intros fuel Hf _. revert E. unfold get_last_x_block_height. destruct bs; [done|]. apply last_x_loop_more. lia.
  - destruct bs as [|g l]; [done|]. exists (last_diffs_alt (view (g :: l) ++ [g]) (0, 0)).
    split; [by apply adjusted_main_view|]. intros fuel Hf _.
    replace (Z.of_nat (List.length (g :: l)) - 1) with (Z.of_nat (List.length (g :: l) - 1)) by (cbn; lia).
    rewrite last_diffs_loop_view by (try done; cbn in *; lia). done.
Qed.

(** ** Accepted blocks keep the records right *)

Lemma main_difficulties_ranges cfg bs pos d a p pa : bs <> [] -> chain_valid cfg bs -> is_u128 d ->
  main_difficulties cfg bs pos d = Ret (Some (a, p, pa)) -> is_u128 p /\ is_u128 pa.
Proof.
  intros Hbs [Hh Hw Hr _] Hd E. destruct bs as [|g l]; [done|]. rewrite (main_difficulties_view cfg _ g) in E by done.
  match type of E with (if ?c then _ else _) = _ => destruct c; [done|] end. injection E as <- <- <-.
  split; [apply wrap_range; lia|]. destruct (latest_of_type pos (view (g :: l))); [apply wrap_range; lia|].
  match goal with |- is_u128 (correct_difficulty_with_sequence_factor ?n _) => pose proof (corrected_range n d) end.
  unfold in_u in *. lia.
Qed.

Lemma get_tx_fee_median_blocks s m s' : get_tx_fee_median s = (Ok m, s') ->
  m_db_blocks s' = m_db_blocks s /\ m_db_blocks_index s' = m_db_blocks_index s.
Proof.
  unfold get_tx_fee_median. intros E. apply bind_ok in E as (bs & s1 & [<- <-]%read_ok & E).
  apply bind_ok in E as (i & s1 & [<- <-]%read_ok & E). apply bind_ok in E as ([] & s1 & E1 & E).
  assert (H1 : m_db_blocks s1 = m_db_blocks s /\ m_db_blocks_index s1 = m_db_blocks_index s).
  { destruct (negb _); [|by apply ret_ok in E1 as [_ <-]].
    apply bind_ok in E1 as (x & s2 & [_ <-]%lift_outcome_ok & E1). by apply update_ok in E1 as <-. }
  apply bind_ok in E as (m1 & s2 & [<- <-]%read_ok & E). apply bind_ok in E as (i1 & s2 & [<- <-]%read_ok & E).
  apply bind_ok in E as ([] & s2 & E2 & E). apply read_ok in E as [_ <-].
  destruct (_ =? 0); [by apply update_ok in E2 as <-|by apply ret_ok in E2 as [_ <-]].
Qed.

Lemma effective_tx_fee_median_blocks h s m s' : effective_tx_fee_median h s = (Ok m, s') ->
  m_db_blocks s' = m_db_blocks s /\ m_db_blocks_index s' = m_db_blocks_index s.
Proof.
  unfold effective_tx_fee_median. destruct (negb _); [apply get_tx_fee_median_blocks|].
  destruct (h =? 0); [by intros [_ <-]%ret_ok|]. intros E. apply bind_ok in E as (bs & s1 & [<- <-]%read_ok & E).
  apply bind_ok in E as (l & s1 & [_ <-]%lift_outcome_ok & E). by apply ret_ok in E as [_ <-].
Qed.

(** What the record of an accepted block says. *)
Lemma main_chain_entry_ok cfg bl id d proof size burned reward fee fees s e s' :
  main_chain_entry cfg bl id d proof size burned reward fee fees s = (Ok e, s') ->
  m_db_blocks s' = m_db_blocks s /\ m_db_blocks_index s' = m_db_blocks_index s /\ m_db_blocks_index s !! id = None /\
  bei_bl e = bl /\ bei_height e = Z.of_nat (List.length (m_db_blocks s)) /\ bei_difficulty e = d /\
  main_difficulties cfg (m_db_blocks s) (is_pos_block bl) d =
    Ret (Some (bei_cumulative_diff_adjusted e, bei_cumulative_diff_precise e, bei_cumulative_diff_precise_adjusted e)).
Proof.
  intros E. unfold main_chain_entry in E. apply bind_ok in E as (bs & s1 & [<- <-]%read_ok & E). cbv zeta in E.
  apply bind_ok in E as (o & s1 & [Ed <-]%lift_outcome_ok & E). apply bind_ok in E as ([[a p] pa] & s1 & [-> <-]%some_ok & E).
  apply bind_ok in E as ([] & s1 & [_ <-]%check_ok & E). apply bind_ok in E as (ix & s1 & [<- <-]%read_ok & E).
  apply bind_ok in E as ([] & s1 & [Hid <-]%check_ok & E). apply bind_ok in E as (m & s1 & Hm & E).
  apply effective_tx_fee_median_blocks in Hm as [H1 H2]. apply ret_ok in E as [<- <-]. cbn.
  repeat split; [done|done| |done]. apply negb_true_iff, bool_decide_eq_false in Hid. by apply eq_None_not_Some.
Qed.

Lemma chain_valid_snoc cfg bs e : bs <> [] -> chain_valid cfg bs -> Z.of_nat (List.length bs) + 1 < 2 ^ 64 ->
  bei_height e = Z.of_nat (List.length bs) -> 0 < bei_difficulty e ->
  difficulty_over cfg (bei_is_pos e) (view bs) (Z.of_nat (List.length bs)) = Ret (bei_difficulty e) ->
  is_u128 (bei_cumulative_diff_precise e) -> is_u128 (bei_cumulative_diff_precise_adjusted e) ->
  chain_valid cfg (bs ++ [e]).
Proof.
  intros Hbs [Hh Hw Hr Hd] Hw' He Hpos Hdiff Hp Hpa. split.
  - intros i b Hi. apply lookup_app_Some in Hi as [Hi|[Hl Hi]]; [by apply Hh|].
    apply list_lookup_singleton_Some in Hi as [Hi <-]. rewrite He. lia.
  - rewrite length_app. cbn. lia.
  - apply Forall_app. split; [done|]. by constructor.
  - intros i b Hi Hb. apply lookup_app_Some in Hb as [Hb|[Hl Hb]].
    + rewrite take_app_le by (apply lookup_lt_Some in Hb; lia). by apply Hd.
    + apply list_lookup_singleton_Some in Hb as [Hb <-]. replace i with (List.length bs) by lia.
      by rewrite take_app_length.
Qed.

Lemma push_block_record_blocks id e g s : m_db_blocks (push_block_record id e g s) = m_db_blocks s ++ [e].
Proof.
  unfold push_block_record, on_block_added, update_targetdata_cache_on_block_added. by destruct (bei_height e =? 0).
Qed.

(** C14: the records of the main chain stay right.  A block whose difficulty is
    the one [get_next_diff_conditional] demanded, recorded by
    [handle_block_to_main_chain] and added, leaves a chain in which every
    record has its index as height, cumulative difficulties within 128 bits,
    and the difficulty its predecessors demand. *)
Theorem accepted_block_keeps_chain_valid cfg bl id d proof size burned reward fee fees g s s1 e s2 :
  m_db_blocks s <> [] -> chain_valid cfg (m_db_blocks s) -> Z.of_nat (List.length (m_db_blocks s)) + 1 < 2 ^ 64 ->
  0 < d < 2 ^ 128 -> get_next_diff_conditional cfg (is_pos_block bl) s = (Ok d, s1) ->
  main_chain_entry cfg bl id d proof size burned reward fee fees s1 = (Ok e, s2) ->
  m_db_blocks (push_block_record id e g s2) = m_db_blocks s ++ [e] /\
  chain_valid cfg (m_db_blocks (push_block_record id e g s2)).
Proof.
  intros Hbs Hv Hw Hd E1 E2. destruct (get_next_diff_view cfg (is_pos_block bl) s Hbs) as (cache & Eg).
  rewrite Eg in E1. destruct (difficulty_over _ _ _ _) as [d'|] eqn:Ed; [|done]. injection E1 as -> <-.
  apply main_chain_entry_ok in E2 as (H1 & _ & _ & H2 & H3 & H4 & H5). cbn [m_db_blocks set_cached_next_difficulty set_targetdata_cache] in *.
  rewrite push_block_record_blocks, H1. split; [done|].
  assert (Hu : is_u128 d) by (split; lia).
  destruct (main_difficulties_ranges _ _ _ _ _ _ _ Hbs Hv Hu H5) as [R1 R2].
  apply chain_valid_snoc; try done; [lia|]. unfold bei_is_pos. by rewrite H2, H4.
Qed.

(** ** The containers agree with the blocks

    The id of each block, and no other, is mapped to its height, there are counts
    for exactly the heights of the chain ([GlobalIndexes] shows which), and a
    remembered median of timestamps is what a computation would give. *)

Record containers_ok (s : storage) : Prop := {
  co_heights : heights_ok (m_db_blocks s);
  co_size : Z.of_nat (List.length (m_db_blocks s)) < 2 ^ 32;
  co_index : forall (id : hash) (h : Z), m_db_blocks_index s !! id = Some h <->
    exists i b, h = Z.of_nat i /\ m_db_blocks s !! i = Some b /\ get_block_hash (bei_bl b) = id;
  co_incs : forall h : Z, is_Some (m_db_per_block_gindex_incs s !! h) <-> 0 <= h < Z.of_nat (List.length (m_db_blocks s));
  co_medians : forall (n : nat) (m : Z), m_timestamps_median_cache s !! Z.of_nat n = Some m ->
    m = median (get_last_n_blocks_timestamps (m_db_blocks s) n);
}.

Lemma targetdata_frame_added e s :
  m_db_blocks (on_block_added e s) = m_db_blocks s /\ m_db_blocks_index (on_block_added e s) = m_db_blocks_index s /\
  m_db_per_block_gindex_incs (on_block_added e s) = m_db_per_block_gindex_incs s /\
  m_timestamps_median_cache (on_block_added e s) = ∅.
Proof. unfold on_block_added, update_targetdata_cache_on_block_added. by destruct (bei_height e =? 0). Qed.

Lemma heights_ok_snoc bs e : heights_ok bs -> bei_height e = Z.of_nat (List.length bs) -> heights_ok (bs ++ [e]).
Proof.
  intros Hh He i b Hi. apply lookup_app_Some in Hi as [Hi|[Hl Hi]]; [by apply Hh|].
  apply list_lookup_singleton_Some in Hi as [Hi <-]. rewrite He. lia.
Qed.

Lemma push_containers_ok id e g s : containers_ok s -> Z.of_nat (List.length (m_db_blocks s)) + 1 < 2 ^ 32 ->
  bei_height e = Z.of_nat (List.length (m_db_blocks s)) -> get_block_hash (bei_bl e) = id ->
  m_db_blocks_index s !! id = None -> containers_ok (push_block_record id e g s).
Proof.
  intros [Hh Hw Hi Hc Hm] Hw' He Hid Hnew. unfold push_block_record.
  destruct (targetdata_frame_added e (with_blocks (m_db_blocks s ++ [e]) (<[id := bei_height e]> (m_db_blocks_index s))
    (push_block_to_per_block_increments (bei_height e) g (m_db_per_block_gindex_incs s)) s)) as (E1 & E2 & E3 & E4).
  cbn [with_blocks m_db_blocks m_db_blocks_index m_db_per_block_gindex_incs] in *.
  split; rewrite ?E1, ?E2, ?E3, ?E4, ?length_app; cbn [List.length].
  - by apply heights_ok_snoc.
  - lia.
  - intros id' h. destruct (decide (id = id')) as [<-|Hne].
    + rewrite lookup_insert_eq. split.
      * intros [= <-]. exists (List.length (m_db_blocks s)), e. split; [done|]. split; [|done].
        by rewrite lookup_app_r, Nat.sub_diag by lia.
      * intros (i & b & -> & Hb & Hbid). apply lookup_app_Some in Hb as [Hb|[Hl Hb]].
        { exfalso. assert (m_db_blocks_index s !! id = Some (Z.of_nat i)) by (apply Hi; by exists i, b). congruence. }
        apply list_lookup_singleton_Some in Hb as [Hb <-]. f_equal. lia.
    + rewrite lookup_insert_ne, Hi by done. split; intros (i & b & -> & Hb & Hbid); exists i, b; (split; [done|split; [|done]]).
      * by apply lookup_app_l_Some.
      * apply lookup_app_Some in Hb as [Hb|[Hl Hb]]; [done|].
        apply list_lookup_singleton_Some in Hb as [_ <-]. congruence.
  - intros h. unfold push_block_to_per_block_increments. rewrite wrap_small by (split; lia).
    destruct (decide (bei_height e = h)) as [<-|Hne].
    + rewrite lookup_insert_eq. split; [lia|by eexists].
    + rewrite lookup_insert_ne, Hc by done. lia.
  - intros n m. by rewrite lookup_empty.
Qed.

Lemma pop_block_record_eq bs e s : m_db_blocks s = bs ++ [e] -> bs <> [] ->
  pop_block_record s = (Ok tt, on_block_removed e (with_blocks bs (delete (get_block_hash (bei_bl e)) (m_db_blocks_index s))
    (pop_block_from_per_block_increments (bei_height e) (m_db_per_block_gindex_incs s)) s)).
Proof.
  intros Hs Hbs. pose proof (nonempty_length bs Hbs) as Hl. unfold pop_block_record.
  rewrite (bind_eq _ _ s (bs ++ [e]) s) by by rewrite <- Hs. rewrite length_app. cbn [List.length].
  replace (1 <? _)%nat with true by (symmetry; apply Nat.ltb_lt; lia).
  rewrite (bind_eq _ _ s tt s) by done. replace (List.length bs + 1 - 1)%nat with (List.length bs) by lia.
  rewrite (bind_eq _ _ s e s) by (unfold lift_outcome, block_at; by rewrite lookup_app_r, Nat.sub_diag by lia).
  unfold update. by rewrite take_app_length.
Qed.

Lemma pop_containers_ok bs e s : m_db_blocks s = bs ++ [e] -> bs <> [] -> containers_ok s ->
  containers_ok (snd (pop_block_record s)).
Proof.
  intros Hs Hbs [Hh Hw Hi Hc Hm]. rewrite (pop_block_record_eq bs e) by done. cbn [snd].
  unfold on_block_removed, update_targetdata_cache_on_block_removed. rewrite Hs in *.
  assert (He : bei_height e = Z.of_nat (List.length bs)) by (apply Hh; by rewrite lookup_app_r, Nat.sub_diag by lia).
  rewrite length_app in *. cbn [List.length] in *.
  split; cbn [m_db_blocks m_db_blocks_index m_db_per_block_gindex_incs m_timestamps_median_cache set_targetdata_cache
              set_timestamps_median_cache with_blocks].
  - by eapply heights_ok_prefix.
  - lia.
  - intros id h. rewrite lookup_delete_Some, Hi. split.
    + intros (Hne & i & b & -> & Hb & Hbid). exists i, b. split; [done|]. split; [|done].
      apply lookup_app_Some in Hb as [Hb|[Hl Hb]]; [done|]. apply list_lookup_singleton_Some in Hb as [_ <-]. congruence.
    + intros (i & b & -> & Hb & Hbid). split.
      * intros Heq. assert (E1 : m_db_blocks_index s !! id = Some (Z.of_nat i)).
        { apply Hi. exists i, b. split; [done|]. split; [by apply lookup_app_l_Some|done]. }
        assert (E2 : m_db_blocks_index s !! id = Some (Z.of_nat (List.length bs))).
        { apply Hi. exists (List.length bs), e. split; [done|]. split; [|done]. by rewrite lookup_app_r, Nat.sub_diag by lia. }
        apply lookup_lt_Some in Hb. assert (Z.of_nat i = Z.of_nat (List.length bs)) by congruence. lia.
      * exists i, b. split; [done|]. split; [by apply lookup_app_l_Some|done].
  - intros h. unfold pop_block_from_per_block_increments. rewrite wrap_small by (split; lia).
    rewrite lookup_delete_is_Some, Hc. lia.
  - intros n m. by rewrite lookup_empty.
Qed.

(** A query of the cached median answers as a fresh computation and keeps the
    cache right. *)
Lemma median_query_ok n s : containers_ok s ->
  exists s', get_last_n_blocks_timestamps_median n s =
    (Ok (median (get_last_n_blocks_timestamps (m_db_blocks s) n)), s') /\ containers_ok s' /\
    m_db_blocks s' = m_db_blocks s /\ m_db_per_block_gindex_incs s' = m_db_per_block_gindex_incs s.
Proof.
  intros Hc. unfold get_last_n_blocks_timestamps_median.
  rewrite (bind_eq _ _ s (m_timestamps_median_cache s) s) by done.
  destruct (m_timestamps_median_cache s !! Z.of_nat n) as [m|] eqn:E.
  { exists s. split; [|done]. by rewrite (co_medians s Hc n m E). }
  rewrite (bind_eq _ _ s (m_db_blocks s) s) by done. destruct (_ =? n)%nat.
  - eexists. split; [done|]. split; [|done]. destruct Hc as [H1 H2 H3 H4 H5]. split; try done.
    intros n' m. cbn [m_timestamps_median_cache set_timestamps_median_cache m_db_blocks].
    destruct (decide (n = n')) as [<-|Hne].
    + rewrite lookup_insert_eq. by intros [= <-].
    + rewrite lookup_insert_ne by lia. apply H5.
  - by exists s.
Qed.

(** ** Small chains *)

Definition demo_block_of (pos : bool) (timestamp : Z) : block := {|
  bl_header := {| bh_major_version := 3; bh_nonce := 0; bh_prev_id := key_of 1; bh_minor_version := 0;
                  bh_timestamp := timestamp; bh_flags := if pos then 1 else 0 |};
  bl_miner_tx := {|
    tx_prefix := {| tp_version := 2; tp_hardfork_id := 0;
                    tp_vin := in_gen 0 :: if pos then [in_zc (Build_txin_zc_input [] (key_of 7) [])] else [];
                    tp_extra := []; tp_vout := [] |};
    tx_attachment := []; tx_signatures := []; tx_proofs := [] |};
  bl_tx_hashes := [] |}.

Definition demo_record (pos : bool) (height timestamp work adjusted difficulty : Z) (stake_hash : hash) : block_extended_info := {|
  bei_bl := demo_block_of pos timestamp; bei_height := height; bei_block_cumulative_size := 0;
  bei_cumulative_diff_adjusted := 0; bei_cumulative_diff_precise := work;
  bei_cumulative_diff_precise_adjusted := adjusted; bei_difficulty := difficulty; bei_already_generated_coins := 0;
  bei_stake_hash := stake_hash; bei_version := 0; bei_this_block_tx_fee_median := 0; bei_effective_tx_fee_median := 0 |}.

Definition demo_network : network_config :=
  {| nc_hard_forks := replicate ZANO_HARDFORKS_TOTAL 0; nc_pos_minimum_heigh := 0 |}.

Definition storage_of (bs : list block_extended_info) : storage := {|
  m_db_blocks := bs; m_db_blocks_index := ∅; m_db_per_block_gindex_incs := ∅; m_db_current_block_cumul_sz_limit := 0;
  m_pos_targetdata_cache := []; m_pow_targetdata_cache := []; m_cached_next_pos_difficulty := 0;
  m_cached_next_pow_difficulty := 0; m_timestamps_median_cache := ∅;
  m_current_fee_median := 0; m_current_fee_median_effective_index := 0 |}.

Definition demo_genesis : block_extended_info := demo_record false 0 1000 1 1 1 [].
Definition demo_pow : block_extended_info := demo_record false 1 1100 1 1 1 [].
Definition demo_pos : block_extended_info := demo_record true 2 1150 1 1 1 (key_of 5).
Definition demo_other : block_extended_info := demo_record false 2 1190 2 2 1 [].


Example downward_walks_terminate_witness :
  (exists h, get_last_x_block_height true [demo_genesis; demo_pow] = Ret h /\ 0 <= h /\
     forall fuel, (2 < fuel)%nat -> [demo_genesis; demo_pow] <> [] ->
       last_x_loop fuel true [demo_genesis; demo_pow] 1 = Ret h).
Proof. apply (downward_walks_terminate [demo_genesis; demo_pow] true 5). done. Defined.

Lemma demo_chain_valid : chain_valid demo_network [demo_genesis; demo_pow].
Proof.
  split.
  - intros [|[|i]] b E; cbn in E; by simplify_eq.
  - done.
  - repeat constructor; by vm_compute.
  - intros [|[|i]] b Hi E; cbn in E; [lia| |done]. injection E as <-. by vm_compute.
Qed.

Example accepted_block_keeps_chain_valid_witness :
  exists e s2,
    main_chain_entry demo_network (demo_block_of true 1150) [1] 1 (key_of 5) 0 0 0 0 []
      (snd (get_next_diff_conditional demo_network true (storage_of [demo_genesis; demo_pow]))) = (Ok e, s2) /\
    m_db_blocks (push_block_record [1] e ∅ s2) = [demo_genesis; demo_pow; e] /\
    chain_valid demo_network (m_db_blocks (push_block_record [1] e ∅ s2)).
Proof.
  eexists _, _. split; [vm_compute; reflexivity|].
  eapply (accepted_block_keeps_chain_valid demo_network (demo_block_of true 1150) [1] 1 (key_of 5) 0 0 0 0 [] ∅
            (storage_of [demo_genesis; demo_pow]));
    [done|exact demo_chain_valid|done|done|vm_compute; reflexivity|vm_compute; reflexivity].
Defined.

Definition demo_storage : storage :=
  with_blocks [demo_genesis] {[ get_block_hash (bei_bl demo_genesis) := 0 ]} {[ 0 := ∅ ]} (storage_of []).

(** ** What is remembered too long

    The size limit of the next block is computed when a block is added, and
    not when one is removed. *)
Definition demo_big : block_extended_info := {|
  bei_bl := bei_bl demo_pow; bei_height := 1; bei_block_cumulative_size := 900000;
  bei_cumulative_diff_adjusted := 0; bei_cumulative_diff_precise := 1; bei_cumulative_diff_precise_adjusted := 1;
  bei_difficulty := 1; bei_already_generated_coins := 0; bei_stake_hash := []; bei_version := 0;
  bei_this_block_tx_fee_median := 0; bei_effective_tx_fee_median := 0 |}.

Example size_limit_outlives_block :
  let s := push_block_record [1] demo_big ∅ (update_next_comulative_size_limit demo_storage) in
  m_db_current_block_cumul_sz_limit (update_next_comulative_size_limit demo_storage) = 250000 /\
  exists s', pop_block_record s = (Ok tt, s') /\ m_db_blocks s' = m_db_blocks demo_storage /\
    m_db_current_block_cumul_sz_limit s' = 900000.
Proof. split; [by vm_compute|]. eexists. split; [vm_compute; reflexivity|]. by vm_compute. Qed.

(** The median fee in force is remembered by the index of the block it comes
    from: it is not read again when another block takes that index. *)
Definition day_chain (last_median : Z) : list block_extended_info :=
  replicate 1440 demo_genesis ++
  [{| bei_bl := bei_bl demo_pow; bei_height := 1440; bei_block_cumulative_size := 0; bei_cumulative_diff_adjusted := 0;
      bei_cumulative_diff_precise := 1; bei_cumulative_diff_precise_adjusted := 1; bei_difficulty := 1;
      bei_already_generated_coins := 0; bei_stake_hash := []; bei_version := 0; bei_this_block_tx_fee_median := 0;
      bei_effective_tx_fee_median := last_median |}; demo_genesis].

(** The median is asked for on a chain whose block 1440 has the median 70; the
    two latest blocks are replaced by others, of median 90. *)
Example fee_median_outlives_block :
  let s := snd (get_tx_fee_median (storage_of (day_chain 70))) in
  let replaced := with_blocks (day_chain 90) (m_db_blocks_index s) (m_db_per_block_gindex_incs s) s in
  fst (get_tx_fee_median (storage_of (day_chain 90))) = Ok 90 /\ fst (get_tx_fee_median replaced) = Ok 70.
Proof. by vm_compute. Qed.
