(* ===== verification/GlobalIndexes.v ===== *)
(** * The global indexes of the outputs along the chain:
    [src/src/currency_core/blockchain_storage.cpp]

    The number of outputs each block adds per amount, kept by height, and
    [calculate_local_gindex_lookup_table_for_height], which recovers from these
    numbers the global indexes at an earlier height: the inputs of an alternative
    block are checked with it.  The two parts of the blockchain, the block records
    ([Blocks]) and the containers of the transactions ([Chain]), are followed
    together, block by block. *)

From S2P Require Import Prelude Config HardForks Archive Keccak Pod CryptoTypes Basic Transactions BlockId HfTerms TxSemantic StateM DbArrays Gateway Assets Aliases TxHardforks Chain ChainSpec ChainUndo Blocks.

(** ** The numbers of a block *)

(** [handle_block_to_main_chain] counts the miner transaction first, then the
    others. *)
Definition block_increments (txs : list transaction) : gmap Z Z :=
  fold_left (fun gindices tx => append_per_block_increments_for_tx tx gindices) txs ∅.

Definition record_block (id : hash) (bei : block_extended_info) (txs : list transaction) (s : storage) : storage :=
  push_block_record id bei (block_increments txs) s.

(** [for (auto& el : p->increments) gindexes[el.amount] += el.increment]. *)
Definition add_increments (increments : gmap Z Z) (gindexes : gmap Z Z) : gmap Z Z :=
  fold_left (fun (gindexes : gmap Z Z) '(amount, increment) => <[amount := u64 (default 0 (gindexes !! amount) + increment)]> gindexes)
    (map_to_list increments) gindexes.

(** [while (h <= top_block_height)]: a missing record throws. *)
Fixpoint sum_increments (fuel : nat) (top h : Z) (incs : gmap Z (gmap Z Z)) (gindexes : gmap Z Z) : outcome (gmap Z Z) :=
  match fuel with
  | O => Throw
  | S fuel =>
      if h <=? top then
        match incs !! u32 h with
        | None => Throw
        | Some p => sum_increments fuel top (u64 (h + 1)) incs (add_increments p gindexes)
        end
      else Ret gindexes
  end.

(** From the numbers of outputs to the indexes: [get_item_size] is the number of
    outputs of an amount in the main chain. *)
Definition translate_totals (get_item_size : Z -> Z) (gindexes : gmap Z Z) : outcome (gmap Z Z) :=
  if forallb (fun '(amount, n) => n <=? get_item_size amount) (map_to_list gindexes)
  then Ret (map_imap (fun amount n => Some (get_item_size amount - n)) gindexes)
  else Throw.

Section gindexes.
Context {TO TG : Type} {AO : ArrayStore Z global_output_entry TO} {SV : i_bc_service}.

Definition calculate_local_gindex_lookup_table_for_height (height : Z) (s : storage) (c : chain TO TG service)
    : outcome (gmap Z Z) :=
  if negb (Nat.eqb (base.size (m_db_per_block_gindex_incs s)) (List.length (m_db_blocks s))) then Throw
  else
    let top_block_height := u64 (Z.of_nat (List.length (m_db_blocks s)) - 1) in
    gindexes ← sum_increments (S (S (List.length (m_db_blocks s)))) top_block_height height (m_db_per_block_gindex_incs s) ∅;
    translate_totals (arr_size (m_db_outputs c)) gindexes.

End gindexes.

(** ** What is counted *)

(** The outputs that get a global index of the amount. *)
Definition counted (a : Z) (o : tx_out_v) : bool :=
  match o with
  | out_bare b => match ob_target b with target_to_key _ => ob_amount b =? a | target_multisig _ => false end
  | out_zarcanum _ => 0 =? a
  | out_gateway _ => false
  end.
Definition counted_in (a : Z) (outs : list tx_out_v) : nat := List.length (filter (fun o => counted a o = true) outs).
Definition count_outputs (a : Z) (txs : list transaction) : nat := counted_in a (txs ≫= (fun tx => vout tx)).

Definition table_entry (n : nat) : option Z := if (n =? 0)%nat then None else Some (Z.of_nat n).

Lemma count_in_cons a o outs : counted_in a (o :: outs) = ((if counted a o then 1 else 0) + counted_in a outs)%nat.
Proof. unfold counted_in. destruct (counted a o) eqn:E; [rewrite filter_cons_True by done|rewrite filter_cons_False by congruence]; done. Qed.

Lemma count_in_app a l l' : counted_in a (l ++ l') = (counted_in a l + counted_in a l')%nat.
Proof. unfold counted_in. by rewrite filter_app, length_app. Qed.

Lemma count_outputs_app a l l' : count_outputs a (l ++ l') = (count_outputs a l + count_outputs a l')%nat.
Proof. unfold count_outputs. by rewrite bind_app, count_in_app. Qed.

Lemma count_outputs_cons a tx l : count_outputs a (tx :: l) = (counted_in a (vout tx) + count_outputs a l)%nat.
Proof. unfold count_outputs. by rewrite bind_cons, count_in_app. Qed.

(** The index of the outputs grows by as many entries as are counted. *)
Lemma new_entries_count (tx_id : hash) i outs a : List.length (new_entries tx_id i outs a) = counted_in a outs.
Proof.
  revert i. induction outs as [|o outs IH]; intros i; [done|]. cbn [new_entries]. rewrite length_app, IH, count_in_cons. f_equal.
  unfold entry_at, out_entry, counted. destruct o as [b|z|g]; [destruct (ob_target b)| |]; try done;
    match goal with |- context [decide (?x = ?y)] => destruct (decide (x = y)) as [E|E] end;
    try (rewrite (proj2 (Z.eqb_eq _ _)) by done); try (rewrite (proj2 (Z.eqb_neq _ _)) by done); done.
Qed.

Definition increment (amount : Z) (gindices : gmap Z Z) : gmap Z Z :=
  <[amount := u32 (default 0 (gindices !! amount) + 1)]> gindices.

Lemma increment_ok (g : gmap Z Z) n amount a : g !! a = table_entry (n a) -> g !! amount = table_entry (n amount) -> Z.of_nat (n amount) + 1 < 2 ^ 32 ->
  increment amount g !! a = table_entry ((if (amount =? a)%Z then 1 else 0) + n a)%nat.
Proof.
  intros Ha Hamount Hb. unfold increment. destruct (Z.eqb_spec amount a) as [->|Hne].
  - rewrite lookup_insert_eq, Ha. unfold table_entry. destruct (n a) as [|k] eqn:E; cbn [default Nat.eqb Nat.add]; [done|].
    unfold id. rewrite wrap_small by (split; lia). f_equal. lia.
  - by rewrite lookup_insert_ne.
Qed.

Lemma append_increments_ok tx g n : (forall a, g !! a = table_entry (n a)) ->
  (forall a, Z.of_nat (n a + counted_in a (vout tx)) < 2 ^ 32) ->
  forall a, append_per_block_increments_for_tx tx g !! a = table_entry (n a + counted_in a (vout tx)).
Proof.
  unfold append_per_block_increments_for_tx. generalize (vout tx) as outs. intros outs. revert g n.
  induction outs as [|o outs IH]; intros g n Hg Hb a; [cbn; by rewrite Nat.add_0_r|]. cbn [fold_left].
  rewrite (IH _ (fun a => (if counted a o then 1 else 0) + n a)%nat).
  - rewrite count_in_cons. f_equal. lia.
  - intros a'.
    assert (Hc : forall x, counted x o = true -> Z.of_nat (n x) + 1 < 2 ^ 32)
      by (intros x Hx; specialize (Hb x); rewrite count_in_cons, Hx in Hb; lia).
    destruct o as [b|z|w]; cbn [counted] in *; [destruct (ob_target b)| |]; try apply Hg; apply increment_ok; auto; apply Hc; apply Z.eqb_refl.
  - intros a'. specialize (Hb a'). rewrite count_in_cons in Hb. destruct (counted a' o); lia.
Qed.

(** Fewer outputs of each amount than the 32 bits of a count hold. *)
Definition counts_fit (txs : list transaction) : Prop := forall a, Z.of_nat (count_outputs a txs) < 2 ^ 32.

Lemma block_increments_ok txs a : counts_fit txs -> block_increments txs !! a = table_entry (count_outputs a txs).
Proof.
  intros Hb. unfold block_increments.
  assert (H : forall l g n, (forall a, g !! a = table_entry (n a)) -> (forall a, Z.of_nat (n a + count_outputs a l) < 2 ^ 32) ->
    fold_left (fun gindices tx => append_per_block_increments_for_tx tx gindices) l g !! a = table_entry (n a + count_outputs a l)).
  { induction l as [|tx l IH]; intros g n Hg Hl; cbn [fold_left]; [by rewrite Hg, Nat.add_0_r|].
    rewrite (IH _ (fun a => n a + counted_in a (vout tx))%nat).
    - rewrite count_outputs_cons. f_equal. lia.
    - apply append_increments_ok; [done|]. intros a'. specialize (Hl a'). rewrite count_outputs_cons in Hl. lia.
    - intros a'. specialize (Hl a'). rewrite count_outputs_cons in Hl. lia. }
  apply (H txs ∅ (fun _ => 0%nat)); [intros a'; apply lookup_empty|exact Hb].
Qed.

(** ** The sums *)

Lemma add_increments_ok p g n m : (forall a, p !! a = table_entry (m a)) -> (forall a, g !! a = table_entry (n a)) ->
  (forall a, Z.of_nat (n a + m a) < 2 ^ 64) -> forall a, add_increments p g !! a = table_entry (n a + m a).
Proof.
  intros Hp Hg Hb a. unfold add_increments.
  assert (H : forall (l : list (Z * Z)) (g : gmap Z Z), NoDup l.*1 ->
    fold_left (fun (gindexes : gmap Z Z) '(amount, increment) => <[amount := u64 (default 0 (gindexes !! amount) + increment)]> gindexes) l g !! a =
    match list_to_map (M := gmap Z Z) l !! a with Some i => Some (u64 (default 0 (g !! a) + i)) | None => g !! a end).
  { clear. induction l as [|[b i] l IH]; intros g Hn; cbn [fold_left]; [by rewrite list_to_map_nil, lookup_empty|].
    apply NoDup_cons in Hn as [Hb Hn]. rewrite IH by done. rewrite list_to_map_cons. cbn [fst snd]. destruct (decide (b = a)) as [->|Hne].
    - rewrite lookup_insert_eq. rewrite not_elem_of_list_to_map_1 by done. by rewrite lookup_insert_eq.
    - by rewrite !lookup_insert_ne. }
  rewrite H by apply NoDup_fst_map_to_list. rewrite list_to_map_to_list, Hp, Hg. unfold table_entry. specialize (Hb a).
  destruct (m a) as [|k] eqn:Em; cbn [Nat.eqb]; [by rewrite Nat.add_0_r|]. rewrite Nat.add_succ_r. cbn [Nat.eqb]. f_equal.
  destruct (n a) as [|j]; cbn [Nat.eqb default from_option]; unfold id; rewrite wrap_small by (split; lia); lia.
Qed.

(** The loop from [h] on, over the blocks that are left. *)
Lemma sum_increments_ok (incs : gmap Z (gmap Z Z)) (blocks : list (list transaction)) rest h fuel g n :
  (forall i txs, blocks !! i = Some txs -> incs !! Z.of_nat i = Some (block_increments txs)) ->
  rest = drop h blocks -> Z.of_nat (List.length blocks) < 2 ^ 32 -> (h <= List.length blocks)%nat -> (List.length rest < fuel)%nat ->
  Forall counts_fit blocks -> (forall a, g !! a = table_entry (n a)) -> (forall a, Z.of_nat (n a + count_outputs a (concat rest)) < 2 ^ 64) ->
  exists g', sum_increments fuel (Z.of_nat (List.length blocks) - 1) (Z.of_nat h) incs g = Ret g' /\
    forall a, g' !! a = table_entry (n a + count_outputs a (concat rest)).
Proof.
  intros Hincs. revert h fuel g n. induction rest as [|txs rest IH]; intros h fuel g n Er Hl Hh Hf Hfit Hg Hb.
  - destruct fuel as [|fuel]; [cbn in Hf; lia|]. cbn [sum_increments].
    assert (E : h = List.length blocks) by (assert (E := length_drop blocks h); rewrite <- Er in E; cbn in E; lia).
    rewrite (proj2 (Z.leb_gt _ _)) by lia. exists g. split; [done|]. intros a. by rewrite Hg, Nat.add_0_r.
  - destruct fuel as [|fuel]; [cbn in Hf; lia|]. cbn [sum_increments].
    assert (Ei : blocks !! h = Some txs) by (rewrite <- (Nat.add_0_r h), <- lookup_drop, <- Er; done).
    assert (Er' : rest = drop (S h) blocks) by (change (rest = drop (S h) blocks); rewrite <- Nat.add_1_r, <- drop_drop, <- Er; done).
    pose proof (lookup_lt_Some _ _ _ Ei) as Hlt.
    rewrite (proj2 (Z.leb_le _ _)) by lia. rewrite wrap_small by (split; lia). rewrite (Hincs h txs Ei).
    rewrite wrap_small by (split; lia). replace (Z.of_nat h + 1) with (Z.of_nat (S h)) by lia.
    pose proof (Forall_lookup_1 _ _ _ _ Hfit Ei) as Ht. cbn [concat] in Hb.
    destruct (IH (S h) fuel (add_increments (block_increments txs) g) (fun a => n a + count_outputs a txs)%nat) as (g' & E & Hg'); try done.
    + cbn in Hf. lia.
    + apply add_increments_ok; [intros a; by apply block_increments_ok|done|].
      intros a. specialize (Hb a). rewrite count_outputs_app in Hb. lia.
    + intros a. specialize (Hb a). rewrite count_outputs_app in Hb. lia.
    + exists g'. split; [exact E|]. intros a. rewrite Hg'. cbn [concat]. rewrite count_outputs_app. f_equal. lia.
Qed.

(** The indexes that the amounts of the later blocks had before them. *)
Definition index_at (before after : list (list transaction)) (a : Z) : option Z :=
  if (count_outputs a (concat after) =? 0)%nat then None else Some (Z.of_nat (count_outputs a (concat before))).

Lemma translate_totals_ok get_item_size g before after :
  (forall a, g !! a = table_entry (count_outputs a (concat after))) ->
  (forall a, get_item_size a = Z.of_nat (count_outputs a (concat (before ++ after)))) ->
  exists t, translate_totals get_item_size g = Ret t /\ forall a, t !! a = index_at before after a.
Proof.
  intros Hg Hs. unfold translate_totals.
  assert (Hall : forallb (fun '(amount, n) => n <=? get_item_size amount) (map_to_list g) = true).
  { apply forallb_forall. intros [a n] Hin%list_elem_of_In%elem_of_map_to_list. rewrite Hg in Hin. unfold table_entry in Hin.
    destruct (_ =? 0)%nat; [done|]. injection Hin as <-. rewrite Hs, concat_app, count_outputs_app. apply Z.leb_le. lia. }
  rewrite Hall. eexists. split; [done|]. intros a. rewrite map_lookup_imap, Hg. unfold table_entry, index_at.
  destruct (_ =? 0)%nat; [done|]. cbn. rewrite Hs, concat_app, count_outputs_app. f_equal. lia.
Qed.

(** ** The main chain, block by block *)

Section main_chain.
Context `{GatewayCrypto, AssetCrypto, i_bc_service}.
Context {TO TG : Type} {AO : ArrayStore Z global_output_entry TO} {AG : ArrayStore gateway_address_id_type hash TG}.
Context (hard_forks : hard_forks_descriptor) (alias_validation_pubkey : public_key).
Abbreviation txs_containers := (chain TO TG service).
Implicit Types (s : storage) (c : txs_containers).

(** A record and the transactions of its block, with the identifiers they are
    stored under, the miner transaction first. *)
Definition block_matches (b : block_extended_info) (l : list (transaction * hash)) : Prop :=
  exists miner l', l = miner :: l' /\ bl_miner_tx (bei_bl b) = fst miner /\ bl_tx_hashes (bei_bl b) = map snd l'.

(** The states of the main chain with the blocks they hold, latest first: from
    empty containers, blocks are added whose transactions are all accepted, the
    latest block is removed, and medians are asked for. *)
Inductive main_chain : list (list (transaction * hash)) -> storage -> txs_containers -> Prop :=
| chain_empty s c :
    m_db_blocks s = [] -> m_db_blocks_index s = ∅ -> m_db_per_block_gindex_incs s = ∅ -> m_timestamps_median_cache s = ∅ ->
    chain_wf c -> (forall a, outputs_of c a = []) -> main_chain [] s c
| chain_add hist s c l e c' :
    main_chain hist s c -> block_matches e l -> accepts_all hard_forks alias_validation_pubkey l c c' -> counts_fit (map fst l) ->
    bei_height e = Z.of_nat (List.length (m_db_blocks s)) -> Z.of_nat (List.length (m_db_blocks s)) + 1 < 2 ^ 32 ->
    m_db_blocks_index s !! get_block_hash (bei_bl e) = None ->
    main_chain (l :: hist) (record_block (get_block_hash (bei_bl e)) e (map fst l) s) c'
| chain_remove hist miner l e s c s' c' blocks_size r :
    main_chain ((miner :: l) :: hist) s c -> last (m_db_blocks s) = Some e ->
    purge_block_data_from_blockchain hard_forks blocks_size (bl_tx_hashes (bei_bl e)) (snd miner) (List.length (bl_tx_hashes (bei_bl e))) c = (r, c') ->
    pop_block_record s = (Ok tt, s') -> main_chain hist s' c'
| chain_median hist s c n r s' :
    main_chain hist s c -> get_last_n_blocks_timestamps_median n s = (r, s') -> main_chain hist s' c.

(** The transactions of the blocks by height. *)
Definition blocks_of (hist : list (list (transaction * hash))) : list (list transaction) := rev (map (map fst) hist).

(** The containers of the transactions stand for those that adding the blocks
    gives. *)
Fixpoint stacked_blocks (hist : list (list (transaction * hash))) (c : txs_containers) : Prop :=
  match hist with
  | [] => chain_wf c /\ forall a, outputs_of c a = []
  | l :: hist => exists c0 c1, stacked_blocks hist c0 /\ accepts_all hard_forks alias_validation_pubkey l c0 c1 /\ like c1 c
  end.

Record main_inv (hist : list (list (transaction * hash))) s c : Prop := {
  mi_containers : containers_ok s;
  mi_records : Forall2 block_matches (m_db_blocks s) (rev hist);
  mi_incs i txs : blocks_of hist !! i = Some txs -> m_db_per_block_gindex_incs s !! Z.of_nat i = Some (block_increments txs);
  mi_fit : Forall counts_fit (blocks_of hist);
  mi_stacked : stacked_blocks hist c
}.

Lemma accepts_all_outputs l c c' a : chain_wf c -> accepts_all hard_forks alias_validation_pubkey l c c' ->
  List.length (outputs_of c' a) = (List.length (outputs_of c a) + count_outputs a (map fst l))%nat /\
  (Z.of_nat (List.length (outputs_of c a)) < 2 ^ 64 -> Z.of_nat (List.length (outputs_of c' a)) < 2 ^ 64).
Proof.
  intros Hwf Hall. induction Hall as [c|expm feem tx tx_id bl_id h ts l c c1 c' [Htx Hroom Hf _ _ Hrun] _ IH]; [split; [cbn; lia|done]|].
  apply add_transaction_ok in Hrun as Ha; [|done..]. destruct (IH (added_wf _ _ _ _ _ _ _ _ _ Ha)) as [-> IHb].
  pose proof (room_outputs _ _ Hroom a) as Hr. rewrite (added_outputs _ _ _ _ _ _ _ _ _ Ha), length_app, new_entries_count in *.
  cbn [map fst]. rewrite count_outputs_cons. split; [lia|]. intros _. apply IHb.
  pose proof (length_filter (fun o => counted a o = true) (vout tx)) as Hle. unfold counted_in. lia.
Qed.

Lemma stacked_blocks_ok hist c : stacked_blocks hist c -> chain_wf c /\
  forall a, List.length (outputs_of c a) = count_outputs a (concat (blocks_of hist)) /\ Z.of_nat (List.length (outputs_of c a)) < 2 ^ 64.
Proof.
  revert c. induction hist as [|l hist IH]; intros c Hs; cbn in Hs.
  - destruct Hs as [Hwf Ho]. split; [done|]. intros a. by rewrite Ho.
  - destruct Hs as (c0 & c1 & Hs & Hall & Hl). apply IH in Hs as [Hwf Hs].
    pose proof (accepts_all_wf _ _ _ _ _ Hwf Hall) as Hwf1. split; [by eapply like_wf|]. intros a. destruct (Hs a) as [E Hb].
    destruct (accepts_all_outputs l c0 c1 a Hwf Hall) as [E1 Hb1]. rewrite (equiv_outputs _ _ (like_equiv _ _ Hl)).
    split; [|by apply Hb1]. rewrite E1, E. unfold blocks_of. cbn [map rev]. rewrite concat_app, count_outputs_app. cbn [concat]. by rewrite app_nil_r.
Qed.

Lemma stacked_blocks_like hist c c' : stacked_blocks hist c -> like c c' -> stacked_blocks hist c'.
Proof.
  intros Hs Hl. destruct hist as [|l hist]; cbn in *.
  - destruct Hs as [Hwf Ho]. split; [by eapply like_wf|]. intros a. by rewrite (equiv_outputs _ _ (like_equiv _ _ Hl)).
  - destruct Hs as (c0 & c1 & ? & ? & ?). exists c0, c1. split; [done|]. split; [done|]. by eapply like_trans.
Qed.

Lemma record_block_incs id e txs s : m_db_per_block_gindex_incs (record_block id e txs s) =
  <[u32 (bei_height e) := block_increments txs]> (m_db_per_block_gindex_incs s).
Proof.
  unfold record_block, push_block_record.
  destruct (targetdata_frame_added e (with_blocks (m_db_blocks s ++ [e]) (<[id := bei_height e]> (m_db_blocks_index s))
    (push_block_to_per_block_increments (bei_height e) (block_increments txs) (m_db_per_block_gindex_incs s)) s)) as (_ & _ & E & _).
  rewrite E. done.
Qed.

Lemma main_inv_length hist s c : main_inv hist s c -> List.length (m_db_blocks s) = List.length (blocks_of hist).
Proof. intros Hi. rewrite (Forall2_length _ _ _ (mi_records _ _ _ Hi)). unfold blocks_of. by rewrite !length_rev, length_map. Qed.

Lemma main_inv_add hist s c l e c' : main_inv hist s c -> block_matches e l ->
  accepts_all hard_forks alias_validation_pubkey l c c' -> counts_fit (map fst l) ->
  bei_height e = Z.of_nat (List.length (m_db_blocks s)) -> Z.of_nat (List.length (m_db_blocks s)) + 1 < 2 ^ 32 ->
  m_db_blocks_index s !! get_block_hash (bei_bl e) = None ->
  main_inv (l :: hist) (record_block (get_block_hash (bei_bl e)) e (map fst l) s) c'.
Proof.
  intros Hi Hm Hall Hfit He Hl Hnew. pose proof (main_inv_length _ _ _ Hi) as Hlen. destruct (stacked_blocks_ok _ _ (mi_stacked _ _ _ Hi)) as [Hwf _].
  constructor.
  - by apply push_containers_ok; [apply Hi|..].
  - unfold record_block. rewrite push_block_record_blocks. cbn [rev]. apply Forall2_app; [apply Hi|]. by constructor.
  - intros i txs. unfold blocks_of. cbn [map rev]. fold (blocks_of hist). rewrite record_block_incs, He, wrap_small by (split; lia).
    intros [E|[Hge E]]%lookup_app_Some.
    + rewrite lookup_insert_ne; [by apply Hi|]. apply lookup_lt_Some in E. lia.
    + apply list_lookup_singleton_Some in E as [E <-]. replace (Z.of_nat i) with (Z.of_nat (List.length (m_db_blocks s))) by lia.
      by rewrite lookup_insert_eq.
  - unfold blocks_of. cbn [map rev]. apply Forall_app. split; [apply Hi|]. by constructor.
  - exists c, c'. split; [apply Hi|]. split; [done|]. apply like_refl. by eapply accepts_all_wf.
Qed.

Lemma main_inv_remove hist miner l e s c s' c' blocks_size r : service_law -> main_inv ((miner :: l) :: hist) s c ->
  last (m_db_blocks s) = Some e ->
  purge_block_data_from_blockchain hard_forks blocks_size (bl_tx_hashes (bei_bl e)) (snd miner) (List.length (bl_tx_hashes (bei_bl e))) c = (r, c') ->
  pop_block_record s = (Ok tt, s') -> main_inv hist s' c'.
Proof.
  intros Hlaw [Hc Hr Hn Hf Hs] He Hp Hpop. cbn [rev] in Hr. apply Forall2_app_inv_r in Hr as (bs & bs' & Hr & Hr' & Eb).
  apply Forall2_cons_inv_r in Hr' as (e' & bs'' & Hm & Hnil & ->). apply Forall2_nil_inv_r in Hnil as ->.
  rewrite Eb, last_snoc in He. injection He as ->. destruct Hm as (miner' & l' & [= <- <-] & _ & Eh).
  cbn [stacked_blocks] in Hs. destruct Hs as (c0 & c1 & Hs & Hall & Hl). destruct (stacked_blocks_ok _ _ Hs) as [Hwf _].
  destruct (purge_block_restores hard_forks alias_validation_pubkey blocks_size miner l c0 c1 c Hlaw Hwf Hall Hl) as (c2 & E & Hl2).
  rewrite Eh, length_map, E in Hp. injection Hp as _ <-.
  destruct (decide (bs = [])) as [->|Hbs].
  { exfalso. unfold pop_block_record in Hpop. rewrite (bind_eq (read _) _ s _ _ eq_refl), Eb in Hpop. done. }
  pose proof (pop_containers_ok bs e s Eb Hbs Hc) as Hc'. rewrite (pop_block_record_eq bs e s Eb Hbs) in Hpop, Hc'. injection Hpop as <-. cbn [snd] in Hc'.
  constructor; [done|done| | |by eapply stacked_blocks_like].
  - intros i txs E1. unfold on_block_removed, update_targetdata_cache_on_block_removed.
    cbn [set_targetdata_cache set_timestamps_median_cache with_blocks m_db_per_block_gindex_incs].
    assert (Elen : List.length bs = List.length (blocks_of hist)).
    { rewrite (Forall2_length _ _ _ Hr). unfold blocks_of. by rewrite !length_rev, length_map. }
    assert (Hb : bei_height e = Z.of_nat (List.length bs)) by (apply (co_heights _ Hc); rewrite Eb, lookup_app_r, Nat.sub_diag by lia; done).
    pose proof (co_size _ Hc) as Hsz. rewrite Eb, length_app in Hsz. cbn in Hsz.
    unfold pop_block_from_per_block_increments. rewrite Hb, wrap_small by (split; lia). pose proof (lookup_lt_Some _ _ _ E1).
    rewrite lookup_delete_ne by lia. apply Hn. unfold blocks_of. cbn [map rev]. by apply lookup_app_l_Some.
  - unfold blocks_of in Hf. cbn [map rev] in Hf. by apply Forall_app in Hf as [? _].
Qed.

Lemma main_chain_inv hist s c : service_law -> main_chain hist s c -> main_inv hist s c.
Proof.
  intros Hlaw. induction 1 as [s c E1 E2 E3 E4 Hwf Ho|hist s c l e c' _ IH Hm Hall Hfit He Hl Hnew|hist miner l e s c s' c' bs r _ IH Hlast Hp Hpop|hist s c n r s' _ IH Hq].
  - constructor; [|rewrite E1; exact (List.Forall2_nil _)|by intros i txs|constructor|by split].
    split; rewrite ?E1, ?E2, ?E3, ?E4; cbn.
    + by intros i b.
    + lia.
    + intros id h. rewrite lookup_empty. split; [done|]. by intros (i & b & _ & ? & _).
    + intros h. rewrite lookup_empty. split; [by intros []|lia].
    + intros n m. by rewrite lookup_empty.
  - by apply main_inv_add with c.
  - by eapply main_inv_remove.
  - destruct (median_query_ok n s (mi_containers _ _ _ IH)) as (s2 & E & Hc & Eb & Ei). rewrite Hq in E. injection E as _ ->.
    destruct IH as [_ Hr Hn Hf Hs]. constructor; [done|by rewrite Eb|by rewrite Ei|done|done].
Qed.

(** The keys of the counts are the heights. *)
Lemma increments_size s : containers_ok s -> base.size (m_db_per_block_gindex_incs s) = List.length (m_db_blocks s).
Proof.
  intros Hc. rewrite <- size_dom. set (n := List.length (m_db_blocks s)).
  assert (E : dom (m_db_per_block_gindex_incs s) = list_to_set (C := gset Z) (Z.of_nat <$> seq 0 n)).
  { apply set_eq. intros h. rewrite elem_of_dom, (co_incs s Hc), elem_of_list_to_set, list_elem_of_fmap. fold n. split.
    - intros [? ?]. exists (Z.to_nat h). split; [lia|]. apply elem_of_seq. lia.
    - intros (i & -> & Hi%elem_of_seq). lia. }
  rewrite E, size_list_to_set; [by rewrite length_fmap, length_seq|]. apply NoDup_fmap; [apply _|apply NoDup_seq].
Qed.

(** C33: in every state that adding and removing blocks leads to, the index of the
    blocks and the remembered medians of timestamps agree with the blocks
    ([containers_ok]); the counts stored for a height are those of the
    transactions of the block at that height; the index of the outputs holds, for
    each amount, as many outputs as the blocks have; and
    [calculate_local_gindex_lookup_table_for_height] does not throw and gives,
    for every height and every amount of which the blocks from that height on have
    outputs, the number of outputs the blocks below have, which is the global
    index the first of them received, and no entry for the other amounts. *)
Theorem global_index_table_correct hist s c height : service_law -> main_chain hist s c -> hist <> [] ->
  (height <= List.length hist)%nat ->
  containers_ok s /\
  (forall i txs, blocks_of hist !! i = Some txs -> m_db_per_block_gindex_incs s !! Z.of_nat i = Some (block_increments txs) /\
     forall a, block_increments txs !! a = table_entry (count_outputs a txs)) /\
  (forall a, arr_size (m_db_outputs c) a = Z.of_nat (count_outputs a (concat (blocks_of hist)))) /\
  exists t, calculate_local_gindex_lookup_table_for_height (Z.of_nat height) s c = Ret t /\
    forall a, t !! a = index_at (take height (blocks_of hist)) (drop height (blocks_of hist)) a.
Proof.
  intros Hlaw Hm Hne Hh. pose proof (main_chain_inv _ _ _ Hlaw Hm) as Hi. pose proof (main_inv_length _ _ _ Hi) as Hlen.
  destruct (stacked_blocks_ok _ _ (mi_stacked _ _ _ Hi)) as [Hwf Ho]. pose proof (co_size s (mi_containers _ _ _ Hi)) as Hsz.
  assert (Hbl : List.length (blocks_of hist) = List.length hist) by (unfold blocks_of; by rewrite length_rev, length_map).
  assert (Hsize : forall a, arr_size (m_db_outputs c) a = Z.of_nat (count_outputs a (concat (blocks_of hist)))).
  { intros a. rewrite arr_size_ok by apply Hwf. f_equal. apply Ho. }
  split; [apply Hi|]. split.
  { intros i txs E. split; [by apply Hi|]. intros a. apply block_increments_ok. eapply Forall_lookup_1; [apply Hi|exact E]. }
  split; [exact Hsize|]. unfold calculate_local_gindex_lookup_table_for_height.
  rewrite increments_size, Nat.eqb_refl by apply Hi. cbn [negb]. cbn zeta.
  assert (0 < List.length hist)%nat by (destruct hist; [done|cbn; lia]). rewrite wrap_small by (split; lia). rewrite Hlen.
  destruct (sum_increments_ok (m_db_per_block_gindex_incs s) (blocks_of hist) (drop height (blocks_of hist)) height
    (S (S (List.length (blocks_of hist)))) ∅ (fun _ => 0%nat)) as (g & -> & Hg);
    [apply Hi|done|lia|lia|rewrite length_drop; lia|apply Hi|intros a; apply lookup_empty| |].
  { intros a. destruct (Ho a) as [E Hb]. rewrite E in Hb. rewrite <- (take_drop height (blocks_of hist)), concat_app, count_outputs_app in Hb. lia. }
  outcome_simp. apply translate_totals_ok; [exact Hg|]. intros a. by rewrite take_drop.
Qed.

End main_chain.

(** ** A chain of two blocks *)

#[local] Existing Instance demo_crypto.
#[local] Existing Instance demo_asset_crypto.
#[local] Existing Instance demo_service.

(** The second miner transaction has an output of 10 and one of 7. *)
Definition demo_coinbase_2 : transaction := demo_bare_tx [in_gen 5] [demo_bare 10; demo_bare 7].
Definition demo_s3 : demo_chain := snd (demo_add demo_coinbase_2 (key_of 23) demo_s1).

Lemma demo_accepts_3 : accepts (HardForks.hard_forks mainnet_config) (key_of 1) 0 0 demo_coinbase_2 (key_of 23) (key_of 30) 5 1700000000 demo_s1 demo_s3.
Proof.
  constructor.
  - apply demo_tx_wf; [by repeat constructor; intros ? ? [=]|done..|cbn; lia].
  - apply demo_s1_room. cbn. lia.
  - apply demo_fresh. vm_compute. reflexivity.
  - split; constructor.
  - apply demo_gateway_room. vm_compute. reflexivity.
  - assert (E : fst (demo_add demo_coinbase_2 (key_of 23) demo_s1) = Ok tt) by (vm_compute; reflexivity).
    unfold demo_s3. change (demo_add demo_coinbase_2 (key_of 23) demo_s1 = (Ok tt, snd (demo_add demo_coinbase_2 (key_of 23) demo_s1))).
    revert E. destruct (demo_add demo_coinbase_2 (key_of 23) demo_s1). cbn. by intros ->.
Qed.

Definition demo_block_record (height : Z) (miner_tx : transaction) : block_extended_info := {|
  bei_bl := {| bl_header := bl_header (demo_block_of false (1000 + height)); bl_miner_tx := miner_tx; bl_tx_hashes := [] |};
  bei_height := height; bei_block_cumulative_size := 0; bei_cumulative_diff_adjusted := 0; bei_cumulative_diff_precise := 1;
  bei_cumulative_diff_precise_adjusted := 1; bei_difficulty := 1; bei_already_generated_coins := 0; bei_stake_hash := [];
  bei_version := 0; bei_this_block_tx_fee_median := 0; bei_effective_tx_fee_median := 0 |}.

Definition demo_add_block (e : block_extended_info) : storage -> storage :=
  record_block (get_block_hash (bei_bl e)) e [bl_miner_tx (bei_bl e)].
Definition demo_first : block_extended_info := demo_block_record 0 demo_coinbase.
Definition demo_second : block_extended_info := demo_block_record 1 demo_coinbase_2.

Lemma demo_counts_fit tx : (List.length (vout tx) < 100)%nat -> counts_fit [tx].
Proof.
  intros Hl a. unfold count_outputs, counted_in. rewrite bind_cons. cbn [mbind list_bind]. rewrite app_nil_r.
  pose proof (length_filter (fun o => counted a o = true) (vout tx)). lia.
Qed.

Lemma demo_main_chain : main_chain (HardForks.hard_forks mainnet_config) (key_of 1)
  [[(demo_coinbase_2, key_of 23)]; [(demo_coinbase, key_of 21)]] (demo_add_block demo_second (demo_add_block demo_first (storage_of []))) demo_s3.
Proof.
  eapply (chain_add _ _ _ _ demo_s1 [(demo_coinbase_2, key_of 23)] demo_second).
  - eapply (chain_add _ _ [] (storage_of []) genesis [(demo_coinbase, key_of 21)] demo_first).
    + apply chain_empty; [done..|apply genesis_wf|]. intros a. unfold outputs_of. cbn [m_db_outputs genesis]. apply arr_empty_ok.
    + by exists (demo_coinbase, key_of 21), [].
    + eapply accepts_next; [exact demo_accepts_1|apply accepts_none].
    + apply demo_counts_fit. cbn. lia.
    + done.
    + done.
    + done.
  - by exists (demo_coinbase_2, key_of 23), [].
  - eapply accepts_next; [exact demo_accepts_3|apply accepts_none].
  - apply demo_counts_fit. cbn. lia.
  - done.
  - done.
  - vm_compute. reflexivity.
Qed.

(** Before the second block there were two outputs of 10 and none of 7. *)
Example global_index_table_correct_witness : exists t,
  calculate_local_gindex_lookup_table_for_height 1 (demo_add_block demo_second (demo_add_block demo_first (storage_of []))) demo_s3 = Ret t /\
  t !! 10 = Some 2 /\ t !! 7 = Some 0 /\ t !! 4 = None.
Proof.
  destruct (global_index_table_correct (HardForks.hard_forks mainnet_config) (key_of 1) _ _ demo_s3 1 demo_service_law demo_main_chain)
    as (_ & _ & _ & t & E & Ht); [done|cbn; lia|].
  exists t. split; [exact E|]. rewrite !Ht. split; [|split]; reflexivity.
Defined.
