(* ===== verification/ForkChoice.v ===== *)
(** * The choice between the main chain and an alternative one

    [blockchain_storage::is_reorganize_required] and the weights of
    [src/src/currency_core/currency_format_utils.cpp] it compares. *)

From S2P Require Import Prelude Config Pod Basic Transactions BlockId TxHardforks Difficulty HardForks StateM Blocks.

(** ** The weights

    Arithmetic of 1024 bits; a division by zero throws. *)

Abbreviation u1024 := (wrap 1024).
Definition div_or_throw (x y : Z) : outcome Z := if y =? 0 then Throw else Ret (x / y).

Record difficulties : Type := { pos_diff : Z; pow_diff : Z }.

(** A chain without blocks of a type counts for the starting difficulty. *)
Definition or_starter (d starter : Z) : Z := if 0 <? d then d else starter.

Definition get_a_to_b_relative_cumulative_difficulty
    (difficulty_pos_at_split_point difficulty_pow_at_split_point : Z) (a_diff b_diff : difficulties) : outcome Z :=
  let a_pos := or_starter (pos_diff a_diff) DIFFICULTY_POS_STARTER in
  let b_pos := or_starter (pos_diff b_diff) DIFFICULTY_POS_STARTER in
  let a_pow := or_starter (pow_diff a_diff) DIFFICULTY_POW_STARTER in
  let b_pow := or_starter (pow_diff b_diff) DIFFICULTY_POW_STARTER in
  scaled ← div_or_throw (u1024 (a_pos * difficulty_pow_at_split_point)) difficulty_pos_at_split_point;
  let basic_sum := u1024 (a_pow + scaled) in
  div_or_throw (u1024 (u1024 (basic_sum * a_pow) * a_pos)) (u1024 (b_pow * b_pos)).

(** [get_adjuster_for_fork_choice_rule_hf4] *)
Definition adjusting_multiplier : Z := (2 ^ 128 - 1) * 10 * (2 ^ 128 - 1).

Definition get_a_to_b_relative_cumulative_difficulty_hf6
    (difficulty_pos_at_split_point difficulty_pow_at_split_point : Z) (a_diff b_diff : difficulties) : outcome Z :=
  let a_pos := or_starter (pos_diff a_diff) DIFFICULTY_POS_STARTER in
  let b_pos := or_starter (pos_diff b_diff) DIFFICULTY_POS_STARTER in
  let a_pow := or_starter (pow_diff a_diff) DIFFICULTY_POW_STARTER in
  let b_pow := or_starter (pow_diff b_diff) DIFFICULTY_POW_STARTER in
  let basic_sum_scaled :=
    u1024 (u1024 (a_pow * difficulty_pos_at_split_point) + u1024 (a_pos * difficulty_pow_at_split_point)) in
  let d_pos_sq := u1024 (difficulty_pos_at_split_point * difficulty_pos_at_split_point) in
  basic_sum_pow_minus2 ←
    div_or_throw (u1024 (adjusting_multiplier * d_pos_sq)) (u1024 (basic_sum_scaled * basic_sum_scaled));
  div_or_throw (u1024 (u1024 (basic_sum_pow_minus2 * a_pow) * a_pos)) (u1024 (b_pow * b_pos)).

(** ** The difficulty at the split *)

(** The first block of the type after [height], or else the next one's. *)
Definition get_x_difficulty_after_height (cfg : network_config) (height : Z) (is_pos : bool) : st storage Z :=
  bs ← read m_db_blocks;
  _ ← throw_unless (height <? Z.of_nat (List.length bs));
  let diff :=
    match List.find (fun b => eqb (bei_is_pos b) is_pos) (drop (Z.to_nat (height + 1)) bs) with
    | Some b => bei_difficulty b
    | None => 0
    end in
  if diff =? 0 then get_cached_next_difficulty cfg is_pos else mret diff.

(** ** The choice *)

(** Equal weights: the fees since hard fork 4, then the kernel hashes of two
    proof-of-stake blocks. *)
Definition prefer_by_hash (main_chain_bei : block_extended_info) (proof_alt : hash) : bool :=
  if negb (bei_is_pos main_chain_bei) then false else memcmp_lt (bei_stake_hash main_chain_bei) proof_alt.

Definition summary_fee (b : block_extended_info) : Z :=
  u64 (bei_this_block_tx_fee_median b * Z.of_nat (List.length (bl_tx_hashes (bei_bl b)))).

Definition prefer_on_tie (hf4 : bool) (main_chain_bei alt_chain_bei : block_extended_info) (proof_alt : hash) : bool :=
  if hf4 && (summary_fee main_chain_bei <? summary_fee alt_chain_bei) then true
  else if hf4 && (summary_fee alt_chain_bei <? summary_fee main_chain_bei) then false
  else prefer_by_hash main_chain_bei proof_alt.

(** Before hard fork 1 the adjusted cumulative difficulties decide. *)
Definition prefer_before_hf1 (main_chain_bei alt_chain_bei : block_extended_info) (proof_alt : hash) : bool :=
  if bei_cumulative_diff_adjusted main_chain_bei <? bei_cumulative_diff_adjusted alt_chain_bei then true
  else if bei_cumulative_diff_adjusted alt_chain_bei <? bei_cumulative_diff_adjusted main_chain_bei then false
  else prefer_by_hash main_chain_bei proof_alt.

(** Since hard fork 6, over a split of less than 30 blocks, the chain with the
    larger cumulative difficulty of proof of stake wins at once. *)
Definition quick_choice (bs : list block_extended_info) (alt_chain : alt_chain_type)
    (main_chain_bei alt_chain_bei connection_point : block_extended_info) : outcome (option bool) :=
  let split_length :=
    if bei_height main_chain_bei <? bei_height alt_chain_bei
    then u64 (bei_height main_chain_bei - bei_height connection_point)
    else u64 (bei_height alt_chain_bei - bei_height connection_point) in
  if split_length <? 30 then
    alt ← get_last_alt_x_block_cumulative_precise_difficulty bs alt_chain (bei_height alt_chain_bei) true;
    main ← get_last_alt_x_block_cumulative_precise_difficulty bs [] (u64 (Z.of_nat (List.length bs) - 1)) true;
    Ret (if fst alt <? fst main then Some false else if fst main <? fst alt then Some true else None)
  else Ret None.

(** The adjusted work of a type of both chains since the split:
    [(alternative, main)]. *)
Definition work_since_split (bs : list block_extended_info) (alt_chain : alt_chain_type)
    (alt_chain_bei connection_point : block_extended_info) (pos : bool) : outcome (Z * Z) :=
  alt_end ← get_last_alt_x_block_cumulative_precise_adj_difficulty bs alt_chain (bei_height alt_chain_bei) pos;
  alt_begin ← get_last_alt_x_block_cumulative_precise_adj_difficulty bs [] (u64 (bei_height connection_point - 1)) pos;
  main_end ← get_last_alt_x_block_cumulative_precise_adj_difficulty bs [] (u64 (Z.of_nat (List.length bs) - 1)) pos;
  main_begin ← get_last_alt_x_block_cumulative_precise_adj_difficulty bs [] (u64 (bei_height connection_point - 1)) pos;
  Ret (u128 (alt_end - alt_begin), u128 (main_end - main_begin)).

Definition is_reorganize_required (cfg : network_config) (alt_chain : alt_chain_type) (proof_alt : hash)
    : st storage bool :=
  let active (hf : nat) (b : block_extended_info) : st storage bool :=
    lift_outcome (is_hardfork_active_for_height hf (bei_height b) (nc_hard_forks cfg)) in
  let or_exn (o : option block_extended_info) : st storage block_extended_info :=
    lift_outcome (match o with Some b => Ret b | None => Throw end) in
  bs ← read m_db_blocks;
  main_chain_bei ← or_exn (last bs);
  alt_chain_bei ← or_exn (last alt_chain);
  connection_point ← or_exn (head alt_chain);
  hf1_split ← active 1%nat connection_point;
  if negb hf1_split then mret (prefer_before_hf1 main_chain_bei alt_chain_bei proof_alt)
  else
    hf1 ← active 1%nat alt_chain_bei;
    _ ← throw_unless hf1;
    hf6 ← active (Z.to_nat ZANO_HARDFORK_06) alt_chain_bei;
    quick ← lift_outcome (if hf6 : bool then quick_choice bs alt_chain main_chain_bei alt_chain_bei connection_point
                          else Ret None);
    match quick with
    | Some answer => mret answer
    | None =>
        let split := u64 (bei_height connection_point - 1) in
        difficulty_pos_at_split_point ← get_x_difficulty_after_height cfg split true;
        difficulty_pow_at_split_point ← get_x_difficulty_after_height cfg split false;
        pos_work ← lift_outcome (work_since_split bs alt_chain alt_chain_bei connection_point true);
        pow_work ← lift_outcome (work_since_split bs alt_chain alt_chain_bei connection_point false);
        let alt_cumul_diff := {| pos_diff := fst pos_work; pow_diff := fst pow_work |} in
        let main_cumul_diff := {| pos_diff := snd pos_work; pow_diff := snd pow_work |} in
        let weight := if (hf6 : bool) then get_a_to_b_relative_cumulative_difficulty_hf6
                      else get_a_to_b_relative_cumulative_difficulty in
        alt ← lift_outcome (weight difficulty_pos_at_split_point difficulty_pow_at_split_point alt_cumul_diff main_cumul_diff);
        main ← lift_outcome (weight difficulty_pos_at_split_point difficulty_pow_at_split_point main_cumul_diff alt_cumul_diff);
        if main <? alt then mret true
        else if alt <? main then mret false
        else
          hf4 ← active (Z.to_nat ZANO_HARDFORK_04_ZARCANUM) alt_chain_bei;
          mret (prefer_on_tie hf4 main_chain_bei alt_chain_bei proof_alt)
    end.

(** ** The difficulty at the split is that of the common part

    Whichever side of the split is the main chain, and whether or not it has a
    block of the type, the difficulty found is the one over the blocks below
    the split. *)

Lemma find_split {A} (f : A -> bool) l x : List.find f l = Some x ->
  exists i, l !! i = Some x /\ f x = true /\ Forall (fun y => f y = false) (take i l).
Proof.
  induction l as [|a l IH]; [done|]. cbn. destruct (f a) eqn:E.
  - intros [= ->]. by exists O.
  - intros H. destruct (IH H) as (i & Hi & Hx & Ht). exists (S i). split; [done|]. split; [done|]. by constructor.
Qed.

Lemma find_none_all {A} (f : A -> bool) l : List.find f l = None -> Forall (fun y => f y = false) l.
Proof. induction l as [|a l IH]; [done|]. cbn. destruct (f a) eqn:E; [done|]. intros H. constructor; auto. Qed.

Lemma other_type pos l : Forall (fun b => eqb (bei_is_pos b) pos = false) l ->
  Forall (fun b => same_type pos b = false) (rev l).
Proof.
  intros H. apply Forall_rev. eapply Forall_impl; [exact H|]. intros b. unfold same_type.
  by destruct pos, (bei_is_pos b).
Qed.

(** Hard fork 1 is active from the split on. *)
Definition hf1_at_split (cfg : network_config) (P : list block_extended_info) : Prop :=
  ld (nc_hard_forks cfg) 1 < Z.of_nat (List.length P).

Section split.
Variables (cfg : network_config) (P M : list block_extended_info) (pos : bool) (D : Z).
Hypothesis HP : P <> [].
Hypothesis Hhf1 : hf1_at_split cfg P.
Hypothesis HD : difficulty_over cfg pos (view P) (Z.of_nat (List.length P)) = Ret D.

(** The difficulty of a block on top of [P ++ l] when [l] has none of the type. *)
Lemma difficulty_past_split l h : (List.length P <= h)%nat -> Forall (fun b => eqb (bei_is_pos b) pos = false) l ->
  difficulty_over cfg pos (view (P ++ l)) (Z.of_nat h) = Ret D.
Proof.
  intros Hh Hl. rewrite view_app, difficulty_over_skip by (done || by apply other_type).
  rewrite <- HD. apply difficulty_over_same_rule. unfold hf1_at_split in Hhf1. lia.
Qed.

Lemma get_x_split s : m_db_blocks s = P ++ M -> chain_valid cfg (P ++ M) -> cache_fresh cfg s ->
  exists s', get_x_difficulty_after_height cfg (u64 (Z.of_nat (List.length P) - 1)) pos s = (Ok D, s') /\
    m_db_blocks s' = m_db_blocks s /\ cache_fresh cfg s'.
Proof.
  intros Hs [Hh Hw _ Hd] Hf. pose proof (nonempty_length P HP) as HlP.
  unfold get_x_difficulty_after_height. rewrite (bind_eq _ _ s (P ++ M) s) by by rewrite <- Hs.
  rewrite length_app, Nat2Z.inj_add in *. rewrite wrap_small by (split; lia).
  replace (Z.of_nat (List.length P) - 1 <? _) with true by lia. rewrite (bind_eq _ _ s tt s) by done.
  replace (Z.to_nat _) with (List.length P) by lia. rewrite drop_app_length.
  destruct (List.find _ M) as [b|] eqn:E.
  - apply find_split in E as (i & Hi & Hb & Ht).
    destruct (Hd (List.length P + i)%nat b) as [Hpos Hdiff]; [lia|rewrite lookup_app_r by lia; by replace (_ - _)%nat with i by lia|].
    replace (bei_difficulty b =? 0) with false by lia. exists s. split; [|done].
    rewrite take_app_add in Hdiff. apply eqb_prop in Hb. rewrite Hb in Hdiff.
    rewrite difficulty_past_split in Hdiff by (lia || done). by injection Hdiff as <-.
  - apply find_none_all in E. cbn [Z.eqb]. apply get_cached_fresh; [|done|].
    + rewrite Hs. destruct P; done.
    + rewrite Hs, length_app. apply difficulty_past_split; [lia|done].
Qed.
End split.

(** ** The weights without the machine arithmetic *)

Definition weight_spec (hf6 : bool) (dp dw : Z) (a b : difficulties) : Z :=
  let ap := Z.max 1 (pos_diff a) in let aw := Z.max 1 (pow_diff a) in
  let bp := Z.max 1 (pos_diff b) in let bw := Z.max 1 (pow_diff b) in
  if hf6 then
    let sum := aw * dp + ap * dw in adjusting_multiplier * (dp * dp) / (sum * sum) * aw * ap / (bw * bp)
  else (aw + ap * dw / dp) * aw * ap / (bw * bp).

Definition diffs_ok (d : difficulties) : Prop := is_u128 (pos_diff d) /\ is_u128 (pow_diff d).

Lemma or_starter_max d : 0 <= d -> or_starter d 1 = Z.max 1 d.
Proof. intros Hd. unfold or_starter. zcase; lia. Qed.

Lemma max_range d : is_u128 d -> 1 <= Z.max 1 d < 2 ^ 128.
Proof. unfold in_u. lia. Qed.

Lemma u1024_small x : 0 <= x < 2 ^ 800 -> u1024 x = x.
Proof. intros H. apply wrap_small. split; [lia|]. eapply Z.lt_trans; [apply H|]. by apply Z.pow_lt_mono_r. Qed.

Lemma div_throw_ret x y : 0 < y -> div_or_throw x y = Ret (x / y).
Proof. intros H. unfold div_or_throw. by replace (y =? 0) with false by lia. Qed.

(** [x * y < B1 * B2], each factor within its bound. *)
Lemma mul_bound x y a b c : 0 <= x < 2 ^ a -> 0 <= y < 2 ^ b -> 0 <= a -> 0 <= b -> a + b <= c -> 0 <= x * y < 2 ^ c.
Proof.
  intros Hx Hy Ha Hb Hc. split; [nia|]. apply Z.lt_le_trans with (2 ^ (a + b)); [rewrite Z.pow_add_r by lia; nia|].
  apply Z.pow_le_mono_r; lia.
Qed.

Lemma div_bound x y c : 0 <= x < 2 ^ c -> 0 < y -> 0 <= x / y < 2 ^ c.
Proof.
  intros Hx Hy. split; [apply Z.div_pos; lia|]. eapply Z.le_lt_trans; [|apply Hx]. apply Z.div_le_upper_bound; nia.
Qed.

Lemma weight_exact (hf6 : bool) dp dw a b : 0 < dp < 2 ^ 128 -> 0 <= dw < 2 ^ 128 -> diffs_ok a -> diffs_ok b ->
  (if hf6 then get_a_to_b_relative_cumulative_difficulty_hf6 else get_a_to_b_relative_cumulative_difficulty) dp dw a b =
    Ret (weight_spec hf6 dp dw a b).
Proof.
  intros Hdp Hdw [Ha1 Ha2] [Hb1 Hb2]. unfold weight_spec. cbv zeta.
  pose proof (max_range _ Ha1) as R1. pose proof (max_range _ Ha2) as R2.
  pose proof (max_range _ Hb1) as R3. pose proof (max_range _ Hb2) as R4.
  assert (Hb : 0 < Z.max 1 (pow_diff b) * Z.max 1 (pos_diff b)) by nia.
  pose proof (or_starter_max (pos_diff a) ltac:(apply Ha1)) as O1.
  pose proof (or_starter_max (pow_diff a) ltac:(apply Ha2)) as O2.
  pose proof (or_starter_max (pos_diff b) ltac:(apply Hb1)) as O3.
  pose proof (or_starter_max (pow_diff b) ltac:(apply Hb2)) as O4.
  set (ap := Z.max 1 (pos_diff a)) in *. set (aw := Z.max 1 (pow_diff a)) in *.
  set (bp := Z.max 1 (pos_diff b)) in *. set (bw := Z.max 1 (pow_diff b)) in *.
  assert (Hbb : 0 <= bw * bp < 2 ^ 256) by (apply (mul_bound _ _ 128 128); lia).
  assert (small : forall c x, 0 <= x < 2 ^ c -> c <= 800 -> u1024 x = x).
  { intros c x Hx Hc. apply u1024_small. split; [lia|]. eapply Z.lt_le_trans; [apply Hx|]. apply Z.pow_le_mono_r; lia. }
  destruct hf6.
  - unfold get_a_to_b_relative_cumulative_difficulty_hf6, DIFFICULTY_POS_STARTER, DIFFICULTY_POW_STARTER. cbv zeta.
    rewrite O1, O2, O3, O4. assert (H1 : 0 <= aw * dp < 2 ^ 256) by (apply (mul_bound _ _ 128 128); lia).
    assert (H2 : 0 <= ap * dw < 2 ^ 256) by (apply (mul_bound _ _ 128 128); lia).
    assert (H3 : 0 < aw * dp + ap * dw < 2 ^ 257) by (change (2 ^ 257) with (2 ^ 256 + 2 ^ 256); nia).
    assert (H4 : 0 <= dp * dp < 2 ^ 256) by (apply (mul_bound _ _ 128 128); lia).
    assert (H5 : 0 <= adjusting_multiplier * (dp * dp) < 2 ^ 516) by (apply (mul_bound _ _ 260 256); (done || lia)).
    assert (H6 : 0 < (aw * dp + ap * dw) * (aw * dp + ap * dw) < 2 ^ 514).
    { split; [nia|]. apply (mul_bound _ _ 257 257); lia. }
    rewrite (small _ _ H1), (small _ _ H2), (small 257 (aw * dp + ap * dw)), (small _ _ H4), (small _ _ H5),
      (small 514 ((aw * dp + ap * dw) * (aw * dp + ap * dw))) by lia.
    rewrite div_throw_ret by lia. outcome_simp.
    set (q := adjusting_multiplier * (dp * dp) / _).
    assert (H7 : 0 <= q < 2 ^ 516) by (apply div_bound; lia).
    assert (H8 : 0 <= q * aw < 2 ^ 644) by (apply (mul_bound _ _ 516 128); lia).
    assert (H9 : 0 <= q * aw * ap < 2 ^ 772) by (apply (mul_bound _ _ 644 128); lia).
    rewrite (small _ _ H8), (small _ _ H9), (small _ _ Hbb) by lia. by apply div_throw_ret.
  - unfold get_a_to_b_relative_cumulative_difficulty, DIFFICULTY_POS_STARTER, DIFFICULTY_POW_STARTER. cbv zeta.
    rewrite O1, O2, O3, O4. assert (H1 : 0 <= ap * dw < 2 ^ 256) by (apply (mul_bound _ _ 128 128); lia).
    rewrite (small _ _ H1), div_throw_ret by lia. outcome_simp.
    pose proof (div_bound _ dp _ H1 ltac:(lia)) as H2. set (q := ap * dw / dp) in *.
    assert (H3 : 0 <= aw + q < 2 ^ 257) by (change (2 ^ 257) with (2 ^ 256 + 2 ^ 256); lia).
    assert (H4 : 0 <= (aw + q) * aw < 2 ^ 385) by (apply (mul_bound _ _ 257 128); lia).
    assert (H5 : 0 <= (aw + q) * aw * ap < 2 ^ 513) by (apply (mul_bound _ _ 385 128); lia).
    rewrite (small _ _ H3), (small _ _ H4), (small _ _ H5), (small _ _ Hbb) by lia. by apply div_throw_ret.
Qed.

Lemma weight_pre_hf6_mono dp dw ap aw bp bw : 0 < dp -> 0 <= dw -> 1 <= bp <= ap -> 1 <= bw <= aw ->
  (bw + bp * dw / dp) * bw * bp / (aw * ap) <= (aw + ap * dw / dp) * aw * ap / (bw * bp).
Proof.
  intros Hdp Hdw Hp Hw.
  assert (Hq : 0 <= bp * dw / dp <= ap * dw / dp) by (split; [apply Z.div_pos|apply Z.div_le_mono]; nia).
  set (qa := ap * dw / dp) in *. set (qb := bp * dw / dp) in *.
  assert (Hprod : 0 < bw * bp <= aw * ap) by nia.
  transitivity (bw + qb).
  - apply Z.div_le_upper_bound; [lia|]. replace ((bw + qb) * bw * bp) with (bw * bp * (bw + qb)) by ring.
    apply Z.mul_le_mono_nonneg_r; lia.
  - apply Z.div_le_lower_bound; [lia|]. replace ((aw + qa) * aw * ap) with (aw * ap * (aw + qa)) by ring.
    apply Z.mul_le_mono_nonneg; lia.
Qed.

(** the rule used between hard forks 1 and 6 never turns against the
    heavier chain: no intermediate value overflows the 1024 bits, no division
    is by zero, and a chain with at least as much work of both types since the
    split never weighs less than the other. *)
Theorem heavier_chain_never_lighter dp dw a b :
  0 < dp < 2 ^ 128 -> 0 <= dw < 2 ^ 128 -> diffs_ok a -> diffs_ok b ->
  pos_diff b <= pos_diff a -> pow_diff b <= pow_diff a ->
  exists wa wb, get_a_to_b_relative_cumulative_difficulty dp dw a b = Ret wa /\
    get_a_to_b_relative_cumulative_difficulty dp dw b a = Ret wb /\ wb <= wa.
Proof.
  intros Hdp Hdw Ha Hb Hpos Hpow. eexists _, _.
  split; [exact (weight_exact false dp dw a b Hdp Hdw Ha Hb)|].
  split; [exact (weight_exact false dp dw b a Hdp Hdw Hb Ha)|].
  apply weight_pre_hf6_mono; lia.
Qed.

(** The harmonic rule in whole numbers: for a chain of work [(p, w)] since the
    split, [p * w / (w * dp + p * dw)] is the harmonic sum of the two works in
    units of the difficulties at the split. *)
Lemma hf6_winner K ap aw bp bw sa sb : 0 <= K -> 0 < ap -> 0 < aw -> 0 < bp -> 0 < bw -> 0 < sa -> 0 < sb ->
  K / (sb * sb) * bw * bp / (aw * ap) < K / (sa * sa) * aw * ap / (bw * bp) ->
  (K - sb * sb) * (bw * bp * sa) ^ 2 < K * (aw * ap * sb) ^ 2.
Proof.
  intros HK Hap Haw Hbp Hbw Hsa Hsb Hlt.
  set (qa := K / (sa * sa)) in *. set (qb := K / (sb * sb)) in *.
  assert (Hqa : qa * (sa * sa) <= K) by (unfold qa; rewrite Z.mul_comm; apply Z.mul_div_le; nia).
  assert (Hqb : K < (qb + 1) * (sb * sb)).
  { unfold qb. pose proof (Z.mod_pos_bound K (sb * sb) ltac:(nia)). pose proof (Z.div_mod K (sb * sb) ltac:(nia)). nia. }
  set (x := bw * bp) in *. set (y := aw * ap) in *.
  assert (Hxp : 0 < x) by (unfold x; nia). assert (Hyp : 0 < y) by (unfold y; nia).
  replace (qb * bw * bp) with (qb * x) in Hlt by (unfold x; ring).
  replace (qa * aw * ap) with (qa * y) in Hlt by (unfold y; ring).
  assert (Hx : qb * (x * x) < qa * (y * y)).
  { destruct (Z.lt_ge_cases (qb * (x * x)) (qa * (y * y))) as [|Hge]; [done|]. exfalso.
    assert (qa * y / x <= qb * x / y); [|lia].
    pose proof (Z.mul_div_le (qa * y) x Hxp) as Ht. set (t := qa * y / x) in *.
    apply Z.div_le_lower_bound; [done|]. apply (Z.mul_le_mono_pos_r _ _ x); [done|].
    apply Z.le_trans with (qa * (y * y)); [|lia]. replace (y * t * x) with (x * t * y) by ring.
    replace (qa * (y * y)) with (qa * y * y) by ring. apply Z.mul_le_mono_nonneg_r; lia. }
  assert (Hs : 0 < sa * sa * (sb * sb)) by nia.
  apply Z.lt_trans with (qb * (x * x) * (sa * sa * (sb * sb))).
  - replace ((K - sb * sb) * (x * sa) ^ 2) with ((K - sb * sb) * (x * x * (sa * sa))) by ring.
    replace (qb * (x * x) * (sa * sa * (sb * sb))) with (qb * (sb * sb) * (x * x * (sa * sa))) by ring.
    apply Z.mul_lt_mono_pos_r; [|lia]. apply Z.mul_pos_pos; nia.
  - apply Z.lt_le_trans with (qa * (y * y) * (sa * sa * (sb * sb))); [by apply Z.mul_lt_mono_pos_r|].
    replace (K * (y * sb) ^ 2) with (K * (y * y * (sb * sb))) by ring.
    replace (qa * (y * y) * (sa * sa * (sb * sb))) with (qa * (sa * sa) * (y * y * (sb * sb))) by ring.
    apply Z.mul_le_mono_nonneg_r; [|done]. apply Z.mul_nonneg_nonneg; nia.
Qed.

(** The work of a chain in units of the difficulty of proof of stake at the
    split, times that difficulty. *)
Definition scaled_sum (dp dw : Z) (d : difficulties) : Z := Z.max 1 (pow_diff d) * dp + Z.max 1 (pos_diff d) * dw.
Definition work_product (d : difficulties) : Z := Z.max 1 (pow_diff d) * Z.max 1 (pos_diff d).

(** since hard fork 6 the choice follows the harmonic sum of the two kinds
    of work since the split, [work_product / scaled_sum], up to rounding: no
    intermediate value overflows, and the chain that weighs more has a
    harmonic sum whose square is more than [1 - 2^-58] times that of the
    other, as long as the other's sum of work is below [2^100] times the
    difficulty at the split. *)
Theorem hf6_choice_follows_harmonic_sum dp dw a b wa wb :
  0 < dp < 2 ^ 128 -> 0 <= dw < 2 ^ 128 -> diffs_ok a -> diffs_ok b ->
  scaled_sum dp dw b <= 2 ^ 100 * dp ->
  get_a_to_b_relative_cumulative_difficulty_hf6 dp dw a b = Ret wa ->
  get_a_to_b_relative_cumulative_difficulty_hf6 dp dw b a = Ret wb -> wb < wa ->
  (2 ^ 58 - 1) * (work_product b * scaled_sum dp dw a) ^ 2 < 2 ^ 58 * (work_product a * scaled_sum dp dw b) ^ 2.
Proof.
  intros Hdp Hdw Ha Hb Hs E1 E2 Hlt.
  pose proof (weight_exact true dp dw a b Hdp Hdw Ha Hb) as F1. pose proof (weight_exact true dp dw b a Hdp Hdw Hb Ha) as F2.
  cbv iota in F1, F2. rewrite E1 in F1. rewrite E2 in F2. injection F1 as ->. injection F2 as ->.
  unfold weight_spec in Hlt. cbv zeta iota in Hlt.
  apply hf6_winner in Hlt; [|unfold adjusting_multiplier; nia|nia..].
  fold (work_product a) (work_product b) (scaled_sum dp dw a) (scaled_sum dp dw b) in Hlt.
  assert (Hsb : 0 < scaled_sum dp dw b) by (unfold scaled_sum; nia).
  set (K := adjusting_multiplier * (dp * dp)) in *. set (sb := scaled_sum dp dw b) in *.
  assert (HK : 2 ^ 58 * (sb * sb) <= K).
  { unfold K. apply Z.le_trans with (2 ^ 58 * ((2 ^ 100 * dp) * (2 ^ 100 * dp))).
    - apply Z.mul_le_mono_nonneg_l; [done|]. apply Z.mul_le_mono_nonneg; lia.
    - replace (2 ^ 58 * (2 ^ 100 * dp * (2 ^ 100 * dp))) with (2 ^ 258 * (dp * dp)) by (change (2 ^ 258) with (2 ^ 58 * 2 ^ 100 * 2 ^ 100); ring).
      apply Z.mul_le_mono_nonneg_r; [nia|done]. }
  set (X := (work_product b * scaled_sum dp dw a) ^ 2) in *. set (Y := (work_product a * sb) ^ 2) in *.
  assert (HX : 0 <= X) by (unfold X; apply Z.pow_even_nonneg; by exists 1).
  assert (Hsq : 0 < sb * sb) by nia. apply (Z.mul_lt_mono_pos_l K); [lia|].
  apply Z.le_lt_trans with (2 ^ 58 * ((K - sb * sb) * X));
    [|replace (K * (2 ^ 58 * Y)) with (2 ^ 58 * (K * Y)) by ring; by apply Z.mul_lt_mono_pos_l].
  replace (K * ((2 ^ 58 - 1) * X)) with ((2 ^ 58 * K - K) * X) by ring.
  replace (2 ^ 58 * ((K - sb * sb) * X)) with ((2 ^ 58 * K - 2 ^ 58 * (sb * sb)) * X) by ring.
  apply Z.mul_le_mono_nonneg_r; [done|]. lia.
Qed.

Definition demo_heavy : difficulties := {| pos_diff := 50; pow_diff := 90 |}.
Definition demo_light : difficulties := {| pos_diff := 40; pow_diff := 0 |}.

Example heavier_chain_never_lighter_witness :
  exists wa wb, get_a_to_b_relative_cumulative_difficulty 5 7 demo_heavy demo_light = Ret wa /\
    get_a_to_b_relative_cumulative_difficulty 5 7 demo_light demo_heavy = Ret wb /\ wb <= wa.
Proof.
  apply (heavier_chain_never_lighter 5 7 demo_heavy demo_light); try (by vm_compute); repeat split; by vm_compute.
Defined.

Example hf6_choice_follows_harmonic_sum_witness :
  (2 ^ 58 - 1) * (work_product demo_light * scaled_sum 5 7 demo_heavy) ^ 2 <
    2 ^ 58 * (work_product demo_heavy * scaled_sum 5 7 demo_light) ^ 2.
Proof.
  eapply (hf6_choice_follows_harmonic_sum 5 7 demo_heavy demo_light);
    [split; by vm_compute|split; by vm_compute|repeat split; by vm_compute|repeat split; by vm_compute|by vm_compute
    |vm_compute; reflexivity|vm_compute; reflexivity|reflexivity].
Defined.

(** ** The decision as a function of the two branches

    [P] is the common part, [X] the branch of the main chain and [Y] the
    alternative one. *)

Definition chain_total (pos : bool) (bs : list block_extended_info) : Z * Z := precise_of (latest_of_type pos (view bs)).

Definition branch_work (P X : list block_extended_info) : difficulties := {|
  pos_diff := u128 (snd (chain_total true (P ++ X)) - snd (chain_total true P));
  pow_diff := u128 (snd (chain_total false (P ++ X)) - snd (chain_total false P)) |}.

Definition short_split (X Y : list block_extended_info) : bool :=
  Z.of_nat (Nat.min (List.length X) (List.length Y)) - 1 <? 30.

Definition fork_decision (hf6 hf4 : bool) (dp dw : Z) (P X Y : list block_extended_info)
    (tip_x tip_y : block_extended_info) (proof_y : hash) : bool :=
  let px := fst (chain_total true (P ++ X)) in
  let py := fst (chain_total true (P ++ Y)) in
  let wx := weight_spec hf6 dp dw (branch_work P X) (branch_work P Y) in
  let wy := weight_spec hf6 dp dw (branch_work P Y) (branch_work P X) in
  if hf6 && short_split X Y && negb (px =? py) then px <? py
  else if negb (wx =? wy) then wx <? wy
  else prefer_on_tie hf4 tip_x tip_y proof_y.

Lemma branch_work_ok P X : diffs_ok (branch_work P X).
Proof. split; apply wrap_range; lia. Qed.

Section reorganize.
Variables (cfg : network_config) (P X Y : list block_extended_info) (dp dw : Z) (tip_x tip_y : block_extended_info).
Hypothesis HP : P <> [].
Hypothesis Htip_x : last X = Some tip_x.
Hypothesis Htip_y : last Y = Some tip_y.
Hypothesis Hhf1 : hf1_at_split cfg P.
Hypothesis HX : chain_valid cfg (P ++ X).
Hypothesis HY : chain_valid cfg (P ++ Y).
Hypothesis Hdp : difficulty_over cfg true (view P) (Z.of_nat (List.length P)) = Ret dp.
Hypothesis Hdw : difficulty_over cfg false (view P) (Z.of_nat (List.length P)) = Ret dw.
Hypothesis Hdp_range : 0 < dp < 2 ^ 128.
Hypothesis Hdw_range : 0 <= dw < 2 ^ 128.

Lemma Y_nonempty : Y <> [].
Proof using Htip_y. intros E. revert Htip_y. by rewrite E. Qed.

Lemma tip_height W t : chain_valid cfg (P ++ W) -> last W = Some t ->
  bei_height t = Z.of_nat (List.length P) + Z.of_nat (List.length W) - 1.
Proof using.
  intros [Hh _ _ _] Ht. pose proof (nonempty_length W) as Hl. rewrite last_lookup in Ht.
  assert (HZ : W <> []) by by intros ->. specialize (Hl HZ).
  rewrite (Hh (List.length P + pred (List.length W))%nat t); [lia|]. rewrite lookup_app_r by lia.
  by replace (_ - _)%nat with (pred (List.length W)) by lia.
Qed.

Lemma head_height W : chain_valid cfg (P ++ W) -> W <> [] ->
  exists c, head W = Some c /\ bei_height c = Z.of_nat (List.length P).
Proof using.
  intros [Hh _ _ _] HZ. destruct W as [|c W]; [done|]. exists c. split; [done|]. apply Hh.
  by rewrite lookup_app_r, Nat.sub_diag by lia.
Qed.

(** The records read at the top of the three chains. *)
Lemma read_alt pos h :
  get_last_alt_x_block_cumulative_precise_difficulty (P ++ X) Y h pos = Ret (chain_total pos (P ++ Y)).
Proof using HP Htip_y HY.
  destruct HY as [Hh Hw _ _]. rewrite length_app, Nat2Z.inj_add in Hw.
  apply get_last_alt_x_view_alt; [done..|apply Y_nonempty].
Qed.

Lemma read_main pos :
  get_last_alt_x_block_cumulative_precise_difficulty (P ++ X) []
    (u64 (Z.of_nat (List.length (P ++ X)) - 1)) pos = Ret (chain_total pos (P ++ X)).
Proof using HP HX.
  destruct HX as [Hh Hw _ _]. assert (Hne : P ++ X <> []) by (intros E; by apply app_eq_nil in E as [? _]).
  pose proof (nonempty_length _ Hne). rewrite wrap_small by (split; lia).
  pose proof (get_last_alt_x_view (P ++ X) [] [] Hne) as R. rewrite !app_nil_r in R.
  apply R; [done|cbn; lia|done|done].
Qed.

Lemma read_split pos :
  get_last_alt_x_block_cumulative_precise_difficulty (P ++ X) []
    (u64 (Z.of_nat (List.length P) - 1)) pos = Ret (chain_total pos P).
Proof using HP HX.
  destruct HX as [Hh Hw _ _]. rewrite length_app, Nat2Z.inj_add in Hw.
  pose proof (nonempty_length _ HP). rewrite wrap_small by (split; lia).
  pose proof (get_last_alt_x_view P X [] HP) as R. rewrite app_nil_r in R.
  apply R; [by eapply heights_ok_prefix|cbn; lia|done|done].
Qed.

Lemma work_since_split_value pos c : bei_height c = Z.of_nat (List.length P) ->
  work_since_split (P ++ X) Y tip_y c pos =
    Ret (u128 (snd (chain_total pos (P ++ Y)) - snd (chain_total pos P)),
         u128 (snd (chain_total pos (P ++ X)) - snd (chain_total pos P))).
Proof using HP Htip_y HX HY.
  intros Hc. unfold work_since_split, get_last_alt_x_block_cumulative_precise_adj_difficulty.
  rewrite Hc, read_alt, read_split, read_main. by outcome_simp.
Qed.

Lemma quick_choice_value c : bei_height c = Z.of_nat (List.length P) ->
  quick_choice (P ++ X) Y tip_x tip_y c =
    Ret (let px := fst (chain_total true (P ++ X)) in let py := fst (chain_total true (P ++ Y)) in
         if short_split X Y && negb (px =? py) then Some (px <? py) else None).
Proof using HP Htip_x Htip_y HX HY.
  intros Hc. unfold quick_choice. rewrite (tip_height X), (tip_height Y), Hc, read_alt, read_main by done.
  assert (HlX : (0 < List.length X)%nat) by (apply nonempty_length; intros E; revert Htip_x; by rewrite E).
  pose proof (nonempty_length Y Y_nonempty) as HlY.
  destruct HX as [_ HwX _ _], HY as [_ HwY _ _]. rewrite length_app, Nat2Z.inj_add in HwX, HwY.
  assert (Hs : (if Z.of_nat (List.length P) + Z.of_nat (List.length X) - 1 <? Z.of_nat (List.length P) + Z.of_nat (List.length Y) - 1
     then u64 (Z.of_nat (List.length P) + Z.of_nat (List.length X) - 1 - Z.of_nat (List.length P))
     else u64 (Z.of_nat (List.length P) + Z.of_nat (List.length Y) - 1 - Z.of_nat (List.length P))) =
     Z.of_nat (Nat.min (List.length X) (List.length Y)) - 1).
  { zcase; rewrite wrap_small by (split; lia); lia. }
  cbv zeta. rewrite Hs. fold (short_split X Y). destruct (short_split X Y); [|done]. outcome_simp. cbn [andb].
  f_equal. destruct (fst (chain_total true (P ++ X)) =? fst (chain_total true (P ++ Y))) eqn:E; zbool; cbn [negb].
  - rewrite E, Z.ltb_irrefl. done.
  - destruct (fst (chain_total true (P ++ Y)) <? fst (chain_total true (P ++ X))) eqn:E1; zbool.
    + f_equal. symmetry. apply Z.ltb_ge. lia.
    + assert (Hlt : (fst (chain_total true (P ++ X)) <? fst (chain_total true (P ++ Y))) = true) by lia. by rewrite Hlt.
Qed.

Definition hf_at_tip (n : nat) : bool := ld (nc_hard_forks cfg) n <? bei_height tip_y.

Lemma active_value (n : nat) (b : block_extended_info) (s : storage) : (0 < n < ZANO_HARDFORKS_TOTAL)%nat ->
  lift_outcome (is_hardfork_active_for_height n (bei_height b) (nc_hard_forks cfg)) s =
    (Ok (ld (nc_hard_forks cfg) n <? bei_height b), s).
Proof using.
  intros Hn. unfold is_hardfork_active_for_height. replace (n =? 0)%nat with false by (symmetry; apply Nat.eqb_neq; lia).
  by replace (n <? ZANO_HARDFORKS_TOTAL)%nat with true by (symmetry; apply Nat.ltb_lt; lia).
Qed.

Lemma is_reorganize_required_value s proof_y : m_db_blocks s = P ++ X -> cache_fresh cfg s ->
  exists s', is_reorganize_required cfg Y proof_y s =
    (Ok (fork_decision (hf_at_tip 6) (hf_at_tip 4) dp dw P X Y tip_x tip_y proof_y), s').
Proof.
  intros Hs Hf. destruct (head_height Y HY Y_nonempty) as (c & Hc & Hch).
  pose proof (tip_height Y tip_y HY Htip_y) as Hth. pose proof (nonempty_length Y Y_nonempty) as HlY.
  unfold is_reorganize_required. cbv zeta. rewrite (bind_eq _ _ s (P ++ X) s) by by rewrite <- Hs.
  rewrite last_app, Htip_x, Htip_y, Hc.
  rewrite (bind_eq (lift_outcome (Ret tip_x)) _ s _ s eq_refl), (bind_eq (lift_outcome (Ret tip_y)) _ s _ s eq_refl),
    (bind_eq (lift_outcome (Ret c)) _ s _ s eq_refl).
  rewrite (bind_eq _ _ _ _ _ (active_value 1 c s ltac:(unfold ZANO_HARDFORKS_TOTAL; lia))).
  unfold hf1_at_split in Hhf1. rewrite Hch. replace (_ <? Z.of_nat (List.length P)) with true by lia. cbn [negb].
  rewrite (bind_eq _ _ _ _ _ (active_value 1 tip_y s ltac:(unfold ZANO_HARDFORKS_TOTAL; lia))).
  replace (ld (nc_hard_forks cfg) 1 <? bei_height tip_y) with true by lia.
  rewrite (bind_eq (throw_unless true) _ s tt s eq_refl).
  change (Z.to_nat ZANO_HARDFORK_06) with 6%nat. change (Z.to_nat ZANO_HARDFORK_04_ZARCANUM) with 4%nat.
  rewrite (bind_eq _ _ _ _ _ (active_value 6 tip_y s ltac:(unfold ZANO_HARDFORKS_TOTAL; lia))). fold (hf_at_tip 6).
  rewrite (quick_choice_value c Hch). cbv zeta. unfold fork_decision.
  set (px := fst (chain_total true (P ++ X))). set (py := fst (chain_total true (P ++ Y))).
  destruct (hf_at_tip 6 && short_split X Y && negb (px =? py)) eqn:Eq.
  { apply andb_prop in Eq as [Eq E3]. apply andb_prop in Eq as [E1 E2]. rewrite E1, E2, E3. cbn [andb].
    rewrite (bind_eq (lift_outcome (Ret _)) _ s _ s eq_refl). by exists s. }
  assert (Equick : lift_outcome (if hf_at_tip 6 then Ret (if short_split X Y && negb (px =? py) then Some (px <? py) else None)
                                 else Ret None) s = (Ok None, s)).
  { destruct (hf_at_tip 6); [|done]. cbn [andb] in Eq. by rewrite Eq. }
  rewrite (bind_eq _ _ _ _ _ Equick).
  destruct (get_x_split cfg P X true dp HP Hhf1 Hdp s Hs HX Hf) as (s1 & E1 & B1 & F1).
  rewrite (bind_eq _ _ _ _ _ E1).
  destruct (get_x_split cfg P X false dw HP Hhf1 Hdw s1 ltac:(congruence) HX F1) as (s2 & E2 & B2 & F2).
  rewrite (bind_eq _ _ _ _ _ E2).
  rewrite !(work_since_split_value _ c Hch).
  rewrite (bind_eq (lift_outcome (Ret _)) _ s2 _ s2 eq_refl), (bind_eq (lift_outcome (Ret _)) _ s2 _ s2 eq_refl).
  cbn [fst snd]. fold (branch_work P X) (branch_work P Y).
  rewrite (weight_exact (hf_at_tip 6) dp dw (branch_work P Y) (branch_work P X)) by (done || apply branch_work_ok).
  rewrite (weight_exact (hf_at_tip 6) dp dw (branch_work P X) (branch_work P Y)) by (done || apply branch_work_ok).
  rewrite (bind_eq (lift_outcome (Ret _)) _ s2 _ s2 eq_refl), (bind_eq (lift_outcome (Ret _)) _ s2 _ s2 eq_refl).
  set (wx := weight_spec _ _ _ (branch_work P X) _). set (wy := weight_spec _ _ _ (branch_work P Y) _).
  exists s2. destruct (wx <? wy) eqn:E3, (wy <? wx) eqn:E4, (wx =? wy) eqn:E5; zbool; try lia; try done.
Qed.
End reorganize.

(** ** Two nodes on two branches *)

Lemma memcmp_lt_asym a b : memcmp_lt a b = true -> memcmp_lt b a = false.
Proof.
  revert b. induction a as [|x a IH]; intros [|y b]; cbn; try done.
  destruct (x <? y) eqn:E1, (y <? x) eqn:E2; zbool; try done; try lia. apply IH.
Qed.

Lemma memcmp_lt_total a b : List.length a = List.length b -> a <> b -> memcmp_lt a b = true \/ memcmp_lt b a = true.
Proof.
  revert b. induction a as [|x a IH]; intros [|y b] Hl Hne; cbn; try done.
  destruct (x <? y) eqn:E1, (y <? x) eqn:E2; zbool; auto; try lia. assert (x = y) as -> by lia.
  injection Hl as Hl. apply IH; [done|]. congruence.
Qed.

(** The proof given for an alternative tip is the kernel hash its record keeps
    when it is a proof-of-stake block. *)
Definition proof_of_tip (tip : block_extended_info) (proof : hash) : Prop :=
  bei_is_pos tip = true -> proof = bei_stake_hash tip.

Lemma prefer_on_tie_asym hf4 tx ty px py : proof_of_tip tx px -> proof_of_tip ty py ->
  prefer_on_tie hf4 tx ty py = true -> prefer_on_tie hf4 ty tx px = false.
Proof.
  unfold prefer_on_tie, prefer_by_hash. intros Hx Hy.
  destruct hf4; cbn [andb].
  - destruct (summary_fee tx <? summary_fee ty) eqn:E1, (summary_fee ty <? summary_fee tx) eqn:E2; zbool; try done; try lia.
    destruct (bei_is_pos tx) eqn:Px, (bei_is_pos ty) eqn:Py; try done. cbn. rewrite Hx, Hy by done. apply memcmp_lt_asym.
  - destruct (bei_is_pos tx) eqn:Px, (bei_is_pos ty) eqn:Py; try done. cbn. rewrite Hx, Hy by done. apply memcmp_lt_asym.
Qed.

Lemma short_split_comm X Y : short_split X Y = short_split Y X.
Proof. unfold short_split. by rewrite Nat.min_comm. Qed.

Lemma fork_decision_asym hf6 hf4 dp dw P X Y tx ty px py : proof_of_tip tx px -> proof_of_tip ty py ->
  fork_decision hf6 hf4 dp dw P X Y tx ty py = true -> fork_decision hf6 hf4 dp dw P Y X ty tx px = false.
Proof.
  intros Hx Hy. unfold fork_decision. rewrite (short_split_comm Y X), (Z.eqb_sym (fst (chain_total true (P ++ Y)))).
  rewrite (Z.eqb_sym (weight_spec _ _ _ (branch_work P Y) _)).
  destruct (_ && negb (_ =? _)); [intros E; apply Z.ltb_ge; zbool; lia|].
  destruct (_ =? _); cbn [negb]; [by apply prefer_on_tie_asym|intros E; apply Z.ltb_ge; zbool; lia].
Qed.

Lemma fork_decision_total hf6 hf4 dp dw P X Y tx ty px py : proof_of_tip tx px -> proof_of_tip ty py ->
  bei_is_pos tx = true -> bei_is_pos ty = true -> List.length (bei_stake_hash tx) = List.length (bei_stake_hash ty) ->
  bei_stake_hash tx <> bei_stake_hash ty ->
  fork_decision hf6 hf4 dp dw P X Y tx ty py = true \/ fork_decision hf6 hf4 dp dw P Y X ty tx px = true.
Proof.
  intros Hx Hy Px Py Hl Hne. unfold fork_decision.
  rewrite (short_split_comm Y X), (Z.eqb_sym (fst (chain_total true (P ++ Y)))).
  rewrite (Z.eqb_sym (weight_spec _ _ _ (branch_work P Y) _)).
  destruct (_ && negb (_ =? _)) eqn:E1; [apply andb_prop in E1 as [_ E1]; rewrite !Z.ltb_lt; zbool; lia|].
  set (wx := weight_spec _ _ _ (branch_work P X) _). set (wy := weight_spec _ _ _ (branch_work P Y) _).
  destruct (wx =? wy) eqn:E2; cbn [negb]; zbool; [|destruct (Z.lt_total wx wy) as [?|[?|?]]; [left; by apply Z.ltb_lt|done|right; by apply Z.ltb_lt]].
  unfold prefer_on_tie, prefer_by_hash. rewrite Px, Py. cbn [negb]. rewrite Hx, Hy by done.
  destruct hf4; cbn [andb]; [|by apply memcmp_lt_total].
  destruct (summary_fee tx <? summary_fee ty) eqn:E3, (summary_fee ty <? summary_fee tx) eqn:E4; zbool; auto; try lia.
  by apply memcmp_lt_total.
Qed.

(** Two nodes: the first has the branch [X] in its main chain and learns of
    [Y], the second the other way round.  Both keep the same records of the
    blocks, have nothing out of date in [m_cached_next_pos_difficulty] and
    [m_cached_next_pow_difficulty], and see both tips on the same side of hard
    forks 4 and 6.  The difficulties of the block after the common part are 128-bit
    words, that of proof of stake not zero. *)
Record two_nodes (cfg : network_config) (P X Y : list block_extended_info) (tip_x tip_y : block_extended_info)
    (node_x node_y : storage) : Prop := {
  tn_common : P <> [];
  tn_tip_x : last X = Some tip_x;
  tn_tip_y : last Y = Some tip_y;
  tn_hf1 : hf1_at_split cfg P;
  tn_valid_x : chain_valid cfg (P ++ X);
  tn_valid_y : chain_valid cfg (P ++ Y);
  tn_node_x : m_db_blocks node_x = P ++ X;
  tn_node_y : m_db_blocks node_y = P ++ Y;
  tn_fresh_x : cache_fresh cfg node_x;
  tn_fresh_y : cache_fresh cfg node_y;
  tn_pos : exists d, difficulty_over cfg true (view P) (Z.of_nat (List.length P)) = Ret d /\ 0 < d < 2 ^ 128;
  tn_pow : exists d, difficulty_over cfg false (view P) (Z.of_nat (List.length P)) = Ret d /\ 0 <= d < 2 ^ 128;
  tn_same_forks : forall n, n = 4%nat \/ n = 6%nat ->
    (ld (nc_hard_forks cfg) n <? bei_height tip_x) = (ld (nc_hard_forks cfg) n <? bei_height tip_y);
}.

Lemma two_nodes_decide cfg P X Y tip_x tip_y node_x node_y proof_x proof_y :
  two_nodes cfg P X Y tip_x tip_y node_x node_y ->
  exists hf6 hf4 dp dw,
    fst (is_reorganize_required cfg Y proof_y node_x) = Ok (fork_decision hf6 hf4 dp dw P X Y tip_x tip_y proof_y) /\
    fst (is_reorganize_required cfg X proof_x node_y) = Ok (fork_decision hf6 hf4 dp dw P Y X tip_y tip_x proof_x).
Proof.
  intros [HP Hx Hy Hhf HvX HvY Nx Ny Fx Fy (dp & Hdp & Rp) (dw & Hdw & Rw) Hs].
  exists (hf_at_tip cfg tip_y 6), (hf_at_tip cfg tip_y 4), dp, dw. split.
  - destruct (is_reorganize_required_value cfg P X Y dp dw tip_x tip_y HP Hx Hy Hhf HvX HvY Hdp Hdw Rp Rw node_x proof_y Nx Fx)
      as (s' & ->). done.
  - destruct (is_reorganize_required_value cfg P Y X dp dw tip_y tip_x HP Hy Hx Hhf HvY HvX Hdp Hdw Rp Rw node_y proof_x Ny Fy)
      as (s' & ->). unfold hf_at_tip. by rewrite (Hs 4%nat), (Hs 6%nat) by auto.
Qed.


(** C9: and under the same conditions it converges.  Let two nodes follow two
    branches of valid records that split after hard fork 1, with the same records
    of all the blocks on both nodes (cumulative difficulties, kernel hashes and
    fee medians included), no remembered difficulty out of date on either, and
    both tips on the same side of hard forks 4 and 6, and difficulties at the split
    that are 128-bit words ([two_nodes]).  When both
    branches end in proof-of-stake blocks with different kernel hashes, exactly
    one of the two nodes changes to the branch of the other, so that both follow
    the same branch afterwards.  The conditions on the nodes are needed:
    [remembered_difficulty_decides] has a stale difficulty decide, and
    [neither_changes_when_fees_differ] has two nodes that keep different fee
    medians of the tips stay apart. *)
Theorem fork_choice_converges cfg P X Y tip_x tip_y node_x node_y proof_x proof_y :
  two_nodes cfg P X Y tip_x tip_y node_x node_y -> proof_of_tip tip_x proof_x -> proof_of_tip tip_y proof_y ->
  bei_is_pos tip_x = true -> bei_is_pos tip_y = true ->
  List.length (bei_stake_hash tip_x) = List.length (bei_stake_hash tip_y) -> bei_stake_hash tip_x <> bei_stake_hash tip_y ->
  exists x, fst (is_reorganize_required cfg Y proof_y node_x) = Ok x /\
    fst (is_reorganize_required cfg X proof_x node_y) = Ok (negb x).
Proof.
  intros Hn Hx Hy Px Py Hl Hne.
  destruct (two_nodes_decide _ _ _ _ _ _ _ _ proof_x proof_y Hn) as (hf6 & hf4 & dp & dw & -> & ->).
  eexists. split; [done|]. f_equal.
  destruct (fork_decision_total hf6 hf4 dp dw P X Y tip_x tip_y proof_x proof_y Hx Hy Px Py Hl Hne) as [E|E].
  - rewrite E. by apply (fork_decision_asym _ _ _ _ _ _ _ _ _ _ _ Hx Hy) in E.
  - rewrite E. apply (fork_decision_asym _ _ _ _ _ _ _ _ _ _ _ Hy Hx) in E. by rewrite E.
Qed.

(** ** Two small branches *)

Definition demo_x : block_extended_info := demo_record true 1 1100 1 1 1 (key_of 5).
Definition demo_y : block_extended_info := demo_record true 1 1130 1 1 1 (key_of 9).

Lemma demo_valid b : b = demo_x \/ b = demo_y -> chain_valid demo_network [demo_genesis; b].
Proof.
  intros Hb. split.
  - intros [|[|i]] c Hc; cbn in Hc; simplify_eq; [done|]. by destruct Hb as [-> | ->].
  - done.
  - destruct Hb as [-> | ->]; repeat constructor; by vm_compute.
  - intros [|[|i]] c Hi Hc; cbn in Hc; [lia| |done]. injection Hc as <-. destruct Hb as [-> | ->]; by vm_compute.
Qed.

Lemma demo_two_nodes : two_nodes demo_network [demo_genesis] [demo_x] [demo_y] demo_x demo_y
  (storage_of [demo_genesis; demo_x]) (storage_of [demo_genesis; demo_y]).
Proof.
  split; try done.
  - apply demo_valid. by left.
  - apply demo_valid. by right.
  - intros []; by left.
  - intros []; by left.
  - exists 1. by vm_compute.
  - exists 1. by vm_compute.
Qed.


Example fork_choice_converges_witness :
  exists x, fst (is_reorganize_required demo_network [demo_y] (key_of 9) (storage_of [demo_genesis; demo_x])) = Ok x /\
    fst (is_reorganize_required demo_network [demo_x] (key_of 5) (storage_of [demo_genesis; demo_y])) = Ok (negb x).
Proof. by apply (fork_choice_converges _ _ _ _ _ _ _ _ _ _ demo_two_nodes). Defined.

(** ** A remembered difficulty out of date

    The difficulty remembered for a type is the one computed to check the
    latest block of that type, before the block is added: nothing replaces it
    afterwards. *)

Definition before_hf4 : network_config :=
  {| nc_hard_forks := [0; 0; 0; 0] ++ replicate 4 CURRENCY_MAX_BLOCK_NUMBER; nc_pos_minimum_heigh := 0 |}.

(** A block is checked against the difficulty, recorded and added. *)
Definition accept (pos : bool) (timestamp : Z) (stake_hash : hash) : st storage unit :=
  d ← get_next_diff_conditional before_hf4 pos;
  b ← main_chain_entry before_hf4 (demo_block_of pos timestamp) [timestamp] d stake_hash 0 0 0 0 [];
  update (push_block_record [timestamp] b ∅).

(** Two proof-of-stake blocks, then three of proof of work. *)
Definition demo_main : storage :=
  snd ((_ ← accept true 1001 (key_of 5); _ ← accept true 1002 (key_of 5);
        _ ← accept false 1010 []; _ ← accept false 1012 []; accept false 1014 []) (storage_of [demo_genesis])).

(** A branch of one proof-of-stake block on top of the first two. *)
Definition demo_branch : outcome (option block_extended_info) :=
  d ← get_next_diff_conditional_alt before_hf4 true (m_db_blocks demo_main) [] 3 3;
  alt_chain_entry before_hf4 (m_db_blocks demo_main) [] (demo_block_of true 1003) 3 3 d (key_of 9) [].

(** The same chain, the same alternative block: the node that has seen the
    blocks arrive changes branch, the node that restarted in between does
    not. *)
Example remembered_difficulty_decides :
  exists b, demo_branch = Ret (Some b) /\
    fst (is_reorganize_required before_hf4 [b] (key_of 9) demo_main) = Ok true /\
    fst (is_reorganize_required before_hf4 [b] (key_of 9) (storage_of (m_db_blocks demo_main))) = Ok false.
Proof. eexists. split; [vm_compute; reflexivity|]. split; vm_compute; reflexivity. Qed.

(** ** Records that differ

    The tie rule compares the fees of the tips, and the median a record keeps is
    not computed in the same way on the main chain and in an alternative chain:
    of the fees 0, 0 and 4, the first keeps 4 and the second 0.  Each node sees more
    fees in its own tip, and neither changes. *)
Definition demo_tip (timestamp median : Z) (stake_hash : hash) : block_extended_info := {|
  bei_bl := {| bl_header := bl_header (demo_block_of true timestamp); bl_miner_tx := bl_miner_tx (demo_block_of true timestamp);
               bl_tx_hashes := [key_of 1; key_of 2; key_of 3] |};
  bei_height := 1; bei_block_cumulative_size := 0; bei_cumulative_diff_adjusted := 0; bei_cumulative_diff_precise := 1;
  bei_cumulative_diff_precise_adjusted := 1; bei_difficulty := 1; bei_already_generated_coins := 0; bei_stake_hash := stake_hash;
  bei_version := 0; bei_this_block_tx_fee_median := median; bei_effective_tx_fee_median := 0 |}.

Example neither_changes_when_fees_differ :
  fst (is_reorganize_required demo_network [demo_tip 1130 0 (key_of 9)] (key_of 9) (storage_of [demo_genesis; demo_tip 1100 4 (key_of 5)])) = Ok false /\
  fst (is_reorganize_required demo_network [demo_tip 1100 0 (key_of 5)] (key_of 5) (storage_of [demo_genesis; demo_tip 1130 4 (key_of 9)])) = Ok false /\
  fst (is_reorganize_required demo_network [demo_tip 1130 4 (key_of 9)] (key_of 9) (storage_of [demo_genesis; demo_tip 1100 4 (key_of 5)])) = Ok true.
Proof. split; [|split]; vm_compute; reflexivity. Qed.
