(* ===== verification/InputChecks.v ===== *)
(** * Checks of the inputs: [src/src/currency_core/blockchain_storage.cpp, blockchain_storage.h]

    The references of every input are resolved in the main chain, the outputs are
    checked for their locks and mixing rules, and the signatures are verified.
    The verification of signatures is the interface [InputCrypto], with the ones
    of [GatewayCrypto] and [AssetCrypto]. *)

From S2P Require Import Prelude Config HardForks Archive Keccak Pod CryptoTypes Basic Transactions BlockId Offsets HfTerms TxSemantic StateM DbArrays Gateway Assets Aliases TxHardforks Chain Blocks.

Class InputCrypto := {
  validate_key_image : key_image -> bool;
  check_ring_signature : hash -> key_image -> list public_key -> list signature -> bool;
  (** An exception counts as a failed verification. *)
  verify_CLSAG_GGX : hash -> list (public_key * public_key * public_key) -> public_key -> public_key -> key_image ->
    CLSAG_GGX_signature_serialized -> bool
}.

Definition ZANO_HARDFORK_04 : nat := 4.
Definition HARDFORK_06 : nat := 6.
Definition CURRENCY_HF4_MANDATORY_MIN_COINAGE : Z := 10.
Definition CURRENCY_TO_KEY_OUT_FORCED_NO_MIX : Z := 1.
Definition CURRENCY_TO_KEY_OUT_FORCED_MIX_LOWER_BOUND : Z := 2.

Definition native_coin_asset_id : public_key :=
  [214; 50; 155; 91; 31; 124; 8; 5; 181; 195; 69; 244; 149; 117; 84; 0; 42; 47; 85; 120; 69; 246; 77; 118; 69; 218; 224;
   224; 81; 166; 73; 138].

(** ["ZANO_HDS_GW_INPUT_SIGNATURE____"] and its terminating zero. *)
Definition CRYPTO_HDS_GW_INPUT_SIGNATURE : list Z := chars "ZANO_HDS_GW_INPUT_SIGNATURE____" ++ [0].

(** ** Attachments *)

Definition extra_as_attachment_info (p : payload_items_v) : option extra_attachment_info :=
  match p with P_extra_attachment_info x => Some x | _ => None end.
Definition etc_as_attachment_info (p : txin_etc_details_v) : option extra_attachment_info :=
  match p with etc_extra_attachment_info x => Some x | _ => None end.
Definition etc_as_signed_parts (p : txin_etc_details_v) : option signed_parts :=
  match p with etc_signed_parts x => Some x | _ => None end.

Definition no_attachment_info : extra_attachment_info := {| eai_sz := 0; eai_hsh := null_hash; eai_cnt := 0 |}.

(** A failed serialization leaves the value as initialized. *)
Definition get_attachment_extra_info_details (attachment : list payload_items_v) : extra_attachment_info :=
  match attachment with
  | [] => no_attachment_info
  | _ =>
      match t_serializable_object_to_blob (c_vector c_payload_items_v) attachment with
      | None => no_attachment_info
      | Some buff => {| eai_sz := Z.of_nat (List.length buff); eai_hsh := cn_fast_hash buff;
                        eai_cnt := Z.of_nat (List.length attachment) |}
      end
  end.

#[export] Instance extra_attachment_info_eq_dec : EqDecision extra_attachment_info.
Proof. solve_decision. Defined.

(** [found] is the first info of the container. *)
Definition validate_attachment_info (found : option extra_attachment_info) (attachments : list payload_items_v)
    (allow_no_info_for_non_empty_attachments_container : bool) : bool :=
  let n := Z.of_nat (List.length attachments) in
  match found with
  | None =>
      if allow_no_info_for_non_empty_attachments_container then true
      else match attachments with [] => true | _ => false end
  | Some eai =>
      if bool_decide (attachments = []) then false
      else if negb (if allow_no_info_for_non_empty_attachments_container then eai_cnt eai <=? n else eai_cnt eai =? n) then false
      else
        let eai_local := get_attachment_extra_info_details (if eai_cnt eai =? n then attachments else take (Z.to_nat (eai_cnt eai)) attachments) in
        bool_decide (eai = eai_local)
  end.

(** ** What a signature covers *)

Definition get_txin_etc_options (i : txin_v) : list txin_etc_details_v :=
  match i with
  | in_to_key i => ttk_etc_details i
  | in_multisig i => tms_etc_details i
  | in_zc i => tzc_etc_details i
  | _ => []
  end.

(** The counts named by the inputs up to the signed one, each not below the one
    before: outputs, extra entries, attachments. *)
Fixpoint signed_counts (ins : list txin_v) (outs extras att : Z) : option (Z * Z * Z) :=
  match ins with
  | [] => Some (outs, extras, att)
  | i :: ins =>
      so ← get_type_in_variant_container etc_as_signed_parts (get_txin_etc_options i);
      if negb (outs <=? sp_n_outs so) then None
      else if negb (extras <=? sp_n_extras so) then None
      else
        match get_type_in_variant_container etc_as_attachment_info (get_txin_etc_options i) with
        | Some eai =>
            if negb (att <=? eai_cnt eai) then None else signed_counts ins (sp_n_outs so) (sp_n_extras so) (eai_cnt eai)
        | None => signed_counts ins (sp_n_outs so) (sp_n_extras so) att
        end
  end.

Definition cropped (n_ins n_outs n_extras n_att : nat) (tx : transaction) : transaction := {|
  tx_prefix := {| tp_version := version tx; tp_hardfork_id := hardfork_id tx; tp_vin := take n_ins (vin tx);
                  tp_extra := take n_extras (tp_extra (tx_prefix tx)); tp_vout := take n_outs (vout tx) |};
  tx_attachment := take n_att (tx_attachment tx); tx_signatures := tx_signatures tx; tx_proofs := tx_proofs tx |}.

Definition size_Z {A} (l : list A) : Z := Z.of_nat (List.length l).

Definition prepare_prefix_hash_for_sign (tx : transaction) (in_index : nat) (tx_id : hash) : hash :=
  if negb (in_index <? List.length (vin tx))%nat then null_hash
  else if negb (mode_separate tx) then tx_id
  else
    let default_att := match get_type_in_variant_container extra_as_attachment_info (tp_extra (tx_prefix tx)) with
                       | Some eai => eai_cnt eai | None => 0 end in
    match signed_counts (take (in_index + 1) (vin tx)) 0 0 default_att with
    | None => null_hash
    | Some (outs, extras, att) =>
        if (in_index =? List.length (vin tx) - 1)%nat then
          if (outs =? size_Z (vout tx)) && (extras =? size_Z (tp_extra (tx_prefix tx))) && (att =? size_Z (tx_attachment tx)) then tx_id
          else null_hash
        else if (outs <=? size_Z (vout tx)) && (extras <=? size_Z (tp_extra (tx_prefix tx))) && (att <=? size_Z (tx_attachment tx)) then
          get_transaction_hash (cropped (in_index + 1) (Z.to_nat outs) (Z.to_nat extras) (Z.to_nat att) tx)
        else null_hash
    end.

(** ** Rules on a single output *)

Definition is_mixattr_applicable_for_fake_outs_counter (hf4_minimum_mixins out_tx_version mix_attr fake_outputs_count : Z) : bool :=
  if TRANSACTION_VERSION_POST_HF4 <=? out_tx_version then
    if negb (mix_attr =? CURRENCY_TO_KEY_OUT_FORCED_NO_MIX) then hf4_minimum_mixins <=? fake_outputs_count
    else fake_outputs_count =? 0
  else if CURRENCY_TO_KEY_OUT_FORCED_MIX_LOWER_BOUND <=? mix_attr then mix_attr <=? u64 (fake_outputs_count + 1)
  else if mix_attr =? CURRENCY_TO_KEY_OUT_FORCED_NO_MIX then fake_outputs_count =? 0
  else true.

(** Two outputs whose coins were lost are only spent directly. *)
Definition patched_tx_id_1 : hash :=
  default null_hash (parse_tpod_from_hex_string 32 (chars "c2a2229d614e7c026433efbcfdbd0be1f68d9b419220336df3e2c209f5d57314")).
Definition patched_tx_id_2 : hash :=
  default null_hash (parse_tpod_from_hex_string 32 (chars "647f936c6ffbd136f5c95d9a90ad554bdb4c01541c6eb5755ad40b984d80da67")).
Definition patch_out_if_needed (out : txout_to_key) (tx_id : hash) (n : Z) : txout_to_key :=
  if decide ((tx_id = patched_tx_id_1 /\ n = 12) \/ (tx_id = patched_tx_id_2 /\ n = 5)) then
    {| tok_key := tok_key out; tok_mix_attr := CURRENCY_TO_KEY_OUT_FORCED_NO_MIX |}
  else out.

Definition validate_output_key_legit (k : public_key) : bool := bool_decide (k <> null_pkey).

Definition is_output_allowed_for_input (out_v : tx_out_v) (in_v : txin_v) : bool :=
  match out_v with
  | out_bare o => match ob_target o with target_to_key _ => true | target_multisig _ => false end
  | out_zarcanum _ => match in_v with in_zc _ => true | _ => false end
  | out_gateway _ => false
  end.

(** ** Explicit asset ids *)

Definition extra_as_ado (p : payload_items_v) : option asset_descriptor_operation :=
  match p with P_asset_descriptor_operation x => Some x | _ => None end.

Definition is_asset_emitting_transaction (tx : transaction) : bool :=
  if version tx <=? TRANSACTION_VERSION_PRE_HF4 then false
  else
    match get_type_in_variant_container extra_as_ado (tp_extra (tx_prefix tx)) with
    | None => false
    | Some ado => (ado_operation_type ado =? ASSET_DESCRIPTOR_OPERATION_REGISTER) || (ado_operation_type ado =? ASSET_DESCRIPTOR_OPERATION_EMIT)
    end.

Definition check_tx_explicit_asset_id_rules (tx : transaction) (all_tx_ins_have_explicit_native_asset_ids : bool) : bool :=
  if version tx <=? TRANSACTION_VERSION_PRE_HF4 then true
  else
    let explicit := all_tx_ins_have_explicit_native_asset_ids && negb (is_asset_emitting_transaction tx) in
    forallb (fun o =>
      match o with
      | out_zarcanum out_zc =>
          if explicit then bool_decide (oz_blinded_asset_id out_zc = native_coin_asset_id_1div8)
          else bool_decide (oz_stealth_address out_zc = null_pkey) || bool_decide (oz_blinded_asset_id out_zc <> native_coin_asset_id_1div8)
      | out_gateway _ => true
      | out_bare _ => false
      end) (vout tx).

(** ** The state the checks read *)

(** The part of [core_runtime_config] the checks and the memory pool read. *)
Record runtime_config : Type := {
  rc_hard_forks : hard_forks_descriptor;
  rc_min_coinstake_age : Z;
  rc_hf4_minimum_mixins : Z;
  rc_core_time : Z;
  rc_tx_pool_min_fee : Z
}.

Record blockchain {TO TG SV : Type} : Type := {
  bc_chain : chain TO TG SV;
  bc_storage : Blocks.storage;
  bc_alternative_chains_txs : gset hash;
  bc_is_in_checkpoint_zone : bool;
  bc_db_major_failure : bool
}.
Arguments blockchain : clear implicits.

Record check_tx_inputs_context : Type := {
  check_hf4_coinage_rule : bool;
  calculate_max_used_block_id : bool;
  max_used_block_id : hash;
  max_used_block_height : Z;
  all_tx_ins_have_explicit_native_asset_ids : bool
}.

Definition set_max_used_block_height (h : Z) (c : check_tx_inputs_context) : check_tx_inputs_context :=
  {| check_hf4_coinage_rule := check_hf4_coinage_rule c; calculate_max_used_block_id := calculate_max_used_block_id c;
     max_used_block_id := max_used_block_id c; max_used_block_height := h;
     all_tx_ins_have_explicit_native_asset_ids := all_tx_ins_have_explicit_native_asset_ids c |}.
Definition set_max_used_block_id (id : hash) (c : check_tx_inputs_context) : check_tx_inputs_context :=
  {| check_hf4_coinage_rule := check_hf4_coinage_rule c; calculate_max_used_block_id := calculate_max_used_block_id c;
     max_used_block_id := id; max_used_block_height := max_used_block_height c;
     all_tx_ins_have_explicit_native_asset_ids := all_tx_ins_have_explicit_native_asset_ids c |}.
Definition clear_explicit_native (c : check_tx_inputs_context) : check_tx_inputs_context :=
  {| check_hf4_coinage_rule := check_hf4_coinage_rule c; calculate_max_used_block_id := calculate_max_used_block_id c;
     max_used_block_id := max_used_block_id c; max_used_block_height := max_used_block_height c;
     all_tx_ins_have_explicit_native_asset_ids := false |}.

(** What scanning the references of one input collects. *)
Record scan_state : Type := {
  sc_output_keys : list public_key;
  sc_zc_outs : list tx_out_zarcanum;
  sc_source_max_unlock_time : Z;
  sc_max_related_block_height : Z
}.
Definition add_output_key (k : public_key) (s : scan_state) : scan_state :=
  {| sc_output_keys := sc_output_keys s ++ [k]; sc_zc_outs := sc_zc_outs s;
     sc_source_max_unlock_time := sc_source_max_unlock_time s; sc_max_related_block_height := sc_max_related_block_height s |}.
Definition add_zc_out (o : tx_out_zarcanum) (s : scan_state) : scan_state :=
  {| sc_output_keys := sc_output_keys s; sc_zc_outs := sc_zc_outs s ++ [o];
     sc_source_max_unlock_time := sc_source_max_unlock_time s; sc_max_related_block_height := sc_max_related_block_height s |}.
Definition raise_unlock_time (t : Z) (s : scan_state) : scan_state :=
  {| sc_output_keys := sc_output_keys s; sc_zc_outs := sc_zc_outs s;
     sc_source_max_unlock_time := if sc_source_max_unlock_time s <? t then t else sc_source_max_unlock_time s;
     sc_max_related_block_height := sc_max_related_block_height s |}.
Definition raise_height (h : Z) (s : scan_state) : scan_state :=
  {| sc_output_keys := sc_output_keys s; sc_zc_outs := sc_zc_outs s;
     sc_source_max_unlock_time := sc_source_max_unlock_time s;
     sc_max_related_block_height := if sc_max_related_block_height s <? h then h else sc_max_related_block_height s |}.

Section checks.
Context `{GatewayCrypto, AssetCrypto, InputCrypto}.
Context {TO TG SV : Type} {AO : ArrayStore Z global_output_entry TO}.
Context (rc : runtime_config) (b : blockchain TO TG SV).

(** ** Queries *)

Definition get_current_blockchain_size : Z := size_Z (m_db_blocks (bc_storage b)).
Definition get_top_block_height : Z := u64 (get_current_blockchain_size - 1).
Definition get_block_id_by_height (height : Z) : hash :=
  match m_db_blocks (bc_storage b) !! Z.to_nat height with
  | Some e => get_block_hash (bei_bl e)
  | None => null_hash
  end.
Definition is_hardfork_active (hardfork_id : nat) : outcome bool :=
  is_hardfork_active_for_height hardfork_id get_current_blockchain_size (rc_hard_forks rc).

(** Only the cache of the medians changes, which no other query reads. *)
Definition get_tx_expiration_median : Z :=
  match get_last_n_blocks_timestamps_median (Z.to_nat TX_EXPIRATION_TIMESTAMP_CHECK_WINDOW) (bc_storage b) with
  | (Ok m, _) => m
  | _ => 0
  end.

Definition have_tx_keyimg_as_spent_before (key_im : key_image) (before_height : Z) : bool :=
  match m_db_spent_keys (bc_chain b) !! key_im with
  | None => false
  | Some h => h <? before_height
  end.
(** [before_height] is [UINT64_MAX]. *)
Definition have_tx_keyimg_as_spent (key_im : key_image) : bool := have_tx_keyimg_as_spent_before key_im UINT64_MAX.

Definition has_multisig_output (multisig_id : hash) : bool :=
  bool_decide (is_Some (m_db_multisig_outs (bc_chain b) !! multisig_id)).

Definition is_multisig_output_spent (multisig_id : hash) : bool :=
  match m_db_multisig_outs (bc_chain b) !! multisig_id with
  | None => false
  | Some ms =>
      match m_db_transactions (bc_chain b) !! moe_tx_id ms with
      | None => true
      | Some e => match m_spent_flags e !! Z.to_nat (moe_out_no ms) with Some f => f | None => true end
      end
  end.

Definition input_as_spent (i : txin_v) : bool :=
  match get_key_image_from_txin_v i with
  | Some ki => have_tx_keyimg_as_spent ki
  | None => match i with in_multisig ms => is_multisig_output_spent (tms_multisig_out_id ms) | _ => false end
  end.
Definition have_tx_keyimges_as_spent (tx : transaction) : bool := existsb input_as_spent (vin tx).

Definition is_tx_related_to_altblock (tx_id : hash) : bool := bool_decide (tx_id ∈ bc_alternative_chains_txs b).

(** ** The references of an input *)

(** [outputs_visitor::handle_output]. *)
Definition handle_output (source_tx_ptr : transaction_chain_entry) (validated_tx : transaction) (out_v : tx_out_v) (out_i : nat)
    : st scan_state unit :=
  hf6 ← lift_outcome (is_hardfork_active HARDFORK_06);
  _ ← (if hf6 && is_coinbase (tce_tx source_tx_ptr) then
         _ ← check (m_keeper_block_height source_tx_ptr <=? get_current_blockchain_size);
         check (rc_min_coinstake_age rc <=? get_current_blockchain_size - m_keeper_block_height source_tx_ptr)
       else mret tt);
  source_out_unlock_time ← lift_outcome (get_tx_unlock_time (tce_tx source_tx_ptr) out_i);
  _ ← (if is_pos_miner_tx validated_tx then
         _ ← check (source_out_unlock_time <? CURRENCY_MAX_BLOCK_NUMBER);
         update (raise_unlock_time source_out_unlock_time)
       else check (is_tx_spendtime_unlocked source_out_unlock_time get_current_blockchain_size (rc_core_time rc)));
  match out_v with
  | out_bare out => match ob_target out with target_to_key out_tk => update (add_output_key (tok_key out_tk)) | target_multisig _ => fail end
  | out_zarcanum out_zc => update (add_zc_out out_zc)
  | out_gateway _ => mret tt
  end.

(** The transaction and the position a reference names. *)
Definition resolve_ref (amount outs_count_for_amount : Z) (o : txout_ref_v) : st scan_state (hash * Z) :=
  match o with
  | ref_id r => mret (rbi_tx_id r, rbi_n r)
  | ref_global_index i =>
      _ ← check (i <? outs_count_for_amount);
      out_ptr ← lift (deref (arr_get (m_db_outputs (bc_chain b)) amount i));
      mret (goe_tx_id out_ptr, goe_out_no out_ptr)
  end.

Definition scan_ref (validated_tx : transaction) (verified_input : txin_v) (hf4 : bool) (outs_count_for_amount : Z) (o : txout_ref_v)
    : st scan_state unit :=
  let fake_outputs := size_Z (key_offsets_of verified_input) - 1 in
  '(tx_id, n) ← resolve_ref (get_amount_from_variant verified_input) outs_count_for_amount o;
  tx_ptr ← some (m_db_transactions (bc_chain b) !! tx_id);
  out_v ← some (vout (tce_tx tx_ptr) !! Z.to_nat n);
  _ ← match out_v with
      | out_bare ob =>
          _ ← check (is_output_allowed_for_input out_v verified_input);
          match ob_target ob with
          | target_to_key outtk =>
              let outtk := patch_out_if_needed outtk tx_id n in
              _ ← check (is_mixattr_applicable_for_fake_outs_counter (rc_hf4_minimum_mixins rc) (version (tce_tx tx_ptr))
                           (tok_mix_attr outtk) fake_outputs);
              _ ← (if hf4 then check (validate_output_key_legit (tok_key outtk)) else mret tt);
              handle_output tx_ptr validated_tx out_v (Z.to_nat n)
          | target_multisig _ => fail
          end
      | out_zarcanum out_zc =>
          _ ← check (is_output_allowed_for_input out_v verified_input);
          _ ← check (is_mixattr_applicable_for_fake_outs_counter (rc_hf4_minimum_mixins rc) (version (tce_tx tx_ptr))
                       (oz_mix_attr out_zc) fake_outputs);
          _ ← check (validate_output_key_legit (oz_stealth_address out_zc));
          handle_output tx_ptr validated_tx out_v (Z.to_nat n)
      | out_gateway _ => throw_unless false
      end;
  update (raise_height (m_keeper_block_height tx_ptr)).

Definition scan_outputkeys_for_indexes (validated_tx : transaction) (verified_input : txin_v) (coinage_rule : bool) : st scan_state unit :=
  hf4 ← lift_outcome (is_hardfork_active ZANO_HARDFORK_04);
  let outs_count_for_amount := arr_size (m_db_outputs (bc_chain b)) (get_amount_from_variant verified_input) in
  _ ← check (negb (outs_count_for_amount =? 0));
  absolute_offsets ← lift_outcome (relative_output_offsets_to_absolute (key_offsets_of verified_input));
  _ ← for_each (scan_ref validated_tx verified_input hf4 outs_count_for_amount) absolute_offsets;
  if coinage_rule && hf4 then
    max_related_block_height ← read sc_max_related_block_height;
    check (CURRENCY_HF4_MANDATORY_MIN_COINAGE <=? u64 (get_current_blockchain_size - max_related_block_height))
  else mret tt.

(** A scan from the height reached so far, with empty collections: the height
    stays raised even when the scan fails. *)
Definition get_output_keys_for_input_with_checks (tx : transaction) (verifying_input : txin_v) (coinage_rule : bool)
    : st check_tx_inputs_context scan_state := fun c =>
  let '(r, sc) := scan_outputkeys_for_indexes tx verifying_input coinage_rule
    {| sc_output_keys := []; sc_zc_outs := []; sc_source_max_unlock_time := 0; sc_max_related_block_height := max_used_block_height c |} in
  let c := set_max_used_block_height (sc_max_related_block_height sc) c in
  match r with Ok _ => (Ok sc, c) | Fail => (Fail, c) | Exn => (Exn, c) end.

(** ** Signatures *)

Definition NLSAG_of (s : signature_v) : option (list signature) := match s with sig_NLSAG s => Some s | _ => None end.
Definition ZC_of (s : signature_v) : option ZC_sig := match s with sig_ZC s => Some s | _ => None end.
Definition gateway_of (s : signature_v) : option gateway_sig := match s with sig_gateway s => Some s | _ => None end.

(** The attachment info of an input: with separate signatures it describes the
    attachments the input covers, and only the last input needs one; otherwise
    there is none. *)
Definition check_input_attachment_info (tx : transaction) (in_index : nat) (etc_details : list txin_etc_details_v) : bool :=
  let found := get_type_in_variant_container etc_as_attachment_info etc_details in
  if mode_separate tx then validate_attachment_info found (tx_attachment tx) (negb (in_index =? List.length (vin tx) - 1)%nat)
  else bool_decide (found = None).

(** The last input of a transaction with separate signatures has one signature
    more. *)
Definition need_to_check_extra_sign (tx : transaction) (in_index : nat) : bool :=
  mode_separate tx && (in_index =? List.length (vin tx) - 1)%nat.
Definition check_extra_sign (tx : transaction) (in_index : nat) (tx_prefix_hash : hash) (sigs : list signature) : bool :=
  if need_to_check_extra_sign tx in_index then
    match last sigs with Some s => check_signature tx_prefix_hash (get_tx_pub_key_from_extra tx) s | None => false end
  else true.
Definition expected_signatures_count (tx : transaction) (in_index : nat) (n : Z) : Z :=
  if need_to_check_extra_sign tx in_index then n + 1 else n.

Definition check_input_signature (tx : transaction) (in_index : nat) (in_k_image : key_image) (in_etc_details : list txin_etc_details_v)
    (tx_prefix_hash : hash) (output_keys : list public_key) : st check_tx_inputs_context unit :=
  if bc_is_in_checkpoint_zone b then mret tt
  else
    let actual_sig_index := if is_pos_miner_tx tx then O else in_index in
    s ← some (tx_signatures tx !! actual_sig_index);
    sig ← some (NLSAG_of s);
    _ ← check (check_input_attachment_info tx in_index in_etc_details);
    _ ← check (expected_signatures_count tx in_index (size_Z output_keys) =? size_Z sig);
    let tx_hash_for_signature := prepare_prefix_hash_for_sign tx in_index tx_prefix_hash in
    _ ← check (bool_decide (tx_hash_for_signature <> null_hash));
    _ ← check (validate_key_image in_k_image);
    _ ← check (check_ring_signature tx_hash_for_signature in_k_image output_keys sig);
    check (check_extra_sign tx in_index tx_prefix_hash sig).

Definition check_tx_input_to_key (tx : transaction) (in_index : nat) (txin : txin_to_key) (tx_prefix_hash : hash)
    : st check_tx_inputs_context unit :=
  sc ← get_output_keys_for_input_with_checks tx (in_to_key txin) true;
  _ ← check (List.length (ttk_key_offsets txin) =? List.length (sc_output_keys sc))%nat;
  check_input_signature tx in_index (ttk_k_image txin) (ttk_etc_details txin) tx_prefix_hash (sc_output_keys sc).

(** Each signature is tried on the keys after the one of the signature before. *)
Fixpoint ms_signatures_loop (h : hash) (keys : list public_key) (sigs : list signature) : bool :=
  match sigs with
  | [] => true
  | s :: sigs' =>
      match keys with
      | [] => false
      | k :: keys => if check_signature h k s then ms_signatures_loop h keys sigs' else ms_signatures_loop h keys sigs
      end
  end.

Definition check_ms_input (tx : transaction) (in_index : nat) (txin : txin_multisig) (tx_prefix_hash : hash) (source_tx : transaction)
    (out_n : nat) : st check_tx_inputs_context unit :=
  unlock_time ← lift_outcome (get_tx_unlock_time source_tx out_n);
  _ ← check (is_tx_spendtime_unlocked unlock_time get_current_blockchain_size (rc_core_time rc));
  o ← some (vout source_tx !! out_n);
  source_tx_out ← some (match o with out_bare o => Some o | _ => None end);
  source_ms_out_target ← lift (match ob_target source_tx_out with target_multisig ms => Ok ms | target_to_key _ => Exn end);
  _ ← check (tms_sigs_count txin =? oms_minimum_sigs source_ms_out_target);
  _ ← check (ob_amount source_tx_out =? tms_amount txin);
  if bc_is_in_checkpoint_zone b then mret tt
  else
    _ ← check (check_input_attachment_info tx in_index (tms_etc_details txin));
    s ← some (tx_signatures tx !! in_index);
    input_signatures ← some (NLSAG_of s);
    _ ← check (expected_signatures_count tx in_index (tms_sigs_count txin) =? size_Z input_signatures);
    let tx_hash_for_signature := prepare_prefix_hash_for_sign tx in_index tx_prefix_hash in
    _ ← check (bool_decide (tx_hash_for_signature <> null_hash));
    _ ← check (tms_sigs_count txin <=? size_Z (oms_keys source_ms_out_target));
    _ ← check (ms_signatures_loop tx_hash_for_signature (oms_keys source_ms_out_target)
                 (take (Z.to_nat (tms_sigs_count txin)) input_signatures));
    check (check_extra_sign tx in_index tx_prefix_hash input_signatures).

(** The height is set, not raised. *)
Definition check_tx_input_multisig (tx : transaction) (in_index : nat) (txin : txin_multisig) (tx_prefix_hash : hash)
    : st check_tx_inputs_context unit :=
  multisig_ptr ← some (m_db_multisig_outs (bc_chain b) !! tms_multisig_out_id txin);
  let n := Z.to_nat (moe_out_no multisig_ptr) in
  _ ← check (moe_spent_height multisig_ptr =? 0);
  source_tx_ptr ← some (m_db_transactions (bc_chain b) !! moe_tx_id multisig_ptr);
  o ← some (vout (tce_tx source_tx_ptr) !! n);
  source_tx_out ← some (match o with out_bare o => Some o | _ => None end);
  _ ← check (match ob_target source_tx_out with target_multisig _ => true | target_to_key _ => false end);
  flag ← some (m_spent_flags source_tx_ptr !! n);
  _ ← check (negb flag);
  _ ← check_ms_input tx in_index txin tx_prefix_hash (tce_tx source_tx_ptr) n;
  update (set_max_used_block_height (m_keeper_block_height source_tx_ptr)).

(** Whether the asset of every member of the ring is the native coin; not
    looked at once the answer is known, and a key that is no point throws. *)
Fixpoint note_ring_assets (ring : list tx_out_zarcanum) : st check_tx_inputs_context unit :=
  match ring with
  | [] => mret tt
  | zc_out :: ring =>
      explicit ← read all_tx_ins_have_explicit_native_asset_ids;
      _ ← (if explicit : bool then
             p ← lift (match from_public_key (oz_blinded_asset_id zc_out) with Some p => Ok p | None => Exn end);
             if decide (to_public_key (modify_mul8 p) = native_coin_asset_id) then mret tt else update clear_explicit_native
           else mret tt);
      note_ring_assets ring
  end.

Definition check_tx_input_zc (tx : transaction) (in_index : nat) (zc_in : txin_zc_input) (tx_prefix_hash : hash)
    : st check_tx_inputs_context unit :=
  coinage_rule ← read check_hf4_coinage_rule;
  sc ← get_output_keys_for_input_with_checks tx (in_zc zc_in) coinage_rule;
  if bc_is_in_checkpoint_zone b then mret tt
  else
    _ ← check (List.length (sc_zc_outs sc) =? List.length (tzc_key_offsets zc_in))%nat;
    s ← some (tx_signatures tx !! in_index);
    sig ← some (ZC_of s);
    _ ← note_ring_assets (sc_zc_outs sc);
    let tx_hash_for_signature := prepare_prefix_hash_for_sign tx in_index tx_prefix_hash in
    _ ← check (bool_decide (tx_hash_for_signature <> null_hash));
    check (verify_CLSAG_GGX tx_hash_for_signature
      (map (fun o => (oz_stealth_address o, oz_amount_commitment o, oz_blinded_asset_id o)) (sc_zc_outs sc))
      (zcs_pseudo_out_amount_commitment sig) (zcs_pseudo_out_blinded_asset_id sig) (tzc_k_image zc_in) (zcs_clsags_ggx sig)).

Definition check_tx_input_gateway (tx : transaction) (in_index : nat) (gw_in : txin_gateway) (tx_prefix_hash : hash)
    : st check_tx_inputs_context unit :=
  if bc_is_in_checkpoint_zone b then mret tt
  else
    let tx_hash_for_signature := prepare_prefix_hash_for_sign tx in_index tx_prefix_hash in
    _ ← check (bool_decide (tx_hash_for_signature <> null_hash));
    s ← some (tx_signatures tx !! in_index);
    sig ← some (gateway_of s);
    gw_entry_ptr ← some (m_db_gateway_addresses (bc_chain b) !! tgw_gateway_addr gw_in);
    info ← some (last (gad_info_history gw_entry_ptr));
    let hash_to_verify_gw_input := cn_fast_hash (CRYPTO_HDS_GW_INPUT_SIGNATURE ++ tx_hash_for_signature) in
    _ ← check
      (match gadb_owner_key info, gws_s sig with
       | gok_public_key pkey, gos_generic_schnorr_sig_s signature => verify_schnorr_sig hash_to_verify_gw_input pkey signature
       | gok_eth_public_key pkey, gos_eth_signature signature => verify_eth_signature hash_to_verify_gw_input pkey signature
       | gok_eddsa_public_key pkey, gos_eddsa_signature signature => verify_eddsa_signature hash_to_verify_gw_input pkey signature
       | _, _ => false
       end);
    if decide (tgw_asset_id gw_in = native_coin_asset_id_1div8) then mret tt else update clear_explicit_native.

Definition check_tx_input (tx : transaction) (sig_index : nat) (txin : txin_v) (tx_prefix_hash : hash) : st check_tx_inputs_context unit :=
  match txin with
  | in_to_key i =>
      _ ← check (negb (bool_decide (ttk_key_offsets i = [])));
      _ ← check (negb (have_tx_keyimg_as_spent (ttk_k_image i)));
      check_tx_input_to_key tx sig_index i tx_prefix_hash
  | in_multisig i => check_tx_input_multisig tx sig_index i tx_prefix_hash
  | in_zc i =>
      _ ← check (negb (have_tx_keyimg_as_spent (tzc_k_image i)));
      check_tx_input_zc tx sig_index i tx_prefix_hash
  | in_gateway i => check_tx_input_gateway tx sig_index i tx_prefix_hash
  | in_gen _ => throw_unless false
  end.

Fixpoint check_inputs_loop (tx : transaction) (sig_index : nat) (ins : list txin_v) (tx_prefix_hash : hash)
    : st check_tx_inputs_context unit :=
  match ins with
  | [] => mret tt
  | i :: ins =>
      _ ← check_tx_input tx sig_index i tx_prefix_hash;
      check_inputs_loop tx (S sig_index) ins tx_prefix_hash
  end.

Definition check_tx_inputs (tx : transaction) (tx_prefix_hash : hash) : st check_tx_inputs_context unit :=
  _ ← update (set_max_used_block_height 0);
  _ ← check_inputs_loop tx 0 (vin tx) tx_prefix_hash;
  _ ← (if bc_is_in_checkpoint_zone b then mret tt
       else
         _ ← check (List.length (tx_signatures tx) =? List.length (vin tx))%nat;
         _ ← (if negb (mode_separate tx) then
                check (validate_attachment_info (get_type_in_variant_container extra_as_attachment_info (tp_extra (tx_prefix tx)))
                         (tx_attachment tx) false)
              else mret tt);
         explicit ← read all_tx_ins_have_explicit_native_asset_ids;
         check (check_tx_explicit_asset_id_rules tx explicit));
  calculate ← read calculate_max_used_block_id;
  if calculate : bool then
    h ← read max_used_block_height;
    e ← some (m_db_blocks (bc_storage b) !! Z.to_nat h);
    update (set_max_used_block_id (get_block_hash (bei_bl e)))
  else mret tt.

End checks.
