(* ===== verification/InputSpec.v ===== *)
(** * What the checks of the inputs guarantee

    The declarative counterparts of the checks of [InputChecks]: the outputs an
    accepted transaction refers to, the signatures it carries and the height that
    is remembered for it. *)

From stdpp Require Import sorting.
From S2P Require Import Prelude Config HardForks Archive Keccak Pod CryptoTypes Basic Transactions BlockId Offsets HfTerms TxSemantic StateM DbArrays Gateway Assets Aliases TxHardforks Chain Blocks InputChecks.

Section spec.
Context `{GatewayCrypto, AssetCrypto, InputCrypto}.
Context {TO TG SV : Type} {AO : ArrayStore Z global_output_entry TO}.
Context (rc : runtime_config) (b : blockchain TO TG SV).

(** ** Outputs behind references *)

Definition ref_source (amount : Z) (o : txout_ref_v) : option (hash * Z) :=
  match o with
  | ref_id r => Some (rbi_tx_id r, rbi_n r)
  | ref_global_index i =>
      match arr_get (m_db_outputs (bc_chain b)) amount i with
      | Ok (Some out_ptr) => Some (goe_tx_id out_ptr, goe_out_no out_ptr)
      | _ => None
      end
  end.

(** The transaction, the position and the output a reference names. *)
Definition ref_output (amount : Z) (o : txout_ref_v) : option (transaction_chain_entry * nat * tx_out_v) :=
  '(tx_id, n) ← ref_source amount o;
  e ← m_db_transactions (bc_chain b) !! tx_id;
  out ← vout (tce_tx e) !! Z.to_nat n;
  Some (e, Z.to_nat n, out).

(** The output may be spent by a transaction of the next block. *)
Record matured (e : transaction_chain_entry) (n : nat) : Prop := {
  mat_unlocked : exists t, get_tx_unlock_time (tce_tx e) n = Ret t /\
    is_tx_spendtime_unlocked t (get_current_blockchain_size b) (rc_core_time rc) = true;
  mat_coinbase : is_hardfork_active rc b HARDFORK_06 = Ret true -> is_coinbase (tce_tx e) = true ->
    m_keeper_block_height e + rc_min_coinstake_age rc <= get_current_blockchain_size b
}.

Definition out_keys (out : tx_out_v) : list public_key :=
  match out with out_bare o => match ob_target o with target_to_key k => [tok_key k] | target_multisig _ => [] end | _ => [] end.
Definition out_zc (out : tx_out_v) : list tx_out_zarcanum := match out with out_zarcanum o => [o] | _ => [] end.

(** A member of the ring of an input. *)
Definition ring_member (in_v : txin_v) (o : txout_ref_v) (m : transaction_chain_entry * nat * tx_out_v) : Prop :=
  ref_output (get_amount_from_variant in_v) o = Some m /\
  is_output_allowed_for_input m.2 in_v = true /\ matured m.1.1 m.1.2.

Definition member_height (m : transaction_chain_entry * nat * tx_out_v) : Z := m_keeper_block_height m.1.1.
Definition latest (h : Z) (l : list Z) : Z := fold_left Z.max l h.

Lemma latest_cons h x l : latest h (x :: l) = latest (Z.max h x) l.
Proof. done. Qed.
Lemma latest_app h l l' : latest h (l ++ l') = latest (latest h l) l'.
Proof. apply fold_left_app. Qed.
Lemma latest_ge h l : h <= latest h l /\ Forall (fun x => x <= latest h l) l.
Proof.
  revert h. induction l as [|x l IH]; intros h; [split; [done|constructor]|]. rewrite latest_cons.
  destruct (IH (Z.max h x)) as [Hh Hl]. split; [lia|]. constructor; [lia|done].
Qed.

Lemma handle_output_ok e tx out n s s' : is_pos_miner_tx tx = false -> handle_output rc b e tx out n s = (Ok tt, s') ->
  matured e n /\ sc_output_keys s' = sc_output_keys s ++ out_keys out /\ sc_zc_outs s' = sc_zc_outs s ++ out_zc out /\
  sc_max_related_block_height s' = sc_max_related_block_height s.
Proof.
  intros Hpos E. unfold handle_output in E.
  apply bind_ok in E as (hf6 & s1 & Ehf & E). apply lift_outcome_ok in Ehf as [Ehf <-].
  apply bind_ok in E as ([] & s1 & Ecb & E). apply bind_ok in E as (t & s2 & Et & E). apply lift_outcome_ok in Et as [Et <-].
  apply bind_ok in E as ([] & s2 & Eun & E). rewrite Hpos in Eun. st_inv Eun.
  assert (s = s2 /\ (hf6 && is_coinbase (tce_tx e) = true ->
    m_keeper_block_height e + rc_min_coinstake_age rc <= get_current_blockchain_size b)) as [<- Hcb].
  { destruct (hf6 && is_coinbase (tce_tx e)); st_inv Ecb; zbool; split; try done. intros _. lia. }
  split; [split; [by exists t|]|].
  { intros Ha Hc. apply Hcb. rewrite Ehf in Ha. injection Ha as ->. by rewrite Hc. }
  unfold out_keys, out_zc. destruct out as [o| |]; [destruct (ob_target o)|..]; st_inv E; cbn; by rewrite ?app_nil_r.
Qed.

Lemma resolve_ref_ok amount count o s r s' : resolve_ref b amount count o s = (Ok r, s') -> ref_source amount o = Some r /\ s' = s.
Proof.
  unfold resolve_ref, ref_source. destruct o as [i|i]; intros E.
  - apply bind_ok in E as ([] & s1 & Ec & E). st_inv Ec. apply bind_ok in E as (g & s2 & El & E). st_inv El. st_inv E.
    unfold deref in *. destruct (arr_get _ _ _) as [[]| |]; try done. by simplify_eq.
  - by st_inv E.
Qed.

Lemma scan_ref_ok tx in_v hf4 count o s s' : is_pos_miner_tx tx = false -> scan_ref rc b tx in_v hf4 count o s = (Ok tt, s') ->
  exists m, ring_member in_v o m /\ sc_output_keys s' = sc_output_keys s ++ out_keys m.2 /\
    sc_zc_outs s' = sc_zc_outs s ++ out_zc m.2 /\
    sc_max_related_block_height s' = Z.max (sc_max_related_block_height s) (member_height m).
Proof.
  intros Hpos E. unfold scan_ref in E. apply bind_ok in E as ([tx_id n] & s1 & Er & E).
  apply resolve_ref_ok in Er as [Er ->].
  apply bind_ok in E as (e & s1 & Ee & E). apply some_ok in Ee as [Ee <-].
  apply bind_ok in E as (out & s1 & Eo & E). apply some_ok in Eo as [Eo <-].
  apply bind_ok in E as ([] & s1 & Eh & E). apply update_ok in E.
  assert (is_output_allowed_for_input out in_v = true /\ handle_output rc b e tx out (Z.to_nat n) s = (Ok tt, s1)) as [Hal Hh].
  { destruct out as [ob|oz|og].
    - apply bind_ok in Eh as ([] & s2 & Ea & Eh). apply check_ok in Ea as [Ea <-]. split; [done|]. destruct (ob_target ob); [|done].
      apply bind_ok in Eh as ([] & s2 & Em & Eh). apply check_ok in Em as [_ <-].
      apply bind_ok in Eh as ([] & s2 & Em & Eh). by destruct hf4; st_inv Em.
    - apply bind_ok in Eh as ([] & s2 & Ea & Eh). apply check_ok in Ea as [Ea <-]. split; [done|].
      apply bind_ok in Eh as ([] & s2 & Em & Eh). apply check_ok in Em as [_ <-].
      by apply bind_ok in Eh as ([] & s2 & Em & Eh); apply check_ok in Em as [_ <-].
    - done. }
  apply handle_output_ok in Hh as (Hm & Hk & Hz & Hmax); [|done].
  exists (e, Z.to_nat n, out). split; [|subst s'; cbn; repeat split; try done].
  - split; [|done]. unfold ref_output. by rewrite Er; cbn; rewrite Ee; cbn; rewrite Eo.
  - rewrite Hmax. destruct (Z.ltb_spec (sc_max_related_block_height s) (m_keeper_block_height e)); unfold member_height; cbn; lia.
Qed.

Lemma scan_loop_ok tx in_v hf4 count refs s s' : is_pos_miner_tx tx = false ->
  for_each (scan_ref rc b tx in_v hf4 count) refs s = (Ok tt, s') ->
  exists ms, Forall2 (ring_member in_v) refs ms /\ sc_output_keys s' = sc_output_keys s ++ (ms ≫= (fun m => out_keys m.2)) /\
    sc_zc_outs s' = sc_zc_outs s ++ (ms ≫= (fun m => out_zc m.2)) /\
    sc_max_related_block_height s' = latest (sc_max_related_block_height s) (map member_height ms).
Proof.
  intros Hpos. revert s. induction refs as [|o refs IH]; intros s E.
  { cbn in E. apply ret_ok in E as [_ ->]. exists []. split; [constructor|]. cbn. by rewrite !app_nil_r. }
  apply for_each_cons_ok in E as (s1 & Eo & E). apply scan_ref_ok in Eo as (m & Hm & Hk & Hz & Hmax); [|done].
  destruct (IH _ E) as (ms & Hms & Hk' & Hz' & Hmax'). exists (m :: ms). split; [by constructor|].
  cbn [mbind list_bind map]. rewrite latest_cons, <- Hmax, Hk', Hz', Hk, Hz, <- !app_assoc. done.
Qed.

(** A ring that passed: the members in the order of the references. *)
Definition ring_resolved (in_v : txin_v) (refs : list txout_ref_v) (ms : list (transaction_chain_entry * nat * tx_out_v)) : Prop :=
  relative_output_offsets_to_absolute (key_offsets_of in_v) = Ret refs /\ Forall2 (ring_member in_v) refs ms.

Lemma get_output_keys_ok tx in_v coinage c sc c' : is_pos_miner_tx tx = false ->
  get_output_keys_for_input_with_checks rc b tx in_v coinage c = (Ok sc, c') ->
  exists refs ms, ring_resolved in_v refs ms /\ sc_output_keys sc = (ms ≫= (fun m => out_keys m.2)) /\
    sc_zc_outs sc = (ms ≫= (fun m => out_zc m.2)) /\
    c' = set_max_used_block_height (latest (max_used_block_height c) (map member_height ms)) c.
Proof.
  intros Hpos E. unfold get_output_keys_for_input_with_checks in E.
  destruct (scan_outputkeys_for_indexes _ _ _ _ _ _) as [r s'] eqn:Es. destruct r as [[]| |]; [|done..]. injection E as -> <-.
  unfold scan_outputkeys_for_indexes in Es. apply bind_ok in Es as (hf4 & s1 & Ehf & Es). apply lift_outcome_ok in Ehf as [Ehf <-].
  apply bind_ok in Es as ([] & s1 & Ec & Es). apply check_ok in Ec as [_ <-].
  apply bind_ok in Es as (refs & s1 & Er & Es). apply lift_outcome_ok in Er as [Er <-].
  apply bind_ok in Es as ([] & s1 & El & Es). apply scan_loop_ok in El as (ms & Hms & Hk & Hz & Hmax); [|done].
  assert (s1 = sc) as ->. { by destruct (coinage && hf4); st_inv Es. }
  exists refs, ms. split; [done|]. by rewrite Hmax, Hk, Hz.
Qed.

(** ** Signatures of a multisignature output

    Trying the keys one after the other finds the keys of the signatures whenever
    some of the keys, in their order, have signed. *)

Lemma ms_signatures_loop_spec h keys sigs :
  ms_signatures_loop h keys sigs = true <->
  exists ks, ks `sublist_of` keys /\ Forall2 (fun k s => check_signature h k s = true) ks sigs.
Proof.
  revert sigs. induction keys as [|k keys IH]; intros sigs.
  - destruct sigs as [|s sigs]; cbn; split; try done.
    + intros _. exists []. split; [apply sublist_nil|constructor].
    + intros (ks & Hs & Hk). apply sublist_nil_r in Hs as ->. by apply Forall2_nil_inv_l in Hk.
  - destruct sigs as [|s sigs].
    { cbn. split; [|done]. intros _. exists []. split; [apply sublist_nil_l|constructor]. }
    cbn [ms_signatures_loop]. destruct (check_signature h k s) eqn:E; rewrite IH; split.
    + intros (ks & Hs & Hk). exists (k :: ks). split; [by apply sublist_skip|by constructor].
    + intros (ks & Hs & Hk). apply Forall2_cons_inv_r in Hk as (k' & ks' & _ & Hk' & ->).
      exists ks'. split; [|done]. apply sublist_cons_r in Hs as [Hs|(l & [= -> <-] & Hs)]; [|done].
      transitivity (k' :: ks'); [by apply sublist_cons|done].
    + intros (ks & Hs & Hk). exists ks. split; [by apply sublist_cons|done].
    + intros (ks & Hs & Hk). exists ks. split; [|done].
      apply sublist_cons_r in Hs as [Hs|(l & -> & Hs)]; [done|]. apply Forall2_cons_inv_l in Hk as (? & ? & ? & ? & ?). congruence.
Qed.

(** ** One input *)

Definition member : Type := transaction_chain_entry * nat * tx_out_v.

Definition sources_ok (in_v : txin_v) (ms : list member) : Prop :=
  match in_v with
  | in_to_key _ | in_zc _ => exists refs, ring_resolved in_v refs ms
  | in_multisig i => exists p e o t,
      m_db_multisig_outs (bc_chain b) !! tms_multisig_out_id i = Some p /\ moe_spent_height p = 0 /\
      m_db_transactions (bc_chain b) !! moe_tx_id p = Some e /\ vout (tce_tx e) !! Z.to_nat (moe_out_no p) = Some (out_bare o) /\
      m_spent_flags e !! Z.to_nat (moe_out_no p) = Some false /\ ob_target o = target_multisig t /\
      tms_sigs_count i = oms_minimum_sigs t /\ tms_amount i = ob_amount o /\
      (exists u, get_tx_unlock_time (tce_tx e) (Z.to_nat (moe_out_no p)) = Ret u /\
        is_tx_spendtime_unlocked u (get_current_blockchain_size b) (rc_core_time rc) = true) /\
      ms = [(e, Z.to_nat (moe_out_no p), out_bare o)]
  | in_gateway _ => ms = []
  | in_gen _ => False
  end.

Definition input_unspent (in_v : txin_v) : Prop :=
  forall ki, get_key_image_from_txin_v in_v = Some ki -> have_tx_keyimg_as_spent b ki = false.

(** Enough of the keys of the output have signed, in their order. *)
Definition threshold_met (h : hash) (t : txout_multisig) (sigs : list signature) : Prop :=
  exists ks, ks `sublist_of` oms_keys t /\ size_Z ks = oms_minimum_sigs t /\
    Forall2 (fun k s => check_signature h k s = true) ks (take (List.length ks) sigs).

Definition owner_signed (key : gateway_owner_key_v) (s : gateway_owner_signature_v) (h : hash) : bool :=
  match key, s with
  | gok_public_key pkey, gos_generic_schnorr_sig_s signature => verify_schnorr_sig h pkey signature
  | gok_eth_public_key pkey, gos_eth_signature signature => verify_eth_signature h pkey signature
  | gok_eddsa_public_key pkey, gos_eddsa_signature signature => verify_eddsa_signature h pkey signature
  | _, _ => false
  end.

Definition input_signed (tx : transaction) (k : nat) (in_v : txin_v) (tx_id : hash) (ms : list member) : Prop :=
  let h := prepare_prefix_hash_for_sign tx k tx_id in
  h <> null_hash /\
  match in_v with
  | in_to_key i => exists sig, tx_signatures tx !! k = Some (sig_NLSAG sig) /\ validate_key_image (ttk_k_image i) = true /\
      check_ring_signature h (ttk_k_image i) (ms ≫= (fun m => out_keys m.2)) sig = true /\ check_extra_sign tx k tx_id sig = true
  | in_multisig i => exists sig e n o t, tx_signatures tx !! k = Some (sig_NLSAG sig) /\
      ms = [(e, n, out_bare o)] /\ ob_target o = target_multisig t /\ threshold_met h t sig /\ check_extra_sign tx k tx_id sig = true
  | in_zc i => exists sig, tx_signatures tx !! k = Some (sig_ZC sig) /\
      verify_CLSAG_GGX h (map (fun o => (oz_stealth_address o, oz_amount_commitment o, oz_blinded_asset_id o)) (ms ≫= (fun m => out_zc m.2)))
        (zcs_pseudo_out_amount_commitment sig) (zcs_pseudo_out_blinded_asset_id sig) (tzc_k_image i) (zcs_clsags_ggx sig) = true
  | in_gateway i => exists sig gad info, tx_signatures tx !! k = Some (sig_gateway sig) /\
      m_db_gateway_addresses (bc_chain b) !! tgw_gateway_addr i = Some gad /\ last (gad_info_history gad) = Some info /\
      owner_signed (gadb_owner_key info) (gws_s sig) (cn_fast_hash (CRYPTO_HDS_GW_INPUT_SIGNATURE ++ h)) = true
  | in_gen _ => False
  end.

(** The height remembered after an input: raised by a ring, set by a
    multisignature input. *)
Definition height_after (in_v : txin_v) (ms : list member) (h : Z) : Z :=
  match in_v with
  | in_multisig _ => match ms with m :: _ => member_height m | [] => h end
  | _ => latest h (map member_height ms)
  end.

Record input_ok (tx : transaction) (k : nat) (in_v : txin_v) (tx_id : hash) (ms : list member) : Prop := {
  io_sources : sources_ok in_v ms;
  io_unspent : input_unspent in_v;
  io_signed : bc_is_in_checkpoint_zone b = false -> input_signed tx k in_v tx_id ms
}.

Definition same_settings (c c' : check_tx_inputs_context) : Prop :=
  check_hf4_coinage_rule c' = check_hf4_coinage_rule c /\ calculate_max_used_block_id c' = calculate_max_used_block_id c /\
  max_used_block_id c' = max_used_block_id c.

(** [pre E a s E'] takes the first step of a successful run. *)
Tactic Notation "pre" ident(E) ident(a) ident(s) ident(E') := apply bind_ok in E as (a & s & E' & E).
Tactic Notation "pre_check" ident(E) ident(E') :=
  let s := fresh "st" in apply bind_ok in E as ([] & s & E' & E); apply check_ok in E' as [E' <-].
Tactic Notation "pre_some" ident(E) ident(a) ident(E') :=
  let s := fresh "st" in apply bind_ok in E as (a & s & E' & E); apply some_ok in E' as [E' <-].

Lemma NLSAG_of_some s sig : NLSAG_of s = Some sig -> s = sig_NLSAG sig.
Proof. destruct s; by intros [= ->]. Qed.
Lemma ZC_of_some s sig : ZC_of s = Some sig -> s = sig_ZC sig.
Proof. destruct s; by intros [= ->]. Qed.
Lemma gateway_of_some s sig : gateway_of s = Some sig -> s = sig_gateway sig.
Proof. destruct s; by intros [= ->]. Qed.

Lemma check_input_signature_ok tx k ki etc tx_id keys c c' : is_pos_miner_tx tx = false ->
  check_input_signature b tx k ki etc tx_id keys c = (Ok tt, c') ->
  c' = c /\ (bc_is_in_checkpoint_zone b = false -> prepare_prefix_hash_for_sign tx k tx_id <> null_hash /\
    exists sig, tx_signatures tx !! k = Some (sig_NLSAG sig) /\ validate_key_image ki = true /\
      check_ring_signature (prepare_prefix_hash_for_sign tx k tx_id) ki keys sig = true /\ check_extra_sign tx k tx_id sig = true).
Proof.
  intros Hpos E. unfold check_input_signature in E. destruct (bc_is_in_checkpoint_zone b); [by st_inv E|].
  rewrite Hpos in E. cbn iota in E. pre_some E s Es. pre_some E sig Esig. apply NLSAG_of_some in Esig as ->.
  pre_check E Ea. pre_check E Ec. pre_check E Eh. pre_check E Ek. pre_check E Er. st_inv E. split; [done|]. intros _.
  apply bool_decide_eq_true in Eh. split; [done|]. by exists sig.
Qed.

Lemma to_key_ok tx k i tx_id c c' : is_pos_miner_tx tx = false -> check_tx_input rc b tx k (in_to_key i) tx_id c = (Ok tt, c') ->
  exists ms, input_ok tx k (in_to_key i) tx_id ms /\ same_settings c c' /\
    max_used_block_height c' = height_after (in_to_key i) ms (max_used_block_height c).
Proof.
  intros Hpos E. cbn [check_tx_input] in E. pre_check E En. pre_check E Ek. unfold check_tx_input_to_key in E.
  pre E sc c1 Es. apply get_output_keys_ok in Es as (refs & ms & Hr & Hk & _ & ->); [|done]. pre_check E El.
  apply check_input_signature_ok in E as [-> Hsig]; [|done]. exists ms. split; [|done]. split.
  - by exists refs.
  - intros ki [= <-]. by destruct (have_tx_keyimg_as_spent b (ttk_k_image i)).
  - intros Hcp. destruct (Hsig Hcp) as (Hh & sig & ?). split; [done|]. exists sig. by rewrite <- Hk.
Qed.

Lemma note_ring_assets_ok ring c c' : note_ring_assets ring c = (Ok tt, c') ->
  same_settings c c' /\ max_used_block_height c' = max_used_block_height c.
Proof.
  revert c. induction ring as [|o ring IH]; intros c E; cbn [note_ring_assets] in E; [by st_inv E|].
  pre E explicit c1 Ee. apply read_ok in Ee as [Ee <-]. pre E u c2 Eu. destruct u.
  assert (same_settings c c2 /\ max_used_block_height c2 = max_used_block_height c) as [Hs Hm].
  { destruct explicit; [|by st_inv Eu]. pre Eu p c3 Ep. apply lift_ok in Ep as [_ <-]. case_decide; by st_inv Eu. }
  apply IH in E as [Hs' Hm']. unfold same_settings in *. split; [|congruence].
  destruct Hs as (? & ? & ?), Hs' as (? & ? & ?). repeat split; congruence.
Qed.

Lemma zc_ok tx k i tx_id c c' : is_pos_miner_tx tx = false -> check_tx_input rc b tx k (in_zc i) tx_id c = (Ok tt, c') ->
  exists ms, input_ok tx k (in_zc i) tx_id ms /\ same_settings c c' /\
    max_used_block_height c' = height_after (in_zc i) ms (max_used_block_height c).
Proof.
  intros Hpos E. cbn [check_tx_input] in E. pre_check E Ek. unfold check_tx_input_zc in E.
  pre E rule c0 Erule. apply read_ok in Erule as [_ <-].
  pre E sc c1 Es. apply get_output_keys_ok in Es as (refs & ms & Hr & _ & Hz & ->); [|done]. exists ms.
  assert (Hun : input_unspent (in_zc i)) by (intros ki [= <-]; by destruct (have_tx_keyimg_as_spent b (tzc_k_image i))).
  assert (Hso : sources_ok (in_zc i) ms) by by exists refs.
  destruct (bc_is_in_checkpoint_zone b) eqn:Hcp.
  - st_inv E. split; [|done]. split; [done..|]. by rewrite Hcp.
  - pre_check E El. pre_some E s Esi. pre_some E sig Esig. apply ZC_of_some in Esig as ->.
    pre E u c2 Eu. destruct u. apply note_ring_assets_ok in Eu as [Hs Hm]. pre_check E Eh. st_inv E. rewrite Hm.
    split; [|done]. split; [done..|]. intros _. apply bool_decide_eq_true in Eh. split; [done|]. exists sig. by rewrite <- Hz.
Qed.

Lemma gateway_ok tx k i tx_id c c' : check_tx_input rc b tx k (in_gateway i) tx_id c = (Ok tt, c') ->
  exists ms, input_ok tx k (in_gateway i) tx_id ms /\ same_settings c c' /\
    max_used_block_height c' = height_after (in_gateway i) ms (max_used_block_height c).
Proof.
  intros E. cbn [check_tx_input] in E. unfold check_tx_input_gateway in E. exists [].
  destruct (bc_is_in_checkpoint_zone b) eqn:Hcp.
  - st_inv E. split; [|done]. split; [done..|]. by rewrite Hcp.
  - pre_check E Eh. pre_some E s Es. pre_some E sig Esig. apply gateway_of_some in Esig as ->. pre_some E gad Eg.
    pre_some E info Ei. pre_check E Eo. apply bool_decide_eq_true in Eh.
    assert (input_ok tx k (in_gateway i) tx_id []). { split; [done..|]. intros _. split; [done|]. by exists sig, gad, info. }
    case_decide; by st_inv E.
Qed.

Lemma multisig_input_checked tx k i tx_id c c' : check_tx_input rc b tx k (in_multisig i) tx_id c = (Ok tt, c') -> 0 <= tms_sigs_count i ->
  exists ms, input_ok tx k (in_multisig i) tx_id ms /\ same_settings c c' /\
    max_used_block_height c' = height_after (in_multisig i) ms (max_used_block_height c).
Proof.
  intros E Hn. cbn [check_tx_input] in E. unfold check_tx_input_multisig in E.
  pre_some E p Ep. pre_check E Esp. pre_some E e Ee. pre_some E out Eout. pre_some E o Eo. destruct out as [ob| |]; [|done..].
  injection Eo as ->. pre_check E Et. destruct (ob_target o) as [|t] eqn:Etg; [done|]. pre_some E flag Ef. pre_check E Efl.
  destruct flag; [done|]. pre E u c1 Em. apply update_ok in E as <-. destruct u. apply Z.eqb_eq in Esp.
  unfold check_ms_input in Em. pre Em ut c2 Eut. apply lift_outcome_ok in Eut as [Eut <-]. pre_check Em Eun.
  pre_some Em out' Eout'. rewrite Eout in Eout'. injection Eout' as <-. pre_some Em o' Eo'. injection Eo' as <-.
  pre Em t' c3 Et'. apply lift_ok in Et' as [Et' <-]. rewrite Etg in Et'. injection Et' as <-.
  pre_check Em Ec. pre_check Em Eam. zbool. exists [(e, Z.to_nat (moe_out_no p), out_bare o)].
  assert (Hso : sources_ok (in_multisig i) [(e, Z.to_nat (moe_out_no p), out_bare o)]).
  { exists p, e, o, t. repeat (split; [done|]). split; [by exists ut|done]. }
  destruct (bc_is_in_checkpoint_zone b) eqn:Hcp.
  - st_inv Em. split; [|done]. split; [done..|]. by rewrite Hcp.
  - pre_check Em Eat. pre_some Em s Es. pre_some Em sig Esig. apply NLSAG_of_some in Esig as ->. pre_check Em Ex.
    pre_check Em Eh. pre_check Em Ek. pre_check Em El. st_inv Em. split; [|done]. split; [done..|]. intros _.
    apply bool_decide_eq_true in Eh. split; [done|]. exists sig, e, (Z.to_nat (moe_out_no p)), o, t. repeat (split; [done|]).
    split; [|done]. apply ms_signatures_loop_spec in El as (ks & Hks & Hf). exists ks. split; [done|].
    pose proof (Forall2_length _ _ _ Hf) as Hlen. rewrite length_take in Hlen. zbool.
    assert (Z.of_nat (List.length ks) = tms_sigs_count i) as Hl.
    { unfold size_Z, expected_signatures_count in Ex. destruct (need_to_check_extra_sign tx k); lia. }
    unfold size_Z. split; [lia|]. replace (List.length ks) with (Z.to_nat (tms_sigs_count i)) by lia. done.
Qed.

(** ** All the inputs *)

(** The field is a 32-bit counter. *)
Definition sigs_count_ok (in_v : txin_v) : Prop := match in_v with in_multisig i => is_u32 (tms_sigs_count i) | _ => True end.

Lemma check_tx_input_ok tx k in_v tx_id c c' : is_pos_miner_tx tx = false -> sigs_count_ok in_v ->
  check_tx_input rc b tx k in_v tx_id c = (Ok tt, c') ->
  exists ms, input_ok tx k in_v tx_id ms /\ same_settings c c' /\
    max_used_block_height c' = height_after in_v ms (max_used_block_height c).
Proof.
  intros Hpos Hs E. destruct in_v as [g|i|i|i|i]; [done|by apply to_key_ok|apply multisig_input_checked; [done|apply Hs]|by apply gateway_ok|by apply zc_ok].
Qed.

Fixpoint heights_after (ins : list txin_v) (mss : list (list member)) (h : Z) : Z :=
  match ins, mss with
  | i :: ins, ms :: mss => heights_after ins mss (height_after i ms h)
  | _, _ => h
  end.

Lemma check_inputs_loop_ok tx k ins tx_id c c' : is_pos_miner_tx tx = false -> Forall sigs_count_ok ins ->
  check_inputs_loop rc b tx k ins tx_id c = (Ok tt, c') ->
  exists mss, List.length mss = List.length ins /\
    (forall j in_v ms, ins !! j = Some in_v -> mss !! j = Some ms -> input_ok tx (k + j) in_v tx_id ms) /\
    same_settings c c' /\ max_used_block_height c' = heights_after ins mss (max_used_block_height c).
Proof.
  intros Hpos Hs. revert k c. induction Hs as [|i ins Hi Hs IH]; intros k c E; cbn [check_inputs_loop] in E.
  { st_inv E. exists []. split; [done|]. by split. }
  pre E u c1 Ei. destruct u. apply check_tx_input_ok in Ei as (ms & Hok & Hset & Hm); [|done..].
  apply IH in E as (mss & Hl & Hall & Hset' & Hm'). exists (ms :: mss). split; [cbn; by rewrite Hl|]. split.
  - intros [|j] in_v ms' Hin Hms; cbn in Hin, Hms; simplify_eq; [by rewrite Nat.add_0_r|].
    rewrite <- Nat.add_succ_comm. by apply Hall.
  - unfold same_settings in *. split; [|cbn [heights_after]; by rewrite <- Hm].
    destruct Hset as (? & ? & ?), Hset' as (? & ? & ?). repeat split; congruence.
Qed.

Lemma miner_tx_rejected tx tx_id c c' : check_tx_inputs rc b tx tx_id c = (Ok tt, c') -> is_pos_miner_tx tx = false.
Proof.
  unfold check_tx_inputs, is_pos_miner_tx. intros E. destruct (vin tx) as [|[g| | | |] l]; try done.
Qed.

Record accepted (tx : transaction) (tx_id : hash) (mss : list (list member)) (c c' : check_tx_inputs_context) : Prop := {
  acc_length : List.length mss = List.length (vin tx);
  acc_inputs k in_v ms : vin tx !! k = Some in_v -> mss !! k = Some ms -> input_ok tx k in_v tx_id ms;
  acc_signatures : bc_is_in_checkpoint_zone b = false -> List.length (tx_signatures tx) = List.length (vin tx);
  acc_height : max_used_block_height c' = heights_after (vin tx) mss 0;
  acc_id : calculate_max_used_block_id c = true ->
    exists e, m_db_blocks (bc_storage b) !! Z.to_nat (max_used_block_height c') = Some e /\ max_used_block_id c' = get_block_hash (bei_bl e)
}.

Lemma check_tx_inputs_ok tx tx_id c c' : Forall sigs_count_ok (vin tx) ->
  check_tx_inputs rc b tx tx_id c = (Ok tt, c') -> exists mss, accepted tx tx_id mss c c'.
Proof.
  intros Hs E. pose proof (miner_tx_rejected _ _ _ _ E) as Hpos. unfold check_tx_inputs in E.
  pre E u c0 Eu. apply update_ok in Eu as <-. pre E u1 c1 El. destruct u1. apply check_inputs_loop_ok in El as (mss & Hl & Hall & Hset & Hm); [|done..].
  cbn in Hm. pre E u2 c2 Ec. assert (c2 = c1 /\ (bc_is_in_checkpoint_zone b = false -> List.length (tx_signatures tx) = List.length (vin tx))) as [-> Hlen].
  { destruct (bc_is_in_checkpoint_zone b); [by st_inv Ec|]. pre_check Ec Es. apply Nat.eqb_eq in Es. pre Ec u3 c3 Ea.
    assert (c3 = c1) as -> by by destruct (negb (mode_separate tx)); st_inv Ea. by st_inv Ec. }
  pre E calc c3 Ecalc. apply read_ok in Ecalc as [Ecalc <-]. destruct Hset as (_ & Hset & _). cbn in Hset. exists mss.
  destruct calc.
  - pre E h c4 Eh. apply read_ok in Eh as [<- <-]. pre_some E e Ee. apply update_ok in E as <-.
    split; [done|exact Hall|done|done|]. intros _. by exists e.
  - st_inv E. split; [done|exact Hall|done|done|]. congruence.
Qed.

(** *** The height that is remembered *)

Definition is_multisig_in (i : txin_v) : bool := match i with in_multisig _ => true | _ => false end.

Lemma heights_after_latest ins mss h : List.length mss = List.length ins -> forallb (fun i => negb (is_multisig_in i)) ins = true ->
  heights_after ins mss h = latest h (map member_height (concat mss)).
Proof.
  revert mss h. induction ins as [|i ins IH]; intros [|ms mss] h Hl Hf; try done. cbn in Hl. injection Hl as Hl.
  cbn [forallb] in Hf. apply andb_true_iff in Hf as [Hi Hf]. cbn [heights_after concat]. rewrite map_app, latest_app, IH by done.
  by destruct i.
Qed.

(** *** Signatures and inputs have the same types *)

Definition signature_matches (in_v : txin_v) (s : signature_v) : Prop :=
  match in_v, s with
  | in_to_key _, sig_NLSAG _ | in_multisig _, sig_NLSAG _ | in_zc _, sig_ZC _ | in_gateway _, sig_gateway _ => True
  | _, _ => False
  end.

Lemma input_signed_matches tx k in_v tx_id ms : input_signed tx k in_v tx_id ms ->
  exists s, tx_signatures tx !! k = Some s /\ signature_matches in_v s.
Proof.
  intros [_ Hs]. destruct in_v; [done|..]; destruct Hs as (sig & Hs); destruct_and?; repeat match goal with H : exists _, _ |- _ => destruct H end;
  destruct_and?; eexists; (split; [eassumption|done]).
Qed.

(** ** Properties *)

(** C3: Whatever [check_tx_inputs] accepts is authorised, outside of the zone of
    the checkpoints.  Every input refers to outputs the main chain has: the
    members of its ring are allowed for the input and unlocked, with the age that
    coinbase outputs need; a multisignature output is unspent, with the amount
    and the threshold of the input.  No key image has been spent.  The signatures
    of the input verify on the hash it covers: the ring signature over the keys of
    the very members, as many keys of the multisignature output as it asks for, in
    their order, the key of the current owner of a gateway address. *)
Theorem accepted_inputs_authorised tx tx_id c c' : Forall sigs_count_ok (vin tx) -> bc_is_in_checkpoint_zone b = false ->
  check_tx_inputs rc b tx tx_id c = (Ok tt, c') ->
  forall k in_v, vin tx !! k = Some in_v ->
  exists ms, sources_ok in_v ms /\ input_unspent in_v /\ input_signed tx k in_v tx_id ms.
Proof.
  intros Hs Hcp E k in_v Hk. destruct (check_tx_inputs_ok _ _ _ _ Hs E) as [mss Ha].
  destruct (lookup_lt_is_Some_2 mss k) as [ms Hms]; [rewrite (acc_length _ _ _ _ _ Ha); by eapply lookup_lt_Some|].
  exists ms. destruct (acc_inputs _ _ _ _ _ Ha k in_v ms Hk Hms) as [Hso Hun Hsi]. auto.
Qed.

(** C21: An accepted transaction is well-typed: it has one signature per input, of
    the type of the input, ring signatures for bare and multisignature inputs,
    the one with hidden amounts for confidential inputs, a gateway signature for
    gateway inputs, and no input of a miner. *)
Theorem signatures_match_inputs tx tx_id c c' : Forall sigs_count_ok (vin tx) -> bc_is_in_checkpoint_zone b = false ->
  check_tx_inputs rc b tx tx_id c = (Ok tt, c') -> Forall2 signature_matches (vin tx) (tx_signatures tx).
Proof.
  intros Hs Hcp E. destruct (check_tx_inputs_ok _ _ _ _ Hs E) as [mss Ha]. apply Forall2_same_length_lookup_2.
  { symmetry. by apply (acc_signatures _ _ _ _ _ Ha). }
  intros k in_v s Hk Hsig. destruct (lookup_lt_is_Some_2 mss k) as [ms Hms]; [rewrite (acc_length _ _ _ _ _ Ha); by eapply lookup_lt_Some|].
  destruct (acc_inputs _ _ _ _ _ Ha k in_v ms Hk Hms) as [_ _ Hsi]. destruct (input_signed_matches _ _ _ _ _ (Hsi Hcp)) as (s' & Hs' & Hm).
  congruence.
Qed.

(** The height remembered with an accepted transaction without
    multisignature inputs is the height of the latest of the transactions it
    refers to, so no reference is above it; and the id remembered is that of the
    block of the main chain at that height. *)
Theorem used_height_covers_sources tx tx_id c c' : Forall sigs_count_ok (vin tx) ->
  forallb (fun i => negb (is_multisig_in i)) (vin tx) = true -> calculate_max_used_block_id c = true ->
  check_tx_inputs rc b tx tx_id c = (Ok tt, c') ->
  exists mss, List.length mss = List.length (vin tx) /\
    (forall k in_v ms, vin tx !! k = Some in_v -> mss !! k = Some ms -> sources_ok in_v ms) /\
    max_used_block_height c' = latest 0 (map member_height (concat mss)) /\
    Forall (fun m => member_height m <= max_used_block_height c') (concat mss) /\
    exists e, m_db_blocks (bc_storage b) !! Z.to_nat (max_used_block_height c') = Some e /\ max_used_block_id c' = get_block_hash (bei_bl e).
Proof.
  intros Hs Hms Hc E. destruct (check_tx_inputs_ok _ _ _ _ Hs E) as [mss Ha]. pose proof (acc_length _ _ _ _ _ Ha) as Hl.
  pose proof (acc_height _ _ _ _ _ Ha) as Hh. rewrite heights_after_latest in Hh by done. exists mss. split; [done|].
  split; [intros k in_v ms Hk Hm; by apply (io_sources _ _ _ _ _ (acc_inputs _ _ _ _ _ Ha k in_v ms Hk Hm))|]. split; [done|].
  split; [|by apply (acc_id _ _ _ _ _ Ha)]. rewrite Hh.
  destruct (latest_ge 0 (map member_height (concat mss))) as [_ Hf]. apply (proj1 (List.Forall_map _ _ _)) in Hf. exact Hf.
Qed.

End spec.

(** ** Examples *)

(** A signature is good when it starts with the key. *)
Definition demo_signing_crypto : AssetCrypto := {|
  point := public_key; hp := fun _ => key_of 5; to_public_key := fun p => p; from_public_key := Some;
  modify_mul8 := fun p => p; point_sub := fun p _ => p; point_scale := fun _ p => p; point_add := fun p q => q;
  point_0 := []; point_eqb := fun p q => bool_decide (p = q); native_coin_asset_id_pt := key_of 6;
  check_signature := fun _ k s => bool_decide (take 32 s = k)
|}.
Definition demo_input_crypto : InputCrypto := {|
  validate_key_image := fun _ => true;
  check_ring_signature := fun _ _ keys sigs => bool_decide (map (take 32) sigs = keys);
  verify_CLSAG_GGX := fun _ _ _ _ _ _ => false
|}.
#[local] Existing Instance demo_crypto.
#[local] Existing Instance demo_signing_crypto.
#[local] Existing Instance demo_input_crypto.

Definition signed_by (n : Z) : signature := key_of n ++ replicate 32 0.

(** Two old transactions: at height 3 with an output of 10, at height 1 with a
    multisignature output of 7 for two of three keys. *)
Definition demo_ms : txout_multisig := {| oms_minimum_sigs := 2; oms_keys := [key_of 31; key_of 32; key_of 33] |}.
Definition demo_source (o : tx_out_bare) : transaction := {|
  tx_prefix := {| tp_version := 1; tp_hardfork_id := 0; tp_vin := [in_gen 1]; tp_extra := []; tp_vout := [out_bare o] |};
  tx_attachment := []; tx_signatures := []; tx_proofs := [] |}.
Definition demo_chain_entry (o : tx_out_bare) (height : Z) : transaction_chain_entry :=
  {| tce_tx := demo_source o; m_keeper_block_height := height; m_global_output_indexes := [0]; m_spent_flags := [false] |}.
Definition demo_ms_id : hash := key_of 40.

Definition demo_blockchain : blockchain (array_db Z global_output_entry) unit unit := {|
  bc_chain := {|
    m_db_transactions := {[key_of 21 := demo_chain_entry {| ob_amount := 10; ob_target := target_to_key {| tok_key := key_of 8; tok_mix_attr := 0 |} |} 3;
                           key_of 22 := demo_chain_entry {| ob_amount := 7; ob_target := target_multisig demo_ms |} 1]};
    m_db_spent_keys := ∅;
    m_db_outputs := snd (arr_push 10 (construct_output_entry (key_of 21) 0) arr_empty);
    m_db_multisig_outs := {[demo_ms_id := construct_ms_entry (key_of 22) 0]};
    m_db_gateway_addresses := ∅; m_db_gateway_transactions := tt; m_db_assets := ∅; m_aliases := no_aliases; m_services_mgr := ∅ |};
  bc_storage := storage_of [demo_genesis; demo_pow; demo_pow; demo_pos; demo_pow];
  bc_alternative_chains_txs := ∅; bc_is_in_checkpoint_zone := false; bc_db_major_failure := false |}.

Definition demo_rc : runtime_config :=
  {| rc_hard_forks := HardForks.hard_forks mainnet_config; rc_min_coinstake_age := 10; rc_hf4_minimum_mixins := 15;
     rc_core_time := 1700000000; rc_tx_pool_min_fee := 1 |}.
Definition demo_ctic : check_tx_inputs_context :=
  {| check_hf4_coinage_rule := false; calculate_max_used_block_id := true; max_used_block_id := null_hash;
     max_used_block_height := 0; all_tx_ins_have_explicit_native_asset_ids := true |}.

Definition demo_key_in : txin_v :=
  in_to_key {| ttk_amount := 10; ttk_key_offsets := [ref_global_index 0]; ttk_k_image := key_of 3; ttk_etc_details := [] |}.
Definition demo_ms_in : txin_v :=
  in_multisig {| tms_amount := 7; tms_multisig_out_id := demo_ms_id; tms_sigs_count := 2; tms_etc_details := [] |}.
Definition demo_signed_tx (ins : list txin_v) (sigs : list (list signature)) : transaction := {|
  tx_prefix := {| tp_version := 1; tp_hardfork_id := 0; tp_vin := ins; tp_extra := [P_public_key (key_of 9)]; tp_vout := [] |};
  tx_attachment := []; tx_signatures := map sig_NLSAG sigs; tx_proofs := [] |}.
Definition demo_good_tx : transaction := demo_signed_tx [demo_key_in; demo_ms_in] [[signed_by 8]; [signed_by 31; signed_by 33]].

Definition run_checks (tx : transaction) : result unit * check_tx_inputs_context := check_tx_inputs demo_rc demo_blockchain tx (key_of 50) demo_ctic.

Lemma demo_good_tx_accepted : fst (run_checks demo_good_tx) = Ok tt.
Proof. vm_compute. reflexivity. Qed.
Lemma demo_good_tx_ok : run_checks demo_good_tx = (Ok tt, snd (run_checks demo_good_tx)).
Proof. rewrite <- demo_good_tx_accepted. by destruct (run_checks demo_good_tx). Qed.
Lemma demo_good_tx_counts : Forall sigs_count_ok (vin demo_good_tx).
Proof. repeat constructor; cbn; lia. Qed.

(** Two signatures of one key, or the keys in the wrong order, are refused. *)
Example accepted_inputs_authorised_witness :
  (exists ms, sources_ok demo_rc demo_blockchain demo_ms_in ms /\ input_signed demo_blockchain demo_good_tx 1 demo_ms_in (key_of 50) ms) /\
  fst (run_checks (demo_signed_tx [demo_ms_in] [[signed_by 31; signed_by 31]])) = Fail /\
  fst (run_checks (demo_signed_tx [demo_ms_in] [[signed_by 33; signed_by 31]])) = Fail.
Proof.
  split; [|split; vm_compute; reflexivity].
  destruct (accepted_inputs_authorised demo_rc demo_blockchain demo_good_tx (key_of 50) demo_ctic _ demo_good_tx_counts eq_refl
              demo_good_tx_ok 1%nat demo_ms_in eq_refl) as (ms & H1 & _ & H3).
  by exists ms.
Defined.

Example signatures_match_inputs_witness : Forall2 signature_matches (vin demo_good_tx) (tx_signatures demo_good_tx).
Proof. exact (signatures_match_inputs demo_rc demo_blockchain demo_good_tx (key_of 50) demo_ctic _ demo_good_tx_counts eq_refl demo_good_tx_ok). Defined.

Definition demo_key_tx : transaction := demo_signed_tx [demo_key_in] [[signed_by 8]].
Lemma demo_key_tx_ok : run_checks demo_key_tx = (Ok tt, snd (run_checks demo_key_tx)).
Proof.
  assert (E : fst (run_checks demo_key_tx) = Ok tt) by (vm_compute; reflexivity). rewrite <- E. by destruct (run_checks demo_key_tx).
Qed.

Example used_height_covers_sources_witness : max_used_block_height (snd (run_checks demo_key_tx)) = 3 /\
  max_used_block_id (snd (run_checks demo_key_tx)) = get_block_hash (bei_bl demo_pos).
Proof.
  destruct (used_height_covers_sources demo_rc demo_blockchain demo_key_tx (key_of 50) demo_ctic _ ltac:(repeat constructor)
              eq_refl eq_refl demo_key_tx_ok) as (mss & _ & _ & _ & _ & e & He & Hid).
  assert (Hh : max_used_block_height (snd (run_checks demo_key_tx)) = 3) by (vm_compute; reflexivity).
  split; [exact Hh|]. rewrite Hh in He. cbn in He. injection He as <-. exact Hid.
Defined.

(** A multisignature input sets the height instead of raising it: the transaction
    spends an output of height 3, and height 1 is remembered for it. *)
Lemma multisig_input_lowers_used_height :
  fst (run_checks demo_good_tx) = Ok tt /\ max_used_block_height (snd (run_checks demo_good_tx)) = 1 /\
  max_used_block_height (snd (run_checks demo_key_tx)) = 3.
Proof. vm_compute. done. Qed.

(** The rule on the age of outputs is asked for by the caller, but the inputs
    with open amounts do not pass the request on: an output of the last block is
    refused although the caller does not ask for the rule. *)
Definition young_rc : runtime_config :=
  {| rc_hard_forks := [0; 0; 0; 0; 0; 100; 200; 300]; rc_min_coinstake_age := 10; rc_hf4_minimum_mixins := 15;
     rc_core_time := 1700000000; rc_tx_pool_min_fee := 1 |}.
Lemma coinage_rule_always_on_for_open_amounts :
  check_hf4_coinage_rule demo_ctic = false /\
  fst (check_tx_inputs young_rc demo_blockchain demo_key_tx (key_of 50) demo_ctic) = Fail /\
  fst (get_output_keys_for_input_with_checks young_rc demo_blockchain demo_key_tx demo_key_in true demo_ctic) = Fail /\
  (exists sc, fst (get_output_keys_for_input_with_checks young_rc demo_blockchain demo_key_tx demo_key_in false demo_ctic) = Ok sc).
Proof. split; [done|]. split; [vm_compute; done|]. split; [vm_compute; done|]. eexists. vm_compute. done. Qed.

(** The mixing rule counts references, not outputs: a ring that names one output
    sixteen times passes for one with fifteen decoys. *)
Definition repeated_in : txin_v :=
  in_zc {| tzc_key_offsets := ref_global_index 0 :: replicate 15 (ref_global_index 0); tzc_k_image := key_of 3; tzc_etc_details := [] |}.
Lemma repeated_reference_counts_as_decoy : let n := size_Z (key_offsets_of repeated_in) - 1 in
  is_mixattr_applicable_for_fake_outs_counter 15 TRANSACTION_VERSION_POST_HF4 0 n = true /\
  relative_output_offsets_to_absolute (key_offsets_of repeated_in) = Ret (replicate 16 (ref_global_index 0)).
Proof. vm_compute. done. Qed.
