(* ===== verification/CoinageRule.v ===== *)
(** * The age of what a transaction spends

    Since hard fork 4 a block spends no output younger than
    [CURRENCY_HF4_MANDATORY_MIN_COINAGE] blocks ([scan_outputkeys_for_indexes] of
    [src/src/currency_core/blockchain_storage.h]).  The pool checks the inputs without
    that rule and compares the height it remembers with a transaction later
    ([tx_pool.cpp], [is_transaction_ready_to_go]).  This file shows that the two
    agree: inputs that pass without the rule, and whose remembered height is old
    enough, pass with it. *)

From S2P Require Import Prelude Config HardForks Archive Pod CryptoTypes Basic Transactions BlockId Offsets HfTerms TxSemantic StateM DbArrays Gateway Assets Aliases TxHardforks Chain Blocks InputChecks InputSpec.

Section coinage.
Context {GC : GatewayCrypto} {AC : AssetCrypto} {IC : InputCrypto}.
Context {TO TG SV : Type} {AO : ArrayStore Z global_output_entry TO}.
Context (rc : runtime_config) (b : blockchain TO TG SV).

(** ** Contexts that differ in what is asked for

    [follows m]: of two contexts that have reached the same results, [m] succeeds
    from the second whenever it does from the first, with the same value and
    again the same results. *)
Definition same_results (c d : check_tx_inputs_context) : Prop :=
  max_used_block_height d = max_used_block_height c /\
  all_tx_ins_have_explicit_native_asset_ids d = all_tx_ins_have_explicit_native_asset_ids c.

Definition follows {A} (m : st check_tx_inputs_context A) : Prop := forall c d a c',
  same_results c d -> m c = (Ok a, c') -> exists d', m d = (Ok a, d') /\ same_results c' d'.

Lemma follows_bind {A B} (m : st check_tx_inputs_context A) (f : A -> st _ B) : follows m -> (forall a, follows (f a)) -> follows (m ≫= f).
Proof.
  intros Hm Hf c d r c' Hcd (a & c1 & E1 & E2)%bind_ok. destruct (Hm _ _ _ _ Hcd E1) as (d1 & D1 & H1).
  destruct (Hf a _ _ _ _ H1 E2) as (d2 & D2 & H2). exists d2. split; [|done]. apply bind_ok. by exists a, d1.
Qed.
Lemma follows_stateless {A} (r : result A) : follows (fun c => (r, c)).
Proof. intros c d a c' Hcd E. injection E as -> <-. by exists d. Qed.
Lemma follows_read {A} (f : check_tx_inputs_context -> A) : (forall c d, same_results c d -> f d = f c) -> follows (read f).
Proof. intros Hf c d a c' Hcd [<- <-]%read_ok. exists d. split; [apply read_ok; auto|done]. Qed.
Lemma follows_update f : (forall c d, same_results c d -> same_results (f c) (f d)) -> follows (update f).
Proof. intros Hf c d [] c' Hcd <-%update_ok. exists (f d). split; [done|auto]. Qed.
Lemma follows_explicit : follows (read all_tx_ins_have_explicit_native_asset_ids).
Proof. apply follows_read. by intros c d [_ ?]. Qed.
Lemma follows_clear : follows (update clear_explicit_native).
Proof. apply follows_update. by intros c d [? _]. Qed.

(** [follow] goes through the structure of an operation. *)
Ltac follow :=
  repeat first
    [ apply follows_explicit | apply follows_clear
    | apply follows_bind; [|intros ?]
    | match goal with |- follows (if ?x then _ else _) => destruct x | |- follows (match ?x with _ => _ end) => destruct x end
    | exact (follows_stateless _) ].

Lemma follows_input_signature tx k ki etc id keys : follows (check_input_signature b tx k ki etc id keys).
Proof. unfold check_input_signature. follow. Qed.

Lemma follows_ring_assets ring : follows (note_ring_assets ring).
Proof. induction ring as [|o ring IH]; cbn [note_ring_assets]; follow; done. Qed.

Lemma follows_gateway tx k i id : follows (check_tx_input_gateway b tx k i id).
Proof. unfold check_tx_input_gateway. follow. Qed.

(** ** The rule *)

(** Nothing above this height is too young for the next block. *)
Definition old_enough (h : Z) : Prop :=
  is_hardfork_active rc b ZANO_HARDFORK_04 = Ret true -> h + CURRENCY_HF4_MANDATORY_MIN_COINAGE <= get_current_blockchain_size b.

Lemma old_enough_le h h' : h <= h' -> old_enough h' -> old_enough h.
Proof. unfold old_enough. intros ? Ho Hf. specialize (Ho Hf). lia. Qed.

(** The height remembered is that of a block of the main chain. *)
Lemma remembered_height tx id c c' : Forall sigs_count_ok (vin tx) -> forallb (fun i => negb (is_multisig_in i)) (vin tx) = true ->
  calculate_max_used_block_id c = true -> check_tx_inputs rc b tx id c = (Ok tt, c') ->
  0 <= max_used_block_height c' < get_current_blockchain_size b.
Proof.
  intros Hs Hm Hc E. destruct (check_tx_inputs_ok _ _ _ _ _ _ Hs E) as [mss Ha].
  pose proof (acc_height _ _ _ _ _ _ _ Ha) as Hh. rewrite heights_after_latest in Hh by (done || by apply (acc_length _ _ _ _ _ _ _ Ha)).
  pose proof (proj1 (latest_ge 0 (map member_height (concat mss)))). split; [lia|].
  destruct (acc_id _ _ _ _ _ _ _ Ha Hc) as (e & He & _). apply lookup_lt_Some in He. unfold get_current_blockchain_size, size_Z. lia.
Qed.

Hypothesis size_u64 : get_current_blockchain_size b < UINT64_MAX.

Lemma scan_with_rule tx in_v rule s s' : is_pos_miner_tx tx = false -> 0 <= sc_max_related_block_height s ->
  scan_outputkeys_for_indexes rc b tx in_v false s = (Ok tt, s') -> old_enough (sc_max_related_block_height s') ->
  scan_outputkeys_for_indexes rc b tx in_v rule s = (Ok tt, s').
Proof.
  intros Hpos H0 E Hold. unfold scan_outputkeys_for_indexes in *.
  apply bind_ok in E as (hf4 & s1 & Ehf & E). rewrite (bind_eq _ _ _ _ _ Ehf). apply lift_outcome_ok in Ehf as [Ehf <-]. cbv zeta in *.
  apply bind_ok in E as ([] & s1 & Ec & E). rewrite (bind_eq _ _ _ _ _ Ec). apply check_ok in Ec as [_ <-].
  apply bind_ok in E as (refs & s1 & Er & E). rewrite (bind_eq _ _ _ _ _ Er). apply lift_outcome_ok in Er as [_ <-].
  apply bind_ok in E as ([] & s1 & El & E). rewrite (bind_eq _ _ _ _ _ El). cbn [andb] in E. apply ret_ok in E as [_ ->].
  destruct (rule && hf4) eqn:Erule; [|done]. apply andb_prop in Erule as [_ ->]. specialize (Hold Ehf).
  apply scan_loop_ok in El as (ms & _ & _ & _ & Hmax); [|done].
  pose proof (proj1 (latest_ge (sc_max_related_block_height s) (map member_height ms))) as Hge.
  unfold CURRENCY_HF4_MANDATORY_MIN_COINAGE, UINT64_MAX in *.
  apply bind_ok. exists (sc_max_related_block_height s'), s'. split; [done|]. apply check_ok. split; [|done].
  apply Z.leb_le. rewrite wrap_small; [lia|]. split; lia.
Qed.

Lemma keys_with_rule tx in_v rule c d sc c' : is_pos_miner_tx tx = false -> 0 <= max_used_block_height c -> same_results c d ->
  get_output_keys_for_input_with_checks rc b tx in_v false c = (Ok sc, c') -> old_enough (max_used_block_height c') ->
  exists d', get_output_keys_for_input_with_checks rc b tx in_v rule d = (Ok sc, d') /\ same_results c' d'.
Proof.
  intros Hpos H0 [Hh He] E Hold. unfold get_output_keys_for_input_with_checks in *. rewrite Hh.
  destruct (scan_outputkeys_for_indexes _ _ _ _ _ _) as [r s'] eqn:Es. destruct r as [[]| |]; [|done..]. injection E as -> <-.
  erewrite scan_with_rule; [by eexists|done| |exact Es|exact Hold]. exact H0.
Qed.

Definition no_multisig (ins : list txin_v) : bool := forallb (fun i => negb (is_multisig_in i)) ins.

Lemma height_grows tx k in_v id c c' : is_pos_miner_tx tx = false -> sigs_count_ok in_v -> is_multisig_in in_v = false ->
  check_tx_input rc b tx k in_v id c = (Ok tt, c') -> max_used_block_height c <= max_used_block_height c'.
Proof.
  intros Hpos Hs Hm E. destruct (check_tx_input_ok _ _ _ _ _ _ _ _ Hpos Hs E) as (ms & _ & _ & ->).
  destruct in_v; try done; apply latest_ge.
Qed.

Lemma input_with_rule tx k in_v id c d c' : is_pos_miner_tx tx = false -> is_multisig_in in_v = false -> check_hf4_coinage_rule c = false ->
  0 <= max_used_block_height c -> same_results c d -> check_tx_input rc b tx k in_v id c = (Ok tt, c') -> old_enough (max_used_block_height c') ->
  exists d', check_tx_input rc b tx k in_v id d = (Ok tt, d') /\ same_results c' d'.
Proof.
  intros Hpos Hm Hrule H0 Hcd E Hold. destruct in_v as [g|i|i|i|i]; [done| |done|by eapply follows_gateway|]; cbn [check_tx_input] in *.
  - assert (Hf : forall sc, follows (_ ← check (List.length (ttk_key_offsets i) =? List.length (sc_output_keys sc))%nat;
      check_input_signature b tx k (ttk_k_image i) (ttk_etc_details i) id (sc_output_keys sc))).
    { intros sc. apply follows_bind; [exact (follows_stateless _)|intros _; apply follows_input_signature]. }
    apply bind_ok in E as ([] & c1 & E1 & E). apply bind_ok in E as ([] & c2 & E2 & E). unfold check_tx_input_to_key in E.
    apply check_ok in E1 as [E1 <-], E2 as [E2 <-]. apply bind_ok in E as (sc & c3 & E3 & E).
    unfold check_tx_input_to_key. rewrite E1, E2.
    assert (exists d3, get_output_keys_for_input_with_checks rc b tx (in_to_key i) true d = (Ok sc, d3) /\ same_results c3 d3) as (d3 & D3 & H3).
    { destruct Hcd as [Hh He]. unfold get_output_keys_for_input_with_checks in *. rewrite Hh.
      destruct (scan_outputkeys_for_indexes _ _ _ _ _ _) as [[[]| |] s']; [|done..]. injection E3 as -> <-. by eexists. }
    destruct (Hf sc _ _ _ _ H3 E) as (d' & D' & H'). exists d'. split; [|done].
    unfold mbind, st_bind, check in D' |- *. by rewrite D3.
  - apply bind_ok in E as ([] & c1 & [E1 <-]%check_ok & E). unfold check_tx_input_zc in E |- *. rewrite E1.
    apply bind_ok in E as (rule & c2 & [Er <-]%read_ok & E). rewrite Hrule in Er. subst rule.
    apply bind_ok in E as (sc & c3 & E3 & E).
    assert (Hc3 : max_used_block_height c' = max_used_block_height c3).
    { destruct (bc_is_in_checkpoint_zone b); [by apply ret_ok in E as [_ <-]|]. apply bind_ok in E as (? & ? & [_ <-]%check_ok & E).
      apply bind_ok in E as (? & ? & [_ <-]%some_ok & E). apply bind_ok in E as (? & ? & [_ <-]%some_ok & E).
      apply bind_ok in E as ([] & c4 & [_ Hn]%note_ring_assets_ok & E). apply bind_ok in E as (? & ? & [_ <-]%check_ok & E).
      by apply check_ok in E as [_ <-]. }
    rewrite Hc3 in Hold.
    destruct (keys_with_rule _ _ (check_hf4_coinage_rule d) _ _ _ _ Hpos H0 Hcd E3 Hold) as (d3 & D3 & H3).
    match type of E with ?m c3 = _ => assert (Hf : follows m) by (follow; apply follows_ring_assets) end.
    destruct (Hf _ _ _ _ H3 E) as (d' & D' & H'). exists d'. split; [|done].
    apply bind_ok. exists tt, d. split; [done|]. apply bind_ok. eexists _, d. split; [done|]. apply bind_ok. by exists sc, d3.
Qed.

Lemma loop_grows tx k ins id c c' : is_pos_miner_tx tx = false -> Forall sigs_count_ok ins -> no_multisig ins = true ->
  check_inputs_loop rc b tx k ins id c = (Ok tt, c') -> max_used_block_height c <= max_used_block_height c'.
Proof.
  intros Hpos Hs. revert k c. induction Hs as [|i ins Hi Hs IH]; intros k c Hm E; cbn [check_inputs_loop] in E; [by apply ret_ok in E as [_ <-]|].
  cbn [no_multisig forallb] in Hm. apply andb_prop in Hm as [Hmi Hm]. apply negb_true_iff in Hmi.
  apply bind_ok in E as ([] & c1 & E1 & E). pose proof (height_grows _ _ _ _ _ _ Hpos Hi Hmi E1). specialize (IH _ _ Hm E). lia.
Qed.

Lemma loop_with_rule tx k ins id c d c' : is_pos_miner_tx tx = false -> Forall sigs_count_ok ins -> no_multisig ins = true ->
  check_hf4_coinage_rule c = false -> 0 <= max_used_block_height c -> same_results c d ->
  check_inputs_loop rc b tx k ins id c = (Ok tt, c') -> old_enough (max_used_block_height c') ->
  exists d', check_inputs_loop rc b tx k ins id d = (Ok tt, d') /\ same_results c' d'.
Proof.
  intros Hpos Hs. revert k c d. induction Hs as [|i ins Hi Hs IH]; intros k c d Hm Hrule H0 Hcd E Hold; cbn [check_inputs_loop] in *.
  { apply ret_ok in E as [_ <-]. by exists d. }
  cbn [no_multisig forallb] in Hm. apply andb_prop in Hm as [Hmi Hm]. apply negb_true_iff in Hmi.
  apply bind_ok in E as ([] & c1 & E1 & E). pose proof (height_grows _ _ _ _ _ _ Hpos Hi Hmi E1) as Hg.
  pose proof (loop_grows _ _ _ _ _ _ Hpos Hs Hm E) as Hl.
  destruct (input_with_rule _ _ _ _ _ _ _ Hpos Hmi Hrule H0 Hcd E1) as (d1 & D1 & H1); [by eapply old_enough_le|].
  destruct (check_tx_input_ok _ _ _ _ _ _ _ _ Hpos Hi E1) as (_ & _ & (Hr & _) & _).
  destruct (IH (S k) c1 d1) as (d' & D' & H'); [done|by rewrite Hr|lia|done|done|done|].
  exists d'. split; [|done]. apply bind_ok. by exists tt, d1.
Qed.

(** The inputs of a transaction without multisignature inputs that pass without
    the rule pass with it as soon as the height remembered is old enough. *)
Lemma inputs_with_rule tx id c d c' : Forall sigs_count_ok (vin tx) -> no_multisig (vin tx) = true -> check_hf4_coinage_rule c = false ->
  calculate_max_used_block_id d = false ->
  all_tx_ins_have_explicit_native_asset_ids d = all_tx_ins_have_explicit_native_asset_ids c ->
  check_tx_inputs rc b tx id c = (Ok tt, c') -> old_enough (max_used_block_height c') ->
  exists d', check_tx_inputs rc b tx id d = (Ok tt, d').
Proof.
  intros Hs Hm Hrule Hcalc Hexp E Hold. pose proof (miner_tx_rejected _ _ _ _ _ _ E) as Hpos. unfold check_tx_inputs in E |- *.
  apply bind_ok in E as ([] & c0 & <-%update_ok & E). apply bind_ok in E as ([] & c1 & E1 & E).
  apply bind_ok in E as ([] & c2 & E2 & E).
  match type of E2 with ?m c1 = _ => assert (Hf : follows m) by follow end.
  assert (Hc2 : c2 = c1).
  { destruct (bc_is_in_checkpoint_zone b); [by apply ret_ok in E2 as [_ <-]|]. apply bind_ok in E2 as (? & ? & [_ <-]%check_ok & E2).
    apply bind_ok in E2 as (? & c3 & E3 & E2). assert (c3 = c1) as -> by by destruct (negb (mode_separate tx)); st_inv E3. by st_inv E2. }
  assert (Hc' : max_used_block_height c' = max_used_block_height c1).
  { subst c2. apply bind_ok in E as (calc & ? & [_ <-]%read_ok & E). destruct calc; [|by apply ret_ok in E as [_ <-]].
    apply bind_ok in E as (? & ? & [_ <-]%read_ok & E). by apply bind_ok in E as (? & ? & [_ <-]%some_ok & <-%update_ok). }
  rewrite Hc' in Hold.
  destruct (loop_with_rule _ _ _ _ (set_max_used_block_height 0 c) (set_max_used_block_height 0 d) _ Hpos Hs Hm Hrule (Z.le_refl 0) (conj eq_refl Hexp) E1 Hold) as (d1 & D1 & H1).
  destruct (Hf _ _ _ _ H1 E2) as (d2 & D2 & H2).
  assert (Hd2 : calculate_max_used_block_id d2 = false).
  { destruct (check_inputs_loop_ok _ _ _ _ _ _ _ _ Hpos Hs D1) as (_ & _ & _ & (_ & Hset & _) & _). cbn in Hset.
    assert (d2 = d1) as ->; [|congruence].
    destruct (bc_is_in_checkpoint_zone b); [by apply ret_ok in D2 as [_ <-]|]. apply bind_ok in D2 as (? & ? & [_ <-]%check_ok & D2).
    apply bind_ok in D2 as (? & c3 & E3 & D2). assert (c3 = d1) as -> by by destruct (negb (mode_separate tx)); st_inv E3. by st_inv D2. }
  exists d2. apply bind_ok. exists tt, (set_max_used_block_height 0 d). split; [done|]. apply bind_ok. exists tt, d1. split; [done|].
  apply bind_ok. exists tt, d2. split; [done|]. apply bind_ok. exists false, d2. split; [by apply read_ok|done].
Qed.

End coinage.
