(* ===== verification/Balance.v ===== *)
(** * Balance of confidential transactions:
    [src/src/currency_core/currency_format_utils_transactions.cpp] and
    [check_tx_balance] of [currency_format_utils.cpp]

    The commitments of the inputs less those of the outputs, with the amounts that
    are not hidden and the fee, leave a commitment to zero, whose factors over G and
    X the sender proves to know. *)

From S2P Require Import Prelude Config Archive Pod CryptoTypes Basic Transactions HfTerms TxSemantic TxHardforks Assets Chain InputChecks Limbs Field25519 Scalar25519 Curve CurveModel Schnorr Clsag.

Local Open Scope curve_scope.

(** [scalar_t(uint64_t)]. *)
Definition scalar_u64 (v : Z) : scalar_t := le_split 32 v.

(** [None] is [false]. *)
Definition assign_add_with_overflow_check (value result : Z) : option Z :=
  if u64 (result + value) <? result then None else Some (u64 (result + value)).

Definition as_zc_balance_proof (p : proof_v) : option generic_double_schnorr_sig_s := match p with proof_balance x => Some x | _ => None end.
Definition as_zc_gw_balance_proof (p : proof_v) : option generic_linear_composition_and_schnorr_sig_s :=
  match p with proof_gw_balance x => Some x | _ => None end.

(** The commitment of a signature. *)
Definition pseudo_out_amount_commitment (s : signature_v) : option public_key :=
  match s with
  | sig_ZC zc_sig => Some (zcs_pseudo_out_amount_commitment zc_sig)
  | sig_zarcanum sig => Some (zs_pseudo_out_amount_commitment sig)
  | _ => None
  end.

Definition is_zc_input (i : txin_v) : bool := match i with in_zc _ => true | _ => false end.
Definition count_zc_inputs (l : list txin_v) : nat := List.length (List.filter is_zc_input l).

(** The rule on the fee both versions share. *)
Definition balance_fee (tx : transaction) (additional_inputs_amount_and_fees_for_mining_tx : Z) : option Z :=
  match get_tx_fee tx with
  | None => if 0 <? additional_inputs_amount_and_fees_for_mining_tx then Some 0 else None
  | Some fee => if (additional_inputs_amount_and_fees_for_mining_tx =? 0) || (fee =? 0) then Some fee else None
  end.

Section balance.
Context `{Curve}.

Definition native_coin_asset_id_pt : point_t := c_point_H.

(** The sum and the commitments to add to it. *)
Fixpoint add_keys (l : list public_key) (sum : point_t) : outcome point_t :=
  match l with
  | [] => Ret sum
  | k :: l => p ← to_point k; add_keys l (sum + p)
  end.

(** The commitment of an asset operation: with the inputs when the asset is
    issued, with the outputs when it is burned; [None] is one that is missing. *)
Definition ado_commitments (tx : transaction) : option (list public_key * list public_key) :=
  match get_type_in_variant_container extra_as_ado (tp_extra (tx_prefix tx)) with
  | None => Some ([], [])
  | Some ado =>
      if (ado_operation_type ado =? ASSET_DESCRIPTOR_OPERATION_REGISTER) || (ado_operation_type ado =? ASSET_DESCRIPTOR_OPERATION_EMIT)
      then match ado_opt_amount_commitment ado with Some c => Some ([c], []) | None => None end
      else if ado_operation_type ado =? ASSET_DESCRIPTOR_OPERATION_PUBLIC_BURN
      then match ado_opt_amount_commitment ado with Some c => Some ([], [c]) | None => None end
      else Some ([], [])
  end.
Definition pseudo_outs (tx : transaction) : list public_key := omap pseudo_out_amount_commitment (tx_signatures tx).

(** ** Versions 2 and 3 *)

Definition bare_input_hf4 (v : txin_v) : Z :=
  match v with in_to_key tk => ttk_amount tk | in_multisig ms => tms_amount ms | _ => 0 end.

Fixpoint outs_commitments_hf4 (l : list tx_out_v) (sum : point_t) : outcome (option point_t) :=
  match l with
  | [] => Ret (Some sum)
  | out_zarcanum ozc :: l => p ← to_point (oz_amount_commitment ozc); outs_commitments_hf4 l (sum + p)
  | _ :: _ => Ret None
  end.

Definition commitment_hf4 (bare_inputs_sum fee : Z) (sum_of_pseudo_out_amount_commitments outs_commitments_sum : point_t) : point_t :=
  sc_sub (scalar_u64 bare_inputs_sum) (scalar_u64 fee) *' native_coin_asset_id_pt + pt_mul8 sum_of_pseudo_out_amount_commitments
    - pt_mul8 outs_commitments_sum.

Definition verify_balance_proof_hf4 (tx : transaction) (tx_id : hash) (additional_inputs_amount_and_fees_for_mining_tx : Z) : outcome bool :=
  if version tx <? TRANSACTION_VERSION_POST_HF4 then Ret false
  else
    match get_type_in_variant_container as_zc_balance_proof (tx_proofs tx) with
    | None => Ret false
    | Some dss =>
        let tx_pub_key := get_tx_pub_key_from_extra tx in
        let zc_inputs_count := count_zc_inputs (vin tx) in
        let bare_inputs_sum := fold_left (fun s v => u64 (s + bare_input_hf4 v)) (vin tx) additional_inputs_amount_and_fees_for_mining_tx in
        outs ← outs_commitments_hf4 (vout tx) c_point_0;
        match outs with
        | None => Ret false
        | Some outs_commitments_sum =>
            match balance_fee tx additional_inputs_amount_and_fees_for_mining_tx with
            | None => Ret false
            | Some fee =>
                match ado_commitments tx with
                | None => Ret false
                | Some (issued, burned) =>
                    issued_sum ← add_keys issued c_point_0;
                    outs_commitments_sum ← add_keys burned outs_commitments_sum;
                    sum_of_pseudo_out_amount_commitments ← add_keys (pseudo_outs tx) issued_sum;
                    let commitment_to_zero := commitment_hf4 bare_inputs_sum fee sum_of_pseudo_out_amount_commitments outs_commitments_sum in
                    if negb (zc_inputs_count =? List.length (pseudo_outs tx))%nat then Ret false
                    else if (0 <? zc_inputs_count)%nat then Ret (verify_double_schnorr_sig gt_X tx_id commitment_to_zero tx_pub_key dss)
                    else Ret (verify_double_schnorr_sig gt_G tx_id commitment_to_zero tx_pub_key dss)
                end
            end
        end
    end.

(** ** Version 4

    The function catches every exception and answers [false], which is the
    [None] of the loops. *)

Definition caught {A} (o : outcome A) : option A := match o with Ret a => Some a | Throw => None end.

Record inputs_sums : Type := {
  is_bare_inputs_native_amounts_sum : Z; is_inputs_commitments_sum : point_t; is_has_only_native_coin_bare_inputs : bool
}.

Definition add_input_hf6 (s : inputs_sums) (in_v : txin_v) : option inputs_sums :=
  match in_v with
  | in_gen _ => Some s
  | in_to_key in_tk =>
      n ← assign_add_with_overflow_check (ttk_amount in_tk) (is_bare_inputs_native_amounts_sum s);
      Some {| is_bare_inputs_native_amounts_sum := n; is_inputs_commitments_sum := is_inputs_commitments_sum s;
              is_has_only_native_coin_bare_inputs := is_has_only_native_coin_bare_inputs s |}
  | in_zc _ =>
      Some {| is_bare_inputs_native_amounts_sum := is_bare_inputs_native_amounts_sum s;
              is_inputs_commitments_sum := is_inputs_commitments_sum s; is_has_only_native_coin_bare_inputs := false |}
  | in_gateway in_gw =>
      if decide (tgw_asset_id in_gw = native_coin_asset_id_1div8) then
        n ← assign_add_with_overflow_check (tgw_amount in_gw) (is_bare_inputs_native_amounts_sum s);
        Some {| is_bare_inputs_native_amounts_sum := n; is_inputs_commitments_sum := is_inputs_commitments_sum s;
                is_has_only_native_coin_bare_inputs := is_has_only_native_coin_bare_inputs s |}
      else
        p ← pt_from_public_key (tgw_asset_id in_gw);
        Some {| is_bare_inputs_native_amounts_sum := is_bare_inputs_native_amounts_sum s;
                is_inputs_commitments_sum := is_inputs_commitments_sum s + scalar_u64 (tgw_amount in_gw) *' p;
                is_has_only_native_coin_bare_inputs := false |}
  | in_multisig _ => None
  end.

Record outs_sums : Type := {
  os_bare_outs_native_amounts_sum : Z; os_outs_commitments_sum : point_t; os_confidential_outs_count : nat
}.

Definition add_out_hf6 (s : outs_sums) (out_v : tx_out_v) : option outs_sums :=
  match out_v with
  | out_zarcanum out_zc =>
      p ← pt_from_public_key (oz_amount_commitment out_zc);
      Some {| os_bare_outs_native_amounts_sum := os_bare_outs_native_amounts_sum s; os_outs_commitments_sum := os_outs_commitments_sum s + p;
              os_confidential_outs_count := S (os_confidential_outs_count s) |}
  | out_gateway out_gw =>
      if decide (ogw_asset_id out_gw = native_coin_asset_id_1div8) then
        n ← assign_add_with_overflow_check (ogw_amount out_gw) (os_bare_outs_native_amounts_sum s);
        Some {| os_bare_outs_native_amounts_sum := n; os_outs_commitments_sum := os_outs_commitments_sum s;
                os_confidential_outs_count := os_confidential_outs_count s |}
      else
        p ← pt_from_public_key (ogw_asset_id out_gw);
        Some {| os_bare_outs_native_amounts_sum := os_bare_outs_native_amounts_sum s;
                os_outs_commitments_sum := os_outs_commitments_sum s + scalar_u64 (ogw_amount out_gw) *' p;
                os_confidential_outs_count := os_confidential_outs_count s |}
  | out_bare _ => Some s
  end.

Fixpoint fold_option {A S} (f : S -> A -> option S) (l : list A) (s : S) : option S :=
  match l with [] => Some s | x :: l => s ← f s x; fold_option f l s end.

Definition commitment_hf6 (bare_inputs_native_amounts_sum fee bare_outs_native_amounts_sum : Z) (inputs_commitments_sum outs_commitments_sum : point_t)
    : point_t :=
  sc_sub (sc_sub (scalar_u64 bare_inputs_native_amounts_sum) (scalar_u64 fee)) (scalar_u64 bare_outs_native_amounts_sum) *' native_coin_asset_id_pt
    + pt_mul8 inputs_commitments_sum - pt_mul8 outs_commitments_sum.

Definition has_asset_operation (tx : transaction) : bool :=
  match ado_commitments tx with Some ([], []) | None => false | Some _ => true end.

Definition verify_balance_proof_hf6 (tx : transaction) (tx_id : hash) (additional_inputs_amount_and_fees_for_mining_tx : Z) : bool :=
  default false (
    if version tx <? TRANSACTION_VERSION_POST_HF6 then None
    else
      ins ← fold_option add_input_hf6 (vin tx)
        {| is_bare_inputs_native_amounts_sum := additional_inputs_amount_and_fees_for_mining_tx; is_inputs_commitments_sum := c_point_0;
           is_has_only_native_coin_bare_inputs := true |};
      outs ← fold_option add_out_hf6 (vout tx)
        {| os_bare_outs_native_amounts_sum := 0; os_outs_commitments_sum := c_point_0; os_confidential_outs_count := 0 |};
      fee ← balance_fee tx additional_inputs_amount_and_fees_for_mining_tx;
      '(issued, burned) ← ado_commitments tx;
      inputs_commitments_sum ← caught (add_keys issued (is_inputs_commitments_sum ins));
      outs_commitments_sum ← caught (add_keys burned (os_outs_commitments_sum outs));
      inputs_commitments_sum ← caught (add_keys (pseudo_outs tx) inputs_commitments_sum);
      if negb (count_zc_inputs (vin tx) =? List.length (pseudo_outs tx))%nat then None
      else
        let commitment_to_zero := commitment_hf6 (is_bare_inputs_native_amounts_sum ins) fee (os_bare_outs_native_amounts_sum outs)
                                    inputs_commitments_sum outs_commitments_sum in
        let tx_pub_key := get_tx_pub_key_from_extra tx in
        if (count_zc_inputs (vin tx) =? 0)%nat then
          if is_has_only_native_coin_bare_inputs ins then
            dss ← get_type_in_variant_container as_zc_balance_proof (tx_proofs tx);
            Some (verify_double_schnorr_sig gt_G tx_id commitment_to_zero tx_pub_key dss)
          else if (os_confidential_outs_count outs =? 0)%nat then Some (pt_is_zero commitment_to_zero && negb (has_asset_operation tx))
          else
            lcss ← get_type_in_variant_container as_zc_gw_balance_proof (tx_proofs tx);
            Some (verify_linear_composition_and_schnorr_sig tx_id commitment_to_zero tx_pub_key lcss)
        else
          dss ← get_type_in_variant_container as_zc_balance_proof (tx_proofs tx);
          Some (verify_double_schnorr_sig gt_X tx_id commitment_to_zero tx_pub_key dss)).

Definition check_tx_balance (tx : transaction) (tx_id : hash) (additional_inputs_amount_and_fees_for_mining_tx : Z) : outcome bool :=
  if TRANSACTION_VERSION_POST_HF6 <=? version tx then Ret (verify_balance_proof_hf6 tx tx_id additional_inputs_amount_and_fees_for_mining_tx)
  else if TRANSACTION_VERSION_POST_HF4 <=? version tx then verify_balance_proof_hf4 tx tx_id additional_inputs_amount_and_fees_for_mining_tx
  else Ret (check_tx_bare_balance tx additional_inputs_amount_and_fees_for_mining_tx).

End balance.

(** ** What an accepted balance says *)

#[local] Arguments scalar_u64 _ : simpl never.
#[local] Arguments le_combine _ : simpl never.

(** An amount of an asset, which is named by the key of an eighth of its point. *)
Abbreviation entry := (public_key * Z)%type.

Definition total (a : public_key) (l : list entry) : Z := foldr (fun e s => (if decide (e.1 = a) then e.2 else 0) + s)%Z 0 l.

(** What a commitment hides: the factors of an asset, of G and of X. *)
Record opening : Type := { op_asset : public_key; op_amount : Z; op_g : Z; op_x : Z }.

Section ledger.
Context (o : public_key -> opening).

Definition opened (k : public_key) : entry := (op_asset (o k), op_amount (o k)).

(** The amounts that are not hidden; gateways are of version 4, multisignature
    inputs of the versions before. *)
Definition bare_entry (version : Z) (v : txin_v) : option entry :=
  match v with
  | in_to_key tk => Some (native_coin_asset_id_1div8, ttk_amount tk)
  | in_multisig ms => Some (native_coin_asset_id_1div8, tms_amount ms)
  | in_gateway gw => if version <? TRANSACTION_VERSION_POST_HF6 then None else Some (tgw_asset_id gw, tgw_amount gw)
  | in_gen _ | in_zc _ => None
  end.
Definition out_commitment (v : tx_out_v) : option public_key := match v with out_zarcanum ozc => Some (oz_amount_commitment ozc) | _ => None end.
Definition gateway_entry (v : tx_out_v) : option entry := match v with out_gateway gw => Some (ogw_asset_id gw, ogw_amount gw) | _ => None end.

(** The commitment of an asset operation of some types. *)
Definition ado_commitment (types : list Z) (tx : transaction) : list public_key :=
  match get_type_in_variant_container extra_as_ado (tp_extra (tx_prefix tx)) with
  | Some ado => if decide (ado_operation_type ado ∈ types) then option_list (ado_opt_amount_commitment ado) else []
  | None => []
  end.
Definition commitments_in (tx : transaction) : list public_key :=
  ado_commitment [ASSET_DESCRIPTOR_OPERATION_REGISTER; ASSET_DESCRIPTOR_OPERATION_EMIT] tx ++ pseudo_outs tx.
Definition commitments_out (tx : transaction) : list public_key :=
  omap out_commitment (vout tx) ++ ado_commitment [ASSET_DESCRIPTOR_OPERATION_PUBLIC_BURN] tx.

Definition entries_in (tx : transaction) : list entry := omap (bare_entry (version tx)) (vin tx) ++ map opened (commitments_in tx).
Definition entries_out (tx : transaction) : list entry := omap gateway_entry (vout tx) ++ map opened (commitments_out tx).
Definition negated (l : list entry) : list entry := map (fun e => (e.1, - e.2)) l.

(** Everything that goes in or out of a transaction, outputs and the fee being
    negative. *)
Definition ledger (tx : transaction) (additional fee : Z) : list entry :=
  (native_coin_asset_id_1div8, additional) :: (native_coin_asset_id_1div8, - fee) :: entries_in tx ++ negated (entries_out tx).

Definition sum_over (f : opening -> Z) (l : list public_key) : Z := foldr (fun k s => f (o k) + s)%Z 0 l.
(** The imbalance of every asset, and the factors of G and X that remain. *)
Definition imbalances (tx : transaction) (additional fee : Z) : list entry :=
  map (fun a => (a, total a (ledger tx additional fee))) (remove_dups (map fst (ledger tx additional fee))).
Definition excess (f : opening -> Z) (tx : transaction) : Z := sum_over f (commitments_in tx) - sum_over f (commitments_out tx).
End ledger.

Section conservation.
Context `{CurveLaws}.

Definition asset_pt (a : public_key) : point_t := match pt_from_public_key a with Some p => pt_mul8 p | None => c_point_0 end.
Definition value (l : list entry) : point_t := foldr (fun e s => e.2 • asset_pt e.1 + s) c_point_0 l.

Definition opens (k : public_key) (op : opening) : Prop :=
  is_Some (pt_from_public_key (op_asset op)) /\
  exists p, pt_from_public_key k = Some p /\ pt_mul8 p ≡ op_amount op • asset_pt (op_asset op) + (op_g op • c_point_G + op_x op • c_point_X).

(** Factors of distinct assets, not all of them zero, with which the assets, G
    and X cancel out. *)
Definition discrete_log_relation (r : list entry) (g x : Z) : Prop :=
  NoDup (map fst r) /\ (exists a n, (a, n) ∈ r /\ n mod l25519 <> 0) /\ value r + (g • c_point_G + x • c_point_X) ≡ c_point_0.

(** *** Sums by asset *)

Lemma value_cons a n l : value ((a, n) :: l) = n • asset_pt a + value l.
Proof. done. Qed.
Lemma value_app l1 l2 : value (l1 ++ l2) ≡ value l1 + value l2.
Proof. induction l1 as [|e l1 IH]; cbn; [by rewrite add_0_l|]. by rewrite IH, add_assoc. Qed.
Lemma value_negated l : value (negated l) ≡ c_point_0 - value l.
Proof.
  induction l as [|[a n] l IH]; [cbn; curve_ring|]. change (negated ((a, n) :: l)) with ((a, - n) :: negated l). rewrite !value_cons, IH. curve_ring.
Qed.
Lemma total_app a l1 l2 : total a (l1 ++ l2) = (total a l1 + total a l2)%Z.
Proof. unfold total. induction l1 as [|e l1 IH]; cbn in *; [done|]. rewrite IH. lia. Qed.
Lemma total_negated a l : total a (negated l) = (- total a l)%Z.
Proof. unfold total, negated. induction l as [|e l IH]; cbn in *; [done|]. rewrite IH. case_decide; lia. Qed.
Lemma total_absent a l : a ∉ map fst l -> total a l = 0.
Proof.
  unfold total. induction l as [|e l IH]; cbn; [done|]. intros Ha. apply not_elem_of_cons in Ha as [Hne Ha].
  rewrite IH by done. by case_decide; subst.
Qed.

Definition by_asset (assets : list public_key) (l : list entry) : list entry := map (fun a => (a, total a l)) assets.

Lemma value_by_asset_nil assets : value (by_asset assets []) ≡ c_point_0.
Proof. induction assets as [|a assets IH]; [done|]. cbn. by rewrite IH, mul_0_l, add_0_l. Qed.

(** One more entry changes the total of its asset alone. *)
Lemma value_by_asset_cons assets a n l : NoDup assets ->
  value (by_asset assets ((a, n) :: l)) ≡ value (by_asset assets l) + (if decide (a ∈ assets) then n • asset_pt a else c_point_0).
Proof.
  induction 1 as [|b assets Hb Hd IH]; [cbn; by rewrite add_0_r|]. cbn [by_asset map]. fold (by_asset assets ((a, n) :: l)) (by_asset assets l).
  rewrite !value_cons, IH.
  change (total b ((a, n) :: l)) with ((if decide (a = b) then n else 0) + total b l)%Z.
  destruct (decide (a = b)) as [->|Hne].
  - rewrite decide_False by done. rewrite decide_True by apply list_elem_of_here. curve_ring.
  - destruct (decide (a ∈ assets)) as [Hin|Hout].
    + rewrite decide_True by by apply list_elem_of_further. curve_ring.
    + rewrite decide_False by (rewrite elem_of_cons; tauto). curve_ring.
Qed.

Lemma value_by_asset assets l : NoDup assets -> (forall a, a ∈ map fst l -> a ∈ assets) -> value (by_asset assets l) ≡ value l.
Proof.
  intros Hd. induction l as [|[a n] l IH]; intros Hl; [by rewrite value_by_asset_nil|].
  rewrite value_by_asset_cons by done. rewrite decide_True by (apply Hl; apply list_elem_of_here).
  rewrite IH by (intros b Hb; apply Hl; by apply list_elem_of_further). cbn. by rewrite add_comm.
Qed.

(** *** The sums of the code *)

Context (o : public_key -> opening).
Context (native_parses : is_Some (pt_from_public_key native_coin_asset_id_1div8)).
Context (native_point : asset_pt native_coin_asset_id_1div8 ≡ c_point_H).

Definition masks (l : list public_key) : point_t := sum_over o op_g l • c_point_G + sum_over o op_x l • c_point_X.
(** What commitments hide. *)
Definition hidden (l : list public_key) : point_t := value (map (opened o) l) + masks l.

Lemma hidden_nil : hidden [] ≡ c_point_0.
Proof. unfold hidden, masks. cbn. curve_ring. Qed.
Lemma hidden_cons k l : hidden (k :: l) ≡
  (op_amount (o k) • asset_pt (op_asset (o k)) + (op_g (o k) • c_point_G + op_x (o k) • c_point_X)) + hidden l.
Proof.
  unfold hidden. cbn [map]. unfold opened at 1. rewrite value_cons. unfold masks.
  change (sum_over o ?f (k :: l)) with (f (o k) + sum_over o f l)%Z. curve_ring.
Qed.
Lemma sum_over_app f l1 l2 : sum_over o f (l1 ++ l2) = (sum_over o f l1 + sum_over o f l2)%Z.
Proof. unfold sum_over. induction l1 as [|k l1 IH]; cbn in *; [done|]. rewrite IH. lia. Qed.
Lemma hidden_app l1 l2 : hidden (l1 ++ l2) ≡ hidden l1 + hidden l2.
Proof. unfold hidden, masks. rewrite map_app, value_app, !sum_over_app. curve_ring. Qed.

Lemma opens_key k p : opens k (o k) -> pt_from_public_key k = Some p -> pt_mul8 p ≡ hidden [k].
Proof. intros [_ (q & E & Hq)] Ep. replace q with p in Hq by congruence. rewrite hidden_cons, hidden_nil, Hq. curve_ring. Qed.

Lemma add_keys_value l s s' : Forall (fun k => opens k (o k)) l -> add_keys l s = Ret s' -> pt_mul8 s' ≡ pt_mul8 s + hidden l.
Proof.
  intros Hl. revert s. induction Hl as [|k l Hk _ IH]; intros s E; cbn [add_keys] in E.
  - injection E as <-. rewrite hidden_nil. curve_ring.
  - unfold to_point in E. destruct (pt_from_public_key k) as [p|] eqn:Ep; [|done]. apply IH in E.
    rewrite E. change (k :: l) with ([k] ++ l). rewrite hidden_app, <- (opens_key k p Hk Ep). curve_ring.
Qed.

Lemma assign_add_spec v r n : is_u64 v -> is_u64 r -> assign_add_with_overflow_check v r = Some n -> n = (r + v)%Z /\ is_u64 n.
Proof.
  unfold assign_add_with_overflow_check, wrap, in_u. intros Hv Hr. destruct (_ <? _) eqn:E; [done|]. intros [= <-]. zbool.
  assert (r + v < 2 ^ 64)%Z.
  { destruct (Z.lt_ge_cases (r + v) (2 ^ 64)) as [|Hge]; [done|]. exfalso.
    replace (r + v)%Z with ((r + v - 2 ^ 64) + 1 * 2 ^ 64)%Z in E by lia. rewrite Z.mod_add, Z.mod_small in E; lia. }
  rewrite Z.mod_small; lia.
Qed.

Lemma scalar_u64_value v : is_u64 v -> le_combine (scalar_u64 v) = v.
Proof.
  unfold in_u. intros Hv. unfold scalar_u64. rewrite le_combine_split. apply Z.mod_small.
  change (256 ^ Z.of_nat 32)%Z with (2 ^ 256)%Z. split; [lia|]. apply Z.lt_trans with (2 ^ 64)%Z; [lia|done].
Qed.
Lemma asset_pt_eq a p : pt_from_public_key a = Some p -> asset_pt a = pt_mul8 p.
Proof. unfold asset_pt. by intros ->. Qed.

(** *** Version 4 *)

Lemma inputs_value ver l s s' : (ver <? TRANSACTION_VERSION_POST_HF6) = false ->
  Forall (fun i => is_u64 (get_amount_from_variant i)) l -> is_u64 (is_bare_inputs_native_amounts_sum s) ->
  fold_option add_input_hf6 l s = Some s' ->
  is_u64 (is_bare_inputs_native_amounts_sum s') /\
  is_bare_inputs_native_amounts_sum s' • c_point_H + pt_mul8 (is_inputs_commitments_sum s') ≡
    (is_bare_inputs_native_amounts_sum s • c_point_H + pt_mul8 (is_inputs_commitments_sum s)) + value (omap (bare_entry ver) l).
Proof.
  intros Hver Hl. revert s. induction Hl as [|v l Hv _ IH]; intros s Hs E; cbn [fold_option] in E.
  - injection E as <-. split; [done|]. cbn. by rewrite add_0_r.
  - destruct (add_input_hf6 s v) as [s1|] eqn:E1; [|done]. cbn in E.
    assert (Hstep : is_u64 (is_bare_inputs_native_amounts_sum s1) /\
      is_bare_inputs_native_amounts_sum s1 • c_point_H + pt_mul8 (is_inputs_commitments_sum s1) ≡
      (is_bare_inputs_native_amounts_sum s • c_point_H + pt_mul8 (is_inputs_commitments_sum s)) + value (omap (bare_entry ver) [v])).
    { clear E IH. destruct v as [|tk| |gw|]; cbn [add_input_hf6] in E1; try done.
      - injection E1 as <-. split; [done|]. cbn. by rewrite add_0_r.
      - destruct (assign_add_with_overflow_check _ _) as [n|] eqn:En; [|done]. injection E1 as <-. cbn in *.
        apply assign_add_spec in En as [-> Hn]; [|done..]. split; [done|]. rewrite native_point. curve_ring.
      - cbn [omap list_omap bare_entry]. rewrite Hver. case_decide as Ha.
        + destruct (assign_add_with_overflow_check _ _) as [n|] eqn:En; [|done]. injection E1 as <-. cbn in *.
          apply assign_add_spec in En as [-> Hn]; [|done..]. split; [done|]. rewrite Ha, native_point. curve_ring.
        + destruct (pt_from_public_key (tgw_asset_id gw)) as [p|] eqn:Ep; [|done]. injection E1 as <-. cbn in *. split; [done|].
          rewrite (asset_pt_eq _ _ Ep), scalar_u64_value by done. curve_ring.
      - injection E1 as <-. split; [done|]. cbn. by rewrite add_0_r. }
    destruct Hstep as [Hs1 Hv1]. destruct (IH s1 Hs1 E) as [Hs' Hv']. split; [done|]. rewrite Hv', Hv1.
    change (v :: l) with ([v] ++ l). rewrite omap_app, value_app. curve_ring.
Qed.

Lemma outs_value l s s' :
  Forall (fun x => match x with out_bare b => is_u64 (ob_amount b) | out_gateway g => is_u64 (ogw_amount g) | out_zarcanum _ => True end) l ->
  Forall (fun k => opens k (o k)) (omap out_commitment l) ->
  is_u64 (os_bare_outs_native_amounts_sum s) -> fold_option add_out_hf6 l s = Some s' ->
  is_u64 (os_bare_outs_native_amounts_sum s') /\
  os_bare_outs_native_amounts_sum s' • c_point_H + pt_mul8 (os_outs_commitments_sum s') ≡
    (os_bare_outs_native_amounts_sum s • c_point_H + pt_mul8 (os_outs_commitments_sum s)) +
    (value (omap gateway_entry l) + hidden (omap out_commitment l)).
Proof.
  intros Hl. revert s. induction Hl as [|v l Hv _ IH]; intros s Ho Hs E; cbn [fold_option] in E.
  - injection E as <-. split; [done|]. cbn. rewrite hidden_nil. curve_ring.
  - destruct (add_out_hf6 s v) as [s1|] eqn:E1; [|done]. cbn in E. change (v :: l) with ([v] ++ l) in *.
    rewrite omap_app in Ho. apply Forall_app in Ho as [Ho1 Ho].
    assert (Hstep : is_u64 (os_bare_outs_native_amounts_sum s1) /\
      os_bare_outs_native_amounts_sum s1 • c_point_H + pt_mul8 (os_outs_commitments_sum s1) ≡
      (os_bare_outs_native_amounts_sum s • c_point_H + pt_mul8 (os_outs_commitments_sum s)) +
      (value (omap gateway_entry [v]) + hidden (omap out_commitment [v]))).
    { clear E IH. destruct v as [b|oz|gw]; cbn [add_out_hf6] in E1.
      - injection E1 as <-. split; [done|]. cbn. rewrite hidden_nil. curve_ring.
      - destruct (pt_from_public_key (oz_amount_commitment oz)) as [p|] eqn:Ep; [|done]. injection E1 as <-. cbn in *. split; [done|].
        apply Forall_cons in Ho1 as [Ho1 _]. rewrite <- (opens_key _ p Ho1 Ep). curve_ring.
      - case_decide as Ha.
        + destruct (assign_add_with_overflow_check _ _) as [n|] eqn:En; [|done]. injection E1 as <-. cbn in *.
          apply assign_add_spec in En as [-> Hn]; [|done..]. split; [done|]. rewrite hidden_nil, Ha, native_point. curve_ring.
        + destruct (pt_from_public_key (ogw_asset_id gw)) as [p|] eqn:Ep; [|done]. injection E1 as <-. cbn in *. split; [done|].
          rewrite (asset_pt_eq _ _ Ep), scalar_u64_value, hidden_nil by done. curve_ring. }
    destruct Hstep as [Hs1 Hv1]. destruct (IH s1 Ho Hs1 E) as [Hs' Hv']. split; [done|]. rewrite Hv', Hv1.
    rewrite !omap_app, value_app, hidden_app. curve_ring.
Qed.

(** *** Versions 2 and 3 *)

Lemma bare_sum_hf4 ver l s : (ver <? TRANSACTION_VERSION_POST_HF6) = true ->
  Forall (fun i => is_u64 (get_amount_from_variant i)) l -> 0 <= s -> s + sum_Z (map bare_input_hf4 l) < 2 ^ 64 ->
  fold_left (fun s v => u64 (s + bare_input_hf4 v)) l s = (s + sum_Z (map bare_input_hf4 l))%Z /\
  value (omap (bare_entry ver) l) ≡ sum_Z (map bare_input_hf4 l) • c_point_H.
Proof.
  intros Hver Hl. revert s. induction Hl as [|v l Hv Hl IH]; intros s Hs Hb.
  - cbn. split; [lia|]. by rewrite mul_0_l.
  - cbn [map fold_left] in *. rewrite sum_Z_cons in *.
    assert (Hn : 0 <= bare_input_hf4 v) by (destruct v; cbn in *; unfold in_u in Hv; lia).
    assert (Hp : 0 <= sum_Z (map bare_input_hf4 l)).
    { clear -Hl. induction Hl as [|v l Hv _ IH]; [done|]. cbn [map]. rewrite sum_Z_cons.
      destruct v; cbn in *; unfold in_u in Hv; lia. }
    rewrite wrap_small by (unfold in_u; lia). destruct (IH (s + bare_input_hf4 v)%Z) as [E Ev]; [lia..|].
    split; [lia|]. change (v :: l) with ([v] ++ l). rewrite omap_app, value_app, Ev.
    assert (E1 : value (omap (bare_entry ver) [v]) ≡ bare_input_hf4 v • c_point_H).
    { destruct v as [|tk|ms|gw|]; cbn [omap list_omap bare_entry bare_input_hf4]; try (cbn; by rewrite mul_0_l).
      - rewrite value_cons, native_point. cbn. curve_ring.
      - rewrite value_cons, native_point. cbn. curve_ring.
      - rewrite Hver. cbn. by rewrite mul_0_l. }
    rewrite E1. curve_ring.
Qed.

Lemma outs_value_hf4 l s s' : Forall (fun k => opens k (o k)) (omap out_commitment l) -> outs_commitments_hf4 l s = Ret (Some s') ->
  pt_mul8 s' ≡ pt_mul8 s + hidden (omap out_commitment l) /\ omap gateway_entry l = [].
Proof.
  revert s. induction l as [|v l IH]; intros s Ho E.
  - injection E as <-. split; [|done]. cbn. rewrite hidden_nil. curve_ring.
  - cbn [outs_commitments_hf4] in E. destruct v as [|oz|]; [done| |done]. change (out_zarcanum oz :: l) with ([out_zarcanum oz] ++ l) in *.
    rewrite omap_app in Ho. apply Forall_app in Ho as [Ho1 Ho]. apply Forall_cons in Ho1 as [Ho1 _].
    unfold to_point in E. destruct (pt_from_public_key (oz_amount_commitment oz)) as [p|] eqn:Ep; [|done].
    destruct (IH _ Ho E) as [Ev Eg]. rewrite !omap_app, Eg. split; [|done]. rewrite Ev, hidden_app.
    change (omap out_commitment [out_zarcanum oz]) with [oz_amount_commitment oz]. rewrite <- (opens_key _ p Ho1 Ep). curve_ring.
Qed.

(** *** The commitment to zero *)

(** What [tx_id], the key of the transaction and its proofs prove of a point. *)
Definition proof_of_zero (tx : transaction) (tx_id : hash) (C : point_t) : Prop :=
  (exists gen dss, get_type_in_variant_container as_zc_balance_proof (tx_proofs tx) = Some dss /\
     verify_double_schnorr_sig gen tx_id C (get_tx_pub_key_from_extra tx) dss = true) \/
  (exists lcss, get_type_in_variant_container as_zc_gw_balance_proof (tx_proofs tx) = Some lcss /\
     verify_linear_composition_and_schnorr_sig tx_id C (get_tx_pub_key_from_extra tx) lcss = true) \/
  pt_is_zero C = true.

Lemma commitments_sides tx issued burned : ado_commitments tx = Some (issued, burned) ->
  commitments_in tx = issued ++ pseudo_outs tx /\ commitments_out tx = omap out_commitment (vout tx) ++ burned.
Proof.
  unfold commitments_in, commitments_out, ado_commitments, ado_commitment.
  destruct (get_type_in_variant_container _ _) as [ado|]; [|by intros [= <- <-]].
  destruct (ado_operation_type ado =? ASSET_DESCRIPTOR_OPERATION_REGISTER) eqn:E1; [|destruct (ado_operation_type ado =? ASSET_DESCRIPTOR_OPERATION_EMIT) eqn:E2];
    [..|destruct (ado_operation_type ado =? ASSET_DESCRIPTOR_OPERATION_PUBLIC_BURN) eqn:E3]; zbool; cbn [orb].
  - rewrite E1. destruct (ado_opt_amount_commitment ado); [|done]. intros [= <- <-].
    rewrite decide_True by by left. rewrite decide_False by (intros Hd; apply elem_of_cons in Hd as [Hd|Hd]; [discriminate|by apply elem_of_nil in Hd]). done.
  - rewrite E2. destruct (ado_opt_amount_commitment ado); [|done]. intros [= <- <-].
    rewrite decide_True by by right; left. rewrite decide_False by (intros Hd; apply elem_of_cons in Hd as [Hd|Hd]; [discriminate|by apply elem_of_nil in Hd]). done.
  - rewrite E3. destruct (ado_opt_amount_commitment ado); [|done]. intros [= <- <-].
    rewrite decide_False by (intros Hd; rewrite !elem_of_cons, elem_of_nil in Hd; destruct Hd as [Hd|[Hd|Hd]]; [discriminate Hd|discriminate Hd|done]).
    rewrite decide_True by by left. done.
  - intros [= <- <-]. rewrite !decide_False; [done|..]; rewrite !elem_of_cons, elem_of_nil; intuition congruence.
Qed.

(** The point a balance is about, by what is visible and what is hidden. *)
Definition balance_point (tx : transaction) (additional fee : Z) : point_t :=
  value (ledger o tx additional fee) + (excess o op_g tx • c_point_G + excess o op_x tx • c_point_X).

Lemma balance_point_parts tx additional fee : balance_point tx additional fee ≡
  (additional - fee)%Z • c_point_H + (value (omap (bare_entry (version tx)) (vin tx)) + hidden (commitments_in tx))
  - (value (omap gateway_entry (vout tx)) + hidden (commitments_out tx)).
Proof.
  unfold balance_point, ledger, excess, entries_in, entries_out, hidden, masks.
  rewrite !value_cons, value_app, value_negated, !value_app, native_point. curve_ring.
Qed.

Lemma balance_fee_u64 tx additional fee : balance_fee tx additional = Some fee -> is_u64 fee.
Proof.
  assert (Hw : forall x, is_u64 (u64 x)) by (intros x; by apply wrap_range).
  assert (Hf : forall l s, is_u64 s -> is_u64 (fold_left (fun fee f => u64 (fee + f)) l s)).
  { induction l as [|f l IH]; intros s Hs; [done|]. cbn. apply IH, Hw. }
  assert (H64 : is_u64 0) by done.
  unfold balance_fee. destruct (get_tx_fee tx) as [f|] eqn:E.
  - destruct (_ || _); [|done]. intros [= <-]. unfold get_tx_fee in E. destruct (is_coinbase tx); [by injection E as <-|].
    destruct (_ <=? _); [destruct (_ <=? _); [|done]; injection E as <-; apply Hw|].
    destruct (zarcanum_fees _); [done|]. injection E as <-. by apply Hf.
  - destruct (_ <? _); [|done]. by intros [= <-].
Qed.

Context (tx : transaction) (tx_id : hash) (additional : Z).
Context (amounts : amounts_u64 tx) (additional_u64 : is_u64 additional).
Context (openings : Forall (fun k => opens k (o k)) (commitments_in tx ++ commitments_out tx)).

(** Subtractions of amounts, as factors. *)
Lemma sub_u64_value a b : scalar a -> is_u64 b -> le_combine (sc_sub a (scalar_u64 b)) = (le_combine a - b) mod l25519.
Proof. intros Ha Hb. rewrite sc_sub_spec, scalar_combine_split, scalar_u64_value by (done || apply scalar_split). done. Qed.
Lemma sc_sub_scalar a b : scalar a -> scalar b -> scalar (sc_sub a b).
Proof. intros. rewrite sc_sub_spec by done. apply scalar_split. Qed.

Lemma commitment_hf6_balance : verify_balance_proof_hf6 tx tx_id additional = true ->
  exists C fee, balance_fee tx additional = Some fee /\ proof_of_zero tx tx_id C /\ C ≡ balance_point tx additional fee.
Proof.
  unfold verify_balance_proof_hf6. destruct (version tx <? _) eqn:Ev; [done|].
  destruct (fold_option add_input_hf6 _ _) as [ins|] eqn:Ei; [|done]. destruct (fold_option add_out_hf6 _ _) as [outs|] eqn:Eo; [|done].
  destruct (balance_fee tx additional) as [fee|] eqn:Ef; [|done]. destruct (ado_commitments tx) as [[issued burned]|] eqn:Ea; [|done].
  cbn [mbind option_bind].
  destruct (add_keys issued _) as [s1|] eqn:E1; [|done]. cbn [caught mbind option_bind]. destruct (add_keys burned _) as [s2|] eqn:E2; [|done]. cbn [caught mbind option_bind].
  destruct (add_keys (pseudo_outs tx) s1) as [s3|] eqn:E3; [|done]. cbn [caught mbind option_bind].
  destruct (negb _); [done|]. set (C := commitment_hf6 _ _ _ _ _). intros Hok. exists C, fee. split; [done|]. split.
  - unfold proof_of_zero. destruct (_ =? 0)%nat; [destruct (is_has_only_native_coin_bare_inputs ins); [|destruct (_ =? 0)%nat]|].
    + destruct (get_type_in_variant_container _ _) as [dss|] eqn:Ed; [|done]. left. by exists gt_G, dss.
    + cbn in Hok. apply andb_prop in Hok as [Hz _]. by right; right.
    + destruct (get_type_in_variant_container _ _) as [lcss|] eqn:Ed; [|done]. right. left. by exists lcss.
    + destruct (get_type_in_variant_container _ _) as [dss|] eqn:Ed; [|done]. left. by exists gt_X, dss.
  - destruct amounts as [Hin Hout]. destruct (commitments_sides tx _ _ Ea) as [Ein Eout]. rewrite Ein, Eout in openings.
    rewrite !Forall_app in openings. destruct openings as [[Hiss Hps] [Hoc Hb]].
    destruct (inputs_value _ _ (Build_inputs_sums additional c_point_0 true) ins Ev Hin additional_u64 Ei) as [Ui Vi].
    destruct (outs_value _ (Build_outs_sums 0 c_point_0 0) outs Hout Hoc ltac:(done) Eo) as [Uo Vo].
    rewrite balance_point_parts. unfold C, commitment_hf6, native_coin_asset_id_pt. rewrite !sub_u64_value;
      [|apply scalar_split|exact (balance_fee_u64 _ _ _ Ef)|apply sc_sub_scalar; apply scalar_split|done].
    rewrite scalar_u64_value by done. rewrite mul_same_mod with (b := (is_bare_inputs_native_amounts_sum ins - fee - os_bare_outs_native_amounts_sum outs)%Z);
      [|apply order_H|mod_ring].
    rewrite (add_keys_value _ _ _ Hps E3), (add_keys_value _ _ _ Hiss E1), (add_keys_value _ _ _ Hb E2).
    rewrite Ein, Eout. rewrite !hidden_app.
    cbn [is_bare_inputs_native_amounts_sum is_inputs_commitments_sum os_bare_outs_native_amounts_sum os_outs_commitments_sum] in Vi, Vo.
    transitivity ((is_bare_inputs_native_amounts_sum ins • c_point_H + pt_mul8 (is_inputs_commitments_sum ins)) + hidden issued + hidden (pseudo_outs tx)
      - fee • c_point_H - ((os_bare_outs_native_amounts_sum outs • c_point_H + pt_mul8 (os_outs_commitments_sum outs)) + hidden burned)); [curve_ring|].
    rewrite Vi, Vo. curve_ring.
Qed.

Lemma commitment_hf4_balance : (version tx <? TRANSACTION_VERSION_POST_HF6) = true ->
  additional + sum_Z (map bare_input_hf4 (vin tx)) < 2 ^ 64 -> verify_balance_proof_hf4 tx tx_id additional = Ret true ->
  exists C fee, balance_fee tx additional = Some fee /\ proof_of_zero tx tx_id C /\ C ≡ balance_point tx additional fee.
Proof.
  intros Hv Hsum. unfold verify_balance_proof_hf4. destruct (version tx <? TRANSACTION_VERSION_POST_HF4); [done|].
  destruct amounts as [Hin _]. destruct (bare_sum_hf4 _ _ _ Hv Hin ltac:(apply additional_u64) Hsum) as [-> Vi].
  destruct (get_type_in_variant_container _ _) as [dss|] eqn:Ed; [|done].
  destruct (outs_commitments_hf4 _ _) as [[outs|]|] eqn:Eo; [|done..]. outcome_simp.
  destruct (balance_fee tx additional) as [fee|] eqn:Ef; [|done]. destruct (ado_commitments tx) as [[issued burned]|] eqn:Ea; [|done].
  destruct (add_keys issued _) as [s1|] eqn:E1; [|done]. outcome_simp. destruct (add_keys burned _) as [s2|] eqn:E2; [|done]. outcome_simp.
  destruct (add_keys (pseudo_outs tx) s1) as [s3|] eqn:E3; [|done]. outcome_simp.
  destruct (negb _); [done|]. set (C := commitment_hf4 _ _ _ _). intros Hok. exists C, fee. split; [done|]. split.
  - left. destruct (0 <? _)%nat; injection Hok as Hok; eauto.
  - destruct (commitments_sides tx _ _ Ea) as [Ein Eout]. rewrite Ein, Eout in openings.
    rewrite !Forall_app in openings. destruct openings as [[Hiss Hps] [Hoc Hb]].
    destruct (outs_value_hf4 _ _ _ Hoc Eo) as [Vo Eg]. pose proof (sum_Z_nonneg (map bare_input_hf4 (vin tx))) as Hpos.
    assert (U : is_u64 (additional + sum_Z (map bare_input_hf4 (vin tx)))).
    { split; [|done]. apply Z.add_nonneg_nonneg; [apply additional_u64|]. apply Hpos. apply Forall_map.
      apply (Forall_impl _ _ _ Hin). intros [] Hi; cbn in *; unfold in_u in Hi; lia. }
    rewrite balance_point_parts. unfold C, commitment_hf4, native_coin_asset_id_pt.
    rewrite sub_u64_value; [|apply scalar_split|exact (balance_fee_u64 _ _ _ Ef)]. rewrite scalar_u64_value by exact U.
    rewrite mul_mod_order by apply order_H.
    rewrite (add_keys_value _ _ _ Hps E3), (add_keys_value _ _ _ Hiss E1), (add_keys_value _ _ _ Hb E2), Vo, Vi, Eg.
    rewrite Ein, Eout. cbn [value foldr]. rewrite !hidden_app. curve_ring.
Qed.

(** *** Exact equality of bounded sums *)

Lemma total_bound a l : Forall (fun e => Z.abs e.2 <= 2 ^ 64) l -> Z.abs (total a l) <= Z.of_nat (List.length l) * 2 ^ 64.
Proof.
  unfold total. induction 1 as [|e l He _ IH]; [done|]. cbn [foldr List.length]. rewrite Nat2Z.inj_succ. case_decide; lia.
Qed.

Lemma total_zero l a : Forall (fun e => Z.abs e.2 <= 2 ^ 64) l -> Z.of_nat (List.length l) < 2 ^ 64 -> total a l mod l25519 = 0 -> total a l = 0.
Proof.
  intros Hl Hn Hz. pose proof (total_bound a l Hl) as Hb. apply Z.mod_divide in Hz as [k Hk]; [|done].
  destruct (decide (k = 0)) as [->|Hk0]; [lia|]. exfalso.
  assert (2 ^ 128 < l25519) by done. change (2 ^ 128) with (2 ^ 64 * 2 ^ 64) in *. nia.
Qed.

(** Either every total is zero, or the totals are a relation. *)
Lemma conserved_or_relation l g x : Forall (fun e => Z.abs e.2 <= 2 ^ 64) l -> Z.of_nat (List.length l) < 2 ^ 64 ->
  value l + (g • c_point_G + x • c_point_X) ≡ c_point_0 ->
  (forall a, total a l = 0) \/ discrete_log_relation (by_asset (remove_dups (map fst l)) l) g x.
Proof.
  intros Hl Hn E. set (assets := remove_dups (map fst l)). assert (Hd : NoDup assets) by apply NoDup_remove_dups.
  assert (Hin : forall a, a ∈ map fst l -> a ∈ assets) by (intros a; apply elem_of_remove_dups).
  destruct (decide (Exists (fun e => e.2 mod l25519 <> 0) (by_asset assets l))) as [Hex|Hno].
  - right. split; [|split].
    + unfold by_asset. rewrite map_map. by rewrite map_id.
    + apply Exists_exists in Hex as ([a n] & Hm & Hne). by exists a, n.
    + by rewrite value_by_asset.
  - left. intros a. destruct (decide (a ∈ map fst l)) as [Ha|Ha]; [|by apply total_absent].
    apply total_zero; [done..|]. apply not_Exists_Forall in Hno; [|apply _].
    apply Hin in Ha. destruct (decide (total a l mod l25519 = 0)) as [|Hne]; [done|]. exfalso.
    rewrite Forall_forall in Hno. apply (Hno (a, total a l)); [|done]. unfold by_asset. apply list_elem_of_In, in_map_iff.
    exists a. split; [done|]. by apply list_elem_of_In.
Qed.

Lemma ledger_total a fee : total a (ledger o tx additional fee) = 0 ->
  (total a (entries_in o tx) + (if decide (a = native_coin_asset_id_1div8) then additional else 0) =
   total a (entries_out o tx) + (if decide (a = native_coin_asset_id_1div8) then fee else 0))%Z.
Proof.
  unfold ledger. intros E.
  change ((if decide (native_coin_asset_id_1div8 = a) then additional else 0) +
    ((if decide (native_coin_asset_id_1div8 = a) then - fee else 0) + total a (entries_in o tx ++ negated (entries_out o tx))) = 0)%Z in E.
  rewrite total_app, total_negated in E. destruct (decide (a = native_coin_asset_id_1div8)) as [->|Hne].
  - rewrite decide_True in E by done. rewrite decide_True in E by done. lia.
  - rewrite decide_False in E by done. rewrite decide_False in E by done. lia.
Qed.

Lemma ledger_amounts fee : is_u64 fee -> Forall (fun e => is_u64 e.2) (entries_in o tx ++ entries_out o tx) ->
  Forall (fun e => Z.abs e.2 <= 2 ^ 64) (ledger o tx additional fee).
Proof.
  unfold in_u in *. intros Hf He. unfold ledger. apply Forall_app in He as [Hi Ho].
  constructor; [cbn; lia|]. constructor; [cbn; lia|]. apply Forall_app. split.
  - apply (Forall_impl _ _ _ Hi). intros e. cbn. lia.
  - unfold negated. apply Forall_map. apply (Forall_impl _ _ _ Ho). intros e. cbn. lia.
Qed.

(** C1: no money is created.  An accepted transaction of version 2 or later
    proves a point to be a commitment to zero.  If its prover knows the factors
    the proof is about, and the commitments of the signatures, of the outputs and
    of an asset operation hide amounts of 64 bits, then for every asset what goes
    in (inputs, the issue of the asset, the reward of a miner transaction) is
    exactly what goes out (outputs, burned amounts, the fee): or else the
    openings give factors, not all zero, with which the assets, G and X cancel
    out, which nobody is supposed to know. *)
Theorem no_money_created :
  TRANSACTION_VERSION_POST_HF4 <= version tx ->
  (version tx < TRANSACTION_VERSION_POST_HF6 -> additional + sum_Z (map bare_input_hf4 (vin tx)) < 2 ^ 64) ->
  Forall (fun e => is_u64 e.2) (entries_in o tx ++ entries_out o tx) ->
  Z.of_nat (List.length (entries_in o tx) + List.length (entries_out o tx)) < 2 ^ 62 ->
  check_tx_balance tx tx_id additional = Ret true ->
  exists C fee, balance_fee tx additional = Some fee /\ proof_of_zero tx tx_id C /\
    forall x_g x_x, C ≡ x_g • c_point_G + x_x • c_point_X ->
      (forall a, (total a (entries_in o tx) + (if decide (a = native_coin_asset_id_1div8) then additional else 0) =
                 total a (entries_out o tx) + (if decide (a = native_coin_asset_id_1div8) then fee else 0))%Z) \/
      discrete_log_relation (imbalances o tx additional fee) (excess o op_g tx - x_g) (excess o op_x tx - x_x).
Proof.
  intros Hv Hsum Hu Hn Hok.
  assert (HC : exists C fee, balance_fee tx additional = Some fee /\ proof_of_zero tx tx_id C /\ C ≡ balance_point tx additional fee).
  { unfold check_tx_balance in Hok. destruct (TRANSACTION_VERSION_POST_HF6 <=? version tx) eqn:E6.
    - injection Hok as Hok. by apply commitment_hf6_balance.
    - zbool. destruct (TRANSACTION_VERSION_POST_HF4 <=? version tx) eqn:E4; [|zbool; lia].
      apply commitment_hf4_balance; [|by apply Hsum|done]. by apply Z.ltb_lt. }
  destruct HC as (C & fee & Hf & Hp & HC). exists C, fee. split; [done|]. split; [done|]. intros x_g x_x HX.
  destruct (conserved_or_relation (ledger o tx additional fee) (excess o op_g tx - x_g) (excess o op_x tx - x_x)) as [Hz|Hr].
  - apply ledger_amounts; [|done]. exact (balance_fee_u64 _ _ _ Hf).
  - unfold ledger, negated. cbn [List.length]. rewrite length_app, length_map. lia.
  - transitivity (balance_point tx additional fee - C).
    + rewrite HX. unfold balance_point. curve_ring.
    + rewrite HC. curve_ring.
  - left. intros a. by apply ledger_total.
  - by right.
Qed.

End conservation.

(** ** A transfer

    A hidden input of 1000 coins and one of 50 units of an asset from a gateway; a
    hidden output of 890 coins, gateway outputs of 100 coins and the 50 units, the
    fee of 10. *)

Module demo.

#[local] Instance demo_curve : Curve :=
  free_curve [(native_coin_asset_id_1div8, (0, 0, le_combine c_scalar_1div8, 0))].
#[local] Instance demo_laws : CurveLaws := free_curve_laws _.

Definition eighth (p : free_point) : public_key := free_encode (free_map (Z.mul (le_combine c_scalar_1div8)) p).
Definition pseudo_out : public_key := eighth (5, 7000, 1000, 0).
Definition hidden_output : public_key := eighth (5, 3560, 890, 0).
Definition demo_asset : public_key := key_of 2.
Definition sc (n : Z) : scalar_t := le_split 32 n.
Definition demo_clsag : CLSAG_GGX_signature_serialized := Build_CLSAG_GGX_signature_serialized (key_of 3) [] [] (key_of 5) (key_of 6).

Definition tx_key : scalar_t := sc 77.
Definition tx_pub_key : public_key := free_encode (77, 0, 0, 0).
Definition tx_id : hash := key_of 9.
Definition dss : generic_double_schnorr_sig_s :=
  @generate_double_schnorr_sig demo_curve (sc 11) (sc 12) gt_X tx_id (0, 3440, 0, 0) (sc 3440) (77, 0, 0, 0) tx_key.

Definition tx : transaction := {|
  tx_prefix := {|
    tp_version := 4; tp_hardfork_id := 6;
    tp_vin := [in_zc (Build_txin_zc_input [] (key_of 7) []); in_gateway (Build_txin_gateway 0 (key_of 1) demo_asset 50)];
    tp_extra := [P_public_key tx_pub_key; P_zarcanum_tx_data_v1 10];
    tp_vout := [out_zarcanum (Build_tx_out_zarcanum 0 (key_of 11) (key_of 12) hidden_output (key_of 14) 5 6 0);
                out_gateway (Build_tx_out_gateway 0 (key_of 1) native_coin_asset_id_1div8 100 0);
                out_gateway (Build_tx_out_gateway 0 (key_of 1) demo_asset 50 0)] |};
  tx_attachment := []; tx_signatures := [sig_ZC (Build_ZC_sig pseudo_out (key_of 2) demo_clsag); sig_void tt];
  tx_proofs := [proof_balance dss] |}.

Definition openings (k : public_key) : opening :=
  if decide (k = pseudo_out) then Build_opening native_coin_asset_id_1div8 1000 5 7000 else Build_opening native_coin_asset_id_1div8 890 5 3560.

End demo.

Example no_money_created_witness :
  @check_tx_balance demo.demo_curve demo.tx demo.tx_id 0 = Ret true /\
  exists C fee, balance_fee demo.tx 0 = Some fee /\ @proof_of_zero demo.demo_curve demo.tx demo.tx_id C /\
    forall x_g x_x, @equiv _ (@pt_equiv demo.demo_curve) C (pt_add (x_g • c_point_G) (x_x • c_point_X)) ->
      (forall a, (total a (entries_in demo.openings demo.tx) + (if decide (a = native_coin_asset_id_1div8) then 0 else 0) =
                 total a (entries_out demo.openings demo.tx) + (if decide (a = native_coin_asset_id_1div8) then fee else 0))%Z) \/
      @discrete_log_relation demo.demo_curve (imbalances demo.openings demo.tx 0 fee)
        (excess demo.openings op_g demo.tx - x_g) (excess demo.openings op_x demo.tx - x_x).
Proof.
  assert (E : @check_tx_balance demo.demo_curve demo.tx demo.tx_id 0 = Ret true) by (vm_compute; reflexivity).
  split; [exact E|]. refine (@no_money_created demo.demo_curve demo.demo_laws demo.openings _ demo.tx demo.tx_id 0 _ _ _ _ _ _ _ E); clear E.
  - by vm_compute.
  - by split; repeat constructor.
  - done.
  - change (Forall (fun k => @opens demo.demo_curve k (demo.openings k)) [demo.pseudo_out; demo.hidden_output]).
    apply Forall_cons; split; [|apply Forall_cons; split; [|exact (List.Forall_nil _)]];
      (split; [eexists; vm_compute; reflexivity|eexists; split; [vm_compute; reflexivity|vm_compute; reflexivity]]).
  - done.
  - done.
  - apply (proj1 (Forall_map snd is_u64 _)).
    change (Forall is_u64 [50; 1000; 100; 50; 890]). repeat constructor; done.
  - done.
Defined.
