(* ===== verification/BalanceGen.v ===== *)
(** * Making the balance proofs:
    [generate_tx_balance_proof_hf4] and [generate_tx_balance_proof_hf6] of
    [src/src/currency_core/currency_format_utils_transactions.cpp]

    The sender's side of [Balance]: the proof is made from the sums and the masks
    collected while the transaction was built. *)

From S2P Require Import Prelude Config Archive Pod CryptoTypes Basic Transactions HfTerms TxSemantic TxHardforks Assets Chain InputChecks Limbs Field25519 Scalar25519 Curve CurveModel Schnorr Clsag Balance.

Local Open Scope curve_scope.

(** The members of [tx_generation_context] the proofs are made of. *)
Record tx_generation_context `{Curve} : Type := {
  ogc_asset_id_blinding_mask_x_amount_sum : scalar_t;
  ogc_amount_blinding_masks_sum : scalar_t;
  ogc_amount_commitments_sum : point_t;
  ogc_real_in_asset_id_blinding_mask_x_amount_sum : scalar_t;
  ogc_pseudo_out_amount_commitments_sum : point_t;
  ogc_ao_amount_commitment : point_t;
  ogc_ao_amount_blinding_mask : scalar_t;
  ogc_ao_commitment_in_outputs : bool;
  ogc_tx_pub_key_p : point_t;
  ogc_tx_key_sec : scalar_t
}.

Definition scalar_is_zero (s : scalar_t) : bool := sc_isnonzero s =? 0.
Definition scalar_neg (s : scalar_t) : scalar_t := sc_sub sc_0 s.

Definition is_ZC_sig (s : signature_v) : bool := match s with sig_ZC _ => true | _ => false end.
Definition count_in {A} (f : A -> bool) (l : list A) : nat := List.length (List.filter f l).
Definition is_balance_proof (p : proof_v) : bool := match p with proof_balance _ => true | _ => false end.
Definition is_gw_balance_proof (p : proof_v) : bool := match p with proof_gw_balance _ => true | _ => false end.

Section generation.
Context `{Curve}.

(** The commitment of the asset operation, by its side. *)
Definition ao_commitment (ogc : tx_generation_context) : point_t :=
  if ogc_ao_commitment_in_outputs ogc then c_point_0 - ogc_ao_amount_commitment ogc else ogc_ao_amount_commitment ogc.

(** [None] is [false]. *)
Definition generate_tx_balance_proof_hf4 (r0 r1 : scalar_t) (tx : transaction) (tx_id : hash) (ogc : tx_generation_context)
    (block_reward_for_miner_tx : Z) : option generic_double_schnorr_sig_s :=
  if version tx <=? TRANSACTION_VERSION_PRE_HF4 then None
  else if negb (count_in is_balance_proof (tx_proofs tx) =? 0)%nat then None
  else if existsb (fun v => match v with in_multisig _ => true | _ => false end) (vin tx) then None
  else
    let bare_inputs_sum := fold_left (fun s v => match v with in_to_key tk => u64 (s + ttk_amount tk) | _ => s end) (vin tx) block_reward_for_miner_tx in
    fee ← get_tx_fee tx;
    if (count_zc_inputs (vin tx) =? 0)%nat then
      if negb (count_in is_ZC_sig (tx_signatures tx) =? 0)%nat then None
      else if negb (scalar_is_zero (ogc_asset_id_blinding_mask_x_amount_sum ogc)) then None
      else if negb (scalar_is_zero (ogc_ao_amount_blinding_mask ogc)) then None
      else
        let commitment_to_zero := sc_sub (scalar_u64 bare_inputs_sum) (scalar_u64 fee) *' native_coin_asset_id_pt - ogc_amount_commitments_sum ogc in
        let secret_x := scalar_neg (ogc_amount_blinding_masks_sum ogc) in
        Some (generate_double_schnorr_sig r0 r1 gt_G tx_id commitment_to_zero secret_x (ogc_tx_pub_key_p ogc) (ogc_tx_key_sec ogc))
    else
      let commitment_to_zero := sc_sub (scalar_u64 bare_inputs_sum) (scalar_u64 fee) *' native_coin_asset_id_pt
        + ogc_pseudo_out_amount_commitments_sum ogc + ao_commitment ogc - ogc_amount_commitments_sum ogc in
      let secret_x := sc_sub (ogc_real_in_asset_id_blinding_mask_x_amount_sum ogc) (ogc_asset_id_blinding_mask_x_amount_sum ogc) in
      Some (generate_double_schnorr_sig r0 r1 gt_X tx_id commitment_to_zero secret_x (ogc_tx_pub_key_p ogc) (ogc_tx_key_sec ogc)).

(** The sums over inputs and outputs: the native amounts, the other commitments
    and, of the inputs, whether all are native coins that are not hidden, of the
    outputs, the number of hidden ones. *)
Definition gen_input_hf6 (s : Z * point_t * bool) (in_v : txin_v) : outcome (option (Z * point_t * bool)) :=
  let '(native, sum, only) := s in
  match in_v with
  | in_gen _ => Ret (Some s)
  | in_to_key in_tk => Ret (Some (u64 (native + ttk_amount in_tk), sum, only))
  | in_zc _ => Ret (Some (native, sum, false))
  | in_gateway in_gw =>
      if decide (tgw_asset_id in_gw = native_coin_asset_id_1div8) then Ret (Some (u64 (native + tgw_amount in_gw), sum, only))
      else p ← to_point (tgw_asset_id in_gw); Ret (Some (native, sum + scalar_u64 (tgw_amount in_gw) *' pt_mul8 p, false))
  | in_multisig _ => Ret None
  end.
Fixpoint gen_inputs_hf6 (l : list txin_v) (s : Z * point_t * bool) : outcome (option (Z * point_t * bool)) :=
  match l with
  | [] => Ret (Some s)
  | v :: l => r ← gen_input_hf6 s v; match r with Some s => gen_inputs_hf6 l s | None => Ret None end
  end.
Definition gen_out_hf6 (s : Z * point_t * nat) (out_v : tx_out_v) : outcome (Z * point_t * nat) :=
  let '(native, sum, count) := s in
  match out_v with
  | out_zarcanum _ => Ret (native, sum, S count)
  | out_gateway out_gw =>
      if decide (ogw_asset_id out_gw = native_coin_asset_id_1div8) then Ret (u64 (native + ogw_amount out_gw), sum, count)
      else p ← to_point (ogw_asset_id out_gw); Ret (native, sum + scalar_u64 (ogw_amount out_gw) *' pt_mul8 p, count)
  | out_bare _ => Ret s
  end.
Fixpoint gen_outs_hf6 (l : list tx_out_v) (s : Z * point_t * nat) : outcome (Z * point_t * nat) :=
  match l with [] => Ret s | v :: l => s ← gen_out_hf6 s v; gen_outs_hf6 l s end.

Definition gen_commitment_hf6 (bare_inputs_native_amounts_sum fee bare_outs_native_amounts_sum : Z)
    (bare_inputs_commitments_sum bare_outs_commitments_sum : point_t) (ogc : tx_generation_context) : point_t :=
  bare_inputs_commitments_sum +
  sc_sub (sc_sub (scalar_u64 bare_inputs_native_amounts_sum) (scalar_u64 fee)) (scalar_u64 bare_outs_native_amounts_sum) *' native_coin_asset_id_pt
  + ogc_pseudo_out_amount_commitments_sum ogc + ao_commitment ogc - ogc_amount_commitments_sum ogc - bare_outs_commitments_sum.

Definition with_proof (tx : transaction) (p : proof_v) : transaction :=
  {| tx_prefix := tx_prefix tx; tx_attachment := tx_attachment tx; tx_signatures := tx_signatures tx; tx_proofs := tx_proofs tx ++ [p] |}.

(** The secrets of the proof: over G and over X. *)
Definition secret_g_hf6 (ogc : tx_generation_context) : scalar_t := scalar_neg (ogc_amount_blinding_masks_sum ogc).
Definition secret_x_hf6 (confidential : bool) (ogc : tx_generation_context) : scalar_t :=
  if confidential then sc_sub (ogc_real_in_asset_id_blinding_mask_x_amount_sum ogc) (ogc_asset_id_blinding_mask_x_amount_sum ogc)
  else scalar_neg (ogc_asset_id_blinding_mask_x_amount_sum ogc).

Definition generate_tx_balance_proof_hf6 (r0 r1 r2 : scalar_t) (tx_id : hash) (ogc : tx_generation_context) (block_reward_for_miner_tx : Z)
    (tx : transaction) : outcome (option transaction) :=
  if version tx <? TRANSACTION_VERSION_POST_HF6 then Ret None
  else if negb (count_in is_balance_proof (tx_proofs tx) =? 0)%nat || negb (count_in is_gw_balance_proof (tx_proofs tx) =? 0)%nat then Ret None
  else
    ins ← gen_inputs_hf6 (vin tx) (block_reward_for_miner_tx, c_point_0, true);
    match (ins : option (Z * point_t * bool)) with
    | None => Ret None
    | Some (bare_inputs_native_amounts_sum, bare_inputs_commitments_sum, has_only_native_coin_bare_inputs) =>
        outs ← gen_outs_hf6 (vout tx) (0, c_point_0, 0%nat);
        let '(bare_outs_native_amounts_sum, bare_outs_commitments_sum, confidential_outs_count) := (outs : Z * point_t * nat) in
        match get_tx_fee tx with
        | None => Ret None
        | Some fee =>
            let commitment_to_zero := gen_commitment_hf6 bare_inputs_native_amounts_sum fee bare_outs_native_amounts_sum
                                        bare_inputs_commitments_sum bare_outs_commitments_sum ogc in
            if (count_zc_inputs (vin tx) =? 0)%nat then
              if negb (count_in is_ZC_sig (tx_signatures tx) =? 0)%nat then Ret None
              else if negb (scalar_is_zero (ogc_real_in_asset_id_blinding_mask_x_amount_sum ogc)) then Ret None
              else if has_only_native_coin_bare_inputs then
                if negb (scalar_is_zero (ogc_asset_id_blinding_mask_x_amount_sum ogc)) || negb (scalar_is_zero (ogc_ao_amount_blinding_mask ogc))
                then Ret None
                else Ret (Some (with_proof tx (proof_balance
                  (generate_double_schnorr_sig r0 r1 gt_G tx_id commitment_to_zero (secret_g_hf6 ogc) (ogc_tx_pub_key_p ogc) (ogc_tx_key_sec ogc)))))
              else if (confidential_outs_count =? 0)%nat then
                if negb (scalar_is_zero (ogc_ao_amount_blinding_mask ogc)) || negb (pt_is_zero commitment_to_zero) then Ret None else Ret (Some tx)
              else if scalar_is_zero (ogc_asset_id_blinding_mask_x_amount_sum ogc) then Ret None
              else Ret (Some (with_proof tx (proof_gw_balance
                (generate_linear_composition_and_schnorr_sig r0 r1 r2 tx_id commitment_to_zero (secret_g_hf6 ogc) (secret_x_hf6 false ogc)
                  (ogc_tx_pub_key_p ogc) (ogc_tx_key_sec ogc)))))
            else Ret (Some (with_proof tx (proof_balance
              (generate_double_schnorr_sig r0 r1 gt_X tx_id commitment_to_zero (secret_x_hf6 true ogc) (ogc_tx_pub_key_p ogc) (ogc_tx_key_sec ogc)))))
        end
    end.
End generation.

(** ** The proofs that are made are accepted *)

Section accepted.
Context `{CurveLaws}.

#[local] Arguments scalar_u64 _ : simpl never.
#[local] Arguments le_combine _ : simpl never.

Lemma assign_add_fits v r : is_u64 v -> is_u64 r -> r + v < 2 ^ 64 -> assign_add_with_overflow_check v r = Some (u64 (r + v)).
Proof.
  intros Hv Hr Hs. unfold assign_add_with_overflow_check. rewrite wrap_small by (unfold in_u in *; lia).
  destruct (_ <? _) eqn:E; [|done]. zbool. unfold in_u in *. lia.
Qed.

Lemma native_input_bound v : is_u64 (get_amount_from_variant v) -> 0 <= native_input v.
Proof. unfold native_input, in_u. destruct v; cbn; try lia. case_decide; lia. Qed.
Lemma native_inputs_bound l : Forall (fun i => is_u64 (get_amount_from_variant i)) l -> 0 <= sum_Z (map native_input l).
Proof. intros Hl. apply sum_Z_nonneg, Forall_map. apply (Forall_impl _ _ _ Hl). apply native_input_bound. Qed.

(** The verifier's sum is an eighth of the sender's. *)
Lemma inputs_follow l n sum only s n' sum' only' : Forall (fun i => is_u64 (get_amount_from_variant i)) l ->
  is_u64 n -> n + sum_Z (map native_input l) < 2 ^ 64 -> pt_mul8 s ≡ sum ->
  gen_inputs_hf6 l (n, sum, only) = Ret (Some (n', sum', only')) ->
  exists s', fold_option add_input_hf6 l (Build_inputs_sums n s only) = Some (Build_inputs_sums n' s' only') /\ pt_mul8 s' ≡ sum'.
Proof.
  intros Hl. revert n sum only s. induction Hl as [|v l Hv Hl IH]; intros n sum only s Hn Hb Hs E.
  - injection E as <- <- <-. by exists s.
  - cbn [map] in Hb. rewrite sum_Z_cons in Hb. pose proof (native_inputs_bound l Hl) as Hp. pose proof (native_input_bound v Hv) as Hp1.
    assert (Hstep : forall n1 sum1 only1, gen_input_hf6 (n, sum, only) v = Ret (Some (n1, sum1, only1)) -> exists s1,
      add_input_hf6 (Build_inputs_sums n s only) v = Some (Build_inputs_sums n1 s1 only1) /\ pt_mul8 s1 ≡ sum1 /\ n1 = (n + native_input v)%Z).
    { intros n1 sum1 only1 E1. unfold native_input in *. destruct v as [|tk| |gw|]; cbn [gen_input_hf6 add_input_hf6 input_amount get_amount_from_variant] in *.
      - injection E1 as <- <- <-. exists s. repeat split; [done|lia].
      - injection E1 as <- <- <-. cbn [is_bare_inputs_native_amounts_sum]. rewrite assign_add_fits by (done || lia). exists s.
        repeat split; [done|]. apply wrap_small. unfold in_u in *. lia.
      - done.
      - case_decide as Ha.
        + injection E1 as <- <- <-. cbn [is_bare_inputs_native_amounts_sum]. rewrite assign_add_fits by (done || lia). exists s.
          repeat split; [done|]. apply wrap_small. unfold in_u in *. lia.
        + unfold to_point in E1. destruct (pt_from_public_key (tgw_asset_id gw)) as [p|] eqn:Ep; [|done]. injection E1 as <- <- <-.
          eexists. split; [done|]. split; [|lia]. cbn [is_inputs_commitments_sum]. rewrite <- Hs. curve_ring.
      - injection E1 as <- <- <-. exists s. repeat split; [done|lia]. }
    cbn [gen_inputs_hf6] in E. destruct (gen_input_hf6 (n, sum, only) v) as [[[[n1 sum1] only1]|]|]; [|done..]. outcome_simp.
    cbn [mbind outcome_bind] in E. destruct (Hstep _ _ _ eq_refl) as (s1 & E1 & Hs1 & ->).
    destruct (IH (n + native_input v)%Z sum1 only1 s1) as (s' & E' & Hs'); [unfold in_u in *; lia|lia|done..|].
    exists s'. split; [|done]. cbn [fold_option]. by rewrite E1.
Qed.

Lemma native_output_bound v : (match v with out_bare b => is_u64 (ob_amount b) | out_gateway g => is_u64 (ogw_amount g) | out_zarcanum _ => True end) ->
  0 <= native_output v.
Proof. unfold native_output, in_u. destruct v; cbn; try lia. case_decide; lia. Qed.

Lemma outs_follow l m b c s k m' b' c' k' :
  Forall (fun v => match v with out_bare b => is_u64 (ob_amount b) | out_gateway g => is_u64 (ogw_amount g) | out_zarcanum _ => True end) l ->
  is_u64 m -> m + sum_Z (map native_output l) < 2 ^ 64 -> pt_mul8 s ≡ b + pt_mul8 k ->
  gen_outs_hf6 l (m, b, c) = Ret (m', b', c') -> add_keys (omap out_commitment l) k = Ret k' ->
  exists s', fold_option add_out_hf6 l (Build_outs_sums m s c) = Some (Build_outs_sums m' s' c') /\ pt_mul8 s' ≡ b' + pt_mul8 k'.
Proof.
  intros Hl. revert m b c s k. induction Hl as [|v l Hv Hl IH]; intros m b c s k Hm Hb Hs E Ek.
  - injection E as <- <- <-. injection Ek as <-. by exists s.
  - cbn [map] in Hb. rewrite sum_Z_cons in Hb. pose proof (native_output_bound v Hv) as Hp1.
    assert (Hp : 0 <= sum_Z (map native_output l)).
    { apply sum_Z_nonneg, Forall_map. apply (Forall_impl _ _ _ Hl). apply native_output_bound. }
    cbn [gen_outs_hf6 fold_option] in *. change (v :: l) with ([v] ++ l) in Ek. rewrite omap_app in Ek.
    destruct v as [bo|oz|gw]; cbn [gen_out_hf6 add_out_hf6] in *.
    + change (native_output (out_bare bo)) with (ob_amount bo) in *. cbn [mbind outcome_bind] in E. apply (IH m b c s k); try done; lia.
    + change (native_output (out_zarcanum oz)) with 0 in *. cbn [mbind outcome_bind] in E. change (omap out_commitment [out_zarcanum oz] ++ ?t) with (oz_amount_commitment oz :: t) in Ek.
      cbn [add_keys] in Ek. unfold to_point in Ek. destruct (pt_from_public_key (oz_amount_commitment oz)) as [p|]; [|done].
      cbn [mbind outcome_bind option_bind] in *. apply (IH m b (S c) (s + p) (k + p)); try done; try lia.
      transitivity (pt_mul8 s + pt_mul8 p); [curve_ring|]. rewrite Hs. curve_ring.
    + change (native_output (out_gateway gw)) with (if decide (ogw_asset_id gw = native_coin_asset_id_1div8) then ogw_amount gw else 0) in *.
      case_decide as Ha.
      * cbn [mbind outcome_bind] in E. cbn [os_bare_outs_native_amounts_sum]. rewrite assign_add_fits by (done || lia).
        cbn [mbind option_bind]. rewrite wrap_small in * by (unfold in_u in *; lia).
        apply (IH (m + ogw_amount gw)%Z b c s k); try done; unfold in_u in *; lia.
      * unfold to_point in E. destruct (pt_from_public_key (ogw_asset_id gw)) as [p|]; [|done]. cbn [mbind outcome_bind option_bind] in *.
        apply (IH m (b + scalar_u64 (ogw_amount gw) *' pt_mul8 p) c (s + scalar_u64 (ogw_amount gw) *' p) k); try done; try lia.
        transitivity (pt_mul8 s + pt_mul8 (scalar_u64 (ogw_amount gw) *' p)); [curve_ring|]. rewrite Hs. curve_ring.
Qed.

(** The same keys added to another sum. *)
Lemma add_keys_from l s s' t : add_keys l s = Ret s' -> exists t', add_keys l t = Ret t' /\ t' - t ≡ s' - s.
Proof.
  revert s t. induction l as [|k l IH]; intros s t E; cbn [add_keys] in *.
  - injection E as <-. exists t. split; [done|]. curve_ring.
  - destruct (to_point k) as [p|]; [|done]. cbn [mbind outcome_bind] in *. destruct (IH _ (t + p) E) as (t' & E' & Ht').
    exists t'. split; [done|]. transitivity ((t' - (t + p)) + p); [curve_ring|]. rewrite Ht'. curve_ring.
Qed.

Lemma first_proof {A} (get : proof_v -> option A) (kind : proof_v -> bool) l p a : (forall p, kind p = false -> get p = None) ->
  get p = Some a -> (count_in kind l =? 0)%nat = true -> get_type_in_variant_container get (l ++ [p]) = Some a.
Proof.
  intros Hg Hp. unfold get_type_in_variant_container, count_in. rewrite omap_app. induction l as [|q l IH]; [cbn; by rewrite Hp|].
  cbn [List.filter]. destruct (kind q) eqn:E; [done|]. intros Hc. change (q :: l) with ([q] ++ l). rewrite omap_app.
  change (omap get [q]) with (match get q with Some b => [b] | None => [] end). rewrite (Hg q E). by apply IH.
Qed.

Lemma scalar_neg_canonical s : scalar s -> canonical (scalar_neg s).
Proof.
  intros Hs. unfold scalar_neg. rewrite sc_sub_spec; [apply canonical_split| |done].
  split; [|done]. apply Forall_replicate. done.
Qed.
Lemma sc_sub_canonical a b : scalar a -> scalar b -> canonical (sc_sub a b).
Proof. intros. rewrite sc_sub_spec by done. apply canonical_split. Qed.

Lemma response_point_proper g c y A A' : A ≡ A' -> response_point g c y A ≡ response_point g c y A'.
Proof. intros E. by rewrite !response_point_alt, E. Qed.
Lemma verify_double_proper gen m C C' B sig : C ≡ C' -> verify_double_schnorr_sig gen m C B sig = verify_double_schnorr_sig gen m C' B sig.
Proof.
  intros E. unfold verify_double_schnorr_sig. destruct (_ || _); [done|]. destruct (pt_from_public_key B) as [B'|]; [|done].
  apply bool_decide_ext. rewrite (to_public_key_proper _ _ E). by rewrite (to_public_key_proper _ _ (response_point_proper _ _ _ _ _ E)).
Qed.
Lemma verify_linear_proper m C C' B sig : C ≡ C' ->
  verify_linear_composition_and_schnorr_sig m C B sig = verify_linear_composition_and_schnorr_sig m C' B sig.
Proof.
  intros E. unfold verify_linear_composition_and_schnorr_sig. destruct (_ || _); [done|]. destruct (pt_from_public_key B) as [B'|]; [|done].
  apply bool_decide_ext. rewrite (to_public_key_proper _ _ E). unfold mul_plus_G.
  by rewrite (to_public_key_proper (_ + _ *' C + _) (glcss_y0 sig *' c_point_G + glcss_c sig *' C' + glcss_y1 sig *' c_point_X)) by by rewrite E.
Qed.

(** The context of a transaction: its sums are those of the commitments of the
    transaction, its keys those of the transaction. *)
Record context_of (tx : transaction) (ogc : tx_generation_context) : Prop := {
  co_outs : exists s, add_keys (omap out_commitment (vout tx)) c_point_0 = Ret s /\ ogc_amount_commitments_sum ogc ≡ pt_mul8 s;
  co_pseudo_outs : exists s, add_keys (pseudo_outs tx) c_point_0 = Ret s /\ ogc_pseudo_out_amount_commitments_sum ogc ≡ pt_mul8 s;
  co_ao : exists issued burned si sb, ado_commitments tx = Some (issued, burned) /\ add_keys issued c_point_0 = Ret si /\
    add_keys burned c_point_0 = Ret sb /\ ao_commitment ogc ≡ pt_mul8 si - pt_mul8 sb;
  co_no_ao : scalar_is_zero (ogc_ao_amount_blinding_mask ogc) = true -> has_asset_operation tx = false;
  co_sigs : count_zc_inputs (vin tx) = List.length (pseudo_outs tx);
  co_key : get_tx_pub_key_from_extra tx = pt_to_public_key (ogc_tx_pub_key_p ogc) /\
    ogc_tx_pub_key_p ogc ≡ ogc_tx_key_sec ogc *' c_point_G /\ canonical (ogc_tx_key_sec ogc);
  co_scalars : scalar (ogc_amount_blinding_masks_sum ogc) /\ scalar (ogc_asset_id_blinding_mask_x_amount_sum ogc) /\
    scalar (ogc_real_in_asset_id_blinding_mask_x_amount_sum ogc)
}.

(** The assertions of the debug build: the commitment is the one the secrets of
    the proof open. *)
Definition sane (tx : transaction) (only : bool) (ogc : tx_generation_context) (C : point_t) : Prop :=
  C ≡ (if (count_zc_inputs (vin tx) =? 0)%nat then
         if only then secret_g_hf6 ogc *' c_point_G else secret_g_hf6 ogc *' c_point_G + secret_x_hf6 false ogc *' c_point_X
       else secret_x_hf6 true ogc *' c_point_X).

Section hf6.
Context (tx : transaction) (tx_id : hash) (ogc : tx_generation_context) (reward : Z) (r0 r1 r2 : scalar_t).
Context (amounts : amounts_u64 tx) (reward_u64 : is_u64 reward).
Context (ins_fit : reward + sum_Z (map native_input (vin tx)) < 2 ^ 64) (outs_fit : sum_Z (map native_output (vout tx)) < 2 ^ 64).
Context (randoms : scalar r0 /\ scalar r1 /\ scalar r2).
Context (matches : context_of tx ogc).

(** What the verifier computes of the transaction. *)
Definition verifier_sums (ins : inputs_sums) (outs : outs_sums) (fee : Z) (C : point_t) : Prop :=
  fold_option add_input_hf6 (vin tx) (Build_inputs_sums reward c_point_0 true) = Some ins /\
  fold_option add_out_hf6 (vout tx) (Build_outs_sums 0 c_point_0 0) = Some outs /\ balance_fee tx reward = Some fee /\
  exists issued burned ic1 ic2 oc2, ado_commitments tx = Some (issued, burned) /\
    add_keys issued (is_inputs_commitments_sum ins) = Ret ic1 /\ add_keys burned (os_outs_commitments_sum outs) = Ret oc2 /\
    add_keys (pseudo_outs tx) ic1 = Ret ic2 /\
    C = commitment_hf6 (is_bare_inputs_native_amounts_sum ins) fee (os_bare_outs_native_amounts_sum outs) ic2 oc2.

(** The verifier's commitment is the sender's. *)
Lemma verifier_commitment n ic only m oc c fee : gen_inputs_hf6 (vin tx) (reward, c_point_0, true) = Ret (Some (n, ic, only)) ->
  gen_outs_hf6 (vout tx) (0, c_point_0, 0%nat) = Ret (m, oc, c) -> get_tx_fee tx = Some fee -> (reward =? 0) || (fee =? 0) = true ->
  exists ins outs C, verifier_sums ins outs fee C /\
    is_has_only_native_coin_bare_inputs ins = only /\ os_confidential_outs_count outs = c /\ C ≡ gen_commitment_hf6 n fee m ic oc ogc.
Proof.
  intros Ei Eo Ef Hr. destruct amounts as [Hai Hao]. destruct matches as [(so & Eso & Ho) (sp & Esp & Hp) (issued & burned & si & sb & Ea & Esi & Esb & Ha) _ _ _ _].
  assert (Z1 : pt_mul8 c_point_0 ≡ c_point_0) by curve_ring. assert (Z2 : pt_mul8 c_point_0 ≡ c_point_0 + pt_mul8 c_point_0) by curve_ring.
  destruct (inputs_follow _ _ _ _ _ _ _ _ Hai reward_u64 ins_fit Z1 Ei) as (s1 & F1 & V1).
  destruct (outs_follow _ 0 c_point_0 0%nat c_point_0 c_point_0 _ _ _ _ Hao ltac:(done) outs_fit Z2 Eo Eso) as (s2 & F2 & V2).
  destruct (add_keys_from _ _ _ s1 Esi) as (ic1 & E1 & W1). destruct (add_keys_from _ _ _ s2 Esb) as (oc2 & E2 & W2).
  destruct (add_keys_from _ _ _ ic1 Esp) as (ic2 & E3 & W3).
  exists (Build_inputs_sums n s1 only), (Build_outs_sums m s2 c). eexists. split; [|split; [done|split; [done|]]].
  - split; [done|]. split; [done|]. split; [by unfold balance_fee; rewrite Ef, Hr|]. exists issued, burned, ic1, ic2, oc2.
    split; [done|]. split; [done|]. split; [done|]. split; done.
  - cbn [is_bare_inputs_native_amounts_sum os_bare_outs_native_amounts_sum]. unfold commitment_hf6, gen_commitment_hf6.
    rewrite Ho, Hp, Ha. set (f := sc_sub _ _).
    transitivity (f *' native_coin_asset_id_pt + (pt_mul8 s1 + pt_mul8 (ic1 - s1) + pt_mul8 (ic2 - ic1)) - (pt_mul8 s2 + pt_mul8 (oc2 - s2))); [curve_ring|].
    rewrite V1, V2, W1, W2, W3. curve_ring.
Qed.

(** The proof the verifier looks for. *)
Definition right_proof (ins : inputs_sums) (outs : outs_sums) (C : point_t) (tx' : transaction) : Prop :=
  let double gen := exists dss, get_type_in_variant_container as_zc_balance_proof (tx_proofs tx') = Some dss /\
    verify_double_schnorr_sig gen tx_id C (get_tx_pub_key_from_extra tx) dss = true in
  if (count_zc_inputs (vin tx) =? 0)%nat then
    if is_has_only_native_coin_bare_inputs ins then double gt_G
    else if (os_confidential_outs_count outs =? 0)%nat then pt_is_zero C = true /\ has_asset_operation tx = false
    else exists lcss, get_type_in_variant_container as_zc_gw_balance_proof (tx_proofs tx') = Some lcss /\
      verify_linear_composition_and_schnorr_sig tx_id C (get_tx_pub_key_from_extra tx) lcss = true
  else double gt_X.

Lemma verifier_accepts ins outs fee C t : (version tx <? TRANSACTION_VERSION_POST_HF6) = false -> verifier_sums ins outs fee C ->
  tx_prefix t = tx_prefix tx -> tx_signatures t = tx_signatures tx -> right_proof ins outs C t -> check_tx_balance t tx_id reward = Ret true.
Proof.
  intros Ev (F1 & F2 & Fb & issued & burned & ic1 & ic2 & oc2 & Fa & A1 & A2 & A3 & EC) Ep Es Hp.
  unfold check_tx_balance. rewrite Ep. replace (TRANSACTION_VERSION_POST_HF6 <=? version tx) with true
    by (symmetry; apply Z.leb_le; by apply Z.ltb_ge). f_equal. unfold verify_balance_proof_hf6.
  assert (B1 : balance_fee t reward = balance_fee tx reward) by (unfold balance_fee, get_tx_fee, is_coinbase, get_outs_money_amount; by rewrite Ep).
  assert (B2 : ado_commitments t = ado_commitments tx) by (unfold ado_commitments; by rewrite Ep).
  assert (B3 : pseudo_outs t = pseudo_outs tx) by (unfold pseudo_outs; by rewrite Es).
  assert (B4 : get_tx_pub_key_from_extra t = get_tx_pub_key_from_extra tx) by (unfold get_tx_pub_key_from_extra; by rewrite Ep).
  assert (B5 : has_asset_operation t = has_asset_operation tx) by (unfold has_asset_operation; by rewrite B2).
  rewrite Ep, B1, B2, B3, B4, B5, Ev, F1, F2, Fb, Fa. cbn [mbind option_bind]. rewrite A1. cbn [caught]. rewrite A2. cbn [caught].
  cbn [mbind option_bind]. rewrite A3. cbn [caught mbind option_bind]. rewrite (co_sigs _ _ matches), Nat.eqb_refl, <- (co_sigs _ _ matches), <- EC.
  cbn [negb]. unfold right_proof in Hp.
  destruct (_ =? 0)%nat; [destruct (is_has_only_native_coin_bare_inputs ins); [|destruct (_ =? 0)%nat]|].
  - destruct Hp as (dss & -> & Hv). exact Hv.
  - destruct Hp as [-> ->]. done.
  - destruct Hp as (lcss & -> & Hv). exact Hv.
  - destruct Hp as (dss & -> & Hv). exact Hv.
Qed.

(** A double proof made for an equal commitment. *)
Lemma double_proof_right gen C G x : C ≡ G -> G ≡ x *' generator gen -> canonical x -> (count_in is_balance_proof (tx_proofs tx) =? 0)%nat = true ->
  exists dss, get_type_in_variant_container as_zc_balance_proof (tx_proofs (with_proof tx (proof_balance
      (generate_double_schnorr_sig r0 r1 gen tx_id G x (ogc_tx_pub_key_p ogc) (ogc_tx_key_sec ogc))))) = Some dss /\
    verify_double_schnorr_sig gen tx_id C (get_tx_pub_key_from_extra tx) dss = true.
Proof.
  intros HC HG Hx Hcount. destruct matches as [_ _ _ _ _ (Hk1 & Hk2 & Hk3) _]. destruct randoms as (Hr0 & Hr1 & _). eexists. split.
  - cbn [with_proof tx_proofs]. apply (first_proof _ is_balance_proof); [by intros []|done|done].
  - rewrite Hk1. transitivity (verify_double_schnorr_sig gen tx_id G (pt_to_public_key (ogc_tx_pub_key_p ogc))
      (generate_double_schnorr_sig r0 r1 gen tx_id G x (ogc_tx_pub_key_p ogc) (ogc_tx_key_sec ogc)));
      [by apply verify_double_proper|by apply double_schnorr_sig_accepted].
Qed.

Lemma composition_proof_right C G x_g x_x : C ≡ G -> G ≡ x_g *' c_point_G + x_x *' c_point_X -> canonical x_g -> canonical x_x ->
  (count_in is_gw_balance_proof (tx_proofs tx) =? 0)%nat = true ->
  exists lcss, get_type_in_variant_container as_zc_gw_balance_proof (tx_proofs (with_proof tx (proof_gw_balance
      (generate_linear_composition_and_schnorr_sig r0 r1 r2 tx_id G x_g x_x (ogc_tx_pub_key_p ogc) (ogc_tx_key_sec ogc))))) = Some lcss /\
    verify_linear_composition_and_schnorr_sig tx_id C (get_tx_pub_key_from_extra tx) lcss = true.
Proof.
  intros HC HG Hg Hx Hcount. destruct matches as [_ _ _ _ _ (Hk1 & Hk2 & Hk3) _]. destruct randoms as (Hr0 & Hr1 & Hr2). eexists. split.
  - cbn [with_proof tx_proofs]. apply (first_proof _ is_gw_balance_proof); [by intros []|done|done].
  - rewrite Hk1. transitivity (verify_linear_composition_and_schnorr_sig tx_id G (pt_to_public_key (ogc_tx_pub_key_p ogc))
      (generate_linear_composition_and_schnorr_sig r0 r1 r2 tx_id G x_g x_x (ogc_tx_pub_key_p ogc) (ogc_tx_key_sec ogc)));
      [by apply verify_linear_proper|by apply linear_composition_sig_accepted].
Qed.

(** C18: the balance of an honest transaction of version 4 is accepted.  When the
    sender's context holds the sums of the transaction, the amounts that are not
    hidden do not overflow and the assertions of the debug build hold, a
    transaction that gets its balance proof (one of three kinds, or none when
    nothing is hidden) passes the verifier's check. *)
Theorem generated_balance_accepted tx' :
  get_tx_fee tx <> None -> (reward = 0 \/ get_tx_fee tx = Some 0) ->
  (forall n ic only m oc c fee, gen_inputs_hf6 (vin tx) (reward, c_point_0, true) = Ret (Some (n, ic, only)) ->
    gen_outs_hf6 (vout tx) (0, c_point_0, 0%nat) = Ret (m, oc, c) -> get_tx_fee tx = Some fee ->
    count_zc_inputs (vin tx) <> 0%nat \/ only = true \/ c <> 0%nat -> sane tx only ogc (gen_commitment_hf6 n fee m ic oc ogc)) ->
  generate_tx_balance_proof_hf6 r0 r1 r2 tx_id ogc reward tx = Ret (Some tx') ->
  check_tx_balance tx' tx_id reward = Ret true.
Proof.
  intros Hfee Hr Hsane. unfold generate_tx_balance_proof_hf6. destruct (version tx <? _) eqn:Ev; [done|].
  destruct (negb _ || negb _) eqn:Ec; [done|]. apply orb_false_iff in Ec as [Ec1%negb_false_iff Ec2%negb_false_iff].
  destruct (gen_inputs_hf6 _ _) as [[[[n ic] only]|]|] eqn:Ei; [|done..]. cbn [mbind outcome_bind].
  destruct (gen_outs_hf6 _ _) as [[[m oc] c]|] eqn:Eo; [|done..]. cbn [mbind outcome_bind].
  destruct (get_tx_fee tx) as [fee|] eqn:Ef; [|done].
  assert (Hrf : (reward =? 0) || (fee =? 0) = true) by (destruct Hr as [->|[= ->]]; [done|apply orb_true_r]).
  destruct (verifier_commitment _ _ _ _ _ _ _ Ei Eo Ef Hrf) as (ins & outs & C & Hsums & <- & <- & HC).
  pose proof (Hsane _ _ _ _ _ _ _ eq_refl eq_refl eq_refl) as HS. unfold sane in HS. clear Hsane.
  destruct (co_scalars _ _ matches) as (Hs1 & Hs2 & Hs3).
  set (G := gen_commitment_hf6 _ _ _ _ _ _) in *. intros E.
  enough (tx_prefix tx' = tx_prefix tx /\ tx_signatures tx' = tx_signatures tx /\ right_proof ins outs C tx') as (Ep & Es & Hp)
    by by eapply verifier_accepts. revert E. unfold right_proof. cbv zeta.
  destruct (count_zc_inputs (vin tx) =? 0)%nat eqn:Ecz.
  - destruct (negb _); [done|]. destruct (negb _); [done|]. destruct (is_has_only_native_coin_bare_inputs ins).
    + destruct (negb _ || negb _); [done|]. intros [= <-]. split; [done|]. split; [done|].
      apply double_proof_right; try done; [by apply HS; right; left|by apply scalar_neg_canonical].
    + destruct (os_confidential_outs_count outs =? 0)%nat eqn:Eco.
      * destruct (negb _ || negb _) eqn:Ez; [done|]. intros [= <-]. apply orb_false_iff in Ez as [Ez1%negb_false_iff Ez2%negb_false_iff].
        split; [done|]. split; [done|]. split; [by rewrite HC|by apply (co_no_ao _ _ matches)].
      * destruct (scalar_is_zero _); [done|]. intros [= <-]. split; [done|]. split; [done|].
        apply composition_proof_right; try done; [|by apply scalar_neg_canonical..]. apply HS. right. right. by apply Nat.eqb_neq.
  - intros [= <-]. split; [done|]. split; [done|]. apply double_proof_right; try done; [|by apply sc_sub_canonical].
    apply HS. left. by apply Nat.eqb_neq.
Qed.
End hf6.

End accepted.

(** The transfer of [Balance], by its sender. *)
Definition demo_context : @tx_generation_context demo.demo_curve := {|
  ogc_asset_id_blinding_mask_x_amount_sum := demo.sc 3560; ogc_amount_blinding_masks_sum := demo.sc 5;
  ogc_amount_commitments_sum := (5, 3560, 890, 0) : @point_t demo.demo_curve;
  ogc_real_in_asset_id_blinding_mask_x_amount_sum := demo.sc 7000;
  ogc_pseudo_out_amount_commitments_sum := (5, 7000, 1000, 0) : @point_t demo.demo_curve;
  ogc_ao_amount_commitment := c_point_0; ogc_ao_amount_blinding_mask := sc_0; ogc_ao_commitment_in_outputs := false;
  ogc_tx_pub_key_p := (77, 0, 0, 0) : @point_t demo.demo_curve; ogc_tx_key_sec := demo.tx_key
|}.
Definition demo_unproved : transaction :=
  {| tx_prefix := tx_prefix demo.tx; tx_attachment := []; tx_signatures := tx_signatures demo.tx; tx_proofs := [] |}.
Definition demo_generate : outcome (option transaction) :=
  @generate_tx_balance_proof_hf6 demo.demo_curve (demo.sc 11) (demo.sc 12) (demo.sc 13) demo.tx_id demo_context 0 demo_unproved.

Lemma demo_context_of : @context_of demo.demo_curve demo_unproved demo_context.
Proof.
  assert (S : forall n, 0 <= n < l25519 -> scalar (demo.sc n)) by (intros n Hn; apply (small_canonical n Hn)).
  constructor.
  - eexists. split; [vm_compute; reflexivity|by vm_compute].
  - eexists. split; [vm_compute; reflexivity|by vm_compute].
  - exists [], []. do 2 eexists. split; [by vm_compute|]. split; [done|]. split; [done|]. by vm_compute.
  - intros _. by vm_compute.
  - by vm_compute.
  - split; [by vm_compute|]. split; [by vm_compute|]. by apply (small_canonical 77).
  - split; [|split]; by apply S.
Qed.

Example generated_balance_accepted_witness :
  demo_generate = Ret (Some demo.tx) /\ @check_tx_balance demo.demo_curve demo.tx demo.tx_id 0 = Ret true.
Proof.
  assert (E : demo_generate = Ret (Some demo.tx)) by (vm_compute; reflexivity). split; [exact E|].
  refine (@generated_balance_accepted demo.demo_curve demo.demo_laws demo_unproved demo.tx_id demo_context 0 _ _ _ _ _ _ _ _ demo_context_of
    demo.tx _ _ _ E); clear E.
  - by split; repeat constructor.
  - by vm_compute.
  - by vm_compute.
  - by vm_compute.
  - split; [|split]; by apply (fun n Hn => canonical_scalar _ (small_canonical n Hn)).
  - by vm_compute.
  - by left.
  - intros n ic only m oc c fee E1 E2 E3 _. vm_compute in E1, E2, E3. injection E1 as <- <- <-. injection E2 as <- <- <-.
    injection E3 as <-. by vm_compute.
Defined.
