(* ===== verification/TxSize.v ===== *)
(** * Sizes of transactions:
    [src/src/currency_core/currency_format_utils_transactions.cpp]

    The size of a transaction is the size of its blob since hard fork 6.  Before, a
    transaction may be stored without its signatures and attachments, and the size
    it would have with them is computed from its prefix. *)

From S2P Require Import Prelude Config Varint Archive Pod CryptoTypes Basic Transactions HfTerms TxSemantic TxHardforks BlockId Assets Chain InputChecks.

Definition blob_length {A} (c : codec A) (a : A) : Z := Z.of_nat (List.length (default [] (t_serializable_object_to_blob c a))).

(** [last] is 1 for the last input of a separately signed transaction. *)
Definition get_input_expected_signature_size_local (tx_in : txin_v) (last : bool) : Z :=
  let a := if last then 1 else 0 in
  match tx_in with
  | in_gen _ => 0
  | in_to_key txin =>
      let n := Z.of_nat (List.length (ttk_key_offsets txin)) + a in get_varint_packed_size n + 64 * n
  | in_multisig txin => let n := tms_sigs_count txin + a in get_varint_packed_size n + 64 * n
  | in_gateway _ => 68
  | in_zc txin =>
      let n := Z.of_nat (List.length (tzc_key_offsets txin)) in 96 + get_varint_packed_size n + n * 32
  end.

Definition signature_sizes (vin : list txin_v) (separately_signed_tx : bool) : Z :=
  fold_left Z.add (imap (fun i v => get_input_expected_signature_size_local v (separately_signed_tx && (i =? List.length vin - 1)%nat)) vin) 0.

(** The attachment information, of the last input first. *)
Definition attachment_info (t : transaction) : option extra_attachment_info :=
  let from_last := if mode_separate t then i ← last (vin t); get_type_in_variant_container etc_as_attachment_info (get_txin_etc_options i) else None in
  match from_last with
  | Some eai => Some eai
  | None => get_type_in_variant_container extra_as_attachment_info (tp_extra (tx_prefix t))
  end.

Definition get_object_blobsize_legacy (t : transaction) (prefix_blob_size : Z) : outcome Z :=
  if ZANO_HARDFORK_06 <=? hardfork_id t then Throw
  else if is_coinbase t then Ret prefix_blob_size
  else
    let tx_blob_size := prefix_blob_size + get_varint_packed_size (Z.of_nat (List.length (vin t))) in
    let tx_blob_size := if TRANSACTION_VERSION_PRE_HF4 <? version t then tx_blob_size + Z.of_nat (List.length (vin t)) else tx_blob_size in
    let tx_blob_size := tx_blob_size + signature_sizes (vin t) (mode_separate t) in
    Ret (tx_blob_size + match attachment_info t with Some eai => eai_sz eai | None => get_varint_packed_size 0 end).

Definition get_object_blobsize (t : transaction) : outcome Z :=
  if hardfork_id t <? ZANO_HARDFORK_06 then get_object_blobsize_legacy t (blob_length c_transaction_prefix (tx_prefix t))
  else Ret (blob_length c_transaction t).
Definition get_tx_real_blobsize (t : transaction) : Z := blob_length c_transaction t.

Fixpoint get_objects_blobsize (ls : list transaction) : outcome Z :=
  match ls with
  | [] => Ret 0
  | tx :: ls => s ← get_object_blobsize tx; total ← get_objects_blobsize ls; Ret (s + total)
  end.

(** [get_transaction_hash] with the size. *)
Definition get_transaction_hash_and_size (t : transaction) : outcome (hash * Z) :=
  size ← (if hardfork_id t <? ZANO_HARDFORK_06 then get_object_blobsize_legacy t (blob_length c_transaction_prefix (tx_prefix t))
          else Ret (blob_length c_transaction t));
  Ret (get_transaction_hash t, size).

(** ** The computed size and the real one *)

(** A transfer of version 2 with one hidden input: the signature alone takes 226
    bytes with a ring of one, of which the computed size has 129. *)
Definition demo_hidden : transaction := {|
  tx_prefix := {|
    tp_version := 2; tp_hardfork_id := 0; tp_vin := [in_zc (Build_txin_zc_input [ref_global_index 300] (key_of 7) [])];
    tp_extra := [P_public_key (key_of 9)]; tp_vout := [] |};
  tx_attachment := [];
  tx_signatures := [sig_ZC (Build_ZC_sig (key_of 1) (key_of 2)
    (Build_CLSAG_GGX_signature_serialized (key_of 3) [key_of 4] [key_of 5] (key_of 6) (key_of 7)))];
  tx_proofs := [] |}.

Lemma legacy_size_too_small : exists size, get_object_blobsize demo_hidden = Ret size /\ size < get_tx_real_blobsize demo_hidden.
Proof. eexists. split; [vm_compute; reflexivity|by vm_compute]. Qed.
