(* ===== verification/TxPool.v ===== *)
(** * The pool of transactions: [src/src/currency_core/tx_pool.cpp]

    Transactions that wait for a block, with the cache of their key images and the
    aliases they ask for.  What the pool asks the blockchain is the interface
    [blockchain_queries]; the order in which the database enumerates transactions
    is that of [PoolDb].  [PoolSpec] has the theorems, [PoolChain] the answers of the
    chain. *)

From stdpp Require Import sorting.
From S2P Require Import Prelude Config StdSort Archive Pod CryptoTypes Basic Transactions HfTerms TxSemantic TxHardforks BlockReward BlockId Assets Aliases StateM Gateway Chain InputChecks Limbs Curve Balance TxSize.

Definition CURRENCY_MEMPOOL_TX_LIVETIME : Z := 345600.
Definition CURRENCY_MEMPOOL_MAX_TX_COUT : Z := 10000.
Definition CURRENCY_COINBASE_BLOB_RESERVED_SIZE_HF6 : Z := 8000.
Definition MAX_ALIAS_PER_BLOCK : Z := 1000.
Definition CONFLICT_KEY_IMAGE_SPENT_DEPTH_TO_REMOVE_TX_FROM_POOL : Z := 50.
Definition API_RETURN_CODE_TX_POOL_FULL : list Z := chars "TX_POOL_FULL".

(** ** State *)

Record tx_details : Type := {
  td_tx : transaction; td_blob_size : Z; td_fee : Z; td_max_used_block_id : hash; td_max_used_block_height : Z; td_kept_by_block : bool;
  td_last_failed_height : Z; td_last_failed_id : hash; td_receive_time : Z
}.

Record tx_memory_pool : Type := {
  mp_transactions : gmap hash tx_details;
  mp_black_tx_list : gset hash;
  mp_alias_names : gset alias_name;
  mp_alias_addresses : gset account_public_address;
  mp_taken_txs : gset hash;
  mp_key_images : gmap key_image (gset hash);
  mp_unsecure_disable_tx_validation_on_addition : bool
}.

Record tx_verification_context : Type := {
  m_should_be_relayed : bool; m_verification_failed : bool; m_verification_impossible : bool; m_added_to_pool : bool;
  m_already_existed : bool; m_error_code : list Z
}.

Definition set_pool_transactions (f : gmap hash tx_details -> gmap hash tx_details) (p : tx_memory_pool) : tx_memory_pool :=
  {| mp_transactions := f (mp_transactions p); mp_black_tx_list := mp_black_tx_list p; mp_alias_names := mp_alias_names p;
     mp_alias_addresses := mp_alias_addresses p; mp_taken_txs := mp_taken_txs p; mp_key_images := mp_key_images p;
     mp_unsecure_disable_tx_validation_on_addition := mp_unsecure_disable_tx_validation_on_addition p |}.
Definition set_black_list (f : gset hash -> gset hash) (p : tx_memory_pool) : tx_memory_pool :=
  {| mp_transactions := mp_transactions p; mp_black_tx_list := f (mp_black_tx_list p); mp_alias_names := mp_alias_names p;
     mp_alias_addresses := mp_alias_addresses p; mp_taken_txs := mp_taken_txs p; mp_key_images := mp_key_images p;
     mp_unsecure_disable_tx_validation_on_addition := mp_unsecure_disable_tx_validation_on_addition p |}.
Definition set_pool_aliases (f : gset alias_name -> gset alias_name) (g : gset account_public_address -> gset account_public_address)
    (p : tx_memory_pool) : tx_memory_pool :=
  {| mp_transactions := mp_transactions p; mp_black_tx_list := mp_black_tx_list p; mp_alias_names := f (mp_alias_names p);
     mp_alias_addresses := g (mp_alias_addresses p); mp_taken_txs := mp_taken_txs p; mp_key_images := mp_key_images p;
     mp_unsecure_disable_tx_validation_on_addition := mp_unsecure_disable_tx_validation_on_addition p |}.
Definition set_taken_txs (f : gset hash -> gset hash) (p : tx_memory_pool) : tx_memory_pool :=
  {| mp_transactions := mp_transactions p; mp_black_tx_list := mp_black_tx_list p; mp_alias_names := mp_alias_names p;
     mp_alias_addresses := mp_alias_addresses p; mp_taken_txs := f (mp_taken_txs p); mp_key_images := mp_key_images p;
     mp_unsecure_disable_tx_validation_on_addition := mp_unsecure_disable_tx_validation_on_addition p |}.
Definition set_key_images (f : gmap key_image (gset hash) -> gmap key_image (gset hash)) (p : tx_memory_pool) : tx_memory_pool :=
  {| mp_transactions := mp_transactions p; mp_black_tx_list := mp_black_tx_list p; mp_alias_names := mp_alias_names p;
     mp_alias_addresses := mp_alias_addresses p; mp_taken_txs := mp_taken_txs p; mp_key_images := f (mp_key_images p);
     mp_unsecure_disable_tx_validation_on_addition := mp_unsecure_disable_tx_validation_on_addition p |}.

Definition unsecure_disable_tx_validation_on_addition (validation_disabled : bool) (p : tx_memory_pool) : tx_memory_pool :=
  {| mp_transactions := mp_transactions p; mp_black_tx_list := mp_black_tx_list p; mp_alias_names := mp_alias_names p;
     mp_alias_addresses := mp_alias_addresses p; mp_taken_txs := mp_taken_txs p; mp_key_images := mp_key_images p;
     mp_unsecure_disable_tx_validation_on_addition := validation_disabled |}.

(** ** The cache of key images *)

Definition insert_key_image (tx_id : hash) (k_image : key_image) (m : gmap key_image (gset hash)) : gmap key_image (gset hash) :=
  <[k_image := {[tx_id]} ∪ default ∅ (m !! k_image)]> m.
Definition insert_key_images (tx_id : hash) (tx : transaction) (m : gmap key_image (gset hash)) : gmap key_image (gset hash) :=
  fold_left (fun m k_image => insert_key_image tx_id k_image m) (key_images_of (vin tx)) m.

Definition remove_key_image (tx_id : hash) (k_image : key_image) (m : gmap key_image (gset hash)) : gmap key_image (gset hash) :=
  let id_set := default ∅ (m !! k_image) ∖ {[tx_id]} in
  if decide (id_set = ∅) then delete k_image m else <[k_image := id_set]> m.
Definition remove_key_images (tx_id : hash) (tx : transaction) (m : gmap key_image (gset hash)) : gmap key_image (gset hash) :=
  fold_left (fun m k_image => remove_key_image tx_id k_image m) (key_images_of (vin tx)) m.

Definition pool_have_tx_keyimg_as_spent (key_im : key_image) (p : tx_memory_pool) : bool := bool_decide (is_Some (mp_key_images p !! key_im)).
Definition pool_have_tx_keyimges_as_spent (tx : transaction) (p : tx_memory_pool) : bool :=
  existsb (fun k_image => pool_have_tx_keyimg_as_spent k_image p) (key_images_of (vin tx)).

(** ** Aliases asked for *)

(** Nothing when the extra does not parse or has no alias. *)
Definition alias_asked (tx : transaction) : option extra_alias_entry :=
  let '(r, ei) := parse_and_validate_tx_extra tx tx_extra_info_init in
  if negb r then None else match ae_m_alias (m_alias ei) with [] => None | _ => Some (m_alias ei) end.

Definition insert_alias_info (tx : transaction) (p : tx_memory_pool) : tx_memory_pool :=
  match alias_asked tx with
  | None => p
  | Some a => set_pool_aliases (union {[ae_m_alias a]}) (union {[ae_m_address a]}) p
  end.
Definition remove_alias_info (tx : transaction) (p : tx_memory_pool) : tx_memory_pool :=
  match alias_asked tx with
  | None => p
  | Some a => set_pool_aliases (fun s => s ∖ {[ae_m_alias a]}) (fun s => s ∖ {[ae_m_address a]}) p
  end.

(** ** Adding and taking *)

Definition on_tx_add (tx_id : hash) (tx : transaction) (p : tx_memory_pool) : tx_memory_pool :=
  insert_alias_info tx (set_key_images (insert_key_images tx_id tx) p).
Definition on_tx_remove (id : hash) (tx : transaction) (p : tx_memory_pool) : tx_memory_pool :=
  remove_alias_info tx (set_key_images (remove_key_images id tx) p).

Definition check_is_taken (id : hash) (p : tx_memory_pool) : bool := bool_decide (id ∈ mp_taken_txs p).
Definition set_taken (id : hash) (p : tx_memory_pool) : tx_memory_pool := set_taken_txs (union {[id]}) p.
Definition reset_all_taken (p : tx_memory_pool) : tx_memory_pool := set_taken_txs (fun _ => ∅) p.
Definition on_finalize_db_transaction (p : tx_memory_pool) : tx_memory_pool := reset_all_taken p.

Definition have_tx (id : hash) (p : tx_memory_pool) : bool :=
  match mp_transactions p !! id with Some _ => true | None => check_is_taken id p end.

(** The transaction, its size and its fee; [None] is [false]. *)
Definition take_tx (id : hash) (p : tx_memory_pool) : option (transaction * Z * Z) * tx_memory_pool :=
  match mp_transactions p !! id with
  | None => (None, p)
  | Some txe =>
      (Some (td_tx txe, td_blob_size txe, td_fee txe), set_taken id (on_tx_remove id (td_tx txe) (set_pool_transactions (delete id) p)))
  end.

Definition add_transaction_to_black_list (tx : transaction) (p : tx_memory_pool) : tx_memory_pool :=
  set_black_list (union {[get_transaction_hash tx]}) p.
Definition is_tx_blacklisted (id : hash) (p : tx_memory_pool) : bool := bool_decide (id ∈ mp_black_tx_list p).

Definition purge_transactions (p : tx_memory_pool) : tx_memory_pool := set_key_images (fun _ => ∅) (set_pool_transactions (fun _ => ∅) p).
Definition clear (p : tx_memory_pool) : tx_memory_pool := set_black_list (fun _ => ∅) (purge_transactions p).

Definition get_transactions_count (p : tx_memory_pool) : Z := Z.of_nat (size (mp_transactions p)).

(** ** Multisignature ids *)

Definition out_is_multisig (o : tx_out_v) : bool :=
  match o with out_bare b => match ob_target b with target_multisig _ => true | _ => false end | _ => false end.

(** The ids with whether they are those of an input. *)
Definition collect_multisig_ids_from_tx (tx : transaction) : list (hash * bool) :=
  map (fun i => (i, true)) (multisig_ids_of (vin tx)) ++
  omap (fun '(idx, o) => if out_is_multisig o then Some (get_multisig_out_id tx idx, false) else None) (imap pair (vout tx)).

Definition does_tx_have_given_multisig_id (tx : transaction) (multisig_id : hash) : bool :=
  bool_decide (multisig_id ∈ multisig_ids_of (vin tx)) ||
  existsb (fun '(idx, o) => out_is_multisig o && bool_decide (get_multisig_out_id tx idx = multisig_id)) (imap pair (vout tx)).

(** ** What the pool asks *)

(** The member functions of the blockchain the pool calls; [None] of
    [bq_check_tx_inputs] is a failed check, and the pair the latest block the
    transaction draws on, whose id is looked up on request only. *)
Record blockchain_queries : Type := {
  bq_is_in_checkpoint_zone : bool;
  bq_tx_pool_min_fee : Z;
  bq_core_time : Z;
  bq_validate_tx_for_hardfork_specific_terms : transaction -> outcome bool;
  bq_tx_expiration_median : Z;
  bq_check_tx_inputs : transaction -> hash -> bool -> outcome (option (hash * Z));
  bq_validate_asset_operation : transaction -> hash -> asset_descriptor_operation -> outcome bool;
  bq_has_alias : alias_name -> bool;
  bq_alias_by_address : account_public_address -> alias_name;
  bq_prevalidate_alias_info : transaction -> extra_alias_entry -> outcome bool;
  bq_is_tx_related_to_altblock : hash -> bool;
  bq_current_blockchain_size : Z;
  bq_block_id_by_height : Z -> hash;
  bq_have_tx_keyimg_as_spent_before : key_image -> Z -> bool;
  bq_have_tx_keyimges_as_spent : transaction -> bool;
  bq_has_multisig_output : hash -> bool;
  bq_is_hardfork_06_active : outcome bool
}.

(** [enumerate_items] of the database. *)
Class PoolDb := {
  enumerate_items : gmap hash tx_details -> list (hash * tx_details);
  enumerate_perm m : enumerate_items m ≡ₚ map_to_list m
}.

(** The state of [add_tx]: the pool and the context the caller reads. *)
Abbreviation adding := (tx_memory_pool * tx_verification_context)%type.

Section pool.
Context `{Curve, PoolDb, StdSort} (check_key : public_key -> bool) (q : blockchain_queries).

Definition bq_top_block_height : Z := u64 (bq_current_blockchain_size q - 1).
Definition tx_expired (tx : transaction) : bool := is_tx_expired tx (bq_tx_expiration_median q).

Definition check_tx_fee (amount_fee : Z) : bool := negb (amount_fee <? bq_tx_pool_min_fee q).

Definition check_tx_multisig_ins_and_outs (tx : transaction) (check_against_pool_txs : bool) (p : tx_memory_pool) : bool :=
  forallb (fun '(multisig_id, is_input) =>
    negb (negb is_input && bq_has_multisig_output q multisig_id) &&
    negb (check_against_pool_txs &&
          existsb (fun '(_, tx_entry) => does_tx_have_given_multisig_id (td_tx tx_entry) multisig_id) (enumerate_items (mp_transactions p))))
    (collect_multisig_ids_from_tx tx).

(** ** Aliases *)

(** [false] stops the handling. *)
Definition validate_alias_entry (tx : transaction) (is_in_block : bool) (eai : extra_alias_entry) (p : tx_memory_pool) : outcome bool :=
  let signed := negb (List.length (ae_m_sign eai) =? 0)%nat in
  if negb is_in_block && negb signed && bq_has_alias q (ae_m_alias eai) then Ret false
  else if negb is_in_block && negb signed && negb (List.length (bq_alias_by_address q (ae_m_address eai)) =? 0)%nat then Ret false
  else if is_in_block then Ret true
  else if bool_decide (ae_m_alias eai ∈ mp_alias_names p) then Ret false
  else if bool_decide (ae_m_address eai ∈ mp_alias_addresses p) then Ret false
  else bq_prevalidate_alias_info q tx eai.

Definition as_alias_entry (v : payload_items_v) : option extra_alias_entry :=
  match v with P_extra_alias_entry e => Some e | P_extra_alias_entry_old e => Some (alias_from_old e) | _ => None end.

Fixpoint validate_alias_entries (tx : transaction) (is_in_block : bool) (l : list extra_alias_entry) (p : tx_memory_pool) : outcome bool :=
  match l with
  | [] => Ret true
  | eai :: l => r ← validate_alias_entry tx is_in_block eai p; if r : bool then validate_alias_entries tx is_in_block l p else Ret false
  end.
Definition validate_alias_info (tx : transaction) (is_in_block : bool) (p : tx_memory_pool) : outcome bool :=
  validate_alias_entries tx is_in_block (omap as_alias_entry (tp_extra (tx_prefix tx))) p.

(** ** Adding a transaction *)

Definition do_insert_transaction (tx : transaction) (id : hash) (blob_size : Z) (kept_by_block : bool) (fee : Z) (max_used_block_id : hash)
    (max_used_block_height : Z) (p : tx_memory_pool) : tx_memory_pool :=
  let td := {| td_tx := tx; td_blob_size := blob_size; td_fee := fee; td_max_used_block_id := max_used_block_id;
               td_max_used_block_height := max_used_block_height; td_kept_by_block := kept_by_block; td_last_failed_height := 0;
               td_last_failed_id := null_hash; td_receive_time := bq_core_time q |} in
  on_tx_add id tx (set_pool_transactions <[id := td]> p).

(** [process_type_in_variant_container_and_make_sure_its_unique]. *)
Fixpoint process_unique_ado (cb : asset_descriptor_operation -> outcome bool) (av : list payload_items_v) (found : bool) : outcome bool :=
  match av with
  | [] => Ret true
  | ai :: av =>
      match extra_as_ado ai with
      | None => process_unique_ado cb av found
      | Some ado => if found then Ret false else r ← cb ado; if r : bool then process_unique_ado cb av true else Ret false
      end
  end.

Definition tvc_set (relayed failed impossible added : option bool) (error : option (list Z)) (c : tx_verification_context) : tx_verification_context :=
  {| m_should_be_relayed := default (m_should_be_relayed c) relayed; m_verification_failed := default (m_verification_failed c) failed;
     m_verification_impossible := default (m_verification_impossible c) impossible; m_added_to_pool := default (m_added_to_pool c) added;
     m_already_existed := m_already_existed c; m_error_code := default (m_error_code c) error |}.
Definition note (f : tx_verification_context -> tx_verification_context) : st adding unit := update (fun s => (s.1, f s.2)).

(** The checks of a transaction that neither comes from a block nor from the
    core: [true] goes on, [false] is the soft rule on the fee, which returns
    success without adding. *)
Definition check_untrusted (tx : transaction) (blob_size tx_fee : Z) : st adding bool :=
  semantic ← lift_outcome (validate_tx_semantic check_key tx blob_size);
  if negb semantic then _ ← note (tvc_set (Some false) (Some true) None (Some false) None); fail
  else
    spent ← read (fun s => pool_have_tx_keyimges_as_spent tx s.1);
    _ ← check (negb spent);
    if negb (check_tx_fee tx_fee) then _ ← note (tvc_set (Some false) (Some false) None (Some false) None); mret false
    else
      ms ← read (fun s => check_tx_multisig_ins_and_outs tx true s.1);
      if negb ms then _ ← note (tvc_set None (Some true) None None None); fail else mret true.

(** The balance and the asset operation of a transaction that is not the core's. *)
Definition check_balance_and_asset (tx : transaction) (id : hash) : st adding unit :=
  balance ← lift_outcome (check_tx_balance tx id 0);
  if negb balance then _ ← note (tvc_set None (Some true) None None None); fail
  else
    asset ← lift_outcome (process_unique_ado (bq_validate_asset_operation q tx id) (tp_extra (tx_prefix tx)) false);
    if negb asset then _ ← note (tvc_set None (Some true) None None None); fail else mret tt.

Definition insert_checked (tx : transaction) (id : hash) (blob_size : Z) (kept_by_block : bool) (tx_fee : Z) (inputs : option (hash * Z)) : st adding unit :=
  let '(max_used_block_id, max_used_block_height) := default (null_hash, 0) inputs in
  let ch_inp_res := match inputs with Some _ => true | None => false end in
  _ ← update (fun s => (do_insert_transaction tx id blob_size kept_by_block tx_fee max_used_block_id max_used_block_height s.1, s.2));
  note (tvc_set (Some ch_inp_res) (Some false) (Some (negb ch_inp_res)) (Some true) None).

Definition add_tx (tx : transaction) (id : hash) (blob_size : Z) (kept_by_block from_core : bool) : st adding unit :=
  unsecure ← read (fun s => mp_unsecure_disable_tx_validation_on_addition s.1);
  if unsecure : bool then
    tx_fee ← some (get_tx_fee tx);
    _ ← update (fun s => (do_insert_transaction tx id blob_size kept_by_block tx_fee null_hash 0 s.1, s.2));
    note (tvc_set (Some true) (Some false) (Some false) (Some true) None)
  else
    let untrusted := negb kept_by_block && negb from_core in
    _ ← note (tvc_set None (Some true) None (Some false) None);
    count ← read (fun s => get_transactions_count s.1);
    if untrusted && bq_is_in_checkpoint_zone q then _ ← note (tvc_set (Some false) (Some false) (Some true) (Some false) None); fail
    else if untrusted && (CURRENCY_MEMPOOL_MAX_TX_COUT <? count) then
      _ ← note (tvc_set (Some false) (Some false) None (Some false) (Some API_RETURN_CODE_TX_POOL_FULL)); fail
    else
      terms ← lift_outcome (bq_validate_tx_for_hardfork_specific_terms q tx);
      _ ← check terms;
      _ ← check (check_inputs_types_supported tx);
      _ ← (if untrusted && tx_expired tx then _ ← note (tvc_set None (Some true) None None None); fail else mret tt);
      _ ← check (check_inputs_and_outputs_size tx);
      tx_fee ← some (get_tx_fee tx);
      _ ← (if from_core then mret tt
           else pool ← read fst; alias ← lift_outcome (validate_alias_info tx kept_by_block pool); check alias);
      go_on ← (if untrusted then check_untrusted tx blob_size tx_fee else mret true);
      if negb go_on then mret tt
      else
        inputs ← lift_outcome (bq_check_tx_inputs q tx id true);
        if match inputs with None => untrusted | Some _ => false end then _ ← note (tvc_set None (Some true) None None None); fail
        else
          _ ← (if negb from_core && (TRANSACTION_VERSION_PRE_HF4 <? version tx) then check_balance_and_asset tx id else mret tt);
          insert_checked tx id blob_size kept_by_block tx_fee inputs.

(** The overload that computes the id and the size. *)
Definition add_transaction (tx : transaction) (kept_by_block from_core : bool) : st adding unit :=
  hs ← lift_outcome (get_transaction_hash_and_size tx);
  add_tx tx hs.1 hs.2 kept_by_block from_core.

(** ** Removing transactions *)

(** A transaction is listed once for its age, once for its expiration, and once
    for a key image spent deep enough. *)
Definition stuck_reasons (tx_entry : tx_details) : list bool :=
  let tx_age := swrap 64 (bq_core_time q - td_receive_time tx_entry) in
  let should_be_spent_before_height := bq_top_block_height in
  [CURRENCY_MEMPOOL_TX_LIVETIME <? tx_age; tx_expired (td_tx tx_entry);
   (CONFLICT_KEY_IMAGE_SPENT_DEPTH_TO_REMOVE_TX_FROM_POOL <? should_be_spent_before_height) &&
   existsb (fun ki => bq_have_tx_keyimg_as_spent_before q ki
              (u64 (should_be_spent_before_height - CONFLICT_KEY_IMAGE_SPENT_DEPTH_TO_REMOVE_TX_FROM_POOL)))
     (key_images_of (vin (td_tx tx_entry)))].

Definition stuck_entries (e : hash * tx_details) : list (hash * transaction) :=
  let '(h, tx_entry) := e in
  if bq_is_tx_related_to_altblock q h then []
  else map (fun _ => (h, td_tx tx_entry)) (List.filter id (stuck_reasons tx_entry)).

Definition erase_tx (e : hash * transaction) (p : tx_memory_pool) : tx_memory_pool :=
  on_tx_remove e.1 e.2 (set_pool_transactions (delete e.1) p).

Definition remove_stuck_transactions (p : tx_memory_pool) : tx_memory_pool :=
  let to_delete := mjoin (map stuck_entries (enumerate_items (mp_transactions p))) in
  fold_left (fun p e => erase_tx e p) to_delete p.

Fixpoint invalid_tx_ids (l : list (hash * tx_details)) : outcome (list hash) :=
  match l with
  | [] => Ret []
  | (h, tx_entry) :: l =>
      fits ← bq_validate_tx_for_hardfork_specific_terms q (td_tx tx_entry);
      ids ← invalid_tx_ids l;
      Ret (if fits : bool then ids else h :: ids)
  end.
Definition remove_incompatible_txs (p : tx_memory_pool) : outcome tx_memory_pool :=
  ids ← invalid_tx_ids (enumerate_items (mp_transactions p));
  Ret (fold_left (fun p h => (take_tx h p).2) ids p).

(** ** What the pool holds *)

Definition add_pool_key_images (m : gmap key_image (gset hash)) (e : hash * tx_details) : gmap key_image (gset hash) :=
  insert_key_images e.1 (td_tx e.2) m.
Definition get_key_images_from_tx_pool (key_images : gmap key_image (gset hash)) (p : tx_memory_pool) : gmap key_image (gset hash) :=
  fold_left add_pool_key_images (enumerate_items (mp_transactions p)) key_images.
Definition load_keyimages_cache (p : tx_memory_pool) : tx_memory_pool := set_key_images (fun m => get_key_images_from_tx_pool m p) p.

Definition get_transactions (p : tx_memory_pool) : list transaction := map (fun e => td_tx e.2) (enumerate_items (mp_transactions p)).
Definition get_all_transactions_list (p : tx_memory_pool) : list (hash * transaction) :=
  map (fun e => (e.1, td_tx e.2)) (enumerate_items (mp_transactions p)).
Definition get_transaction (id : hash) (p : tx_memory_pool) : option transaction := td_tx <$> mp_transactions p !! id.
Definition get_transaction_details (id : hash) (p : tx_memory_pool) : option tx_details := mp_transactions p !! id.

(** An extra that does not parse ends the enumeration. *)
Fixpoint aliases_of_entries (l : list (hash * tx_details)) : list extra_alias_entry :=
  match l with
  | [] => []
  | (_, tx_entry) :: l =>
      let '(r, ei) := parse_and_validate_tx_extra (td_tx tx_entry) tx_extra_info_init in
      if negb r then []
      else match ae_m_alias (m_alias ei) with [] => aliases_of_entries l | _ => m_alias ei :: aliases_of_entries l end
  end.
Definition get_aliases_from_tx_pool (p : tx_memory_pool) : list extra_alias_entry := aliases_of_entries (enumerate_items (mp_transactions p)).
Definition count_aliases_from_tx_pool (aliases : gmap alias_name Z) (p : tx_memory_pool) : gmap alias_name Z :=
  fold_left (fun m a => <[ae_m_alias a := default 0 (m !! ae_m_alias a) + 1]> m) (get_aliases_from_tx_pool p) aliases.

(** ** Choosing transactions for a block *)

Definition set_txd_failed (height : Z) (id : hash) (t : tx_details) : tx_details :=
  {| td_tx := td_tx t; td_blob_size := td_blob_size t; td_fee := td_fee t; td_max_used_block_id := td_max_used_block_id t;
     td_max_used_block_height := td_max_used_block_height t; td_kept_by_block := td_kept_by_block t;
     td_last_failed_height := height; td_last_failed_id := id; td_receive_time := td_receive_time t |}.
Definition set_txd_max_used (height : Z) (id : hash) (t : tx_details) : tx_details :=
  {| td_tx := td_tx t; td_blob_size := td_blob_size t; td_fee := td_fee t; td_max_used_block_id := id;
     td_max_used_block_height := height; td_kept_by_block := td_kept_by_block t;
     td_last_failed_height := td_last_failed_height t; td_last_failed_id := td_last_failed_id t; td_receive_time := td_receive_time t |}.

(** The inputs are checked again, and the outcome noted in the details. *)
Definition recheck_inputs (txd : tx_details) (id : hash) : outcome (bool * tx_details) :=
  r ← bq_check_tx_inputs q (td_tx txd) id false;
  Ret (match r with
       | None => (false, set_txd_failed bq_top_block_height (bq_block_id_by_height q bq_top_block_height) txd)
       | Some (max_used_block_id, max_used_block_height) => (true, set_txd_max_used max_used_block_height max_used_block_id txd)
       end).

(** The first half of [is_transaction_ready_to_go]: are the inputs good? *)
Definition inputs_ready (txd : tx_details) (id : hash) : outcome (bool * tx_details) :=
  if decide (td_max_used_block_id txd = null_hash) then
    if bool_decide (td_last_failed_id txd <> null_hash) && (td_last_failed_height txd <? bq_current_blockchain_size q) &&
       bool_decide (td_last_failed_id txd = bq_block_id_by_height q (td_last_failed_height txd))
    then Ret (false, txd)
    else recheck_inputs txd id
  else if bq_current_blockchain_size q <=? td_max_used_block_height txd then Ret (false, txd)
  else if decide (bq_block_id_by_height q (td_max_used_block_height txd) = td_max_used_block_id txd) then Ret (true, txd)
  else if decide (td_last_failed_id txd = bq_block_id_by_height q (td_last_failed_height txd)) then Ret (false, txd)
  else recheck_inputs txd id.

Definition too_young (txd : tx_details) : bool :=
  (TRANSACTION_VERSION_PRE_HF4 <? version (td_tx txd)) &&
  (bq_current_blockchain_size q <? u64 (td_max_used_block_height txd + CURRENCY_HF4_MANDATORY_MIN_COINAGE)).

Definition is_transaction_ready_to_go (txd : tx_details) (id : hash) (p : tx_memory_pool) : outcome (bool * tx_details) :=
  if is_tx_blacklisted id p then Ret (false, txd)
  else
    r ← inputs_ready txd id;
    let '(good, txd) := r : bool * tx_details in
    Ret (good && negb (too_young txd) && negb (bq_have_tx_keyimges_as_spent q (td_tx txd)) && check_tx_multisig_ins_and_outs (td_tx txd) false p, txd).

Definition have_key_images (k_images : gset key_image) (tx : transaction) : bool :=
  existsb (fun k_image => bool_decide (k_image ∈ k_images)) (key_images_of (vin tx)).

(** A key image already in the set ends the insertion. *)
Fixpoint append_images (k_images : gset key_image) (l : list key_image) : gset key_image :=
  match l with
  | [] => k_images
  | k_image :: l => if decide (k_image ∈ k_images) then k_images else append_images ({[k_image]} ∪ k_images) l
  end.
Definition append_key_images (k_images : gset key_image) (tx : transaction) : gset key_image := append_images k_images (key_images_of (vin tx)).

(** Higher fee per byte first. *)
Definition fee_rate_above (a b : hash * tx_details) : bool :=
  td_fee b.2 * td_blob_size a.2 <? td_fee a.2 * td_blob_size b.2.

Record filling : Type := {
  fl_txs : list (option (hash * tx_details)); fl_current_size : Z; fl_current_fee : Z; fl_best_money : Z; fl_best_position : nat;
  fl_total_size : Z; fl_fee : Z; fl_alias_count : Z; fl_k_images : gset key_image
}.
Definition fl_skip (i : nat) (s : filling) : filling :=
  {| fl_txs := <[i := None]> (fl_txs s); fl_current_size := fl_current_size s; fl_current_fee := fl_current_fee s; fl_best_money := fl_best_money s;
     fl_best_position := fl_best_position s; fl_total_size := fl_total_size s; fl_fee := fl_fee s; fl_alias_count := fl_alias_count s;
     fl_k_images := fl_k_images s |}.
Definition fl_take (txd : tx_details) (s : filling) : filling :=
  {| fl_txs := fl_txs s; fl_current_size := u64 (fl_current_size s + td_blob_size txd); fl_current_fee := u64 (fl_current_fee s + td_fee txd);
     fl_best_money := fl_best_money s; fl_best_position := fl_best_position s; fl_total_size := fl_total_size s; fl_fee := fl_fee s;
     fl_alias_count := fl_alias_count s; fl_k_images := append_key_images (fl_k_images s) (td_tx txd) |}.
Definition fl_best (i : nat) (money : Z) (s : filling) : filling :=
  {| fl_txs := fl_txs s; fl_current_size := fl_current_size s; fl_current_fee := fl_current_fee s; fl_best_money := money;
     fl_best_position := S i; fl_total_size := fl_current_size s; fl_fee := fl_current_fee s; fl_alias_count := fl_alias_count s;
     fl_k_images := fl_k_images s |}.
Definition fl_count_alias (s : filling) : filling :=
  {| fl_txs := fl_txs s; fl_current_size := fl_current_size s; fl_current_fee := fl_current_fee s; fl_best_money := fl_best_money s;
     fl_best_position := fl_best_position s; fl_total_size := fl_total_size s; fl_fee := fl_fee s; fl_alias_count := fl_alias_count s + 1;
     fl_k_images := fl_k_images s |}.

(** Is there a request for a new alias?  [None]: an extra does not parse. *)
Fixpoint alias_regs_exist (l : list (hash * tx_details)) : option bool :=
  match l with
  | [] => Some false
  | (_, txd) :: l =>
      let '(r, ei) := parse_and_validate_tx_extra (td_tx txd) tx_extra_info_init in
      if negb r then None
      else if negb (bool_decide (ae_m_alias (m_alias ei) = [])) && bool_decide (ae_m_sign (m_alias ei) = []) then Some true
      else alias_regs_exist l
  end.

Section template.
Context (median_size height blob_reserved_size : Z) (regs_exist : bool).

Definition reward_of_size (size : Z) : option Z := get_block_reward_checked median_size size height.

(** The details of a transaction found not ready are written back. *)
Definition note_failure (before after : tx_details) : st tx_memory_pool unit :=
  if bool_decide (td_last_failed_height after = td_last_failed_height before) && bool_decide (td_last_failed_id after = td_last_failed_id before)
  then mret tt
  else update (set_pool_transactions <[get_transaction_hash (td_tx after) := after]>).

(** One turn of the loop; [false] is [break]. *)
Definition fill_turn (i : nat) (e : hash * tx_details) (s : filling) : st tx_memory_pool (bool * filling) :=
  let '(id, txd) := e in
  if tx_expired (td_tx txd) then mret (true, fl_skip i s)
  else
    let '(r, ei) := parse_and_validate_tx_extra (td_tx txd) tx_extra_info_init in
    _ ← check r;
    let has_alias := negb (bool_decide (ae_m_alias (m_alias ei) = [])) in
    let update_an_alias := negb (bool_decide (ae_m_sign (m_alias ei) = [])) in
    if has_alias && ((MAX_ALIAS_PER_BLOCK <=? fl_alias_count s) || (update_an_alias && regs_exist)) then mret (true, fl_skip i s)
    else
      p ← read (fun p => p);
      ready ← lift_outcome (is_transaction_ready_to_go txd id p);
      _ ← (if ready.1 : bool then mret tt else note_failure txd ready.2);
      if negb ready.1 || have_key_images (fl_k_images s) (td_tx txd) then mret (true, fl_skip i s)
      else
        let s := fl_take txd s in
        match reward_of_size (u64 (fl_current_size s + blob_reserved_size)) with
        | None => mret (false, s)
        | Some current_reward =>
            let money := u64 (current_reward + fl_current_fee s) in
            let s := if fl_best_money s <? money then fl_best i money s else s in
            mret (true, if has_alias then fl_count_alias s else s)
        end.

Fixpoint fill_loop (i : nat) (l : list (hash * tx_details)) (s : filling) : st tx_memory_pool filling :=
  match l with
  | [] => mret s
  | e :: l =>
      r ← fill_turn i e s;
      if r.1 : bool then fill_loop (S i) l r.2 else mret r.2
  end.

End template.

(** The hashes appended to the block, the total size and the fees. *)
Definition fill_block_template (median_size height : Z) (explicit_txs : list transaction) : st tx_memory_pool (list hash * Z * Z) :=
  txs ← read (fun p => std_sort fee_rate_above (enumerate_items (mp_transactions p)));
  explicit_total_size ← lift_outcome (get_objects_blobsize explicit_txs);
  hf6 ← lift_outcome (bq_is_hardfork_06_active q);
  let blob_reserved_size := if hf6 : bool then CURRENCY_COINBASE_BLOB_RESERVED_SIZE_HF6 else CURRENCY_COINBASE_BLOB_RESERVED_SIZE in
  best_money ← some (get_block_reward_checked median_size blob_reserved_size height);
  regs_exist ← some (alias_regs_exist txs);
  s ← fill_loop median_size height blob_reserved_size regs_exist 0 txs
        {| fl_txs := map Some txs; fl_current_size := u64 explicit_total_size; fl_current_fee := 0; fl_best_money := best_money;
           fl_best_position := 0; fl_total_size := 0; fl_fee := 0; fl_alias_count := 0; fl_k_images := ∅ |};
  let chosen := omap (fun o => fst <$> o) (take (fl_best_position s) (fl_txs s)) in
  mret (chosen ++ map get_transaction_hash explicit_txs, fl_total_size s,
        fold_left (fun fee tx => u64 (fee + tx_fee tx)) explicit_txs (fl_fee s)).

End pool.
