(* ===== verification/PoolSpec.v ===== *)
(** * What the pool of transactions keeps

    The cache of key images lists exactly the key images of the transactions of
    the pool, through every operation; transactions that were added with all
    checks conflict with none; and a block template is a fee-ordered choice of
    transactions that are ready, of which those added with all checks do not
    conflict. *)

From stdpp Require Import sorting.
From S2P Require Import Prelude Config StdSort Archive Pod CryptoTypes Basic Transactions HfTerms TxSemantic TxHardforks BlockReward BlockId Assets Aliases StateM Gateway Chain InputChecks Curve CurveModel Balance TxSize TxPool.

(** ** The cache of key images *)

Definition image_holders (m : gmap key_image (gset hash)) (k : key_image) : gset hash := default ∅ (m !! k).

Lemma holders_insert_one id k m k' h :
  h ∈ image_holders (insert_key_image id k m) k' <-> h ∈ image_holders m k' \/ h = id /\ k' = k.
Proof.
  unfold image_holders, insert_key_image. destruct (decide (k' = k)) as [->|Hk].
  - rewrite lookup_insert_eq. cbn. set_solver.
  - rewrite lookup_insert_ne by done. naive_solver.
Qed.

Lemma holders_remove_one id k m k' h :
  h ∈ image_holders (remove_key_image id k m) k' <-> h ∈ image_holders m k' /\ ~ (h = id /\ k' = k).
Proof.
  unfold image_holders, remove_key_image. destruct (decide (k' = k)) as [->|Hk].
  - case_decide as E.
    + rewrite lookup_delete_eq. cbn. set_solver.
    + rewrite lookup_insert_eq. cbn. set_solver.
  - case_decide as E.
    + rewrite lookup_delete_ne by done. naive_solver.
    + rewrite lookup_insert_ne by done. naive_solver.
Qed.

Lemma holders_insert id tx m k h :
  h ∈ image_holders (insert_key_images id tx m) k <-> h ∈ image_holders m k \/ h = id /\ k ∈ key_images_of (vin tx).
Proof.
  unfold insert_key_images. generalize (key_images_of (vin tx)). intros l. revert m.
  induction l as [|k0 l IH]; intros m; cbn [fold_left]; [set_solver|].
  rewrite IH, holders_insert_one, elem_of_cons. naive_solver.
Qed.

Lemma holders_remove id tx m k h :
  h ∈ image_holders (remove_key_images id tx m) k <-> h ∈ image_holders m k /\ ~ (h = id /\ k ∈ key_images_of (vin tx)).
Proof.
  unfold remove_key_images. generalize (key_images_of (vin tx)). intros l. revert m.
  induction l as [|k0 l IH]; intros m; cbn [fold_left]; [set_solver|].
  rewrite IH, holders_remove_one, elem_of_cons. naive_solver.
Qed.

(** No key image is kept with an empty set: being in the map means being held. *)
Definition no_empty (m : gmap key_image (gset hash)) : Prop := forall k, m !! k <> Some ∅.

Lemma no_empty_insert id tx m : no_empty m -> no_empty (insert_key_images id tx m).
Proof.
  unfold insert_key_images. generalize (key_images_of (vin tx)). intros l. revert m.
  induction l as [|k0 l IH]; intros m Hm; [done|]. apply IH. intros k. unfold insert_key_image.
  destruct (decide (k = k0)) as [->|Hk]; [rewrite lookup_insert_eq; intros [= E]; assert (id ∈ (∅ : gset hash)) by (rewrite <- E; set_solver); set_solver|by rewrite lookup_insert_ne].
Qed.

Lemma no_empty_remove id tx m : no_empty m -> no_empty (remove_key_images id tx m).
Proof.
  unfold remove_key_images. generalize (key_images_of (vin tx)). intros l. revert m.
  induction l as [|k0 l IH]; intros m Hm; [done|]. apply IH. intros k. unfold remove_key_image.
  destruct (decide (k = k0)) as [->|Hk].
  - case_decide; [by rewrite lookup_delete_eq|rewrite lookup_insert_eq; congruence].
  - case_decide; [by rewrite lookup_delete_ne|by rewrite lookup_insert_ne].
Qed.

Lemma is_Some_holders m k : no_empty m -> is_Some (m !! k) <-> exists h, h ∈ image_holders m k.
Proof.
  intros Hm. unfold image_holders. split.
  - intros [s E]. rewrite E. cbn. apply set_choose_L. intros ->. by eapply Hm.
  - intros [h Hh]. destruct (m !! k); [done|]. cbn in Hh. set_solver.
Qed.

(** Entries are under the hash of their transaction, and the cache is exact. *)
Record cache_exact (txs : gmap hash tx_details) (m : gmap key_image (gset hash)) : Prop := {
  ce_ids id td : txs !! id = Some td -> id = get_transaction_hash (td_tx td);
  ce_holders k h : h ∈ image_holders m k <-> exists td, txs !! h = Some td /\ k ∈ key_images_of (vin (td_tx td));
  ce_no_empty : no_empty m
}.

Lemma cache_exact_empty : cache_exact ∅ ∅.
Proof.
  split; [by intros ??; rewrite lookup_empty| |by intros k; rewrite lookup_empty].
  intros k h. unfold image_holders. rewrite lookup_empty. cbn. split; [set_solver|]. intros (td & E & _). by rewrite lookup_empty in E.
Qed.

Lemma cache_exact_insert txs m td :
  let id := get_transaction_hash (td_tx td) in
  cache_exact txs m -> (forall td0, txs !! id = Some td0 -> tx_prefix (td_tx td0) = tx_prefix (td_tx td)) ->
  cache_exact (<[id := td]> txs) (insert_key_images id (td_tx td) m).
Proof.
  intros id [H1 H2 H3] Hsame. split; [| |by apply no_empty_insert].
  - intros id' td'. rewrite lookup_insert_Some. intros [[<- <-]|[_ E]]; [done|by apply H1].
  - intros k h. rewrite holders_insert, H2. split.
    + intros [(td0 & E & Hk)|[-> Hk]]; [|exists td; by rewrite lookup_insert_eq].
      destruct (decide (h = id)) as [->|Hne]; [|exists td0; by rewrite lookup_insert_ne].
      exists td. rewrite lookup_insert_eq. split; [done|]. unfold vin in *. by rewrite <- (Hsame td0 E).
    + intros (td0 & E & Hk). apply lookup_insert_Some in E as [[<- <-]|[_ E]]; [by right|left; eauto].
Qed.

Lemma cache_exact_delete txs m id tx :
  cache_exact txs m -> (forall td, txs !! id = Some td -> td_tx td = tx) ->
  cache_exact (delete id txs) (remove_key_images id tx m).
Proof.
  intros [H1 H2 H3] Htx. split; [| |by apply no_empty_remove].
  - intros id' td' E. apply lookup_delete_Some in E as [_ E]. by apply H1.
  - intros k h. rewrite holders_remove, H2. split.
    + intros [(td & E & Hk) Hn]. exists td. split; [|done]. apply lookup_delete_Some. split; [|done].
      intros <-. apply Hn. by rewrite <- (Htx td E).
    + intros (td & E & Hk). apply lookup_delete_Some in E as [Hne E]. split; [eauto|]. by intros [-> _].
Qed.

Lemma cache_exact_note txs m id td td' :
  cache_exact txs m -> txs !! id = Some td -> td_tx td' = td_tx td -> cache_exact (<[id := td']> txs) m.
Proof.
  intros [H1 H2 H3] E Htx. split; [| |done].
  - intros id' td0. rewrite lookup_insert_Some. intros [[<- <-]|[_ E0]]; [rewrite Htx; by apply H1|by apply H1].
  - intros k h. rewrite H2. split; intros (td0 & E0 & Hk).
    + destruct (decide (h = id)) as [->|Hne]; [|exists td0; by rewrite lookup_insert_ne].
      exists td'. rewrite lookup_insert_eq, Htx. by simplify_eq.
    + apply lookup_insert_Some in E0 as [[<- <-]|[_ E0]]; [|eauto]. exists td. by rewrite <- Htx.
Qed.

(** ** Conflicts *)

Definition multisig_ids (tx : transaction) : list hash := map fst (collect_multisig_ids_from_tx tx).

(** Two transactions that cannot both be in the chain. *)
Definition conflict (t1 t2 : transaction) : Prop :=
  (exists k, k ∈ key_images_of (vin t1) /\ k ∈ key_images_of (vin t2)) \/ (exists m, m ∈ multisig_ids t1 /\ m ∈ multisig_ids t2).

Lemma conflict_sym t1 t2 : conflict t1 t2 -> conflict t2 t1.
Proof. unfold conflict. naive_solver. Qed.

Lemma does_tx_have_given_multisig_id_iff tx m : does_tx_have_given_multisig_id tx m = true <-> m ∈ multisig_ids tx.
Proof.
  unfold does_tx_have_given_multisig_id, multisig_ids, collect_multisig_ids_from_tx.
  rewrite map_app, map_map, map_id, elem_of_app, orb_true_iff, bool_decide_eq_true, existsb_exists. apply or_iff_compat_l. split.
  - intros ([idx o] & Hin & [E1 E2%bool_decide_eq_true]%andb_prop). apply list_elem_of_fmap. exists (m, false). split; [done|].
    apply list_elem_of_omap. exists (idx, o). split; [by apply list_elem_of_In|]. by rewrite E1, E2.
  - intros ([m' b] & -> & ([idx o] & Hin & E)%list_elem_of_omap)%list_elem_of_fmap. exists (idx, o). split; [by apply list_elem_of_In|].
    destruct (out_is_multisig o); [|done]. injection E as -> _. cbn. by apply bool_decide_eq_true.
Qed.

(** The conflicts of a pool all involve a transaction of [trusted]. *)
Definition conflicts_trusted (txs : gmap hash tx_details) (trusted : gset hash) : Prop :=
  forall h1 h2 t1 t2, txs !! h1 = Some t1 -> txs !! h2 = Some t2 -> h1 <> h2 -> conflict (td_tx t1) (td_tx t2) -> h1 ∈ trusted \/ h2 ∈ trusted.

Lemma conflicts_trusted_insert txs T T' id td :
  conflicts_trusted txs T -> T ⊆ T' ->
  (id ∈ T' \/ forall h t, txs !! h = Some t -> ~ conflict (td_tx td) (td_tx t)) -> conflicts_trusted (<[id := td]> txs) T'.
Proof.
  intros H HT Hid h1 h2 t1 t2. rewrite !lookup_insert_Some.
  intros [[<- <-]|[Hn1 E1]] [[<- <-]|[Hn2 E2]] Hne Hc; [done| | |].
  - destruct Hid as [Hid|Hid]; [by left|]. by destruct (Hid h2 t2).
  - destruct Hid as [Hid|Hid]; [by right|]. destruct (Hid h1 t1 E1). by apply conflict_sym.
  - destruct (H h1 h2 t1 t2) as [?|?]; [done..|left; set_solver|right; set_solver].
Qed.

Lemma conflicts_trusted_note txs T id td td' :
  conflicts_trusted txs T -> txs !! id = Some td -> td_tx td' = td_tx td -> conflicts_trusted (<[id := td']> txs) T.
Proof.
  intros H E Htx h1 h2 t1 t2. rewrite !lookup_insert_Some.
  intros [[<- <-]|[Hn1 E1]] [[<- <-]|[Hn2 E2]] Hne Hc; [done| | |]; rewrite ?Htx in Hc; eauto.
Qed.

Lemma conflicts_trusted_subset txs txs' T : conflicts_trusted txs T -> txs' ⊆ txs -> conflicts_trusted txs' T.
Proof. intros H Hs h1 h2 t1 t2 E1 E2. apply (H h1 h2 t1 t2); by eapply lookup_weaken. Qed.

(** The state of a pool with the transactions that were added without the checks
    of strangers': from a block, by the core, or with the checks disabled. *)
Record pool_inv (p : tx_memory_pool) (trusted : gset hash) : Prop := {
  pi_cache : cache_exact (mp_transactions p) (mp_key_images p);
  pi_conflicts : conflicts_trusted (mp_transactions p) trusted
}.

Lemma pool_inv_eq p p' T :
  mp_transactions p' = mp_transactions p -> mp_key_images p' = mp_key_images p -> pool_inv p T -> pool_inv p' T.
Proof. intros E1 E2 [H1 H2]. split; by rewrite ?E1, ?E2. Qed.

Lemma remove_alias_info_txs tx p :
  mp_transactions (remove_alias_info tx p) = mp_transactions p /\ mp_key_images (remove_alias_info tx p) = mp_key_images p.
Proof. unfold remove_alias_info. by destruct (alias_asked tx). Qed.
Lemma insert_alias_info_txs tx p :
  mp_transactions (insert_alias_info tx p) = mp_transactions p /\ mp_key_images (insert_alias_info tx p) = mp_key_images p.
Proof. unfold insert_alias_info. by destruct (alias_asked tx). Qed.

Lemma erase_tx_parts e p :
  mp_transactions (erase_tx e p) = delete e.1 (mp_transactions p) /\
  mp_key_images (erase_tx e p) = remove_key_images e.1 e.2 (mp_key_images p).
Proof. unfold erase_tx, on_tx_remove. by destruct (remove_alias_info_txs e.2 (set_key_images (remove_key_images e.1 e.2) (set_pool_transactions (delete e.1) p))) as [-> ->]. Qed.

Lemma do_insert_parts q tx id blob_size kept fee mid mh p :
  exists td, mp_transactions (do_insert_transaction q tx id blob_size kept fee mid mh p) = <[id := td]> (mp_transactions p) /\ td_tx td = tx /\
    mp_key_images (do_insert_transaction q tx id blob_size kept fee mid mh p) = insert_key_images id tx (mp_key_images p).
Proof.
  eexists. unfold do_insert_transaction, on_tx_add. split; [by rewrite (proj1 (insert_alias_info_txs _ _))|].
  split; [done|]. by rewrite (proj2 (insert_alias_info_txs _ _)).
Qed.

Lemma erase_inv e p T :
  pool_inv p T -> (forall td, mp_transactions p !! e.1 = Some td -> td_tx td = e.2) -> pool_inv (erase_tx e p) T.
Proof.
  intros [H1 H2] He. destruct (erase_tx_parts e p) as [E1 E2]. split; rewrite E1, ?E2.
  - by apply cache_exact_delete.
  - eapply conflicts_trusted_subset; [done|]. apply delete_subseteq.
Qed.

Lemma erase_all_inv l p T :
  pool_inv p T -> (forall e, e ∈ l -> forall td, mp_transactions p !! e.1 = Some td -> td_tx td = e.2) ->
  pool_inv (fold_left (fun p e => erase_tx e p) l p) T.
Proof.
  revert p. induction l as [|e l IH]; intros p Hp He; cbn [fold_left]; [done|]. apply IH.
  - apply erase_inv; [done|]. apply He. set_solver.
  - intros e' He' td E. rewrite (proj1 (erase_tx_parts e p)) in E. apply lookup_delete_Some in E as [_ E]. apply (He e'); set_solver.
Qed.

Lemma take_tx_inv id p T : pool_inv p T -> pool_inv (take_tx id p).2 T.
Proof.
  intros Hp. unfold take_tx. destruct (mp_transactions p !! id) as [txe|] eqn:E; [|done]. cbn [snd].
  apply (pool_inv_eq (erase_tx (id, td_tx txe) p)); [done..|]. apply erase_inv; [done|]. intros td E'. cbn in E'. by simplify_eq.
Qed.

Section pool_operations.
Context {Cv : Curve} {Db : PoolDb} {Srt : StdSort} (check_key : public_key -> bool).

Lemma elem_of_enumerate txs id td : (id, td) ∈ enumerate_items txs <-> txs !! id = Some td.
Proof. by rewrite enumerate_perm, elem_of_map_to_list. Qed.

Lemma no_spent_image p T tx h td :
  pool_inv p T -> pool_have_tx_keyimges_as_spent tx p = false -> mp_transactions p !! h = Some td ->
  forall k, k ∈ key_images_of (vin tx) -> k ∉ key_images_of (vin (td_tx td)).
Proof.
  intros [[_ Hh Hn] _] Hf E k Hk Hk'. unfold pool_have_tx_keyimges_as_spent in Hf.
  apply not_true_iff_false in Hf. apply Hf, existsb_exists. exists k. split; [by apply list_elem_of_In|].
  apply bool_decide_eq_true, is_Some_holders; [done|]. exists h. rewrite Hh. by exists td.
Qed.

Lemma no_multisig_of_pool q p tx h td :
  check_tx_multisig_ins_and_outs q tx true p = true -> mp_transactions p !! h = Some td ->
  forall m, m ∈ multisig_ids tx -> m ∉ multisig_ids (td_tx td).
Proof.
  intros Hc E m Hm Hm'. unfold check_tx_multisig_ins_and_outs in Hc. rewrite forallb_forall in Hc.
  apply list_elem_of_fmap in Hm as ([m0 b] & -> & Hin%list_elem_of_In). specialize (Hc _ Hin). cbn [fst] in Hm'.
  apply andb_prop in Hc as [_ Hc]. apply negb_true_iff, not_true_iff_false in Hc. apply Hc. cbn [andb].
  apply existsb_exists. exists (h, td). split; [by apply list_elem_of_In, elem_of_enumerate|].
  by apply does_tx_have_given_multisig_id_iff.
Qed.

Lemma checked_no_conflict q p T tx h td :
  pool_inv p T -> pool_have_tx_keyimges_as_spent tx p = false -> check_tx_multisig_ins_and_outs q tx true p = true ->
  mp_transactions p !! h = Some td -> ~ conflict tx (td_tx td).
Proof.
  intros Hp H1 H2 E [(k & Hk & Hk')|(m & Hm & Hm')].
  - by apply (no_spent_image p T tx h td) with k.
  - by apply (no_multisig_of_pool q p tx h td) with m.
Qed.

(** [ends p R m s]: run with the pool [p], [m] leaves it or makes it one of [R]. *)
Definition ends {A} (p : tx_memory_pool) (R : tx_memory_pool -> Prop) (m : st adding A) (s : adding) : Prop :=
  s.1 = p -> forall r s', m s = (r, s') -> s'.1 = p \/ R s'.1.
Definition keeps {A} (m : st adding A) : Prop := forall s r s', m s = (r, s') -> s'.1 = s.1.

Lemma ends_keeps {A} p R (m : st adding A) s : keeps m -> ends p R m s.
Proof. intros Hm <- r s' E. left. by eapply Hm. Qed.

Lemma ends_bind {A B} p R (m : st adding A) (f : A -> st adding B) s :
  keeps m -> (forall a s1, m s = (Ok a, s1) -> s1.1 = p -> ends p R (f a) s1) -> ends p R (m ≫= f) s.
Proof.
  intros Hm Hf Hs r s' E. unfold mbind, st_bind in E. destruct (m s) as [o s1] eqn:Em.
  assert (Hs1 : s1.1 = p) by (rewrite <- Hs; by eapply Hm). destruct o; [|by simplify_eq; left..].
  by eapply Hf.
Qed.

Lemma keeps_bind {A B} (m : st adding A) (f : A -> st adding B) : keeps m -> (forall a, keeps (f a)) -> keeps (m ≫= f).
Proof.
  intros Hm Hf s r s' E. unfold mbind, st_bind in E. destruct (m s) as [o s1] eqn:Em. rewrite <- (Hm _ _ _ Em).
  destruct o as [a| |]; [by eapply Hf|by simplify_eq..].
Qed.

Lemma keeps_ret {A} (a : A) : keeps (mret (M := st adding) a).
Proof. by intros s r s' [= _ <-]. Qed.
Lemma keeps_check b : keeps (check b).
Proof. by intros s r s' [= _ <-]. Qed.
Lemma keeps_fail {A} : keeps (fail (A := A)).
Proof. by intros s r s' [= _ <-]. Qed.
Lemma keeps_some {A} (o : option A) : keeps (some o).
Proof. by intros s r s' [= _ <-]. Qed.
Lemma keeps_read {A} (f : adding -> A) : keeps (read f).
Proof. by intros s r s' [= _ <-]. Qed.
Lemma keeps_lift_outcome {A} (o : outcome A) : keeps (lift_outcome o).
Proof. by intros s r s' [= _ <-]. Qed.
Lemma keeps_note f : keeps (note f).
Proof. by intros s r s' [= _ <-]. Qed.
Lemma keeps_if {A} (b : bool) (m1 m2 : st adding A) : keeps m1 -> keeps m2 -> keeps (if b then m1 else m2).
Proof. by destruct b. Qed.

Create HintDb pool_keeps.
#[local] Hint Resolve keeps_bind keeps_ret keeps_check keeps_fail keeps_some keeps_read keeps_lift_outcome keeps_note keeps_if : pool_keeps.

Lemma keeps_check_untrusted tx blob_size fee q : keeps (check_untrusted check_key q tx blob_size fee).
Proof. unfold check_untrusted. eauto 20 with pool_keeps. Qed.

Lemma keeps_check_balance_and_asset q tx id : keeps (check_balance_and_asset q tx id).
Proof. unfold check_balance_and_asset. eauto 20 with pool_keeps. Qed.
#[local] Hint Resolve keeps_check_untrusted keeps_check_balance_and_asset : pool_keeps.

(** A stranger's transaction is not added when it conflicts with the pool. *)
Lemma check_untrusted_ok q tx blob_size fee s s' :
  check_untrusted check_key q tx blob_size fee s = (Ok true, s') ->
  validate_tx_semantic check_key tx blob_size = Ret true /\ pool_have_tx_keyimges_as_spent tx s.1 = false /\
  check_tx_fee q fee = true /\ check_tx_multisig_ins_and_outs q tx true s.1 = true /\ s' = s.
Proof.
  unfold check_untrusted. rewrite bind_ok. intros (semantic & s1 & [E <-]%lift_outcome_ok & Hf).
  destruct semantic; cbn [negb] in Hf; [|apply bind_ok in Hf as (? & ? & _ & [=])].
  apply bind_ok in Hf as (spent & s1 & [<- <-]%read_ok & Hf). apply bind_ok in Hf as (u & s1 & [Esp%negb_true_iff <-]%check_ok & Hf).
  destruct (check_tx_fee q fee); cbn [negb] in Hf; [|apply bind_ok in Hf as (? & ? & _ & [=])].
  apply bind_ok in Hf as (ms & s1 & [<- <-]%read_ok & Hf).
  destruct (check_tx_multisig_ins_and_outs q tx true s.1) eqn:Ems; cbn [negb] in Hf; [|apply bind_ok in Hf as (? & ? & _ & [=])].
  apply ret_ok in Hf as [_ <-]. done.
Qed.

(** The pools [add_tx] can make of [p]. *)
Definition inserted_into (q : blockchain_queries) (p : tx_memory_pool) (tx : transaction) (id : hash) (blob_size : Z) (kept from_core : bool)
    (p' : tx_memory_pool) : Prop :=
  (exists fee mid mh, p' = do_insert_transaction q tx id blob_size kept fee mid mh p) /\
  (kept || from_core || mp_unsecure_disable_tx_validation_on_addition p = true \/
   pool_have_tx_keyimges_as_spent tx p = false /\ check_tx_multisig_ins_and_outs q tx true p = true).

Lemma insert_ends q p tx id blob_size kept from_core fee mid mh f s :
  kept || from_core || mp_unsecure_disable_tx_validation_on_addition p = true \/
  pool_have_tx_keyimges_as_spent tx p = false /\ check_tx_multisig_ins_and_outs q tx true p = true ->
  ends p (inserted_into q p tx id blob_size kept from_core)
    (update (fun s => (do_insert_transaction q tx id blob_size kept fee mid mh s.1, s.2)) ≫= (fun _ => note f)) s.
Proof. intros Hc Hs r s' [= _ <-]. right. rewrite <- Hs in *. split; [by exists fee, mid, mh|done]. Qed.

Lemma add_tx_ends q p tx id blob_size kept from_core s :
  ends p (inserted_into q p tx id blob_size kept from_core) (add_tx check_key q tx id blob_size kept from_core) s.
Proof.
  unfold add_tx. apply ends_bind; [eauto with pool_keeps|]. intros unsecure s1 [Eu <-]%read_ok Hs1. destruct unsecure.
  { apply ends_bind; [eauto with pool_keeps|]. intros fee s2 _ Hs2. apply insert_ends. left. rewrite <- Hs1, Eu. by rewrite !orb_true_r. }
  clear Eu. apply ends_bind; [eauto with pool_keeps|]. intros _ s2 _ Hs2. apply ends_bind; [eauto with pool_keeps|]. intros count s3 _ Hs3.
  destruct (_ && _); [apply ends_keeps; eauto with pool_keeps|]. destruct (_ && _); [apply ends_keeps; eauto with pool_keeps|].
  do 6 (apply ends_bind; [eauto 10 with pool_keeps|]; intros ? ? _ ?).
  apply ends_bind; [destruct from_core; eauto 10 with pool_keeps|]. intros _ s10 _ Hs10.
  apply ends_bind; [eauto 10 with pool_keeps|]. intros go_on s11 Hgo Hs11.
  assert (Hc : go_on = false \/ kept || from_core || mp_unsecure_disable_tx_validation_on_addition p = true \/
                pool_have_tx_keyimges_as_spent tx p = false /\ check_tx_multisig_ins_and_outs q tx true p = true).
  { destruct go_on; [|by left]. right. destruct kept; [by left|]. destruct from_core; [by left|].
    cbn [negb andb] in Hgo. apply check_untrusted_ok in Hgo as (_ & Hki & _ & Hms & _). rewrite Hs10 in Hki, Hms. by right. }
  destruct go_on; [|apply ends_keeps, keeps_ret]. destruct Hc as [[=]|Hc]. cbn [negb].
  apply ends_bind; [eauto with pool_keeps|]. intros inputs s12 _ Hs12.
  destruct (match inputs with None => _ | Some _ => false end); [apply ends_keeps; eauto with pool_keeps|].
  apply ends_bind; [eauto 10 with pool_keeps|]. intros _ s13 _ Hs13.
  unfold insert_checked. destruct (default _ inputs) as [mid mh]. by apply insert_ends.
Qed.

Lemma add_inv q p T tx blob_size kept from_core p' :
  let id := get_transaction_hash tx in
  pool_inv p T -> (forall td, mp_transactions p !! id = Some td -> tx_prefix (td_tx td) = tx_prefix tx) ->
  inserted_into q p tx id blob_size kept from_core p' ->
  pool_inv p' (if kept || from_core || mp_unsecure_disable_tx_validation_on_addition p then {[id]} ∪ T else T).
Proof.
  intros id Hp Hsame [(fee & mid & mh & ->) Hc]. destruct (do_insert_parts q tx id blob_size kept fee mid mh p) as (td & E1 & Htx & E2).
  split; rewrite E1, ?E2.
  - rewrite <- Htx. unfold id in *. rewrite <- Htx in Hsame |- *. by apply cache_exact_insert; [apply Hp|].
  - apply (conflicts_trusted_insert _ T); [apply Hp|by destruct (kept || _ || _); [apply union_subseteq_r|]|].
    destruct Hc as [->|[Hk Hm]]; [left; by apply elem_of_union_l, elem_of_singleton_2|right]. intros h t E. rewrite Htx. by apply (checked_no_conflict q p T tx h t).
Qed.

Lemma stuck_entries_in_pool q p e : e ∈ mjoin (map (stuck_entries q) (enumerate_items (mp_transactions p))) ->
  exists td, mp_transactions p !! e.1 = Some td /\ td_tx td = e.2.
Proof.
  intros ([| x l] & Hx & ([h td] & El & Hin)%list_elem_of_fmap)%list_elem_of_join; [by apply elem_of_nil in Hx|].
  rewrite El in Hx. clear El x l. unfold stuck_entries in Hx. destruct (bq_is_tx_related_to_altblock q h); [by apply elem_of_nil in Hx|].
  apply list_elem_of_fmap in Hx as (b & -> & _). exists td. by apply elem_of_enumerate in Hin.
Qed.

Lemma remove_stuck_inv q p T : pool_inv p T -> pool_inv (remove_stuck_transactions q p) T.
Proof.
  intros Hp. apply erase_all_inv; [done|]. intros e (td & E & Htx)%stuck_entries_in_pool td' E'. by simplify_eq.
Qed.

Lemma take_all_inv ids p T : pool_inv p T -> pool_inv (fold_left (fun p h => (take_tx h p).2) ids p) T.
Proof. revert p. induction ids as [|h ids IH]; intros p Hp; [done|]. by apply IH, take_tx_inv. Qed.

Lemma remove_incompatible_inv q p T p' : pool_inv p T -> remove_incompatible_txs q p = Ret p' -> pool_inv p' T.
Proof.
  intros Hp. unfold remove_incompatible_txs. destruct (invalid_tx_ids q _) as [ids|]; [|done]. intros [= <-]. by apply take_all_inv.
Qed.

(** *** The cache rebuilt from the database *)

Lemma holders_fold l m k h :
  h ∈ image_holders (fold_left add_pool_key_images l m) k <->
  h ∈ image_holders m k \/ exists td, (h, td) ∈ l /\ k ∈ key_images_of (vin (td_tx td)).
Proof.
  revert m. induction l as [|[h0 td0] l IH]; intros m; cbn [fold_left]; [set_solver|].
  rewrite IH. unfold add_pool_key_images. rewrite holders_insert. cbn [fst snd]. setoid_rewrite elem_of_cons. naive_solver.
Qed.

Lemma no_empty_fold l m : no_empty m -> no_empty (fold_left add_pool_key_images l m).
Proof. revert m. induction l as [|e l IH]; intros m Hm; cbn [fold_left]; [exact Hm|]. apply IH. exact (no_empty_insert e.1 (td_tx e.2) m Hm). Qed.

Lemma cache_rebuilt p T :
  (forall id td, mp_transactions p !! id = Some td -> id = get_transaction_hash (td_tx td)) ->
  conflicts_trusted (mp_transactions p) T -> mp_key_images p = ∅ -> pool_inv (load_keyimages_cache p) T.
Proof.
  intros Hid Hc Hk. split; [|done]. cbn. rewrite Hk. split; [done| |].
  - intros k h. unfold get_key_images_from_tx_pool. rewrite holders_fold. setoid_rewrite elem_of_enumerate.
    unfold image_holders. rewrite lookup_empty. cbn. set_solver.
  - apply no_empty_fold. intros k. by rewrite lookup_empty.
Qed.

(** *** The details a template changes *)

Lemma recheck_inputs_tx q txd id r : recheck_inputs q txd id = Ret r -> td_tx r.2 = td_tx txd.
Proof.
  unfold recheck_inputs. destruct (bq_check_tx_inputs _ _ _ _) as [[[mid mh]|]|]; [| |done]; by intros [= <-].
Qed.

Lemma inputs_ready_tx q txd id r : inputs_ready q txd id = Ret r -> td_tx r.2 = td_tx txd.
Proof.
  unfold inputs_ready. repeat case_match; (by intros [= <-]) || by apply recheck_inputs_tx.
Qed.

Lemma ready_tx q txd id p r : is_transaction_ready_to_go q txd id p = Ret r -> td_tx r.2 = td_tx txd.
Proof.
  unfold is_transaction_ready_to_go. destruct (is_tx_blacklisted id p); [by intros [= <-]|].
  destruct (inputs_ready q txd id) as [[good txd']|] eqn:E; [|done]. intros [= <-]. by apply inputs_ready_tx in E.
Qed.

(** What a turn of the loop does to the pool. *)
Definition noted (p : tx_memory_pool) (txd : tx_details) (p' : tx_memory_pool) : Prop :=
  p' = p \/ exists after, td_tx after = td_tx txd /\ p' = set_pool_transactions <[get_transaction_hash (td_tx after) := after]> p.

Lemma fill_turn_pool q median height reserved regs i e s p r p' :
  fill_turn q median height reserved regs i e s p = (r, p') -> noted p e.2 p'.
Proof.
  unfold fill_turn, noted. destruct e as [id txd]. cbn [snd]. destruct (tx_expired q _); [by intros [= _ <-]; left|].
  destruct (parse_and_validate_tx_extra _ _) as [ok ei]. unfold mbind, st_bind, check, read, lift_outcome.
  destruct ok; [|by intros [= _ <-]; left]. destruct (_ && _); [by intros [= _ <-]; left|].
  destruct (is_transaction_ready_to_go q txd id p) as [[b after]|] eqn:E; [|by intros [= _ <-]; left]. cbn [fst snd negb].
  apply ready_tx in E. cbn in E. destruct b.
  - cbn [mret st_ret orb negb]. destruct (have_key_images _ _); [by intros [= _ <-]; left|].
    destruct (reward_of_size _ _ _); intros [= _ <-]; by left.
  - unfold note_failure. destruct (_ && _); [by intros [= _ <-]; left|]. intros [= _ <-]. right. by exists after.
Qed.

Definition still_there (p : tx_memory_pool) (e : hash * tx_details) : Prop :=
  exists td, mp_transactions p !! e.1 = Some td /\ td_tx td = td_tx e.2.

Lemma noted_inv p T e p' : pool_inv p T -> still_there p e -> noted p e.2 p' -> pool_inv p' T.
Proof.
  intros [H1 H2] (td & E & Htx) [->|(after & Ha & ->)]; [done|].
  assert (Hid : e.1 = get_transaction_hash (td_tx after)) by (rewrite Ha, <- Htx; by apply (ce_ids _ _ H1)).
  rewrite Hid in E. split; cbn.
  - eapply cache_exact_note; [done..|]. congruence.
  - eapply conflicts_trusted_note; [done..|]. congruence.
Qed.

Lemma noted_still_there p T e p' e' : pool_inv p T -> still_there p e -> noted p e.2 p' -> still_there p e' -> still_there p' e'.
Proof.
  intros [H1 _] (td & E & Htx) [->|(after & Ha & ->)] (td' & E' & Htx'); [by exists td'|].
  unfold still_there. cbn. destruct (decide (e'.1 = get_transaction_hash (td_tx after))) as [Ee|Hne].
  - exists after. rewrite Ee, lookup_insert_eq. split; [done|].
    assert (Hid : e.1 = get_transaction_hash (td_tx after)) by (rewrite Ha, <- Htx; by apply (ce_ids _ _ H1)). congruence.
  - exists td'. by rewrite lookup_insert_ne.
Qed.

Lemma fill_loop_inv q median height reserved regs i l s p T r p' :
  pool_inv p T -> Forall (still_there p) l -> fill_loop q median height reserved regs i l s p = (r, p') -> pool_inv p' T.
Proof.
  revert i s p. induction l as [|e l IH]; intros i s p Hp Hl; cbn [fill_loop]; [by intros [= _ <-]|].
  apply Forall_cons in Hl as [He Hl]. unfold mbind, st_bind. destruct (fill_turn _ _ _ _ _ _ _ _ p) as [o p1] eqn:E.
  apply fill_turn_pool in E. pose proof (noted_inv p T e p1 Hp He E) as Hp1.
  destruct o as [[go s1]| |]; [|by intros [= _ <-]..]. cbn [fst snd]. destruct go; [|by intros [= _ <-]].
  apply IH; [done|]. eapply (Forall_impl _ _ _ Hl). intros e'. by apply (noted_still_there p T e).
Qed.

Lemma template_inv q median height explicit_txs p T r p' :
  pool_inv p T -> fill_block_template q median height explicit_txs p = (r, p') -> pool_inv p' T.
Proof.
  intros Hp. unfold fill_block_template, mbind, st_bind, read, lift_outcome, some.
  destruct (get_objects_blobsize explicit_txs); [|by intros [= _ <-]].
  destruct (bq_is_hardfork_06_active q) as [hf6|]; [|by intros [= _ <-]].
  destruct (get_block_reward_checked _ _ _); [|by intros [= _ <-]]. destruct (alias_regs_exist _); [|by intros [= _ <-]].
  destruct (fill_loop _ _ _ _ _ _ _ _ p) as [o p1] eqn:E. intros Hr.
  assert (p' = p1) as -> by (destruct o; [by injection Hr as _ <-|by simplify_eq..]).
  eapply fill_loop_inv; [done| |done]. apply list.Forall_forall. intros [id td]. rewrite std_sort_perm, elem_of_enumerate. intros Ei.
  exists td. done.
Qed.

(** ** Runs of the pool *)

Definition stranger (p : tx_memory_pool) (kept_by_block from_core : bool) : bool :=
  negb (kept_by_block || from_core || mp_unsecure_disable_tx_validation_on_addition p).

(** One operation, against whatever the blockchain answers at that time; the
    ids on the right are those added without the checks of strangers'.  An id is
    the hash of a prefix: [step_add] has that two prefixes of one id are the same. *)
Inductive pool_step : tx_memory_pool * gset hash -> tx_memory_pool * gset hash -> Prop :=
| step_add q p trusted tx blob_size kept_by_block from_core tvc r p' tvc' :
    (forall td, mp_transactions p !! get_transaction_hash tx = Some td -> tx_prefix (td_tx td) = tx_prefix tx) ->
    add_tx check_key q tx (get_transaction_hash tx) blob_size kept_by_block from_core (p, tvc) = (r, (p', tvc')) ->
    pool_step (p, trusted) (p', if stranger p kept_by_block from_core then trusted else {[get_transaction_hash tx]} ∪ trusted)
| step_take id p trusted : pool_step (p, trusted) ((take_tx id p).2, trusted)
| step_stuck q p trusted : pool_step (p, trusted) (remove_stuck_transactions q p, trusted)
| step_incompatible q p p' trusted : remove_incompatible_txs q p = Ret p' -> pool_step (p, trusted) (p', trusted)
| step_template q median_size height explicit_txs p r p' trusted :
    fill_block_template q median_size height explicit_txs p = (r, p') -> pool_step (p, trusted) (p', trusted)
| step_blacklist tx p trusted : pool_step (p, trusted) (add_transaction_to_black_list tx p, trusted)
| step_unsecure b p trusted : pool_step (p, trusted) (unsecure_disable_tx_validation_on_addition b p, trusted)
| step_finalize p trusted : pool_step (p, trusted) (on_finalize_db_transaction p, trusted)
| step_purge p trusted : pool_step (p, trusted) (purge_transactions p, trusted)
| step_clear p trusted : pool_step (p, trusted) (clear p, trusted)
| step_restart p trusted : pool_step (p, trusted) (load_keyimages_cache (reset_all_taken (set_key_images (fun _ => ∅) p)), trusted).

Definition new_pool (unsecure : bool) : tx_memory_pool := {|
  mp_transactions := ∅; mp_black_tx_list := ∅; mp_alias_names := ∅; mp_alias_addresses := ∅; mp_taken_txs := ∅; mp_key_images := ∅;
  mp_unsecure_disable_tx_validation_on_addition := unsecure |}.

Definition pool_reachable (unsecure : bool) (s : tx_memory_pool * gset hash) : Prop := rtc pool_step (new_pool unsecure, ∅) s.

Lemma empty_pool_inv p T : mp_transactions p = ∅ -> mp_key_images p = ∅ -> pool_inv p T.
Proof.
  intros E1 E2. split; rewrite E1, ?E2; [apply cache_exact_empty|]. intros h1 h2 t1 t2 E. by rewrite lookup_empty in E.
Qed.

Lemma pool_inv_mono p T T' : pool_inv p T -> T ⊆ T' -> pool_inv p T'.
Proof.
  intros [H1 H2] HT. split; [done|]. intros h1 h2 t1 t2 E1 E2 Hne Hc.
  destruct (H2 h1 h2 t1 t2 E1 E2 Hne Hc) as [?%HT|?%HT]; [by left|by right].
Qed.

Lemma pool_step_inv s s' : pool_step s s' -> pool_inv s.1 s.2 -> pool_inv s'.1 s'.2.
Proof.
  destruct 1 as [q p T tx blob_size kept core tvc r p' tvc' Hsame E|id p T|q p T|q p p' T E|q median height expl p r p' T E|tx p T|b p T|p T|p T|p T|p T];
    cbn [fst snd]; intros Hp.
  - unfold stranger. destruct (add_tx_ends q p tx _ blob_size kept core (p, tvc) eq_refl _ _ E) as [Ep|Hin]; cbn [fst] in *.
    + subst p'. eapply pool_inv_mono; [done|]. destruct (negb _); [done|apply union_subseteq_r].
    + pose proof (add_inv q p T tx blob_size kept core p' Hp Hsame Hin) as Hp'. by destruct (kept || core || _).
  - by apply take_tx_inv.
  - by apply remove_stuck_inv.
  - by eapply remove_incompatible_inv.
  - by eapply template_inv.
  - by eapply (pool_inv_eq p).
  - by eapply (pool_inv_eq p).
  - by eapply (pool_inv_eq p).
  - by apply empty_pool_inv.
  - by apply empty_pool_inv.
  - apply cache_rebuilt; [apply (ce_ids _ _ (pi_cache _ _ Hp))|apply (pi_conflicts _ _ Hp)|done].
Qed.

Lemma pool_reachable_inv unsecure s : pool_reachable unsecure s -> pool_inv s.1 s.2.
Proof.
  intros Hs. unfold pool_reachable in Hs. remember (new_pool unsecure, ∅) as s0 eqn:E0.
  assert (H0 : pool_inv s0.1 s0.2) by (subst s0; by apply empty_pool_inv). clear E0.
  induction Hs as [|s1 s2 s3 Hstep _ IH]; [done|]. by apply IH, pool_step_inv with s1.
Qed.

(** C15: However the pool was used (additions of any kind, with any outcome,
    removals, block templates, restarts), each transaction is under its own id,
    and the cache of key images is exact: the ids kept for a key image are those of
    the transactions of the pool that spend it, and a key image counts as spent
    exactly when there is one. *)
Theorem key_image_cache_exact unsecure p trusted : pool_reachable unsecure (p, trusted) ->
  (forall id td, mp_transactions p !! id = Some td -> id = get_transaction_hash (td_tx td)) /\
  (forall k id, id ∈ default ∅ (mp_key_images p !! k) <->
    exists td, mp_transactions p !! id = Some td /\ k ∈ key_images_of (vin (td_tx td))) /\
  (forall k, pool_have_tx_keyimg_as_spent k p = true <->
    exists id td, mp_transactions p !! id = Some td /\ k ∈ key_images_of (vin (td_tx td))).
Proof.
  intros [[Hid Hh Hn] _]%pool_reachable_inv. cbn [fst snd] in *. split; [done|]. split; [intros k id; apply Hh|].
  intros k. unfold pool_have_tx_keyimg_as_spent. rewrite bool_decide_eq_true, is_Some_holders by done. by setoid_rewrite Hh.
Qed.

(** C12: Two different transactions of the pool never spend the same key image nor
    name the same multisignature output, unless one of them came with a block or
    from the node's own core. *)
Theorem pool_never_conflicts unsecure p trusted h1 h2 t1 t2 : pool_reachable unsecure (p, trusted) ->
  mp_transactions p !! h1 = Some t1 -> mp_transactions p !! h2 = Some t2 -> h1 <> h2 -> h1 ∉ trusted -> h2 ∉ trusted ->
  ~ conflict (td_tx t1) (td_tx t2).
Proof.
  intros [_ Hc]%pool_reachable_inv E1 E2 Hne H1 H2 Hcf. by destruct (Hc h1 h2 t1 t2 E1 E2 Hne Hcf).
Qed.

(** ** Admission *)

(** What a stranger's transaction must pass. *)
Record admissible (q : blockchain_queries) (p : tx_memory_pool) (tx : transaction) (id : hash) (blob_size fee : Z) (used : hash * Z) : Prop := {
  adm_synchronized : bq_is_in_checkpoint_zone q = false;
  adm_room : get_transactions_count p <= CURRENCY_MEMPOOL_MAX_TX_COUT;
  adm_terms : bq_validate_tx_for_hardfork_specific_terms q tx = Ret true;
  adm_types : check_inputs_types_supported tx = true;
  adm_not_expired : tx_expired q tx = false;
  adm_sizes : check_inputs_and_outputs_size tx = true;
  adm_fee : get_tx_fee tx = Some fee;
  adm_alias : validate_alias_info q tx false p = Ret true;
  adm_semantic : validate_tx_semantic check_key tx blob_size = Ret true;
  adm_images : pool_have_tx_keyimges_as_spent tx p = false;
  adm_min_fee : bq_tx_pool_min_fee q <= fee;
  adm_multisig : check_tx_multisig_ins_and_outs q tx true p = true;
  adm_inputs : bq_check_tx_inputs q tx id true = Ret (Some used);
  adm_balance : TRANSACTION_VERSION_PRE_HF4 < version tx -> check_tx_balance tx id 0 = Ret true;
  adm_asset : TRANSACTION_VERSION_PRE_HF4 < version tx ->
    process_unique_ado (bq_validate_asset_operation q tx id) (tp_extra (tx_prefix tx)) false = Ret true
}.

Lemma note_fail_ok {A} f s (a : A) s' : (_ ← note f; fail) s <> (Ok a, s').
Proof. done. Qed.

Lemma check_balance_and_asset_ok q tx id s s' :
  check_balance_and_asset q tx id s = (Ok tt, s') <->
  check_tx_balance tx id 0 = Ret true /\ process_unique_ado (bq_validate_asset_operation q tx id) (tp_extra (tx_prefix tx)) false = Ret true /\ s' = s.
Proof.
  unfold check_balance_and_asset, mbind, st_bind, lift_outcome, note, update, fail, mret, st_ret.
  destruct (check_tx_balance tx id 0) as [[]|]; cbn [negb]; [|naive_solver..].
  destruct (process_unique_ado _ _ _) as [[]|]; cbn [negb]; naive_solver.
Qed.

Lemma check_untrusted_iff q tx blob_size fee s s' :
  check_untrusted check_key q tx blob_size fee s = (Ok true, s') <->
  validate_tx_semantic check_key tx blob_size = Ret true /\ pool_have_tx_keyimges_as_spent tx s.1 = false /\
  check_tx_fee q fee = true /\ check_tx_multisig_ins_and_outs q tx true s.1 = true /\ s' = s.
Proof.
  split; [apply check_untrusted_ok|]. intros (H1 & H2 & H3 & H4 & ->).
  unfold check_untrusted, mbind, st_bind, lift_outcome, read, check. rewrite H1. cbn -[pool_have_tx_keyimges_as_spent]. rewrite H2, H3. cbn. by rewrite H4.
Qed.

(** The soft rule on the fee: success, and nothing added. *)
Lemma check_untrusted_soft q tx blob_size fee s s' :
  check_untrusted check_key q tx blob_size fee s = (Ok false, s') -> m_added_to_pool s'.2 = false.
Proof.
  unfold check_untrusted. intros Ec. apply bind_ok in Ec as (semantic & s3 & [_ <-]%lift_outcome_ok & Ec).
  destruct semantic; cbn [negb] in Ec; [|by apply note_fail_ok in Ec].
  apply bind_ok in Ec as (spent & s3 & [_ <-]%read_ok & Ec). apply bind_ok in Ec as (? & s3 & [_ <-]%check_ok & Ec).
  destruct (check_tx_fee q fee); cbn [negb] in Ec.
  - apply bind_ok in Ec as (ms & s3 & [_ <-]%read_ok & Ec). destruct ms; cbn [negb] in Ec; [by apply ret_ok in Ec as [[=] _]|by apply note_fail_ok in Ec].
  - apply bind_ok in Ec as ([] & s3 & <-%update_ok & [_ <-]%ret_ok). done.
Qed.

Lemma stranger_checked q p tvc tx id blob_size p' tvc' :
  mp_unsecure_disable_tx_validation_on_addition p = false ->
  add_tx check_key q tx id blob_size false false (p, tvc) = (Ok tt, (p', tvc')) -> m_added_to_pool tvc' = true ->
  exists fee used, admissible q p tx id blob_size fee used /\ p' = do_insert_transaction q tx id blob_size false fee used.1 used.2 p.
Proof.
  unfold add_tx. intros Hu E Hadd. apply bind_ok in E as (u & s1 & [<- <-]%read_ok & E). cbn [fst] in E. rewrite Hu in E.
  apply bind_ok in E as ([] & s1 & <-%update_ok & E). apply bind_ok in E as (count & s2 & [<- <-]%read_ok & E). cbn [fst snd negb andb] in E.
  destruct (bq_is_in_checkpoint_zone q) eqn:E1; [by apply note_fail_ok in E|].
  destruct (_ <? _) eqn:E2; [by apply note_fail_ok in E|]. apply Z.ltb_ge in E2.
  apply bind_ok in E as (terms & s2 & [E3 <-]%lift_outcome_ok & E). apply bind_ok in E as (? & s2 & [-> <-]%check_ok & E).
  apply bind_ok in E as (? & s2 & [E4 <-]%check_ok & E). apply bind_ok in E as ([] & s2 & E5 & E).
  destruct (tx_expired q tx) eqn:E6; [by apply note_fail_ok in E5|]. apply ret_ok in E5 as [_ <-].
  apply bind_ok in E as (? & s2 & [E7 <-]%check_ok & E). apply bind_ok in E as (fee & s2 & [E8 <-]%some_ok & E).
  apply bind_ok in E as (? & s2 & Ea & E). apply bind_ok in Ea as (pool & s3 & [<- <-]%read_ok & Ea).
  apply bind_ok in Ea as (alias & s3 & [E9 <-]%lift_outcome_ok & [-> <-]%check_ok). cbn [fst] in E9.
  apply bind_ok in E as (go_on & s2 & Ec & E). destruct go_on; cbn [negb] in E.
  - apply check_untrusted_iff in Ec as (E10 & E11 & E12 & E13 & ->). cbn [fst] in *.
    apply bind_ok in E as (inputs & s3 & [E14 <-]%lift_outcome_ok & E). destruct inputs as [[mid mh]|]; [|by apply note_fail_ok in E].
    apply bind_ok in E as ([] & s3 & E15 & E).
    assert (Hbal : s3 = (p, tvc_set None (Some true) None (Some false) None tvc) /\ (TRANSACTION_VERSION_PRE_HF4 < version tx ->
      check_tx_balance tx id 0 = Ret true /\ process_unique_ado (bq_validate_asset_operation q tx id) (tp_extra (tx_prefix tx)) false = Ret true)).
    { destruct (TRANSACTION_VERSION_PRE_HF4 <? version tx) eqn:Ev; [|apply ret_ok in E15 as [_ <-]; zbool; split; [done|lia]].
      apply check_balance_and_asset_ok in E15 as (? & ? & ->). done. }
    destruct Hbal as [-> Hbal]. injection E as <- <-. exists fee, (mid, mh). split; [|done].
    split; try done; [unfold check_tx_fee in E12; zbool; lia|intros Hv; by apply Hbal..].
  - apply ret_ok in E as [_ ->]. apply check_untrusted_soft in Ec; cbn [snd] in Ec. by rewrite Ec in Hadd.
Qed.

(** C17: A transaction from a stranger gets into the pool exactly when it passes
    every check, and then the pool gains just its entry, the key images it spends
    and the alias it asks for; its inputs were checked against the chain, and it is
    to be relayed. *)
Theorem stranger_admitted_iff q p tvc tx id blob_size p' :
  mp_unsecure_disable_tx_validation_on_addition p = false ->
  (exists tvc', add_tx check_key q tx id blob_size false false (p, tvc) = (Ok tt, (p', tvc')) /\ m_added_to_pool tvc' = true) <->
  exists fee used, admissible q p tx id blob_size fee used /\ p' = do_insert_transaction q tx id blob_size false fee used.1 used.2 p.
Proof.
  intros Hu. split.
  - intros (tvc' & E & Hadd). by apply (stranger_checked q p tvc tx id blob_size p' tvc').
  - intros (fee & [mid mh] & [A1 A2 A3 A4 A5 A6 A7 A8 A9 A10 A11 A12 A13 A14 A15] & ->).
    assert (A11' : check_tx_fee q fee = true) by (unfold check_tx_fee; zbool; lia). apply Z.ltb_ge in A2.
    pose proof (fun s => proj2 (check_untrusted_iff q tx blob_size fee (p, s) (p, s)) (conj A9 (conj A10 (conj A11' (conj A12 eq_refl))))) as Hc.
    unfold add_tx. eexists. split.
    + unfold mbind, st_bind, read, note, update, check, some, lift_outcome. cbn [fst snd negb andb]. rewrite Hu. cbn [fst snd negb andb]. rewrite A1, A2, A3, A4, A5, A6, A7.
      unfold mret, st_ret. cbn [fst snd]. rewrite A8. cbn [fst snd]. rewrite Hc. cbn [negb]. rewrite A13.
      assert (Hb : forall s, (if TRANSACTION_VERSION_PRE_HF4 <? version tx then check_balance_and_asset q tx id else fun s : adding => (Ok tt, s)) s = (Ok tt, s)).
      { intros s. destruct (TRANSACTION_VERSION_PRE_HF4 <? version tx) eqn:Ev; [|reflexivity]. zbool. apply check_balance_and_asset_ok. auto. }
      rewrite Hb. unfold insert_checked, note, update, mbind, st_bind. cbn. reflexivity.
    + done.
Qed.

End pool_operations.

(** ** Block templates *)

Section templates.
Context {Db : PoolDb} {Srt : StdSort}.

Abbreviation pooled := (hash * tx_details)%type.
Definition images (e : pooled) : list key_image := key_images_of (vin (td_tx e.2)).
Definition total_blob_size (l : list pooled) : Z := sum_Z (map (fun e => td_blob_size e.2) l).
Definition total_fee (l : list pooled) : Z := sum_Z (map (fun e => td_fee e.2) l).

Lemma sum_Z_snoc l x : sum_Z (l ++ [x]) = sum_Z l + x.
Proof. induction l as [|y l IH]; cbn [app]; rewrite ?sum_Z_cons; [cbn; lia|]. rewrite IH. lia. Qed.

Lemma total_snoc l e : total_blob_size (l ++ [e]) = total_blob_size l + td_blob_size e.2 /\ total_fee (l ++ [e]) = total_fee l + td_fee e.2.
Proof. unfold total_blob_size, total_fee. rewrite !map_app. cbn [map]. by rewrite !sum_Z_snoc. Qed.

Lemma append_images_all l ks : NoDup l -> (forall k, k ∈ l -> k ∉ ks) -> forall k, k ∈ append_images ks l <-> k ∈ ks \/ k ∈ l.
Proof.
  revert ks. induction l as [|k0 l IH]; intros ks Hnd Hdis k; cbn [append_images]; [set_solver|].
  apply NoDup_cons in Hnd as [Hk0 Hnd]. rewrite decide_False by (apply Hdis; set_solver).
  rewrite IH; [rewrite elem_of_union, elem_of_singleton, elem_of_cons; naive_solver|done|].
  intros k1 Hk1 [->%elem_of_singleton|Hin]%elem_of_union; [done|]. apply (Hdis k1); [set_solver|done].
Qed.

Lemma append_images_keeps l ks k : k ∈ ks -> k ∈ append_images ks l.
Proof. revert ks. induction l as [|k0 l IH]; intros ks Hk; cbn [append_images]; [done|]. case_decide; [done|]. apply IH. set_solver. Qed.

Lemma have_key_images_false ks tx : have_key_images ks tx = false -> forall k, k ∈ key_images_of (vin tx) -> k ∉ ks.
Proof.
  unfold have_key_images. intros Hf%not_true_iff_false k Hk Hin. apply Hf, existsb_exists. exists k.
  split; [by apply list_elem_of_In|by apply bool_decide_eq_true].
Qed.

(** The readiness of a transaction does not depend on the details noted meanwhile. *)
Lemma ready_same_pool q txd id p p' : mp_black_tx_list p = mp_black_tx_list p' ->
  is_transaction_ready_to_go q txd id p = is_transaction_ready_to_go q txd id p'.
Proof. intros E. unfold is_transaction_ready_to_go, is_tx_blacklisted, check_tx_multisig_ins_and_outs. rewrite E. reflexivity. Qed.

Lemma u64_add_l x y : u64 (u64 x + y) = u64 (x + y).
Proof. apply Zplus_mod_idemp_l. Qed.

Lemma prefix_sublist {A} (l l' : list A) : l `prefix_of` l' -> l `sublist_of` l'.
Proof. intros [k ->]. by apply sublist_inserts_r. Qed.

Lemma sublist_map {A B} (f : A -> B) (l l' : list A) : l `sublist_of` l' -> map f l `sublist_of` map f l'.
Proof. induction 1; cbn; by constructor. Qed.

Section filling_invariant.
Context (q : blockchain_queries) (p0 : tx_memory_pool) (median_size height reserved : Z) (regs : bool) (explicit_size empty_reward : Z).

Definition worth_including (e : pooled) : Prop :=
  tx_expired q (td_tx e.2) = false /\ exists txd', is_transaction_ready_to_go q e.2 e.1 p0 = Ret (true, txd').

(** The key images of a transaction that names each of its own once are not
    among those of a later one. *)
Definition images_apart (l : list pooled) : Prop := forall i j a b, l !! i = Some a -> l !! j = Some b -> (i < j)%nat ->
  NoDup (images a) -> forall k, k ∈ images a -> k ∉ images b.

(** The best template so far is [l]. *)
Definition best_so_far (s : filling) (l : list pooled) : Prop :=
  l = [] /\ fl_best_money s = empty_reward /\ fl_total_size s = 0 /\ fl_fee s = 0 \/
  l <> [] /\ fl_total_size s = u64 (explicit_size + total_blob_size l) /\ fl_fee s = u64 (total_fee l) /\
  empty_reward < fl_best_money s /\
  exists reward, reward_of_size median_size height (u64 (fl_total_size s + reserved)) = Some reward /\ fl_best_money s = u64 (reward + fl_fee s).

(** After the entries [seen], each marked as skipped or taken. *)
Record fill_inv (marks : list (option pooled)) (seen rest : list pooled) (s : filling) : Prop := {
  fi_txs : fl_txs s = marks ++ map Some rest;
  fi_marks : Forall2 (fun m e => m = None \/ m = Some e) marks seen;
  fi_size : fl_current_size s = u64 (explicit_size + total_blob_size (omap id marks));
  fi_fee : fl_current_fee s = u64 (total_fee (omap id marks));
  fi_good : Forall worth_including (omap id marks);
  fi_images : images_apart (omap id marks) /\
    (forall e k, e ∈ omap id marks -> NoDup (images e) -> k ∈ images e -> k ∈ fl_k_images s);
  fi_position : (fl_best_position s <= List.length marks)%nat;
  fi_best : best_so_far s (omap id (take (fl_best_position s) (fl_txs s)))
}.

Lemma fill_inv_skip marks seen e rest s : fill_inv marks seen (e :: rest) s ->
  fill_inv (marks ++ [None]) (seen ++ [e]) rest (fl_skip (List.length marks) s).
Proof.
  intros [I1 I2 I3 I4 I5 I6 I7 I8].
  assert (Ho : omap id (marks ++ [None]) = omap id marks) by (rewrite omap_app; cbn; by rewrite app_nil_r).
  split; cbn [fl_skip fl_txs fl_current_size fl_current_fee fl_k_images fl_best_position]; rewrite ?Ho; try done.
  - rewrite I1. rewrite insert_app_r_alt by lia. rewrite Nat.sub_diag. cbn. by rewrite <- app_assoc.
  - apply Forall2_app; [done|]. repeat constructor. 
  - rewrite length_app. cbn. lia.
  - rewrite take_insert_ge by done. exact I8.
Qed.

Lemma fill_inv_take marks seen e rest s : fill_inv marks seen (e :: rest) s ->
  worth_including e -> have_key_images (fl_k_images s) (td_tx e.2) = false ->
  fill_inv (marks ++ [Some e]) (seen ++ [e]) rest (fl_take e.2 s).
Proof.
  intros [I1 I2 I3 I4 I5 [I6 I6'] I7 I8] He Hk.
  assert (Ho : omap id (marks ++ [Some e]) = omap id marks ++ [e]) by (rewrite omap_app; cbn; done).
  destruct (total_snoc (omap id marks) e) as [Hs Hf].
  split; cbn [fl_take fl_txs fl_current_size fl_current_fee fl_k_images fl_best_position]; rewrite ?Ho, ?Hs, ?Hf; try done.
  - rewrite I1. by rewrite <- app_assoc.
  - apply Forall2_app; [done|]. constructor; [by right|constructor].
  - rewrite I3, u64_add_l. f_equal. lia.
  - by rewrite I4, u64_add_l.
  - apply Forall_app. split; [done|]. constructor; [done|constructor].
  - split.
    + intros i j a e' Ha He' Hij Hnd k Hka Hke. apply lookup_lt_Some in He' as Hj. rewrite length_app in Hj. cbn [List.length] in Hj.
      rewrite (lookup_app_l _ _ i) in Ha by lia. destruct (decide (j < List.length (omap id marks))%nat).
      * rewrite lookup_app_l in He' by done. by apply (I6 i j a e' Ha He' Hij Hnd k Hka).
      * rewrite lookup_app_r in He' by lia. apply list_lookup_singleton_Some in He' as [_ <-].
        apply (have_key_images_false _ _ Hk k Hke). apply (I6' a); [by eapply list_elem_of_lookup_2|done|done].
    + intros a k [Ha|Ha%list_elem_of_singleton]%elem_of_app Hnd Hka; [|subst a]; [by apply append_images_keeps, (I6' a)|].
      unfold append_key_images. apply append_images_all; [done|by apply have_key_images_false|by right].
  - rewrite length_app. cbn. lia.
Qed.

Lemma fill_inv_best marks seen e rest s reward : fill_inv (marks ++ [Some e]) seen rest s ->
  reward_of_size median_size height (u64 (fl_current_size s + reserved)) = Some reward ->
  fl_best_money s < u64 (reward + fl_current_fee s) ->
  fill_inv (marks ++ [Some e]) seen rest (fl_best (List.length marks) (u64 (reward + fl_current_fee s)) s).
Proof.
  intros [I1 I2 I3 I4 I5 I6 I7 I8] Hr Hlt. split; try done.
  - cbn. rewrite length_app. cbn. lia.
  - assert (Hl : omap id (take (S (List.length marks)) (fl_txs s)) = omap id (marks ++ [Some e])).
    { rewrite I1. f_equal. rewrite take_app_length'; [done|]. rewrite length_app. cbn. lia. }
    cbn [fl_best fl_best_position fl_txs]. rewrite Hl. right.
    split; [rewrite omap_app; cbn; by destruct (omap id marks)|]. cbn [fl_best fl_total_size fl_fee fl_best_money]. do 2 (split; [done|]). split; [|eauto].
    destruct I8 as [(_ & <- & _)|(_ & _ & _ & He & _)]; lia.
Qed.

Lemma fill_inv_count marks seen rest s : fill_inv marks seen rest s -> fill_inv marks seen rest (fl_count_alias s).
Proof. by intros [I1 I2 I3 I4 I5 I6 I7 I8]. Qed.

Lemma fill_turn_inv marks seen e rest s p b s' p' :
  fill_inv marks seen (e :: rest) s -> mp_black_tx_list p = mp_black_tx_list p0 ->
  fill_turn q median_size height reserved regs (List.length marks) e s p = (Ok (b, s'), p') ->
  exists m, fill_inv (marks ++ [m]) (seen ++ [e]) rest s'.
Proof.
  intros HI Hb E. pose proof (fill_inv_skip _ _ _ _ _ HI) as Hskip. unfold fill_turn in E. destruct e as [h txd].
  destruct (tx_expired q (td_tx txd)) eqn:Ee; [injection E as <- <- <-; by exists None|].
  destruct (parse_and_validate_tx_extra _ _) as [ok ei]. apply bind_ok in E as (u & p1 & [_ <-]%check_ok & E).
  destruct (negb _ && _); [injection E as <- <- <-; by exists None|].
  apply bind_ok in E as (p1 & p2 & [<- <-]%read_ok & E). apply bind_ok in E as (ready & p1 & [Er <-]%lift_outcome_ok & E).
  apply bind_ok in E as (u' & p1 & _ & E). destruct ready as [good txd']. cbn [fst] in E.
  destruct good; [|injection E as <- <- <-; by exists None]. cbn [negb orb] in E.
  destruct (have_key_images _ _) eqn:Ek; [injection E as <- <- <-; by exists None|].
  assert (Hw : worth_including (h, txd)) by (split; [done|]; exists txd'; cbn [fst snd]; by rewrite <- (ready_same_pool q txd h p p0 Hb)).
  pose proof (fill_inv_take _ _ _ _ _ HI Hw Ek) as Htake. cbn [snd] in Htake. exists (Some (h, txd)).
  destruct (reward_of_size _ _ _) as [reward|] eqn:Erew; [|by injection E as <- <- <-].
  assert (Hbest : fill_inv (marks ++ [Some (h, txd)]) (seen ++ [(h, txd)]) rest
    (if fl_best_money (fl_take txd s) <? u64 (reward + fl_current_fee (fl_take txd s))
     then fl_best (List.length marks) (u64 (reward + fl_current_fee (fl_take txd s))) (fl_take txd s) else fl_take txd s)).
  { destruct (_ <? _) eqn:El; [|done]. zbool. by apply fill_inv_best. }
  injection E as <- <- <-. destruct (negb _); [by apply fill_inv_count|done].
Qed.

Lemma noted_blacklist p txd p' : noted p txd p' -> mp_black_tx_list p' = mp_black_tx_list p.
Proof. by intros [->|(after & _ & ->)]. Qed.

Lemma fill_loop_spec marks seen rest s p s' p' :
  fill_inv marks seen rest s -> mp_black_tx_list p = mp_black_tx_list p0 ->
  fill_loop q median_size height reserved regs (List.length marks) rest s p = (Ok s', p') ->
  exists marks' seen' rest', seen ++ rest = seen' ++ rest' /\ fill_inv marks' seen' rest' s'.
Proof.
  revert marks seen s p. induction rest as [|e rest IH]; intros marks seen s p HI Hb E; cbn [fill_loop] in E.
  { injection E as <- <-. by exists marks, seen, []. }
  apply bind_ok in E as ([b s1] & p1 & Et & E). pose proof Et as Hp1%fill_turn_pool%noted_blacklist.
  destruct (fill_turn_inv _ _ _ _ _ _ _ _ _ HI Hb Et) as [m HI']. cbn [fst snd] in E. destruct b.
  - replace (S (List.length marks)) with (List.length (marks ++ [m])) in E by (rewrite length_app; cbn; lia).
    destruct (IH _ _ _ _ HI' (eq_trans Hp1 Hb) E) as (marks' & seen' & rest' & Eq & HI''). exists marks', seen', rest'.
    split; [|done]. by rewrite <- Eq, <- app_assoc.
  - injection E as <- <-. exists (marks ++ [m]), (seen ++ [e]), rest. split; [|done]. by rewrite <- app_assoc.
Qed.

Lemma fill_inv_start txs :
  fill_inv [] [] txs {| fl_txs := map Some txs; fl_current_size := u64 explicit_size; fl_current_fee := 0; fl_best_money := empty_reward;
    fl_best_position := 0; fl_total_size := 0; fl_fee := 0; fl_alias_count := 0; fl_k_images := ∅ |}.
Proof.
  split; try done; cbn.
  - by rewrite Z.add_0_r.
  - split; [by intros i j a e|by intros e k ?%elem_of_nil].
  - by left.
Qed.

Lemma marks_sublist (marks : list (option pooled)) seen :
  Forall2 (fun m e => m = None \/ m = Some e) marks seen -> omap id marks `sublist_of` seen.
Proof. induction 1 as [|m e marks seen [->| ->] _ IH]; cbn; by constructor. Qed.
End filling_invariant.

Lemma omap_fst_marks (l : list (option pooled)) : omap (fun o => fst <$> o) l = map fst (omap id l).
Proof. induction l as [|[e|] l IH]; cbn; [done| |done]. by rewrite IH. Qed.

Lemma omap_take_prefix (n : nat) (l : list (option pooled)) : omap id (take n l) `prefix_of` omap id l.
Proof. rewrite <- (take_drop n l) at 2. rewrite omap_app. by apply prefix_app_r. Qed.

Lemma explicit_fees (l : list transaction) fee : fold_left (fun fee tx => u64 (fee + tx_fee tx)) l (u64 fee) = u64 (fee + sum_Z (map tx_fee l)).
Proof.
  revert fee. induction l as [|tx l IH]; intros fee; cbn [fold_left map].
  - f_equal. cbn. lia.
  - rewrite u64_add_l, IH, sum_Z_cons. f_equal. lia.
Qed.

Lemma u64_add_r x y : u64 (x + u64 y) = u64 (x + y).
Proof. apply Zplus_mod_idemp_r. Qed.

(** Fees per byte are ordered when no size is zero. *)
Lemma fee_rate_order l : Forall (fun e => 0 < td_blob_size e.2) l -> strict_weak_order fee_rate_above l.
Proof.
  intros Hl. rewrite list.Forall_forall in Hl. unfold fee_rate_above. split.
  - intros x _. apply Z.ltb_irrefl.
  - intros x y _ _ Hxy. zbool. lia.
  - intros x y z Hx%Hl Hy%Hl Hz%Hl H1 H2. zbool. nia.
Qed.

Lemma StronglySorted_sublist {A} (R : A -> A -> Prop) l l' : l' `sublist_of` l -> StronglySorted R l -> StronglySorted R l'.
Proof.
  induction 1 as [|x l' l Hs IH|x l' l Hs IH]; intros Hl; [done| |].
  - apply StronglySorted_inv in Hl as [Hl Hx]. constructor; [by apply IH|]. apply list.Forall_forall. intros y Hy.
    rewrite list.Forall_forall in Hx. apply Hx. by eapply sublist_subseteq.
  - apply StronglySorted_inv in Hl as [Hl _]. by apply IH.
Qed.

Definition blob_reserved (hf6 : bool) : Z := if hf6 then CURRENCY_COINBASE_BLOB_RESERVED_SIZE_HF6 else CURRENCY_COINBASE_BLOB_RESERVED_SIZE.

(** C16: A block template takes from the pool transactions that are there, are not
    expired and are ready for the next block, each once, higher fee per byte first;
    the fee and the size reported are the sums over them and the explicit
    transactions.  If it takes any, the block with them still has a reward, and
    reward and fees together beat the empty block.  Of a pool reached by its own
    operations it takes no two transactions that spend one key image or name one
    multisignature output, unless one came with a block or from the node's own core
    ([trusted]); and wherever they came from, a transaction that names each of its
    own key images once shares none with a transaction taken after it.  Transactions
    that came with a block have not passed the check of their own key images, and
    without that condition, or for multisignature outputs, two of them may conflict
    in a template ([trusted_transactions_conflict]).  The sizes kept with the
    transactions of the pool are not zero. *)
Theorem template_sound `{Curve} check_key unsecure trusted q median_size height explicit_txs p hashes total_size fee p' explicit_size :
  pool_reachable check_key unsecure (p, trusted) ->
  fill_block_template q median_size height explicit_txs p = (Ok (hashes, total_size, fee), p') ->
  get_objects_blobsize explicit_txs = Ret explicit_size ->
  (forall id td, mp_transactions p !! id = Some td -> 0 < td_blob_size td) ->
  exists (chosen : list pooled) hf6 empty_reward,
    hashes = map fst chosen ++ map get_transaction_hash explicit_txs /\
    Forall (fun e => mp_transactions p !! e.1 = Some e.2 /\ worth_including q p e) chosen /\
    NoDup (map fst chosen) /\
    (forall a e, a ∈ chosen -> e ∈ chosen -> a.1 <> e.1 -> a.1 ∉ trusted -> e.1 ∉ trusted -> ~ conflict (td_tx a.2) (td_tx e.2)) /\
    (forall i j a e, chosen !! i = Some a -> chosen !! j = Some e -> (i < j)%nat -> NoDup (images a) -> forall k, k ∈ images a -> k ∉ images e) /\
    StronglySorted (fun a b => td_fee b.2 * td_blob_size a.2 <= td_fee a.2 * td_blob_size b.2) chosen /\
    fee = u64 (total_fee chosen + sum_Z (map tx_fee explicit_txs)) /\
    bq_is_hardfork_06_active q = Ret hf6 /\
    get_block_reward_checked median_size (blob_reserved hf6) height = Some empty_reward /\
    (chosen = [] /\ total_size = 0 \/
     chosen <> [] /\ total_size = u64 (explicit_size + total_blob_size chosen) /\
     exists reward, get_block_reward_checked median_size (u64 (total_size + blob_reserved hf6)) height = Some reward /\
       empty_reward < u64 (reward + total_fee chosen)).
Proof.
  intros [_ Hconf]%pool_reachable_inv E Hex Hpos. unfold fill_block_template in E. apply bind_ok in E as (txs & s1 & [<- <-]%read_ok & E).
  apply bind_ok in E as (es & s1 & [Ees <-]%lift_outcome_ok & E). rewrite Hex in Ees. injection Ees as <-.
  apply bind_ok in E as (hf6 & s1 & [E6 <-]%lift_outcome_ok & E). apply bind_ok in E as (r0 & s1 & [E0 <-]%some_ok & E).
  apply bind_ok in E as (regs & s1 & [_ <-]%some_ok & E). apply bind_ok in E as (s & s1 & El & E). injection E as <- <- <- <-.
  set (txs := std_sort fee_rate_above (enumerate_items (mp_transactions p))) in *.
  destruct (fill_loop_spec q p median_size height (blob_reserved hf6) regs explicit_size r0 [] [] txs _ p s s1
    (fill_inv_start q p median_size height (blob_reserved hf6) explicit_size r0 txs) eq_refl El) as (marks & seen & rest & Eq & [I1 I2 _ _ I5 [I6 _] I7 I8]).
  cbn [app] in Eq. rewrite omap_fst_marks. set (chosen := omap id (take (fl_best_position s) (fl_txs s))) in *.
  assert (Hpre : chosen `prefix_of` omap id marks).
  { unfold chosen. rewrite I1, take_app_le by done. apply omap_take_prefix. }
  assert (Hsub : chosen `sublist_of` txs).
  { etrans; [apply prefix_sublist, Hpre|]. rewrite Eq. apply sublist_inserts_r. by apply marks_sublist. }
  assert (Hin : forall e, e ∈ chosen -> mp_transactions p !! e.1 = Some e.2).
  { intros [h td] He. eapply sublist_subseteq in He; [|done]. unfold txs in He. rewrite std_sort_perm in He. by apply elem_of_enumerate in He. }
  exists chosen, hf6, r0. split; [done|]. split; [|split; [|split; [|split; [|split; [|split; [|split; [done|split; [done|]]]]]]]].
  - apply list.Forall_forall. intros e He. split; [by apply Hin|]. rewrite list.Forall_forall in I5. apply I5.
    by eapply sublist_subseteq; [apply prefix_sublist|].
  - apply (sublist_NoDup _ (map fst txs)); [|by apply sublist_map]. unfold txs. rewrite std_sort_perm, enumerate_perm. apply NoDup_fst_map_to_list.
  - intros a e Ha He Hne Hta Hte Hc. by destruct (Hconf a.1 e.1 a.2 e.2 (Hin a Ha) (Hin e He) Hne Hc).
  - intros i j a e Ha He. by apply (I6 i j a e); (eapply prefix_lookup_Some; [|exact Hpre]).
  - apply (StronglySorted_sublist _ txs); [done|].
    assert (Hs : StronglySorted (fun x y : pooled => fee_rate_above y x = false) txs).
    { apply std_sort_sorted, fee_rate_order, list.Forall_forall. intros [h td] He%elem_of_enumerate. by apply (Hpos h). }
    clear -Hs. induction Hs as [|x l _ IH Hx]; constructor; [done|]. eapply (Forall_impl _ _ _ Hx). intros y Hy. unfold fee_rate_above in Hy. zbool. lia.
  - destruct I8 as [(-> & _ & _ & ->)|(_ & _ & -> & _)]; [change 0 with (u64 0) at 1|]; by rewrite explicit_fees.
  - destruct I8 as [(-> & _ & -> & _)|(Hne & Hs & Hf & Hlt & reward & Hr & Hm)]; [by left|right]. split; [done|]. split; [done|].
    exists reward. split; [done|]. by rewrite Hm, Hf, u64_add_r in Hlt.
Qed.

End templates.

(** ** Examples *)

Module pool_demo.

Definition db : PoolDb := {| enumerate_items := map_to_list; enumerate_perm m := reflexivity _ |}.
Definition curve : Curve := free_curve [].

(** A chain of a hundred blocks that takes every transaction; the inputs draw on
    block 5. *)
Definition node : blockchain_queries := {|
  bq_is_in_checkpoint_zone := false; bq_tx_pool_min_fee := 10; bq_core_time := 1000;
  bq_validate_tx_for_hardfork_specific_terms _ := Ret true; bq_tx_expiration_median := 0;
  bq_check_tx_inputs _ _ calculate := Ret (Some (if calculate then key_of 50 else null_hash, 5));
  bq_validate_asset_operation _ _ _ := Ret true; bq_has_alias _ := false; bq_alias_by_address _ := [];
  bq_prevalidate_alias_info _ _ := Ret true; bq_is_tx_related_to_altblock _ := false; bq_current_blockchain_size := 100;
  bq_block_id_by_height _ := key_of 50; bq_have_tx_keyimg_as_spent_before _ _ := false; bq_have_tx_keyimges_as_spent _ := false;
  bq_has_multisig_output _ := false; bq_is_hardfork_06_active := Ret true |}.

Definition tvc0 : tx_verification_context := {|
  m_should_be_relayed := false; m_verification_failed := false; m_verification_impossible := false; m_added_to_pool := false;
  m_already_existed := false; m_error_code := [] |}.

Definition spend (ki fee : Z) : transaction := TxSemantic.demo_bare 1 0 [TxSemantic.demo_in 700 ki] [TxSemantic.demo_out (700 - fee)].
Definition add (kept_by_block : bool) (tx : transaction) : st adding unit :=
  @add_tx curve db TxSemantic.demo_check_key node tx (get_transaction_hash tx) 500 kept_by_block false.

Definition tx1 : transaction := spend 1 50.
Definition tx2 : transaction := spend 2 70.
Definition id1 : hash := Eval vm_compute in get_transaction_hash tx1.
Definition id2 : hash := Eval vm_compute in get_transaction_hash tx2.
Definition one : tx_memory_pool := (add false tx1 (new_pool false, tvc0)).2.1.
Definition two : tx_memory_pool := (add false tx2 (one, tvc0)).2.1.

(** A second spend of a key image is refused from a stranger, and let in with a block. *)
Lemma conflicting_spend :
  size (mp_transactions two) = 2%nat /\
  mp_transactions (add false (spend 1 60) (two, tvc0)).2.1 = mp_transactions two /\
  size (mp_transactions (add true (spend 1 60) (two, tvc0)).2.1) = 3%nat.
Proof. split; [|split]; vm_compute; reflexivity. Qed.

Notation reachable := (@pool_reachable curve db insertion_std_sort TxSemantic.demo_check_key false).

Lemma reach_add p trusted tx : reachable (p, trusted) -> mp_transactions p !! get_transaction_hash tx = None ->
  stranger p false false = true -> reachable ((add false tx (p, tvc0)).2.1, trusted).
Proof.
  intros Hp Hnew Hs. eapply rtc_r; [exact Hp|]. unfold add.
  destruct (@add_tx curve db TxSemantic.demo_check_key node tx (get_transaction_hash tx) 500 false false (p, tvc0)) as [r [p' tvc']] eqn:E.
  pose proof (@step_add curve db insertion_std_sort TxSemantic.demo_check_key node p trusted tx 500 false false tvc0 r p' tvc') as Hstep.
  rewrite Hs in Hstep. apply Hstep; [|exact E]. intros td Etd. by rewrite Hnew in Etd.
Qed.

Lemma two_reachable : reachable (two, ∅).
Proof.
  apply reach_add; [apply reach_add; [apply rtc_refl|done|done]|vm_compute; reflexivity..].
Qed.

Lemma two_entries : exists t1 t2, mp_transactions two !! id1 = Some t1 /\ mp_transactions two !! id2 = Some t2 /\ td_tx t1 = tx1 /\ td_tx t2 = tx2.
Proof. do 2 eexists. split; [vm_compute; reflexivity|]. split; [vm_compute; reflexivity|]. split; reflexivity. Qed.

Example key_image_cache_exact_witness : exists id td, mp_transactions two !! id = Some td /\ key_of 1 ∈ key_images_of (vin (td_tx td)).
Proof.
  destruct (@key_image_cache_exact curve db insertion_std_sort TxSemantic.demo_check_key false two ∅ two_reachable) as (_ & _ & H).
  apply H. vm_compute. reflexivity.
Defined.

Example pool_never_conflicts_witness : ~ conflict tx1 tx2.
Proof.
  destruct two_entries as (t1 & t2 & E1 & E2 & <- & <-).
  apply (@pool_never_conflicts curve db insertion_std_sort TxSemantic.demo_check_key false two ∅ id1 id2 t1 t2 two_reachable E1 E2);
    [by vm_compute|apply not_elem_of_empty..].
Defined.

Example stranger_admitted_iff_witness : exists fee used, @admissible curve db TxSemantic.demo_check_key node one tx2 id2 500 fee used.
Proof.
  destruct (proj1 (@stranger_admitted_iff curve db TxSemantic.demo_check_key node one tvc0 tx2 id2 500 two ltac:(vm_compute; reflexivity)))
    as (fee & used & H & _).
  - eexists. split; vm_compute; reflexivity.
  - by exists fee, used.
Defined.

Definition template : st tx_memory_pool (list hash * Z * Z) := @fill_block_template db insertion_std_sort node 0 100 [].

(** Both transactions are taken, the one with the higher fee first. *)
Example template_sound_witness : exists p' chosen,
  template two = (Ok ([id2; id1], 1000, 120), p') /\ map fst chosen = [id2; id1] /\ NoDup (map fst chosen) /\
  Forall (fun e => mp_transactions two !! e.1 = Some e.2) chosen /\
  (forall a e, a ∈ chosen -> e ∈ chosen -> a.1 <> e.1 -> ~ conflict (td_tx a.2) (td_tx e.2)).
Proof.
  destruct (template two) as [r p'] eqn:E.
  assert (r = Ok ([id2; id1], 1000, 120)) as -> by (change r with (r, p').1; rewrite <- E; vm_compute; reflexivity).
  destruct (@template_sound db insertion_std_sort curve TxSemantic.demo_check_key false ∅ node 0 100 [] two [id2; id1] 1000 120 p' 0 two_reachable E eq_refl)
    as (chosen & hf6 & r0 & Hh & Hin & Hnd & Hc & _).
  { intros id td Hin. apply elem_of_map_to_list in Hin. revert id td Hin.
    assert (Hall : Forall (fun e => 0 < td_blob_size e.2) (map_to_list (mp_transactions two))) by (vm_compute; repeat constructor).
    rewrite list.Forall_forall in Hall. intros id td Hin. exact (Hall _ Hin). }
  exists p', chosen. split; [reflexivity|]. rewrite app_nil_r in Hh. split; [done|]. split; [done|].
  split; [by eapply (Forall_impl _ _ _ Hin); intros e [? _]|]. intros a e Ha He Hne. by apply Hc; try apply not_elem_of_empty.
Defined.

(** Transactions that came with a block.  The first spends a key image twice, and
    the set of the template stops at the repetition: a later transaction with its
    last key image is taken too.  And two that name one multisignature output are
    both taken. *)
Definition repeating_tx : transaction :=
  TxSemantic.demo_bare 1 0 [TxSemantic.demo_in 700 1; TxSemantic.demo_in 700 1; TxSemantic.demo_in 700 2] [TxSemantic.demo_out 1000].
Definition multisig_tx (fee : Z) : transaction :=
  TxSemantic.demo_bare 1 0 [in_multisig {| tms_amount := 700; tms_multisig_out_id := key_of 40; tms_sigs_count := 1; tms_etc_details := [] |}]
    [TxSemantic.demo_out (700 - fee)].
Definition from_block (txs : list transaction) : tx_memory_pool :=
  fold_left (fun p tx => (add true tx (p, tvc0)).2.1) txs (new_pool false).

Lemma trusted_transactions_conflict :
  (template (from_block [repeating_tx; spend 2 50])).1 = Ok (map get_transaction_hash [repeating_tx; spend 2 50], 1000, 1150) /\
  conflict repeating_tx (spend 2 50) /\
  (template (from_block [multisig_tx 60; multisig_tx 50])).1 = Ok (map get_transaction_hash [multisig_tx 60; multisig_tx 50], 1000, 110) /\
  conflict (multisig_tx 60) (multisig_tx 50).
Proof.
  split; [vm_compute; reflexivity|]. split; [left; exists (key_of 2); split; [apply list_elem_of_In; vm_compute; tauto|by left]|].
  split; [vm_compute; reflexivity|]. right. exists (key_of 40). split; by left.
Qed.


End pool_demo.
