(* ===== verification/PoolChain.v ===== *)
(** * The pool on a blockchain

    What the pool of transactions asks ([blockchain_queries]) answered by the
    functions of [src/src/currency_core/blockchain_storage.cpp] that the pool calls, and
    what the two guarantee together: what the chain has checked of a stranger's
    transaction the pool takes, and what is left for later.  The check of the
    inputs that a block makes has one rule more, on the age of what is spent; the
    pool's own test of the age, made before a transaction gets into a block
    template, makes up for it. *)

From stdpp Require Import sorting.
From S2P Require Import Prelude Config StdSort HardForks Archive Pod CryptoTypes Basic Transactions HfTerms TxSemantic TxHardforks BlockReward BlockId Assets Aliases StateM DbArrays Gateway Chain Blocks InputChecks InputSpec CoinageRule Curve CurveModel Balance TxSize TxPool PoolSpec.

Section pool_chain.
Context {GC : GatewayCrypto} {AC : AssetCrypto} {IC : InputCrypto}.
Context {TO TG SV : Type} {AO : ArrayStore Z global_output_entry TO}.
Context (rc : runtime_config) (alias_validation_pubkey : public_key) (b : blockchain TO TG SV).

(** The result of a check that leaves the containers alone. *)
Definition bool_of {S A} (r : result A * S) : outcome bool := match r.1 with Ok _ => Ret true | Fail => Ret false | Exn => Throw end.

(** A context as the pool initializes it. *)
Definition pool_ctic (calculate : bool) : check_tx_inputs_context := {|
  check_hf4_coinage_rule := false; calculate_max_used_block_id := calculate; max_used_block_id := null_hash; max_used_block_height := 0;
  all_tx_ins_have_explicit_native_asset_ids := true |}.

(** A context as a block's check of the inputs initializes it. *)
Definition block_ctic : check_tx_inputs_context := {|
  check_hf4_coinage_rule := true; calculate_max_used_block_id := false; max_used_block_id := null_hash; max_used_block_height := 0;
  all_tx_ins_have_explicit_native_asset_ids := true |}.

Definition check_tx_inputs_for_pool (tx : transaction) (id : hash) (calculate : bool) : outcome (option (hash * Z)) :=
  match check_tx_inputs rc b tx id (pool_ctic calculate) with
  | (Ok _, c) => Ret (Some (max_used_block_id c, max_used_block_height c))
  | (Fail, _) => Ret None
  | (Exn, _) => Throw
  end.

(** The rules of the next block; none passes after a major failure. *)
Definition validate_tx_for_next_block (tx : transaction) : outcome bool :=
  if bc_db_major_failure b then Ret false
  else validate_tx_for_hardfork_specific_terms (rc_hard_forks rc) tx (get_current_blockchain_size b).

Definition prevalidate_alias_for_pool (tx : transaction) (eai : extra_alias_entry) : outcome bool :=
  match (get_tx_fee_median (bc_storage b)).1 with
  | Ok tx_fee_median => bool_of (prevalidate_alias_info alias_validation_pubkey tx_fee_median tx eai (m_aliases (bc_chain b)))
  | Fail => Ret false
  | Exn => Throw
  end.

Definition chain_queries : blockchain_queries := {|
  bq_is_in_checkpoint_zone := bc_is_in_checkpoint_zone b;
  bq_tx_pool_min_fee := rc_tx_pool_min_fee rc;
  bq_core_time := rc_core_time rc;
  bq_validate_tx_for_hardfork_specific_terms := validate_tx_for_next_block;
  bq_tx_expiration_median := get_tx_expiration_median b;
  bq_check_tx_inputs := check_tx_inputs_for_pool;
  bq_validate_asset_operation tx id ado :=
    bool_of (validate_asset_operation (rc_hard_forks rc) tx id ado (get_current_blockchain_size b) (m_db_assets (bc_chain b)));
  bq_has_alias alias := bool_decide (is_Some (get_alias_info alias (m_aliases (bc_chain b))));
  bq_alias_by_address addr := get_alias_by_address addr (m_aliases (bc_chain b));
  bq_prevalidate_alias_info := prevalidate_alias_for_pool;
  bq_is_tx_related_to_altblock := is_tx_related_to_altblock b;
  bq_current_blockchain_size := get_current_blockchain_size b;
  bq_block_id_by_height := get_block_id_by_height b;
  bq_have_tx_keyimg_as_spent_before := have_tx_keyimg_as_spent_before b;
  bq_have_tx_keyimges_as_spent := have_tx_keyimges_as_spent b;
  bq_has_multisig_output := has_multisig_output b;
  bq_is_hardfork_06_active := is_hardfork_active rc b 6
|}.

(** ** Admission *)

Lemma spent_image_found ki h : m_db_spent_keys (bc_chain b) !! ki = Some h -> h < UINT64_MAX -> have_tx_keyimg_as_spent b ki = true.
Proof. unfold have_tx_keyimg_as_spent, have_tx_keyimg_as_spent_before. intros ->. apply Z.ltb_lt. Qed.

(** Heights at which key images were spent are heights of blocks. *)
Definition spent_heights_ok : Prop := forall ki h, m_db_spent_keys (bc_chain b) !! ki = Some h -> h < UINT64_MAX.

Lemma not_spent ki : spent_heights_ok -> have_tx_keyimg_as_spent b ki = false -> m_db_spent_keys (bc_chain b) !! ki = None.
Proof.
  intros Hok Hf. destruct (m_db_spent_keys (bc_chain b) !! ki) as [h|] eqn:E; [|done].
  rewrite (spent_image_found ki h E (Hok ki h E)) in Hf. done.
Qed.

(** After hard fork 4 the version of a transaction is not the old one, so the pool
    tests its age. *)
Lemma next_block_version hard_forks tx h : validate_tx_for_hardfork_specific_terms hard_forks tx h = Ret true ->
  is_hardfork_active_for_height 4 h hard_forks = Ret true -> TRANSACTION_VERSION_PRE_HF4 < version tx.
Proof.
  unfold validate_tx_for_hardfork_specific_terms. intros Hv Hf. rewrite Hf in Hv.
  destruct (is_hardfork_active_for_height 6 h hard_forks) as [a6|]; [|done]. cbn [mbind outcome_bind] in Hv.
  match type of Hv with (match ?m with _ => _ end) = _ => destruct m as [[]|]; [|done..] | (?m ≫= _) = _ => destruct m as [[]|]; [|done..] end.
  cbn [negb mbind outcome_bind andb] in Hv. destruct (hf4_rules tx) eqn:E4; [|done].
  apply hf4_rules_spec in E4 as [E4 _]. unfold TRANSACTION_VERSION_PRE_HF4. lia.
Qed.

Lemma age_test_old_enough tx h td : get_current_blockchain_size b < CURRENCY_MAX_BLOCK_NUMBER ->
  validate_tx_for_hardfork_specific_terms (rc_hard_forks rc) tx (get_current_blockchain_size b) = Ret true ->
  td_tx td = tx -> td_max_used_block_height td = h -> 0 <= h < get_current_blockchain_size b ->
  too_young chain_queries td = false -> old_enough rc b h.
Proof.
  intros Hsize Hv Htx Hh Hr Hy Hf. pose proof (next_block_version _ _ _ Hv Hf) as Hver. unfold too_young in Hy. rewrite Htx, Hh in Hy.
  apply andb_false_iff in Hy as [Hy|Hy]; zbool; [lia|]. change (bq_current_blockchain_size chain_queries) with (get_current_blockchain_size b) in Hy.
  unfold CURRENCY_HF4_MANDATORY_MIN_COINAGE, CURRENCY_MAX_BLOCK_NUMBER in *. rewrite wrap_small in Hy; [lia|]. split; lia.
Qed.

Lemma inserted_entry q tx id blob_size fee mid mh p : exists td,
  mp_transactions (do_insert_transaction q tx id blob_size false fee mid mh p) !! id = Some td /\ td_tx td = tx /\ td_max_used_block_height td = mh.
Proof.
  eexists. unfold do_insert_transaction, on_tx_add. rewrite (proj1 (insert_alias_info_txs _ _)). cbn.
  split; [apply lookup_insert_eq|done].
Qed.

(** C11: What has been checked, on the chain the pool sees, of a stranger's
    transaction that gets into the pool.  Every input refers to outputs of the main
    chain that are unlocked and whose keys signed it, no key image it spends is spent
    in the chain or by a transaction of the pool, its new multisignature outputs are
    not in the chain, it fits the hard fork of the next block, it is not expired and
    its semantics are valid.  One rule of a block is not among the checks: that
    hidden inputs spend nothing younger than ten blocks.  The height of the latest
    block it spends from is remembered instead, and once the pool's test of that
    height passes ([too_young], made before the transaction gets into a block
    template), the check of the inputs that a block makes, with all its rules,
    accepts the transaction too, on the same chain and unless it has
    multisignature inputs (which lower the height remembered).  The pool validates
    what is added and is in a state its operations lead to ([pool_inv]); spent key
    images are recorded with heights of blocks ([spent_heights_ok]), and the chain
    has fewer than [CURRENCY_MAX_BLOCK_NUMBER] blocks. *)
Theorem admitted_spendable `{Curve} `{PoolDb} check_key p trusted tvc tx id blob_size p' tvc' :
  mp_unsecure_disable_tx_validation_on_addition p = false -> pool_inv p trusted -> Forall sigs_count_ok (vin tx) -> spent_heights_ok ->
  get_current_blockchain_size b < CURRENCY_MAX_BLOCK_NUMBER ->
  add_tx check_key chain_queries tx id blob_size false false (p, tvc) = (Ok tt, (p', tvc')) -> m_added_to_pool tvc' = true ->
  (forall k in_v, vin tx !! k = Some in_v -> exists ms, sources_ok rc b in_v ms /\ input_unspent b in_v /\ input_signed b tx k in_v id ms) /\
  (forall ki, ki ∈ key_images_of (vin tx) -> m_db_spent_keys (bc_chain b) !! ki = None /\
    forall h td, mp_transactions p !! h = Some td -> ki ∉ key_images_of (vin (td_tx td))) /\
  (forall ms, (ms, false) ∈ collect_multisig_ids_from_tx tx -> m_db_multisig_outs (bc_chain b) !! ms = None) /\
  validate_tx_for_hardfork_specific_terms (rc_hard_forks rc) tx (get_current_blockchain_size b) = Ret true /\
  is_tx_expired tx (get_tx_expiration_median b) = false /\ validate_tx_semantic check_key tx blob_size = Ret true /\
  exists td, mp_transactions p' !! id = Some td /\
    (no_multisig (vin tx) = true -> too_young chain_queries td = false -> exists c, check_tx_inputs rc b tx id block_ctic = (Ok tt, c)).
Proof.
  intros Hu Hp Hs Hspent Hsize E Hadd.
  destruct (stranger_checked check_key chain_queries p tvc tx id blob_size p' tvc' Hu E Hadd) as (fee & used & Ha & ->).
  assert (Hterms := adm_terms _ _ _ _ _ _ _ _ Ha). assert (Hin := adm_inputs _ _ _ _ _ _ _ _ Ha).
  assert (Hms := adm_multisig _ _ _ _ _ _ _ _ Ha). cbn in Hterms, Hin.
  assert (Hinputs : forall k in_v, vin tx !! k = Some in_v ->
    exists ms, sources_ok rc b in_v ms /\ input_unspent b in_v /\ input_signed b tx k in_v id ms).
  { unfold check_tx_inputs_for_pool in Hin. destruct (check_tx_inputs rc b tx id (pool_ctic true)) as [[[]| |] c] eqn:Ec; [|done..].
    destruct (check_tx_inputs_ok rc b _ _ _ _ Hs Ec) as [mss Hacc]. intros k in_v Hk.
    destruct (lookup_lt_is_Some_2 mss k) as [ms Hm]; [rewrite (acc_length _ _ _ _ _ _ _ Hacc); by eapply lookup_lt_Some|].
    exists ms. destruct (acc_inputs _ _ _ _ _ _ _ Hacc k in_v ms Hk Hm) as [Hso Hun Hsi].
    pose proof (Hsi (adm_synchronized _ _ _ _ _ _ _ _ Ha)). auto. }
  assert (Hrules : validate_tx_for_hardfork_specific_terms (rc_hard_forks rc) tx (get_current_blockchain_size b) = Ret true).
  { unfold validate_tx_for_next_block in Hterms. by destruct (bc_db_major_failure b). }
  split; [exact Hinputs|]. split; [|split; [|split; [exact Hrules|split; [|split]]]].
  - intros ki Hki. split.
    + apply not_spent; [done|]. apply list_elem_of_omap in Hki as (in_v & Hin_v & Eki). apply list_elem_of_lookup in Hin_v as [k Hk].
      destruct (Hinputs k in_v Hk) as (ms & _ & Hun & _). by apply Hun.
    + intros h td Etd. by eapply no_spent_image; [|apply (adm_images _ _ _ _ _ _ _ _ Ha)| |].
  - intros ms Hm. unfold check_tx_multisig_ins_and_outs in Hms. rewrite forallb_forall in Hms. apply list_elem_of_In in Hm.
    specialize (Hms _ Hm). cbn in Hms. apply andb_prop in Hms as [Hms _]. unfold has_multisig_output in Hms.
    destruct (m_db_multisig_outs (bc_chain b) !! ms); [done|reflexivity].
  - apply (adm_not_expired _ _ _ _ _ _ _ _ Ha).
  - apply (adm_semantic _ _ _ _ _ _ _ _ Ha).
  - destruct (inserted_entry chain_queries tx id blob_size fee used.1 used.2 p) as (td & Etd & Htx & Hh). exists td. split; [exact Etd|].
    intros Hm Hy. unfold check_tx_inputs_for_pool in Hin. destruct (check_tx_inputs rc b tx id (pool_ctic true)) as [[[]| |] c] eqn:Ec; [|done..].
    injection Hin as <-. cbn [snd] in Hh. pose proof (remembered_height rc b _ _ (pool_ctic true) _ Hs Hm eq_refl Ec) as Hr.
    assert (Hu64 : get_current_blockchain_size b < UINT64_MAX) by (unfold CURRENCY_MAX_BLOCK_NUMBER, UINT64_MAX in *; lia).
    apply (inputs_with_rule rc b Hu64 tx id (pool_ctic true) block_ctic c Hs Hm eq_refl eq_refl eq_refl Ec).
    by apply (age_test_old_enough tx _ td Hsize Hrules Htx Hh Hr Hy).
Qed.
End pool_chain.

(** ** Example *)

Module pool_chain_demo.
#[local] Existing Instance demo_crypto.
#[local] Existing Instance demo_signing_crypto.
#[local] Existing Instance demo_input_crypto.

(** A transfer of the output of 10 on the demonstration chain. *)
Definition transfer : transaction := {|
  tx_prefix := {| tp_version := 1; tp_hardfork_id := 0; tp_vin := [demo_key_in]; tp_extra := [P_public_key (key_of 9)];
                  tp_vout := [TxSemantic.demo_out 3] |};
  tx_attachment := []; tx_signatures := [sig_NLSAG [signed_by 8]]; tx_proofs := [] |}.

Definition queries : blockchain_queries := chain_queries demo_rc (key_of 60) demo_blockchain.
Definition add_result : result unit * (tx_memory_pool * tx_verification_context) :=
  @add_tx pool_demo.curve pool_demo.db TxSemantic.demo_check_key queries transfer (key_of 50) 500 false false (new_pool false, pool_demo.tvc0).

Lemma transfer_added : add_result.1 = Ok tt /\ m_added_to_pool add_result.2.2 = true.
Proof. split; vm_compute; reflexivity. Qed.

Lemma add_result_eq : add_result = (Ok tt, (add_result.2.1, add_result.2.2)).
Proof. rewrite <- (proj1 transfer_added). by destruct add_result as [r [p c]]. Qed.

Example admitted_spendable_witness :
  (exists ms, sources_ok demo_rc demo_blockchain demo_key_in ms /\ input_signed demo_blockchain transfer 0 demo_key_in (key_of 50) ms) /\
  exists c, check_tx_inputs demo_rc demo_blockchain transfer (key_of 50) block_ctic = (Ok tt, c).
Proof.
  destruct (@admitted_spendable demo_crypto demo_signing_crypto demo_input_crypto _ _ _ _ demo_rc (key_of 60) demo_blockchain pool_demo.curve
    pool_demo.db TxSemantic.demo_check_key (new_pool false) ∅ pool_demo.tvc0 transfer (key_of 50) 500 add_result.2.1 add_result.2.2 eq_refl
    (empty_pool_inv (new_pool false) ∅ eq_refl eq_refl)) as (H & _ & _ & _ & _ & _ & td & Etd & Hb).
  - constructor; [exact I|constructor].
  - intros ki h E. change ((∅ : gmap key_image Z) !! ki = Some h) in E. rewrite lookup_empty in E. discriminate.
  - vm_compute. reflexivity.
  - exact add_result_eq.
  - exact (proj2 transfer_added).
  - split; [destruct (H 0%nat demo_key_in eq_refl) as (ms & H1 & _ & H2); by exists ms|].
    apply Hb; [reflexivity|]. vm_compute in Etd. injection Etd as <-. vm_compute. reflexivity.
Defined.

(** The age: an output hidden in a transaction of height 3, on a chain of five
    blocks that has passed hard fork 4.  The pool's check of the inputs accepts what
    spends it, that of a block refuses it, and the pool's test of the age holds it
    back. *)
Definition believing_crypto : InputCrypto := {|
  validate_key_image := fun _ => true; check_ring_signature := fun _ _ _ _ => true; verify_CLSAG_GGX := fun _ _ _ _ _ _ => true |}.

Definition hidden_source : transaction := {|
  tx_prefix := {| tp_version := 2; tp_hardfork_id := 0; tp_vin := []; tp_extra := [];
    tp_vout := [out_zarcanum {| oz_version := 0; oz_stealth_address := key_of 8; oz_concealing_point := key_of 8; oz_amount_commitment := key_of 8;
      oz_blinded_asset_id := key_of 8; oz_encrypted_amount := 0; oz_encrypted_payment_id := 0; oz_mix_attr := 1 |}] |};
  tx_attachment := []; tx_signatures := []; tx_proofs := [] |}.
Definition hidden_blockchain : blockchain (array_db Z global_output_entry) unit unit := {|
  bc_chain := {|
    m_db_transactions := {[key_of 21 := {| tce_tx := hidden_source; m_keeper_block_height := 3; m_global_output_indexes := [0]; m_spent_flags := [false] |}]};
    m_db_spent_keys := ∅; m_db_outputs := snd (arr_push 0 (construct_output_entry (key_of 21) 0) arr_empty); m_db_multisig_outs := ∅;
    m_db_gateway_addresses := ∅; m_db_gateway_transactions := tt; m_db_assets := ∅; m_aliases := no_aliases; m_services_mgr := ∅ |};
  bc_storage := bc_storage demo_blockchain;
  bc_alternative_chains_txs := ∅; bc_is_in_checkpoint_zone := false; bc_db_major_failure := false |}.
Definition hidden_spend : transaction := {|
  tx_prefix := {| tp_version := 2; tp_hardfork_id := 0; tp_extra := [P_public_key (key_of 9)]; tp_vout := [];
    tp_vin := [in_zc {| tzc_key_offsets := [ref_global_index 0]; tzc_k_image := key_of 3; tzc_etc_details := [] |}] |};
  tx_attachment := []; tx_proofs := [];
  tx_signatures := [sig_ZC {| zcs_pseudo_out_amount_commitment := key_of 1; zcs_pseudo_out_blinded_asset_id := key_of 1;
    zcs_clsags_ggx := {| ggx_c := key_of 1; ggx_r_g := []; ggx_r_x := []; ggx_K1 := key_of 1; ggx_K2 := key_of 1 |} |}] |}.
Definition remembered : tx_details := {|
  td_tx := hidden_spend; td_blob_size := 500; td_fee := 10; td_max_used_block_id := key_of 1; td_max_used_block_height := 3;
  td_kept_by_block := false; td_last_failed_height := 0; td_last_failed_id := null_hash; td_receive_time := 0 |}.

Example pool_accepts_what_a_block_refuses :
  (exists c, @check_tx_inputs _ demo_signing_crypto believing_crypto _ _ _ _ young_rc hidden_blockchain hidden_spend (key_of 50) (pool_ctic true) = (Ok tt, c)
    /\ max_used_block_height c = 3) /\
  fst (@check_tx_inputs _ demo_signing_crypto believing_crypto _ _ _ _ young_rc hidden_blockchain hidden_spend (key_of 50) block_ctic) = Fail /\
  too_young (@chain_queries _ _ believing_crypto _ _ _ _ young_rc (key_of 60) hidden_blockchain) remembered = true.
Proof. split; [eexists; split; vm_compute; reflexivity|split; vm_compute; reflexivity]. Qed.
End pool_chain_demo.
